(* ===== verification/_CoqProject ===== *)
-Q . S2P
Prelude.v
Libc.v
KvTypes.v
MemoryPool.v
DmaPool.v
UtHash.v
HashTable.v
KvsApi.v
Emulator.v
MultiDevice.v
ThreadPool.v
Engine.v
EngineSpec.v
EngineProps.v
Async.v
Health.v
Lifecycle.v
FtlAlloc.v
KvFtl.v
KvFtlSpec.v
KvFtlProps.v
KvFtlIter.v
IoSched.v
Pqueue.v
PqueueProps.v
ChannelModel.v
Ssd.v
SsdProps.v
ConvFtl.v
ConvFtlSpec.v
ConvFtlInv.v
ConvFtlLines.v
ConvFtlMap.v
ConvFtlOps.v
ConvFtlGc.v
ConvFtlCmd.v
ConvFtlProps.v
Zns.v
ZnsIo.v
ZnsSpec.v
ZnsInv.v
ZnsCmd.v
ZnsReport.v
ZnsProps.v
IoQueue.v
IoQueueSpec.v
IoQueueOps.v
IoWorker.v
IoQueueProps.v
IoRing.v
IoRingProps.v
IoCopy.v
IoCopyProps.v
IoDevice.v
IoDeviceProps.v
IoSamples.v
Admin.v
AdminSpec.v
AdminProps.v
AdminSamples.v
Pci.v
PciProps.v
Config.v
Device.v
Drive.v
