(* ===== verification/Prelude.v ===== *)
(** * Verification of nvme-kv-engine

    ** The program

    nvme-kv-engine is a C library that stores key-value pairs on one or several
    NVMe key-value devices (src/src, src/include), with the device library and the
    NVMe emulator it is developed against (src/lib/KVSSD, src/lib/nvmevirt).

    A client initialises an engine (kv_engine.c), which opens the configured devices
    (kv_engine_multi_device.c), takes a memory pool, a pool of DMA buffers, a table
    of keys and a pool of worker threads (src/utils), and shards keys over the
    devices.  Operations are synchronous (kv_engine.c) or hand a copy of their
    arguments to the thread pool and call back (async_ops.c).  Devices that keep
    failing are marked unhealthy and probed in the background (kv_engine_health.c).
    Below the engine is the Samsung KVS interface; on a machine without such a device
    it is served by an emulator in user space (kv_emulator.cpp) or by NVMeVirt, a
    kernel module whose namespaces are key-value devices (kv_ftl.c), plain block
    devices (simple_ftl.c), flash drives with a page-mapping translation layer
    (conv_ftl.c) or drives with zones (zns_ftl.c and its companions), the last two
    over a flash and timing model (ssd.c, channel_model.c).  A dispatcher thread takes
    commands from the submission queues of the host, asks the namespace when they will
    be done and puts them into the queue of a worker thread, which moves their data and
    completes them at that time (io.c, main.c).  Before that the host finds the device in
    the PCI configuration space, writes its registers (pci.c) and creates the queues with
    admin commands (admin.c), which the dispatcher serves as well.

    ** Files

    The engine:
    - [Prelude]: machine integers, outcomes of C code, the program logic [wp], arrays.
    - [Libc]: heap and [memcpy], over any allocator that keeps the C standard's promises.
    - [KvTypes]: result codes, configuration, statistics (kv_engine.h, kvs_result.h).
    - [MemoryPool], [DmaPool]: memory_pool.c, dma_alloc.c and dma_pool.c.
    - [UtHash], [HashTable]: the macros of uthash.h that hashTable.h uses, and the key table.
    - [KvsApi], [Emulator]: the device library as a class with laws, and its emulator
      back end as an instance of them.
    - [MultiDevice]: kv_engine_multi_device.c; paths, sharding, opening and closing.
    - [ThreadPool]: thread_pool.c; memory, and the protocol of its threads as a step
      relation.
    - [Engine], [EngineSpec], [EngineProps]: the operations of kv_engine.c, the
      invariant of a running engine, the theorems.
    - [Async]: async_ops.c, interleaved with workers.
    - [Health]: kv_engine_health.c.
    - [Lifecycle]: kv_engine_init, kv_engine_cleanup and whole sessions.

    NVMeVirt:
    - [FtlAlloc]: append_only.c and bitmap.c behind one interface with laws.
    - [KvFtl], [KvFtlSpec], [KvFtlProps], [KvFtlIter]: kv_ftl.c; the model, its loops,
      the map it implements, its iterators.
    - [IoSched]: the completion times of simple_ftl.c and kv_ftl.c.
    - [Pqueue], [PqueueProps]: pqueue.c over a class of callbacks.
    - [ChannelModel]: channel_model.c and its ledger specification.
    - [Ssd], [SsdProps]: ssd.c, ssd.h and ssd_config.h; geometry, flash, NAND times.
    - [ConvFtl]: conv_ftl.c.  [ConvFtlSpec] has the geometry of pages and lines,
      [ConvFtlInv] the invariant, [ConvFtlLines], [ConvFtlMap] and [ConvFtlOps] how
      lines, tables and single pages keep it, [ConvFtlGc] how garbage collection does,
      [ConvFtlCmd] how commands do, and [ConvFtlProps] the theorems.
    - [Zns], [ZnsIo]: zns_ftl.h and zns_mgmt_send.c; zns_read_write.c, zns_mgmt_recv.c and
      zns_ftl.c.  [ZnsSpec] has the zone state machine and the invariant, [ZnsInv] the
      management actions, [ZnsCmd] writes and reads, [ZnsReport] reports, [ZnsProps] the
      theorems.
    - [IoQueue]: the work queues and worker threads of io.c.  [IoQueueSpec] has their
      chains and the list they stand for, [IoQueueOps] insertion and reclaiming,
      [IoWorker] the steps of a worker, [IoQueueProps] the theorems about all
      interleavings.
    - [IoRing], [IoRingProps]: submission and completion queues and their doorbells.
    - [IoCopy], [IoCopyProps]: the data of block commands, by the processor and by DMA.
    - [IoDevice], [IoDeviceProps], [IoSamples]: namespaces, the device the workers see,
      the path of a command from queue to queue; runs on small devices.
    - [Admin]: the registers of pci.c, the commands of admin.c and the turn of the
      dispatcher in main.c.  [AdminSpec] says what each command does, [AdminProps] has the
      theorems, [AdminSamples] runs and what goes wrong.
    - [Pci], [PciProps]: the configuration space and the interrupt modes of pci.c.
    - [Config]: the checks and the configuration of main.c.
    - [Device]: any namespace that keeps the laws [Device.NamespaceLaws], behind the queues
      of [IoRing] and the workers of [IoQueue].  [Drive]: the page-mapping drive of
      [ConvFtl] and the devices of [IoSched] keep them.

    ** How code is modelled

    A function is a [prog St A]: it maps a state to a result and a new state, to
    undefined behaviour or to the end of the process.  Undefined are what C leaves
    undefined (null and dangling pointers, reads of objects never written, accesses
    out of range, signed overflow where it is counted), failed kernel assertions, and
    a loop that runs out of fuel, so that a theorem [wp never m Q s] says that [m]
    ends, normally, with [Q].  Unsigned arithmetic wraps by [wrap]; structures are
    records with the fields that matter; sparse arrays are finite maps whose missing
    keys stand for the initial value.

    Fuel is given at the call by an amount the loop cannot exceed (the number of
    slots, of bytes or of pages left plus one), and the theorems show that it is
    enough by never being undefined.

    Concurrency: the thread pool is modelled at the granularity of its critical
    sections, with lost and spurious wakeups.  Asynchronous calls and probe sweeps
    are interleaved as whole operations: engine operations that run at the same time
    on several threads are not modelled below that.  NVMeVirt's dispatcher is one
    thread, whose calls on a work queue are single steps; a worker's visit of an entry is
    three (moving the data, completing, reading the link), between which the dispatcher
    and the other workers may run ([IoQueueProps.io_step]).  Memory is sequentially
    consistent.  What workers do to a drive is a step of its own there
    ([ConvFtlProps.conv_step], [ZnsProps.zns_step]).

    What is outside the sources is a parameter: the allocator ([Libc.Allocator]), the
    device library ([KvsApi]), the clock of a drive, the callbacks of the priority
    queue ([Pqueue.PqCallbacks]), the memory map of the kernel ([Config]).  Kernel allocations of NVMeVirt are taken to succeed.

    ** What is shown

    - The engine is a map: any calls, in any order, synchronous or not, answer as
      operations on one key-value map; a session from initialisation to cleanup
      completes every request once and gives back every block and handle
      ([EngineProps], [Async], [Lifecycle]).
    - The parts of the engine: pools hand out disjoint memory and lose none
      ([MemoryPool], [DmaPool]); the key table is a set ([HashTable]); the thread pool
      is first-in first-out, runs everything exactly once, loses no wakeup and shuts
      down ([ThreadPool]); devices go and come back exactly as the thresholds say
      ([Health]).
    - The emulated key-value device is a map for the commands that respect its limits,
      and its iterators are exact ([KvFtlProps], [KvFtlIter]).
    - The emulated drive: from initialisation on, in any history of commands inside the
      namespace, no command fails, garbage collection always finds a victim and room,
      logical pages and valid flash pages correspond one to one, and every line has
      exactly one role ([ConvFtlProps]); below it the priority queue is a set ordered
      by priority ([PqueueProps]), the channel a ledger ([ChannelModel]) and the
      parameters one geometry ([SsdProps]).
    - The zoned drive: without random write areas it refines the zone state machine of
      the command set and no well-formed command fails; with them its counters are
      still exact and write pointers stay in their zones; reports are faithful
      ([ZnsProps]).
    - Queues and workers: in any interleaving every accepted request is completed once,
      after its data was moved and not before its time, or is pending; work queues are
      lists in the order of their times and never fault; the host receives exactly the
      completions posted, in order; what was written is read back, and DMA does what the
      processor does ([IoQueueProps], [IoRingProps], [IoCopyProps], [IoDeviceProps]).
    - The controller: whatever the host writes to the configuration space it keeps
      finding the device and its capabilities, and the emulator follows its choice of
      interrupts ([PciProps]); whatever it writes to the registers the dispatcher settles
      them within four polls, and a host that starts the controller in the usual way
      finds it ready; every admin command in its limits is answered once, in order, with
      its result, and leaves the tables of queues as specified ([AdminProps]); the list
      of processors and the place of the storage come out of the parameters as meant
      ([Config]).
    - The whole: a page-mapping drive or a simple device behind queues and workers never
      makes the dispatcher fault, and the drive goes only through histories for which it
      was shown to be sound ([Device], [Drive]).
    - Where the code does not do what it means to, a closed theorem exhibits it: for
      example [Health.add_device_after_reset_loses_keys],
      [ThreadPool.destroy_outruns_submitter], [KvFtlProps.kv_delete_loses_chained],
      [KvFtlProps.kv_longer_update_corrupts], [IoSched.flush_before_pending_write],
      [ConvFtlProps.Sample.write_buffer_over_released], the examples at the end of
      [ZnsProps], [PciProps] and [Config] and those of [IoSamples] and [AdminSamples].

    ** Bounds and assumptions of the theorems

    Values and counters stay below the width of their C types where a theorem says so.
    A drive needs geometry fields that fit a page address and a namespace that leaves
    four lines and a page of every part free ([ConvFtlProps.overprovisioned]; the
    shipped configuration has 7% of 8192 lines); its configuration is any that
    [SsdProps.config_ok] accepts, the shipped ones included.  A zoned drive is smaller
    than 2 TiB and has dies that divide evenly among zones ([ZnsProps.zns_config_ok],
    which the shipped configurations satisfy); its commands are to addresses on it,
    with lengths within its buffers ([ZnsProps.request_ok]).  The key-value device
    needs keys of one length, updates that fit their old place and deletes of the last
    entry of a chain; the closed theorems above show what happens otherwise.  Work queues
    have from 2 to 2^32 - 2 entries (16384 in the program); the host takes completions
    before they are overrun, and its pages are ordinary memory ([pfn_valid]).  Admin
    commands name queues inside the tables, namespaces that exist, and pages of data apart
    from the admin queue ([AdminSpec.command_ok], [AdminProps.request_ok]).  The host
    accesses the configuration space in one, two or four aligned bytes, as Linux does
    ([PciProps.access_ok]).

    ** Not modelled

    Of NVMeVirt: the scan of the PCI bus, the delivery of interrupts to processors, the
    DMA engine, the proc files and the rest of the module set-up, which are calls to the
    kernel; the functions that only free memory (ssd_remove, conv_remove_namespace, zns_remove_namespace, pqueue_free,
    NVMEV_IO_WORKER_FINAL), code nothing calls (clean_one_block) and measurements
    (PERF_DEBUG).  Of KVSSD: the iterators and the latency model of the emulator,
    the kernel driver and the SPDK back end.  Of uthash: the macros the key table does
    not use.  Examples, benchmarks and tests are clients of the public calls. *)

From stdpp Require Export base list gmap strings fin_maps sorting.
From Stdlib Require Export ZArith Lia.

#[global] Open Scope Z_scope.

(** ** Machine integers *)

(** An unsigned [w]-bit machine integer is a [Z] in [0, 2^w); arithmetic wraps. *)
Definition wrap (w x : Z) : Z := x mod 2 ^ w.

Declare Scope word_scope.
Delimit Scope word_scope with word.

Abbreviation u8 := (wrap 8).
Abbreviation u16 := (wrap 16).
Abbreviation u32 := (wrap 32).
Abbreviation u64 := (wrap 64).

Notation "x +32 y" := (wrap 32 (x + y)) (at level 50, left associativity) : word_scope.
Notation "x -32 y" := (wrap 32 (x - y)) (at level 50, left associativity) : word_scope.
Notation "x *32 y" := (wrap 32 (x * y)) (at level 40, left associativity) : word_scope.
Notation "x +64 y" := (wrap 64 (x + y)) (at level 50, left associativity) : word_scope.
Notation "x -64 y" := (wrap 64 (x - y)) (at level 50, left associativity) : word_scope.
Notation "x *64 y" := (wrap 64 (x * y)) (at level 40, left associativity) : word_scope.

(** [in_word w x]: [x] is representable in [w] bits without a sign. *)
Definition in_word (w x : Z) : Prop := 0 <= x < 2 ^ w.

Create HintDb words.

Lemma wrap_small w x : in_word w x -> wrap w x = x.
Proof. unfold in_word, wrap. intros. by rewrite Z.mod_small. Qed.

Lemma wrap_in_word w x : 0 <= w -> in_word w (wrap w x).
Proof. unfold in_word, wrap. intros. apply Z.mod_pos_bound. lia. Qed.

Lemma wrap_idemp w x : 0 <= w -> wrap w (wrap w x) = wrap w x.
Proof. intros. by apply wrap_small, wrap_in_word. Qed.

#[export] Hint Resolve wrap_in_word : words.

(** Bytes and byte strings. *)
Abbreviation bytes := (list Z).
Definition is_byte (b : Z) : Prop := in_word 8 b.

(** ** Outcomes of C code

    A piece of C code runs on a state and either returns a value and a new
    state, runs into undefined behaviour (a wild pointer, a double free, a read
    of an indeterminate object, a failed kernel assertion), or ends the process
    (in the state it had then). *)
Inductive outcome (St A : Type) : Type :=
| Done (a : A) (s : St)
| Undef
| Exit (s : St).
Arguments Done {St A} a s.
Arguments Undef {St A}.
Arguments Exit {St A} s.

Definition prog (St A : Type) : Type := St -> outcome St A.

#[global] Instance prog_ret {St} : MRet (prog St) := fun A a s => Done a s.
#[global] Instance prog_bind {St} : MBind (prog St) := fun A B k m s =>
  match m s with
  | Done a s' => k a s'
  | Undef => Undef
  | Exit s' => Exit s'
  end.

Definition undefined {St A} : prog St A := fun _ => Undef.
Definition exit_process {St A} : prog St A := fun s => Exit s.
Definition get {St} : prog St St := fun s => Done s s.
Definition put {St} (s' : St) : prog St unit := fun _ => Done tt s'.
Definition modify {St} (f : St -> St) : prog St unit := fun s => Done tt (f s).

(** Run code of a component on its part of a larger state. *)
Definition zoom {Big Small A} (view : Big -> Small) (upd : Small -> Big -> Big)
    (m : prog Small A) : prog Big A := fun b =>
  match m (view b) with
  | Done a s => Done a (upd s b)
  | Undef => Undef
  | Exit s => Exit (upd s b)
  end.

(** [for] loop over a list of indices. *)
Fixpoint for_each {St A} (l : list A) (body : A -> prog St unit) : prog St unit :=
  match l with
  | [] => mret tt
  | x :: l' => _ ← body x; for_each l' body
  end.

(** ** Total-correctness specifications

    [wp X m Q s]: run from [s], the code [m] has no undefined behaviour, ends
    the process only in a state where [X], and otherwise returns with [Q] on
    result and state.  With [X := never] it is total correctness. *)
Definition never {St : Type} : St -> Prop := fun _ => False.

Definition wp {St A} (X : St -> Prop) (m : prog St A) (Q : A -> St -> Prop) (s : St) : Prop :=
  match m s with
  | Done a s' => Q a s'
  | Undef => False
  | Exit s' => X s'
  end.

Section wp_rules.
Context {St A B : Type} (X : St -> Prop).
Implicit Types (m : prog St A) (Q : A -> St -> Prop).

Lemma wp_ret (a : A) Q s : Q a s -> wp X (mret a) Q s.
Proof. done. Qed.

Lemma wp_bind m (k : A -> prog St B) (R : B -> St -> Prop) s :
  wp X m (fun a s' => wp X (k a) R s') s -> wp X (m ≫= k) R s.
Proof. unfold wp, mbind, prog_bind. by destruct (m s). Qed.

Lemma wp_mono m Q Q' s :
  wp X m Q s -> (forall a s', Q a s' -> Q' a s') -> wp X m Q' s.
Proof. unfold wp. destruct (m s); naive_solver. Qed.

Lemma wp_of_done m Q s a s' : m s = Done a s' -> Q a s' -> wp X m Q s.
Proof. unfold wp. by intros ->. Qed.

Lemma wp_get (Q : St -> St -> Prop) s : Q s s -> wp X get Q s.
Proof. done. Qed.

Lemma wp_put s0 (Q : unit -> St -> Prop) s : Q tt s0 -> wp X (put s0) Q s.
Proof. done. Qed.

Lemma wp_modify f (Q : unit -> St -> Prop) s : Q tt (f s) -> wp X (modify f) Q s.
Proof. done. Qed.

End wp_rules.

Lemma wp_exit_mono {St A} (X Y : St -> Prop) (m : prog St A) (Q : A -> St -> Prop) s :
  wp X m Q s -> (forall s', X s' -> Y s') -> wp Y m Q s.
Proof. unfold wp. destruct (m s); auto. Qed.

Lemma wp_done {St A} (m : prog St A) (Q : A -> St -> Prop) s :
  wp never m Q s -> exists a s', m s = Done a s' /\ Q a s'.
Proof. unfold wp, never. destruct (m s); naive_solver. Qed.

(** Loop rule: the invariant is indexed by the items still to visit. *)
Lemma wp_for_each {St C} (X : St -> Prop) (I : list C -> St -> Prop) (body : C -> prog St unit) l s :
  I l s ->
  (forall x l' s', I (x :: l') s' -> wp X (body x) (fun _ => I l') s') ->
  wp X (for_each l body) (fun _ => I []) s.
Proof.
  intros HI Hbody. revert s HI. induction l as [|x l IH]; intros s HI; simpl; [done|].
  apply wp_bind. eapply wp_mono; [by apply Hbody|]. naive_solver.
Qed.

(** A loop that reaches an undefined iteration is undefined. *)
Lemma for_each_undef {St} `{EqDecision C} (body : C -> prog St unit) x l s :
  x ∈ l -> (forall s', body x s' = Undef) -> (forall y s' s'', body y s' <> Exit s'') ->
  for_each l body s = Undef.
Proof.
  intros Hx Hu He. revert s. induction l as [|y l IH]; intros s; [set_solver|].
  simpl. unfold mbind, prog_bind. destruct (decide (y = x)) as [->|]; [by rewrite Hu|].
  specialize (He y s). destruct (body y s); [|done|naive_solver]. apply IH. set_solver.
Qed.

Lemma wp_zoom {Big Small A} X (view : Big -> Small) upd (m : prog Small A)
    (Q : A -> Big -> Prop) b :
  wp (fun s => X (upd s b)) m (fun a s => Q a (upd s b)) (view b) ->
  wp X (zoom view upd m) Q b.
Proof. unfold wp, zoom. by destruct (m (view b)). Qed.

(** ** Partial and total correctness at once

    [pwp u m Q s]: as [wp never], except that undefined behaviour is allowed if [u]:
    [pwp False] is total and [pwp True] partial correctness. *)
Definition pwp {St A} (u : Prop) (m : prog St A) (Q : A -> St -> Prop) (s : St) : Prop :=
  match m s with
  | Done a s' => Q a s'
  | Undef => u
  | Exit _ => False
  end.

Section pwp_rules.
Context {St : Type} (u : Prop).

Lemma pwp_ret {A} (a : A) (Q : A -> St -> Prop) s : Q a s -> pwp u (mret a) Q s.
Proof. done. Qed.
Lemma pwp_bind {A B} (m : prog St A) (k : A -> prog St B) (Q : B -> St -> Prop) s :
  pwp u m (fun a => pwp u (k a) Q) s -> pwp u (m ≫= k) Q s.
Proof. unfold pwp, mbind, prog_bind. by destruct (m s). Qed.
Lemma pwp_mono {A} (m : prog St A) (Q Q' : A -> St -> Prop) s :
  pwp u m Q s -> (forall a s', Q a s' -> Q' a s') -> pwp u m Q' s.
Proof. unfold pwp. destruct (m s); auto. Qed.
Lemma pwp_of_wp {A} (m : prog St A) (Q : A -> St -> Prop) s : wp never m Q s -> pwp u m Q s.
Proof. unfold wp, pwp. by destruct (m s). Qed.
Lemma pwp_undefined {A} (Q : A -> St -> Prop) s : u -> pwp u undefined Q s.
Proof. done. Qed.
Lemma pwp_zoom {Big A} (view : Big -> St) upd (m : prog St A) (Q : A -> Big -> Prop) b :
  pwp u m (fun a s => Q a (upd s b)) (view b) -> pwp u (zoom view upd m) Q b.
Proof. unfold pwp, zoom. by destruct (m (view b)). Qed.
End pwp_rules.

Lemma wp_of_pwp {St A} (m : prog St A) (Q : A -> St -> Prop) s : pwp False m Q s -> wp never m Q s.
Proof. unfold wp, pwp. by destruct (m s). Qed.
Lemma pwp_done {St A} (m : prog St A) (Q : A -> St -> Prop) s a s' :
  pwp True m Q s -> m s = Done a s' -> Q a s'.
Proof. unfold pwp. intros H E. by rewrite E in H. Qed.

(** ** Code that does not end the process, and defined approximations *)

Definition no_exit {St A} (m : prog St A) : Prop := forall s s', m s <> Exit s'.

Create HintDb no_exit.

Lemma no_exit_ret {St A} (a : A) : no_exit (St := St) (mret a).
Proof. done. Qed.
Lemma no_exit_undefined {St A} : no_exit (St := St) (A := A) undefined.
Proof. done. Qed.
Lemma no_exit_bind {St A B} (m : prog St A) (k : A -> prog St B) :
  no_exit m -> (forall a, no_exit (k a)) -> no_exit (m ≫= k).
Proof.
  intros Hm Hk s s'. unfold mbind, prog_bind. destruct (m s) eqn:E; [apply Hk|done|].
  exfalso. by eapply Hm.
Qed.
Lemma no_exit_if {St A} (b : bool) (m1 m2 : prog St A) :
  no_exit m1 -> no_exit m2 -> no_exit (if b then m1 else m2).
Proof. by destruct b. Qed.

#[export] Hint Resolve no_exit_ret no_exit_undefined no_exit_if : no_exit.
#[export] Hint Extern 2 (no_exit (_ ≫= _)) => (apply no_exit_bind; [|intros]) : no_exit.

(** [m ⊑ m']: where [m] is defined, [m'] does the same. *)
Definition approx {St A} (m m' : prog St A) : Prop := forall s, m s = Undef \/ m s = m' s.

Lemma approx_refl {St A} (m : prog St A) : approx m m.
Proof. intros s. by right. Qed.
Lemma approx_bind {St A B} (m m' : prog St A) (k k' : A -> prog St B) :
  approx m m' -> (forall a, approx (k a) (k' a)) -> approx (m ≫= k) (m' ≫= k').
Proof.
  intros Hm Hk s. unfold mbind, prog_bind. destruct (Hm s) as [->|E]; [by left|].
  rewrite <- E. destruct (m s) as [a s'| |s']; [apply Hk|by left|by right].
Qed.
Lemma approx_zoom {Big Small A} (view : Big -> Small) upd (m m' : prog Small A) :
  approx m m' -> approx (zoom view upd m) (zoom view upd m').
Proof. intros Hm s. unfold zoom. by destruct (Hm (view s)) as [-> | ->]; [left|right]. Qed.

(** Step through a program: peel binds and the primitive operations. *)
Ltac wp_step :=
  first
    [ apply wp_bind
    | apply wp_get
    | apply wp_put
    | apply wp_modify
    | apply wp_zoom
    | apply wp_ret ].
Ltac wp_steps := repeat (wp_step; cbn beta).

(** ** C arrays

    An array of [n] cells is a list of [n] cells, [None] marking a cell that was
    never written.  Reading such a cell, or any access out of range, is
    undefined. *)
Definition arr_get {A} (l : list (option A)) (i : Z) : option A :=
  if 0 <=? i then mjoin (l !! Z.to_nat i) else None.

Definition arr_read {St A} (l : list (option A)) (i : Z) : prog St A :=
  match arr_get l i with
  | Some x => mret x
  | None => undefined
  end.

Definition arr_write {St A} (l : list (option A)) (i : Z) (x : A)
    : prog St (list (option A)) :=
  if (0 <=? i) && (i <? Z.of_nat (length l))
  then mret (<[Z.to_nat i := Some x]> l) else undefined.

Definition fresh_array {A} (n : Z) : list (option A) := replicate (Z.to_nat n) None.

(** A signed [int] counter: overflow is undefined. *)
Definition int_incr {St} (x : Z) : prog St Z :=
  if x + 1 <? 2 ^ 31 then mret (x + 1) else undefined.

Lemma wp_arr_read {St A} X (l : list (option A)) i x (Q : A -> St -> Prop) s :
  arr_get l i = Some x -> Q x s -> wp X (arr_read l i) Q s.
Proof. intros H HQ. unfold wp, arr_read. by rewrite H. Qed.

Lemma wp_arr_write {St A} X (l : list (option A)) i x (Q : list (option A) -> St -> Prop) s :
  0 <= i < Z.of_nat (length l) ->
  Q (<[Z.to_nat i := Some x]> l) s -> wp X (arr_write l i x) Q s.
Proof.
  intros H HQ. unfold wp, arr_write.
  replace ((0 <=? i) && (i <? Z.of_nat (length l))) with true by lia. done.
Qed.

Lemma wp_int_incr {St} X x (Q : Z -> St -> Prop) s :
  x + 1 < 2 ^ 31 -> Q (x + 1) s -> wp X (int_incr x) Q s.
Proof.
  intros H HQ. unfold wp, int_incr. by replace (x + 1 <? 2 ^ 31) with true by lia.
Qed.

(** ** Reachability: reflexive transitive closure of a step relation *)
Section reachability.
Context {St : Type} (step : St -> St -> Prop) (init : St -> Prop).

Inductive reachable : St -> Prop :=
| reach_init s : init s -> reachable s
| reach_step s s' : reachable s -> step s s' -> reachable s'.

(** Invariants are proved by rule induction. *)
Lemma reachable_invariant (I : St -> Prop) :
  (forall s, init s -> I s) ->
  (forall s s', I s -> step s s' -> I s') ->
  forall s, reachable s -> I s.
Proof. intros Hi Hs s. induction 1; eauto. Qed.
End reachability.

(** ** Lists updated at one index

    Tables of threads and of calls change one entry at a time. *)
Definition count {A} (f : A -> bool) (l : list A) : nat := length (List.filter f l).

Section update_one.
Context {A B : Type}.
Implicit Types (l : list A).

Lemma split_at l i a b :
  l !! i = Some a ->
  exists l1 l2, l = l1 ++ a :: l2 /\ <[i := b]> l = l1 ++ b :: l2.
Proof.
  intros H. exists (take i l), (drop (S i) l). split.
  - symmetry. by apply take_drop_middle.
  - by rewrite insert_take_drop by (eapply lookup_lt_Some; eauto).
Qed.

Lemma bind_insert_perm (f : A -> list B) l i a b :
  l !! i = Some a -> (<[i := b]> l ≫= f) ++ f a ≡ₚ (l ≫= f) ++ f b.
Proof.
  intros (l1 & l2 & -> & ->)%(split_at _ _ _ b). rewrite !bind_app. simpl. solve_Permutation.
Qed.

Lemma bind_insert_same (f : A -> list B) l i a b :
  l !! i = Some a -> f a = f b -> <[i := b]> l ≫= f = l ≫= f.
Proof.
  intros (l1 & l2 & -> & ->)%(split_at _ _ _ b) E. rewrite !bind_app. simpl. by rewrite E.
Qed.

Lemma count_app (f : A -> bool) l l' : count f (l ++ l') = (count f l + count f l')%nat.
Proof. unfold count. by rewrite List.filter_app, length_app. Qed.

Lemma count_cons (f : A -> bool) a l : count f (a :: l) = (Nat.b2n (f a) + count f l)%nat.
Proof. unfold count. simpl. by destruct (f a). Qed.

Lemma count_insert (f : A -> bool) l i a b :
  l !! i = Some a ->
  (count f (<[i := b]> l) + Nat.b2n (f a) = count f l + Nat.b2n (f b))%nat.
Proof.
  intros (l1 & l2 & -> & ->)%(split_at _ _ _ b). rewrite !count_app, !count_cons. lia.
Qed.

Lemma count_pos (f : A -> bool) l : (0 < count f l)%nat <-> exists i a, l !! i = Some a /\ f a = true.
Proof.
  split.
  - induction l as [|a l IH]; [inversion 1|]. rewrite count_cons. destruct (f a) eqn:E.
    + intros _. by exists 0%nat, a.
    + intros (i & b & ? & ?)%IH. by exists (S i), b.
  - intros (i & a & H & E). apply (split_at _ _ _ a) in H as (l1 & l2 & -> & _).
    rewrite count_app, count_cons, E. simpl. lia.
Qed.

Lemma elem_of_insert_other l i a x : x ∈ <[i := a]> l -> x <> a -> x ∈ l.
Proof.
  intros (j & Hj)%list_elem_of_lookup Hx. apply list_elem_of_lookup. exists j.
  by apply list_lookup_insert_Some in Hj as [(? & ? & ?)|[_ Hj]]; [simplify_eq|].
Qed.
End update_one.

(** ** Tactics *)

(** Turn boolean comparisons in hypotheses into arithmetic facts. *)
Ltac bool_to_prop :=
  repeat match goal with
  | H : (_ =? _) = true |- _ => apply Z.eqb_eq in H
  | H : (_ =? _) = false |- _ => apply Z.eqb_neq in H
  | H : (_ <? _) = true |- _ => apply Z.ltb_lt in H
  | H : (_ <? _) = false |- _ => apply Z.ltb_ge in H
  | H : (_ <=? _) = true |- _ => apply Z.leb_le in H
  | H : (_ <=? _) = false |- _ => apply Z.leb_gt in H
  | H : (_ && _) = true |- _ => apply andb_true_iff in H; destruct H
  | H : (_ || _) = false |- _ => apply orb_false_iff in H; destruct H
  end.

(** Case split on the first boolean test of the goal. *)
Ltac case_if H :=
  match goal with
  | |- context [if ?b then _ else _] =>
    lazymatch b with
    | context [if _ then _ else _] => fail
    | _ => destruct b eqn:H
    end
  end.

(** [lia] on a boolean comparison, also when its arguments hold [Z.of_nat]. *)
Ltac bool_lia_core :=
  repeat (apply andb_true_intro; split);
  first [ apply Z.leb_le | apply Z.ltb_lt | apply Z.eqb_eq
        | apply Z.leb_gt | apply Z.ltb_ge | apply Z.eqb_neq ]; lia.
Ltac bool_lia := first [ lia | bool_lia_core | symmetry; bool_lia_core ].
