(* ===== verification/Libc.v ===== *)
(** * The C library as the engine uses it: heap allocation and memory copies

    [malloc], [calloc], [posix_memalign], [strdup], [free], [memcpy] over an
    explicit heap.  Which address an allocation gets, and whether it succeeds, is
    decided by an [Allocator]: the theorems hold for every allocator that obeys
    the C standard's promises (fresh, aligned, non-null, disjoint from the live
    blocks). *)
From S2P Require Import Prelude.

(** ** Sizes of the C types the code allocates *)
Inductive ctype : Set :=
| T_kv_engine | T_memory_pool | T_dma_pool | T_thread_pool | T_pthread
| T_work_item | T_async_context | T_health_probe | T_hash_entry
| T_UT_hash_table | T_UT_hash_bucket | T_ptr.

Class Abi := {
  sizeof : ctype -> Z;
  sizeof_pos : forall t, 0 < sizeof t;
  (** a pointer and two [unsigned] *)
  sizeof_bucket : sizeof T_UT_hash_bucket = 16
}.

(** ** The heap *)

(** A live block: its size and the bytes written so far from its start. *)
Record block := Block { blk_size : Z; blk_data : bytes }.

(** [h_log] records for every allocation request so far, the latest first, whether
    it was granted; an allocator may answer equal requests differently over time. *)
Record heap := Heap { h_log : list bool; h_blocks : gmap Z block }.

(** How many requests were refused. *)
Definition refusals (h : heap) : nat := length (List.filter negb (h_log h)).

(** More requests were refused than in [h0]: the state the fatal out-of-memory
    policy of uthash ends the process in. *)
Definition out_of_memory (h0 h : heap) : Prop := (refusals h0 < refusals h)%nat.

(** [a, a+n) and [b, b+m) do not meet; a block of size 0 still owns its address. *)
Definition disjoint_from (a n b m : Z) : Prop :=
  a + Z.max 1 n <= b \/ b + Z.max 1 m <= a.

Definition fresh_block (m : gmap Z block) (al sz a : Z) : Prop :=
  0 < a /\ a mod al = 0 /\ a + Z.max 1 sz <= 2 ^ 64 /\
  forall b blk, m !! b = Some blk -> disjoint_from a sz b (blk_size blk).

Class Allocator := {
  pick : list bool -> gmap Z block -> Z -> Z -> option Z;
  pick_fresh t m al sz a :
    0 < al -> 0 <= sz -> pick t m al sz = Some a -> fresh_block m al sz a
}.

(** No single block reaches 32 GiB.  Only the bucket arrays of uthash need it: it
    keeps their 32-bit length from overflowing. *)
Class AllocLimit (AL : Allocator) : Prop :=
  alloc_limit t m al sz : 0 < al -> 2 ^ 35 <= sz -> pick t m al sz = None.

(** [alignof(max_align_t)] on the x86-64 ABI. *)
Definition MALLOC_ALIGN : Z := 16.

Section libc.
Context {AL : Allocator}.

Definition alloc_aligned (al sz : Z) (data : bytes) : prog heap Z := fun h =>
  match pick (h_log h) (h_blocks h) al sz with
  | Some a => Done a (Heap (true :: h_log h) (<[a := Block sz data]> (h_blocks h)))
  | None => Done 0 (Heap (false :: h_log h) (h_blocks h))
  end.

Definition malloc (sz : Z) : prog heap Z := alloc_aligned MALLOC_ALIGN sz [].

Definition calloc (n sz : Z) : prog heap Z :=
  alloc_aligned MALLOC_ALIGN (n * sz) (replicate (Z.to_nat (n * sz)) 0).

(** [posix_memalign] returns 0 or an error number, and the address through [ptr]. *)
Definition ENOMEM : Z := 12.
Definition posix_memalign (al sz : Z) : prog heap (Z * Z) :=
  a ← alloc_aligned al sz [];
  mret (if a =? 0 then (ENOMEM, 0) else (0, a)).

Definition free (p : Z) : prog heap unit := fun h =>
  if p =? 0 then Done tt h
  else match h_blocks h !! p with
       | Some _ => Done tt (Heap (h_log h) (delete p (h_blocks h)))
       | None => Undef
       end.

(** The bytes of a C string, its terminator included. *)
Definition cstring (s : string) : bytes :=
  (fun c => Z.of_nat (Ascii.nat_of_ascii c)) <$> String.list_ascii_of_string s ++ [Ascii.zero].

Definition strdup (s : string) : prog heap Z :=
  alloc_aligned MALLOC_ALIGN (Z.of_nat (length (cstring s))) (cstring s).

(** Read [n] bytes at [p]; undefined unless [p] starts a live block whose first
    [n] bytes were written. *)
Definition load_bytes (p n : Z) : prog heap bytes := fun h =>
  match h_blocks h !! p with
  | Some b => if n <=? Z.of_nat (length (blk_data b))
              then Done (take (Z.to_nat n) (blk_data b)) h else Undef
  | None => Undef
  end.

Definition store_bytes (p : Z) (l : bytes) : prog heap unit := fun h =>
  match h_blocks h !! p with
  | Some b =>
    if Z.of_nat (length l) <=? blk_size b
    then Done tt (Heap (h_log h)
           (<[p := Block (blk_size b) (l ++ drop (length l) (blk_data b))]> (h_blocks h)))
    else Undef
  | None => Undef
  end.

Definition memcpy (dst src n : Z) : prog heap unit :=
  l ← load_bytes src n; store_bytes dst l.

(** A mutex as the one thread that runs the code sees it: locking one that is
    not initialised, or that the thread already holds, is undefined. *)
Inductive mutex : Set := M_uninit | M_free | M_held.

Definition mutex_lock {St} (mu : mutex) : prog St mutex :=
  match mu with M_free => mret M_held | _ => undefined end.
Definition mutex_unlock {St} (mu : mutex) : prog St mutex :=
  match mu with M_held => mret M_free | _ => undefined end.
Definition mutex_destroy {St} (mu : mutex) : prog St mutex :=
  match mu with M_free => mret M_uninit | _ => undefined end.
(** [pthread_mutex_init] answering [rc]. *)
Definition mutex_init (rc : Z) (mu : mutex) : mutex := if rc =? 0 then M_free else mu.

(** The first [n] bytes behind a pointer argument, [l] being the bytes one may
    read there. *)
Definition read_arg {St} (l : bytes) (n : Z) : prog St bytes :=
  if n <=? Z.of_nat (length l) then mret (take (Z.to_nat n) l) else undefined.

(** ** Rules *)

Lemma fresh_block_none m al sz a : fresh_block m al sz a -> m !! a = None.
Proof.
  intros (_ & _ & _ & H). destruct (m !! a) as [b|] eqn:E; [|done].
  specialize (H a b E). unfold disjoint_from in H. lia.
Qed.

Lemma fresh_block_eqb m al sz a : fresh_block m al sz a -> (a =? 0) = false.
Proof. intros (? & _). lia. Qed.

Lemma wp_alloc_aligned X al sz data (Q : Z -> heap -> Prop) t m :
  0 < al -> 0 <= sz ->
  Q 0 (Heap (false :: t) m) ->
  (forall a, fresh_block m al sz a -> Q a (Heap (true :: t) (<[a := Block sz data]> m))) ->
  wp X (alloc_aligned al sz data) Q (Heap t m).
Proof.
  intros Hal Hsz H0 Ha. unfold wp, alloc_aligned; simpl.
  destruct (pick t m al sz) as [a|] eqn:E; [|done].
  by apply Ha, (pick_fresh t).
Qed.

Lemma wp_malloc X sz (Q : Z -> heap -> Prop) t m :
  0 <= sz ->
  Q 0 (Heap (false :: t) m) ->
  (forall a, fresh_block m MALLOC_ALIGN sz a -> Q a (Heap (true :: t) (<[a := Block sz []]> m))) ->
  wp X (malloc sz) Q (Heap t m).
Proof. intros. by apply wp_alloc_aligned. Qed.

Lemma malloc_cases sz t m :
  0 <= sz ->
  malloc sz (Heap t m) = Done 0 (Heap (false :: t) m) \/
  exists a, malloc sz (Heap t m) = Done a (Heap (true :: t) (<[a := Block sz []]> m)) /\
    fresh_block m MALLOC_ALIGN sz a.
Proof.
  intros Hsz. unfold malloc, alloc_aligned; simpl.
  destruct (pick t m MALLOC_ALIGN sz) as [a|] eqn:E; [|by left].
  right. exists a. split; [done|]. by apply (pick_fresh t).
Qed.

Lemma wp_free_null X (Q : unit -> heap -> Prop) h : Q tt h -> wp X (free 0) Q h.
Proof. done. Qed.

Lemma wp_free X p b (Q : unit -> heap -> Prop) t m :
  0 < p -> m !! p = Some b ->
  Q tt (Heap t (delete p m)) -> wp X (free p) Q (Heap t m).
Proof.
  intros Hp Hb HQ. unfold wp, free; simpl.
  replace (p =? 0) with false by lia. by rewrite Hb.
Qed.

(** Freeing what was just allocated restores the blocks. *)
Lemma wp_free_fresh X p b al sz (Q : unit -> heap -> Prop) t m :
  fresh_block m al sz p ->
  Q tt (Heap t m) -> wp X (free p) Q (Heap t (<[p := b]> m)).
Proof.
  intros Hf HQ. eapply wp_free; [apply Hf|apply lookup_insert_eq|].
  by rewrite delete_insert_id by (by eapply fresh_block_none).
Qed.

End libc.

(** ** Sets of owned blocks *)

(** Free every address of [l]. *)
Definition delete_all (l : list Z) (m : gmap Z block) : gmap Z block := foldr delete m l.

Lemma lookup_delete_all l m a :
  delete_all l m !! a = if decide (a ∈ l) then None else m !! a.
Proof.
  induction l as [|b l IH]; simpl; [done|]. rewrite lookup_delete, IH.
  repeat case_decide; set_solver.
Qed.

Lemma delete_all_app l1 l2 m : delete_all (l1 ++ l2) m = delete_all l1 (delete_all l2 m).
Proof. apply foldr_app. Qed.

Lemma delete_all_comm l1 l2 m : delete_all (l1 ++ l2) m = delete_all l2 (delete_all l1 m).
Proof. apply map_eq. intros a. rewrite !lookup_delete_all. repeat case_decide; set_solver. Qed.

(** [grown m m' l]: [m'] is [m] plus new blocks at the distinct addresses [l]. *)
Definition grown (m m' : gmap Z block) (l : list Z) : Prop :=
  NoDup l /\
  (forall a, a ∉ l -> m' !! a = m !! a) /\
  (forall a, a ∈ l -> 0 < a /\ m !! a = None /\ is_Some (m' !! a)).

Lemma grown_refl m : grown m m [].
Proof. split_and!; [apply NoDup_nil_2|done|set_solver]. Qed.

Lemma grown_disjoint m m1 m2 l1 l2 a :
  grown m m1 l1 -> grown m1 m2 l2 -> a ∈ l1 -> a ∉ l2.
Proof.
  intros (_ & _ & I1) (_ & _ & I2) H1 H2. destruct (I1 a H1) as (_ & _ & [b Hb]).
  destruct (I2 a H2) as (_ & Hn & _). congruence.
Qed.

Lemma grown_trans m m1 m2 l1 l2 :
  grown m m1 l1 -> grown m1 m2 l2 -> grown m m2 (l1 ++ l2).
Proof.
  intros G1 G2. pose proof (fun a => grown_disjoint _ _ _ _ _ a G1 G2) as D.
  destruct G1 as (N1 & O1 & I1), G2 as (N2 & O2 & I2). split_and!.
  - apply NoDup_app. split_and!; done.
  - intros a Ha. rewrite O2, O1 by set_solver. done.
  - intros a [H1|H2]%elem_of_app.
    + destruct (I1 a H1) as (? & ? & ?). rewrite O2 by (by apply D). done.
    + destruct (I2 a H2) as (? & Hn & ?). split_and!; [done| |done].
      destruct (decide (a ∈ l1)) as [H1|H1]; [by apply I1|by rewrite <- O1].
Qed.

Lemma grown_new m a b : 0 < a -> m !! a = None -> grown m (<[a := b]> m) [a].
Proof.
  intros Ha Hn. split_and!; [apply NoDup_singleton| |].
  - intros x Hx. rewrite lookup_insert_ne; [done|set_solver].
  - intros x Hx. assert (x = a) as -> by set_solver. rewrite lookup_insert_eq. eauto.
Qed.

Lemma grown_fresh m al sz a b : fresh_block m al sz a -> grown m (<[a := b]> m) [a].
Proof. intros H. apply grown_new; [apply H|by eapply fresh_block_none]. Qed.

Lemma grown_insert m m' l a b :
  grown m m' l -> 0 < a -> m' !! a = None -> grown m (<[a := b]> m') (l ++ [a]).
Proof. intros G Ha Hn. eapply grown_trans; [done|by apply grown_new]. Qed.

#[export] Instance grown_perm : Proper ((=) ==> (=) ==> Permutation ==> iff) grown.
Proof.
  intros m ? <- m' ? <- l l' Hp. unfold grown.
  assert (forall a, a ∈ l <-> a ∈ l') as E by (intros; by rewrite Hp).
  rewrite Hp. setoid_rewrite E. done.
Qed.

Lemma grown_delete_all m m' l : grown m m' l -> delete_all l m' = m.
Proof.
  intros (_ & Hout & Hin). apply map_eq. intros a. rewrite lookup_delete_all.
  case_decide; [by destruct (Hin a) as (_ & -> & _)|by apply Hout].
Qed.

(** [owns l m]: the distinct addresses [l] are live in [m]. *)
Definition owns (l : list Z) (m : gmap Z block) : Prop :=
  NoDup l /\ forall a, a ∈ l -> 0 < a /\ is_Some (m !! a).

#[export] Instance owns_perm : Proper (Permutation ==> (=) ==> iff) owns.
Proof.
  intros l l' Hp m ? <-. unfold owns.
  assert (forall a, a ∈ l <-> a ∈ l') as E by (intros; by rewrite Hp).
  rewrite Hp. setoid_rewrite E. done.
Qed.

#[export] Instance delete_all_perm : Proper (Permutation ==> (=) ==> (=)) delete_all.
Proof.
  intros l l' Hp m ? <-. apply map_eq. intros a. rewrite !lookup_delete_all.
  assert (a ∈ l <-> a ∈ l') as E by (by rewrite Hp). repeat case_decide; naive_solver.
Qed.

(** [reown m l m' l']: a component that owned the blocks [l] of the heap [m] now
    owns the blocks [l'] of [m'], and the rest of the heap is untouched. *)
Definition reown (m : gmap Z block) (l : list Z) (m' : gmap Z block) (l' : list Z) : Prop :=
  owns l' m' /\ delete_all l' m' = delete_all l m.

#[export] Instance reown_perm :
  Proper ((=) ==> Permutation ==> (=) ==> Permutation ==> iff) reown.
Proof.
  intros m ? <- l1 l2 Hl m' ? <- l1' l2' Hl'. unfold reown.
  by rewrite (delete_all_perm _ _ Hl _ _ eq_refl), (delete_all_perm _ _ Hl' _ _ eq_refl), Hl'.
Qed.

Lemma owns_app_r (l1 l2 : list Z) m : owns (l1 ++ l2) m -> owns l2 m.
Proof.
  intros [Hnd Hin]. apply NoDup_app in Hnd as (_ & _ & Hnd). split; [done|].
  intros a Ha. apply Hin. set_solver.
Qed.

Lemma owns_app_l (l1 l2 : list Z) m : owns (l1 ++ l2) m -> owns l1 m.
Proof. intros H. apply (owns_app_r l2). by rewrite (Permutation_app_comm l2 l1). Qed.

Lemma owns_nil m : owns [] m.
Proof. split; [apply NoDup_nil_2|set_solver]. Qed.

Lemma owns_cons a l m : owns (a :: l) m <-> (0 < a) /\ is_Some (m !! a) /\ (a ∉ l) /\ owns l m.
Proof.
  unfold owns. rewrite NoDup_cons. split.
  - intros [[Ha Hnd] Hin]. destruct (Hin a) as [? ?]; [set_solver|].
    split_and!; [done..|]. intros x Hx. apply Hin. set_solver.
  - intros (? & ? & ? & ? & Hin). split; [done|]. intros x [->|Hx]%elem_of_cons; [done|by apply Hin].
Qed.

Lemma reown_refl m l : owns l m -> reown m l m l.
Proof. done. Qed.

Lemma reown_trans m l m1 l1 m2 l2 :
  reown m l m1 l1 -> reown m1 l1 m2 l2 -> reown m l m2 l2.
Proof. intros [_ E1] [H2 E2]. split; [done|congruence]. Qed.

Lemma reown_grown m m' l : grown m m' l <-> reown m [] m' l.
Proof.
  split.
  - intros G. split; [|by rewrite (grown_delete_all _ _ _ G)].
    destruct G as (Hnd & _ & Hin). split; [done|naive_solver].
  - intros [[Hnd Hin] E]. simpl in E. subst m. split_and!; [done| |].
    + intros a Ha. by rewrite lookup_delete_all, decide_False.
    + intros a Ha. rewrite lookup_delete_all, decide_True by done. naive_solver.
Qed.

Lemma reown_alloc m l al sz a b :
  owns l m -> fresh_block m al sz a -> reown m l (<[a := b]> m) (a :: l).
Proof.
  intros Ho Hf. pose proof (fresh_block_none _ _ _ _ Hf) as Hn. split.
  - assert (a ∉ l) as Hal.
    { intros Hin. destruct Ho as [_ Ho]. destruct (Ho a Hin) as [_ [? ?]]. congruence. }
    rewrite owns_cons, lookup_insert_eq. split_and!; [apply Hf|by eauto|done|].
    split; [apply Ho|]. intros x Hx. rewrite lookup_insert_ne by (intros ->; done). by apply Ho.
  - apply map_eq. intros x. rewrite !lookup_delete_all, lookup_insert.
    repeat case_decide; subst; try done; set_solver.
Qed.

Lemma reown_free m a l : owns (a :: l) m -> reown m (a :: l) (delete a m) l.
Proof.
  rewrite owns_cons. intros (Ha & Hs & Hn & Hnd & Hin). split.
  - split; [done|]. intros x Hx. rewrite lookup_delete_ne by (intros ->; done). by apply Hin.
  - apply map_eq. intros x. rewrite !lookup_delete_all, lookup_delete.
    repeat case_decide; subst; try done; set_solver.
Qed.

(** A component that runs beside another keeps the other's blocks. *)
Lemma reown_frame m l m' l' r :
  owns (l ++ r) m -> reown m l m' l' ->
  reown m (l ++ r) m' (l' ++ r) /\ (forall a, a ∈ r -> m' !! a = m !! a).
Proof.
  intros [Hnd Hin] [[Hnd' Hin'] E].
  apply NoDup_app in Hnd as (Hl & Hdis & Hr).
  assert (forall a, a ∈ r -> (a ∉ l') /\ m' !! a = m !! a) as Hkeep.
  { intros a Ha. assert (delete_all l' m' !! a = m !! a) as E'.
    { rewrite E, lookup_delete_all, decide_False; [done|]. intros Hal. by apply (Hdis a). }
    rewrite lookup_delete_all in E'. case_decide; [|done].
    destruct (Hin a) as [_ [? ?]]; [set_solver|]. congruence. }
  split; [split|naive_solver].
  - split.
    + apply NoDup_app. split_and!; [done| |done]. intros a Ha Hr'. by apply (Hkeep a).
    + intros a [Ha|Ha]%elem_of_app; [by apply Hin'|].
      destruct (Hkeep a Ha) as [_ ->]. apply Hin. set_solver.
  - rewrite !delete_all_comm. by rewrite E.
Qed.

Lemma wp_free_in X p (Q : unit -> heap -> Prop) t m :
  0 < p -> is_Some (m !! p) -> Q tt (Heap t (delete p m)) -> wp X (free p) Q (Heap t m).
Proof. intros Hp [b Hb] HQ. by eapply wp_free. Qed.

(** ** Two allocators that obey the contract *)

Section concrete_allocators.
Implicit Types m : gmap Z block.

(** One past the highest address in use. *)
Definition high_water m : Z :=
  map_fold (fun a b acc => Z.max acc (a + Z.max 1 (blk_size b))) 1 m.

Lemma high_water_above m a b :
  m !! a = Some b -> a + Z.max 1 (blk_size b) <= high_water m.
Proof.
  unfold high_water. revert a b.
  refine (map_fold_weak_ind
    (fun acc m' => forall a b, m' !! a = Some b -> a + Z.max 1 (blk_size b) <= acc)
    _ _ _ _ m).
  - intros a b H. by rewrite lookup_empty in H.
  - intros i x m' r Hi IH a b. rewrite lookup_insert. case_decide; intros.
    + simplify_eq. lia.
    + specialize (IH a b H0). lia.
Qed.

Lemma high_water_pos m : 1 <= high_water m.
Proof.
  unfold high_water.
  refine (map_fold_weak_ind (fun acc _ => 1 <= acc) _ _ _ _ m); intros; lia.
Qed.

Definition round_up (al x : Z) : Z := (x + al - 1) / al * al.

(** Allocate above everything live while the request stays below [limit]. *)
Definition bump_pick (limit : Z) (_ : list bool) m (al sz : Z) : option Z :=
  let a := round_up al (high_water m) in
  if a + Z.max 1 sz <=? limit then Some a else None.

Lemma round_up_spec al x : 0 < al -> x <= round_up al x /\ round_up al x mod al = 0.
Proof.
  intros Hal. unfold round_up. split.
  - pose proof (Z.div_mod (x + al - 1) al). pose proof (Z.mod_pos_bound (x + al - 1) al). nia.
  - apply Z.mod_mul. lia.
Qed.

Lemma bump_pick_fresh limit t m al sz a :
  limit <= 2 ^ 64 -> 0 < al -> 0 <= sz ->
  bump_pick limit t m al sz = Some a -> fresh_block m al sz a.
Proof.
  unfold bump_pick. intros Hl Hal Hsz. case_if E; [|done]. intros [= <-]. bool_to_prop.
  destruct (round_up_spec al (high_water m) Hal) as [Hge Hm].
  pose proof (high_water_pos m).
  repeat split; [lia|done|lia|]. intros b blk Hb.
  pose proof (high_water_above m b blk Hb). right. lia.
Qed.
End concrete_allocators.

(** An allocator with 4 GiB of address space, and one with 64 KiB. *)
Lemma big_limit : 2 ^ 32 <= 2 ^ 64.
Proof. lia. Qed.

Definition big_allocator : Allocator :=
  {| pick := bump_pick (2 ^ 32);
     pick_fresh t m al sz a := bump_pick_fresh (2 ^ 32) t m al sz a big_limit |}.

Lemma bump_limit limit t m al sz :
  limit <= sz -> 0 < al -> bump_pick limit t m al sz = None.
Proof.
  intros H Hal. unfold bump_pick. case_if E; [|done]. bool_to_prop.
  destruct (round_up_spec al (high_water m)) as [? _]; [lia|].
  pose proof (high_water_pos m). lia.
Qed.

Lemma small_limit : 2 ^ 16 <= 2 ^ 64.
Proof. lia. Qed.

Definition small_allocator : Allocator :=
  {| pick := bump_pick (2 ^ 16);
     pick_fresh t m al sz a := bump_pick_fresh (2 ^ 16) t m al sz a small_limit |}.

#[export] Instance big_alloc_limit : AllocLimit big_allocator.
Proof. intros t m al sz Hal H. apply bump_limit; lia. Qed.

#[export] Instance small_alloc_limit : AllocLimit small_allocator.
Proof. intros t m al sz Hal H. apply bump_limit; lia. Qed.

(** The x86-64 sizes; only their positivity matters to the theorems. *)
Definition lp64_sizeof (t : ctype) : Z :=
  match t with
  | T_kv_engine => 1280 | T_memory_pool => 64 | T_dma_pool => 80
  | T_thread_pool => 200 | T_pthread => 8 | T_work_item => 32
  | T_async_context => 80 | T_health_probe => 120 | T_hash_entry => 320
  | T_UT_hash_table => 64 | T_UT_hash_bucket => 16 | T_ptr => 8
  end.

Lemma lp64_sizeof_pos t : 0 < lp64_sizeof t.
Proof. by destruct t. Qed.

Definition lp64 : Abi := {| sizeof := lp64_sizeof; sizeof_pos := lp64_sizeof_pos; sizeof_bucket := eq_refl |}.

#[export] Hint Resolve sizeof_pos Z.lt_le_incl : words.
