(* ===== verification/KvTypes.v ===== *)
(** * Result codes, configuration, statistics (include/kv_engine.h, kvs_result.h)

    The public enumerations and structures, the translation of Samsung KVS
    results into engine results, and the classification of device faults. *)
From S2P Require Import Prelude.

Definition KV_MAX_DEVICES : Z := 8.
(** [KV_ENGINE_RETRIEVE_SIZE] is the macro text [2 * 1024 * 1024]. *)
Definition KV_ENGINE_RETRIEVE_SIZE : Z := 2 * 1024 * 1024.

Inductive kv_result_t : Set :=
| KV_SUCCESS | KV_ERR_INVALID_PARAM | KV_ERR_NO_MEMORY | KV_ERR_DEVICE_OPEN
| KV_ERR_KEY_NOT_FOUND | KV_ERR_KEY_EXISTS | KV_ERR_VALUE_TOO_LARGE
| KV_ERR_TIMEOUT | KV_ERR_IO | KV_ERR_NOT_INITIALIZED
| KV_ERR_KEY_ALREADY_EXISTS | KV_ERR_DEVICE_FULL | KV_ERR_DEVICE_NOT_FOUND
| KV_ERR_KEY_LENGTH | KV_ERR_VALUE_LENGTH | KV_ERR_DEVICE_DEGRADED
| KV_ERR_ALL_DEVICES_FAILED.

(** The numeric codes of the header. *)
Definition kv_result_code (r : kv_result_t) : Z :=
  match r with
  | KV_SUCCESS => 0 | KV_ERR_INVALID_PARAM => -1 | KV_ERR_NO_MEMORY => -2
  | KV_ERR_DEVICE_OPEN => -3 | KV_ERR_KEY_NOT_FOUND => -4 | KV_ERR_KEY_EXISTS => -5
  | KV_ERR_VALUE_TOO_LARGE => -6 | KV_ERR_TIMEOUT => -7 | KV_ERR_IO => -8
  | KV_ERR_NOT_INITIALIZED => -9 | KV_ERR_KEY_ALREADY_EXISTS => -10
  | KV_ERR_DEVICE_FULL => -11 | KV_ERR_DEVICE_NOT_FOUND => -12
  | KV_ERR_KEY_LENGTH => -13 | KV_ERR_VALUE_LENGTH => -14
  | KV_ERR_DEVICE_DEGRADED => -15 | KV_ERR_ALL_DEVICES_FAILED => -16
  end.

#[global] Instance kv_result_eq_dec : EqDecision kv_result_t.
Proof. solve_decision. Defined.

Inductive kvs_result : Set :=
| KVS_SUCCESS | KVS_ERR_BUFFER_SMALL | KVS_ERR_DEV_CAPAPCITY | KVS_ERR_DEV_NOT_EXIST
| KVS_ERR_KS_CAPACITY | KVS_ERR_KS_EXIST | KVS_ERR_KS_INDEX | KVS_ERR_KS_NAME
| KVS_ERR_KS_NOT_EXIST | KVS_ERR_KS_NOT_OPEN | KVS_ERR_KS_OPEN
| KVS_ERR_ITERATOR_FILTER_INVALID | KVS_ERR_ITERATOR_MAX
| KVS_ERR_ITERATOR_NOT_EXIST | KVS_ERR_ITERATOR_OPEN
| KVS_ERR_KEY_LENGTH_INVALID | KVS_ERR_KEY_NOT_EXIST | KVS_ERR_OPTION_INVALID
| KVS_ERR_PARAM_INVALID | KVS_ERR_SYS_IO | KVS_ERR_VALUE_LENGTH_INVALID
| KVS_ERR_VALUE_OFFSET_INVALID | KVS_ERR_VALUE_OFFSET_MISALIGNED
| KVS_ERR_VALUE_UPDATE_NOT_ALLOWED | KVS_ERR_DEV_NOT_OPENED.

#[global] Instance kvs_result_eq_dec : EqDecision kvs_result.
Proof. solve_decision. Defined.

Definition map_kvs_result (kvs_res : kvs_result) : kv_result_t :=
  match kvs_res with
  | KVS_SUCCESS => KV_SUCCESS
  | KVS_ERR_PARAM_INVALID => KV_ERR_INVALID_PARAM
  | KVS_ERR_OPTION_INVALID => KV_ERR_INVALID_PARAM
  | KVS_ERR_KEY_LENGTH_INVALID => KV_ERR_KEY_LENGTH
  | KVS_ERR_VALUE_LENGTH_INVALID => KV_ERR_VALUE_LENGTH
  | KVS_ERR_VALUE_OFFSET_INVALID => KV_ERR_VALUE_LENGTH
  | KVS_ERR_VALUE_OFFSET_MISALIGNED => KV_ERR_VALUE_LENGTH
  | KVS_ERR_KEY_NOT_EXIST => KV_ERR_KEY_NOT_FOUND
  | KVS_ERR_VALUE_UPDATE_NOT_ALLOWED => KV_ERR_KEY_ALREADY_EXISTS
  | KVS_ERR_DEV_CAPAPCITY => KV_ERR_DEVICE_FULL
  | KVS_ERR_KS_CAPACITY => KV_ERR_DEVICE_FULL
  | KVS_ERR_DEV_NOT_EXIST => KV_ERR_DEVICE_NOT_FOUND
  | KVS_ERR_DEV_NOT_OPENED => KV_ERR_DEVICE_NOT_FOUND
  | KVS_ERR_SYS_IO => KV_ERR_IO
  | KVS_ERR_BUFFER_SMALL => KV_ERR_IO
  | KVS_ERR_KS_NOT_EXIST => KV_ERR_IO
  | KVS_ERR_KS_NOT_OPEN => KV_ERR_IO
  | KVS_ERR_KS_EXIST => KV_ERR_IO
  | KVS_ERR_KS_INDEX => KV_ERR_IO
  | KVS_ERR_KS_NAME => KV_ERR_IO
  | KVS_ERR_KS_OPEN => KV_ERR_IO
  | KVS_ERR_ITERATOR_FILTER_INVALID => KV_ERR_IO
  | KVS_ERR_ITERATOR_MAX => KV_ERR_IO
  | KVS_ERR_ITERATOR_NOT_EXIST => KV_ERR_IO
  | KVS_ERR_ITERATOR_OPEN => KV_ERR_IO
  end.

(** Hardware faults, which count toward the health threshold. *)
Definition is_device_error (kvs_res : kvs_result) : bool :=
  match kvs_res with
  | KVS_ERR_SYS_IO | KVS_ERR_DEV_NOT_EXIST | KVS_ERR_DEV_NOT_OPENED
  | KVS_ERR_DEV_CAPAPCITY | KVS_ERR_KS_CAPACITY => true
  | _ => false
  end.

(** [kv_engine_config_t]: a C string pointer is [option string], [None] for NULL. *)
Record kv_engine_config_t := Config {
  cfg_device_path : option string;
  cfg_emul_config_file : option string;
  cfg_memory_pool_size : Z;
  cfg_queue_depth : Z;
  cfg_num_worker_threads : Z;
  cfg_enable_stats : Z;
  cfg_device_paths : list (option string);  (** KV_MAX_DEVICES entries *)
  cfg_num_devices : Z;
  cfg_dma_pool_count : Z
}.

(** A configuration as C can represent it. *)
Definition config_wf (c : kv_engine_config_t) : Prop :=
  in_word 64 (cfg_memory_pool_size c) /\ in_word 32 (cfg_queue_depth c) /\
  in_word 32 (cfg_num_worker_threads c) /\ in_word 32 (cfg_num_devices c) /\
  in_word 32 (cfg_dma_pool_count c) /\
  length (cfg_device_paths c) = Z.to_nat KV_MAX_DEVICES.

(** [kv_engine_stats_t]; [avg_latency_us] is never written after the [memset]. *)
Record kv_engine_stats_t := Stats {
  st_total_ops : Z;
  st_read_ops : Z;
  st_write_ops : Z;
  st_delete_ops : Z;
  st_failed_ops : Z;
  st_bytes_written : Z;
  st_bytes_read : Z
}.

Definition zero_stats : kv_engine_stats_t := Stats 0 0 0 0 0 0 0.

Lemma map_kvs_success r : map_kvs_result r = KV_SUCCESS <-> r = KVS_SUCCESS.
Proof. by destruct r. Qed.
