(* ===== verification/MemoryPool.v ===== *)
(** * The bump allocator (src/utils/memory_pool.c) *)
From S2P Require Import Prelude Libc.

Definition ALIGNMENT : Z := 8.

(** [#define ALIGN_UP(n, align) (((n) + (align) - 1) & ~((align) - 1))] on
    [size_t]: the mask is the [int] [~7], converted to 64 bits. *)
Definition ALIGN_UP (n align : Z) : Z :=
  Z.land (u64 (n + align - 1)) (u64 (Z.lnot (align - 1))).

(** [memory_pool_t]; [mp_self] is the address of the structure. *)
Record memory_pool_t := MemoryPool {
  mp_self : Z; mp_base : Z; mp_size : Z; mp_used : Z
}.

Section memory_pool.
Context {AB : Abi} {AL : Allocator}.

Definition memory_pool_create (size : Z) : prog heap (option memory_pool_t) :=
  pool ← malloc (sizeof T_memory_pool);
  if pool =? 0 then mret None
  else
    base ← malloc size;
    if base =? 0 then _ ← free pool; mret None
    else mret (Some (MemoryPool pool base size 0)).

Definition memory_pool_destroy (pool : option memory_pool_t) : prog heap unit :=
  match pool with
  | None => mret tt
  | Some p =>
    _ ← (if mp_base p =? 0 then mret tt else free (mp_base p));
    free (mp_self p)
  end.
End memory_pool.

(** Returns the pointer (0 for NULL) and the pool. *)
Definition memory_pool_alloc (pool : option memory_pool_t) (size : Z)
    : Z * option memory_pool_t :=
  match pool with
  | None => (0, None)
  | Some p =>
    let aligned_offset := ALIGN_UP (mp_used p) ALIGNMENT in
    let aligned_size := ALIGN_UP size ALIGNMENT in
    if (aligned_offset +64 aligned_size)%word >? mp_size p then (0, pool)
    else
      (mp_base p + aligned_offset,
       Some (MemoryPool (mp_self p) (mp_base p) (mp_size p)
               (aligned_offset +64 aligned_size)%word))
  end.

Arguments memory_pool_alloc : simpl never.

(** [memory_pool_free] is a no-op. *)
Definition memory_pool_free (pool : option memory_pool_t) (ptr : Z)
    : option memory_pool_t := pool.

(** ** Rounding *)

Lemma land_mask_8 x : in_word 64 x -> Z.land x (u64 (Z.lnot 7)) = x - x mod 8.
Proof.
  intros [H0 H1].
  assert (x - x mod 8 = Z.shiftl (Z.shiftr x 3) 3) as ->.
  { rewrite Z.shiftl_mul_pow2, Z.shiftr_div_pow2 by lia. change (2 ^ 3) with 8.
    pose proof (Z.div_mod x 8). lia. }
  change (u64 (Z.lnot 7)) with (Z.shiftl (Z.ones 61) 3).
  apply Z.bits_inj'. intros n Hn. rewrite Z.land_spec, !Z.shiftl_spec by lia.
  destruct (decide (n < 3)) as [Hlt|Hge].
  - rewrite !(Z.testbit_neg_r _ (n - 3)) by lia. by rewrite andb_false_r.
  - rewrite Z.shiftr_spec by lia. replace (n - 3 + 3) with n by lia.
    rewrite Z.testbit_ones_nonneg by lia.
    destruct (n - 3 <? 61) eqn:E; bool_to_prop; [by rewrite andb_true_r|].
    rewrite andb_false_r. symmetry. apply Z.bits_above_log2; [lia|].
    destruct (decide (x = 0)) as [->|]; [simpl; lia|].
    apply Z.log2_lt_pow2; [lia|]. apply Z.lt_le_trans with (2 ^ 64); [done|].
    apply Z.pow_le_mono_r; lia.
Qed.

(** Below the wrap-around, [ALIGN_UP n 8] is the least multiple of 8 from [n] on. *)
Lemma ALIGN_UP_spec n :
  0 <= n <= 2 ^ 64 - 8 ->
  n <= ALIGN_UP n ALIGNMENT < n + 8 /\ ALIGN_UP n ALIGNMENT mod 8 = 0.
Proof.
  intros H. unfold ALIGN_UP, ALIGNMENT. rewrite (wrap_small 64 (n + 8 - 1)).
  2:{ unfold in_word. lia. }
  change (8 - 1) with 7. rewrite land_mask_8 by (unfold in_word; lia).
  pose proof (Z.div_mod (n + 8 - 1) 8). pose proof (Z.mod_pos_bound (n + 8 - 1) 8).
  split; [lia|].
  replace (n + 8 - 1 - (n + 8 - 1) mod 8) with ((n + 8 - 1) / 8 * 8) by lia.
  apply Z.mod_mul. lia.
Qed.

(** ** Invariant *)

(** The bump pointer stays in the pool, and the pool in the address space. *)
Definition pool_wf (p : memory_pool_t) : Prop :=
  0 < mp_base p /\ 0 <= mp_used p <= mp_size p /\ mp_size p <= 2 ^ 62 /\
  mp_base p + mp_size p <= 2 ^ 64.

(** Requests small enough that no rounding wraps. *)
Definition request_ok (size : Z) : Prop := 0 <= size <= 2 ^ 62.

(** What one allocation does, on both branches. *)
Lemma memory_pool_alloc_cases p size :
  pool_wf p -> request_ok size ->
  let off := ALIGN_UP (mp_used p) ALIGNMENT in
  let len := ALIGN_UP size ALIGNMENT in
  (mp_size p < off + len /\ memory_pool_alloc (Some p) size = (0, Some p)) \/
  (off + len <= mp_size p /\
   memory_pool_alloc (Some p) size =
     (mp_base p + off,
      Some (MemoryPool (mp_self p) (mp_base p) (mp_size p) (off + len)))).
Proof.
  intros (Hb & Hu & Hs & Ha) Hr off len.
  destruct (ALIGN_UP_spec (mp_used p)) as [Ho _]; [lia|].
  destruct (ALIGN_UP_spec size) as [Hl _]; [unfold request_ok in Hr; lia|].
  unfold memory_pool_alloc. fold off len in Ho, Hl |- *.
  rewrite wrap_small by (unfold in_word, request_ok in *; lia).
  destruct (off + len >? mp_size p) eqn:E; rewrite Z.gtb_ltb in E; bool_to_prop;
    [left|right]; done.
Qed.

(** A run of allocations: the returned pointers in order, and the final pool. *)
Fixpoint memory_pool_run (pool : option memory_pool_t) (sizes : list Z)
    : list Z * option memory_pool_t :=
  match sizes with
  | [] => ([], pool)
  | sz :: rest =>
    let '(ptr, pool1) := memory_pool_alloc pool sz in
    let '(ptrs, pool2) := memory_pool_run pool1 rest in
    (ptr :: ptrs, pool2)
  end.

(** A returned block lies in the pool at or after [lo], 8-aligned in the pool. *)
Definition block_ok (p : memory_pool_t) (lo ptr size : Z) : Prop :=
  ptr = 0 \/
  (lo <= ptr /\ ptr + size <= mp_base p + mp_size p /\ (ptr - mp_base p) mod 8 = 0).

Lemma block_ok_weaken p p' lo lo' ptr size :
  lo' <= lo -> mp_base p = mp_base p' -> mp_size p = mp_size p' ->
  block_ok p lo ptr size -> block_ok p' lo' ptr size.
Proof.
  unfold block_ok. intros Hlo -> -> [->|(H1 & H2 & H3)]; [by left|].
  right. repeat split; [lia|done|done].
Qed.

Lemma memory_pool_alloc_step p size ptr pool1 :
  pool_wf p -> request_ok size ->
  memory_pool_alloc (Some p) size = (ptr, pool1) ->
  exists p1, pool1 = Some p1 /\ pool_wf p1 /\
    mp_base p1 = mp_base p /\ mp_size p1 = mp_size p /\ mp_used p <= mp_used p1 /\
    block_ok p (mp_base p + mp_used p) ptr size /\
    (ptr = 0 \/ ptr + size <= mp_base p + mp_used p1).
Proof.
  intros Hwf Hr Hstep.
  destruct (memory_pool_alloc_cases p size Hwf Hr) as [[_ E]|[Hfit E]];
    rewrite E in Hstep; simplify_eq.
  - exists p. unfold block_ok. naive_solver lia.
  - destruct Hwf as (Hb & Hu & Hs & Ha).
    destruct (ALIGN_UP_spec (mp_used p)) as [Ho Hm]; [lia|].
    unfold request_ok in Hr. destruct (ALIGN_UP_spec size) as [Hl _]; [lia|].
    eexists. split; [done|]. unfold pool_wf, block_ok; simpl. split_and!; try lia.
    + right. repeat split; [lia|lia|].
      by replace (mp_base p + ALIGN_UP (mp_used p) ALIGNMENT - mp_base p)
        with (ALIGN_UP (mp_used p) ALIGNMENT) by lia.
Qed.

Lemma memory_pool_run_blocks p sizes ptrs pool' :
  pool_wf p -> Forall request_ok sizes ->
  memory_pool_run (Some p) sizes = (ptrs, pool') ->
  length ptrs = length sizes /\
  forall i ptr size, ptrs !! i = Some ptr -> sizes !! i = Some size ->
    block_ok p (mp_base p + mp_used p) ptr size.
Proof.
  intros Hwf Hr. revert p ptrs pool' Hwf.
  induction Hr as [|sz rest Hsz _ IH]; intros p ptrs pool' Hwf Hrun; simpl in Hrun.
  { simplify_eq. split; [done|]. intros i ptr size H. by rewrite lookup_nil in H. }
  destruct (memory_pool_alloc (Some p) sz) as [ptr pool1] eqn:Ea.
  destruct (memory_pool_run pool1 rest) as [ptrs1 pool2] eqn:Er. simplify_eq.
  destruct (memory_pool_alloc_step p sz ptr pool1 Hwf Hsz Ea)
    as (p1 & -> & Hwf1 & Hb1 & Hs1 & Hu1 & Hok & _).
  destruct (IH p1 ptrs1 pool' Hwf1 Er) as [Hlen Hrest].
  split; [simpl; lia|]. intros [|i] ptr' size Hp Hs; simpl in *; [by simplify_eq|].
  eapply block_ok_weaken; [| | |by eapply Hrest]; [lia|lia|lia].
Qed.

Lemma memory_pool_run_ordered p sizes ptrs pool' :
  pool_wf p -> Forall request_ok sizes ->
  memory_pool_run (Some p) sizes = (ptrs, pool') ->
  forall i j pi pj si, (i < j)%nat ->
    ptrs !! i = Some pi -> ptrs !! j = Some pj -> sizes !! i = Some si ->
    pi <> 0 -> pj <> 0 -> pi + si <= pj.
Proof.
  intros Hwf Hr. revert p ptrs pool' Hwf.
  induction Hr as [|sz rest Hsz Hrest' IH]; intros p ptrs pool' Hwf Hrun; simpl in Hrun.
  { simplify_eq. intros i j pi pj si _ H. by rewrite lookup_nil in H. }
  destruct (memory_pool_alloc (Some p) sz) as [ptr pool1] eqn:Ea.
  destruct (memory_pool_run pool1 rest) as [ptrs1 pool2] eqn:Er. simplify_eq.
  destruct (memory_pool_alloc_step p sz ptr pool1 Hwf Hsz Ea)
    as (p1 & -> & Hwf1 & Hb1 & Hs1 & Hu1 & Hok & Hend).
  intros [|i] [|j] pi pj si Hij Hpi Hpj Hsi Hni Hnj; simpl in *; try lia.
  - simplify_eq.
    destruct (memory_pool_run_blocks p1 rest ptrs1 pool' Hwf1 Hrest' Er) as [Hlen Hblk].
    destruct (lookup_lt_is_Some_2 rest j) as [sj Hsj].
    { apply lookup_lt_Some in Hpj. lia. }
    destruct (Hblk j pj sj Hpj Hsj) as [->|(? & _)]; [done|]. destruct Hend; lia.
  - eapply (IH p1 ptrs1 pool' Hwf1 Er i j); eauto. lia.
Qed.

(** ** Properties *)

(** Over any run of allocations the non-NULL blocks lie inside the pool, are
    8-aligned relative to its base, and each ends before every later one starts,
    so no two live allocations overlap. *)
Theorem memory_pool_allocations_disjoint p sizes ptrs pool' :
  pool_wf p -> Forall request_ok sizes ->
  memory_pool_run (Some p) sizes = (ptrs, pool') ->
  length ptrs = length sizes /\
  (forall i ptr size, ptrs !! i = Some ptr -> sizes !! i = Some size -> ptr <> 0 ->
     mp_base p <= ptr /\ ptr + size <= mp_base p + mp_size p /\
     (ptr - mp_base p) mod 8 = 0) /\
  (forall i j pi pj si, (i < j)%nat ->
     ptrs !! i = Some pi -> ptrs !! j = Some pj -> sizes !! i = Some si ->
     pi <> 0 -> pj <> 0 -> pi + si <= pj).
Proof.
  intros Hwf Hr Hrun.
  destruct (memory_pool_run_blocks p sizes ptrs pool' Hwf Hr Hrun) as [Hlen Hblk].
  split_and!; [done| |by eapply memory_pool_run_ordered].
  intros i ptr size Hp Hs Hn. destruct Hwf as (? & ? & _).
  destruct (Hblk i ptr size Hp Hs) as [|(? & ? & ?)]; [done|]. split_and!; [lia|lia|done].
Qed.

Lemma memory_pool_allocations_disjoint_witness :
  let p := MemoryPool 64 4096 64 0 in
  memory_pool_run (Some p) [3; 16; 41; 8]
    = ([4096; 4104; 0; 4120], Some (MemoryPool 64 4096 64 32)) /\
  length [4096; 4104; 0; 4120] = length [3; 16; 41; 8].
Proof.
  split; [vm_compute; reflexivity|].
  refine (proj1 (memory_pool_allocations_disjoint (MemoryPool 64 4096 64 0)
    [3; 16; 41; 8] [4096; 4104; 0; 4120] (Some (MemoryPool 64 4096 64 32)) _ _ _)).
  - unfold pool_wf; simpl; lia.
  - unfold request_ok; repeat constructor; lia.
  - vm_compute; reflexivity.
Defined.

(** An allocation fails exactly when the rounded request does not fit behind
    the rounded bump pointer; a failure leaves the pool unchanged, and a success
    returns the rounded bump pointer and advances it by the rounded size. *)
Theorem memory_pool_alloc_exact p size :
  pool_wf p -> request_ok size ->
  let off := ALIGN_UP (mp_used p) ALIGNMENT in
  let len := ALIGN_UP size ALIGNMENT in
  (fst (memory_pool_alloc (Some p) size) = 0 <-> mp_size p < off + len) /\
  (mp_size p < off + len -> memory_pool_alloc (Some p) size = (0, Some p)) /\
  (off + len <= mp_size p ->
     memory_pool_alloc (Some p) size =
       (mp_base p + off,
        Some (MemoryPool (mp_self p) (mp_base p) (mp_size p) (off + len)))) /\
  mp_used p <= off < mp_used p + 8 /\ off mod 8 = 0 /\
  size <= len < size + 8 /\ len mod 8 = 0.
Proof.
  intros Hwf Hr off len.
  destruct (ALIGN_UP_spec (mp_used p)) as [Ho Hom]; [destruct Hwf as (? & ? & ? & ?); lia|].
  destruct (ALIGN_UP_spec size) as [Hl Hlm]; [unfold request_ok in Hr; lia|].
  assert (0 < mp_base p /\ 0 <= mp_used p) as [Hb Hu] by (destruct Hwf as (? & ? & _); lia).
  destruct (memory_pool_alloc_cases p size Hwf Hr) as [[Hfit E]|[Hfit E]];
    rewrite E; simpl; split_and!; try done; try lia; subst off len; naive_solver lia.
Qed.

Lemma memory_pool_alloc_exact_witness :
  fst (memory_pool_alloc (Some (MemoryPool 64 4096 64 3)) 57) = 0 <->
  64 < ALIGN_UP 3 ALIGNMENT + ALIGN_UP 57 ALIGNMENT.
Proof.
  refine (proj1 (memory_pool_alloc_exact (MemoryPool 64 4096 64 3) 57 _ _)).
  - unfold pool_wf; simpl; lia.
  - unfold request_ok; lia.
Defined.

(** Without a bound on the request the rounding wraps around: asking for
    [SIZE_MAX] bytes rounds to 0, so the pool answers with a non-NULL pointer and
    reserves nothing. *)
Theorem memory_pool_alloc_wraps p :
  pool_wf p -> ALIGN_UP (mp_used p) ALIGNMENT <= mp_size p ->
  memory_pool_alloc (Some p) (2 ^ 64 - 1) =
    (mp_base p + ALIGN_UP (mp_used p) ALIGNMENT,
     Some (MemoryPool (mp_self p) (mp_base p) (mp_size p)
             (ALIGN_UP (mp_used p) ALIGNMENT))) /\
  mp_base p + ALIGN_UP (mp_used p) ALIGNMENT <> 0.
Proof.
  intros (Hb & Hu & Hs & Ha) Hfit.
  destruct (ALIGN_UP_spec (mp_used p)) as [Ho _]; [lia|].
  unfold memory_pool_alloc.
  change (ALIGN_UP (2 ^ 64 - 1) ALIGNMENT) with 0. rewrite Z.add_0_r.
  rewrite wrap_small by (unfold in_word; lia).
  destruct (_ >? _) eqn:E; rewrite Z.gtb_ltb in E; bool_to_prop; [lia|].
  split; [done|lia].
Qed.

Lemma memory_pool_alloc_wraps_witness :
  memory_pool_alloc (Some (MemoryPool 64 4096 64 3)) (2 ^ 64 - 1) =
    (4104, Some (MemoryPool 64 4096 64 8)).
Proof.
  refine (proj1 (memory_pool_alloc_wraps (MemoryPool 64 4096 64 3) _ _)).
  - unfold pool_wf; simpl; lia.
  - vm_compute; discriminate.
Defined.

Section memory_pool_lifecycle.
Context {AB : Abi} {AL : Allocator}.

Lemma wp_memory_pool_create X size (Q : option memory_pool_t -> heap -> Prop) t m :
  0 <= size ->
  (forall t', Q None (Heap t' m)) ->
  (forall t' self base,
     fresh_block m MALLOC_ALIGN (sizeof T_memory_pool) self ->
     fresh_block (<[self := Block (sizeof T_memory_pool) []]> m) MALLOC_ALIGN size base ->
     Q (Some (MemoryPool self base size 0))
       (Heap t' (<[base := Block size []]> (<[self := Block (sizeof T_memory_pool) []]> m)))) ->
  wp X (memory_pool_create size) Q (Heap t m).
Proof.
  intros Hsz HN HS. unfold memory_pool_create. wp_step.
  apply wp_malloc; [auto with words|by apply HN|]. intros self Hself.
  rewrite (fresh_block_eqb _ _ _ _ Hself). wp_step.
  apply wp_malloc; [done| |].
  - simpl. wp_step. by eapply wp_free_fresh; [|apply HN].
  - intros base Hbase. rewrite (fresh_block_eqb _ _ _ _ Hbase). by apply HS.
Qed.

Lemma wp_memory_pool_destroy X p b1 b2 (Q : unit -> heap -> Prop) t m :
  0 < mp_base p -> 0 < mp_self p -> mp_base p <> mp_self p ->
  m !! mp_base p = Some b1 -> m !! mp_self p = Some b2 ->
  Q tt (Heap t (delete (mp_self p) (delete (mp_base p) m))) ->
  wp X (memory_pool_destroy (Some p)) Q (Heap t m).
Proof.
  intros Hb Hs Hne Hb1 Hb2 HQ. simpl. wp_step.
  replace (mp_base p =? 0) with false by lia.
  eapply wp_free; [done..|]. eapply wp_free; [done| |done].
  by rewrite lookup_delete_ne.
Qed.

(** Creating a pool and destroying it again gives back every block, and a
    creation that fails half way leaves nothing behind; neither has undefined
    behaviour. *)
Theorem memory_pool_no_leak size t m :
  0 <= size ->
  wp never (p ← memory_pool_create size; memory_pool_destroy p)
    (fun _ h => h_blocks h = m) (Heap t m).
Proof.
  intros Hsz. wp_step. apply wp_memory_pool_create; [done|done|].
  intros t' self base Hself Hbase.
  pose proof (fresh_block_none _ _ _ _ Hself) as Nself.
  pose proof (fresh_block_none _ _ _ _ Hbase) as Nbase.
  assert (base <> self) by (intros ->; by rewrite lookup_insert_eq in Nbase).
  rewrite lookup_insert_ne in Nbase by done.
  eapply wp_memory_pool_destroy; simpl; [apply Hbase|apply Hself|done|..].
  - apply lookup_insert_eq.
  - rewrite lookup_insert_ne by done. apply lookup_insert_eq.
  - rewrite delete_insert_id by (by rewrite lookup_insert_ne by done).
    by apply delete_insert_id.
Qed.
End memory_pool_lifecycle.

Lemma memory_pool_no_leak_witness :
  wp never (p ← @memory_pool_create lp64 small_allocator 4096; memory_pool_destroy p)
    (fun _ h => h_blocks h = ∅) (Heap [] ∅).
Proof. apply memory_pool_no_leak. lia. Defined.
