(* ===== verification/DmaPool.v ===== *)
(** * DMA-aligned buffers and their pool (src/utils/dma_alloc.c, dma_pool.c)

    Buffers of one size handed out from a stack of free ones.  The arrays are
    modelled with their never-written cells and the mutex with whether it was
    initialised, so that a use of either too early is undefined behaviour. *)
From S2P Require Import Prelude Libc.

Definition DMA_ALIGNMENT : Z := 4096.

Definition IS_DMA_ALIGNED (ptr : Z) : bool := Z.land ptr (DMA_ALIGNMENT - 1) =? 0.

(** [dma_pool_t]: the two arrays by address and contents; [dp_self] is the
    address of the structure. *)
Record dma_pool_t := DmaPool {
  dp_self : Z;
  dp_free_list_ptr : Z;
  dp_free_list : list (option Z);
  dp_all_buffers_ptr : Z;
  dp_all_buffers : list (option Z);
  dp_top : Z;
  dp_buffer_size : Z;
  dp_count : Z;
  dp_lock_ready : bool
}.

Definition set_top (top : Z) (p : dma_pool_t) : dma_pool_t :=
  DmaPool (dp_self p) (dp_free_list_ptr p) (dp_free_list p) (dp_all_buffers_ptr p)
    (dp_all_buffers p) top (dp_buffer_size p) (dp_count p) (dp_lock_ready p).
Definition set_free_list (l : list (option Z)) (p : dma_pool_t) : dma_pool_t :=
  DmaPool (dp_self p) (dp_free_list_ptr p) l (dp_all_buffers_ptr p)
    (dp_all_buffers p) (dp_top p) (dp_buffer_size p) (dp_count p) (dp_lock_ready p).
Definition set_all_buffers (l : list (option Z)) (p : dma_pool_t) : dma_pool_t :=
  DmaPool (dp_self p) (dp_free_list_ptr p) (dp_free_list p) (dp_all_buffers_ptr p)
    l (dp_top p) (dp_buffer_size p) (dp_count p) (dp_lock_ready p).
Definition set_lock_ready (p : dma_pool_t) : dma_pool_t :=
  DmaPool (dp_self p) (dp_free_list_ptr p) (dp_free_list p) (dp_all_buffers_ptr p)
    (dp_all_buffers p) (dp_top p) (dp_buffer_size p) (dp_count p) true.

Section allocation.
Context {AB : Abi} {AL : Allocator}.

Definition dma_alloc (size : Z) : prog heap Z :=
  if size =? 0 then mret 0
  else
    r ← posix_memalign DMA_ALIGNMENT size;
    let '(result, ptr) := (r : Z * Z) in
    if negb (result =? 0) then mret 0 else mret ptr.

Definition dma_free (ptr : Z) : prog heap unit := free ptr.

Definition dma_pool_destroy (pool : option dma_pool_t) : prog heap unit :=
  match pool with
  | None => mret tt
  | Some p =>
    _ ← (if dp_all_buffers_ptr p =? 0 then mret tt
         else
           _ ← for_each (seqZ 0 (dp_count p)) (fun i =>
                 b ← arr_read (dp_all_buffers p) i; dma_free b);
           free (dp_all_buffers_ptr p));
    _ ← (if dp_free_list_ptr p =? 0 then mret tt else free (dp_free_list_ptr p));
    _ ← (if dp_lock_ready p then mret tt else undefined);
    free (dp_self p)
  end.

(** The loop that pre-allocates the buffers, from index [i], [n] to go. *)
Fixpoint dma_pool_fill (n : nat) (i : Z) (p : dma_pool_t)
    : prog heap (option dma_pool_t) :=
  match n with
  | O => mret (Some (set_lock_ready p))
  | S n' =>
    buf ← dma_alloc (dp_buffer_size p);
    if buf =? 0 then _ ← dma_pool_destroy (Some p); mret None
    else
      top ← int_incr (dp_top p);
      fl ← arr_write (dp_free_list p) top buf;
      ab ← arr_write (dp_all_buffers p) i buf;
      dma_pool_fill n' (i + 1) (set_all_buffers ab (set_free_list fl (set_top top p)))
  end.

Definition dma_pool_create (buffer_size count : Z) : prog heap (option dma_pool_t) :=
  pool ← malloc (sizeof T_dma_pool);
  if pool =? 0 then mret None
  else
    fl ← malloc (u64 (sizeof T_ptr * count));
    if fl =? 0 then _ ← free pool; mret None
    else
      ab ← malloc (u64 (sizeof T_ptr * count));
      if ab =? 0 then _ ← free fl; _ ← free pool; mret None
      else
        dma_pool_fill (Z.to_nat count) 0
          (DmaPool pool fl (fresh_array count) ab (fresh_array count)
             (-1) buffer_size count false).
End allocation.

(** The operations on a pool in use, as programs on the pool itself. *)
Definition lock_pool : prog dma_pool_t unit := fun p =>
  if dp_lock_ready p then Done tt p else Undef.

Definition dma_pool_acquire : prog dma_pool_t Z :=
  _ ← lock_pool;
  p ← get;
  if dp_top p <? 0 then mret 0
  else
    buf ← arr_read (dp_free_list p) (dp_top p);
    _ ← modify (set_top (dp_top p - 1));
    mret buf.

(** [pool->top + 1 >= pool->count] compares as [size_t]. *)
Definition dma_pool_release (buffer : Z) : prog dma_pool_t unit :=
  _ ← lock_pool;
  p ← get;
  t1 ← int_incr (dp_top p);
  if dp_count p <=? u64 t1 then mret tt
  else
    fl ← arr_write (dp_free_list p) t1 buffer;
    modify (fun q => set_free_list fl (set_top t1 q)).

Fixpoint owns_scan (l : list (option Z)) (n : nat) (i buffer : Z) : prog dma_pool_t Z :=
  match n with
  | O => mret 0
  | S n' =>
    b ← arr_read l i;
    if b =? buffer then mret 1 else owns_scan l n' (i + 1) buffer
  end.

Definition dma_pool_owns (buffer : Z) : prog dma_pool_t Z :=
  p ← get;
  if buffer =? 0 then mret 0
  else owns_scan (dp_all_buffers p) (Z.to_nat (dp_count p)) 0 buffer.

(** A buffer as [posix_memalign] returns it. *)
Definition buf_ok (b : Z) : Prop := 0 < b /\ b mod DMA_ALIGNMENT = 0.

(** ** Representation invariant

    [pool_rep p bufs stack]: the pool owns the distinct buffers [bufs], of which
    [stack] (top of the stack last) are free. *)
Definition pool_rep (p : dma_pool_t) (bufs stack : list Z) : Prop :=
  dp_lock_ready p = true /\
  dp_all_buffers p = Some <$> bufs /\
  dp_count p = Z.of_nat (length bufs) /\
  dp_count p < 2 ^ 31 /\
  length (dp_free_list p) = length bufs /\
  (exists rest, dp_free_list p = (Some <$> stack) ++ rest) /\
  dp_top p = Z.of_nat (length stack) - 1 /\
  NoDup bufs /\ Forall buf_ok bufs /\ Forall (fun b => b ∈ bufs) stack.

(** [pool_state p bufs stack held]: moreover every buffer is either free or held
    by exactly one client. *)
Definition pool_state (p : dma_pool_t) (bufs stack held : list Z) : Prop :=
  pool_rep p bufs stack /\ Permutation (stack ++ held) bufs.

Lemma wp_lock_pool X (Q : unit -> dma_pool_t -> Prop) p :
  dp_lock_ready p = true -> Q tt p -> wp X lock_pool Q p.
Proof. intros H HQ. unfold wp, lock_pool. by rewrite H. Qed.

Lemma arr_get_full (l : list Z) rest i x :
  l !! i = Some x -> arr_get ((Some <$> l) ++ rest) (Z.of_nat i) = Some x.
Proof.
  intros H. unfold arr_get. rewrite (proj2 (Z.leb_le 0 (Z.of_nat i))) by lia.
  rewrite Nat2Z.id, lookup_app_l.
  - by rewrite list_lookup_fmap, H.
  - rewrite length_fmap. by eapply lookup_lt_Some.
Qed.

(** What acquiring and releasing leave alone. *)
Definition pool_ids (p : dma_pool_t) : Z * Z * Z * Z :=
  (dp_self p, dp_free_list_ptr p, dp_all_buffers_ptr p, dp_buffer_size p).

(** Popping: NULL exactly when no buffer is free, else the top of the stack. *)
Lemma wp_dma_pool_acquire X p bufs stack (Q : Z -> dma_pool_t -> Prop) :
  pool_rep p bufs stack ->
  (stack = [] -> Q 0 p) ->
  (forall stack' b p', stack = stack' ++ [b] -> 0 < b -> pool_rep p' bufs stack' ->
     pool_ids p' = pool_ids p -> Q b p') ->
  wp X dma_pool_acquire Q p.
Proof.
  intros (Hl & Hab & Hc & Hc31 & Hlen & [rest Hfl] & Htop & Hnd & Hpos & Hin) HN HS.
  unfold dma_pool_acquire. wp_step. apply wp_lock_pool; [done|]. wp_step. apply wp_get.
  destruct stack as [|b stack' _] using rev_ind.
  { simpl in Htop. replace (dp_top p <? 0) with true by lia. by apply wp_ret, HN. }
  rewrite length_app in Htop; simpl in Htop. apply Forall_app in Hin as [Hin Hb].
  apply Forall_cons in Hb as [Hb _].
  replace (dp_top p <? 0) with false by lia. wp_step.
  eapply wp_arr_read.
  { rewrite Hfl, Htop. replace (Z.of_nat (length stack' + 1) - 1) with (Z.of_nat (length stack')) by lia.
    apply arr_get_full. by rewrite lookup_app_r, Nat.sub_diag by lia. }
  wp_step. apply wp_modify. apply wp_ret. eapply HS; [done| | |done].
  - rewrite Forall_forall in Hpos. by apply (Hpos b).
  - unfold pool_rep; simpl. split_and!; try done; try lia.
    exists (Some b :: rest). by rewrite Hfl, fmap_app, <- app_assoc.
Qed.

Lemma insert_at_end (l : list Z) (rest : list (option Z)) x y :
  <[length l := y]> ((Some <$> l) ++ x :: rest) = (Some <$> l) ++ y :: rest.
Proof. rewrite insert_app_r_alt; rewrite length_fmap; [|done]. by rewrite Nat.sub_diag. Qed.

(** Pushing a buffer of the pool while there is room. *)
Lemma wp_dma_pool_release X p bufs stack b (Q : unit -> dma_pool_t -> Prop) :
  pool_rep p bufs stack -> b ∈ bufs -> (length stack < length bufs)%nat ->
  (forall p', pool_rep p' bufs (stack ++ [b]) ->
     pool_ids p' = pool_ids p -> Q tt p') ->
  wp X (dma_pool_release b) Q p.
Proof.
  intros (Hl & Hab & Hc & Hc31 & Hlen & [rest Hfl] & Htop & Hnd & Hpos & Hin) Hb Hroom HS.
  unfold dma_pool_release. wp_step. apply wp_lock_pool; [done|]. wp_step. apply wp_get.
  wp_step. apply wp_int_incr; [lia|].
  rewrite wrap_small by (unfold in_word; lia).
  replace (dp_count p <=? dp_top p + 1) with false by lia. wp_step.
  apply wp_arr_write; [lia|]. apply wp_modify. apply HS; [|done].
  replace (Z.to_nat (dp_top p + 1)) with (length stack) by lia.
  destruct rest as [|x rest].
  { rewrite Hfl, app_nil_r, length_fmap in Hlen. lia. }
  unfold pool_rep; simpl. rewrite Hfl, insert_at_end. split_and!; try done.
  - by rewrite <- Hlen, Hfl, !length_app.
  - exists rest. by rewrite fmap_app, <- app_assoc.
  - rewrite length_app; simpl. lia.
  - apply Forall_app; split; [done|by constructor].
Qed.

Lemma wp_owns_scan X (bufs : list Z) b (Q : Z -> dma_pool_t -> Prop) p n i :
  (i + n = length bufs)%nat ->
  Q (if decide (b ∈ drop i bufs) then 1 else 0) p ->
  wp X (owns_scan (Some <$> bufs) n (Z.of_nat i) b) Q p.
Proof.
  revert i. induction n as [|n IH]; intros i Hlen HQ; simpl.
  { rewrite drop_ge in HQ by lia. rewrite decide_False in HQ by set_solver. done. }
  destruct (lookup_lt_is_Some_2 bufs i) as [x Hx]; [lia|]. wp_step.
  eapply wp_arr_read.
  { rewrite <- (app_nil_r (Some <$> bufs)). by apply arr_get_full. }
  rewrite (drop_S bufs x i Hx) in HQ.
  destruct (x =? b) eqn:E; bool_to_prop.
  - subst. rewrite decide_True in HQ by set_solver. done.
  - replace (Z.of_nat i + 1) with (Z.of_nat (S i)) by lia. apply IH; [lia|].
    destruct (decide (b ∈ drop (S i) bufs)); case_decide; set_solver.
Qed.

(** Ownership is membership in the buffers created with the pool. *)
Lemma wp_dma_pool_owns X p bufs stack b (Q : Z -> dma_pool_t -> Prop) :
  pool_rep p bufs stack ->
  Q (if decide (b ∈ bufs) then 1 else 0) p ->
  wp X (dma_pool_owns b) Q p.
Proof.
  intros (Hl & Hab & Hc & Hc31 & Hlen & _ & Htop & Hnd & Hpos & Hin) HQ.
  unfold dma_pool_owns. wp_step. apply wp_get. destruct (b =? 0) eqn:E; bool_to_prop.
  - subst. apply wp_ret. rewrite decide_False in HQ; [done|].
    intros Hb. rewrite Forall_forall in Hpos. destruct (Hpos 0 Hb). lia.
  - rewrite Hab. apply (wp_owns_scan X bufs b Q p _ 0); [lia|done].
Qed.

Section lifecycle.
Context {AB : Abi} {AL : Allocator}.

Lemma wp_dma_alloc X size (Q : Z -> heap -> Prop) t m :
  0 <= size ->
  (forall t', t' = t \/ t' = false :: t -> Q 0 (Heap t' m)) ->
  (forall a, 0 < size -> fresh_block m DMA_ALIGNMENT size a ->
     Q a (Heap (true :: t) (<[a := Block size []]> m))) ->
  wp X (dma_alloc size) Q (Heap t m).
Proof.
  intros Hsz HN HS. unfold dma_alloc.
  destruct (size =? 0) eqn:E; bool_to_prop; [by apply HN; left|].
  wp_step. unfold posix_memalign. wp_step. apply wp_alloc_aligned; [done|done|by apply HN; right|].
  intros a Ha. rewrite (fresh_block_eqb _ _ _ _ Ha). apply wp_ret. simpl. apply HS; [lia|done].
Qed.

(** Freeing the buffers in index order. *)
Lemma wp_free_buffers X (l1 l2 : list Z) t m :
  NoDup l2 -> (forall a, a ∈ l2 -> 0 < a /\ is_Some (m !! a)) ->
  wp X (for_each (seqZ (Z.of_nat (length l1)) (Z.of_nat (length l2))) (fun i =>
          b ← arr_read (Some <$> (l1 ++ l2)) i; dma_free b))
    (fun _ h => h = Heap t (delete_all l2 m)) (Heap t m).
Proof.
  revert l1 m. induction l2 as [|a l2 IH]; intros l1 m Hnd Hin; [done|].
  apply NoDup_cons in Hnd as [Ha Hnd].
  destruct (Hin a) as [Hpos Hsome]; [set_solver|].
  rewrite seqZ_cons by (simpl; lia). cbn [for_each]. wp_step. wp_step. eapply wp_arr_read.
  { rewrite <- (app_nil_r (Some <$> _)). apply arr_get_full.
    by rewrite lookup_app_r, Nat.sub_diag by lia. }
  apply wp_free_in; [done|done|].
  replace (Z.pred (Z.of_nat (length (a :: l2)))) with (Z.of_nat (length l2)) by (simpl; lia).
  replace (Z.succ (Z.of_nat (length l1))) with (Z.of_nat (length (l1 ++ [a])))
    by (rewrite length_app; simpl; lia).
  replace (l1 ++ a :: l2) with ((l1 ++ [a]) ++ l2) by (by rewrite <- app_assoc).
  eapply wp_mono; [apply IH; [done|]|].
  - intros x Hx. rewrite lookup_delete_ne by (intros ->; done). apply Hin. set_solver.
  - intros _ h ->. f_equal. apply map_eq. intros x.
    rewrite lookup_delete_all. simpl. rewrite lookup_delete, lookup_delete, lookup_delete_all.
    repeat case_decide; set_solver.
Qed.

(** The blocks a pool owns. *)
Definition pool_blocks (p : dma_pool_t) (bufs : list Z) : list Z :=
  bufs ++ [dp_all_buffers_ptr p; dp_free_list_ptr p; dp_self p].

Lemma pool_blocks_perm p bufs :
  Permutation (pool_blocks p bufs)
    ([dp_self p; dp_free_list_ptr p; dp_all_buffers_ptr p] ++ bufs).
Proof. unfold pool_blocks. solve_Permutation. Qed.

Definition pool_owns_blocks (p : dma_pool_t) (bufs : list Z) (m : gmap Z block) : Prop :=
  NoDup (pool_blocks p bufs) /\
  forall a, a ∈ pool_blocks p bufs -> 0 < a /\ is_Some (m !! a).

(** Destroying a pool frees its blocks and nothing else. *)
Lemma wp_dma_pool_destroy X p bufs stack t m :
  pool_rep p bufs stack -> pool_owns_blocks p bufs m ->
  wp X (dma_pool_destroy (Some p))
    (fun _ h => h = Heap t (delete_all (pool_blocks p bufs) m)) (Heap t m).
Proof.
  intros (Hl & Hab & Hc & _) [Hnd Hin]. unfold pool_blocks in *.
  apply NoDup_app in Hnd as (Hnd & Hdis & Hnd3).
  destruct (Hin (dp_all_buffers_ptr p)) as [Hp1 Hs1]; [set_solver|].
  destruct (Hin (dp_free_list_ptr p)) as [Hp2 Hs2]; [set_solver|].
  destruct (Hin (dp_self p)) as [Hp3 Hs3]; [set_solver|].
  apply NoDup_cons in Hnd3 as [N1 Hnd3]. apply NoDup_cons in Hnd3 as [N2 _].
  simpl. replace (dp_all_buffers_ptr p =? 0) with false by lia.
  replace (dp_free_list_ptr p =? 0) with false by lia. rewrite Hl.
  assert (forall a, a ∈ [dp_all_buffers_ptr p; dp_free_list_ptr p; dp_self p] ->
    delete_all bufs m !! a = m !! a) as Hrest.
  { intros a Ha. rewrite lookup_delete_all, decide_False; [done|].
    intros Hb. by apply (Hdis a Hb). }
  wp_step. wp_step. rewrite Hab, Hc. eapply wp_mono.
  { apply (wp_free_buffers X [] bufs t m); [done|]. intros a Ha. apply Hin. set_solver. }
  intros _ h ->. apply wp_free_in; [done|by rewrite Hrest by set_solver|].
  wp_step. apply wp_free_in; [done| |].
  { rewrite lookup_delete_ne by set_solver. by rewrite Hrest by set_solver. }
  wp_step. apply wp_ret. apply wp_free_in; [done| |].
  { rewrite !lookup_delete_ne by set_solver. by rewrite Hrest by set_solver. }
  f_equal. rewrite delete_all_comm. apply map_eq. intros a. simpl.
  rewrite !lookup_delete. repeat case_decide; done.
Qed.

(** A pool under construction: [bufs] allocated, [n] to go. *)
Definition building (p : dma_pool_t) (bufs : list Z) (n : nat) : Prop :=
  dp_lock_ready p = false /\
  dp_all_buffers p = (Some <$> bufs) ++ replicate n None /\
  dp_free_list p = (Some <$> bufs) ++ replicate n None /\
  dp_top p = Z.of_nat (length bufs) - 1 /\
  dp_count p = Z.of_nat (length bufs + n) /\ dp_count p < 2 ^ 31 /\
  NoDup bufs /\ Forall buf_ok bufs /\ dp_all_buffers_ptr p <> 0.

(** When a buffer cannot be allocated, [dma_pool_destroy] walks over array cells
    that were never written. *)
Lemma dma_pool_destroy_building p bufs n h :
  building p bufs (S n) -> dma_pool_destroy (Some p) h = Undef.
Proof.
  intros (Hl & Hab & Hfl & Htop & Hc & Hc31 & Hnd & Hpos & Hptr). simpl.
  unfold mbind, prog_bind.
  replace (dp_all_buffers_ptr p =? 0) with false by lia.
  rewrite (for_each_undef _ (Z.of_nat (length bufs))); [done|..].
  - apply elem_of_seqZ. lia.
  - intros s. unfold mbind, prog_bind, arr_read, arr_get.
    rewrite (proj2 (Z.leb_le _ _)) by lia. rewrite Nat2Z.id, Hab.
    rewrite lookup_app_r by (by rewrite length_fmap).
    by rewrite length_fmap, Nat.sub_diag.
  - intros y s. unfold mbind, prog_bind, arr_read, dma_free, free.
    destruct (arr_get _ _); simpl; [|done]. case_if E; [done|]. by destruct (_ !! _).
Qed.

Lemma building_step p bufs n a :
  building p bufs (S n) -> buf_ok a -> a ∉ bufs ->
  building (set_all_buffers (<[length bufs := Some a]> (dp_all_buffers p))
    (set_free_list (<[length bufs := Some a]> (dp_free_list p))
      (set_top (dp_top p + 1) p))) (bufs ++ [a]) n.
Proof.
  intros (Hl & Hab & Hfl & Htop & Hc & Hc31 & Hnd & Hpos & Hptr) Ha Hna.
  unfold building; simpl. rewrite Hab, Hfl; simpl. rewrite insert_at_end.
  rewrite fmap_app, <- app_assoc, length_app; simpl. split_and!; try done; try lia.
  - apply NoDup_app. split_and!; [done|set_solver|apply NoDup_singleton].
  - apply Forall_app; split; [done|by constructor].
Qed.

(** The blocks of the buffers have the size of the pool's buffers. *)
Definition buffers_sized (size : Z) (bufs : list Z) (m : gmap Z block) : Prop :=
  forall b, b ∈ bufs -> exists blk, m !! b = Some blk /\ blk_size blk = size.

Lemma buffers_sized_add size bufs a m :
  buffers_sized size bufs m -> buffers_sized size (bufs ++ [a]) (<[a := Block size []]> m).
Proof.
  intros H b [Hb | ->%list_elem_of_singleton]%elem_of_app.
  - destruct (decide (b = a)) as [->|]; [rewrite lookup_insert_eq; eauto|].
    rewrite lookup_insert_ne by done. by apply H.
  - rewrite lookup_insert_eq. eauto.
Qed.

Lemma dma_pool_fill_done n p bufs t m m0 h' r :
  building p bufs n -> grown m0 m bufs -> 0 <= dp_buffer_size p ->
  buffers_sized (dp_buffer_size p) bufs m ->
  dma_pool_fill n (Z.of_nat (length bufs)) p (Heap t m) = Done r h' ->
  exists p' new, r = Some p' /\ pool_rep p' (bufs ++ new) (bufs ++ new) /\
    grown m0 (h_blocks h') (bufs ++ new) /\
    length new = n /\ dp_self p' = dp_self p /\
    dp_free_list_ptr p' = dp_free_list_ptr p /\
    dp_all_buffers_ptr p' = dp_all_buffers_ptr p /\
    dp_buffer_size p' = dp_buffer_size p /\
    buffers_sized (dp_buffer_size p) (bufs ++ new) (h_blocks h').
Proof.
  revert p bufs t m. induction n as [|n IH]; intros p bufs t m Hb Hg Hsz Hbs Hrun.
  { simpl in Hrun. unfold mret, prog_ret in Hrun. simplify_eq.
    exists (set_lock_ready p), []. rewrite app_nil_r.
    destruct Hb as (Hl & Hab & Hfl & Htop & Hc & Hc31 & Hnd & Hpos & Hptr).
    split_and!; try done. unfold pool_rep; simpl. simpl in *.
    rewrite app_nil_r in Hab, Hfl. rewrite Nat.add_0_r in Hc. split_and!; try done.
    - by rewrite Hfl, length_fmap.
    - exists []. by rewrite app_nil_r.
    - by apply Forall_forall. }
  cbn [dma_pool_fill] in Hrun. unfold mbind at 1, prog_bind in Hrun.
  assert (wp never (dma_alloc (dp_buffer_size p)) (fun a h =>
    (a = 0) \/ (exists t', buf_ok a /\ m !! a = None /\
      h = Heap t' (<[a := Block (dp_buffer_size p) []]> m))) (Heap t m)) as Hwp.
  { apply wp_dma_alloc; [done|by left|]. intros a _ Hf. right. exists (true :: t).
    split_and!; [by split; apply Hf|by eapply fresh_block_none|done]. }
  apply wp_done in Hwp as (a & h1 & E & Hcase). rewrite E in Hrun.
  destruct Hcase as [->|(t' & Ha & Hna & ->)].
  { cbn [Z.eqb] in Hrun. unfold mbind, prog_bind in Hrun.
    by rewrite (dma_pool_destroy_building _ _ _ _ Hb) in Hrun. }
  replace (a =? 0) with false in Hrun by (destruct Ha; lia).
  assert (a ∉ bufs) as Hab.
  { intros Hin. destruct Hg as (_ & _ & Hg). destruct (Hg a Hin) as (_ & _ & [? ?]). congruence. }
  pose proof Hb as (Hl & Hab1 & Hfl & Htop & Hc & Hc31 & _).
  unfold mbind at 1, prog_bind, int_incr in Hrun.
  replace (dp_top p + 1 <? 2 ^ 31) with true in Hrun by lia.
  unfold mret, prog_ret, mbind, prog_bind, arr_write in Hrun.
  rewrite Hab1, Hfl, !length_app, !length_fmap, !length_replicate in Hrun.
  replace ((0 <=? dp_top p + 1) && (dp_top p + 1 <? Z.of_nat (length bufs + S n)))
    with true in Hrun by bool_lia.
  replace ((0 <=? Z.of_nat (length bufs)) &&
    (Z.of_nat (length bufs) <? Z.of_nat (length bufs + S n))) with true in Hrun by bool_lia.
  unfold mret, prog_ret in Hrun.
  replace (Z.to_nat (dp_top p + 1)) with (length bufs) in Hrun by lia.
  rewrite Nat2Z.id in Hrun.
  pose proof (building_step p bufs n a Hb Ha Hab) as Hb'. rewrite Hab1, Hfl in Hb'.
  replace (Z.of_nat (length bufs) + 1) with (Z.of_nat (length (bufs ++ [a]))) in Hrun
    by (rewrite length_app; simpl; lia).
  apply IH in Hrun as (p' & new & -> & Hrep & Hgr & Hlen & Hp1 & Hp2 & Hp3 & Hp4 & Hbs').
  - exists p', (a :: new). rewrite <- app_assoc in Hrep, Hgr, Hbs'. simpl in *.
    split_and!; try done; lia.
  - done.
  - apply grown_insert; [done|apply Ha|done].
  - done.
  - by apply buffers_sized_add.
Qed.

(** ** Properties *)

Lemma dma_pool_create_done buffer_size count t m p h :
  0 <= buffer_size -> 0 < count < 2 ^ 31 ->
  dma_pool_create buffer_size count (Heap t m) = Done (Some p) h ->
  exists bufs, pool_rep p bufs bufs /\ Z.of_nat (length bufs) = count /\
    dp_buffer_size p = buffer_size /\
    grown m (h_blocks h) ([dp_self p; dp_free_list_ptr p; dp_all_buffers_ptr p] ++ bufs) /\
    buffers_sized buffer_size bufs (h_blocks h).
Proof.
  intros Hsz Hc Hrun. unfold dma_pool_create, mbind, prog_bind in Hrun.
  assert (0 <= u64 (sizeof T_ptr * count)) as Harr by (apply wrap_in_word; lia).
  destruct (malloc_cases (sizeof T_dma_pool) t m) as [E|(a1 & E & F1)];
    [auto with words|by rewrite E in Hrun|].
  rewrite E, (fresh_block_eqb _ _ _ _ F1) in Hrun; clear E.
  destruct (malloc_cases _ (true :: t) (<[a1 := Block (sizeof T_dma_pool) []]> m) Harr)
    as [E|(a2 & E & F2)]; rewrite E in Hrun; clear E;
    [simpl in Hrun; by destruct (free a1 _)|].
  rewrite (fresh_block_eqb _ _ _ _ F2) in Hrun.
  destruct (malloc_cases _ (true :: true :: t) (<[a2 := Block (u64 (sizeof T_ptr * count)) []]>
    (<[a1 := Block (sizeof T_dma_pool) []]> m)) Harr) as [E|(a3 & E & F3)]; rewrite E in Hrun; clear E.
  { simpl in Hrun. destruct (free a2 _); [|done|done]. by destruct (free a1 _). }
  rewrite (fresh_block_eqb _ _ _ _ F3) in Hrun.
  pose proof (grown_fresh _ _ _ _ (Block (sizeof T_dma_pool) []) F1) as G1.
  pose proof (grown_fresh _ _ _ _ (Block (u64 (sizeof T_ptr * count)) []) F2) as G2.
  pose proof (grown_fresh _ _ _ _ (Block (u64 (sizeof T_ptr * count)) []) F3) as G3.
  pose proof (grown_trans _ _ _ _ _ G1 G2) as G12.
  pose proof (grown_trans _ _ _ _ _ G12 G3) as G123. simpl in G123.
  eapply (dma_pool_fill_done (Z.to_nat count) _ []) in Hrun
    as (p' & bufs & Hp' & Hrep & Hg & Hlen & Hself & Hfl & Hab & Hbs & Hsized); cycle 1.
  { unfold building, fresh_array; simpl. split_and!; try done; try lia.
    - apply NoDup_nil_2.
    - destruct F3; lia. }
  { apply grown_refl. }
  { done. }
  { intros b Hb. by apply elem_of_nil in Hb. }
  simplify_eq. simpl in *. exists bufs. rewrite Hself, Hfl, Hab.
  split_and!; try done; try lia.
  apply (grown_trans _ _ _ [a1; a2; a3] bufs G123 Hg).
Qed.

(** A creation that reports failure left nothing behind: the other way to fail,
    half way through the buffers, is undefined. *)
Lemma dma_pool_create_none buffer_size count t m h :
  0 <= buffer_size -> 0 < count < 2 ^ 31 ->
  dma_pool_create buffer_size count (Heap t m) = Done None h -> h_blocks h = m.
Proof.
  intros Hsz Hc Hrun. unfold dma_pool_create, mbind, prog_bind in Hrun.
  assert (0 <= u64 (sizeof T_ptr * count)) as Harr by (apply wrap_in_word; lia).
  destruct (malloc_cases (sizeof T_dma_pool) t m) as [E|(a1 & E & F1)];
    [auto with words|by rewrite E in Hrun; injection Hrun as <-|].
  rewrite E, (fresh_block_eqb _ _ _ _ F1) in Hrun; clear E.
  pose proof (fresh_block_none _ _ _ _ F1) as N1.
  destruct (malloc_cases _ (true :: t) (<[a1 := Block (sizeof T_dma_pool) []]> m) Harr)
    as [E|(a2 & E & F2)]; rewrite E in Hrun; clear E.
  { simpl in Hrun. unfold free in Hrun. simpl in Hrun.
    rewrite (fresh_block_eqb _ _ _ _ F1), lookup_insert_eq in Hrun. injection Hrun as <-. simpl.
    by apply delete_insert_id. }
  rewrite (fresh_block_eqb _ _ _ _ F2) in Hrun. pose proof (fresh_block_none _ _ _ _ F2) as N2.
  destruct (malloc_cases _ (true :: true :: t) (<[a2 := Block (u64 (sizeof T_ptr * count)) []]>
    (<[a1 := Block (sizeof T_dma_pool) []]> m)) Harr) as [E|(a3 & E & F3)]; rewrite E in Hrun; clear E.
  { simpl in Hrun. unfold free in Hrun. simpl in Hrun.
    rewrite (fresh_block_eqb _ _ _ _ F2), lookup_insert_eq in Hrun. simpl in Hrun.
    rewrite (fresh_block_eqb _ _ _ _ F1), delete_insert_id, lookup_insert_eq in Hrun by done.
    injection Hrun as <-. simpl. by apply delete_insert_id. }
  rewrite (fresh_block_eqb _ _ _ _ F3) in Hrun.
  eapply (dma_pool_fill_done (Z.to_nat count) _ []) in Hrun as (p' & bufs & Hp' & _); [done|..].
  { unfold building, fresh_array; simpl. split_and!; try done; try lia.
    - apply NoDup_nil_2.
    - destruct F3; lia. }
  { apply grown_refl. }
  { done. }
  { intros b Hb. by apply elem_of_nil in Hb. }
Qed.

Lemma dma_pool_create_no_exit buffer_size count : no_exit (dma_pool_create buffer_size count).
Proof.
  assert (Hm : forall n, no_exit (malloc n)).
  { intros n s s'. unfold malloc, alloc_aligned. by destruct (pick _ _ _ _). }
  assert (Hf : forall a, no_exit (free a)).
  { intros a s s'. unfold free. case_match; [done|]. by case_match. }
  assert (Ha : forall n, no_exit (dma_alloc n)).
  { intros n. unfold dma_alloc, posix_memalign. apply no_exit_if; [done|].
    apply no_exit_bind; [|intros [? ?]; by case_match]. apply no_exit_bind; [|done].
    intros s s'. unfold alloc_aligned. by destruct (pick _ _ _ _). }
  assert (Hr : forall (l : list (option Z)) i, no_exit (St := heap) (arr_read l i)).
  { intros l i. unfold arr_read. by case_match. }
  assert (Hfor : forall (l : list Z) (body : Z -> prog heap unit),
    (forall i, no_exit (body i)) -> no_exit (for_each l body)).
  { intros l body Hb. induction l; simpl; auto with no_exit. }
  assert (Hd : forall p, no_exit (dma_pool_destroy (Some p))).
  { intros p. simpl. repeat (apply no_exit_bind; [|intros]);
      repeat (apply no_exit_if || apply no_exit_bind || intros || apply Hfor || apply Hr); unfold dma_free; auto with no_exit. }
  assert (Hfill : forall n i p, no_exit (dma_pool_fill n i p)).
  { intros n. induction n as [|n IH]; intros i p; simpl; [done|].
    apply no_exit_bind; [done|]. intros b. apply no_exit_if; [apply no_exit_bind; [apply (Hd p)|done]|].
    apply no_exit_bind; [unfold int_incr; auto with no_exit|]. intros top.
    apply no_exit_bind; [unfold arr_write; auto with no_exit|]. intros fl.
    apply no_exit_bind; [unfold arr_write; auto with no_exit|]. intros ab. apply IH. }
  unfold dma_pool_create. auto 20 with no_exit.
Qed.

(** ** Properties *)

(** A pool that is created holds [count] distinct 4096-aligned buffers, all
    free, occupies exactly the heap blocks it allocated, and destroying it gives
    back all of them and nothing else. *)
Theorem dma_pool_create_destroy buffer_size count t m p h :
  0 <= buffer_size -> 0 < count < 2 ^ 31 ->
  dma_pool_create buffer_size count (Heap t m) = Done (Some p) h ->
  exists bufs, pool_rep p bufs bufs /\ Z.of_nat (length bufs) = count /\
    dp_buffer_size p = buffer_size /\
    wp never (dma_pool_destroy (Some p)) (fun _ h' => h_blocks h' = m) h.
Proof.
  intros Hsz Hc Hrun.
  destruct (dma_pool_create_done _ _ _ _ _ _ Hsz Hc Hrun)
    as (bufs & Hrep & Hlen & Hbs & Hg & _).
  exists bufs. split_and!; [done..|]. destruct h as [t' m']; simpl in *.
  eapply wp_mono; [apply (wp_dma_pool_destroy _ _ bufs bufs); [done|]|].
  - destruct Hg as (Hnd & _ & Hin). split; [by rewrite pool_blocks_perm|].
    intros a. rewrite pool_blocks_perm. naive_solver.
  - intros _ h' ->. simpl. apply grown_delete_all. by rewrite pool_blocks_perm.
Qed.

(** When a buffer of the pool cannot be allocated, [dma_pool_create] calls
    [dma_pool_destroy] on a pool whose [all_buffers] cells were not all written,
    and the result is undefined behaviour instead of the documented NULL. *)
Theorem dma_pool_create_partial_failure n p bufs h h' :
  building p bufs (S n) ->
  dma_alloc (dp_buffer_size p) h = Done 0 h' ->
  dma_pool_fill (S n) (Z.of_nat (length bufs)) p h = Undef.
Proof.
  intros Hb Ha. cbn [dma_pool_fill]. unfold mbind at 1, prog_bind. rewrite Ha.
  cbn [Z.eqb]. unfold mbind, prog_bind. by rewrite (dma_pool_destroy_building _ _ _ _ Hb).
Qed.
End lifecycle.

(** ** Clients of a pool

    Threads take and return buffers under the pool's mutex, so a run of the
    system is a sequence of whole operations.  The state is the pool and the
    buffers the clients hold; a client returns only what it holds. *)
Inductive client_step : dma_pool_t * list Z -> dma_pool_t * list Z -> Prop :=
| client_acquire p held b p' :
    dma_pool_acquire p = Done b p' -> b <> 0 ->
    client_step (p, held) (p', b :: held)
| client_exhausted p held p' :
    dma_pool_acquire p = Done 0 p' ->
    client_step (p, held) (p', held)
| client_release p held1 b held2 p' :
    dma_pool_release b p = Done tt p' ->
    client_step (p, held1 ++ b :: held2) (p', held1 ++ held2).

Definition fresh_pool (bufs : list Z) (s : dma_pool_t * list Z) : Prop :=
  pool_rep (fst s) bufs bufs /\ snd s = [].

Definition clients_inv (bufs : list Z) (s : dma_pool_t * list Z) : Prop :=
  exists stack, pool_state (fst s) bufs stack (snd s).

Lemma acquire_done p bufs stack :
  pool_rep p bufs stack ->
  exists b p', dma_pool_acquire p = Done b p' /\
    ((stack = [] /\ b = 0 /\ p' = p) \/
     exists stack', stack = stack' ++ [b] /\ 0 < b /\ pool_rep p' bufs stack').
Proof.
  intros Hrep. apply (wp_done (A := Z)). apply (wp_dma_pool_acquire _ _ bufs stack); [done| |].
  - naive_solver.
  - intros stack' b p' -> Hb Hrep' _. right. eauto.
Qed.

Lemma release_done p bufs stack b :
  pool_rep p bufs stack -> b ∈ bufs -> (length stack < length bufs)%nat ->
  exists p', dma_pool_release b p = Done tt p' /\ pool_rep p' bufs (stack ++ [b]).
Proof.
  intros Hrep Hb Hlen.
  assert (wp never (dma_pool_release b) (fun _ p' => pool_rep p' bufs (stack ++ [b])) p) as H.
  { by apply (wp_dma_pool_release _ _ bufs stack). }
  apply wp_done in H as ([] & p' & ? & ?). eauto.
Qed.

Lemma pool_state_room p bufs stack held1 b held2 :
  pool_state p bufs stack (held1 ++ b :: held2) ->
  b ∈ bufs /\ (length stack < length bufs)%nat.
Proof.
  intros [_ Hp]. split.
  - rewrite <- Hp. set_solver.
  - rewrite <- Hp, !length_app. simpl. lia.
Qed.

Lemma clients_inv_step bufs s s' : clients_inv bufs s -> client_step s s' -> clients_inv bufs s'.
Proof.
  intros [stack [Hrep Hperm]] Hstep. destruct Hstep as [p held b p' Ha Hb|p held p' Ha|p held1 b held2 p' Hr];
    simpl in *.
  - destruct (acquire_done p bufs stack Hrep) as (b' & p'' & Ha' & Hcase).
    rewrite Ha in Ha'. simplify_eq. destruct Hcase as [(_ & -> & _)|(stack' & -> & _ & Hrep')]; [done|].
    exists stack'. split; [done|]. simpl. rewrite <- Hperm. solve_Permutation.
  - destruct (acquire_done p bufs stack Hrep) as (b' & p'' & Ha' & Hcase).
    rewrite Ha in Ha'. simplify_eq. destruct Hcase as [(_ & _ & ->)|(stack' & _ & H & _)]; [|lia].
    by exists stack.
  - destruct (pool_state_room p bufs stack held1 b held2) as [Hb Hlen]; [done|].
    destruct (release_done p bufs stack b Hrep Hb Hlen) as (p'' & Hr' & Hrep').
    rewrite Hr in Hr'. simplify_eq. exists (stack ++ [b]). split; [done|]. simpl.
    rewrite <- Hperm. solve_Permutation.
Qed.

Lemma clients_reachable bufs s :
  reachable client_step (fresh_pool bufs) s -> clients_inv bufs s.
Proof.
  apply reachable_invariant.
  - intros [p held] [Hrep Hheld]; simpl in *; subst. exists bufs. split; [done|].
    by rewrite app_nil_r.
  - apply clients_inv_step.
Qed.

(** C38: however clients interleave, no buffer is ever handed to two holders, every
    held buffer is one of the pool, [dma_pool_acquire] never misbehaves and returns
    NULL exactly when all buffers are held, otherwise a buffer nobody holds. *)
Theorem dma_pool_exclusive bufs p held :
  reachable client_step (fresh_pool bufs) (p, held) ->
  NoDup held /\ held ⊆ bufs /\
  exists b p', dma_pool_acquire p = Done b p' /\
    (b = 0 <-> length held = length bufs) /\ (b <> 0 -> b ∈ bufs /\ b ∉ held).
Proof.
  intros Hreach. destruct (clients_reachable bufs _ Hreach) as [stack [Hrep Hperm]]; simpl in *.
  assert (NoDup (stack ++ held)) as Hnd by (rewrite Hperm; apply Hrep).
  pose proof Hnd as (_ & Hdis & Hh)%NoDup_app.
  split_and!; [done|intros x Hx; rewrite <- Hperm; set_solver|].
  assert (length bufs = (length stack + length held)%nat) as Hlen
    by (by rewrite <- Hperm, length_app).
  destruct (acquire_done p bufs stack Hrep) as (b & p' & Ha & Hcase).
  exists b, p'. split; [done|].
  destruct Hcase as [(-> & -> & _)|(stack' & -> & Hb & _)]; simpl in *.
  - split; [lia|done].
  - rewrite length_app in Hlen; simpl in Hlen. split; [lia|]. intros _. split.
    + rewrite <- Hperm. set_solver.
    + apply Hdis. set_solver.
Qed.

(** Whatever a client holds it can return: [dma_pool_release] accepts it, it is
    free again, and the next [dma_pool_acquire] hands out exactly that buffer. *)
Theorem dma_pool_release_reuse bufs p held1 b held2 :
  reachable client_step (fresh_pool bufs) (p, held1 ++ b :: held2) ->
  exists p' p'', dma_pool_release b p = Done tt p' /\ dma_pool_acquire p' = Done b p'' /\
    clients_inv bufs (p'', b :: held1 ++ held2).
Proof.
  intros Hreach. destruct (clients_reachable bufs _ Hreach) as [stack Hst].
  destruct (pool_state_room p bufs stack held1 b held2 Hst) as [Hb Hlen].
  destruct Hst as [Hrep Hperm]; simpl in *.
  destruct (release_done p bufs stack b Hrep Hb Hlen) as (p' & Hr & Hrep').
  destruct (acquire_done p' bufs _ Hrep') as (b' & p'' & Ha & Hcase).
  destruct Hcase as [(H & _)|(stack' & H & Hpos & Hrep'')]; [by destruct stack|].
  apply app_inj_tail in H as [-> ->]. exists p', p''. split_and!; [done|done|].
  exists stack'. split; [done|]. simpl. rewrite <- Hperm. solve_Permutation.
Qed.

(** [dma_pool_owns] answers 1 exactly for the buffers created with the pool,
    held or free, and leaves the pool as it is. *)
Theorem dma_pool_owns_spec p bufs stack b :
  pool_rep p bufs stack ->
  dma_pool_owns b p = Done (if decide (b ∈ bufs) then 1 else 0) p.
Proof.
  intros Hrep.
  assert (wp never (dma_pool_owns b)
    (fun r q => r = (if decide (b ∈ bufs) then 1 else 0) /\ q = p) p) as H.
  { by apply (wp_dma_pool_owns _ _ bufs stack). }
  apply wp_done in H as (r & q & E & -> & ->). done.
Qed.

(** ** Witnesses *)

Definition demo_pool : dma_pool_t :=
  DmaPool 16 32 [Some 4096; Some 8192] 48 [Some 4096; Some 8192] 1 512 2 true.

Lemma demo_pool_rep : pool_rep demo_pool [4096; 8192] [4096; 8192].
Proof.
  unfold pool_rep; simpl. split_and!; try done.
  - exists []. done.
  - repeat constructor; set_solver.
  - repeat constructor; unfold buf_ok; lia.
  - repeat constructor; set_solver.
Qed.

Lemma demo_pool_reachable :
  reachable client_step (fresh_pool [4096; 8192]) (set_top 0 demo_pool, [8192]).
Proof.
  eapply reach_step; [|eapply (client_acquire demo_pool []); [vm_compute; reflexivity|done]].
  apply reach_init. split; [apply demo_pool_rep|done].
Qed.

Lemma dma_pool_exclusive_witness : NoDup [8192] /\ [8192] ⊆ [4096; 8192].
Proof.
  destruct (dma_pool_exclusive [4096; 8192] (set_top 0 demo_pool) [8192]
    demo_pool_reachable) as (H1 & H2 & _). split; [exact H1|exact H2].
Defined.

Lemma dma_pool_release_reuse_witness :
  exists p' p'', dma_pool_release 8192 (set_top 0 demo_pool) = Done tt p' /\
    dma_pool_acquire p' = Done 8192 p'' /\ clients_inv [4096; 8192] (p'', [8192]).
Proof.
  exact (dma_pool_release_reuse [4096; 8192] (set_top 0 demo_pool) [] 8192 []
    demo_pool_reachable).
Defined.

Lemma dma_pool_owns_spec_witness : dma_pool_owns 4096 demo_pool = Done 1 demo_pool.
Proof. exact (dma_pool_owns_spec demo_pool _ _ 4096 demo_pool_rep). Defined.

(** Creating a pool of two 512-byte buffers in an empty heap. *)
Lemma dma_pool_create_destroy_witness :
  exists p h, @dma_pool_create lp64 small_allocator 512 2 (Heap [] ∅) = Done (Some p) h /\
    exists bufs, pool_rep p bufs bufs /\ Z.of_nat (length bufs) = 2.
Proof.
  eexists _, _. split; [vm_compute; reflexivity|].
  edestruct (@dma_pool_create_destroy lp64 small_allocator 512 2 [] ∅) as (bufs & H1 & H2 & _);
    [lia|lia|vm_compute; reflexivity|].
  exists bufs. split; [exact H1|exact H2].
Defined.

(** A 2 MB buffer does not fit in 64 KiB: the creation goes wrong. *)
Lemma dma_pool_create_partial_failure_witness :
  @dma_pool_fill small_allocator 1 0
    (DmaPool 16 32 [None] 48 [None] (-1) (2 * 1024 * 1024) 1 false) (Heap [] ∅) = Undef.
Proof.
  eapply (@dma_pool_create_partial_failure small_allocator 0 _ [] _).
  - unfold building; simpl. split_and!; try done; [apply NoDup_nil_2].
  - vm_compute; reflexivity.
Defined.
