(* ===== verification/UtHash.v ===== *)
(** * uthash (lib/uthash.h) as the engine compiles it

    The macros with their default options: Jenkins' hash, [malloc]/[free], an
    out-of-memory that ends the process, no Bloom filter, no debug checks.  The
    two doubly linked lists of an element (application order and bucket chain)
    are lists of elements: [prev]/[next] and [hh_prev]/[hh_next] are the
    neighbours in them, and elements are compared by address, as the macros do. *)
From S2P Require Import Prelude Libc.

Definition HASH_INITIAL_NUM_BUCKETS : Z := 32.
Definition HASH_INITIAL_NUM_BUCKETS_LOG2 : Z := 5.
Definition HASH_BKT_CAPACITY_THRESH : Z := 10.

(** ** Jenkins' hash on 32-bit words *)

Local Open Scope word_scope.

Definition HASH_JEN_MIX (abc : Z * Z * Z) : Z * Z * Z :=
  let '(a, b, c) := abc in
  let a := a -32 b in let a := a -32 c in let a := Z.lxor a (Z.shiftr c 13) in
  let b := b -32 c in let b := b -32 a in let b := Z.lxor b (u32 (Z.shiftl a 8)) in
  let c := c -32 a in let c := c -32 b in let c := Z.lxor c (Z.shiftr b 13) in
  let a := a -32 b in let a := a -32 c in let a := Z.lxor a (Z.shiftr c 12) in
  let b := b -32 c in let b := b -32 a in let b := Z.lxor b (u32 (Z.shiftl a 16)) in
  let c := c -32 a in let c := c -32 b in let c := Z.lxor c (Z.shiftr b 5) in
  let a := a -32 b in let a := a -32 c in let a := Z.lxor a (Z.shiftr c 3) in
  let b := b -32 c in let b := b -32 a in let b := Z.lxor b (u32 (Z.shiftl a 10)) in
  let c := c -32 a in let c := c -32 b in let c := Z.lxor c (Z.shiftr b 15) in
  (a, b, c).

(** Four bytes as a little-endian word. *)
Definition le32 (b0 b1 b2 b3 : Z) : Z :=
  u32 (b0 + u32 (Z.shiftl b1 8) + u32 (Z.shiftl b2 16) + u32 (Z.shiftl b3 24)).

(** The [switch] over the last bytes, with its fall-through. *)
Definition jen_tail (key : bytes) (k : Z) (abc : Z * Z * Z) : Z * Z * Z :=
  let at_ i sh := u32 (Z.shiftl (nth i key 0) sh) in
  let '(i, j, h) := abc in
  let h := if 11 <=? k then h +32 at_ 10%nat 24 else h in
  let h := if 10 <=? k then h +32 at_ 9%nat 16 else h in
  let h := if 9 <=? k then h +32 at_ 8%nat 8 else h in
  let j := if 8 <=? k then j +32 at_ 7%nat 24 else j in
  let j := if 7 <=? k then j +32 at_ 6%nat 16 else j in
  let j := if 6 <=? k then j +32 at_ 5%nat 8 else j in
  let j := if 5 <=? k then j +32 at_ 4%nat 0 else j in
  let i := if 4 <=? k then i +32 at_ 3%nat 24 else i in
  let i := if 3 <=? k then i +32 at_ 2%nat 16 else i in
  let i := if 2 <=? k then i +32 at_ 1%nat 8 else i in
  let i := if 1 <=? k then i +32 at_ 0%nat 0 else i in
  (i, j, h).

(** [while (_hj_k >= 12U)], then the tail; [keylen] is the length of the whole key. *)
Fixpoint jen_loop (keylen : Z) (key : bytes) (abc : Z * Z * Z) : Z * Z * Z :=
  match key with
  | k0 :: k1 :: k2 :: k3 :: k4 :: k5 :: k6 :: k7 :: k8 :: k9 :: k10 :: k11 :: rest =>
    let '(i, j, h) := abc in
    jen_loop keylen rest
      (HASH_JEN_MIX (i +32 le32 k0 k1 k2 k3, j +32 le32 k4 k5 k6 k7,
                     h +32 le32 k8 k9 k10 k11))
  | _ =>
    let '(i, j, h) := abc in
    jen_tail key (Z.of_nat (length key)) (i, j, h +32 keylen)
  end.

Definition HASH_JEN (key : bytes) : Z :=
  let keylen := u32 (Z.of_nat (length key)) in
  let abc := jen_loop keylen key (0x9e3779b9, 0x9e3779b9, 0xfeedbeef) in
  (HASH_JEN_MIX abc).2.

Definition HASH_TO_BKT (hashv num_bkts : Z) : Z := Z.land hashv (num_bkts -32 1).

(** ** Data *)

(** [struct hash_entry] with its [UT_hash_handle]: address, key, key length, hash. *)
Record hash_entry := Entry {
  he_addr : Z; he_key : bytes; he_keylen : Z; he_hashv : Z
}.

Record UT_hash_bucket := Bucket {
  bk_chain : list hash_entry;  (** from [hh_head] along [hh_next] *)
  bk_count : Z;
  bk_expand_mult : Z
}.

Definition empty_bucket : UT_hash_bucket := Bucket [] 0 0.

Record UT_hash_table := Table {
  tb_self : Z;
  tb_buckets_ptr : Z;
  tb_buckets : list UT_hash_bucket;
  tb_num_buckets : Z;
  tb_log2_num_buckets : Z;
  tb_num_items : Z;
  tb_ideal_chain_maxlen : Z;
  tb_nonideal_items : Z;
  tb_ineff_expands : Z;
  tb_noexpand : Z
}.

Definition set_buckets (bs : list UT_hash_bucket) (t : UT_hash_table) : UT_hash_table :=
  Table (tb_self t) (tb_buckets_ptr t) bs (tb_num_buckets t) (tb_log2_num_buckets t)
    (tb_num_items t) (tb_ideal_chain_maxlen t) (tb_nonideal_items t)
    (tb_ineff_expands t) (tb_noexpand t).
Definition set_num_items (n : Z) (t : UT_hash_table) : UT_hash_table :=
  Table (tb_self t) (tb_buckets_ptr t) (tb_buckets t) (tb_num_buckets t)
    (tb_log2_num_buckets t) n (tb_ideal_chain_maxlen t) (tb_nonideal_items t)
    (tb_ineff_expands t) (tb_noexpand t).

(** The head pointer of a hash: NULL, or the table and the elements in
    application order. *)
Abbreviation uthash := (option (UT_hash_table * list hash_entry)).

Definition same_addr (a : Z) (e : hash_entry) : bool := he_addr e =? a.

(** Unlink an element from a list by its address. *)
Definition unlink (a : Z) (l : list hash_entry) : list hash_entry :=
  List.filter (fun e => negb (same_addr a e)) l.

(** ** Lookup *)

(** [HASH_KEYCMP] is [memcmp] over [keylen_in] bytes. *)
Definition matches (key : bytes) (keylen hashval : Z) (e : hash_entry) : bool :=
  (he_hashv e =? hashval) && (he_keylen e =? keylen) && bool_decide (he_key e = key).

Definition HASH_FIND_IN_BKT (b : UT_hash_bucket) (key : bytes) (keylen hashval : Z)
    : option hash_entry := List.find (matches key keylen hashval) (bk_chain b).

Definition HASH_FIND_BYHASHVALUE (h : uthash) (key : bytes) (keylen hashval : Z)
    : option hash_entry :=
  match h with
  | None => None
  | Some (tbl, _) =>
    let bkt := HASH_TO_BKT hashval (tb_num_buckets tbl) in
    match tb_buckets tbl !! Z.to_nat bkt with
    | Some b => HASH_FIND_IN_BKT b key keylen hashval
    | None => None
    end
  end.

Definition HASH_FIND (h : uthash) (key : bytes) (keylen : Z) : option hash_entry :=
  match h with
  | None => None
  | Some _ => HASH_FIND_BYHASHVALUE h key keylen (HASH_JEN key)
  end.

(** ** Insertion and deletion *)

Section uthash.
Context {AB : Abi} {AL : Allocator}.

(** [uthash_malloc] with the fatal out-of-memory policy. *)
Definition uthash_malloc (sz : Z) : prog heap Z :=
  p ← malloc sz;
  if p =? 0 then exit_process else mret p.

Definition HASH_MAKE_TABLE : prog heap UT_hash_table :=
  tbl ← uthash_malloc (sizeof T_UT_hash_table);
  bs ← uthash_malloc (HASH_INITIAL_NUM_BUCKETS * sizeof T_UT_hash_bucket);
  mret (Table tbl bs (replicate (Z.to_nat HASH_INITIAL_NUM_BUCKETS) empty_bucket)
          HASH_INITIAL_NUM_BUCKETS HASH_INITIAL_NUM_BUCKETS_LOG2 0 0 0 0 0).

(** One element moved to the doubled array; the state is the new array and the
    count of elements beyond the ideal chain length. *)
Definition expand_item (ideal nb2 : Z) (acc : list UT_hash_bucket * Z) (e : hash_entry)
    : list UT_hash_bucket * Z :=
  let '(bs, nonideal) := acc in
  let i := Z.to_nat (HASH_TO_BKT (he_hashv e) nb2) in
  match bs !! i with
  | None => acc
  | Some b =>
    let count := bk_count b +32 1 in
    let '(nonideal, mult) :=
      if ideal <? count then
        (nonideal +32 1,
         if bk_expand_mult b *32 ideal <? count
         then bk_expand_mult b +32 1 else bk_expand_mult b)
      else (nonideal, bk_expand_mult b) in
    (<[i := Bucket (e :: bk_chain b) count mult]> bs, nonideal)
  end.

(** Whether every element to move lands inside the doubled array. *)
Definition in_range (nb2 : Z) (bs : list UT_hash_bucket) : bool :=
  forallb (fun b => forallb (fun e =>
    HASH_TO_BKT (he_hashv e) nb2 <? nb2) (bk_chain b)) bs.

Definition HASH_EXPAND_BUCKETS (tbl : UT_hash_table) : prog heap UT_hash_table :=
  bs2 ← uthash_malloc (sizeof T_UT_hash_bucket * tb_num_buckets tbl * 2);
  let nb2 := tb_num_buckets tbl *32 2 in
  let ideal := Z.shiftr (tb_num_items tbl) (tb_log2_num_buckets tbl +32 1)
               + (if Z.land (tb_num_items tbl) (nb2 -32 1) =? 0 then 0 else 1) in
  if in_range nb2 (tb_buckets tbl) then
    let '(bs, nonideal) :=
      foldl (fun acc b => foldl (expand_item ideal nb2) acc (bk_chain b))
        (replicate (Z.to_nat nb2) empty_bucket, 0) (tb_buckets tbl) in
    _ ← free (tb_buckets_ptr tbl);
    let ineff := if Z.shiftr (tb_num_items tbl) 1 <? nonideal
                 then tb_ineff_expands tbl +32 1 else 0 in
    mret (Table (tb_self tbl) bs2 bs nb2 (tb_log2_num_buckets tbl +32 1)
            (tb_num_items tbl) ideal nonideal ineff
            (if 1 <? ineff then 1 else tb_noexpand tbl))
  else undefined.

Definition HASH_ADD_TO_BKT (tbl : UT_hash_table) (bkt : Z) (e : hash_entry)
    : prog heap UT_hash_table :=
  match tb_buckets tbl !! Z.to_nat bkt with
  | None => undefined
  | Some b =>
    let count := bk_count b +32 1 in
    let b' := Bucket (e :: bk_chain b) count (bk_expand_mult b) in
    let tbl' := set_buckets (<[Z.to_nat bkt := b']> (tb_buckets tbl)) tbl in
    if ((bk_expand_mult b +32 1) *32 HASH_BKT_CAPACITY_THRESH <=? count)
       && (tb_noexpand tbl =? 0)
    then HASH_EXPAND_BUCKETS tbl' else mret tbl'
  end.

Definition HASH_ADD_TO_TABLE (tbl : UT_hash_table) (e : hash_entry)
    : prog heap UT_hash_table :=
  let tbl := set_num_items (tb_num_items tbl +32 1) tbl in
  HASH_ADD_TO_BKT tbl (HASH_TO_BKT (he_hashv e) (tb_num_buckets tbl)) e.

(** [HASH_ADD_KEYPTR]: a new element at the end of the application order. *)
Definition HASH_ADD_KEYPTR (h : uthash) (addr : Z) (key : bytes) (keylen : Z)
    : prog heap uthash :=
  let e := Entry addr key (u32 keylen) (HASH_JEN key) in
  match h with
  | None =>
    tbl ← HASH_MAKE_TABLE;
    tbl' ← HASH_ADD_TO_TABLE tbl e;
    mret (Some (tbl', [e]))
  | Some (tbl, app) =>
    tbl' ← HASH_ADD_TO_TABLE tbl e;
    mret (Some (tbl', app ++ [e]))
  end.

Definition HASH_DEL_IN_BKT (b : UT_hash_bucket) (addr : Z) : UT_hash_bucket :=
  Bucket (unlink addr (bk_chain b)) (bk_count b -32 1) (bk_expand_mult b).

(** [HASH_DELETE_HH]: the last element takes the table with it. *)
Definition HASH_DELETE (h : uthash) (del : hash_entry) : prog heap uthash :=
  match h with
  | None => undefined
  | Some (tbl, app) =>
    match app with
    | [_] =>
      _ ← free (tb_buckets_ptr tbl);
      _ ← free (tb_self tbl);
      mret None
    | _ =>
      let bkt := Z.to_nat (HASH_TO_BKT (he_hashv del) (tb_num_buckets tbl)) in
      match tb_buckets tbl !! bkt with
      | None => undefined
      | Some b =>
        mret (Some
          (set_num_items (tb_num_items tbl -32 1)
             (set_buckets (<[bkt := HASH_DEL_IN_BKT b (he_addr del)]> (tb_buckets tbl)) tbl),
           unlink (he_addr del) app))
      end
    end
  end.
End uthash.

(** ** Representation invariant *)

(** The array [bs] of [nb] buckets holds exactly the elements [es], each in the
    bucket its hash selects, and the counters agree. *)
Definition bucket_ok (nb i : Z) (b : UT_hash_bucket) : Prop :=
  Forall (fun e => HASH_TO_BKT (he_hashv e) nb = i) (bk_chain b) /\
  bk_count b = u32 (Z.of_nat (length (bk_chain b))).

Definition buckets_rep (nb : Z) (bs : list UT_hash_bucket) (es : list hash_entry) : Prop :=
  Z.of_nat (length bs) = nb /\
  concat (bk_chain <$> bs) ≡ₚ es /\
  forall i b, bs !! i = Some b -> bucket_ok nb (Z.of_nat i) b.

(** An element's cached hash and length are those of its key. *)
Definition entry_ok (e : hash_entry) : Prop :=
  he_hashv e = HASH_JEN (he_key e) /\
  he_keylen e = u32 (Z.of_nat (length (he_key e))).

Definition table_rep (tbl : UT_hash_table) (app : list hash_entry) : Prop :=
  5 <= tb_log2_num_buckets tbl <= 30 /\
  tb_num_buckets tbl = 2 ^ tb_log2_num_buckets tbl /\
  buckets_rep (tb_num_buckets tbl) (tb_buckets tbl) app /\
  tb_num_items tbl = u32 (Z.of_nat (length app)).

Definition uthash_rep (h : uthash) (es : list hash_entry) : Prop :=
  Forall entry_ok es /\ NoDup (he_key <$> es) /\ NoDup (he_addr <$> es) /\
  match h with
  | None => es = []
  | Some (tbl, app) => es = app /\ app <> [] /\ table_rep tbl app
  end.

(** The heap blocks a hash owns, its elements included. *)
Definition table_blocks (h : uthash) : list Z :=
  match h with
  | None => []
  | Some (tbl, _) => [tb_self tbl; tb_buckets_ptr tbl]
  end.

(** *** Bucket indices *)

Lemma HASH_TO_BKT_mod h l : 0 <= l < 32 -> HASH_TO_BKT h (2 ^ l) = h mod 2 ^ l.
Proof.
  intros Hl. unfold HASH_TO_BKT.
  assert (0 < 2 ^ l <= 2 ^ 31) by (split; [lia|apply Z.pow_le_mono_r; lia]).
  rewrite wrap_small by (unfold in_word; lia).
  rewrite <- Z.land_ones by lia. by rewrite Z.ones_equiv, <- Z.sub_1_r.
Qed.

Lemma HASH_TO_BKT_range h l : 0 <= l < 32 -> 0 <= HASH_TO_BKT h (2 ^ l) < 2 ^ l.
Proof. intros. rewrite HASH_TO_BKT_mod by done. apply Z.mod_pos_bound. lia. Qed.

Lemma buckets_rep_lookup l bs es h :
  0 <= l < 32 -> buckets_rep (2 ^ l) bs es ->
  exists b, bs !! Z.to_nat (HASH_TO_BKT h (2 ^ l)) = Some b /\
    bucket_ok (2 ^ l) (HASH_TO_BKT h (2 ^ l)) b.
Proof.
  intros Hl (Hlen & _ & Hok). pose proof (HASH_TO_BKT_range h l Hl).
  destruct (lookup_lt_is_Some_2 bs (Z.to_nat (HASH_TO_BKT h (2 ^ l)))) as [b Hb]; [lia|].
  exists b. split; [done|]. specialize (Hok _ _ Hb). by rewrite Z2Nat.id in Hok by lia.
Qed.

(** Replacing one bucket changes the contents by that bucket's chain. *)
Lemma concat_insert_perm (bs : list UT_hash_bucket) i b b' :
  bs !! i = Some b ->
  bk_chain b ++ concat (bk_chain <$> <[i := b']> bs) ≡ₚ
  bk_chain b' ++ concat (bk_chain <$> bs).
Proof.
  intros Hi. pose proof (lookup_lt_Some _ _ _ Hi).
  rewrite <- (take_drop_middle bs i b Hi) at 2.
  rewrite insert_take_drop by done. rewrite !fmap_app, !fmap_cons, !concat_app.
  simpl. solve_Permutation.
Qed.

(** *** Buckets: adding and removing one element *)

Lemma length_concat_chain nb bs es :
  buckets_rep nb bs es -> length (concat (bk_chain <$> bs)) = length es.
Proof. intros (_ & Hp & _). by rewrite Hp. Qed.

Lemma u32_succ x : u32 (u32 x + 1) = u32 (x + 1).
Proof. unfold wrap. by rewrite Zplus_mod_idemp_l. Qed.

Lemma u32_pred x : u32 (u32 x - 1) = u32 (x - 1).
Proof. unfold wrap. by rewrite Zminus_mod_idemp_l. Qed.

Lemma buckets_rep_add nb bs es e i b mult :
  buckets_rep nb bs es -> i = Z.to_nat (HASH_TO_BKT (he_hashv e) nb) ->
  0 <= HASH_TO_BKT (he_hashv e) nb -> bs !! i = Some b ->
  buckets_rep nb (<[i := Bucket (e :: bk_chain b) (bk_count b +32 1) mult]> bs) (e :: es).
Proof.
  intros (Hlen & Hp & Hok) -> Hpos Hb. split_and!.
  - by rewrite length_insert.
  - apply (Permutation_app_inv_l (bk_chain b)).
    rewrite (concat_insert_perm _ _ _ _ Hb), Hp. simpl. by rewrite Permutation_middle.
  - intros j b' Hj. rewrite list_lookup_insert_Some in Hj.
    destruct Hj as [(<- & <- & _)|[_ Hj]]; [|by apply Hok].
    destruct (Hok _ _ Hb) as [Hall Hc]. rewrite Z2Nat.id in Hall |- * by done.
    split; simpl; [by constructor|]. rewrite Hc, u32_succ. f_equal. lia.
Qed.

Lemma unlink_not_in a l : a ∉ (he_addr <$> l) -> unlink a l = l.
Proof.
  intros Hn. apply forallb_filter_id, forallb_forall. intros y Hy.
  apply negb_true_iff, Z.eqb_neq. intros E. apply Hn. rewrite <- E.
  apply list_elem_of_fmap_2. by apply list_elem_of_In.
Qed.

Lemma unlink_perm e l :
  e ∈ l -> NoDup (he_addr <$> l) -> l ≡ₚ e :: unlink (he_addr e) l.
Proof.
  induction l as [|x l IH]; [set_solver|]. rewrite fmap_cons, NoDup_cons.
  intros He [Hx Hnd]. simpl. unfold same_addr at 1.
  destruct (he_addr x =? he_addr e) eqn:E; simpl.
  - apply Z.eqb_eq in E. assert (x = e) as ->.
    { apply elem_of_cons in He as [->|He]; [done|].
      destruct Hx. rewrite E. by apply list_elem_of_fmap_2. }
    f_equiv. by rewrite unlink_not_in.
  - apply elem_of_cons in He as [->|He]; [lia|].
    rewrite (IH He Hnd) at 1. apply Permutation_swap.
Qed.

Lemma NoDup_chain nb bs es i b :
  buckets_rep nb bs es -> bs !! i = Some b -> NoDup (he_addr <$> es) ->
  NoDup (he_addr <$> bk_chain b).
Proof.
  intros (_ & Hp & _) Hb Hnd. rewrite <- Hp in Hnd.
  rewrite <- (take_drop_middle bs i b Hb), fmap_app, fmap_cons, concat_app in Hnd.
  simpl in Hnd. rewrite !fmap_app in Hnd.
  by apply NoDup_app in Hnd as (_ & _ & (? & _)%NoDup_app).
Qed.

(** An element is in the table exactly when it is in the bucket of its hash. *)
Lemma buckets_rep_elem l bs es e b :
  0 <= l < 32 -> buckets_rep (2 ^ l) bs es ->
  bs !! Z.to_nat (HASH_TO_BKT (he_hashv e) (2 ^ l)) = Some b ->
  e ∈ bk_chain b <-> e ∈ es.
Proof.
  intros Hl (Hlen & Hp & Hok) Hb. rewrite <- Hp, (list_elem_of_In (concat _)), in_concat. split.
  - intros He. exists (bk_chain b). split; [|by apply list_elem_of_In].
    apply list_elem_of_In, list_elem_of_fmap_2. by eapply list_elem_of_lookup_2.
  - intros (c & Hc & He). apply list_elem_of_In in Hc, He.
    apply list_elem_of_fmap in Hc as (b' & -> & Hb'). apply list_elem_of_lookup in Hb' as [i Hi].
    destruct (Hok _ _ Hi) as [Hall _]. rewrite Forall_forall in Hall.
    apply Hall in He as E. rewrite E, Nat2Z.id in Hb. congruence.
Qed.

Lemma buckets_rep_del l bs es e b :
  0 <= l < 32 -> buckets_rep (2 ^ l) bs es -> e ∈ es -> NoDup (he_addr <$> es) ->
  bs !! Z.to_nat (HASH_TO_BKT (he_hashv e) (2 ^ l)) = Some b ->
  buckets_rep (2 ^ l)
    (<[Z.to_nat (HASH_TO_BKT (he_hashv e) (2 ^ l)) := HASH_DEL_IN_BKT b (he_addr e)]> bs)
    (unlink (he_addr e) es).
Proof.
  intros Hl Hrep He Hnd Hb. pose proof (HASH_TO_BKT_range (he_hashv e) l Hl) as Hr.
  pose proof (NoDup_chain _ _ _ _ _ Hrep Hb Hnd) as Hndb.
  assert (e ∈ bk_chain b) as Heb by (by eapply buckets_rep_elem).
  pose proof (unlink_perm e _ Heb Hndb) as Hub. pose proof (unlink_perm e _ He Hnd) as Hue.
  destruct Hrep as (Hlen & Hp & Hok). split_and!.
  - by rewrite length_insert.
  - apply (Permutation_app_inv_l (bk_chain b)).
    rewrite (concat_insert_perm _ _ _ _ Hb), Hp. simpl.
    rewrite Hue at 1. rewrite Hub at 2. simpl. by rewrite Permutation_middle.
  - intros j b' Hj. rewrite list_lookup_insert_Some in Hj.
    destruct Hj as [(<- & <- & _)|[_ Hj]]; [|by apply Hok].
    destruct (Hok _ _ Hb) as [Hall Hc]. rewrite Z2Nat.id in Hall |- * by lia.
    split; simpl.
    + rewrite Hub in Hall. by inversion Hall.
    + apply Permutation_length in Hub. simpl in Hub. rewrite Hc, u32_pred. f_equal. lia.
Qed.

(** *** Lookup is membership *)

Lemma HASH_FIND_elem h es key e :
  uthash_rep h es -> Z.of_nat (length key) < 2 ^ 32 ->
  HASH_FIND h key (Z.of_nat (length key)) = Some e <-> e ∈ es /\ he_key e = key.
Proof.
  intros (Hok & Hnd & _ & Hh) Hlen.
  destruct h as [[tbl app]|]; simpl; [|subst; split; [done|set_solver]].
  destruct Hh as (-> & _ & Hl & Hnb & Hrep & _). rewrite Hnb in *.
  assert (0 <= tb_log2_num_buckets tbl < 32) as Hl' by lia.
  destruct (buckets_rep_lookup _ _ _ (HASH_JEN key) Hl' Hrep) as (b & Hb & _).
  rewrite Hb. unfold HASH_FIND_IN_BKT.
  assert (forall x, matches key (Z.of_nat (length key)) (HASH_JEN key) x = true ->
    he_key x = key) as Hm.
  { intros x. unfold matches. rewrite !andb_true_iff, bool_decide_eq_true. tauto. }
  assert (forall x, he_key x = key -> x ∈ app <-> x ∈ bk_chain b) as Hin.
  { intros x Hx. destruct (decide (HASH_JEN key = he_hashv x)) as [E|E].
    - rewrite E in Hb. symmetry. by eapply buckets_rep_elem.
    - split; intros Hxin.
      + rewrite Forall_forall in Hok. destruct (Hok x Hxin) as [E' _]. congruence.
      + rewrite Forall_forall in Hok. exfalso. apply E.
        destruct (Hok x) as [E' _]; [|congruence].
        destruct Hrep as (_ & Hp & _). rewrite <- Hp. apply list_elem_of_In, in_concat.
        exists (bk_chain b). split; apply list_elem_of_In; [|done].
        by eapply list_elem_of_fmap_2, list_elem_of_lookup_2. }
  split.
  - intros Hf%find_some. destruct Hf as [Hb' Hm']. apply Hm in Hm' as Hk.
    split; [|done]. apply Hin; [done|]. by apply list_elem_of_In.
  - intros [He Hk]. apply Hin in He as Hb'; [|done].
    destruct (find _ _) as [x|] eqn:Ef.
    + apply find_some in Ef as [Hx Hxm]. apply list_elem_of_In in Hx.
      apply Hm in Hxm. apply Hin in Hx; [|done]. f_equal.
      apply list_elem_of_lookup in Hx as [i Hi], He as [j Hj].
      assert (i = j) as ->; [|congruence].
      eapply NoDup_lookup; [done|rewrite list_lookup_fmap, Hi; simpl; by rewrite Hxm|].
      rewrite list_lookup_fmap, Hj. simpl. by rewrite Hk.
    + exfalso. apply list_elem_of_In in Hb'. eapply find_none in Hb'; [|done].
      rewrite Forall_forall in Hok. destruct (Hok e He) as [E1 E2].
      unfold matches in Hb'. rewrite E1, E2, Hk, wrap_small in Hb' by (unfold in_word; lia).
      rewrite !Z.eqb_refl, bool_decide_eq_true_2 in Hb' by done. done.
Qed.

Lemma HASH_FIND_None h es key :
  uthash_rep h es -> Z.of_nat (length key) < 2 ^ 32 ->
  HASH_FIND h key (Z.of_nat (length key)) = None <-> key ∉ (he_key <$> es).
Proof.
  intros Hrep Hlen. destruct (HASH_FIND _ _ _) as [e|] eqn:Ef.
  - apply (HASH_FIND_elem _ _ _ _ Hrep Hlen) in Ef as [He <-].
    split; [done|]. intros []. by apply list_elem_of_fmap_2.
  - split; [|done]. intros _ (e & -> & He)%list_elem_of_fmap.
    assert (Some e = None) as E; [|done]. rewrite <- Ef. symmetry.
    by apply (HASH_FIND_elem _ _ _ _ Hrep Hlen).
Qed.

(** *** Expansion *)

Lemma buckets_rep_empty nb : 0 <= nb -> buckets_rep nb (replicate (Z.to_nat nb) empty_bucket) [].
Proof.
  intros Hnb. split_and!.
  - rewrite length_replicate. lia.
  - generalize (Z.to_nat nb). intros n. by induction n.
  - intros i b [-> _]%lookup_replicate. by repeat split.
Qed.

Lemma expand_item_rep l bs es e ideal nonideal :
  0 <= l < 32 -> buckets_rep (2 ^ l) bs es ->
  buckets_rep (2 ^ l) (expand_item ideal (2 ^ l) (bs, nonideal) e).1 (e :: es).
Proof.
  intros Hl Hrep. destruct (buckets_rep_lookup _ _ _ (he_hashv e) Hl Hrep) as (b & Hb & _).
  unfold expand_item. rewrite Hb. pose proof (HASH_TO_BKT_range (he_hashv e) l Hl).
  case_if E; simpl; apply buckets_rep_add; try done; lia.
Qed.

Lemma expand_fold_rep l ideal items bs es nonideal :
  0 <= l < 32 -> buckets_rep (2 ^ l) bs es ->
  buckets_rep (2 ^ l) (foldl (expand_item ideal (2 ^ l)) (bs, nonideal) items).1 (es ++ items).
Proof.
  intros Hl. revert bs es nonideal. induction items as [|e items IH]; intros bs es nonideal Hrep.
  { by rewrite app_nil_r. }
  cbn [foldl]. pose proof (expand_item_rep _ _ _ e ideal nonideal Hl Hrep) as Hrep'.
  destruct (expand_item _ _ _ e) as [bs' n']. apply (IH _ _ n') in Hrep'.
  destruct Hrep' as (? & Hp & ?). split_and!; [done| |done]. rewrite Hp.
  simpl. by rewrite Permutation_middle.
Qed.

Lemma foldl_chains {A} (f : A -> hash_entry -> A) acc (bs : list UT_hash_bucket) :
  foldl (fun acc b => foldl f acc (bk_chain b)) acc bs = foldl f acc (concat (bk_chain <$> bs)).
Proof.
  revert acc. induction bs as [|b bs IH]; intros acc; simpl; [done|]. by rewrite IH, foldl_app.
Qed.

Lemma in_range_true l bs : 0 <= l < 32 -> in_range (2 ^ l) bs = true.
Proof.
  intros Hl. apply forallb_forall. intros b _. apply forallb_forall. intros e _.
  pose proof (HASH_TO_BKT_range (he_hashv e) l Hl). lia.
Qed.

Section uthash_proofs.
Context {AB : Abi} {AL : Allocator} {LIM : AllocLimit AL}.

(** The process ends only when an allocation is refused after [h0]. *)
Lemma wp_uthash_malloc h0 sz (Q : Z -> heap -> Prop) t m :
  0 <= sz -> (refusals h0 <= refusals (Heap t m))%nat ->
  (forall a, sz < 2 ^ 35 -> fresh_block m MALLOC_ALIGN sz a ->
    Q a (Heap (true :: t) (<[a := Block sz []]> m))) ->
  wp (out_of_memory h0) (uthash_malloc sz) Q (Heap t m).
Proof.
  intros Hsz Hr HQ. unfold wp, uthash_malloc, mbind, prog_bind, malloc, alloc_aligned. simpl.
  destruct (pick t m MALLOC_ALIGN sz) as [a|] eqn:E.
  - assert (fresh_block m MALLOC_ALIGN sz a) as Hf by (by eapply pick_fresh).
    rewrite (fresh_block_eqb _ _ _ _ Hf). apply HQ; [|done].
    destruct (decide (sz < 2 ^ 35)); [done|]. rewrite (alloc_limit t m MALLOC_ALIGN sz) in E by (unfold MALLOC_ALIGN; lia). done.
  - unfold out_of_memory, refusals in *. simpl in *. lia.
Qed.

(** What a change of the table's arrays keeps: identity, item count. *)
Lemma wp_HASH_EXPAND_BUCKETS h0 tbl app l t m :
  table_rep tbl app -> owns (tb_buckets_ptr tbl :: l) m ->
  (refusals h0 <= refusals (Heap t m))%nat ->
  wp (out_of_memory h0) (HASH_EXPAND_BUCKETS tbl) (fun tbl' h =>
    table_rep tbl' app /\ tb_self tbl' = tb_self tbl /\
    refusals h = refusals (Heap t m) /\
    reown m (tb_buckets_ptr tbl :: l) (h_blocks h) (tb_buckets_ptr tbl' :: l)) (Heap t m).
Proof.
  intros (Hl & Hnb & Hrep & Hn) Ho Hr. unfold HASH_EXPAND_BUCKETS. apply wp_bind.
  set (lg := tb_log2_num_buckets tbl) in *.
  assert (0 < 2 ^ lg <= 2 ^ 30) by (split; [lia|apply Z.pow_le_mono_r; lia]).
  rewrite sizeof_bucket. apply wp_uthash_malloc; [lia|done|]. intros a Hsz Hf.
  assert (lg < 30) as Hlg.
  { destruct (decide (lg = 30)) as [E|]; [|lia]. rewrite Hnb, E in Hsz. lia. }
  assert (2 ^ (lg + 1) = 2 ^ lg * 2) as Hpow by (rewrite Z.pow_add_r; lia).
  replace (tb_num_buckets tbl *32 2) with (2 ^ (lg + 1))
    by (rewrite wrap_small; unfold in_word; lia).
  replace (lg +32 1) with (lg + 1) by (rewrite wrap_small; unfold in_word; lia).
  rewrite in_range_true by lia. rewrite foldl_chains.
  match goal with |- context [foldl ?f ?z ?c] =>
    pose proof (expand_fold_rep (lg + 1) _ c _ [] 0 ltac:(lia)
      (buckets_rep_empty (2 ^ (lg + 1)) ltac:(lia)) : buckets_rep _ (foldl f z c).1 _) as Hrep';
    destruct (foldl f z c) as [bs' n'] end.
  simpl in Hrep'. apply wp_bind.
  pose proof (reown_alloc m _ _ _ a (Block (16 * tb_num_buckets tbl * 2) []) Ho Hf) as Hre.
  assert (owns (tb_buckets_ptr tbl :: a :: l) (<[a := Block (16 * tb_num_buckets tbl * 2) []]> m))
    as Ho'.
  { destruct Hre as [Ho' _]. by rewrite Permutation_swap in Ho'. }
  apply owns_cons in Ho' as Hob. destruct Hob as (Hp & Hs & _).
  apply wp_free_in; [done..|]. apply wp_ret. simpl. split_and!.
  - unfold table_rep; simpl. fold lg. split_and!; [lia|lia|done| |done].
    destruct Hrep' as (? & Hp' & ?), Hrep as (_ & Hp0 & _). split_and!; [done| |done].
    by rewrite Hp', Hp0.
  - done.
  - done.
  - eapply reown_trans; [exact Hre|].
    rewrite (Permutation_swap (tb_buckets_ptr tbl) a). by apply reown_free.
Qed.

#[local] Instance table_rep_perm tbl : Proper (Permutation ==> iff) (table_rep tbl).
Proof.
  intros l l' Hp. unfold table_rep, buckets_rep. setoid_rewrite Hp. done.
Qed.

Lemma wp_HASH_ADD_TO_TABLE h0 tbl app e l t m :
  table_rep tbl app -> owns (tb_buckets_ptr tbl :: l) m ->
  (refusals h0 <= refusals (Heap t m))%nat ->
  wp (out_of_memory h0) (HASH_ADD_TO_TABLE tbl e) (fun tbl' h =>
    table_rep tbl' (e :: app) /\ tb_self tbl' = tb_self tbl /\
    refusals h = refusals (Heap t m) /\
    reown m (tb_buckets_ptr tbl :: l) (h_blocks h) (tb_buckets_ptr tbl' :: l)) (Heap t m).
Proof.
  intros (Hl & Hnb & Hrep & Hn) Ho Hr. unfold HASH_ADD_TO_TABLE, HASH_ADD_TO_BKT. simpl.
  rewrite Hnb in Hrep |- *. assert (0 <= tb_log2_num_buckets tbl < 32) as Hl' by lia.
  destruct (buckets_rep_lookup _ _ _ (he_hashv e) Hl' Hrep) as (b & Hb & _). rewrite Hb.
  pose proof (HASH_TO_BKT_range (he_hashv e) _ Hl') as [Hpos _].
  set (tbl1 := set_buckets _ _).
  assert (table_rep tbl1 (e :: app)) as Hrep1.
  { unfold tbl1, table_rep; simpl. split_and!; [lia|lia|done| |].
    - rewrite Hnb. by apply buckets_rep_add.
    - rewrite Hn, u32_succ. f_equal. lia. }
  case_if E.
  - by apply (wp_HASH_EXPAND_BUCKETS h0 tbl1).
  - apply wp_ret. split_and!; [done..|]. by apply reown_refl.
Qed.

(** An element appended to the representation. *)
Lemma uthash_rep_snoc h es tbl app e :
  uthash_rep h es -> entry_ok e -> he_key e ∉ (he_key <$> es) ->
  he_addr e ∉ (he_addr <$> es) -> app = es ++ [e] -> table_rep tbl app ->
  uthash_rep (Some (tbl, app)) (es ++ [e]).
Proof.
  intros (Hok & Hk & Ha & _) He Hek Hea -> Ht. unfold uthash_rep.
  rewrite !fmap_app; simpl. split_and!; try done; try by destruct es.
  - apply Forall_app; split; [done|by constructor].
  - apply NoDup_app. split_and!; [done| |apply NoDup_singleton]. set_solver.
  - apply NoDup_app. split_and!; [done| |apply NoDup_singleton]. set_solver.
Qed.

Definition new_entry (addr : Z) (key : bytes) (keylen : Z) : hash_entry :=
  Entry addr key (u32 keylen) (HASH_JEN key).

Lemma wp_HASH_ADD_KEYPTR h0 h es addr key l t m :
  uthash_rep h es -> key ∉ (he_key <$> es) -> addr ∉ (he_addr <$> es) ->
  owns (table_blocks h ++ l) m -> (refusals h0 <= refusals (Heap t m))%nat ->
  wp (out_of_memory h0) (HASH_ADD_KEYPTR h addr key (Z.of_nat (length key))) (fun h' hp =>
    uthash_rep h' (es ++ [new_entry addr key (Z.of_nat (length key))]) /\
    refusals hp = refusals (Heap t m) /\
    reown m (table_blocks h ++ l) (h_blocks hp) (table_blocks h' ++ l)) (Heap t m).
Proof.
  intros Hh Hk Ha Ho Hr. pose proof (uthash_rep_snoc h es) as Hsnoc.
  assert (entry_ok (new_entry addr key (Z.of_nat (length key)))) as He by done.
  unfold HASH_ADD_KEYPTR. destruct h as [[tbl app]|].
  - destruct Hh as (Hok & Hndk & Hnda & -> & Hne & Ht) eqn:Eh. clear Eh. simpl in Ho.
    assert (owns (tb_buckets_ptr tbl :: tb_self tbl :: l) m) as Ho'
      by (by rewrite Permutation_swap in Ho).
    apply wp_bind. eapply wp_mono; [by apply wp_HASH_ADD_TO_TABLE|]. cbn beta.
    intros tbl' hp (Ht' & Hself & Href & Hre). apply wp_ret. split_and!; [|done|].
    + apply Hsnoc; try done. by rewrite <- Permutation_cons_append.
    + simpl. rewrite Hself, (Permutation_swap (tb_buckets_ptr tbl)).
      by rewrite (Permutation_swap (tb_buckets_ptr tbl')).
  - destruct Hh as (Hok & Hndk & Hnda & ->) eqn:Eh. clear Eh. simpl in Ho.
    apply wp_bind. unfold HASH_MAKE_TABLE. apply wp_bind.
    apply wp_uthash_malloc; [auto with words|done|]. intros a _ Hfa. apply wp_bind.
    apply wp_uthash_malloc; [rewrite sizeof_bucket; done|done|]. intros b _ Hfb.
    pose proof (reown_alloc m l _ _ a (Block (sizeof T_UT_hash_table) []) Ho Hfa) as Ra.
    pose proof (reown_alloc _ _ _ _ b
      (Block (HASH_INITIAL_NUM_BUCKETS * sizeof T_UT_hash_bucket) []) (proj1 Ra) Hfb) as Rb.
    apply wp_ret, wp_bind. eapply wp_mono.
    { apply wp_HASH_ADD_TO_TABLE with (app := []) (l := a :: l); [|exact (proj1 Rb)|done].
      split_and!; [done..| |done]. by apply (buckets_rep_empty 32). }
    cbn beta. intros tbl' hp (Ht' & Hself & Href & Hre). apply wp_ret. split_and!; [|done|].
    + by apply Hsnoc.
    + simpl in Hself |- *. rewrite Hself, (Permutation_swap (tb_buckets_ptr tbl')).
      eapply reown_trans; [|exact Hre]. by eapply reown_trans.
Qed.

Lemma uthash_rep_unlink h es e h' :
  uthash_rep h es -> e ∈ es ->
  match h' with
  | None => unlink (he_addr e) es = []
  | Some (tbl, app) =>
    app = unlink (he_addr e) es /\ app <> [] /\ table_rep tbl app
  end ->
  uthash_rep h' (unlink (he_addr e) es).
Proof.
  intros (Hok & Hk & Ha & _) He Hh'. pose proof (unlink_perm e es He Ha) as Hp.
  rewrite Hp in Hok, Hk. rewrite Hp in Ha. apply NoDup_cons in Hk, Ha.
  split_and!; [by inversion Hok|tauto|tauto|]. destruct h' as [[tbl app]|]; [|done].
  naive_solver.
Qed.

Lemma wp_HASH_DELETE X h es e l t m :
  uthash_rep h es -> e ∈ es -> owns (table_blocks h ++ l) m ->
  wp X (HASH_DELETE h e) (fun h' hp =>
    uthash_rep h' (unlink (he_addr e) es) /\ h_log hp = t /\
    reown m (table_blocks h ++ l) (h_blocks hp) (table_blocks h' ++ l)) (Heap t m).
Proof.
  intros Hh He Ho. pose proof (fun h' => uthash_rep_unlink h es e h' Hh He) as Hdel.
  destruct h as [[tbl app]|]; [|destruct Hh as (_ & _ & _ & ->); set_solver].
  destruct Hh as (Hok & Hndk & Hnda & -> & Hne & Hl & Hnb & Hrep & Hn).
  pose proof (unlink_perm e app He Hnda) as Hp. unfold HASH_DELETE.
  destruct (decide (length app = 1%nat)) as [E1|E1].
  - destruct app as [|x [|]]; try done. assert (x = e) as -> by set_solver.
    simpl in Ho. rewrite Permutation_swap in Ho. pose proof (reown_free _ _ _ Ho) as R1.
    pose proof (reown_free _ _ _ (proj1 R1)) as R2.
    apply owns_cons in Ho as (Hb & Hbs & Hbn & Ho1). apply wp_bind, wp_free_in; [done..|].
    apply wp_bind. destruct (proj1 (owns_cons _ _ _) (proj1 R1)) as (Ha & Has & _).
    apply wp_free_in; [done..|]. apply wp_ret. split_and!; [|done|].
    + apply Hdel. apply Permutation_length in Hp. simpl in *.
      by destruct (if negb _ then _ else _).
    + simpl. rewrite (Permutation_swap (tb_buckets_ptr tbl)). by eapply reown_trans.
  - rewrite Hnb in Hrep. assert (0 <= tb_log2_num_buckets tbl < 32) as Hl' by lia.
    destruct (buckets_rep_lookup _ _ _ (he_hashv e) Hl' Hrep) as (b & Hb & _).
    assert (unlink (he_addr e) app <> []) as Hne'.
    { intros E. rewrite E in Hp. apply Permutation_length in Hp. done. }
    destruct app as [|x [|y app]]; try done.
    all: rewrite Hnb, Hb; apply wp_ret; split_and!; [|done|by apply reown_refl].
    all: apply Hdel; split_and!; [done..|].
    all: unfold table_rep; simpl tb_num_buckets; simpl tb_log2_num_buckets; rewrite Hnb.
    all: split_and!; [lia|lia|done|by apply buckets_rep_del|].
    all: simpl tb_num_items; rewrite Hn, u32_pred; apply Permutation_length in Hp.
    all: simpl length in Hp |- *; f_equal; lia.
Qed.
End uthash_proofs.
