(* ===== verification/HashTable.v ===== *)
(** * The key table (src/utils/hashTable.h)

    The in-memory set of stored keys that [kv_engine_exists] consults: a mutex
    around a uthash of heap-allocated [struct hash_entry].  Its operations are
    shown to implement a finite set of keys, and [free_table] to return every
    block they allocated. *)
From S2P Require Import Prelude Libc UtHash.

Record hash_table_t := HashTab { head : uthash; lock : mutex }.

Section hash_table.
Context {AB : Abi} {AL : Allocator}.

(** [rc] is the answer of [pthread_mutex_init]; a null table gives -1. *)
Definition create_table (table : option hash_table_t) (rc : Z) : option hash_table_t * Z :=
  match table with
  | None => (None, -1)
  | Some t => (Some (HashTab None (mutex_init rc (lock t))), rc)
  end.

(** The guard every operation starts with. *)
Definition bad_key_args (table : option hash_table_t) (key : option bytes) (key_len : Z) : bool :=
  match table, key with
  | Some _, Some _ => (key_len =? 0) || (255 <? key_len)
  | _, _ => true
  end.

Definition add_key (table : option hash_table_t) (key : option bytes) (key_len : Z)
    : prog heap (option hash_table_t) :=
  if bad_key_args table key key_len then mret table else
  match table, key with
  | Some t, Some kp =>
    l ← mutex_lock (lock t);
    k ← read_arg kp key_len;
    match HASH_FIND (head t) k key_len with
    | Some _ => l ← mutex_unlock l; mret (Some (HashTab (head t) l))
    | None =>
      entry ← malloc (sizeof T_hash_entry);
      if entry =? 0 then l ← mutex_unlock l; mret (Some (HashTab (head t) l))
      else
        h ← HASH_ADD_KEYPTR (head t) entry k key_len;
        l ← mutex_unlock l;
        mret (Some (HashTab h l))
    end
  | _, _ => mret table
  end.

Definition key_in_table (table : option hash_table_t) (key : option bytes) (key_len : Z)
    : prog heap (option hash_table_t * Z) :=
  if bad_key_args table key key_len then mret (table, 0) else
  match table, key with
  | Some t, Some kp =>
    l ← mutex_lock (lock t);
    k ← read_arg kp key_len;
    let found := match HASH_FIND (head t) k key_len with Some _ => 1 | None => 0 end in
    l ← mutex_unlock l;
    mret (Some (HashTab (head t) l), found)
  | _, _ => mret (table, 0)
  end.

Definition delete_key (table : option hash_table_t) (key : option bytes) (key_len : Z)
    : prog heap (option hash_table_t) :=
  if bad_key_args table key key_len then mret table else
  match table, key with
  | Some t, Some kp =>
    l ← mutex_lock (lock t);
    k ← read_arg kp key_len;
    h ← match HASH_FIND (head t) k key_len with
        | Some entry =>
          h ← HASH_DELETE (head t) entry;
          _ ← free (he_addr entry);
          mret h
        | None => mret (head t)
        end;
    l ← mutex_unlock l;
    mret (Some (HashTab h l))
  | _, _ => mret table
  end.

(** [HASH_ITER] with deletion of the current element: the successor is taken
    before the element goes, so the loop visits the application order. *)
Fixpoint free_entries (order : list hash_entry) (h : uthash) : prog heap uthash :=
  match order with
  | [] => mret h
  | e :: order' =>
    h ← HASH_DELETE h e;
    _ ← free (he_addr e);
    free_entries order' h
  end.

Definition free_table (table : option hash_table_t) : prog heap (option hash_table_t) :=
  match table with
  | None => mret None
  | Some t =>
    l ← mutex_lock (lock t);
    h ← free_entries (match head t with Some (_, app) => app | None => [] end) (head t);
    l ← mutex_unlock l;
    l ← mutex_destroy l;
    mret (Some (HashTab h l))
  end.
End hash_table.

(** ** Abstraction: a finite set of keys *)

(** Sets of keys. *)
Abbreviation keyset := (@gset (list Z) list_eq_dec list_countable).

Definition keys_of (es : list hash_entry) : keyset := list_to_set (he_key <$> es).

Definition ht_blocks (t : hash_table_t) (es : list hash_entry) : list Z :=
  table_blocks (head t) ++ (he_addr <$> es).

(** [table_is t K m l]: unlocked table [t] stands for the set [K] and owns the
    blocks [l] of the heap [m]. *)
Definition table_is (t : hash_table_t) (K : keyset) (m : gmap Z block) (l : list Z) : Prop :=
  exists es, uthash_rep (head t) es /\ lock t = M_free /\ K = keys_of es /\
    l ≡ₚ ht_blocks t es /\ owns l m.

(** Keys the operations accept: 1 to 255 bytes. *)
Definition key_ok (k : bytes) : Prop := (1 <= length k <= 255)%nat.

Lemma key_ok_guard t k :
  key_ok k -> bad_key_args (Some t) (Some k) (Z.of_nat (length k)) = false.
Proof. unfold key_ok, bad_key_args. intros. apply orb_false_iff; split; bool_lia. Qed.

Lemma wp_read_arg_all {St} X k (Q : bytes -> St -> Prop) s :
  Q k s -> wp X (read_arg k (Z.of_nat (length k))) Q s.
Proof.
  intros HQ. unfold wp, read_arg. rewrite Z.leb_refl, Nat2Z.id, firstn_all. done.
Qed.

Lemma keys_of_app es e : keys_of (es ++ [e]) = keys_of es ∪ {[he_key e]}.
Proof. unfold keys_of. rewrite fmap_app. simpl. set_solver. Qed.

Lemma elem_keys_of k es : k ∈ keys_of es <-> k ∈ (he_key <$> es).
Proof. apply elem_of_list_to_set. Qed.

Section hash_table_proofs.
Context {AB : Abi} {AL : Allocator} {LIM : AllocLimit AL}.

Lemma key_len_word k : key_ok k -> Z.of_nat (length k) < 2 ^ 32.
Proof. unfold key_ok. lia. Qed.

(** Adding a key: the set grows by it, unless memory was refused, in which case
    the set is unchanged or uthash ended the process. *)
Lemma wp_add_key h0 t K k l tr m :
  table_is t K m l -> key_ok k -> (refusals h0 <= refusals (Heap tr m))%nat ->
  wp (out_of_memory h0) (add_key (Some t) (Some k) (Z.of_nat (length k))) (fun t' h =>
    exists t1 K1 l1, t' = Some t1 /\ table_is t1 K1 (h_blocks h) l1 /\
      (K1 = K ∪ {[k]} \/ K1 = K /\ out_of_memory (Heap tr m) h) /\
      (refusals (Heap tr m) <= refusals h)%nat /\
      reown m l (h_blocks h) l1) (Heap tr m).
Proof.
  intros (es & Hrep & Hlk & -> & Hl & Ho) Hk Hr. pose proof (key_len_word k Hk) as Hw.
  unfold add_key. rewrite key_ok_guard, Hlk by done. simpl mutex_lock.
  apply wp_bind, wp_ret, wp_bind, wp_read_arg_all.
  destruct (HASH_FIND _ _ _) as [e|] eqn:Ef.
  { apply (HASH_FIND_elem _ _ _ _ Hrep Hw) in Ef as [He Hek].
    apply wp_bind, wp_ret, wp_ret. exists (HashTab (head t) M_free), (keys_of es), l.
    split_and!; [done| | |done|by apply reown_refl].
    - by exists es.
    - left. assert (k ∈ keys_of es); [|set_solver]. apply elem_keys_of. subst k.
      by apply list_elem_of_fmap_2. }
  apply (HASH_FIND_None _ _ _ Hrep Hw) in Ef. apply wp_bind.
  apply wp_malloc; [auto with words|..].
  { simpl. apply wp_bind, wp_ret, wp_ret. exists (HashTab (head t) M_free), (keys_of es), l.
    split_and!; [done| | | |by apply reown_refl].
    - by exists es.
    - right. split; [done|]. unfold out_of_memory, refusals. simpl. lia.
    - unfold refusals. simpl. lia. }
  intros a Ha. rewrite (fresh_block_eqb _ _ _ _ Ha). apply wp_bind.
  pose proof (reown_alloc m l _ _ a (Block (sizeof T_hash_entry) []) Ho Ha) as Ra.
  assert (a :: l ≡ₚ table_blocks (head t) ++ a :: (he_addr <$> es)) as Hperm.
  { rewrite Hl. unfold ht_blocks. solve_Permutation. }
  eapply wp_mono.
  { apply (wp_HASH_ADD_KEYPTR h0 (head t) es a k (a :: (he_addr <$> es))); [done|done| | |done].
    - destruct Ra as [[Hnd _] _]. rewrite Hperm in Hnd.
      by apply NoDup_app in Hnd as (_ & _ & [? _]%NoDup_cons).
    - rewrite <- Hperm. apply Ra. }
  cbn beta. intros h' hp (Hrep' & Href & Hre). apply wp_bind, wp_ret, wp_ret.
  exists (HashTab h' M_free), (keys_of es ∪ {[k]}),
    (table_blocks h' ++ a :: (he_addr <$> es)).
  split_and!; [done| |by left|by rewrite Href|].
  - exists (es ++ [new_entry a k (Z.of_nat (length k))]).
    split_and!; [done|done|by rewrite keys_of_app| |apply Hre].
    unfold ht_blocks. simpl. rewrite fmap_app. simpl. solve_Permutation.
  - eapply reown_trans; [exact Ra|]. by rewrite Hperm.
Qed.

Lemma wp_key_in_table X t K k l tr m :
  table_is t K m l -> key_ok k ->
  wp X (key_in_table (Some t) (Some k) (Z.of_nat (length k))) (fun r h =>
    exists t1, r = (Some t1, if decide (k ∈ K) then 1 else 0) /\ table_is t1 K m l /\
      h = Heap tr m) (Heap tr m).
Proof.
  intros (es & Hrep & Hlk & -> & Hl & Ho) Hk. pose proof (key_len_word k Hk) as Hw.
  unfold key_in_table. rewrite key_ok_guard, Hlk by done. simpl mutex_lock.
  apply wp_bind, wp_ret, wp_bind, wp_read_arg_all, wp_bind, wp_ret, wp_ret.
  exists (HashTab (head t) M_free). split_and!; [|by exists es|done].
  pose proof (HASH_FIND_None _ _ _ Hrep Hw) as Hnone. rewrite <- elem_keys_of in Hnone.
  f_equal. destruct (HASH_FIND _ _ _) as [e|]; case_decide; naive_solver.
Qed.

Lemma keys_of_unlink e es :
  e ∈ es -> NoDup (he_key <$> es) -> NoDup (he_addr <$> es) ->
  keys_of (unlink (he_addr e) es) = keys_of es ∖ {[he_key e]}.
Proof.
  intros He Hk Ha. pose proof (unlink_perm e es He Ha) as Hp.
  rewrite Hp in Hk. apply NoDup_cons in Hk as [Hk _].
  assert (forall k, k ∈ (he_key <$> es) <->
    k ∈ he_key e :: (he_key <$> unlink (he_addr e) es)) as E by (intros; by rewrite Hp at 1).
  unfold keys_of. set_solver.
Qed.

(** Unlinking an element and freeing it: the step [delete_key] and [free_table] share. *)
Lemma wp_delete_entry X h es e r tr m :
  uthash_rep h es -> e ∈ es ->
  owns (table_blocks h ++ (he_addr <$> es) ++ r) m ->
  wp X (h' ← HASH_DELETE h e; _ ← free (he_addr e); mret h') (fun h' hp =>
    uthash_rep h' (unlink (he_addr e) es) /\ h_log hp = tr /\
    reown m (table_blocks h ++ (he_addr <$> es) ++ r) (h_blocks hp)
      (table_blocks h' ++ (he_addr <$> unlink (he_addr e) es) ++ r)) (Heap tr m).
Proof.
  intros Hrep He Ho. pose proof Hrep as (_ & _ & Hnda & _).
  pose proof (unlink_perm e es He Hnda) as Hp.
  assert ((he_addr <$> es) ++ r ≡ₚ he_addr e :: (he_addr <$> unlink (he_addr e) es) ++ r) as Hp'
    by (by rewrite Hp at 1).
  apply wp_bind. eapply wp_mono; [by apply wp_HASH_DELETE|]. cbn beta.
  intros h' [tr' m'] (Hrep' & Hlog & Hre). simpl in Hlog, Hre. subst tr'.
  rewrite Hp' in Hre at 2. rewrite <- Permutation_middle in Hre.
  destruct (proj1 (owns_cons _ _ _) (proj1 Hre)) as (Hpos & Hs & _).
  apply wp_bind, wp_free_in; [done..|]. apply wp_ret. split_and!; [done..|].
  eapply reown_trans; [exact Hre|]. apply reown_free, Hre.
Qed.

Lemma wp_delete_key X t K k l tr m :
  table_is t K m l -> key_ok k ->
  wp X (delete_key (Some t) (Some k) (Z.of_nat (length k))) (fun t' h =>
    exists t1 l1, t' = Some t1 /\ table_is t1 (K ∖ {[k]}) (h_blocks h) l1 /\
      h_log h = tr /\ reown m l (h_blocks h) l1) (Heap tr m).
Proof.
  intros (es & Hrep & Hlk & -> & Hl & Ho) Hk. pose proof (key_len_word k Hk) as Hw.
  unfold delete_key. rewrite key_ok_guard, Hlk by done. simpl mutex_lock.
  apply wp_bind, wp_ret, wp_bind, wp_read_arg_all, wp_bind.
  destruct (HASH_FIND _ _ _) as [e|] eqn:Ef.
  - apply (HASH_FIND_elem _ _ _ _ Hrep Hw) in Ef as [He <-].
    unfold ht_blocks in Hl. rewrite <- (app_nil_r (he_addr <$> es)) in Hl.
    eapply wp_mono; [apply (wp_delete_entry X _ es e []); [done..|by rewrite <- Hl]|].
    cbn beta. intros h' hp (Hrep' & Hlog & Hre). apply wp_bind, wp_ret, wp_ret.
    rewrite <- Hl, app_nil_r in Hre. pose proof Hrep as (_ & Hndk & Hnda & _).
    exists (HashTab h' M_free), (table_blocks h' ++ (he_addr <$> unlink (he_addr e) es)).
    split_and!; [done| |done|done]. exists (unlink (he_addr e) es).
    split_and!; [done|done|by rewrite keys_of_unlink|done|apply Hre].
  - apply (HASH_FIND_None _ _ _ Hrep Hw) in Ef. apply wp_ret, wp_bind, wp_ret, wp_ret.
    exists (HashTab (head t) M_free), l. split_and!; [done| |done|by apply reown_refl].
    exists es. split_and!; try done. rewrite <- elem_keys_of in Ef. set_solver.
Qed.

Lemma wp_free_entries X es h tr m :
  uthash_rep h es -> owns (table_blocks h ++ (he_addr <$> es)) m ->
  wp X (free_entries es h) (fun h' hp =>
    h' = None /\ h_log hp = tr /\
    h_blocks hp = delete_all (table_blocks h ++ (he_addr <$> es)) m) (Heap tr m).
Proof.
  revert h m. induction es as [|e es IH]; intros h m Hrep Ho.
  { destruct h as [[tbl app]|]; [by destruct Hrep as (_ & _ & _ & <- & ? & _)|].
    by apply wp_ret. }
  assert (e ∈ e :: es) as He by set_solver.
  pose proof Hrep as (_ & _ & Hnda & _). pose proof (unlink_perm e (e :: es) He Hnda) as Hp.
  assert (unlink (he_addr e) (e :: es) = es) as Hun.
  { simpl. unfold same_addr. rewrite Z.eqb_refl. simpl. apply unlink_not_in.
    by apply NoDup_cons in Hnda as [? _]. }
  rewrite <- (app_nil_r (he_addr <$> (e :: es))) in Ho.
  pose proof (wp_delete_entry X h (e :: es) e [] tr m Hrep He Ho) as Hstep.
  simpl free_entries. apply wp_bind. unfold mbind in Hstep. rewrite Hun in Hstep.
  unfold wp, prog_bind in Hstep |- *. destruct (HASH_DELETE h e _) as [h1 s1| |s1]; [|done|done].
  unfold mbind, prog_bind. destruct (free (he_addr e) s1) as [? s2| |s2]; [|done|done].
  unfold mret, prog_ret in Hstep. destruct Hstep as (Hrep' & Hlog & Hre).
  rewrite !app_nil_r in Hre. destruct s2 as [tr2 m2]. simpl in Hlog, Hre. subst tr2.
  pose proof (IH h1 m2 Hrep' (proj1 Hre)) as Hrest. unfold wp in Hrest.
  destruct (free_entries es h1 _); [|done|done]. destruct Hrest as (? & ? & E).
  split_and!; [done|done|]. rewrite E. apply Hre.
Qed.

(** [free_table] returns every block the table owns. *)
Lemma wp_free_table X t K l tr m :
  table_is t K m l ->
  wp X (free_table (Some t)) (fun t' h =>
    t' = Some (HashTab None M_uninit) /\ h = Heap tr (delete_all l m)) (Heap tr m).
Proof.
  intros (es & Hrep & Hlk & -> & Hl & Ho). unfold free_table. rewrite Hlk. simpl mutex_lock.
  apply wp_bind, wp_ret, wp_bind.
  replace (match head t with Some (_, app) => app | None => [] end) with es
    by (destruct Hrep as (_ & _ & _ & Hh); by destruct (head t) as [[? ?]|]; destruct_and?).
  rewrite Hl in Ho. eapply wp_mono; [by apply wp_free_entries|]. cbn beta.
  intros h' [tr' m'] (-> & Hlog & Hm). simpl in Hlog, Hm. subst.
  apply wp_bind, wp_ret, wp_bind, wp_ret, wp_ret. split; [done|]. f_equal.
  by apply delete_all_perm.
Qed.
End hash_table_proofs.

(** ** Any sequence of operations *)

Inductive ht_op : Type := HAdd (k : bytes) | HMem (k : bytes) | HDel (k : bytes).

(** The specification: a set of valid keys; the answers of the membership tests. *)
Definition valid_key (k : bytes) : bool :=
  negb (Z.of_nat (length k) =? 0) && (Z.of_nat (length k) <=? 255).

Definition set_op (K : keyset) (op : ht_op) : keyset :=
  match op with
  | HAdd k => if valid_key k then K ∪ {[k]} else K
  | HMem _ => K
  | HDel k => if valid_key k then K ∖ {[k]} else K
  end.

Definition set_answer (K : keyset) (op : ht_op) : list Z :=
  match op with
  | HMem k => [if valid_key k && bool_decide (k ∈ K) then 1 else 0]
  | _ => []
  end.

Fixpoint set_answers (K : keyset) (ops : list ht_op) : list Z :=
  match ops with
  | [] => []
  | op :: ops' => set_answer K op ++ set_answers (set_op K op) ops'
  end.

Section sequences.
Context {AB : Abi} {AL : Allocator}.

Definition run_op (t : option hash_table_t) (op : ht_op)
    : prog heap (option hash_table_t * list Z) :=
  match op with
  | HAdd k => t' ← add_key t (Some k) (Z.of_nat (length k)); mret (t', [])
  | HMem k => r ← key_in_table t (Some k) (Z.of_nat (length k)); mret (r.1, [r.2])
  | HDel k => t' ← delete_key t (Some k) (Z.of_nat (length k)); mret (t', [])
  end.

Fixpoint run_ops (t : option hash_table_t) (ops : list ht_op)
    : prog heap (option hash_table_t * list Z) :=
  match ops with
  | [] => mret (t, [])
  | op :: ops' =>
    r ← run_op t op;
    r' ← run_ops r.1 ops';
    mret (r'.1, r.2 ++ r'.2)
  end.

Context {LIM : AllocLimit AL}.

Lemma valid_key_ok k : valid_key k = true <-> key_ok k.
Proof.
  unfold valid_key, key_ok. rewrite andb_true_iff, negb_true_iff, Z.eqb_neq, Z.leb_le. lia.
Qed.

Lemma invalid_key_guard t k :
  valid_key k = false -> bad_key_args (Some t) (Some k) (Z.of_nat (length k)) = true.
Proof.
  unfold valid_key, bad_key_args. rewrite andb_false_iff, negb_false_iff, orb_true_iff.
  rewrite Z.leb_gt, Z.ltb_lt. naive_solver.
Qed.

Lemma wp_run_op h0 t K l op tr m :
  table_is t K m l -> (refusals h0 <= refusals (Heap tr m))%nat ->
  wp (out_of_memory h0) (run_op (Some t) op) (fun r h =>
    exists t1 K1 l1, r = (Some t1, set_answer K op) /\ table_is t1 K1 (h_blocks h) l1 /\
      (K1 = set_op K op \/ out_of_memory (Heap tr m) h) /\
      (refusals (Heap tr m) <= refusals h)%nat /\
      reown m l (h_blocks h) l1) (Heap tr m).
Proof.
  intros Ht Hr. assert (reown m l m l) as Hrefl by (by destruct Ht as (?&?&?&?&?&?)).
  destruct op as [k|k|k]; simpl run_op; simpl set_answer; simpl set_op;
    apply wp_bind; destruct (valid_key k) eqn:Hv.
  - apply valid_key_ok in Hv. eapply wp_mono; [by apply wp_add_key|]. cbn beta.
    intros ? h (t1 & K1 & l1 & -> & ? & Hor & ? & ?). apply wp_ret.
    exists t1, K1, l1. split_and!; try done. naive_solver.
  - unfold add_key. rewrite invalid_key_guard by done. apply wp_ret, wp_ret.
    exists t, K, l. by split_and!; try left.
  - apply valid_key_ok in Hv. eapply wp_mono; [by apply wp_key_in_table|]. cbn beta.
    intros ? h (t1 & -> & ? & ->). apply wp_ret. exists t1, K, l. split_and!; try done; [|by left].
    simpl. do 2 f_equal. by case_decide; case_bool_decide.
  - unfold key_in_table. rewrite invalid_key_guard by done. apply wp_ret, wp_ret.
    exists t, K, l. by split_and!; try left.
  - apply valid_key_ok in Hv. eapply wp_mono; [by apply wp_delete_key|]. cbn beta.
    intros ? h (t1 & l1 & -> & ? & Hlog & ?). apply wp_ret.
    exists t1, (K ∖ {[k]}), l1. split_and!; try done; [by left|].
    unfold refusals. by rewrite Hlog.
  - unfold delete_key. rewrite invalid_key_guard by done. apply wp_ret, wp_ret.
    exists t, K, l. by split_and!; try left.
Qed.

Lemma wp_run_ops h0 ops t K l tr m :
  table_is t K m l -> (refusals h0 <= refusals (Heap tr m))%nat ->
  wp (out_of_memory h0) (run_ops (Some t) ops) (fun r h =>
    exists t1 K1 l1, r.1 = Some t1 /\ table_is t1 K1 (h_blocks h) l1 /\
      (K1 = foldl set_op K ops /\ r.2 = set_answers K ops \/ out_of_memory (Heap tr m) h) /\
      (refusals (Heap tr m) <= refusals h)%nat /\
      reown m l (h_blocks h) l1) (Heap tr m).
Proof.
  revert t K l tr m. induction ops as [|op ops IH]; intros t K l tr m Ht Hr.
  { apply wp_ret. exists t, K, l. split_and!; try done; [by left|].
    apply reown_refl. by destruct Ht as (?&?&?&?&?&?). }
  simpl run_ops. apply wp_bind. eapply wp_mono; [by apply wp_run_op|]. cbn beta.
  intros r [tr1 m1] (t1 & K1 & l1 & -> & Ht1 & HK & Hle & Hre). simpl in Ht1, Hre.
  apply wp_bind. eapply wp_mono; [apply IH; [exact Ht1|lia]|]. cbn beta.
  intros r' h2 (t2 & K2 & l2 & Hr1 & Ht2 & HK2 & Hle2 & Hre2). apply wp_ret.
  exists t2, K2, l2. split_and!; try done; [|lia|by eapply reown_trans].
  unfold out_of_memory in *. destruct HK as [->|HK]; [|right; lia].
  destruct HK2 as [[-> ->]|HK2]; [by left|right; lia].
Qed.

Lemma create_table_is m rc t :
  rc = 0 -> exists t', create_table (Some t) rc = (Some t', 0) /\ table_is t' ∅ m [].
Proof.
  intros ->. eexists. split; [done|]. exists []. split_and!; try done; [|apply owns_nil].
  split_and!; try done; apply NoDup_nil_2.
Qed.

(** C19: the key table implements a set.  After any sequence of additions,
    removals and membership tests on a table that [create_table] initialised, no
    undefined behaviour has occurred, every test answered as in the mathematical
    set of valid (1 to 255 byte) keys, and the table stands for that set, unless
    an allocation was refused; the process ends only on a refused allocation. *)
Theorem key_table_refines_set (t : hash_table_t) ops tr m :
  wp (out_of_memory (Heap tr m)) (run_ops (create_table (Some t) 0).1 ops) (fun r h =>
    out_of_memory (Heap tr m) h \/
    r.2 = set_answers ∅ ops /\
    exists t1 l, r.1 = Some t1 /\ table_is t1 (foldl set_op ∅ ops) (h_blocks h) l)
    (Heap tr m).
Proof.
  destruct (create_table_is m 0 t eq_refl) as (t' & E & Ht). rewrite E.
  eapply wp_mono; [by apply wp_run_ops|]. cbn beta.
  intros r h (t1 & K1 & l1 & -> & Ht1 & [[-> ->]|Hoom] & _ & _); [right; eauto|by left].
Qed.

(** No leak.  Whatever was added, removed or tested in between, and whether
    or not allocations were refused, [free_table] gives the heap back exactly the
    blocks it had when the table was created, and leaves an empty table whose
    lock is destroyed. *)
Theorem key_table_no_leak (t : hash_table_t) ops tr m :
  wp (out_of_memory (Heap tr m))
    (r ← run_ops (create_table (Some t) 0).1 ops; free_table r.1) (fun t' h =>
    h_blocks h = m /\ t' = Some (HashTab None M_uninit)) (Heap tr m).
Proof.
  destruct (create_table_is m 0 t eq_refl) as (t' & E & Ht). rewrite E.
  apply wp_bind. eapply wp_mono; [by apply wp_run_ops|]. cbn beta.
  intros r [tr1 m1] (t1 & K1 & l1 & -> & Ht1 & _ & _ & [_ Hre]). simpl in Ht1, Hre.
  eapply wp_mono; [by apply (wp_free_table _ _ _ _ _ _ Ht1)|]. cbn beta.
  intros ? h [-> ->]. split; [exact Hre|done].
Qed.
End sequences.

Definition sample_ops : list ht_op :=
  [HAdd [107; 49]; HMem [107; 49]; HDel [107; 49]; HMem [107; 49]; HAdd []].

Lemma key_table_refines_set_witness :
  @run_ops lp64 big_allocator (create_table (Some (HashTab None M_uninit)) 0).1 sample_ops
    (Heap [] ∅) <> Undef /\
  set_answers ∅ sample_ops = [1; 0].
Proof.
  split; [|vm_compute; reflexivity]. intros E.
  pose proof (@key_table_refines_set lp64 big_allocator big_alloc_limit
    (HashTab None M_uninit) sample_ops [] ∅) as H.
  unfold wp in H. rewrite E in H. exact H.
Defined.

Lemma key_table_no_leak_witness :
  match (r ← @run_ops lp64 big_allocator (create_table (Some (HashTab None M_uninit)) 0).1
               sample_ops; free_table r.1) (Heap [] ∅) with
  | Done _ h => h_blocks h = ∅
  | _ => True
  end.
Proof.
  pose proof (@key_table_no_leak lp64 big_allocator big_alloc_limit
    (HashTab None M_uninit) sample_ops [] ∅) as H.
  unfold wp in H. revert H. generalize ((r ← @run_ops lp64 big_allocator
    (create_table (Some (HashTab None M_uninit)) 0).1 sample_ops; free_table r.1) (Heap [] ∅)).
  intros o H. destruct o as [a h| |h]; [apply H|exact I|exact I].
Defined.
