(* ===== verification/KvsApi.v ===== *)
(** * The Samsung KVS interface (lib/KVSSD/PDK/core/include/kvs_api.h)

    The calls the engine makes on the device library, as a class of operations
    on an abstract library state ([KvsOps]), what a client can observe of that
    state ([KvsView]), and the promises of the interface's documentation as laws
    over it ([KvsSpec]).  The engine's theorems hold for every
    library that keeps the laws; [Emulator.v] shows that the library's own
    emulator backend does. *)
From S2P Require Import Prelude KvTypes.

Inductive kvs_store_type : Set :=
| KVS_STORE_POST | KVS_STORE_UPDATE_ONLY | KVS_STORE_NOOVERWRITE | KVS_STORE_APPEND.

(** What [kvs_retrieve_kvp] leaves in the [kvs_value]: the bytes put into the
    buffer, [length] and [actual_value_size]. *)
Record kvs_retrieved := Retrieved {
  rt_data : bytes; rt_length : Z; rt_actual_value_size : Z
}.

Class KvsOps := {
  kvs_state : Type;
  (** handles are nonzero; the device handle is returned through a pointer *)
  kvs_open_device : string -> kvs_state -> kvs_result * Z * kvs_state;
  kvs_close_device : Z -> kvs_state -> kvs_result * kvs_state;
  kvs_open_key_space : Z -> string -> kvs_state -> kvs_result * Z * kvs_state;
  kvs_create_key_space : Z -> string -> kvs_state -> kvs_result * kvs_state;
  kvs_close_key_space : Z -> kvs_state -> kvs_result * kvs_state;
  (** handle, key, value, option *)
  kvs_store_kvp : Z -> bytes -> bytes -> kvs_store_type -> kvs_state -> kvs_result * kvs_state;
  (** handle, key, [kvs_retrieve_delete], buffer length *)
  kvs_retrieve_kvp : Z -> bytes -> bool -> Z -> kvs_state -> kvs_result * kvs_retrieved * kvs_state;
  (** handle, key, [kvs_delete_error] *)
  kvs_delete_kvp : Z -> bytes -> bool -> kvs_state -> kvs_result * kvs_state;
  (** one key; the byte is the result buffer *)
  kvs_exist_kv_pairs : Z -> bytes -> kvs_state -> kvs_result * Z * kvs_state;
  kvs_get_device_capacity : Z -> kvs_state -> kvs_result * Z * kvs_state;
  kvs_get_device_utilization : Z -> kvs_state -> kvs_result * Z * kvs_state
}.

(** A key space is known by the path of its device and its name. *)
Abbreviation space := (string * string)%type.

Class KvsView (K : KvsOps) := {
  (** open device handles with their paths, open key-space handles with the
      device handle and the name, and the pairs stored in a key space *)
  dev_path : kvs_state -> gmap Z string;
  ks_of : kvs_state -> gmap Z (Z * string);
  data : kvs_state -> space -> gmap bytes bytes
}.

Section derived.
Context `{L : KvsView}.

(** The key space an open handle stands for. *)
Definition space_of (st : kvs_state) (hd : Z) : option space :=
  match ks_of st !! hd with
  | Some (dh, name) => (fun p => (p, name)) <$> dev_path st !! dh
  | None => None
  end.

(** The call touched no handle. *)
Definition same_handles (st st' : kvs_state) : Prop :=
  dev_path st' = dev_path st /\ ks_of st' = ks_of st.

(** The call changed at most the pair [k] of the key space [s]. *)
Definition touches_only (s : space) (k : bytes) (st st' : kvs_state) : Prop :=
  same_handles st st' /\
  forall s' k', (s', k') <> (s, k) -> data st' s' !! k' = data st s' !! k'.

(** The pairs of the key spaces that are open do not change. *)
Definition keeps_open_data (st st' : kvs_state) : Prop :=
  forall hd s, space_of st hd = Some s -> data st' s = data st s.
End derived.

(** The documented behaviour.  A call that fails for an application-level reason
    changes nothing; a device fault may leave the pair in the old or in the new
    state. *)
Class KvsSpec (K : KvsOps) (L : KvsView K) : Prop := {
  (** a key-space handle belongs to an open device *)
  ks_dev_open st hd h name : ks_of st !! hd = Some (h, name) -> is_Some (dev_path st !! h);
  open_device_spec p st r h st' :
    kvs_open_device p st = (r, h, st') ->
    if decide (r = KVS_SUCCESS) then
      h <> 0 /\ dev_path st !! h = None /\ dev_path st' = <[h := p]> (dev_path st) /\
      ks_of st' = ks_of st /\ keeps_open_data st st'
    else same_handles st st' /\ keeps_open_data st st';
  (** closing a device closes what was opened on it *)
  close_device_spec h st r st' :
    kvs_close_device h st = (r, st') -> is_Some (dev_path st !! h) ->
    dev_path st' = delete h (dev_path st) /\
    ks_of st' = filter (fun x => x.2.1 <> h) (ks_of st) /\
    (forall hd s, space_of st' hd = Some s -> data st' s = data st s);
  open_key_space_spec h name st r hd st' :
    kvs_open_key_space h name st = (r, hd, st') ->
    if decide (r = KVS_SUCCESS) then
      hd <> 0 /\ is_Some (dev_path st !! h) /\ ks_of st !! hd = None /\
      dev_path st' = dev_path st /\ ks_of st' = <[hd := (h, name)]> (ks_of st) /\
      keeps_open_data st st'
    else same_handles st st' /\ keeps_open_data st st';
  create_key_space_spec h name st r st' :
    kvs_create_key_space h name st = (r, st') ->
    same_handles st st' /\ keeps_open_data st st';
  (** a failed close leaves the handle open *)
  close_key_space_spec hd st r st' :
    kvs_close_key_space hd st = (r, st') ->
    dev_path st' = dev_path st /\
    ks_of st' = (if decide (r = KVS_SUCCESS) then delete hd (ks_of st) else ks_of st) /\
    keeps_open_data st st';
  store_spec hd k v opt st s r st' :
    kvs_store_kvp hd k v opt st = (r, st') -> space_of st hd = Some s ->
    touches_only s k st st' /\
    (r = KVS_SUCCESS -> data st' s !! k = Some v /\
       (opt = KVS_STORE_NOOVERWRITE -> data st s !! k = None)) /\
    (r = KVS_ERR_VALUE_UPDATE_NOT_ALLOWED ->
       opt = KVS_STORE_NOOVERWRITE /\ is_Some (data st s !! k)) /\
    (r <> KVS_SUCCESS -> data st' s !! k = data st s !! k \/
       is_device_error r = true /\ data st' s !! k = Some v);
  retrieve_spec hd k del len st s r out st' :
    kvs_retrieve_kvp hd k del len st = (r, out, st') -> space_of st hd = Some s -> 0 <= len ->
    touches_only s k st st' /\
    (Z.of_nat (length (rt_data out)) <= len) /\
    (r = KVS_SUCCESS ->
       data st s !! k = Some (rt_data out) /\
       rt_length out = Z.of_nat (length (rt_data out)) /\
       rt_actual_value_size out = Z.of_nat (length (rt_data out)) /\
       data st' s !! k = (if del then None else Some (rt_data out))) /\
    (r = KVS_ERR_BUFFER_SMALL -> exists v,
       data st s !! k = Some v /\ len < Z.of_nat (length v) < 2 ^ 32 /\
       rt_actual_value_size out = Z.of_nat (length v)) /\
    (r = KVS_ERR_KEY_NOT_EXIST -> data st s !! k = None) /\
    (r <> KVS_SUCCESS -> data st' s !! k = data st s !! k \/
       is_device_error r = true /\ del = true /\ data st' s !! k = None);
  delete_spec hd k err st s r st' :
    kvs_delete_kvp hd k err st = (r, st') -> space_of st hd = Some s ->
    touches_only s k st st' /\
    (r = KVS_SUCCESS -> data st' s !! k = None) /\
    (r <> KVS_SUCCESS -> data st' s !! k = data st s !! k \/
       is_device_error r = true /\ data st' s !! k = None);
  exist_spec hd k st s r b st' :
    kvs_exist_kv_pairs hd k st = (r, b, st') -> space_of st hd = Some s ->
    same_handles st st' /\ (forall s', data st' s' = data st s') /\
    (r = KVS_SUCCESS -> b <> 0 <-> is_Some (data st s !! k));
  capacity_spec h st r n st' :
    kvs_get_device_capacity h st = (r, n, st') ->
    same_handles st st' /\ (forall s, data st' s = data st s);
  utilization_spec h st r n st' :
    kvs_get_device_utilization h st = (r, n, st') ->
    same_handles st st' /\ (forall s, data st' s = data st s)
}.
