(* ===== verification/Emulator.v ===== *)
(** * The emulator backend (lib/KVSSD: kv_emulator.cpp, kvemuldriver.cpp, cfrontend.cpp)

    The key-value operations of [kv_emulator], without its iterators and its
    latency model, under a front end that keeps the open handles.  It is shown to
    keep the laws of [KvsApi.v]; a device may be [broken], which makes its calls
    fail with KVS_ERR_SYS_IO. *)
From S2P Require Import Prelude KvTypes KvsApi.

(** ** The device *)

Inductive kv_result : Set :=
| E_SUCCESS | E_DEV_CAPACITY | E_OPTION_INVALID | E_KEY_EXIST | E_KEY_NOT_EXIST | E_BUFFER_SMALL
| E_VALUE_OFFSET_INVALID.

#[global] Instance emu_result_eq_dec : EqDecision kv_result.
Proof. solve_decision. Defined.

(** The entries of [code_map] these operations can produce. *)
Definition convert_return_code (r : kv_result) : kvs_result :=
  match r with
  | E_SUCCESS => KVS_SUCCESS
  | E_DEV_CAPACITY => KVS_ERR_KS_CAPACITY
  | E_OPTION_INVALID => KVS_ERR_OPTION_INVALID
  | E_KEY_EXIST => KVS_ERR_VALUE_UPDATE_NOT_ALLOWED
  | E_KEY_NOT_EXIST => KVS_ERR_KEY_NOT_EXIST
  | E_BUFFER_SMALL => KVS_ERR_BUFFER_SMALL
  | E_VALUE_OFFSET_INVALID => KVS_ERR_VALUE_OFFSET_INVALID
  end.

Inductive kv_store_option : Set :=
| KV_STORE_OPT_DEFAULT | KV_STORE_OPT_UPDATE_ONLY | KV_STORE_OPT_IDEMPOTENT | KV_STORE_OPT_APPEND.

Definition store_option (o : kvs_store_type) : kv_store_option :=
  match o with
  | KVS_STORE_POST => KV_STORE_OPT_DEFAULT
  | KVS_STORE_UPDATE_ONLY => KV_STORE_OPT_UPDATE_ONLY
  | KVS_STORE_NOOVERWRITE => KV_STORE_OPT_IDEMPOTENT
  | KVS_STORE_APPEND => KV_STORE_OPT_APPEND
  end.

(** [kv_emulator]: one map per key space, here indexed by its name. *)
Record kv_emulator := Emu {
  m_map : gmap string (gmap bytes bytes);
  m_capacity : Z;
  m_available : Z
}.

Definition ks_map (e : kv_emulator) (ks : string) : gmap bytes bytes := default ∅ (m_map e !! ks).
Definition set_ks (ks : string) (M : gmap bytes bytes) (avail : Z) (e : kv_emulator) : kv_emulator :=
  Emu (<[ks := M]> (m_map e)) (m_capacity e) (u64 avail).

Definition blen (l : bytes) : Z := Z.of_nat (length l).

Definition kv_store (ks : string) (key value : bytes) (option : kv_store_option) (e : kv_emulator)
    : kv_result * kv_emulator :=
  if (m_capacity e <=? 0) && (m_available e <? u32 (blen value + blen key)) then (E_DEV_CAPACITY, e)
  else match option with
  | KV_STORE_OPT_UPDATE_ONLY | KV_STORE_OPT_APPEND => (E_OPTION_INVALID, e)
  | _ =>
    match ks_map e ks !! key with
    | Some old =>
      match option with
      | KV_STORE_OPT_IDEMPOTENT => (E_KEY_EXIST, e)
      | _ => (E_SUCCESS, set_ks ks (<[key := value]> (ks_map e ks))
                           (m_available e - (blen value + blen old)) e)
      end
    | None => (E_SUCCESS, set_ks ks (<[key := value]> (ks_map e ks))
                            (m_available e - (blen key + blen value)) e)
    end
  end.

(** [kv_retrieve]: [offset] and [len] are the fields of the caller's [kv_value]. *)
Definition kv_retrieve (ks : string) (key : bytes) (delete_opt : bool) (offset len : Z)
    (e : kv_emulator) : kv_result * kvs_retrieved :=
  if delete_opt then (E_OPTION_INVALID, Retrieved [] len 0)
  else match ks_map e ks !! key with
  | None => (E_KEY_NOT_EXIST, Retrieved [] len 0)
  | Some v =>
    let dlen := u32 (blen v) in
    if negb (offset =? 0) && (dlen <=? offset) then (E_VALUE_OFFSET_INVALID, Retrieved [] len 0)
    else
    let copylen := Z.min (dlen - offset) len in
    (if len <? dlen - offset then E_BUFFER_SMALL else E_SUCCESS,
     Retrieved (take (Z.to_nat copylen) (drop (Z.to_nat offset) v)) copylen dlen)
  end.

(** The loop of [kv_exist]: bit [bitpos] of the buffer tells whether key [bitpos] is there. *)
Fixpoint exist_bits (M : gmap bytes bytes) (bitpos : nat) (keys : list bytes) (buffers : list Z)
    : list Z :=
  match keys with
  | [] => buffers
  | key :: keys' =>
    let setidx := (bitpos / 8)%nat in
    let bitoffset := Z.of_nat (bitpos - setidx * 8) in
    exist_bits M (S bitpos) keys'
      (match M !! key with
       | Some _ => alter (fun b => Z.lor b (Z.shiftl 1 bitoffset)) setidx buffers
       | None => buffers
       end)
  end.

Definition kv_exist (ks : string) (keys : list bytes) (buffer_size : Z) (e : kv_emulator)
    : kv_result * list Z :=
  let keycount := Z.of_nat (length keys) in
  if keycount =? 0 then (E_SUCCESS, [])
  else
  let bytes_to_write := (keycount - 1) / 8 + 1 in
  if buffer_size <? bytes_to_write then (E_BUFFER_SMALL, [])
  else (E_SUCCESS, exist_bits (ks_map e ks) 0 keys (replicate (Z.to_nat bytes_to_write) 0)).

Definition kv_delete (ks : string) (key : bytes) (error_opt : bool) (e : kv_emulator)
    : kv_result * kv_emulator :=
  match ks_map e ks !! key with
  | Some v => (E_SUCCESS, set_ks ks (delete key (ks_map e ks))
                            (m_available e + u32 (blen key + blen v)) e)
  | None => (if error_opt then E_KEY_NOT_EXIST else E_SUCCESS, e)
  end.

(** ** The front end *)

Record lib := Lib {
  l_next : Z;                         (** the next handle *)
  l_devs : gmap Z string;             (** open devices *)
  l_kss : gmap Z (Z * string);        (** open key spaces *)
  l_emus : gmap string kv_emulator;   (** the devices there are, by path *)
  l_broken : gset string
}.

Definition lib_ok (l : lib) : Prop :=
  0 < l_next l /\
  (forall h, is_Some (l_devs l !! h) -> h < l_next l) /\
  (forall hd x, l_kss l !! hd = Some x -> hd < l_next l /\ is_Some (l_devs l !! x.1)) /\
  (forall p e ks k v, l_emus l !! p = Some e -> ks_map e ks !! k = Some v -> blen v < 2 ^ 32).

Definition lib_state : Type := { l : lib | lib_ok l }.

Definition with_emus (m : gmap string kv_emulator) (l : lib) : lib :=
  Lib (l_next l) (l_devs l) (l_kss l) m (l_broken l).

(** The device and the name behind an open key-space handle. *)
Definition find_ks (hd : Z) (l : lib) : option (string * string * kv_emulator) :=
  x ← l_kss l !! hd; p ← l_devs l !! x.1; e ← l_emus l !! p; Some (p, x.2, e).

Definition lib_open_device (p : string) (l : lib) : kvs_result * Z * lib :=
  match l_emus l !! p with
  | None => (KVS_ERR_DEV_NOT_EXIST, 0, l)
  | Some _ =>
    if bool_decide (map_Exists (fun _ p' => p' = p) (l_devs l)) then (KVS_ERR_SYS_IO, 0, l)
    else (KVS_SUCCESS, l_next l,
          Lib (l_next l + 1) (<[l_next l := p]> (l_devs l)) (l_kss l) (l_emus l) (l_broken l))
  end.

Definition lib_close_device (h : Z) (l : lib) : kvs_result * lib :=
  match l_devs l !! h with
  | None => (KVS_ERR_DEV_NOT_OPENED, l)
  | Some _ =>
    (KVS_SUCCESS, Lib (l_next l) (delete h (l_devs l))
       (filter (fun x => x.2.1 <> h) (l_kss l)) (l_emus l) (l_broken l))
  end.

Definition lib_open_key_space (h : Z) (name : string) (l : lib) : kvs_result * Z * lib :=
  match p ← l_devs l !! h; l_emus l !! p with
  | None => (KVS_ERR_DEV_NOT_EXIST, 0, l)
  | Some e =>
    if bool_decide (map_Exists (fun _ x => x = (h, name)) (l_kss l)) then (KVS_ERR_KS_OPEN, 0, l)
    else match m_map e !! name with
    | None => (KVS_ERR_KS_NOT_EXIST, 0, l)
    | Some _ =>
      (KVS_SUCCESS, l_next l,
       Lib (l_next l + 1) (l_devs l) (<[l_next l := (h, name)]> (l_kss l)) (l_emus l) (l_broken l))
    end
  end.

Definition lib_create_key_space (h : Z) (name : string) (l : lib) : kvs_result * lib :=
  match p ← l_devs l !! h; e ← l_emus l !! p; Some (p, e) with
  | None => (KVS_ERR_DEV_NOT_EXIST, l)
  | Some (p, e) =>
    match m_map e !! name with
    | Some _ => (KVS_ERR_KS_EXIST, l)
    | None => (KVS_SUCCESS, with_emus (<[p := set_ks name ∅ (m_available e) e]> (l_emus l)) l)
    end
  end.

Definition lib_close_key_space (hd : Z) (l : lib) : kvs_result * lib :=
  match l_kss l !! hd with
  | None => (KVS_ERR_KS_NOT_OPEN, l)
  | Some _ => (KVS_SUCCESS, Lib (l_next l) (l_devs l) (delete hd (l_kss l)) (l_emus l) (l_broken l))
  end.

(** A key-value call through a handle; the values it stores fit 32 bits. *)
Definition on_ks {A} (hd : Z) (dflt : A) (f : string -> kv_emulator -> kvs_result * A * kv_emulator)
    (l : lib) : kvs_result * A * lib :=
  match find_ks hd l with
  | None => (KVS_ERR_KS_NOT_OPEN, dflt, l)
  | Some (p, name, e) =>
    if bool_decide (p ∈ l_broken l) then (KVS_ERR_SYS_IO, dflt, l)
    else let '(r, a, e') := f name e in (r, a, with_emus (<[p := e']> (l_emus l)) l)
  end.

Definition lib_store (hd : Z) (k v : bytes) (o : kvs_store_type) (l : lib) : kvs_result * lib :=
  if 2 ^ 32 <=? blen v then (KVS_ERR_VALUE_LENGTH_INVALID, l) else
  let '(r, _, l') := on_ks hd tt (fun ks e =>
    let '(r, e') := kv_store ks k v (store_option o) e in (convert_return_code r, tt, e')) l in
  (r, l').

Definition lib_retrieve (hd : Z) (k : bytes) (del : bool) (len : Z) (l : lib)
    : kvs_result * kvs_retrieved * lib :=
  on_ks hd (Retrieved [] len 0) (fun ks e =>
    let '(r, out) := kv_retrieve ks k del 0 len e in (convert_return_code r, out, e)) l.

Definition lib_delete (hd : Z) (k : bytes) (err : bool) (l : lib) : kvs_result * lib :=
  let '(r, _, l') := on_ks hd tt (fun ks e =>
    let '(r, e') := kv_delete ks k err e in (convert_return_code r, tt, e')) l in
  (r, l').

Definition lib_exist (hnd : Z) (k : bytes) (l : lib) : kvs_result * Z * lib :=
  on_ks hnd 0 (fun ks e =>
    let '(r, buf) := kv_exist ks [k] 1 e in (convert_return_code r, hd 0 buf, e)) l.

(** Capacity and utilization of an open device. *)
Definition lib_query (f : kv_emulator -> Z) (h : Z) (l : lib) : kvs_result * Z :=
  match p ← l_devs l !! h; e ← l_emus l !! p; Some (p, e) with
  | None => (KVS_ERR_DEV_NOT_OPENED, 0)
  | Some (p, e) => if bool_decide (p ∈ l_broken l) then (KVS_ERR_SYS_IO, 0) else (KVS_SUCCESS, f e)
  end.

Definition utilization (e : kv_emulator) : Z :=
  (m_capacity e - m_available e) * 10000 / m_capacity e.

(** ** The device operations *)

Lemma ks_map_set ks M a e ks' :
  ks_map (set_ks ks M a e) ks' = if decide (ks' = ks) then M else ks_map e ks'.
Proof.
  unfold ks_map, set_ks. simpl. case_decide; subst; [by rewrite lookup_insert_eq|].
  by rewrite lookup_insert_ne.
Qed.

(** [upd e e' ks k x]: exactly the pair [k] of [ks] was set to [x]. *)
Definition upd (e e' : kv_emulator) (ks : string) (k : bytes) (x : option bytes) : Prop :=
  forall ks' k', ks_map e' ks' !! k' =
    if decide (ks' = ks /\ k' = k) then x else ks_map e ks' !! k'.

Lemma upd_refl e ks k : upd e e ks k (ks_map e ks !! k).
Proof. intros ks' k'. case_decide as H; [|done]. by destruct H as [-> ->]. Qed.

Lemma upd_insert e ks k v a : upd e (set_ks ks (<[k := v]> (ks_map e ks)) a e) ks k (Some v).
Proof.
  intros ks' k'. rewrite ks_map_set. repeat case_decide; subst; try naive_solver.
  - destruct_and!. subst. by rewrite lookup_insert_eq.
  - rewrite lookup_insert_ne; [done|]. naive_solver.
Qed.

Lemma upd_delete e ks k a : upd e (set_ks ks (delete k (ks_map e ks)) a e) ks k None.
Proof.
  intros ks' k'. rewrite ks_map_set. repeat case_decide; subst; try naive_solver.
  - destruct_and!. subst. by rewrite lookup_delete_eq.
  - rewrite lookup_delete_ne; [done|]. naive_solver.
Qed.

Lemma kv_store_spec ks k v o e r e' :
  kv_store ks k v o e = (r, e') ->
  upd e e' ks k (if decide (r = E_SUCCESS) then Some v else ks_map e ks !! k) /\
  (r = E_SUCCESS -> o = KV_STORE_OPT_IDEMPOTENT -> ks_map e ks !! k = None) /\
  (r = E_KEY_EXIST -> o = KV_STORE_OPT_IDEMPOTENT /\ is_Some (ks_map e ks !! k)).
Proof.
  unfold kv_store. intros H.
  repeat (case_match; simplify_eq); split_and!; try done; eauto;
    first [apply upd_refl | apply upd_insert
          | match goal with E : _ !! _ = Some _ |- _ => rewrite <- E end; apply upd_refl].
Qed.

Lemma kv_delete_spec ks k err e r e' :
  kv_delete ks k err e = (r, e') -> upd e e' ks k None \/ e' = e /\ ks_map e ks !! k = None.
Proof.
  unfold kv_delete. intros H. repeat (case_match; simplify_eq); try (by right).
  left. apply upd_delete.
Qed.

Lemma kv_retrieve_spec ks k del len e r out :
  (forall v, ks_map e ks !! k = Some v -> blen v < 2 ^ 32) -> 0 <= len ->
  kv_retrieve ks k del 0 len e = (r, out) ->
  blen (rt_data out) <= len /\
  (r = E_SUCCESS -> del = false /\ ks_map e ks !! k = Some (rt_data out) /\
     rt_length out = blen (rt_data out) /\ rt_actual_value_size out = blen (rt_data out)) /\
  (r = E_BUFFER_SMALL -> exists v, ks_map e ks !! k = Some v /\ len < blen v < 2 ^ 32 /\
     rt_actual_value_size out = blen v) /\
  (r = E_KEY_NOT_EXIST -> ks_map e ks !! k = None).
Proof.
  intros Hv Hlen. unfold kv_retrieve. destruct del; [by intros [= <- <-]|].
  destruct (ks_map e ks !! k) as [v|] eqn:E; [|by intros [= <- <-]].
  specialize (Hv v eq_refl). assert (in_word 32 (blen v)) by (unfold in_word, blen in *; lia).
  rewrite wrap_small by done. simpl. rewrite Z.sub_0_r, drop_0. case_if El; intros [= <- <-]; bool_to_prop; unfold blen in *; simpl.
  - rewrite length_take. split_and!; try done; [lia|]. exists v. split_and!; try done; lia.
  - rewrite Z.min_l, Nat2Z.id, firstn_all by lia. split_and!; try done; lia.
Qed.

(** ** The front end keeps its invariant *)

Lemma with_emus_ok l p e' e ks k x :
  lib_ok l -> l_emus l !! p = Some e -> upd e e' ks k x ->
  (forall v, x = Some v -> blen v < 2 ^ 32) ->
  lib_ok (with_emus (<[p := e']> (l_emus l)) l).
Proof.
  intros (Hn & Hd & Hk & Hv) He Hu Hx. split_and!; try done. simpl.
  intros p' e0 ks' k' v. rewrite lookup_insert_Some. intros [[<- <-]|[_ Hp]]; [|by eapply Hv].
  rewrite Hu. case_decide; [by apply Hx|by eapply Hv].
Qed.

Lemma find_ks_Some hd l p name e :
  find_ks hd l = Some (p, name, e) ->
  exists dh, l_kss l !! hd = Some (dh, name) /\ l_devs l !! dh = Some p /\ l_emus l !! p = Some e.
Proof.
  unfold find_ks. destruct (l_kss l !! hd) as [[dh n]|]; simpl; [|done].
  destruct (l_devs l !! dh) as [p'|] eqn:E; simpl; [|done].
  destruct (l_emus l !! p') as [e'|] eqn:E'; simpl; [|done]. intros. simplify_eq. eauto.
Qed.

(** A call through a handle either stops before the device, or is the device's. *)
Lemma on_ks_cases {A} hd (d : A) f l r a l' :
  on_ks hd d f l = (r, a, l') ->
  (l' = l /\ a = d /\ (r = KVS_ERR_KS_NOT_OPEN \/ r = KVS_ERR_SYS_IO)) \/
  (exists p name e e' dh, l_kss l !! hd = Some (dh, name) /\ l_devs l !! dh = Some p /\
     l_emus l !! p = Some e /\ f name e = (r, a, e') /\ l' = with_emus (<[p := e']> (l_emus l)) l).
Proof.
  unfold on_ks. destruct (find_ks hd l) as [[[p name] e]|] eqn:E.
  - apply find_ks_Some in E as (dh & ? & ? & ?). case_bool_decide; [intros [= <- <- <-]; auto|].
    destruct (f name e) as [[r' a'] e'] eqn:Ef. intros [= <- <- <-]. right. eauto 10.
  - intros [= <- <- <-]. auto.
Qed.

Lemma lib_open_device_ok p l : lib_ok l -> lib_ok (lib_open_device p l).2.
Proof.
  intros (Hn & Hd & Hk & Hv). unfold lib_open_device.
  destruct (l_emus l !! p) as [e|]; [|done]. case_bool_decide; [done|]. split_and!; simpl; try done.
  - lia.
  - intros h. rewrite lookup_insert. case_decide; [lia|]. intros Hs%Hd. lia.
  - intros hd x Hx. apply Hk in Hx as [? Hs]. split; [lia|]. rewrite lookup_insert.
    case_decide; eauto.
Qed.

Lemma lib_close_device_ok h l : lib_ok l -> lib_ok (lib_close_device h l).2.
Proof.
  intros (Hn & Hd & Hk & Hv). unfold lib_close_device. destruct (l_devs l !! h); [|done].
  split_and!; simpl; try done.
  - intros h'. rewrite lookup_delete. case_decide; [intros [? ?]; done|apply Hd].
  - intros hd x [Hx Hne]%map_lookup_filter_Some. simpl in Hne. apply Hk in Hx as [? ?].
    split; [done|]. by rewrite lookup_delete_ne.
Qed.

Lemma lib_open_key_space_ok h name l : lib_ok l -> lib_ok (lib_open_key_space h name l).2.
Proof.
  intros (Hn & Hd & Hk & Hv). unfold lib_open_key_space.
  destruct (l_devs l !! h) as [p|] eqn:Eh; simpl; [|done].
  destruct (l_emus l !! p) as [e|]; [|done]. case_bool_decide; [done|].
  destruct (m_map e !! name); [|done]. split_and!; simpl; try done.
  - lia.
  - intros h' Hs%Hd. lia.
  - intros hd x. rewrite lookup_insert_Some. intros [[<- <-]|[_ Hx]]; simpl.
    + split; [lia|eauto].
    + apply Hk in Hx as [? ?]. split; [lia|done].
Qed.

Lemma lib_create_key_space_ok h name l : lib_ok l -> lib_ok (lib_create_key_space h name l).2.
Proof.
  intros (Hn & Hd & Hk & Hv). unfold lib_create_key_space.
  destruct (l_devs l !! h) as [p|]; simpl; [|done].
  destruct (l_emus l !! p) as [e|] eqn:Ep; simpl; [|done].
  destruct (m_map e !! name); [done|]. split_and!; simpl; try done.
  intros p' e0 ks' k' v. rewrite lookup_insert_Some. intros [[<- <-]|[_ Hp]]; [|by eapply Hv].
  rewrite ks_map_set. case_decide; [by rewrite lookup_empty|by eapply Hv].
Qed.

Lemma lib_close_key_space_ok hd l : lib_ok l -> lib_ok (lib_close_key_space hd l).2.
Proof.
  intros (Hn & Hd & Hk & Hv). unfold lib_close_key_space. destruct (l_kss l !! hd); [|done].
  split_and!; simpl; try done. intros hd' x [_ Hx]%lookup_delete_Some. by apply Hk.
Qed.

Lemma lib_store_ok hd k v o l : lib_ok l -> lib_ok (lib_store hd k v o l).2.
Proof.
  intros Hok. unfold lib_store. destruct (2 ^ 32 <=? blen v) eqn:Ev; [done|]. bool_to_prop.
  destruct (on_ks _ _ _ _) as [[r a] l'] eqn:E. simpl.
  apply on_ks_cases in E as [(-> & _)|(p & n & e & e' & dh & _ & _ & He & Hf & ->)]; [done|].
  destruct (kv_store n k v _ e) as [r0 e0] eqn:Es. simplify_eq.
  apply kv_store_spec in Es as (Hu & _). eapply with_emus_ok; [done|done|done|].
  intros v'. case_decide; [by intros [= <-]|]. intros. by eapply Hok.
Qed.

Lemma lib_retrieve_same hd k del len l : lib_ok l -> lib_ok (lib_retrieve hd k del len l).2.
Proof.
  intros Hok. unfold lib_retrieve. destruct (on_ks _ _ _ _) as [[r a] l'] eqn:E. simpl.
  apply on_ks_cases in E as [(-> & _)|(p & n & e & e' & dh & _ & _ & He & Hf & ->)]; [done|].
  destruct (kv_retrieve _ _ _ _ _ _). simplify_eq.
  unfold with_emus. rewrite insert_id by done. by destruct l.
Qed.

Lemma lib_exist_same hd k l : lib_ok l -> lib_ok (lib_exist hd k l).2.
Proof.
  intros Hok. unfold lib_exist. destruct (on_ks _ _ _ _) as [[r a] l'] eqn:E. simpl.
  apply on_ks_cases in E as [(-> & _)|(p & n & e & e' & dh & _ & _ & He & Hf & ->)]; [done|].
  simpl in Hf. simplify_eq. unfold with_emus. rewrite insert_id by done. by destruct l.
Qed.

Lemma lib_delete_ok hd k err l : lib_ok l -> lib_ok (lib_delete hd k err l).2.
Proof.
  intros Hok. unfold lib_delete. destruct (on_ks _ _ _ _) as [[r a] l'] eqn:E. simpl.
  apply on_ks_cases in E as [(-> & _)|(p & n & e & e' & dh & _ & _ & He & Hf & ->)]; [done|].
  destruct (kv_delete n k err e) as [r0 e0] eqn:Es. simplify_eq.
  apply kv_delete_spec in Es as [Hu|[-> _]].
  - by eapply with_emus_ok.
  - unfold with_emus. rewrite insert_id by done. by destruct l.
Qed.

(** ** The interface *)

Definition pack {A} (f : lib -> A * lib) (Hf : forall l, lib_ok l -> lib_ok (f l).2)
    (st : lib_state) : A * lib_state :=
  ((f (`st)).1, exist _ (f (`st)).2 (Hf _ (proj2_sig st))).

#[export] Instance emu_kvs : KvsOps := {|
  kvs_state := lib_state;
  kvs_open_device p := pack (lib_open_device p) (lib_open_device_ok p);
  kvs_close_device h := pack (lib_close_device h) (lib_close_device_ok h);
  kvs_open_key_space h n := pack (lib_open_key_space h n) (lib_open_key_space_ok h n);
  kvs_create_key_space h n := pack (lib_create_key_space h n) (lib_create_key_space_ok h n);
  kvs_close_key_space hd := pack (lib_close_key_space hd) (lib_close_key_space_ok hd);
  kvs_store_kvp hd k v o := pack (lib_store hd k v o) (lib_store_ok hd k v o);
  kvs_retrieve_kvp hd k del len := pack (lib_retrieve hd k del len) (lib_retrieve_same hd k del len);
  kvs_delete_kvp hd k err := pack (lib_delete hd k err) (lib_delete_ok hd k err);
  kvs_exist_kv_pairs hd k := pack (lib_exist hd k) (lib_exist_same hd k);
  kvs_get_device_capacity h st := (lib_query m_capacity h (`st), st);
  kvs_get_device_utilization h st := (lib_query utilization h (`st), st)
|}.

Definition emu_data (l : lib) (s : space) : gmap bytes bytes :=
  match l_emus l !! s.1 with Some e => ks_map e s.2 | None => ∅ end.

#[export] Instance emu_view : KvsView emu_kvs := {|
  dev_path st := l_devs (`st);
  ks_of st := l_kss (`st);
  data st := emu_data (`st)
|}.

Lemma pack_inv {A} (f : lib -> A * lib) Hf st a st' :
  pack f Hf st = (a, st') -> f (`st) = (a, `st').
Proof. unfold pack. intros [= <- <-]. simpl. by destruct (f (`st)). Qed.

(** What a call through a handle does, seen from outside. *)
Lemma on_ks_view {A} hd (d : A) f (st st' : lib_state) r a s :
  on_ks hd d f (`st) = (r, a, `st') -> space_of st hd = Some s ->
  (`st' = `st /\ a = d /\ (r = KVS_ERR_KS_NOT_OPEN \/ r = KVS_ERR_SYS_IO)) \/
  (exists e e', l_emus (`st) !! s.1 = Some e /\ f s.2 e = (r, a, e') /\
     `st' = with_emus (<[s.1 := e']> (l_emus (`st))) (`st)).
Proof.
  intros [H|(p & n & e & e' & dh & H1 & H2 & H3 & H4 & H5)]%on_ks_cases Hs; [by left|right].
  unfold space_of in Hs. simpl in Hs. rewrite H1, H2 in Hs. simpl in Hs. simplify_eq. eauto.
Qed.

Lemma emu_data_same (st st' : lib_state) s : `st' = `st -> data st' s = data st s.
Proof. simpl. by intros ->. Qed.

Lemma touches_only_same (st st' : lib_state) s k : `st' = `st -> touches_only s k st st'.
Proof. intros E. unfold touches_only, same_handles. simpl. by rewrite E. Qed.

(** Writing back a device with one pair changed. *)
Lemma emu_upd_view (st st' : lib_state) (s : space) e e' k x :
  l_emus (`st) !! s.1 = Some e -> upd e e' s.2 k x ->
  `st' = with_emus (<[s.1 := e']> (l_emus (`st))) (`st) ->
  touches_only s k st st' /\ data st s = ks_map e s.2 /\ data st' s !! k = x.
Proof.
  intros He Hu Hst. unfold touches_only, same_handles. simpl. rewrite Hst. simpl.
  unfold emu_data. simpl. rewrite He, lookup_insert_eq, Hu, decide_True by done.
  split_and!; try done. intros s' k' Hne. rewrite lookup_insert. case_decide as Hp; [|done].
  rewrite <- Hp, He, Hu. case_decide as Hc; [|done]. destruct Hc, s, s'. simpl in *. congruence.
Qed.

Lemma convert_success r : convert_return_code r = KVS_SUCCESS <-> r = E_SUCCESS.
Proof. by destruct r. Qed.

Lemma emu_keeps_same (st st' : lib_state) : l_emus (`st') = l_emus (`st) -> keeps_open_data st st'.
Proof. intros E hd s _. simpl. unfold emu_data. by rewrite E. Qed.

(** *** The laws *)

Lemma fresh_lookup {A} (m : gmap Z A) n :
  (forall h, is_Some (m !! h) -> h < n) -> m !! n = None.
Proof. intros H. apply eq_None_not_Some. intros Hs%H. lia. Qed.

Lemma emu_open_device p (st st' : lib_state) r h :
  kvs_open_device p st = (r, h, st') ->
  if decide (r = KVS_SUCCESS) then
    h <> 0 /\ dev_path st !! h = None /\ dev_path st' = <[h := p]> (dev_path st) /\
    ks_of st' = ks_of st /\ keeps_open_data st st'
  else same_handles st st' /\ keeps_open_data st st'.
Proof.
  intros H%pack_inv. pose proof (proj2_sig st) as (Hn & Hd & _). unfold same_handles. simpl.
  unfold lib_open_device in H. destruct (l_emus (`st) !! p) as [e|]; [case_bool_decide|];
    simplify_eq; case_decide; try done; try (by split; [split; congruence|apply emu_keeps_same; congruence]).
  match goal with E : Lib _ _ _ _ _ = _ |- _ => pose proof E as E' end.
  rewrite <- E'. simpl. split_and!; try done; [lia|by apply fresh_lookup|].
  apply emu_keeps_same. by rewrite <- E'.
Qed.

Lemma emu_close_device h (st st' : lib_state) r :
  kvs_close_device h st = (r, st') -> is_Some (dev_path st !! h) ->
  dev_path st' = delete h (dev_path st) /\
  ks_of st' = filter (fun x => x.2.1 <> h) (ks_of st) /\
  (forall hd s, space_of st' hd = Some s -> data st' s = data st s).
Proof.
  intros H%pack_inv [p Hp]. simpl in *. unfold lib_close_device in H. rewrite Hp in H.
  simplify_eq. match goal with E : Lib _ _ _ _ _ = _ |- _ => rewrite <- E end. simpl.
  by split_and!.
Qed.

Lemma emu_open_key_space h name (st st' : lib_state) r hd :
  kvs_open_key_space h name st = (r, hd, st') ->
  if decide (r = KVS_SUCCESS) then
    hd <> 0 /\ is_Some (dev_path st !! h) /\ ks_of st !! hd = None /\
    dev_path st' = dev_path st /\ ks_of st' = <[hd := (h, name)]> (ks_of st) /\
    keeps_open_data st st'
  else same_handles st st' /\ keeps_open_data st st'.
Proof.
  intros H%pack_inv. pose proof (proj2_sig st) as (Hn & Hd & Hk & _). unfold same_handles. simpl.
  unfold lib_open_key_space in H. destruct (l_devs (`st) !! h) as [p|] eqn:Ep; simpl in H;
    [destruct (l_emus (`st) !! p) as [e|]; [case_bool_decide; [|destruct (m_map e !! name)]|]|];
    simplify_eq; case_decide; try done; try (by split; [split; congruence|apply emu_keeps_same; congruence]).
  match goal with E : Lib _ _ _ _ _ = _ |- _ => pose proof E as E' end.
  rewrite <- E'. simpl. split_and!; try done; [lia| |].
  - apply fresh_lookup. intros h' [x Hx]. by apply Hk in Hx as [? _].
  - apply emu_keeps_same. by rewrite <- E'.
Qed.

Lemma emu_create_key_space h name (st st' : lib_state) r :
  kvs_create_key_space h name st = (r, st') -> same_handles st st' /\ keeps_open_data st st'.
Proof.
  intros H%pack_inv. unfold lib_create_key_space in H.
  destruct (l_devs (`st) !! h) as [p|] eqn:Ep; simpl in H;
    [destruct (l_emus (`st) !! p) as [e|] eqn:Ee; simpl in H; [destruct (m_map e !! name) eqn:Em|]|];
    simplify_eq; try (by split; [split; simpl; congruence|apply emu_keeps_same; congruence]).
  match goal with E : with_emus _ _ = _ |- _ => pose proof E as E' end.
  unfold same_handles. simpl. rewrite <- E'. simpl. split; [done|].
  intros hd s _. simpl. unfold emu_data. rewrite <- E'. simpl. rewrite lookup_insert.
  case_decide as Hc; [|done]. rewrite <- Hc, Ee, ks_map_set. case_decide as Hd; [|done].
  subst name. unfold ks_map. by rewrite Em.
Qed.

Lemma emu_close_key_space hd (st st' : lib_state) r :
  kvs_close_key_space hd st = (r, st') ->
  dev_path st' = dev_path st /\
  ks_of st' = (if decide (r = KVS_SUCCESS) then delete hd (ks_of st) else ks_of st) /\
  keeps_open_data st st'.
Proof.
  intros H%pack_inv. unfold lib_close_key_space in H. simpl.
  destruct (l_kss (`st) !! hd) eqn:E; simplify_eq; case_decide; try done.
  - match goal with E : Lib _ _ _ _ _ = _ |- _ => pose proof E as E' end. rewrite <- E'.
    split_and!; try done; apply emu_keeps_same; by rewrite <- E'.
  - split_and!; try congruence. apply emu_keeps_same. congruence.
Qed.

Lemma emu_store hd k v o (st st' : lib_state) s r :
  kvs_store_kvp hd k v o st = (r, st') -> space_of st hd = Some s ->
  touches_only s k st st' /\
  (r = KVS_SUCCESS -> data st' s !! k = Some v /\
     (o = KVS_STORE_NOOVERWRITE -> data st s !! k = None)) /\
  (r = KVS_ERR_VALUE_UPDATE_NOT_ALLOWED ->
     o = KVS_STORE_NOOVERWRITE /\ is_Some (data st s !! k)) /\
  (r <> KVS_SUCCESS -> data st' s !! k = data st s !! k \/
     is_device_error r = true /\ data st' s !! k = Some v).
Proof.
  intros H%pack_inv Hs. unfold lib_store in H. destruct (2 ^ 32 <=? blen v).
  { simplify_eq. split_and!; try done; [by apply touches_only_same|].
    left. f_equal. by apply emu_data_same. }
  destruct (on_ks _ _ _ _) as [[r0 u] l'] eqn:E. simplify_eq.
  apply (on_ks_view _ _ _ _ _ _ _ _ E) in Hs as [(E1 & _ & Hr)|(e & e' & He & Hf & E1)].
  { split_and!; [by apply touches_only_same|by destruct Hr as [->| ->]..|].
    left. f_equal. by apply emu_data_same. }
  destruct (kv_store _ _ _ _ _) as [r1 e1] eqn:Es. simplify_eq.
  apply kv_store_spec in Es as (Hu & Hid & Hex).
  destruct (emu_upd_view _ _ _ _ _ _ _ He Hu E1) as (Ht & Hd & Hx). rewrite Hd, Hx.
  split_and!; [done| | |].
  - rewrite convert_success. intros ->. split; [done|]. intros ->. by apply Hid.
  - intros Hc. destruct r1; try done. destruct (Hex eq_refl) as [Ho ?]. by destruct o.
  - rewrite convert_success. intros Hr. left. by rewrite decide_False.
Qed.

Lemma emu_retrieve hd k del len (st st' : lib_state) s r out :
  kvs_retrieve_kvp hd k del len st = (r, out, st') -> space_of st hd = Some s -> 0 <= len ->
  touches_only s k st st' /\
  (Z.of_nat (length (rt_data out)) <= len) /\
  (r = KVS_SUCCESS ->
     data st s !! k = Some (rt_data out) /\
     rt_length out = Z.of_nat (length (rt_data out)) /\
     rt_actual_value_size out = Z.of_nat (length (rt_data out)) /\
     data st' s !! k = (if del then None else Some (rt_data out))) /\
  (r = KVS_ERR_BUFFER_SMALL -> exists v,
     data st s !! k = Some v /\ len < Z.of_nat (length v) < 2 ^ 32 /\
     rt_actual_value_size out = Z.of_nat (length v)) /\
  (r = KVS_ERR_KEY_NOT_EXIST -> data st s !! k = None) /\
  (r <> KVS_SUCCESS -> data st' s !! k = data st s !! k \/
     is_device_error r = true /\ del = true /\ data st' s !! k = None).
Proof.
  intros H%pack_inv Hs Hlen.
  assert (`st' = `st /\ (out = Retrieved [] len 0 /\ (r = KVS_ERR_KS_NOT_OPEN \/ r = KVS_ERR_SYS_IO) \/
    exists e r0, l_emus (`st) !! s.1 = Some e /\ kv_retrieve s.2 k del 0 len e = (r0, out) /\
      r = convert_return_code r0)) as [Est Hc].
  { apply (on_ks_view _ _ _ _ _ _ _ _ H) in Hs as [(E1 & -> & Hr)|(e & e' & He & Hf & E1)];
      [by auto|]. destruct (kv_retrieve _ _ _ _ _ _) as [r1 o1] eqn:Er. simplify_eq. split; [|by eauto 10].
    rewrite E1. unfold with_emus. rewrite insert_id by done. by destruct (`st). }
  pose proof (emu_data_same _ _ s Est) as Hsame. rewrite Hsame.
  split; [by apply touches_only_same|].
  destruct Hc as [[-> Hr]|(e & r0 & He & Hk & ->)].
  { split_and!; try (by destruct Hr as [->| ->]); try done; by left. }
  assert (data st s = ks_map e s.2) as Hd by (simpl; unfold emu_data; by rewrite He).
  apply kv_retrieve_spec in Hk as (H1 & H2 & H3 & H4); [|intros v Hv; by eapply (proj2_sig st)|done].
  rewrite Hd. split_and!; [done| | |by destruct r0; auto|by left].
  - rewrite convert_success. intros (-> & ? & ? & ?)%H2. done.
  - destruct r0; try done. intros _. by apply H3.
Qed.

Lemma emu_delete hd k err (st st' : lib_state) s r :
  kvs_delete_kvp hd k err st = (r, st') -> space_of st hd = Some s ->
  touches_only s k st st' /\
  (r = KVS_SUCCESS -> data st' s !! k = None) /\
  (r <> KVS_SUCCESS -> data st' s !! k = data st s !! k \/
     is_device_error r = true /\ data st' s !! k = None).
Proof.
  intros H%pack_inv Hs. unfold lib_delete in H.
  destruct (on_ks _ _ _ _) as [[r0 u] l'] eqn:E. simplify_eq.
  apply (on_ks_view _ _ _ _ _ _ _ _ E) in Hs as [(E1 & _ & Hr)|(e & e' & He & Hf & E1)].
  { split_and!; [by apply touches_only_same|by destruct Hr as [->| ->]|].
    left. f_equal. by apply emu_data_same. }
  destruct (kv_delete _ _ _ _) as [r1 e1] eqn:Es. simplify_eq. pose proof Es as Es'.
  apply kv_delete_spec in Es as [Hu|[-> Hn]].
  - destruct (emu_upd_view _ _ _ _ _ _ _ He Hu E1) as (Ht & Hd & Hx). rewrite Hx.
    split; [done|]. split; [done|]. intros Hr. left. rewrite Hd. unfold kv_delete in Es'.
    by destruct (ks_map e s.2 !! k); simplify_eq.
  - assert (`st' = `st) as Est.
    { rewrite E1. unfold with_emus. rewrite insert_id by done. by destruct (`st). }
    assert (data st s = ks_map e s.2) as Hd by (simpl; unfold emu_data; by rewrite He).
    rewrite (emu_data_same _ _ s Est), Hd, Hn. split_and!; [by apply touches_only_same|done|by left].
Qed.

Lemma emu_exist hd k (st st' : lib_state) s r b :
  kvs_exist_kv_pairs hd k st = (r, b, st') -> space_of st hd = Some s ->
  same_handles st st' /\ (forall s', data st' s' = data st s') /\
  (r = KVS_SUCCESS -> b <> 0 <-> is_Some (data st s !! k)).
Proof.
  intros H%pack_inv Hs.
  apply (on_ks_view _ _ _ _ _ _ _ _ H) in Hs as [(E1 & -> & Hr)|(e & e' & He & Hf & E1)].
  - split_and!; [by apply touches_only_same with (k := k) (s := s)| |by destruct Hr as [->| ->]].
    intros. by apply emu_data_same.
  - simpl in Hf. simplify_eq. assert (`st' = `st) as Est.
    { rewrite E1. unfold with_emus. rewrite insert_id by done. by destruct (`st). }
    split_and!; [by apply touches_only_same with (k := k) (s := s)|intros; by apply emu_data_same|].
    intros _. simpl. unfold emu_data. rewrite He.
    destruct (ks_map _ s.2 !! k); split; try done; by intros [? ?].
Qed.

#[export] Instance emu_spec : KvsSpec emu_kvs emu_view.
Proof.
  split.
  - intros st hd h name Hk. by apply (proj2_sig st) in Hk as [_ ?].
  - intros p st r h st'. apply emu_open_device.
  - intros h st r st'. apply emu_close_device.
  - intros h n st r hd st'. apply emu_open_key_space.
  - intros h n st r st'. apply emu_create_key_space.
  - intros hd st r st'. apply emu_close_key_space.
  - intros hd k v o st s r st'. apply emu_store.
  - intros hd k del len st s r out st'. apply emu_retrieve.
  - intros hd k err st s r st'. apply emu_delete.
  - intros hd k st s r b st'. apply emu_exist.
  - intros h st r n st' [= _ <-]. done.
  - intros h st r n st' [= _ <-]. done.
Qed.
