(* ===== verification/MultiDevice.v ===== *)
(** * Devices (src/core/kv_engine_multi_device.c)

    The state the engine shares with the C library and the device library, the
    per-device context, path resolution, sharding, and opening and closing a
    device with its key space. *)
From S2P Require Import Prelude Libc KvTypes KvsApi.
From stdpp Require Import pretty.
Local Open Scope Z_scope.

(** ** The world the engine runs in *)

Record world `{KvsOps} := World { w_heap : heap; w_kvs : kvs_state }.
Arguments World {_} _ _.

Section world.
Context `{K : KvsOps}.

Definition set_heap (h : heap) (w : world) : world := World h (w_kvs w).
Definition on_heap {A} (m : prog heap A) : prog world A := zoom w_heap set_heap m.

(** A call into the device library. *)
Definition kvs {A} (f : kvs_state -> A * kvs_state) : prog world A := fun w =>
  let '(a, st) := f (w_kvs w) in Done a (World (w_heap w) st).
End world.

(** ** The per-device context *)

(** [kv_device_ctx_t]: handles and the owned path are pointers, 0 for NULL. *)
Record kv_device_ctx_t := DevCtx {
  dc_device : Z;
  dc_keyspace : Z;
  dc_device_path : Z;
  dc_healthy : bool;
  dc_consecutive_errors : Z;
  dc_total_errors : Z;
  dc_total_ops : Z;
  dc_max_consecutive_errors : Z
}.

(** After the [memset] of the engine. *)
Definition zero_ctx : kv_device_ctx_t := DevCtx 0 0 0 false 0 0 0 0.

(** ** Path resolution *)

(** [for (i = 0; i < config->num_devices; i++)], [n] entries to go. *)
Fixpoint resolve_loop (n : nat) (i : nat) (paths : list (option string)) (acc : list string)
    : option (list string) :=
  match n with
  | O => Some acc
  | S n' =>
    match mjoin (paths !! i) with
    | None => None
    | Some p => resolve_loop n' (S i) paths (acc ++ [p])
    end
  end.

(** [outs] tells whether both output pointers are non-null. *)
Definition kv_engine_resolve_device_paths (config : option kv_engine_config_t) (outs : bool)
    : kv_result_t * list string :=
  match config with
  | None => (KV_ERR_INVALID_PARAM, [])
  | Some c =>
    if negb outs then (KV_ERR_INVALID_PARAM, []) else
    if 0 <? cfg_num_devices c then
      if KV_MAX_DEVICES <? cfg_num_devices c then (KV_ERR_INVALID_PARAM, [])
      else match resolve_loop (Z.to_nat (cfg_num_devices c)) 0 (cfg_device_paths c) [] with
           | None => (KV_ERR_INVALID_PARAM, [])
           | Some l => (KV_SUCCESS, l)
           end
    else match cfg_device_path c with
         | None => (KV_ERR_INVALID_PARAM, [])
         | Some p => (KV_SUCCESS, [p])
         end
  end.

(** ** Sharding: FNV-1a over the key, modulo the number of devices *)

Definition fnv1a_step (hash b : Z) : Z := u32 (Z.lxor hash b * 16777619).

Definition kv_engine_shard_for_key (key : bytes) (num_devices : Z) : Z :=
  foldl fnv1a_step 2166136261 key mod num_devices.

(** ** Opening and closing *)

(** [snprintf(ks_name_buf, 64, "nvme_kv_engine_%u", dev_index)]: at most 25
    characters, never cut. *)
Definition ks_name (dev_index : Z) : string := String.append "nvme_kv_engine_" (pretty dev_index).

Section devices.
Context {AL : Allocator} `{K : KvsOps}.

(** The context after a successful open: health tracking starts anew. *)
Definition fresh_ctx (device keyspace path : Z) : kv_device_ctx_t :=
  DevCtx device keyspace path true 0 0 0 10.

Definition kv_engine_open_device (path : string) (dev_index : Z)
    : prog world (option kv_device_ctx_t * kv_result_t) :=
  r ← kvs (kvs_open_device path);
  let '(res, device) := (r : kvs_result * Z) in
  if negb (bool_decide (res = KVS_SUCCESS)) then mret (None, KV_ERR_DEVICE_OPEN) else
  let name := ks_name dev_index in
  r ← kvs (kvs_open_key_space device name);
  let '(res, ks) := (r : kvs_result * Z) in
  if bool_decide (res = KVS_SUCCESS) then
    p ← on_heap (strdup path);
    mret (Some (fresh_ctx device ks p), KV_SUCCESS)
  else
    res ← kvs (kvs_create_key_space device name);
    if negb (bool_decide (res = KVS_SUCCESS)) then
      _ ← kvs (kvs_close_device device);
      mret (None, KV_ERR_DEVICE_OPEN)
    else
      r ← kvs (kvs_open_key_space device name);
      let '(res, ks) := (r : kvs_result * Z) in
      if negb (bool_decide (res = KVS_SUCCESS)) then
        _ ← kvs (kvs_close_device device);
        mret (None, KV_ERR_DEVICE_OPEN)
      else
        p ← on_heap (strdup path);
        mret (Some (fresh_ctx device ks p), KV_SUCCESS).

Definition kv_engine_close_device (ctx : kv_device_ctx_t) : prog world kv_device_ctx_t :=
  _ ← (if dc_keyspace ctx =? 0 then mret tt
       else _ ← kvs (kvs_close_key_space (dc_keyspace ctx)); mret tt);
  _ ← (if dc_device ctx =? 0 then mret tt
       else _ ← kvs (kvs_close_device (dc_device ctx)); mret tt);
  _ ← (if dc_device_path ctx =? 0 then mret tt else on_heap (free (dc_device_path ctx)));
  mret (DevCtx 0 0 0 (dc_healthy ctx) (dc_consecutive_errors ctx) (dc_total_errors ctx)
          (dc_total_ops ctx) (dc_max_consecutive_errors ctx)).
End devices.

(** ** Path resolution and sharding: properties *)

Lemma resolve_loop_spec n i paths acc l :
  resolve_loop n i paths acc = Some l <->
  exists l', l = acc ++ l' /\ length l' = n /\
    forall j p, l' !! j = Some p -> paths !! (i + j)%nat = Some (Some p).
Proof.
  revert i acc. induction n as [|n IH]; intros i acc; simpl.
  { split.
    - intros [= <-]. exists []. by rewrite app_nil_r.
    - intros (l' & -> & Hl & _). destruct l'; [|done]. by rewrite app_nil_r. }
  split.
  - destruct (paths !! i) as [[p|]|] eqn:E; simpl; try done.
    intros (l' & -> & Hl & Hp)%IH. exists (p :: l'). rewrite <- app_assoc. simpl.
    split_and!; [done|by rewrite Hl|]. intros [|j] q Hq; simpl in Hq.
    + simplify_eq. by rewrite Nat.add_0_r.
    + rewrite Nat.add_succ_r. by apply (Hp j).
  - intros (l' & -> & Hl & Hp). destruct l' as [|p l']; [done|].
    pose proof (Hp 0%nat p eq_refl) as E. rewrite Nat.add_0_r in E. rewrite E. simpl.
    apply IH. exists l'. rewrite <- app_assoc. simpl in Hl. split_and!; [done|lia|].
    intros j q Hq. specialize (Hp (S j) q Hq). by rewrite Nat.add_succ_r in Hp.
Qed.

Lemma resolve_loop_None n i paths acc :
  resolve_loop n i paths acc = None ->
  exists j, (j < n)%nat /\ forall p, paths !! (i + j)%nat <> Some (Some p).
Proof.
  revert i acc. induction n as [|n IH]; intros i acc; simpl; [done|].
  destruct (paths !! i) as [[q|]|] eqn:E; simpl.
  - intros (j & Hj & Hn)%IH. exists (S j). rewrite Nat.add_succ_r. split; [lia|done].
  - intros _. exists 0%nat. rewrite Nat.add_0_r, E. split; [lia|done].
  - intros _. exists 0%nat. rewrite Nat.add_0_r, E. split; [lia|done].
Qed.

Lemma resolve_device_paths_range c l :
  kv_engine_resolve_device_paths (Some c) true = (KV_SUCCESS, l) ->
  1 <= Z.of_nat (length l) <= KV_MAX_DEVICES \/ length l = 1%nat.
Proof.
  unfold kv_engine_resolve_device_paths. simpl. destruct (0 <? cfg_num_devices c) eqn:E1; bool_to_prop.
  - destruct (KV_MAX_DEVICES <? cfg_num_devices c) eqn:E2; bool_to_prop; [done|].
    destruct (resolve_loop _ _ _ _) as [l'|] eqn:El; [|done].
    intros [= <-]. apply resolve_loop_spec in El as (l'' & -> & Hl & _). simpl. left. lia.
  - destruct (cfg_device_path c); [|done]. intros [= <-]. by right.
Qed.

Lemma shard_range key n : 0 < n -> 0 <= kv_engine_shard_for_key key n < n.
Proof. intros. by apply Z.mod_pos_bound. Qed.

(** ** Opening and closing: rules *)

Section rules.
Context {AL : Allocator} `{KS : KvsSpec}.
Implicit Types st : kvs_state.

Lemma wp_kvs {A} X (f : kvs_state -> A * kvs_state) (Q : A -> world -> Prop) h st :
  (forall a st', f st = (a, st') -> Q a (World h st')) -> wp X (kvs f) Q (World h st).
Proof. intros HQ. unfold wp, kvs. simpl. destruct (f st) eqn:E. by apply HQ. Qed.

Lemma wp_on_heap {A} X (m : prog heap A) (Q : A -> world -> Prop) h st :
  wp (fun h' => X (World h' st)) m (fun a h' => Q a (World h' st)) h ->
  wp X (on_heap m) Q (World h st).
Proof. intros H. by apply wp_zoom. Qed.

(** Every handle of [st] is still open, on the same thing, in [st']. *)
Definition handles_le st st' : Prop :=
  dev_path st ⊆ dev_path st' /\ ks_of st ⊆ ks_of st'.

Lemma same_handles_le st st' : same_handles st st' -> handles_le st st'.
Proof. intros [E1 E2]. by split; rewrite ?E1, ?E2. Qed.

Lemma space_of_le st st' hd s :
  handles_le st st' -> space_of st hd = Some s -> space_of st' hd = Some s.
Proof.
  intros [Hd Hk]. unfold space_of. destruct (ks_of st !! hd) as [[dh n]|] eqn:E; [|done].
  rewrite (lookup_weaken _ _ _ _ E Hk). destruct (dev_path st !! dh) as [p|] eqn:E'; [|done].
  by rewrite (lookup_weaken _ _ _ _ E' Hd).
Qed.

Lemma space_of_same st st' hd : same_handles st st' -> space_of st' hd = space_of st hd.
Proof. intros [E1 E2]. unfold space_of. by rewrite E1, E2. Qed.

Lemma keeps_open_data_trans st st1 st2 :
  handles_le st st1 -> keeps_open_data st st1 -> keeps_open_data st1 st2 ->
  keeps_open_data st st2.
Proof.
  intros Hle H1 H2 hd s Hs. rewrite (H2 hd s); [by apply (H1 hd)|]. by eapply space_of_le.
Qed.

(** The blocks a context owns. *)
Definition ctx_blocks (ctx : kv_device_ctx_t) : list Z :=
  if dc_device_path ctx =? 0 then [] else [dc_device_path ctx].

(** [ctx] is the context of device [path], opened as number [i] on top of [st]. *)
Definition opened (path : string) (i : Z) (ctx : kv_device_ctx_t) st st' : Prop :=
  dc_device ctx <> 0 /\ dc_keyspace ctx <> 0 /\
  dev_path st !! dc_device ctx = None /\ ks_of st !! dc_keyspace ctx = None /\
  dev_path st' = <[dc_device ctx := path]> (dev_path st) /\
  ks_of st' = <[dc_keyspace ctx := (dc_device ctx, ks_name i)]> (ks_of st) /\
  keeps_open_data st st'.

Lemma close_device_undo st st1 st2 h p r :
  dev_path st !! h = None -> dev_path st1 = <[h := p]> (dev_path st) ->
  ks_of st1 = ks_of st -> keeps_open_data st st1 ->
  kvs_close_device h st1 = (r, st2) -> same_handles st st2 /\ keeps_open_data st st2.
Proof.
  intros Hn Hd Hk Hkeep Hc.
  apply close_device_spec in Hc as (Hd2 & Hk2 & Hdata); [|rewrite Hd, lookup_insert_eq; eauto].
  assert (same_handles st st2) as Hsame.
  { split; [by rewrite Hd2, Hd, delete_insert_id|]. rewrite Hk2, Hk.
    apply map_filter_id. intros hd [dh n] Hhd. simpl. intros ->.
    apply ks_dev_open in Hhd as [? ?]. congruence. }
  split; [done|]. intros hd s Hs. rewrite (Hdata hd); [by apply (Hkeep hd)|].
  by rewrite (space_of_same _ _ _ Hsame).
Qed.

Lemma wp_strdup X s (Q : Z -> heap -> Prop) t m :
  Q 0 (Heap (false :: t) m) ->
  (forall a, fresh_block m MALLOC_ALIGN (Z.of_nat (length (cstring s))) a ->
     Q a (Heap (true :: t) (<[a := Block (Z.of_nat (length (cstring s))) (cstring s)]> m))) ->
  wp X (strdup s) Q (Heap t m).
Proof. intros. apply wp_alloc_aligned; [done|lia|done|done]. Qed.

(** The end of a successful open. *)
Lemma wp_open_finish X path i device ks st st' t m (Q : _ -> world -> Prop) :
  opened path i (fresh_ctx device ks 0) st st' ->
  (forall ctx t' m', opened path i ctx st st' -> grown m m' (ctx_blocks ctx) ->
     dc_healthy ctx = true -> dc_max_consecutive_errors ctx = 10 ->
     Q (Some ctx, KV_SUCCESS) (World (Heap t' m') st')) ->
  wp X (p ← on_heap (strdup path); mret (Some (fresh_ctx device ks p), KV_SUCCESS)) Q
    (World (Heap t m) st').
Proof.
  intros Ho HQ. apply wp_bind, wp_on_heap, wp_strdup; [|intros a Ha]; apply wp_ret, HQ; try done.
  - apply grown_refl.
  - unfold ctx_blocks. simpl. rewrite (fresh_block_eqb _ _ _ _ Ha). by eapply grown_fresh.
Qed.

Lemma wp_kv_engine_open_device X path i st t m (Q : _ -> world -> Prop) :
  (forall st', same_handles st st' -> keeps_open_data st st' ->
     Q (None, KV_ERR_DEVICE_OPEN) (World (Heap t m) st')) ->
  (forall ctx t' m' st', opened path i ctx st st' -> grown m m' (ctx_blocks ctx) ->
     dc_healthy ctx = true -> dc_max_consecutive_errors ctx = 10 ->
     Q (Some ctx, KV_SUCCESS) (World (Heap t' m') st')) ->
  wp X (kv_engine_open_device path i) Q (World (Heap t m) st).
Proof.
  intros HN HS. unfold kv_engine_open_device.
  apply wp_bind, wp_kvs. intros [res dev] st1 E1. apply open_device_spec in E1.
  case_decide as Hr; [|rewrite bool_decide_eq_false_2 by done; apply wp_ret, HN; tauto].
  rewrite bool_decide_eq_true_2 by done. destruct E1 as (Hd0 & Hdn & Hd1 & Hk1 & Hkeep1).
  assert (handles_le st st1) as Hle1.
  { split; [rewrite Hd1; by apply insert_subseteq|by rewrite Hk1]. }
  apply wp_bind, wp_kvs. intros [res2 ks] st2 E2. apply open_key_space_spec in E2.
  case_decide as Hr2.
  { rewrite bool_decide_eq_true_2 by done.
    destruct E2 as (Hh0 & _ & Hkn & Hd2 & Hk2 & Hkeep2).
    eapply wp_open_finish; [|intros; by apply HS].
    unfold opened; simpl. split_and!; try done.
    - by rewrite <- Hk1.
    - by rewrite Hd2.
    - by rewrite Hk2, Hk1.
    - by eapply keeps_open_data_trans. }
  rewrite bool_decide_eq_false_2 by done. destruct E2 as [[Hd2 Hk2] Hkeep2].
  assert (handles_le st st2) as Hle2 by (by split; rewrite ?Hd2, ?Hk2; apply Hle1).
  assert (keeps_open_data st st2) as Hkp2 by exact (keeps_open_data_trans _ _ _ Hle1 Hkeep1 Hkeep2).
  apply wp_bind, wp_kvs. intros res3 st3 E3.
  apply create_key_space_spec in E3 as [[Hd3 Hk3] Hkeep3].
  assert (keeps_open_data st st3) as Hkp3 by exact (keeps_open_data_trans _ _ _ Hle2 Hkp2 Hkeep3).
  assert (handles_le st st3) as Hle3 by (by split; rewrite ?Hd3, ?Hk3; apply Hle2).
  case_bool_decide; simpl.
  2:{ apply wp_bind, wp_kvs. intros ? st4 E4. apply wp_ret.
      eapply close_device_undo in E4 as [? ?]; [by apply HN|done|by rewrite Hd3, Hd2|congruence|done]. }
  apply wp_bind, wp_kvs. intros [res4 ks'] st4 E4. apply open_key_space_spec in E4.
  case_decide as Hr4.
  - rewrite bool_decide_eq_true_2 by done. simpl.
    destruct E4 as (Hh0 & _ & Hkn & Hd4 & Hk4 & Hkeep4).
    eapply wp_open_finish; [|intros; by apply HS].
    unfold opened; simpl. split_and!; try done.
    + by rewrite <- Hk1, <- Hk2, <- Hk3.
    + by rewrite Hd4, Hd3, Hd2.
    + by rewrite Hk4, Hk3, Hk2, Hk1.
    + exact (keeps_open_data_trans _ _ _ Hle3 Hkp3 Hkeep4).
  - rewrite bool_decide_eq_false_2 by done. simpl. destruct E4 as [[Hd4 Hk4] Hkeep4].
    apply wp_bind, wp_kvs. intros ? st5 E5. apply wp_ret.
    eapply close_device_undo in E5 as [? ?]; [by apply HN|done|by rewrite Hd4, Hd3, Hd2|congruence|].
    exact (keeps_open_data_trans _ _ _ Hle3 Hkp3 Hkeep4).
Qed.

(** An open device as the rest of the engine relies on it. *)
Definition device_open (ctx : kv_device_ctx_t) st : Prop :=
  dc_device ctx <> 0 /\ dc_keyspace ctx <> 0 /\
  is_Some (dev_path st !! dc_device ctx) /\
  exists name, ks_of st !! dc_keyspace ctx = Some (dc_device ctx, name).

Lemma opened_device_open path i ctx st st' : opened path i ctx st st' -> device_open ctx st'.
Proof.
  intros (? & ? & ? & ? & Hd & Hk & _). unfold device_open. rewrite Hd, Hk, !lookup_insert_eq.
  split_and!; eauto.
Qed.

(** What closing a device leaves of the handles. *)
Definition closed (ctx : kv_device_ctx_t) st st' : Prop :=
  dev_path st' = delete (dc_device ctx) (dev_path st) /\
  ks_of st' = filter (fun x => x.2.1 <> dc_device ctx) (ks_of st) /\
  (forall hd s, space_of st' hd = Some s -> data st' s = data st s).

Lemma wp_kv_engine_close_device X ctx st t m (Q : _ -> world -> Prop) :
  device_open ctx st -> owns (ctx_blocks ctx) m ->
  (forall ctx' st', closed ctx st st' ->
     Q ctx' (World (Heap t (delete_all (ctx_blocks ctx) m)) st')) ->
  wp X (kv_engine_close_device ctx) Q (World (Heap t m) st).
Proof.
  intros (Hd & Hk & Hdev & name & Hks) Ho HQ. unfold kv_engine_close_device.
  rewrite (proj2 (Z.eqb_neq _ _) Hd), (proj2 (Z.eqb_neq _ _) Hk).
  apply wp_bind, wp_bind, wp_kvs. intros r1 st1 E1. apply wp_ret.
  apply close_key_space_spec in E1 as (Hd1 & Hk1 & Hkeep1).
  apply wp_bind, wp_bind, wp_kvs. intros r2 st2 E2. apply wp_ret.
  apply close_device_spec in E2 as (Hd2 & Hk2 & Hdata); [|by rewrite Hd1].
  assert (closed ctx st st2) as Hcl.
  { assert (ks_of st2 = filter (fun x => x.2.1 <> dc_device ctx) (ks_of st)) as Hk2'.
    { rewrite Hk2, Hk1. case_decide; [|done].
      rewrite map_filter_delete_not; [done|]. intros y Hy. rewrite Hks in Hy. naive_solver. }
    split_and!; [by rewrite Hd2, Hd1|done|].
    intros hd s Hs. rewrite (Hdata hd s Hs). apply (Hkeep1 hd).
    apply (space_of_le st2); [|done]. split.
    - rewrite Hd2, Hd1. apply delete_subseteq.
    - rewrite Hk2'. apply map_filter_subseteq. }
  apply wp_bind. specialize (HQ (DevCtx 0 0 0 (dc_healthy ctx) (dc_consecutive_errors ctx)
    (dc_total_errors ctx) (dc_total_ops ctx) (dc_max_consecutive_errors ctx)) st2 Hcl).
  unfold ctx_blocks in *. case_if E; simpl in HQ; [by apply wp_ret, wp_ret|].
  apply wp_on_heap. apply owns_cons in Ho as (Hp & Hs & _). apply wp_free_in; [done..|]. by apply wp_ret.
Qed.

(** Closing what was just opened gives back the handles. *)
Lemma opened_closed path i ctx st st1 st2 :
  opened path i ctx st st1 -> closed ctx st1 st2 ->
  same_handles st st2 /\ keeps_open_data st st2.
Proof.
  intros (Hd0 & Hk0 & Hdn & Hkn & Hd1 & Hk1 & Hkeep) (Hd2 & Hk2 & Hdata).
  assert (same_handles st st2) as Hsame.
  { split; [by rewrite Hd2, Hd1, delete_insert_id|].
    rewrite Hk2, Hk1, map_filter_insert_False by (simpl; tauto).
    rewrite delete_id by done. apply map_filter_id. intros hd [dh n] Hhd. simpl. intros ->.
    apply ks_dev_open in Hhd as [? ?]. congruence. }
  split; [done|]. intros hd s Hs. rewrite (Hdata hd); [by apply (Hkeep hd)|].
  by rewrite (space_of_same _ _ _ Hsame).
Qed.

(** Opening a device is all or nothing, and closing undoes it.  Whatever the
    device library answers, after opening a device and closing it again if that
    succeeded, the open handles of the library and the blocks of the heap are
    those from before, and no pair in an open key space has changed; a failed
    open reports KV_ERR_DEVICE_OPEN, a successful one KV_SUCCESS. *)
Theorem device_open_close_roundtrip path i t m st :
  wp never
    (r ← kv_engine_open_device path i;
     match r with
     | (Some ctx, res) => _ ← kv_engine_close_device ctx; mret (true, res)
     | (None, res) => mret (false, res)
     end)
    (fun r w =>
       r.2 = (if r.1 : bool then KV_SUCCESS else KV_ERR_DEVICE_OPEN) /\
       h_blocks (w_heap w) = m /\ same_handles st (w_kvs w) /\ keeps_open_data st (w_kvs w))
    (World (Heap t m) st).
Proof.
  apply wp_bind, wp_kv_engine_open_device.
  - intros st' Hs Hk. by apply wp_ret.
  - intros ctx t' m' st' Ho Hg _ _. apply wp_bind. apply reown_grown in Hg.
    apply wp_kv_engine_close_device; [by eapply opened_device_open|apply Hg|].
    intros ctx' st2 Hc. apply wp_ret. split_and!; [done| |by eapply opened_closed..].
    simpl. by destruct Hg as [_ ->].
Qed.
End rules.

(** Path resolution.  [kv_engine_resolve_device_paths] succeeds exactly when a
    list of one to eight non-null paths is configured, or none is and the single
    device path is set, and returns those paths in order; every other argument is
    KV_ERR_INVALID_PARAM with no path. *)
Theorem resolve_device_paths_spec c outs r l :
  kv_engine_resolve_device_paths c outs = (r, l) ->
  (r = KV_SUCCESS /\ exists cfg, c = Some cfg /\ outs = true /\
    ((1 <= cfg_num_devices cfg <= KV_MAX_DEVICES /\
      length l = Z.to_nat (cfg_num_devices cfg) /\
      forall j p, l !! j = Some p -> cfg_device_paths cfg !! j = Some (Some p)) \/
     (cfg_num_devices cfg <= 0 /\ exists p, cfg_device_path cfg = Some p /\ l = [p]))) \/
  (r = KV_ERR_INVALID_PARAM /\ l = [] /\ forall cfg, c = Some cfg -> outs = true ->
    KV_MAX_DEVICES < cfg_num_devices cfg \/
    (1 <= cfg_num_devices cfg /\ exists j, (j < Z.to_nat (cfg_num_devices cfg))%nat /\
       forall p, cfg_device_paths cfg !! j <> Some (Some p)) \/
    (cfg_num_devices cfg <= 0 /\ cfg_device_path cfg = None)).
Proof.
  unfold kv_engine_resolve_device_paths.
  destruct c as [cfg|]; [|intros [= <- <-]; by right].
  destruct outs; simpl; [|intros [= <- <-]; right; naive_solver].
  destruct (0 <? cfg_num_devices cfg) eqn:E1; bool_to_prop.
  - destruct (KV_MAX_DEVICES <? cfg_num_devices cfg) eqn:E2; bool_to_prop.
    { intros [= <- <-]. right. naive_solver. }
    destruct (resolve_loop _ _ _ _) as [l'|] eqn:El; intros [= <- <-].
    + left. split; [done|]. exists cfg. split_and!; try done. left. split; [lia|].
      by apply resolve_loop_spec in El as (l'' & -> & Hl & Hp).
    + right. split_and!; try done. intros cfg' [= <-] _. right. left. split; [lia|].
      by apply resolve_loop_None in El.
  - destruct (cfg_device_path cfg) as [p|] eqn:Ep; intros [= <- <-].
    + left. split; [done|]. exists cfg. split_and!; try done. right. split; [lia|]. by exists p.
    + right. split_and!; try done. intros cfg' [= <-] _. right. right. split; [lia|done].
Qed.
