(* ===== verification/ThreadPool.v ===== *)
(** * The thread pool (src/utils/thread_pool.c)

    A bounded FIFO of work items served by worker threads.  The first part is the
    memory the pool owns: creation with its error paths, and what is freed when
    the workers have been joined.  The second part is the concurrent protocol: a
    step relation over the pool and its threads, each step being what one thread
    does between two operations on the lock or the condition variables. *)
From S2P Require Import Prelude Libc.

(** [work_item_t]; every item of a pool runs the same function on its argument. *)
Record work_item (A : Type) := WorkItem { wi_self : Z; wi_arg : A }.
Arguments WorkItem {A} _ _.
Arguments wi_self {A} _.
Arguments wi_arg {A} _.

(** [thread_pool_t]; the linked list [queue_head .. queue_tail] is a list. *)
Record thread_pool_t (A : Type) := ThreadPool {
  tp_self : Z;
  tp_threads_ptr : Z;
  tp_num_threads : Z;
  tp_shutdown : bool;
  tp_queue : list (work_item A);
  tp_queue_size : Z;
  tp_queue_capacity : Z
}.
Arguments ThreadPool {A} _ _ _ _ _ _ _.
Arguments tp_self {A} _.
Arguments tp_threads_ptr {A} _.
Arguments tp_num_threads {A} _.
Arguments tp_shutdown {A} _.
Arguments tp_queue {A} _.
Arguments tp_queue_size {A} _.
Arguments tp_queue_capacity {A} _.

Definition set_queue {A} (q : list (work_item A)) (n : Z) (p : thread_pool_t A) : thread_pool_t A :=
  ThreadPool (tp_self p) (tp_threads_ptr p) (tp_num_threads p) (tp_shutdown p) q n
    (tp_queue_capacity p).
Definition set_shutdown {A} (p : thread_pool_t A) : thread_pool_t A :=
  ThreadPool (tp_self p) (tp_threads_ptr p) (tp_num_threads p) true (tp_queue p)
    (tp_queue_size p) (tp_queue_capacity p).

(** ** Memory *)

Section memory.
Context {AB : Abi} {AL : Allocator} {A : Type}.

(** [spawn i] is the outcome of the [i]-th [pthread_create].  On a failure the
    threads already running are joined and everything is freed. *)
Definition thread_pool_create (num_threads queue_depth : Z) (spawn : Z -> bool)
    : prog heap (option (thread_pool_t A)) :=
  if num_threads =? 0 then mret None else
  pool ← malloc (sizeof T_thread_pool);
  if pool =? 0 then mret None else
  threads ← calloc num_threads (sizeof T_pthread);
  if threads =? 0 then _ ← free pool; mret None else
  if forallb spawn (seqZ 0 num_threads) then
    mret (Some (ThreadPool pool threads num_threads false [] 0
                  (if 0 <? queue_depth then queue_depth else 128)))
  else _ ← free threads; _ ← free pool; mret None.

(** The defensive loop over the items left after the join. *)
Fixpoint free_leftover {St} (lift : forall B, prog heap B -> prog St B)
    (cleanup : A -> prog St unit) (q : list (work_item A)) : prog St unit :=
  match q with
  | [] => mret tt
  | item :: q' =>
    _ ← cleanup (wi_arg item);
    _ ← lift unit (free (wi_self item));
    free_leftover lift cleanup q'
  end.

(** [thread_pool_destroy] once the workers are joined: what the pool still owns. *)
Definition thread_pool_release {St} (lift : forall B, prog heap B -> prog St B)
    (cleanup : A -> prog St unit) (p : thread_pool_t A) : prog St unit :=
  _ ← free_leftover lift cleanup (tp_queue p);
  _ ← lift unit (free (tp_threads_ptr p));
  lift unit (free (tp_self p)).
End memory.

(** ** Critical sections

    What a thread does while it holds [queue_lock]. *)

Section critical.
Context {A : Type}.

Inductive worker_action : Type :=
| AWait                          (** [pthread_cond_wait] on [queue_not_empty] *)
| AExit
| ATake (item : work_item A)     (** dequeued; [queue_not_full] is signalled *)
| AFault.                        (** [item->next] through a null head *)

Definition worker_critical (p : thread_pool_t A) : worker_action * thread_pool_t A :=
  if (tp_queue_size p =? 0) && negb (tp_shutdown p) then (AWait, p)
  else if tp_shutdown p && (tp_queue_size p =? 0) then (AExit, p)
  else match tp_queue p with
       | [] => (AFault, p)
       | item :: q => (ATake item, set_queue q (u32 (tp_queue_size p - 1)) p)
       end.

Inductive submit_action : Set :=
| SReject
| SBlock                         (** [pthread_cond_wait] on [queue_not_full] *)
| SEnqueue.                      (** [queue_not_empty] is signalled *)

(** The first check of [shutdown] and the ones around the wait agree: a thread
    woken from the wait runs the same section again. *)
Definition submit_critical (item : work_item A) (p : thread_pool_t A)
    : submit_action * thread_pool_t A :=
  if tp_shutdown p then (SReject, p)
  else if tp_queue_capacity p <=? tp_queue_size p then (SBlock, p)
  else (SEnqueue, set_queue (tp_queue p ++ [item]) (u32 (tp_queue_size p + 1)) p).
End critical.
Arguments worker_action A : clear implicits.

(** ** The threads *)

Section protocol.
Context {A : Type}.

Inductive wpc : Type :=
| WReady                       (** about to lock *)
| WWaiting                     (** asleep on [queue_not_empty] *)
| WRunning (item : work_item A)
| WExited.

Inductive spc : Set := SReady | SWaiting | SAccepted | SRejected.

Inductive dpc : Set := DIdle | DJoining | DDone.

Record sys := Sys {
  sy_pool : thread_pool_t A;
  sy_workers : list wpc;
  sy_subs : list (work_item A * spc);   (** calls of [thread_pool_submit] *)
  sy_destroy : dpc;
  sy_accepted : list (work_item A);     (** in the order they were enqueued *)
  sy_taken : list (work_item A);        (** in the order they were dequeued *)
  sy_executed : list (work_item A)      (** in the order they were finished *)
}.

(** [pthread_cond_signal] wakes one sleeper, if there is one. *)
Definition signal_workers (ws ws' : list wpc) : Prop :=
  ((WWaiting ∉ ws) /\ ws' = ws) \/ exists i, ws !! i = Some WWaiting /\ ws' = <[i := WReady]> ws.

Definition signal_subs (ss ss' : list (work_item A * spc)) : Prop :=
  ((forall x, (x, SWaiting) ∉ ss) /\ ss' = ss) \/
  exists j x, ss !! j = Some (x, SWaiting) /\ ss' = <[j := (x, SReady)]> ss.

(** [pthread_cond_broadcast]. *)
Definition wake_worker (w : wpc) : wpc := match w with WWaiting => WReady | w => w end.
Definition wake_sub (x : work_item A * spc) : work_item A * spc :=
  match x with (i, SWaiting) => (i, SReady) | x => x end.

Inductive step : sys -> sys -> Prop :=
| step_wait p ws ss d acc tk ex i :
    ws !! i = Some WReady -> worker_critical p = (AWait, p) ->
    step (Sys p ws ss d acc tk ex) (Sys p (<[i := WWaiting]> ws) ss d acc tk ex)
| step_exit p ws ss d acc tk ex i :
    ws !! i = Some WReady -> worker_critical p = (AExit, p) ->
    step (Sys p ws ss d acc tk ex) (Sys p (<[i := WExited]> ws) ss d acc tk ex)
| step_take p p' ws ss ss' d acc tk ex i item :
    ws !! i = Some WReady -> worker_critical p = (ATake item, p') -> signal_subs ss ss' ->
    step (Sys p ws ss d acc tk ex) (Sys p' (<[i := WRunning item]> ws) ss' d acc (tk ++ [item]) ex)
| step_run p ws ss d acc tk ex i item :
    ws !! i = Some (WRunning item) ->
    step (Sys p ws ss d acc tk ex) (Sys p (<[i := WReady]> ws) ss d acc tk (ex ++ [item]))
| step_call p ws ss acc tk ex item :
    step (Sys p ws ss DIdle acc tk ex) (Sys p ws (ss ++ [(item, SReady)]) DIdle acc tk ex)
| step_reject p ws ss d acc tk ex j item :
    ss !! j = Some (item, SReady) -> submit_critical item p = (SReject, p) ->
    step (Sys p ws ss d acc tk ex) (Sys p ws (<[j := (item, SRejected)]> ss) d acc tk ex)
| step_block p ws ss d acc tk ex j item :
    ss !! j = Some (item, SReady) -> submit_critical item p = (SBlock, p) ->
    step (Sys p ws ss d acc tk ex) (Sys p ws (<[j := (item, SWaiting)]> ss) d acc tk ex)
| step_enqueue p p' ws ws' ss d acc tk ex j item :
    ss !! j = Some (item, SReady) -> submit_critical item p = (SEnqueue, p') ->
    signal_workers ws ws' ->
    step (Sys p ws ss d acc tk ex)
      (Sys p' ws' (<[j := (item, SAccepted)]> ss) d (acc ++ [item]) tk ex)
| step_destroy p ws ss acc tk ex :
    step (Sys p ws ss DIdle acc tk ex)
      (Sys (set_shutdown p) (wake_worker <$> ws) (wake_sub <$> ss) DJoining acc tk ex)
| step_joined p ws ss acc tk ex :
    (forall i w, ws !! i = Some w -> w = WExited) ->
    step (Sys p ws ss DJoining acc tk ex) (Sys p ws ss DDone acc tk ex)
| step_spurious_worker p ws ss d acc tk ex i :
    ws !! i = Some WWaiting ->
    step (Sys p ws ss d acc tk ex) (Sys p (<[i := WReady]> ws) ss d acc tk ex)
| step_spurious_sub p ws ss d acc tk ex j item :
    ss !! j = Some (item, SWaiting) ->
    step (Sys p ws ss d acc tk ex) (Sys p ws (<[j := (item, SReady)]> ss) d acc tk ex).

(** As [thread_pool_create] leaves it: [n] workers, an empty queue. *)
Definition init (s : sys) : Prop :=
  exists p n, (0 < n)%nat /\ s = Sys p (replicate n WReady) [] DIdle [] [] [] /\
    tp_shutdown p = false /\ tp_queue p = [] /\ tp_queue_size p = 0 /\
    0 < tp_queue_capacity p < 2 ^ 32.

(** ** The invariant *)

Definition is_ready (w : wpc) : bool := match w with WReady => true | _ => false end.
Definition running (w : wpc) : list (work_item A) := match w with WRunning x => [x] | _ => [] end.
Definition sub_ready (x : work_item A * spc) : bool := match x.2 with SReady => true | _ => false end.

Definition accepted_item (x : work_item A * spc) : list (work_item A) :=
  match x with (i, SAccepted) => [i] | _ => [] end.

Record good (s : sys) : Prop := Good {
  g_size : tp_queue_size (sy_pool s) = Z.of_nat (length (tp_queue (sy_pool s)));
  g_cap : 0 < tp_queue_capacity (sy_pool s) < 2 ^ 32 /\
    tp_queue_size (sy_pool s) <= tp_queue_capacity (sy_pool s);
  g_workers : sy_workers s <> [];
  g_fifo : sy_accepted s = sy_taken s ++ tp_queue (sy_pool s);
  g_accepted : sy_accepted s ≡ₚ (sy_subs s ≫= accepted_item);
  g_once : sy_taken s ≡ₚ sy_executed s ++ (sy_workers s ≫= running);
  (** nobody sleeps on [queue_not_empty] while there is more work than awake
      workers, or during a shutdown *)
  g_not_empty : WWaiting ∈ sy_workers s ->
    tp_shutdown (sy_pool s) = false /\
    (length (tp_queue (sy_pool s)) <= count is_ready (sy_workers s))%nat;
  (** nobody sleeps on [queue_not_full] while there are more free slots than
      submitters about to try, or during a shutdown *)
  g_not_full : (exists x, (x, SWaiting) ∈ sy_subs s) ->
    tp_shutdown (sy_pool s) = false /\
    tp_queue_capacity (sy_pool s) - tp_queue_size (sy_pool s) <= Z.of_nat (count sub_ready (sy_subs s));
  g_exited : WExited ∈ sy_workers s ->
    tp_shutdown (sy_pool s) = true /\ tp_queue (sy_pool s) = [];
  g_destroy : sy_destroy s = DIdle \/ tp_shutdown (sy_pool s) = true;
  g_done : sy_destroy s = DDone -> Forall (fun w => w = WExited) (sy_workers s)
}.
End protocol.
Arguments wpc A : clear implicits.

#[export] Instance wpc_waiting_dec {A} (w : wpc A) : Decision (w = WWaiting).
Proof. destruct w; (by left) || (by right). Defined.
#[export] Instance wpc_exited_dec {A} (w : wpc A) : Decision (w = WExited).
Proof. destruct w; (by left) || (by right). Defined.
#[export] Instance spc_eq_dec : EqDecision spc.
Proof. solve_decision. Defined.

Arguments sys A : clear implicits.
Arguments good {A} _.

(** ** Preservation *)

Section preservation.
Context {A : Type}.
Implicit Types (p : thread_pool_t A) (ws : list (wpc A)) (ss : list (work_item A * spc)) (s : sys A).

Lemma worker_critical_take p p' item :
  worker_critical p = (ATake item, p') ->
  tp_queue p = item :: tp_queue p' /\ p' = set_queue (tp_queue p') (u32 (tp_queue_size p - 1)) p.
Proof.
  unfold worker_critical. repeat case_match; intros E; simplify_eq. done.
Qed.

Lemma worker_critical_wait p :
  worker_critical p = (AWait, p) -> tp_queue_size p = 0 /\ tp_shutdown p = false.
Proof. unfold worker_critical. repeat case_match; intros; simplify_eq. split; destruct (tp_shutdown p); lia. Qed.

Lemma worker_critical_exit p :
  worker_critical p = (AExit, p) -> tp_queue_size p = 0 /\ tp_shutdown p = true.
Proof. unfold worker_critical. repeat case_match; intros; simplify_eq. split; destruct (tp_shutdown p); lia. Qed.

Lemma submit_critical_reject p item :
  submit_critical item p = (SReject, p) -> tp_shutdown p = true.
Proof. unfold submit_critical. by repeat case_match. Qed.

Lemma submit_critical_block p item :
  submit_critical item p = (SBlock, p) ->
  tp_shutdown p = false /\ tp_queue_capacity p <= tp_queue_size p.
Proof. unfold submit_critical. repeat case_match; intros; simplify_eq. split; [done | lia]. Qed.

Lemma submit_critical_enqueue p p' item :
  submit_critical item p = (SEnqueue, p') ->
  tp_shutdown p = false /\ tp_queue_size p < tp_queue_capacity p /\
  p' = set_queue (tp_queue p ++ [item]) (u32 (tp_queue_size p + 1)) p.
Proof. unfold submit_critical. repeat case_match; intros; simplify_eq. split_and!; [done | lia | done]. Qed.

(** Waking is the only change a signal or a broadcast makes. *)
Lemma signal_workers_running ws ws' :
  signal_workers ws ws' -> ws' ≫= running = ws ≫= running.
Proof. intros [[_ ->] | (i & Hi & ->)]; [done|]. by eapply bind_insert_same. Qed.

Lemma signal_subs_accepted ss ss' :
  signal_subs ss ss' -> ss' ≫= accepted_item = ss ≫= accepted_item.
Proof. intros [[_ ->] | (j & x & Hj & ->)]; [done|]. by eapply bind_insert_same. Qed.

Lemma wake_workers_running ws : (wake_worker <$> ws) ≫= running = ws ≫= running.
Proof. induction ws as [|w ws IH]; csimpl; [done|]. rewrite IH. by destruct w. Qed.

Lemma wake_subs_accepted ss : (wake_sub <$> ss) ≫= accepted_item = ss ≫= accepted_item.
Proof. induction ss as [|[x c] ss IH]; csimpl; [done|]. rewrite IH. by destruct c. Qed.

Lemma wake_workers_awake ws : WWaiting ∉ wake_worker <$> ws.
Proof. intros ([] & ? & _)%list_elem_of_fmap; done. Qed.

Lemma wake_subs_awake ss x : (x, SWaiting) ∉ wake_sub <$> ss.
Proof. intros ([? []] & ? & _)%list_elem_of_fmap; done. Qed.

Lemma wake_workers_exited ws : WExited ∈ wake_worker <$> ws -> WExited ∈ ws.
Proof. intros ([] & ? & ?)%list_elem_of_fmap; done. Qed.

(** A signal leaves no sleeper, or makes one more thread ready. *)
Lemma signal_workers_ready ws ws' :
  signal_workers ws ws' -> WWaiting ∈ ws' ->
  WWaiting ∈ ws /\ count is_ready ws' = S (count is_ready ws).
Proof.
  intros [[Hn ->] | (i & Hi & ->)] Hw; [done|]. split.
  - by eapply elem_of_insert_other.
  - pose proof (count_insert is_ready ws i _ WReady Hi) as E. simpl in E. lia.
Qed.

Lemma signal_subs_ready ss ss' x :
  signal_subs ss ss' -> (x, SWaiting) ∈ ss' ->
  (exists y, (y, SWaiting) ∈ ss) /\ count sub_ready ss' = S (count sub_ready ss).
Proof.
  intros [[Hn ->] | (j & y & Hj & ->)] Hw; [naive_solver|]. split.
  - exists y. by eapply list_elem_of_lookup_2.
  - pose proof (count_insert sub_ready ss j _ (y, SReady) Hj) as E. simpl in E. lia.
Qed.

Lemma signal_workers_exited ws ws' : signal_workers ws ws' -> WExited ∈ ws' -> WExited ∈ ws.
Proof. intros [[_ ->] | (i & Hi & ->)] H; [done|]. by eapply elem_of_insert_other. Qed.

Lemma signal_workers_nil ws ws' : signal_workers ws ws' -> ws <> [] -> ws' <> [].
Proof.
  intros [[_ ->] | (i & Hi & ->)] H; [done|].
  intros E%(f_equal length). rewrite length_insert in E. destruct ws; simpl in *; [done|lia].
Qed.

Lemma insert_nil ws i w : ws <> [] -> <[i := w]> ws <> [].
Proof. intros H E%(f_equal length). rewrite length_insert in E. destruct ws; simpl in *; [done|lia]. Qed.

(** The queue is empty exactly when its size field says so. *)
Lemma good_empty s : good s -> tp_queue_size (sy_pool s) = 0 -> tp_queue (sy_pool s) = [].
Proof. intros G E. apply length_zero_iff_nil. rewrite (g_size s G) in E. lia. Qed.

Lemma good_init s : init s -> good s.
Proof.
  intros (p & n & Hn & -> & Hsh & Hq & Hz & Hcap).
  assert (Hr : forall w : wpc A, w ∈ replicate n WReady -> w = WReady)
    by (intros w H; by apply elem_of_replicate in H as [? _]).
  assert (Hrun : (replicate n (@WReady A) ≫= running) = []) by (clear; by induction n).
  constructor; simpl; rewrite ?Hq, ?Hz, ?Hrun; simpl; auto; try lia; try done.
  - destruct n; [lia | done].
  - intros ?%Hr; done.
  - intros [x ?%elem_of_nil]; done.
  - intros ?%Hr; done.
Qed.

Ltac open_good G :=
  destruct G as [Gsize Gcap Gw Gfifo Gacc Gonce Gne Gnf Gex Gd Gdone]; simpl in *.

(** A worker that goes to sleep, wakes up or exits. *)
Lemma good_move_worker p ws ss d acc tk ex i w w' :
  good (Sys p ws ss d acc tk ex) -> ws !! i = Some w ->
  running w = running w' ->
  (w' = WWaiting -> tp_shutdown p = false /\ tp_queue p = []) ->
  (w' = WExited -> tp_shutdown p = true /\ tp_queue p = []) ->
  w <> WExited -> (is_ready w = true -> tp_queue p = []) ->
  good (Sys p (<[i := w']> ws) ss d acc tk ex).
Proof.
  intros G Hi Hrun Hwait Hexit Hw Hready. open_good G.
  constructor; simpl; auto using insert_nil.
  - by rewrite (bind_insert_same running ws i w w') by done.
  - intros Hin. pose proof (count_insert is_ready ws i w w' Hi) as Hc.
    destruct (decide (w' = WWaiting)) as [->|Hne].
    + destruct Hwait as [? ->]; [done|]. split; [done | simpl; lia].
    + destruct Gne as [? ?]; [by eapply elem_of_insert_other|]. split; [done|].
      destruct (is_ready w); [rewrite Hready by done|]; simpl in *; lia.
  - intros Hin. destruct (decide (w' = WExited)) as [->|Hne]; [by apply Hexit|].
    apply Gex. by eapply elem_of_insert_other.
  - intros ->. specialize (Gdone eq_refl). rewrite Forall_lookup in Gdone. by apply Gdone in Hi.
Qed.

Lemma good_run p ws ss d acc tk ex i item :
  good (Sys p ws ss d acc tk ex) -> ws !! i = Some (WRunning item) ->
  good (Sys p (<[i := WReady]> ws) ss d acc tk (ex ++ [item])).
Proof.
  intros G Hi. open_good G. constructor; simpl; auto using insert_nil.
  - rewrite Gonce. pose proof (bind_insert_perm running ws i _ WReady Hi) as E. simpl in E.
    rewrite app_nil_r in E. rewrite <- E. solve_Permutation.
  - intros Hin. destruct Gne as [? ?]; [by eapply elem_of_insert_other|].
    pose proof (count_insert is_ready ws i _ WReady Hi) as E. simpl in E. split; [done|lia].
  - intros Hin. apply Gex. by eapply elem_of_insert_other.
  - intros ->. specialize (Gdone eq_refl). rewrite Forall_lookup in Gdone. by apply Gdone in Hi.
Qed.

Lemma good_take p p' ws ss ss' d acc tk ex i item :
  good (Sys p ws ss d acc tk ex) -> ws !! i = Some WReady ->
  worker_critical p = (ATake item, p') -> signal_subs ss ss' ->
  good (Sys p' (<[i := WRunning item]> ws) ss' d acc (tk ++ [item]) ex).
Proof.
  intros G Hi (Hq & ->)%worker_critical_take Hss. open_good G.
  rewrite Hq in *. simpl in *.
  assert (Hz : u32 (tp_queue_size p - 1) = Z.of_nat (length (tp_queue p'))).
  { rewrite wrap_small; [lia|]. unfold in_word. lia. }
  constructor; simpl; auto using insert_nil.
  - split; lia.
  - by rewrite <- app_assoc.
  - by rewrite (signal_subs_accepted _ _ Hss).
  - pose proof (bind_insert_perm running ws i _ (WRunning item) Hi) as E. simpl in E.
    rewrite app_nil_r in E. rewrite E, Gonce. solve_Permutation.
  - intros Hin. destruct Gne as [? ?]; [by eapply elem_of_insert_other|].
    pose proof (count_insert is_ready ws i _ (WRunning item) Hi) as E. simpl in E. split; [done|lia].
  - intros [x Hx]. destruct (signal_subs_ready _ _ _ Hss Hx) as [Hy ->].
    destruct (Gnf Hy) as [? ?]. split; [done|]. lia.
  - intros Hin. destruct Gex as [? ?]; [by eapply elem_of_insert_other|done].
  - intros ->. specialize (Gdone eq_refl). rewrite Forall_lookup in Gdone. by apply Gdone in Hi.
Qed.

(** A submitter that blocks, wakes up or is turned away. *)
Lemma good_move_sub p ws ss d acc tk ex j x c c' :
  good (Sys p ws ss d acc tk ex) -> ss !! j = Some (x, c) ->
  accepted_item (x, c) = accepted_item (x, c') ->
  (c' = SWaiting -> tp_shutdown p = false) ->
  (c' = SRejected -> tp_shutdown p = true) ->
  (c = SReady /\ (c' = SRejected \/ tp_queue_capacity p <= tp_queue_size p) \/ c = SWaiting) ->
  good (Sys p ws (<[j := (x, c')]> ss) d acc tk ex).
Proof.
  intros G Hj Hacc Hwait Hrej Hready. open_good G. constructor; simpl; auto.
  - by rewrite (bind_insert_same accepted_item ss j _ _ Hj).
  - intros [y Hy]. pose proof (count_insert sub_ready ss j _ (x, c') Hj) as E.
    unfold sub_ready at 2 4 in E. cbn [snd] in E.
    assert (Hold : (y, SWaiting) ∈ ss \/ c' = SWaiting).
    { destruct (decide (c' = SWaiting)); [by right|left].
      eapply elem_of_insert_other; [done | congruence]. }
    destruct Hold as [Hold | ->].
    + destruct Gnf as [? ?]; [by exists y|]. split; [done|].
      destruct Hready as [[-> [-> | ?]] | ->]; [by rewrite Hrej in * | destruct c'; lia |].
      simpl in E. destruct c'; lia.
    + split; [by apply Hwait|]. destruct Hready as [[-> [? | ?]] | ->]; [done | simpl in E; lia |].
      destruct Gnf; [|lia]. exists x. by eapply list_elem_of_lookup_2.
Qed.

Lemma good_enqueue p p' ws ws' ss d acc tk ex j item :
  good (Sys p ws ss d acc tk ex) -> ss !! j = Some (item, SReady) ->
  submit_critical item p = (SEnqueue, p') -> signal_workers ws ws' ->
  good (Sys p' ws' (<[j := (item, SAccepted)]> ss) d (acc ++ [item]) tk ex).
Proof.
  intros G Hj (Hsh & Hlt & ->)%submit_critical_enqueue Hws. open_good G.
  assert (Hz : u32 (tp_queue_size p + 1) = tp_queue_size p + 1).
  { apply wrap_small. unfold in_word. lia. }
  constructor; simpl; rewrite ?Hz, ?length_app; simpl; auto; try lia.
  - by eapply signal_workers_nil.
  - by rewrite Gfifo, app_assoc.
  - pose proof (bind_insert_perm accepted_item ss j _ (item, SAccepted) Hj) as E. simpl in E.
    rewrite app_nil_r in E. by rewrite E, Gacc.
  - by rewrite (signal_workers_running _ _ Hws).
  - intros Hin. destruct (signal_workers_ready _ _ Hws Hin) as [Hw ->].
    destruct (Gne Hw). split; [done|lia].
  - intros [y Hy]. destruct Gnf as [? ?]; [exists y; by eapply elem_of_insert_other|].
    pose proof (count_insert sub_ready ss j _ (item, SAccepted) Hj) as E. simpl in E.
    split; [done|lia].
  - intros Hin. destruct Gex as [? _]; [by eapply signal_workers_exited|congruence].
  - intros ->. destruct Gd; congruence.
Qed.

Lemma good_call p ws ss acc tk ex item :
  good (Sys p ws ss DIdle acc tk ex) ->
  good (Sys p ws (ss ++ [(item, SReady)]) DIdle acc tk ex).
Proof.
  intros G. open_good G. constructor; simpl; auto.
  - rewrite bind_app. simpl. by rewrite app_nil_r.
  - intros [y [Hy | ?%list_elem_of_singleton]%elem_of_app]; [|done].
    destruct Gnf as [? ?]; [by exists y|]. rewrite count_app, count_cons. split; [done|]. simpl. lia.
Qed.

Lemma good_destroy p ws ss acc tk ex :
  good (Sys p ws ss DIdle acc tk ex) ->
  good (Sys (set_shutdown p) (wake_worker <$> ws) (wake_sub <$> ss) DJoining acc tk ex).
Proof.
  intros G. open_good G. constructor; simpl; auto.
  - by destruct ws.
  - by rewrite wake_subs_accepted.
  - by rewrite wake_workers_running.
  - intros H. by apply wake_workers_awake in H.
  - intros [x H]. by apply wake_subs_awake in H.
  - intros H. split; [done|]. by apply Gex, wake_workers_exited.
  - done.
Qed.

(** Every step preserves the invariant. *)
Lemma good_step s s' : good s -> step s s' -> good s'.
Proof.
  intros G Hs. pose proof (good_empty _ G) as Hempty. destruct Hs; simpl in *.
  - pose proof (worker_critical_wait _ H0) as [? ?]. eapply good_move_worker; eauto; done.
  - pose proof (worker_critical_exit _ H0) as [? ?]. eapply good_move_worker; eauto; done.
  - by eapply good_take.
  - by eapply good_run.
  - by apply good_call.
  - pose proof (submit_critical_reject _ _ H0). eapply good_move_sub; eauto; done || (left; auto).
  - pose proof (submit_critical_block _ _ H0) as [? ?]. eapply good_move_sub; eauto; done || (left; auto).
  - by eapply good_enqueue.
  - by apply good_destroy.
  - open_good G. constructor; simpl; auto.
    + right. by destruct Gd.
    + intros _. by apply Forall_lookup.
  - eapply good_move_worker; eauto; done.
  - eapply good_move_sub; eauto; try done.
Qed.

Lemma good_reachable s : reachable step init s -> good s.
Proof. apply reachable_invariant; [apply good_init | apply good_step]. Qed.

End preservation.

(** ** What the protocol guarantees *)

Section guarantees.
Context {A : Type}.
Implicit Types (s : sys A).

(** C10: In every reachable state of the pool, items leave the queue in the order
    in which submit calls put them there; each item that was taken has been run
    once or is being run by one worker; the items put in the queue are those of the
    submit calls that returned 0; [queue_size] is the length of the list, within
    [queue_capacity]; and a worker never dereferences an empty head. *)
Theorem thread_pool_fifo_exactly_once s :
  reachable step init s ->
  sy_accepted s = sy_taken s ++ tp_queue (sy_pool s) /\
  sy_taken s ≡ₚ sy_executed s ++ (sy_workers s ≫= running) /\
  sy_accepted s ≡ₚ (sy_subs s ≫= accepted_item) /\
  tp_queue_size (sy_pool s) = Z.of_nat (length (tp_queue (sy_pool s))) /\
  tp_queue_size (sy_pool s) <= tp_queue_capacity (sy_pool s) /\
  fst (worker_critical (sy_pool s)) <> AFault.
Proof.
  intros G%good_reachable. split_and!; try apply G.
  pose proof (g_size s G) as Hz. unfold worker_critical.
  destruct (tp_queue (sy_pool s)) as [|x q] eqn:E; simpl in Hz.
  - rewrite Hz. simpl. by destruct (tp_shutdown _).
  - repeat case_match; done.
Qed.

Lemma all_exited_running ws : Forall (fun w : wpc A => w = WExited) ws -> ws ≫= running = [].
Proof. induction 1 as [|? ? -> ? IH]; [done|]. csimpl. by rewrite IH. Qed.

Lemma done_drained s :
  good s -> sy_destroy s = DDone ->
  tp_queue (sy_pool s) = [] /\ sy_executed s ≡ₚ sy_accepted s.
Proof.
  intros G Hd. pose proof (g_done s G Hd) as Hall.
  assert (Hq : tp_queue (sy_pool s) = []).
  { apply (g_exited s G). pose proof (g_workers s G) as Hne.
    destruct (sy_workers s); [done|]. inversion_clear Hall. subst. by left. }
  split; [done|]. rewrite (g_fifo s G), Hq, (g_once s G), (all_exited_running _ Hall).
  by rewrite !app_nil_r.
Qed.

(** Graceful shutdown: when [thread_pool_destroy] has joined the workers the
    queue is empty and the items executed are exactly those of the submit calls
    that returned 0, each once; the defensive loop finds nothing left over. *)
Theorem thread_pool_destroy_drains s :
  reachable step init s -> sy_destroy s = DDone ->
  tp_queue (sy_pool s) = [] /\ sy_executed s ≡ₚ (sy_subs s ≫= accepted_item).
Proof.
  intros G%good_reachable [Hq He]%done_drained; [|done]. split; [done|].
  by rewrite He, (g_accepted s G).
Qed.

(** No wakeup is lost: while the pool is not shutting down, if no worker is
    awake then the queue is empty, and if moreover no submitter is about to try
    again then no submitter is asleep on a full queue. *)
Theorem thread_pool_no_lost_wakeup s :
  reachable step init s -> tp_shutdown (sy_pool s) = false ->
  (forall w, w ∈ sy_workers s -> w <> WReady /\ forall x, w <> WRunning x) ->
  tp_queue (sy_pool s) = [] /\
  ((forall x, (x, SReady) ∉ sy_subs s) -> forall x, (x, SWaiting) ∉ sy_subs s).
Proof.
  intros G%good_reachable Hsh Hidle.
  assert (Hw : WWaiting ∈ sy_workers s).
  { pose proof (g_workers s G) as Hne. pose proof (g_exited s G) as Hex.
    destruct (sy_workers s) as [|w ws]; [done|].
    destruct (Hidle w) as [? Hr]; [by left|]. destruct w; [done| by left | by destruct (Hr item) |].
    destruct Hex as [? _]; [by left | congruence]. }
  assert (Hc : count is_ready (sy_workers s) = 0%nat).
  { destruct (decide (0 < count is_ready (sy_workers s))%nat) as [Hp|]; [|lia].
    apply count_pos in Hp as (i & w & Hi%list_elem_of_lookup_2 & Hr).
    destruct (Hidle w Hi) as [? _]. by destruct w. }
  assert (Hq : tp_queue (sy_pool s) = []).
  { apply length_zero_iff_nil. destruct (g_not_empty s G Hw). lia. }
  split; [done|]. intros Hsub x Hx. destruct (g_not_full s G) as [_ Hf]; [by exists x|].
  pose proof (g_size s G) as Hz. rewrite Hq in Hz. simpl in Hz. pose proof (g_cap s G).
  assert (Hp : (0 < count sub_ready (sy_subs s))%nat) by lia.
  apply count_pos in Hp as (j & [y c] & Hj%list_elem_of_lookup_2 & Hr). destruct c; try done.
  by destruct (Hsub y).
Qed.

(** ** Termination of a shutdown *)

Definition worker_weight (w : wpc A) : nat :=
  match w with WReady => 1 | WWaiting => 2 | WRunning _ => 2 | WExited => 0 end.
Definition sub_weight (x : work_item A * spc) : nat :=
  match x.2 with SReady => 1 | SWaiting => 2 | _ => 0 end.

(** What is left to do once [shutdown] is set. *)
Definition shutdown_work s : nat :=
  (2 * length (tp_queue (sy_pool s)) + sum_list_with worker_weight (sy_workers s) +
   sum_list_with sub_weight (sy_subs s) + match sy_destroy s with DDone => 0 | _ => 1 end)%nat.

Lemma sum_insert {B} (f : B -> nat) (l : list B) i a b :
  l !! i = Some a ->
  (sum_list_with f (<[i := b]> l) + f a = sum_list_with f l + f b)%nat.
Proof.
  intros (l1 & l2 & -> & ->)%(split_at _ _ _ b). rewrite !sum_list_with_app. simpl. lia.
Qed.

Lemma signal_subs_weight ss ss' :
  signal_subs ss ss' -> (sum_list_with sub_weight ss' <= sum_list_with sub_weight ss)%nat.
Proof.
  intros [[_ ->] | (j & x & Hj & ->)]; [done|].
  pose proof (sum_insert sub_weight ss j _ (x, SReady) Hj) as E. unfold sub_weight in E at 2 4.
  simpl in E. lia.
Qed.

Definition stopping s : Prop := sy_destroy s <> DIdle /\ tp_shutdown (sy_pool s) = true.

Lemma stopping_step s s' :
  stopping s -> step s s' -> stopping s' /\ (shutdown_work s' < shutdown_work s)%nat.
Proof.
  unfold stopping, shutdown_work. intros [Hd Hsh] Hs. destruct Hs; simpl in *; try done.
  - apply worker_critical_wait in H0 as [? ?]; congruence.
  - pose proof (sum_insert worker_weight ws i _ WExited H). simpl in *. split; [done|lia].
  - apply worker_critical_take in H0 as [Hq ->]. simpl in *. rewrite Hq. simpl.
    pose proof (sum_insert worker_weight ws i _ (WRunning item) H).
    pose proof (signal_subs_weight _ _ H1). simpl in *. split; [done|lia].
  - pose proof (sum_insert worker_weight ws i _ WReady H). simpl in *. split; [done|lia].
  - pose proof (sum_insert sub_weight ss j _ (item, SRejected) H) as E.
    unfold sub_weight in E at 2 4. simpl in E. split; [done|lia].
  - apply submit_critical_block in H0 as [? ?]; congruence.
  - apply submit_critical_enqueue in H0 as (? & ? & ?); congruence.
  - split; [done|lia].
  - pose proof (sum_insert worker_weight ws i _ WReady H). simpl in *. split; [done|lia].
  - pose proof (sum_insert sub_weight ss j _ (item, SReady) H) as E.
    unfold sub_weight in E at 2 4. simpl in E. split; [done|lia].
Qed.

Lemma stopping_run n s s' :
  stopping s -> nsteps step n s s' -> stopping s' /\ (n + shutdown_work s' <= shutdown_work s)%nat.
Proof.
  intros Hs Hn. induction Hn as [|n s1 s2 s3 H12 H23 IH]; [split; [done|lia]|].
  destruct (stopping_step _ _ Hs H12) as [Hs2 ?]. destruct (IH Hs2). split; [done|lia].
Qed.

Lemma signal_subs_total (ss : list (work_item A * spc)) : exists ss', signal_subs ss ss'.
Proof.
  destruct (decide (Exists (fun x => x.2 = SWaiting) ss)) as [He|He].
  - apply Exists_exists in He as ([x c] & [j Hj]%list_elem_of_lookup & Hc). simpl in Hc. subst.
    exists (<[j := (x, SReady)]> ss). right. by exists j, x.
  - exists ss. left. split; [|done]. intros x Hx. apply He, Exists_exists. by exists (x, SWaiting).
Qed.

(** During a shutdown a worker that has not exited can always move. *)
Lemma stopping_worker_moves p ws ss d acc tk ex i w :
  good (Sys p ws ss d acc tk ex) -> tp_shutdown p = true ->
  ws !! i = Some w -> w <> WExited -> exists s', step (Sys p ws ss d acc tk ex) s'.
Proof.
  intros G Hsh Hi Hw. pose proof (g_size _ G) as Hz. simpl in Hz.
  destruct w; [|by eexists; eapply step_spurious_worker|by eexists; eapply step_run|done].
  destruct (tp_queue p) as [|item q] eqn:Hq; simpl in Hz.
  - eexists. eapply step_exit; [done|]. unfold worker_critical. by rewrite Hz, Hsh.
  - destruct (signal_subs_total ss) as [ss' Hss']. eexists. eapply step_take; [done| |done].
    unfold worker_critical. rewrite Hsh, Hq.
    by replace (tp_queue_size p =? 0) with false by lia.
Qed.

Lemma stopping_sub_moves p ws ss d acc tk ex j x c :
  tp_shutdown p = true -> ss !! j = Some (x, c) -> c = SReady \/ c = SWaiting ->
  exists s', step (Sys p ws ss d acc tk ex) s'.
Proof.
  intros Hsh Hj [-> | ->]; eexists.
  - eapply step_reject; [done|]. unfold submit_critical. by rewrite Hsh.
  - by eapply step_spurious_sub.
Qed.

Lemma stopping_stuck s :
  good s -> stopping s -> nf step s ->
  sy_destroy s = DDone /\
  (forall x c, (x, c) ∈ sy_subs s -> c = SAccepted \/ c = SRejected).
Proof.
  intros G [Hd Hsh] Hnf. destruct s as [p ws ss d acc tk ex]. simpl in *. split.
  - destruct d; [done| |done]. exfalso. apply Hnf. eexists. apply step_joined.
    intros i w Hi. destruct (decide (w = WExited)) as [|Hw]; [done|]. exfalso. apply Hnf.
    by eapply stopping_worker_moves.
  - intros x c [j Hj]%list_elem_of_lookup.
    destruct c; auto; exfalso; apply Hnf; eapply stopping_sub_moves; eauto.
Qed.

Lemma good_rtc s s' : good s -> rtc step s s' -> good s'.
Proof. intros G H. induction H; eauto using good_step. Qed.


End guarantees.

(** ** Concrete runs *)

Module Sample.

Definition item1 : work_item Z := WorkItem 100 1.
Definition item2 : work_item Z := WorkItem 200 2.
(** A pool with one slot. *)
Definition pool0 : thread_pool_t Z := ThreadPool 16 32 1 false [] 0 1.
Definition pool1 : thread_pool_t Z := ThreadPool 16 32 1 false [item1] 1 1.
Definition s0 : sys Z := Sys pool0 [WReady] [] DIdle [] [] [].
(** One item queued, a second submit asleep on [queue_not_full]. *)
Definition s_full : sys Z :=
  Sys pool1 [WReady] [(item1, SAccepted); (item2, SWaiting)] DIdle [item1] [] [].
(** [thread_pool_destroy] has run to its end. *)
Definition s_done (c : spc) : sys Z :=
  Sys (ThreadPool 16 32 1 true [] 0 1) [WExited] [(item1, SAccepted); (item2, c)] DDone
    [item1] [item1] [item1].
Definition s_stop : sys Z :=
  Sys (set_shutdown pool1) [WReady] [(item1, SAccepted); (item2, SReady)] DJoining [item1] [] [].

Lemma reach0 : reachable step init s0.
Proof. apply reach_init. exists pool0, 1%nat. split_and!; reflexivity || lia. Qed.

Lemma reach_rtc (s s' : sys Z) : reachable step init s -> rtc step s s' -> reachable step init s'.
Proof. intros R H. induction H; eauto using reach_step. Qed.

Lemma reach_full : reachable step init s_full.
Proof.
  apply (reach_rtc _ _ reach0).
  eapply rtc_l; [apply (step_call _ _ _ _ _ _ item1)|].
  eapply rtc_l; [eapply (step_enqueue _ _ _ _ _ _ _ _ _ 0%nat item1);
    [reflexivity | reflexivity | left; split; [set_solver|reflexivity]]|].
  eapply rtc_l; [apply (step_call _ _ _ _ _ _ item2)|].
  eapply rtc_l; [eapply (step_block _ _ _ _ _ _ _ 1%nat item2); reflexivity|].
  apply rtc_refl.
Qed.

Lemma reach_stop : reachable step init s_stop.
Proof. exact (reach_step _ _ _ _ reach_full (step_destroy _ _ _ _ _ _)). Qed.

Lemma stop_to_done : rtc step s_stop (s_done SReady).
Proof.
  eapply rtc_l; [eapply (step_take _ _ _ _ _ _ _ _ _ 0%nat item1);
    [reflexivity | reflexivity | left; split; [set_solver|reflexivity]]|].
  eapply rtc_l; [eapply (step_run _ _ _ _ _ _ _ 0%nat item1); reflexivity|].
  eapply rtc_l; [eapply (step_exit _ _ _ _ _ _ _ 0%nat); reflexivity|].
  eapply rtc_l; [|apply rtc_refl]. apply step_joined. intros [|i] w; by intros [= <-].
Qed.

Lemma reach_done : reachable step init (s_done SReady).
Proof. exact (reach_rtc _ _ reach_stop stop_to_done). Qed.

End Sample.
Import Sample.

Lemma thread_pool_fifo_exactly_once_witness :
  reachable step init s_full /\
  sy_accepted s_full = sy_taken s_full ++ tp_queue (sy_pool s_full).
Proof. split; [exact reach_full | apply (thread_pool_fifo_exactly_once s_full reach_full)]. Defined.

Lemma thread_pool_destroy_drains_witness :
  sy_executed (s_done SReady) ≡ₚ [item1].
Proof. apply (thread_pool_destroy_drains (s_done SReady) reach_done eq_refl). Defined.

Lemma thread_pool_no_lost_wakeup_witness :
  exists s : sys Z, reachable step init s /\ tp_queue (sy_pool s) = [].
Proof.
  exists (Sys pool0 [WWaiting] [] DIdle [] [] []).
  assert (R : reachable step init (Sys pool0 [WWaiting] [] DIdle [] [] [])).
  { apply (reach_step _ _ _ _ reach0). apply (step_wait pool0 [WReady] _ _ _ _ _ 0%nat); reflexivity. }
  split; [exact R|]. apply (thread_pool_no_lost_wakeup _ R); [reflexivity|].
  intros w ->%list_elem_of_singleton. done.
Defined.


(** [thread_pool_destroy] does not wait for submit calls: a call that was
    asleep on a full queue when the shutdown began can still be before its next
    look at [pool->shutdown] when the workers are joined and the pool is freed. *)
Theorem destroy_outruns_submitter :
  exists (s : sys Z) x, reachable step init s /\ sy_destroy s = DDone /\ (x, SReady) ∈ sy_subs s.
Proof. exists (s_done SReady), item2. split_and!; [exact reach_done | done | set_solver]. Qed.

(** ** The failure path of [thread_pool_create]

    When a [pthread_create] fails, [thread_pool_create] sets [shutdown] and
    broadcasts without holding [queue_lock], so a worker's test of [shutdown] and
    its falling asleep are no longer one step for it.  The queue stays empty here. *)
Module CreateFailure.

Inductive worker_pc : Set :=
| Unlocked            (** before [pthread_mutex_lock], or woken and not yet relocked *)
| Tested              (** holds the lock; has read [shutdown == 0] *)
| Asleep
| Exited.

Inductive creator_pc : Set :=
| Spawning            (** the failing [pthread_create] has returned *)
| FlagSet
| Joining
| Returned.

Record st := St { c_workers : list worker_pc; c_shutdown : bool; c_creator : creator_pc }.

Definition wake (w : worker_pc) : worker_pc := match w with Asleep => Unlocked | w => w end.

Inductive cstep : st -> st -> Prop :=
| c_test ws m i :
    ws !! i = Some Unlocked -> Tested ∉ ws ->
    cstep (St ws false m) (St (<[i := Tested]> ws) false m)
| c_exit ws m i :
    ws !! i = Some Unlocked -> Tested ∉ ws ->
    cstep (St ws true m) (St (<[i := Exited]> ws) true m)
| c_sleep ws b m i :
    ws !! i = Some Tested -> cstep (St ws b m) (St (<[i := Asleep]> ws) b m)
| c_flag ws b : cstep (St ws b Spawning) (St ws true FlagSet)
| c_broadcast ws b : cstep (St ws b FlagSet) (St (wake <$> ws) b Joining)
| c_joined ws b :
    Forall (fun w => w = Exited) ws -> cstep (St ws b Joining) (St ws b Returned).

Definition started (s : st) : Prop := exists n, s = St (replicate n Unlocked) false Spawning.
End CreateFailure.
Import CreateFailure.

(** The failure path of [thread_pool_create] can hang: a worker that has read
    [shutdown == 0] under the lock can fall asleep after the unlocked broadcast, and
    then no step is possible while the creator still waits in [pthread_join]. *)
Theorem create_failure_can_hang :
  exists s, reachable cstep started s /\ c_creator s = Joining /\ nf cstep s.
Proof.
  exists (St [Asleep] true Joining). split; [|split; [done|]].
  - assert (R : rtc cstep (St [Unlocked] false Spawning) (St [Asleep] true Joining)).
    { eapply rtc_l; [apply (c_test _ _ 0%nat); [done|set_solver]|].
      eapply rtc_l; [apply c_flag|]. eapply rtc_l; [apply c_broadcast|].
      eapply rtc_l; [apply (c_sleep _ _ _ 0%nat); done|]. apply rtc_refl. }
    assert (R0 : reachable cstep started (St [Unlocked] false Spawning))
      by (apply reach_init; by exists 1%nat).
    clear -R R0. induction R; eauto using reach_step.
  - intros [s' Hs']. inversion Hs' as [| ? ? [|] H | ? ? ? [|] H | | | ? ? H]; subst; try done.
    by inversion H.
Qed.
