(* ===== verification/Engine.v ===== *)
(** * The engine's synchronous operations (src/core/kv_engine.c)

    The engine structure and the operations on it, as programs over the world
    (heap and device library) and the engine.  A pointer argument that may be
    NULL is an option or a boolean; output parameters are results. *)
From S2P Require Import Prelude Libc KvTypes MemoryPool DmaPool HashTable KvsApi MultiDevice.
From S2P Require Import ThreadPool.

(** ** The structures of kv_engine_internal.h *)

Inductive async_op_type_t : Set := ASYNC_OP_STORE | ASYNC_OP_RETRIEVE | ASYNC_OP_DELETE.

(** [async_context_t]: the callbacks are the caller's, known by a number (0 for
    NULL). *)
Record async_context_t := AsyncCtx {
  ac_self : Z;
  ac_op_type : async_op_type_t;
  ac_callback : Z;
  ac_retrieve_callback : Z;
  ac_user_data : Z;
  ac_key_buffer : Z;
  ac_key_len : Z;
  ac_value_buffer : Z;
  ac_value_len : Z;
  ac_overwrite : bool
}.

Record health_probe_t := Probe {
  hp_self : Z;
  hp_running : bool;
  hp_probe_interval_sec : Z;
  hp_recovery_threshold : Z
}.

(** [struct kv_engine]; [ke_config_path] and [ke_config_emul] are the copies of
    the configuration's strings. *)
Record kv_engine := Engine {
  ke_self : Z;
  ke_devices : list kv_device_ctx_t;
  ke_num_devices : Z;
  ke_config_path : Z;
  ke_config_emul : Z;
  ke_mem_pool : option memory_pool_t;
  ke_buffer_pool : option dma_pool_t;
  ke_workers : option (thread_pool_t async_context_t);
  ke_stats : kv_engine_stats_t;
  ke_stats_lock : mutex;
  ke_hash_lock : mutex;
  ke_key_table : hash_table_t;
  ke_initialized : bool;
  ke_health_probe : option health_probe_t
}.

Definition set_devices (ds : list kv_device_ctx_t) (e : kv_engine) : kv_engine :=
  Engine (ke_self e) ds (ke_num_devices e) (ke_config_path e) (ke_config_emul e)
    (ke_mem_pool e) (ke_buffer_pool e) (ke_workers e) (ke_stats e) (ke_stats_lock e)
    (ke_hash_lock e) (ke_key_table e) (ke_initialized e) (ke_health_probe e).
Definition set_num_devices (n : Z) (e : kv_engine) : kv_engine :=
  Engine (ke_self e) (ke_devices e) n (ke_config_path e) (ke_config_emul e)
    (ke_mem_pool e) (ke_buffer_pool e) (ke_workers e) (ke_stats e) (ke_stats_lock e)
    (ke_hash_lock e) (ke_key_table e) (ke_initialized e) (ke_health_probe e).
Definition set_buffer_pool (p : dma_pool_t) (e : kv_engine) : kv_engine :=
  Engine (ke_self e) (ke_devices e) (ke_num_devices e) (ke_config_path e) (ke_config_emul e)
    (ke_mem_pool e) (Some p) (ke_workers e) (ke_stats e) (ke_stats_lock e)
    (ke_hash_lock e) (ke_key_table e) (ke_initialized e) (ke_health_probe e).
Definition set_workers (p : thread_pool_t async_context_t) (e : kv_engine) : kv_engine :=
  Engine (ke_self e) (ke_devices e) (ke_num_devices e) (ke_config_path e) (ke_config_emul e)
    (ke_mem_pool e) (ke_buffer_pool e) (Some p) (ke_stats e) (ke_stats_lock e)
    (ke_hash_lock e) (ke_key_table e) (ke_initialized e) (ke_health_probe e).
Definition set_stats (st : kv_engine_stats_t) (l : mutex) (e : kv_engine) : kv_engine :=
  Engine (ke_self e) (ke_devices e) (ke_num_devices e) (ke_config_path e) (ke_config_emul e)
    (ke_mem_pool e) (ke_buffer_pool e) (ke_workers e) st l
    (ke_hash_lock e) (ke_key_table e) (ke_initialized e) (ke_health_probe e).
Definition set_table (t : hash_table_t) (l : mutex) (e : kv_engine) : kv_engine :=
  Engine (ke_self e) (ke_devices e) (ke_num_devices e) (ke_config_path e) (ke_config_emul e)
    (ke_mem_pool e) (ke_buffer_pool e) (ke_workers e) (ke_stats e) (ke_stats_lock e)
    l t (ke_initialized e) (ke_health_probe e).

(** ** Health tracking *)

Definition check_device_health (ctx : kv_device_ctx_t) : kv_result_t :=
  if dc_healthy ctx then KV_SUCCESS else KV_ERR_DEVICE_DEGRADED.

Definition device_record_result (ctx : kv_device_ctx_t) (kvs_res : kvs_result) : kv_device_ctx_t :=
  let total_ops := u64 (dc_total_ops ctx + 1) in
  if is_device_error kvs_res then
    let prev := dc_consecutive_errors ctx in
    let unhealthy :=
      match kvs_res with
      | KVS_ERR_DEV_NOT_EXIST | KVS_ERR_DEV_NOT_OPENED => true
      | _ => dc_max_consecutive_errors ctx <=? u64 (prev + 1)
      end in
    DevCtx (dc_device ctx) (dc_keyspace ctx) (dc_device_path ctx)
      (if unhealthy then false else dc_healthy ctx)
      (u64 (prev + 1)) (u64 (dc_total_errors ctx + 1)) total_ops (dc_max_consecutive_errors ctx)
  else
    DevCtx (dc_device ctx) (dc_keyspace ctx) (dc_device_path ctx) (dc_healthy ctx)
      0 (dc_total_errors ctx) total_ops (dc_max_consecutive_errors ctx).

(** ** Statistics *)

Definition stats_after (is_read is_write is_delete success : bool) (n : Z)
    (s : kv_engine_stats_t) : kv_engine_stats_t :=
  let inc (b : bool) x := if b then u64 (x + 1) else x in
  Stats (u64 (st_total_ops s + 1))
    (inc is_read (st_read_ops s))
    (inc is_write (st_write_ops s))
    (inc is_delete (st_delete_ops s))
    (inc (negb success) (st_failed_ops s))
    (if is_read && success then st_bytes_written s
     else if is_write && success then u64 (st_bytes_written s + n) else st_bytes_written s)
    (if is_read && success then u64 (st_bytes_read s + n) else st_bytes_read s).

(** ** Running on the engine *)

(** A caller's buffer: its address and the bytes one may read there. *)
Record cbuf := CBuf { cb_addr : Z; cb_bytes : bytes }.

Record est `{KvsOps} := Est { es_w : world; es_e : kv_engine }.
Arguments Est {_} _ _.

Section engine.
Context {AB : Abi} {AL : Allocator} `{K : KvsOps}.

Definition with_heap {A} (m : prog heap A) : prog est A :=
  zoom (fun s => w_heap (es_w s)) (fun h s => Est (set_heap h (es_w s)) (es_e s)) m.
Definition call_kvs {A} (f : kvs_state -> A * kvs_state) : prog est A :=
  zoom es_w (fun w s => Est w (es_e s)) (kvs f).
Definition engine : prog est kv_engine := fun s => Done (es_e s) s.
Definition set_engine (f : kv_engine -> kv_engine) : prog est unit :=
  fun s => Done tt (Est (es_w s) (f (es_e s))).

Definition update_stats (is_read is_write is_delete success : bool) (n : Z) : prog est unit :=
  e ← engine;
  l ← mutex_lock (ke_stats_lock e);
  let st := stats_after is_read is_write is_delete success n (ke_stats e) in
  l ← mutex_unlock l;
  set_engine (set_stats st l).

(** The device a key belongs to; a remainder by zero is undefined. *)
Definition shard_device (key : bytes) : prog est (Z * kv_device_ctx_t) :=
  e ← engine;
  if ke_num_devices e =? 0 then undefined else
  let i := kv_engine_shard_for_key key (ke_num_devices e) in
  match ke_devices e !! Z.to_nat i with
  | Some ctx => mret (i, ctx)
  | None => undefined
  end.

(** [device_record_result(&engine->devices[dev_idx], kvs_res)]. *)
Definition record_result (dev_idx : Z) (kvs_res : kvs_result) : prog est unit :=
  e ← engine;
  match ke_devices e !! Z.to_nat dev_idx with
  | Some ctx => set_engine (set_devices
      (<[Z.to_nat dev_idx := device_record_result ctx kvs_res]> (ke_devices e)))
  | None => undefined
  end.

(** A key-table operation between [hash_lock] and its unlock. *)
Definition with_table {A} (f : hash_table_t -> prog heap (option hash_table_t * A)) : prog est A :=
  e ← engine;
  l ← mutex_lock (ke_hash_lock e);
  r ← with_heap (f (ke_key_table e));
  match r with
  | (Some t, a) => l ← mutex_unlock l; _ ← set_engine (set_table t l); mret a
  | (None, _) => undefined
  end.

Definition bad_key_len (key_len : Z) : bool := (key_len <? 4) || (255 <? key_len).

(** ** Store *)

(** From the key-table update on; [aligned_buf] is 0 when the caller's buffer is
    used.  The device reads [kv_value.length], a 32-bit field. *)
Definition store_submit (dev_idx : Z) (ctx : kv_device_ctx_t) (key : bytes) (key_len : Z)
    (value : cbuf) (value_len : Z) (aligned_buf : Z) (overwrite : bool) : prog est kv_result_t :=
  _ ← with_table (fun t =>
        r ← key_in_table (Some t) (Some key) key_len;
        if r.2 =? 0 then
          t' ← add_key r.1 (Some key) key_len; mret (t', tt)
        else mret (r.1, tt));
  data ← (if aligned_buf =? 0 then read_arg (cb_bytes value) (u32 value_len)
          else with_heap (load_bytes aligned_buf (u32 value_len)));
  kvs_res ← call_kvs (kvs_store_kvp (dc_keyspace ctx) key data
              (if overwrite then KVS_STORE_POST else KVS_STORE_NOOVERWRITE));
  _ ← record_result dev_idx kvs_res;
  _ ← (if aligned_buf =? 0 then mret tt else with_heap (dma_free aligned_buf));
  _ ← update_stats false true false (bool_decide (kvs_res = KVS_SUCCESS)) value_len;
  mret (map_kvs_result kvs_res).

Definition kv_engine_store (eng : bool) (key : option bytes) (key_len : Z)
    (value : option cbuf) (value_len : Z) (overwrite : bool) : prog est kv_result_t :=
  e ← engine;
  match key, value with
  | Some kp, Some v =>
    if negb eng || negb (ke_initialized e) then mret KV_ERR_INVALID_PARAM else
    if bad_key_len key_len then mret KV_ERR_INVALID_PARAM else
    k ← read_arg kp key_len;
    d ← shard_device k;
    let '(dev_idx, ctx) := (d : Z * kv_device_ctx_t) in
    let health := check_device_health ctx in
    if negb (bool_decide (health = KV_SUCCESS)) then mret health else
    if IS_DMA_ALIGNED (cb_addr v)
    then store_submit dev_idx ctx k key_len v value_len 0 overwrite
    else
      aligned_buf ← with_heap (dma_alloc value_len);
      if aligned_buf =? 0 then mret KV_ERR_NO_MEMORY else
      src ← read_arg (cb_bytes v) value_len;
      _ ← with_heap (store_bytes aligned_buf src);
      store_submit dev_idx ctx k key_len v value_len aligned_buf overwrite
  | _, _ => mret KV_ERR_INVALID_PARAM
  end.

(** ** Retrieve *)

Definition pool_acquire : prog est Z :=
  e ← engine;
  match ke_buffer_pool e with
  | None => mret 0
  | Some p =>
    match dma_pool_acquire p with
    | Done b p' => _ ← set_engine (set_buffer_pool p'); mret b
    | Undef => undefined
    | Exit _ => exit_process
    end
  end.

(** [dma_pool_release(engine->buffer_pool, buffer)]. *)
Definition pool_release (buffer : Z) : prog est unit :=
  e ← engine;
  match ke_buffer_pool e with
  | None => undefined
  | Some p =>
    match dma_pool_release buffer p with
    | Done _ p' => set_engine (set_buffer_pool p')
    | Undef => undefined
    | Exit _ => exit_process
    end
  end.

Definition give_back (from_pool : bool) (buffer : Z) : prog est unit :=
  if from_pool then pool_release buffer else with_heap (dma_free buffer).

(** One [kvs_retrieve_kvp] into [buffer]. *)
Definition retrieve_into (ctx : kv_device_ctx_t) (key : bytes) (delete_value : bool)
    (buffer len : Z) : prog est (kvs_result * kvs_retrieved) :=
  r ← call_kvs (kvs_retrieve_kvp (dc_keyspace ctx) key delete_value len);
  _ ← with_heap (store_bytes buffer (rt_data r.2));
  mret r.

(** From [device_record_result] on. *)
Definition retrieve_finish (dev_idx : Z) (key : bytes) (key_len : Z) (delete_value : bool)
    (from_pool : bool) (buffer : Z) (r : kvs_result * kvs_retrieved)
    : prog est (kv_result_t * option (Z * Z)) :=
  let '(kvs_res, out) := r in
  _ ← record_result dev_idx kvs_res;
  _ ← (if delete_value && bool_decide (kvs_res = KVS_SUCCESS)
       then with_table (fun t => t' ← delete_key (Some t) (Some key) key_len; mret (t', tt))
       else mret tt);
  if negb (bool_decide (kvs_res = KVS_SUCCESS)) then
    _ ← give_back from_pool buffer;
    _ ← update_stats true false false false 0;
    mret (map_kvs_result kvs_res, None)
  else
    _ ← update_stats true false false true (rt_actual_value_size out);
    mret (KV_SUCCESS, Some (buffer, rt_length out)).

(** The result carries the buffer and the length written through [value] and
    [value_len], which [outs] tells to be non-null. *)
Definition kv_engine_retrieve (eng : bool) (key : option bytes) (key_len : Z) (outs : bool)
    (delete_value : bool) : prog est (kv_result_t * option (Z * Z)) :=
  e ← engine;
  match key with
  | None => mret (KV_ERR_INVALID_PARAM, None)
  | Some kp =>
    if negb eng || negb (ke_initialized e) || (key_len =? 0) || negb outs
    then mret (KV_ERR_INVALID_PARAM, None) else
    if bad_key_len key_len then mret (KV_ERR_INVALID_PARAM, None) else
    k ← read_arg kp key_len;
    d ← shard_device k;
    let '(dev_idx, ctx) := (d : Z * kv_device_ctx_t) in
    let health := check_device_health ctx in
    if negb (bool_decide (health = KV_SUCCESS)) then mret (health, None) else
    pooled ← pool_acquire;
    let from_pool := negb (pooled =? 0) in
    buffer ← (if pooled =? 0 then with_heap (dma_alloc KV_ENGINE_RETRIEVE_SIZE) else mret pooled);
    if buffer =? 0 then mret (KV_ERR_NO_MEMORY, None) else
    r ← retrieve_into ctx k delete_value buffer KV_ENGINE_RETRIEVE_SIZE;
    if bool_decide (r.1 = KVS_ERR_BUFFER_SMALL) then
      _ ← give_back from_pool buffer;
      let size := rt_actual_value_size r.2 in
      buffer ← with_heap (dma_alloc size);
      if buffer =? 0 then mret (KV_ERR_NO_MEMORY, None) else
      r ← retrieve_into ctx k delete_value buffer size;
      retrieve_finish dev_idx k key_len delete_value false buffer r
    else retrieve_finish dev_idx k key_len delete_value from_pool buffer r
  end.

(** ** Delete and exists *)

Definition kv_engine_delete (eng : bool) (key : option bytes) (key_len : Z)
    : prog est kv_result_t :=
  e ← engine;
  match key with
  | None => mret KV_ERR_INVALID_PARAM
  | Some kp =>
    if negb eng || negb (ke_initialized e) then mret KV_ERR_INVALID_PARAM else
    if bad_key_len key_len then mret KV_ERR_INVALID_PARAM else
    k ← read_arg kp key_len;
    d ← shard_device k;
    let '(dev_idx, ctx) := (d : Z * kv_device_ctx_t) in
    let health := check_device_health ctx in
    if negb (bool_decide (health = KV_SUCCESS)) then mret health else
    kvs_res ← call_kvs (kvs_delete_kvp (dc_keyspace ctx) k false);
    _ ← record_result dev_idx kvs_res;
    _ ← with_table (fun t => t' ← delete_key (Some t) (Some k) key_len; mret (t', tt));
    _ ← update_stats false false true (bool_decide (kvs_res = KVS_SUCCESS)) 0;
    mret (map_kvs_result kvs_res)
  end.

(** [exists] is the value written through the output pointer. *)
Definition kv_engine_exists (eng : bool) (key : option bytes) (key_len : Z) (outs : bool)
    : prog est (kv_result_t * option Z) :=
  e ← engine;
  match key with
  | None => mret (KV_ERR_INVALID_PARAM, None)
  | Some kp =>
    if negb eng || negb (ke_initialized e) || negb outs then mret (KV_ERR_INVALID_PARAM, None) else
    if bad_key_len key_len then mret (KV_ERR_INVALID_PARAM, None) else
    k ← read_arg kp key_len;
    d ← shard_device k;
    let '(dev_idx, ctx) := (d : Z * kv_device_ctx_t) in
    let health := check_device_health ctx in
    if negb (bool_decide (health = KV_SUCCESS)) then mret (health, None) else
    hash_value_check ← with_table (fun t => key_in_table (Some t) (Some k) key_len);
    r ← call_kvs (kvs_exist_kv_pairs (dc_keyspace ctx) k);
    let '(kvs_res, result_buffer) := (r : kvs_result * Z) in
    _ ← record_result dev_idx kvs_res;
    if negb (bool_decide (kvs_res = KVS_SUCCESS)) then mret (map_kvs_result kvs_res, None)
    else mret (KV_SUCCESS,
      Some (if negb (result_buffer =? 0) && negb (hash_value_check =? 0) then 1 else 0))
  end.

(** ** Statistics and buffers *)

Definition kv_engine_get_stats (eng outs : bool) : prog est (kv_result_t * option kv_engine_stats_t) :=
  if negb eng || negb outs then mret (KV_ERR_INVALID_PARAM, None) else
  e ← engine;
  l ← mutex_lock (ke_stats_lock e);
  let stats := ke_stats e in
  l ← mutex_unlock l;
  _ ← set_engine (set_stats stats l);
  mret (KV_SUCCESS, Some stats).

Definition kv_engine_reset_stats (eng : bool) : prog est unit :=
  if negb eng then mret tt else
  e ← engine;
  l ← mutex_lock (ke_stats_lock e);
  l ← mutex_unlock l;
  set_engine (set_stats zero_stats l).

Definition kv_engine_alloc_buffer (size : Z) : prog est Z :=
  e ← engine;
  match ke_buffer_pool e with
  | Some p =>
    if size <=? dp_buffer_size p then
      buf ← pool_acquire;
      if buf =? 0 then with_heap (dma_alloc size) else mret buf
    else with_heap (dma_alloc size)
  | None => with_heap (dma_alloc size)
  end.

Definition kv_engine_free_buffer (buffer : Z) : prog est unit :=
  e ← engine;
  match ke_buffer_pool e with
  | Some p =>
    match dma_pool_owns buffer p with
    | Done o _ => if o =? 0 then with_heap (dma_free buffer) else pool_release buffer
    | Undef => undefined
    | Exit _ => exit_process
    end
  | None => with_heap (dma_free buffer)
  end.
End engine.
