(* ===== verification/EngineSpec.v ===== *)
(** * The engine implements a key-value map

    The invariant of a running engine, the rules of its operations, and the
    theorems: what store, retrieve, delete and exists do to the map that the
    devices hold together, on every branch, for every device library that keeps
    the laws of [KvsApi.v] and every allocator. *)
From S2P Require Import Prelude Libc KvTypes MemoryPool DmaPool UtHash HashTable KvsApi.
From S2P Require Import MultiDevice ThreadPool Engine.

(** ** The map the devices hold *)

Section view.
Context `{V : KvsView}.

(** The value of a key: what the key space of the key's device holds under it. *)
Definition lookup_kv (st : kvs_state) (e : kv_engine) (k : bytes) : option bytes :=
  match ke_devices e !! Z.to_nat (kv_engine_shard_for_key k (ke_num_devices e)) with
  | Some ctx =>
    match space_of st (dc_keyspace ctx) with
    | Some s => data st s !! k
    | None => None
    end
  | None => None
  end.

(** What never changes in a context while its device is open. *)
Definition ctx_ids (ctx : kv_device_ctx_t) : Z * Z * Z :=
  (dc_device ctx, dc_keyspace ctx, dc_device_path ctx).

(** Everything of the engine but its locks, counters, key table and free lists. *)
Definition same_engine (e e' : kv_engine) : Prop :=
  ctx_ids <$> ke_devices e' = ctx_ids <$> ke_devices e /\
  ke_num_devices e' = ke_num_devices e /\ ke_self e' = ke_self e /\
  ke_config_path e' = ke_config_path e /\ ke_config_emul e' = ke_config_emul e /\
  ke_mem_pool e' = ke_mem_pool e /\ ke_workers e' = ke_workers e /\
  ke_health_probe e' = ke_health_probe e /\
  pool_ids <$> ke_buffer_pool e' = pool_ids <$> ke_buffer_pool e.

(** ** The invariant *)

Definition devices_ok (st : kvs_state) (e : kv_engine) : Prop :=
  1 <= ke_num_devices e <= KV_MAX_DEVICES /\
  length (ke_devices e) = Z.to_nat KV_MAX_DEVICES /\
  (forall i ctx, (i < Z.to_nat (ke_num_devices e))%nat -> ke_devices e !! i = Some ctx ->
     device_open ctx st).

(** [bufs] are the buffers of the pool, [stack] the free ones among them. *)
Definition pool_ok (e : kv_engine) (m : gmap Z block) (bufs stack : list Z) : Prop :=
  match ke_buffer_pool e with
  | None => bufs = [] /\ stack = []
  | Some p => pool_rep p bufs stack /\ dp_buffer_size p = KV_ENGINE_RETRIEVE_SIZE
  end /\ NoDup stack /\
  forall b, b ∈ bufs -> exists blk, m !! b = Some blk /\ blk_size blk = KV_ENGINE_RETRIEVE_SIZE.

(** The running engine: unlocked, its devices open, its table standing for the
    keys [Kt] with the blocks [lt], its buffer pool consistent. *)
Record inv (m : gmap Z block) (st : kvs_state) (e : kv_engine)
    (Kt : keyset) (lt bufs stack : list Z) : Prop := Inv {
  inv_init : ke_initialized e = true;
  inv_stats_lock : ke_stats_lock e = M_free;
  inv_hash_lock : ke_hash_lock e = M_free;
  inv_devices : devices_ok st e;
  inv_table : table_is (ke_key_table e) Kt m lt;
  inv_pool : pool_ok e m bufs stack;
  inv_owns : owns (lt ++ bufs) m
}.
End view.

(** The part of a value the device sees: [kv_value.length] has 32 bits. *)
Definition wire (v : bytes) : bytes := take (Z.to_nat (u32 (Z.of_nat (length v)))) v.

Lemma wire_small v : Z.of_nat (length v) < 2 ^ 32 -> wire v = v.
Proof.
  intros H. unfold wire. rewrite wrap_small, Nat2Z.id, firstn_all by (unfold in_word; lia). done.
Qed.

(** A key every operation accepts. *)
Definition engine_key (k : bytes) : Prop := (4 <= length k <= 255)%nat.

Lemma engine_key_ok k : engine_key k -> key_ok k.
Proof. unfold engine_key, key_ok. lia. Qed.

Lemma engine_key_len k : engine_key k -> bad_key_len (Z.of_nat (length k)) = false.
Proof. unfold engine_key, bad_key_len. intros. apply orb_false_iff; split; bool_lia. Qed.

(** ** Rules for the pieces *)

Section rules.
Context {AB : Abi} {AL : Allocator} {LIM : AllocLimit AL} `{KS : KvsSpec}.
Implicit Types (st : kvs_state) (e : kv_engine).

(** The process ends only when memory was refused since [h0]. *)
Definition oom (h0 : heap) (s : est) : Prop := out_of_memory h0 (w_heap (es_w s)).

Lemma wp_with_heap {A} X (m : prog heap A) (Q : A -> est -> Prop) h st e :
  wp (fun h' => X (Est (World h' st) e)) m (fun a h' => Q a (Est (World h' st) e)) h ->
  wp X (with_heap m) Q (Est (World h st) e).
Proof. intros H. by apply wp_zoom. Qed.

Lemma wp_call_kvs {A} X (f : kvs_state -> A * kvs_state) (Q : A -> est -> Prop) h st e :
  (forall a st', f st = (a, st') -> Q a (Est (World h st') e)) ->
  wp X (call_kvs f) Q (Est (World h st) e).
Proof. intros H. unfold call_kvs. apply wp_zoom. simpl. by apply wp_kvs. Qed.

Lemma wp_shard_device X k h st e (Q : _ -> est -> Prop) :
  devices_ok st e ->
  (forall ctx, ke_devices e !! Z.to_nat (kv_engine_shard_for_key k (ke_num_devices e)) = Some ctx ->
     device_open ctx st ->
     Q (kv_engine_shard_for_key k (ke_num_devices e), ctx) (Est (World h st) e)) ->
  wp X (shard_device k) Q (Est (World h st) e).
Proof.
  intros (Hn & Hlen & Hopen) HQ. unfold shard_device. apply wp_bind, wp_ret. simpl.
  replace (ke_num_devices e =? 0) with false by lia.
  pose proof (shard_range k (ke_num_devices e) ltac:(lia)) as Hr.
  destruct (ke_devices e !! _) as [ctx|] eqn:E.
  - apply wp_ret, HQ; [done|]. eapply Hopen; [|done]. lia.
  - apply lookup_ge_None in E. unfold KV_MAX_DEVICES in *. lia.
Qed.

Lemma wp_update_stats X a b c d n h st e (Q : unit -> est -> Prop) :
  ke_stats_lock e = M_free ->
  Q tt (Est (World h st) (set_stats (stats_after a b c d n (ke_stats e)) M_free e)) ->
  wp X (update_stats a b c d n) Q (Est (World h st) e).
Proof. intros Hl HQ. unfold update_stats. apply wp_bind, wp_ret. simpl. rewrite Hl. done. Qed.

Lemma wp_record_result X i r ctx h st e (Q : unit -> est -> Prop) :
  ke_devices e !! Z.to_nat i = Some ctx ->
  Q tt (Est (World h st) (set_devices
    (<[Z.to_nat i := device_record_result ctx r]> (ke_devices e)) e)) ->
  wp X (record_result i r) Q (Est (World h st) e).
Proof. intros Hl HQ. unfold record_result. apply wp_bind, wp_ret. simpl. by rewrite Hl. Qed.

(** *** What the pieces keep *)

Lemma record_ids ctx r : ctx_ids (device_record_result ctx r) = ctx_ids ctx.
Proof. unfold device_record_result. by case_match. Qed.

Lemma same_handles_trans st st1 st2 : same_handles st st1 -> same_handles st1 st2 -> same_handles st st2.
Proof. intros [? ?] [? ?]. split; congruence. Qed.

Lemma same_engine_refl e : same_engine e e.
Proof. done. Qed.

Lemma same_engine_trans e e1 e2 : same_engine e e1 -> same_engine e1 e2 -> same_engine e e2.
Proof. unfold same_engine. intros. destruct_and!. split_and!; congruence. Qed.

Lemma same_engine_record e i ctx r :
  ke_devices e !! i = Some ctx ->
  same_engine e (set_devices (<[i := device_record_result ctx r]> (ke_devices e)) e).
Proof.
  intros Hi. split_and!; try done. simpl. rewrite list_fmap_insert, record_ids.
  apply list_insert_id. by rewrite list_lookup_fmap, Hi.
Qed.

Lemma ctx_ids_lookup e e' i ctx :
  same_engine e e' -> ke_devices e !! i = Some ctx ->
  exists ctx', ke_devices e' !! i = Some ctx' /\ ctx_ids ctx' = ctx_ids ctx.
Proof.
  intros (Hids & _) Hi. assert ((ctx_ids <$> ke_devices e') !! i = Some (ctx_ids ctx)) as H.
  { by rewrite Hids, list_lookup_fmap, Hi. }
  rewrite list_lookup_fmap in H. destruct (ke_devices e' !! i) as [ctx'|]; simpl in H; [|done].
  exists ctx'. split; [done|congruence].
Qed.

Lemma device_open_ids ctx ctx' st st' :
  ctx_ids ctx' = ctx_ids ctx -> same_handles st st' -> device_open ctx st -> device_open ctx' st'.
Proof.
  unfold ctx_ids, device_open. intros [= E1 E2 E3] [H1 H2]. by rewrite E1, E2, H1, H2.
Qed.

Lemma same_engine_sym e e' : same_engine e e' -> same_engine e' e.
Proof. unfold same_engine. intros. destruct_and!. by split_and!. Qed.

Lemma devices_ok_same st st' e e' :
  same_handles st st' -> same_engine e e' -> devices_ok st e -> devices_ok st' e'.
Proof.
  intros Hh Hs (Hn & Hlen & Hopen). pose proof Hs as (Hids & Hnum & _).
  split_and!; [lia|lia|by rewrite <- Hlen, <- (length_fmap ctx_ids), Hids, length_fmap|].
  intros i ctx Hi Hctx. apply same_engine_sym in Hs as Hs'.
  destruct (ctx_ids_lookup _ _ _ _ Hs' Hctx) as (ctx0 & Hctx0 & E).
  eapply device_open_ids; [by symmetry|done|]. eapply Hopen; [|done]. by rewrite Hnum in Hi.
Qed.

Lemma device_open_space ctx st : device_open ctx st -> exists s, space_of st (dc_keyspace ctx) = Some s.
Proof.
  intros (_ & _ & [p Hp] & name & Hk). exists (p, name). unfold space_of. by rewrite Hk, Hp.
Qed.

(** The map through an engine that only its counters distinguish. *)
Lemma lookup_kv_same st e e' k : same_engine e e' -> lookup_kv st e' k = lookup_kv st e k.
Proof.
  intros Hs. unfold lookup_kv. pose proof Hs as (Hids & Hnum & _). rewrite Hnum.
  destruct (ke_devices e !! _) as [ctx|] eqn:E.
  - destruct (ctx_ids_lookup _ _ _ _ Hs E) as (ctx' & -> & Eid).
    unfold ctx_ids in Eid. injection Eid as _ -> _. done.
  - apply same_engine_sym in Hs. destruct (ke_devices e' !! _) as [ctx'|] eqn:E'; [|done].
    destruct (ctx_ids_lookup _ _ _ _ Hs E') as (? & ? & _). congruence.
Qed.

(** A call on the device of [k] that touches only [k]. *)
Lemma lookup_kv_touches st st' e k ctx s :
  ke_devices e !! Z.to_nat (kv_engine_shard_for_key k (ke_num_devices e)) = Some ctx ->
  space_of st (dc_keyspace ctx) = Some s -> touches_only s k st st' ->
  lookup_kv st e k = data st s !! k /\ lookup_kv st' e k = data st' s !! k /\
  forall k', k' <> k -> lookup_kv st' e k' = lookup_kv st e k'.
Proof.
  intros Hctx Hs [Hh Hd]. unfold lookup_kv. rewrite Hctx, (space_of_same _ _ _ Hh), Hs.
  split_and!; try done. intros k' Hk'. clear Hctx Hs. destruct (ke_devices e !! _) as [ctx'|]; [|done].
  rewrite (space_of_same _ _ _ Hh). destruct (space_of st _) as [s'|]; [|done].
  apply Hd. congruence.
Qed.

(** *** The key table inside the engine *)

Lemma table_is_frame t Kt m m' l :
  table_is t Kt m l -> (forall a, a ∈ l -> is_Some (m !! a) -> is_Some (m' !! a)) ->
  table_is t Kt m' l.
Proof.
  intros (es & ? & ? & ? & ? & Hnd & Hin) Hm. exists es. split_and!; try done.
  split; [done|]. intros a Ha. destruct (Hin a Ha). eauto.
Qed.

(** A table operation: it may reorganise the table's own blocks, and keeps every
    other block [r] the caller knows of. *)
Lemma wp_with_table {A} (X : est -> Prop) (f : hash_table_t -> prog heap (option hash_table_t * A))
    (Q : A -> est -> Prop) (tr : list bool) (m : gmap Z block) st e (lt r : list Z)
    (R : A -> keyset -> heap -> Prop) :
  ke_hash_lock e = M_free -> owns (lt ++ r) m ->
  wp (fun h => X (Est (World h st) e)) (f (ke_key_table e)) (fun x h =>
    exists t1 K1 l1, x.1 = Some t1 /\ table_is t1 K1 (h_blocks h) l1 /\
      R x.2 K1 h /\ reown m lt (h_blocks h) l1) (Heap tr m) ->
  (forall a t1 K1 l1 h, table_is t1 K1 (h_blocks h) l1 -> R a K1 h ->
     reown m (lt ++ r) (h_blocks h) (l1 ++ r) ->
     (forall b, b ∈ r -> h_blocks h !! b = m !! b) ->
     Q a (Est (World h st) (set_table t1 M_free e))) ->
  wp X (with_table f) Q (Est (World (Heap tr m) st) e).
Proof.
  intros Hl Ho Hf HQ. unfold with_table. apply wp_bind, wp_ret. simpl. rewrite Hl.
  apply wp_bind, wp_ret, wp_bind, wp_with_heap. eapply wp_mono; [exact Hf|].
  cbn beta. intros [ot a] h (t1 & K1 & l1 & Hx & Ht & HR & Hre). simpl in Hx, HR. subst ot.
  destruct (reown_frame _ _ _ _ r Ho Hre) as [Hre' Hsame].
  exact (HQ _ _ _ _ _ Ht HR Hre' Hsame).
Qed.

(** Store's update of the table: the key is in it afterwards, unless memory was
    refused. *)
Lemma wp_table_ensure (h0 : heap) (k : bytes) (tr : list bool) m (Kt : keyset) t l :
  table_is t Kt m l -> key_ok k -> (refusals h0 <= refusals (Heap tr m))%nat ->
  wp (out_of_memory h0)
    (r ← key_in_table (Some t) (Some k) (Z.of_nat (length k));
     if r.2 =? 0 then t' ← add_key r.1 (Some k) (Z.of_nat (length k)); mret (t', tt)
     else mret (r.1, tt))
    (fun x h => exists t1 K1 l1, x.1 = Some t1 /\ table_is t1 K1 (h_blocks h) l1 /\
       ((K1 = Kt ∪ {[k]} \/ K1 = Kt /\ out_of_memory (Heap tr m) h) /\
        (refusals (Heap tr m) <= refusals h)%nat) /\
       reown m l (h_blocks h) l1) (Heap tr m).
Proof.
  intros Ht Hk Hr. apply wp_bind. eapply wp_mono; [by apply wp_key_in_table|]. cbn beta.
  intros ? ? (t1 & -> & Ht1 & ->). cbn [fst snd]. case_decide as Hin; simpl (_ =? _); cbv iota.
  - apply wp_ret. exists t1, Kt, l. split_and!; try done.
    + left. set_solver.
    + apply reown_refl. by destruct Ht as (? & ? & ? & ? & ? & ?).
  - apply wp_bind. eapply wp_mono; [by apply (wp_add_key h0 _ Kt _ l)|]. cbn beta.
    intros ? h (t2 & K2 & l2 & -> & Ht2 & HK2 & Hr2 & Hre). apply wp_ret.
    exists t2, K2, l2. by split_and!.
Qed.

Lemma wp_table_remove (X : heap -> Prop) (k : bytes) (tr : list bool) m (Kt : keyset) t l :
  table_is t Kt m l -> key_ok k ->
  wp X (t' ← delete_key (Some t) (Some k) (Z.of_nat (length k)); mret (t', tt))
    (fun x h => exists t1 K1 l1, x.1 = Some t1 /\ table_is t1 K1 (h_blocks h) l1 /\
       (K1 = Kt ∖ {[k]} /\ h_log h = tr) /\ reown m l (h_blocks h) l1) (Heap tr m).
Proof.
  intros Ht Hk. apply wp_bind. eapply wp_mono; [by apply wp_delete_key|]. cbn beta.
  intros ? h (t1 & l1 & -> & ? & ? & ?). apply wp_ret. exists t1, (Kt ∖ {[k]}), l1. by split_and!.
Qed.

(** *** Re-establishing the invariant *)

Lemma inv_update m st e Kt lt bufs stack m' st' e' Kt' lt' :
  inv m st e Kt lt bufs stack ->
  same_handles st st' -> same_engine e e' ->
  ke_initialized e' = true -> ke_stats_lock e' = M_free -> ke_hash_lock e' = M_free ->
  ke_buffer_pool e' = ke_buffer_pool e ->
  table_is (ke_key_table e') Kt' m' lt' ->
  reown m (lt ++ bufs) m' (lt' ++ bufs) -> (forall b, b ∈ bufs -> m' !! b = m !! b) ->
  inv m' st' e' Kt' lt' bufs stack.
Proof.
  intros [Hi Hsl Hhl Hd Ht [Hp [Hns Hb]] Ho] Hh Hs Hi' Hsl' Hhl' Hbp Ht' Hre Hbufs.
  split; try done.
  - by eapply devices_ok_same.
  - split_and!; [by rewrite Hbp|done|]. intros b Hin. rewrite (Hbufs b Hin). by apply Hb.
  - apply Hre.
Qed.

(** What every operation guarantees of the engine and the heap around the key:
    the engine stays the same engine, the heap outside the table is untouched. *)
Record kept (m : gmap Z block) (e : kv_engine) (lt : list Z) (bufs : list Z)
    (m' : gmap Z block) (e' : kv_engine) (lt' : list Z) : Prop := Kept {
  kept_engine : same_engine e e';
  kept_heap : reown m (lt ++ bufs) m' (lt' ++ bufs);
  kept_bufs : forall b, b ∈ bufs -> m' !! b = m !! b
}.

(** Errors that may stand for a fault of the device. *)
Definition fault (r : kv_result_t) : Prop :=
  r = KV_ERR_IO \/ r = KV_ERR_DEVICE_NOT_FOUND \/ r = KV_ERR_DEVICE_FULL.

Lemma device_error_fault r : is_device_error r = true -> fault (map_kvs_result r).
Proof. unfold fault. by destruct r; auto. Qed.

Lemma map_update_not_allowed r :
  map_kvs_result r = KV_ERR_KEY_ALREADY_EXISTS -> r = KVS_ERR_VALUE_UPDATE_NOT_ALLOWED.
Proof. by destruct r. Qed.

Lemma map_not_found r : map_kvs_result r = KV_ERR_KEY_NOT_FOUND -> r = KVS_ERR_KEY_NOT_EXIST.
Proof. by destruct r. Qed.

(** ** Store *)

(** The effect of a store on the map, by its result. *)
Definition store_effect (k v : bytes) (overwrite : bool) (r : kv_result_t)
    (M M' : bytes -> option bytes) : Prop :=
  (forall k', k' <> k -> M' k' = M k') /\
  (r = KV_SUCCESS -> M' k = Some (wire v) /\ (overwrite = false -> M k = None)) /\
  (r = KV_ERR_KEY_ALREADY_EXISTS -> overwrite = false /\ is_Some (M k)) /\
  (r <> KV_SUCCESS -> M' k = M k \/ fault r /\ M' k = Some (wire v)).

Lemma store_effect_none k v ow r M :
  r = KV_ERR_DEVICE_DEGRADED \/ r = KV_ERR_NO_MEMORY -> store_effect k v ow r M M.
Proof. unfold store_effect. intros [-> | ->]; split_and!; try done; by left. Qed.

Lemma wp_load_bytes X a b n (Q : bytes -> heap -> Prop) h :
  h_blocks h !! a = Some b -> n <= Z.of_nat (length (blk_data b)) ->
  Q (take (Z.to_nat n) (blk_data b)) h -> wp X (load_bytes a n) Q h.
Proof.
  intros Ha Hn HQ. unfold wp, load_bytes. rewrite Ha. by rewrite (proj2 (Z.leb_le _ _) Hn).
Qed.

Lemma wp_store_bytes X a b l (Q : unit -> heap -> Prop) t m :
  m !! a = Some b -> Z.of_nat (length l) <= blk_size b ->
  Q tt (Heap t (<[a := Block (blk_size b) (l ++ drop (length l) (blk_data b))]> m)) ->
  wp X (store_bytes a l) Q (Heap t m).
Proof.
  intros Ha Hn HQ. unfold wp, store_bytes. simpl. rewrite Ha. by rewrite (proj2 (Z.leb_le _ _) Hn).
Qed.

(** The copy made for an unaligned value: nothing, or one more block that holds
    the value. *)
Definition copy_ok (aligned_buf : Z) (v : bytes) (m : gmap Z block) (r : list Z) : Prop :=
  (aligned_buf = 0 /\ r = []) \/
  (0 < aligned_buf /\ r = [aligned_buf] /\ exists sz, m !! aligned_buf = Some (Block sz v)).

Lemma store_data X (aligned_buf : Z) v m r h st e (Q : bytes -> est -> Prop) :
  copy_ok aligned_buf v m r -> (forall b, b ∈ r -> h_blocks h !! b = m !! b) ->
  Q (wire v) (Est (World h st) e) ->
  wp X (if aligned_buf =? 0 then read_arg v (u32 (Z.of_nat (length v)))
        else with_heap (load_bytes aligned_buf (u32 (Z.of_nat (length v))))) Q (Est (World h st) e).
Proof.
  intros Hc Hm HQ.
  assert (0 <= u32 (Z.of_nat (length v)) <= Z.of_nat (length v)) as Hw.
  { unfold wrap. split; [apply Z.mod_pos_bound; lia|]. apply Z.mod_le; lia. }
  destruct Hc as [[-> ->]|(Hpos & -> & sz & Hb)]; simpl.
  - unfold wp, read_arg. by rewrite (proj2 (Z.leb_le _ _) (proj2 Hw)).
  - replace (aligned_buf =? 0) with false by lia. apply wp_with_heap.
    eapply wp_load_bytes; [rewrite Hm by set_solver; exact Hb|simpl; lia|done].
Qed.

Lemma owns_mid (lt r bufs : list Z) m : owns (lt ++ r ++ bufs) m <-> owns (r ++ lt ++ bufs) m.
Proof.
  assert (lt ++ r ++ bufs ≡ₚ r ++ lt ++ bufs) as Hp by solve_Permutation. by rewrite Hp.
Qed.

(** Dropping the temporary copy. *)
Lemma reown_drop_copy aligned_buf v m m1 r lt lt1 bufs :
  copy_ok aligned_buf v m r -> reown m (lt ++ r ++ bufs) m1 (lt1 ++ r ++ bufs) ->
  (forall b, b ∈ bufs -> m1 !! b = m !! b) ->
  reown (delete_all r m) (lt ++ bufs) (delete_all r m1) (lt1 ++ bufs) /\
  (forall b, b ∈ bufs -> delete_all r m1 !! b = delete_all r m !! b) /\
  (forall b, b ∈ lt1 -> delete_all r m1 !! b = m1 !! b).
Proof.
  intros Hc [[Hnd Hin] E] Hb.
  assert (forall b, b ∈ lt1 ++ bufs -> b ∉ r) as Hdis.
  { intros b Hb' Hr. apply NoDup_app in Hnd as (_ & Hd1 & Hnd2).
    apply NoDup_app in Hnd2 as (_ & Hd2 & _). apply elem_of_app in Hb' as [Hb'|Hb'].
    - apply (Hd1 b Hb'). set_solver.
    - by apply (Hd2 b Hr). }
  assert (forall b, b ∉ r -> forall m', delete_all r m' !! b = m' !! b) as Hlk.
  { intros b Hn m'. by rewrite lookup_delete_all, decide_False. }
  split_and!.
  - split.
    + split.
      * apply NoDup_app in Hnd as (N1 & D1 & N2). apply NoDup_app in N2 as (_ & _ & N3).
        apply NoDup_app. split_and!; try done. intros b Hb1 Hb2. apply (D1 b Hb1). set_solver.
      * intros b Hb'. rewrite Hlk by (by apply Hdis). apply Hin. set_solver.
    + rewrite <- !delete_all_app. etransitivity; [|etransitivity; [exact E|]].
      * apply delete_all_perm; [solve_Permutation|done].
      * apply delete_all_perm; [solve_Permutation|done].
  - intros b Hb'. rewrite !Hlk by (apply Hdis; set_solver). by apply Hb.
  - intros b Hb'. apply Hlk, Hdis. set_solver.
Qed.

(** Freeing the temporary copy, if there is one. *)
Lemma wp_free_copy X (aligned_buf : Z) v m r tr m1 st e (Q : unit -> est -> Prop) :
  copy_ok aligned_buf v m r -> (forall b, b ∈ r -> m1 !! b = m !! b) ->
  Q tt (Est (World (Heap tr (delete_all r m1)) st) e) ->
  wp X (if aligned_buf =? 0 then mret tt else with_heap (dma_free aligned_buf)) Q
    (Est (World (Heap tr m1) st) e).
Proof.
  intros Hc Hm HQ. destruct Hc as [[-> ->]|(Hpos & -> & sz & Hb)]; [done|].
  replace (aligned_buf =? 0) with false by lia. apply wp_with_heap, wp_free_in; [done| |done].
  rewrite Hm by set_solver. eauto.
Qed.

(** What store promises of the state it returns in, from one where the temporary
    copy was not yet made. *)
Definition store_post (h0 : heap) (st : kvs_state) (e : kv_engine) (Kt : keyset)
    (lt bufs stack : list Z) (k v : bytes) (overwrite : bool) (r : kv_result_t) (s : est) : Prop :=
  exists tr' m' st' e' Kt' lt', s = Est (World (Heap tr' m') st') e' /\
    inv m' st' e' Kt' lt' bufs stack /\ kept (h_blocks h0) e lt bufs m' e' lt' /\
    same_handles st st' /\ store_effect k v overwrite r (lookup_kv st e) (lookup_kv st' e') /\
    (Kt' = Kt ∪ {[k]} \/ Kt' = Kt /\
       (out_of_memory h0 (Heap tr' m') \/ r = KV_ERR_DEVICE_DEGRADED \/ r = KV_ERR_NO_MEMORY)) /\
    (refusals h0 <= refusals (Heap tr' m'))%nat.

Lemma wp_store_submit (h0 : heap) (k v : bytes) (a aligned_buf : Z) (overwrite : bool) (r : list Z)
    (tr : list bool) (m : gmap Z block) st e (Kt : keyset) (lt bufs stack : list Z) ctx :
  inv (delete_all r m) st e Kt lt bufs stack -> engine_key k ->
  ke_devices e !! Z.to_nat (kv_engine_shard_for_key k (ke_num_devices e)) = Some ctx ->
  device_open ctx st -> copy_ok aligned_buf v m r -> owns (lt ++ r ++ bufs) m ->
  h_blocks h0 = delete_all r m -> (refusals h0 <= refusals (Heap tr m))%nat ->
  wp (oom h0)
    (store_submit (kv_engine_shard_for_key k (ke_num_devices e)) ctx k (Z.of_nat (length k))
       (CBuf a v) (Z.of_nat (length v)) aligned_buf overwrite)
    (store_post h0 st e Kt lt bufs stack k v overwrite) (Est (World (Heap tr m) st) e).
Proof.
  intros Hinv Hk Hctx Hopen Hcopy Ho Hm0 Hr. apply engine_key_ok in Hk as Hk'.
  assert (table_is (ke_key_table e) Kt m lt) as Ht.
  { eapply table_is_frame; [apply Hinv|]. intros b Hb [x Hx].
    rewrite lookup_delete_all in Hx. case_decide; eauto. done. }
  unfold store_submit. apply wp_bind.
  eapply (wp_with_table (oom h0) _ _ tr m st e lt (r ++ bufs) (fun _ K1 h =>
    (K1 = Kt ∪ {[k]} \/ K1 = Kt /\ out_of_memory (Heap tr m) h) /\
    (refusals (Heap tr m) <= refusals h)%nat)); [apply Hinv|done| |].
  { unfold oom. simpl. by apply wp_table_ensure. }
  intros _ t1 K1 lt1 [tr1 m1] Ht1 [HK1 Hr1] Hre1 Hsame1. simpl in Hre1, Hsame1, Ht1.
  apply wp_bind. eapply store_data; [exact Hcopy|intros; apply Hsame1; set_solver|].
  apply wp_bind, wp_call_kvs. intros res st1 Hkvs.
  destruct (device_open_space _ _ Hopen) as [sp Hsp].
  destruct (store_spec _ _ _ _ _ _ _ _ Hkvs Hsp) as (Htouch & Hsucc & Hexist & Hfail).
  destruct (lookup_kv_touches _ _ _ _ _ _ Hctx Hsp Htouch) as (Lk & Lk' & Lother).
  apply wp_bind, (wp_record_result _ _ _ ctx); [done|].
  apply wp_bind. eapply wp_free_copy; [exact Hcopy|intros; apply Hsame1; set_solver|].
  apply wp_bind, wp_update_stats; [apply Hinv|]. apply wp_ret.
  destruct (reown_drop_copy _ _ _ _ _ _ _ _ Hcopy Hre1 ltac:(intros; apply Hsame1; set_solver))
    as (Hre2 & Hbufs2 & Hlt2).
  match goal with |- store_post _ _ _ _ _ _ _ _ _ _ _ (Est _ ?e2) =>
    assert (same_engine e e2) as Hsame by (by apply (same_engine_record (set_table t1 M_free e))) end.
  rewrite <- Hm0 in *.
  eexists tr1, _, st1, _, K1, lt1. split; [reflexivity|]. split_and!.
  - eapply inv_update; [exact Hinv|apply Htouch|exact Hsame|apply Hinv|done|done|done| |done|done].
    simpl. eapply table_is_frame; [exact Ht1|]. intros b Hb Hs. by rewrite Hlt2.
  - by split.
  - apply Htouch.
  - rewrite <- Lk, <- Lk' in *. unfold store_effect.
    setoid_rewrite (lookup_kv_same st1 _ _ _ Hsame). split_and!.
    + done.
    + intros Hs%map_kvs_success. destruct (Hsucc Hs) as [? Hno]. split; [done|].
      intros ->. by apply Hno.
    + intros Hs%map_update_not_allowed. destruct (Hexist Hs) as [Hno ?]. split; [|done].
      by destruct overwrite.
    + rewrite map_kvs_success. intros [?|[Hd ?]]%Hfail; [by left|right].
      split; [by apply device_error_fault|done].
  - destruct HK1 as [->|[-> Hoom]]; [by left|right]. split; [done|left].
    unfold out_of_memory in *. unfold refusals in *. simpl in *. lia.
  - unfold refusals in *. simpl in *. lia.
Qed.

(** The free buffers are buffers of the pool. *)
Lemma stack_in_bufs m st e Kt lt bufs stack b :
  inv m st e Kt lt bufs stack -> b ∈ stack -> b ∈ bufs.
Proof.
  intros Hinv Hb. pose proof (inv_pool _ _ _ _ _ _ _ Hinv) as [Hp _].
  destruct (ke_buffer_pool e) as [p|]; [|destruct Hp as [_ ->]; set_solver].
  destruct Hp as [(_ & _ & _ & _ & _ & _ & _ & _ & _ & Hf) _]. rewrite Forall_forall in Hf. by apply Hf.
Qed.

(** An operation that gave up before changing anything but the allocation log. *)
Lemma kept_refl m st e Kt lt bufs stack :
  inv m st e Kt lt bufs stack -> kept m e lt bufs m e lt.
Proof. intros Hinv. split; [done|apply reown_refl, Hinv|done]. Qed.

Lemma inv_log m st e Kt lt bufs stack :
  inv m st e Kt lt bufs stack -> forall tr, inv (h_blocks (Heap tr m)) st e Kt lt bufs stack.
Proof. done. Qed.

Lemma health_cases ctx :
  check_device_health ctx = KV_SUCCESS /\ dc_healthy ctx = true \/
  check_device_health ctx = KV_ERR_DEVICE_DEGRADED /\ dc_healthy ctx = false.
Proof. unfold check_device_health. destruct (dc_healthy ctx); auto. Qed.

Lemma refusals_le tr tr' m m' :
  tr' = tr \/ tr' = false :: tr \/ tr' = true :: tr ->
  (refusals (Heap tr m) <= refusals (Heap tr' m'))%nat.
Proof. unfold refusals. simpl. intros [->|[-> | ->]]; simpl; lia. Qed.

Lemma wp_kv_engine_store (k v : bytes) (a : Z) (overwrite : bool) (tr : list bool)
    (m : gmap Z block) st e (Kt : keyset) (lt bufs stack : list Z) :
  inv m st e Kt lt bufs stack -> engine_key k ->
  wp (oom (Heap tr m))
    (kv_engine_store true (Some k) (Z.of_nat (length k)) (Some (CBuf a v)) (Z.of_nat (length v))
       overwrite)
    (store_post (Heap tr m) st e Kt lt bufs stack k v overwrite) (Est (World (Heap tr m) st) e).
Proof.
  intros Hinv Hk. unfold kv_engine_store. apply wp_bind, wp_ret. simpl negb.
  rewrite (inv_init _ _ _ _ _ _ _ Hinv), engine_key_len by done. simpl orb. cbv iota.
  apply wp_bind, wp_read_arg_all, wp_bind, wp_shard_device; [apply Hinv|].
  intros ctx Hctx Hopen. cbv iota zeta.
  assert (forall tr', tr' = tr \/ tr' = false :: tr -> forall r,
    r = KV_ERR_DEVICE_DEGRADED \/ r = KV_ERR_NO_MEMORY ->
    store_post (Heap tr m) st e Kt lt bufs stack k v overwrite r
      (Est (World (Heap tr' m) st) e)) as Hgive.
  { intros tr' Htr' r Hr. eexists tr', m, st, e, Kt, lt. split_and!; try done.
    - by eapply kept_refl.
    - by apply store_effect_none.
    - right. split; [done|by right].
    - apply refusals_le. tauto. }
  destruct (health_cases ctx) as [[-> _]|[-> _]].
  2:{ rewrite bool_decide_eq_false_2 by done. apply wp_ret, Hgive; auto. }
  rewrite bool_decide_eq_true_2 by done. simpl negb. cbv iota. case_if Ea.
  - eapply (wp_store_submit _ k v a 0 overwrite []); try done; [by left|apply Hinv].
  - apply wp_bind, wp_with_heap, wp_dma_alloc; [lia|intros; by apply Hgive; auto|].
    intros b Hlen Hb. rewrite (fresh_block_eqb _ _ _ _ Hb).
    pose proof (fresh_block_none _ _ _ _ Hb) as Hbn.
    assert (0 < b) as Hpos by apply Hb.
    apply wp_bind, wp_read_arg_all, wp_bind, wp_with_heap.
    eapply wp_store_bytes; [apply lookup_insert_eq|done|]. simpl. rewrite drop_nil, app_nil_r, insert_insert_eq.
    assert (delete_all [b] (<[b := Block (Z.of_nat (length v)) v]> m) = m) as Hdel
      by (simpl; by apply delete_insert_id).
    eapply (wp_store_submit _ k v a b overwrite [b]); try done.
    + by rewrite Hdel.
    + right. split_and!; [done..|]. exists (Z.of_nat (length v)). apply lookup_insert_eq.
    + simpl. rewrite <- (Permutation_middle lt bufs b).
      eapply reown_alloc; [apply Hinv|done].
Qed.

(** *** Small steps that keep the invariant *)

Lemma inv_record m st e Kt lt bufs stack i ctx r :
  inv m st e Kt lt bufs stack -> ke_devices e !! i = Some ctx ->
  inv m st (set_devices (<[i := device_record_result ctx r]> (ke_devices e)) e) Kt lt bufs stack.
Proof.
  intros [Hi Hsl Hhl Hd Ht Hp Ho] Hctx. split; try done.
  eapply devices_ok_same; [|by apply same_engine_record|done]. done.
Qed.

Lemma inv_stats m st e Kt lt bufs stack s :
  inv m st e Kt lt bufs stack -> inv m st (set_stats s M_free e) Kt lt bufs stack.
Proof. intros [Hi Hsl Hhl Hd Ht Hp Ho]. by split. Qed.

Lemma inv_handles m st st' e Kt lt bufs stack :
  same_handles st st' -> inv m st e Kt lt bufs stack -> inv m st' e Kt lt bufs stack.
Proof. intros Hh [Hi Hsl Hhl Hd Ht Hp Ho]. split; try done. by eapply devices_ok_same. Qed.

(** The table changed, and its blocks with it. *)
Lemma inv_table_step m m' st e Kt Kt' lt lt' bufs stack t1 :
  inv m st e Kt lt bufs stack -> table_is t1 Kt' m' lt' ->
  owns (lt' ++ bufs) m' -> (forall b, b ∈ bufs -> m' !! b = m !! b) ->
  inv m' st (set_table t1 M_free e) Kt' lt' bufs stack.
Proof.
  intros [Hi Hsl Hhl Hd Ht [Hp [Hns Hb]] Ho] Ht1 Hre Hbufs. split; try done.
  split_and!; [done..|]. intros b Hin. rewrite (Hbufs b Hin). by apply Hb.
Qed.

(** The contents of a block changed. *)
Lemma inv_block m st e Kt lt bufs stack b d blk :
  inv m st e Kt lt bufs stack -> m !! b = Some blk ->
  inv (<[b := Block (blk_size blk) d]> m) st e Kt lt bufs stack.
Proof.
  intros [Hi Hsl Hhl Hd Ht [Hp [Hns Hb]] [Hnd Hin]] Hblk.
  assert (forall a, is_Some (m !! a) -> is_Some (<[b := Block (blk_size blk) d]> m !! a)) as Hs.
  { intros a Ha. rewrite lookup_insert. case_decide; eauto. }
  split; try done.
  - eapply table_is_frame; [done|]. auto.
  - split_and!; [done..|]. intros a Ha. rewrite lookup_insert. case_decide as E; [|by apply Hb].
    subst a. destruct (Hb b Ha) as (blk' & Hb' & Hsz). simplify_eq. by eexists.
  - split; [done|]. intros a Ha. destruct (Hin a Ha). auto.
Qed.

(** *** The retrieve buffer *)

(** [holding .. fp b cap]: the engine in its invariant, and the caller of the
    device in possession of a buffer [b] of [cap] bytes: the popped top of the
    pool's stack ([fp]) or a block of its own. *)
Definition extra (fp : bool) (b : Z) : list Z := if fp then [] else [b].

Definition holding (m : gmap Z block) st e (Kt : keyset) (lt bufs stack : list Z)
    (fp : bool) (b cap : Z) : Prop :=
  0 < b /\ (exists blk, m !! b = Some blk /\ blk_size blk = cap) /\
  owns (extra fp b ++ lt ++ bufs) m /\
  exists stack', inv m st e Kt lt bufs stack' /\
    (if fp then stack = stack' ++ [b] /\ NoDup stack /\ b ∈ bufs else stack = stack').

Lemma wp_pool_acquire X h st e Kt lt bufs stack (Q : Z -> est -> Prop) :
  inv (h_blocks h) st e Kt lt bufs stack ->
  Q 0 (Est (World h st) e) ->
  (forall b e', holding (h_blocks h) st e' Kt lt bufs stack true b KV_ENGINE_RETRIEVE_SIZE ->
     same_engine e e' -> Q b (Est (World h st) e')) ->
  wp X pool_acquire Q (Est (World h st) e).
Proof.
  intros Hinv HN HS. unfold pool_acquire. apply wp_bind, wp_ret. simpl.
  destruct (ke_buffer_pool e) as [p|] eqn:Ep; [|done].
  destruct Hinv as [Hi Hsl Hhl Hd Ht [Hp [Hns Hb]] Ho]. rewrite Ep in Hp. destruct Hp as [Hp Hsz].
  assert (wp never dma_pool_acquire (fun b p' =>
    (b = 0 /\ p' = p) \/ exists stack', stack = stack' ++ [b] /\ 0 < b /\ pool_rep p' bufs stack' /\
      pool_ids p' = pool_ids p) p) as Hwp.
  { eapply wp_dma_pool_acquire; [done|by left|]. intros stack' b p' ? ? ? ?. right. by exists stack'. }
  apply wp_done in Hwp as (b & p' & -> & Hc). apply wp_bind. unfold set_engine, wp. simpl.
  destruct Hc as [[-> ->]|(stack' & -> & Hpos & Hp' & Hsz')].
  - unfold set_buffer_pool. rewrite <- Ep. by destruct e.
  - apply HS; [|split_and!; try done; rewrite Ep; simpl; by f_equal]. assert (b ∈ bufs) as Hbin.
    { destruct Hp as (_ & _ & _ & _ & _ & _ & _ & _ & _ & Hf). rewrite Forall_app in Hf.
      by destruct Hf as [_ [? _]%Forall_cons]. }
    split_and!; [done|by apply Hb|done|]. exists stack'. split_and!; try done.
    split; try done. apply NoDup_app in Hns as (Hns & _ & _). split_and!; try done.
    simpl. unfold pool_ids in Hsz'. split; [done|congruence].
Qed.

Lemma inv_delete m st e Kt lt bufs stack b :
  inv m st e Kt lt bufs stack -> b ∉ lt ++ bufs -> inv (delete b m) st e Kt lt bufs stack.
Proof.
  intros [Hi Hsl Hhl Hd Ht [Hp [Hns Hb]] [Hnd Hin]] Hn.
  assert (forall a, a ∈ lt ++ bufs -> delete b m !! a = m !! a) as Hs.
  { intros a Ha. apply lookup_delete_ne. intros ->. done. }
  split; try done.
  - eapply table_is_frame; [done|]. intros a Ha ?. by rewrite Hs by set_solver.
  - split_and!; [done..|]. intros a Ha. rewrite Hs by set_solver. by apply Hb.
  - split; [done|]. intros a Ha. rewrite Hs by done. by apply Hin.
Qed.

Lemma stack_room (stack bufs : list Z) b :
  NoDup (stack ++ [b]) -> Forall (fun x => x ∈ bufs) stack -> b ∈ bufs ->
  (length stack < length bufs)%nat.
Proof.
  intros Hnd Hall Hb. assert (stack ++ [b] ⊆+ bufs) as Hsub.
  { apply NoDup_submseteq; [done|]. rewrite Forall_forall in Hall. set_solver. }
  apply submseteq_length in Hsub. rewrite length_app in Hsub. simpl in Hsub. lia.
Qed.

Lemma wp_give_back X tr m st e Kt lt bufs stack fp b cap (Q : unit -> est -> Prop) :
  holding m st e Kt lt bufs stack fp b cap ->
  (forall e', inv (delete_all (extra fp b) m) st e' Kt lt bufs stack -> same_engine e e' ->
     Q tt (Est (World (Heap tr (delete_all (extra fp b) m)) st) e')) ->
  wp X (give_back fp b) Q (Est (World (Heap tr m) st) e).
Proof.
  intros (Hpos & Hblk & Ho & stack' & Hinv & Hst) HQ. destruct fp; unfold give_back; simpl in *.
  - unfold pool_release. apply wp_bind, wp_ret. simpl.
    destruct Hinv as [Hi Hsl Hhl Hd Ht [Hp [Hns Hb]] Ho'].
    destruct (ke_buffer_pool e) as [p|] eqn:Ep; [|destruct Hp as [-> _]; destruct Hst as (_ & _ & ?); set_solver].
    destruct Hp as [Hp Hsz]. destruct Hst as (-> & Hnst & Hbin).
    assert (wp never (dma_pool_release b) (fun _ p' => pool_rep p' bufs (stack' ++ [b]) /\
      pool_ids p' = pool_ids p) p) as Hwp.
    { eapply wp_dma_pool_release; [done|done| |done]. eapply stack_room; [done| |done].
      by destruct Hp as (_ & _ & _ & _ & _ & _ & _ & _ & _ & Hf). }
    apply wp_done in Hwp as ([] & p' & -> & Hp' & Hsz').
    apply HQ; [|split_and!; try done; rewrite Ep; simpl; by f_equal].
    split; try done. injection Hsz' as _ _ _ Hbs. split_and!; try done. simpl. split; [done|congruence].
  - subst stack'. destruct Hblk as (blk & Hblk & _). apply wp_with_heap, wp_free_in; [done|eauto|].
    apply HQ; [|done]. apply owns_cons in Ho as (_ & _ & Hbn & _). by apply inv_delete.
Qed.

(** ** Retrieve *)

(** What one call of the device does to the map, by its answer. *)
Definition device_retrieve (k : bytes) (del : bool) (cap : Z) (r : kvs_result)
    (out : kvs_retrieved) (M M' : bytes -> option bytes) : Prop :=
  (forall k', k' <> k -> M' k' = M k') /\
  (r = KVS_SUCCESS -> M k = Some (rt_data out) /\
     rt_length out = Z.of_nat (length (rt_data out)) /\
     M' k = (if del then None else Some (rt_data out))) /\
  (r = KVS_ERR_BUFFER_SMALL -> exists v, M k = Some v /\
     cap < Z.of_nat (length v) < 2 ^ 32 /\ rt_actual_value_size out = Z.of_nat (length v)) /\
  (r = KVS_ERR_KEY_NOT_EXIST -> M k = None) /\
  (r <> KVS_SUCCESS -> M' k = M k \/ is_device_error r = true /\ del = true /\ M' k = None).

Lemma holding_block m st st' e Kt lt bufs stack fp b cap d :
  holding m st e Kt lt bufs stack fp b cap -> same_handles st st' ->
  holding (<[b := Block cap d]> m) st' e Kt lt bufs stack fp b cap.
Proof.
  intros (Hpos & (blk & Hblk & Hsz) & Ho & stack' & Hinv & Hst) Hh. split_and!.
  - done.
  - exists (Block cap d). by rewrite lookup_insert_eq.
  - destruct Ho as [Hnd Hin]. split; [done|]. intros a Ha. destruct (Hin a Ha).
    rewrite lookup_insert. case_decide; eauto.
  - exists stack'. split; [|done]. eapply inv_handles; [done|]. rewrite <- Hsz. by apply inv_block.
Qed.

Lemma wp_retrieve_into X k del tr m st e Kt lt bufs stack fp b cap ctx (Q : _ -> est -> Prop) :
  holding m st e Kt lt bufs stack fp b cap -> 0 <= cap ->
  ke_devices e !! Z.to_nat (kv_engine_shard_for_key k (ke_num_devices e)) = Some ctx ->
  device_open ctx st ->
  (forall r out st' d, same_handles st st' ->
     device_retrieve k del cap r out (lookup_kv st e) (lookup_kv st' e) ->
     Q (r, out) (Est (World (Heap tr (<[b := Block cap (rt_data out ++ d)]> m)) st') e)) ->
  wp X (retrieve_into ctx k del b cap) Q (Est (World (Heap tr m) st) e).
Proof.
  intros Hhold Hcap Hctx Hopen HQ. unfold retrieve_into. apply wp_bind, wp_call_kvs.
  intros [r out] st1 Hkvs. destruct (device_open_space _ _ Hopen) as [sp Hsp].
  destruct (retrieve_spec _ _ _ _ _ _ _ _ _ Hkvs Hsp Hcap)
    as (Htouch & Hlen & Hsucc & Hsmall & Hnone & Hfail).
  destruct (lookup_kv_touches _ _ _ _ _ _ Hctx Hsp Htouch) as (Lk & Lk' & Lother).
  destruct Hhold as (Hpos & (blk & Hblk & Hsz) & _). apply wp_bind, wp_with_heap.
  eapply wp_store_bytes; [done|simpl; lia|]. apply wp_ret. simpl. rewrite Hsz.
  apply HQ; [apply Htouch|]. unfold device_retrieve. rewrite Lk, Lk'.
  split_and!; try done. naive_solver.
Qed.

(** What retrieve promises.  On success the caller gets a buffer that holds the
    value, taken from the pool or newly allocated, and on an error the heap and
    the pool are as before. *)
Definition retrieve_effect (k : bytes) (del : bool) (r : kv_result_t)
    (M M' : bytes -> option bytes) : Prop :=
  (forall k', k' <> k -> M' k' = M k') /\
  (r = KV_SUCCESS -> is_Some (M k) /\ M' k = (if del then None else M k)) /\
  (r = KV_ERR_KEY_NOT_FOUND -> M k = None) /\
  (r <> KV_SUCCESS -> M' k = M k \/ fault r /\ del = true /\ M' k = None).

Definition retrieve_post (h0 : heap) (st : kvs_state) (e : kv_engine) (Kt : keyset)
    (lt bufs stack : list Z) (k : bytes) (del : bool) (res : kv_result_t * option (Z * Z))
    (s : est) : Prop :=
  exists tr' m' st' e' Kt' lt' stack', s = Est (World (Heap tr' m') st') e' /\
    inv m' st' e' Kt' lt' bufs stack' /\ same_engine e e' /\ same_handles st st' /\
    retrieve_effect k del res.1 (lookup_kv st e) (lookup_kv st' e') /\
    (refusals h0 <= refusals (Heap tr' m'))%nat /\
    match res.2 with
    | Some (b, len) =>
      res.1 = KV_SUCCESS /\ Kt' = (if del then Kt ∖ {[k]} else Kt) /\
      (exists v blk, lookup_kv st e k = Some v /\ len = Z.of_nat (length v) /\
         m' !! b = Some blk /\ take (length v) (blk_data blk) = v) /\
      (stack = stack' ++ [b] /\ reown (h_blocks h0) (lt ++ bufs) m' (lt' ++ bufs) \/
       stack' = stack /\ h_blocks h0 !! b = None /\ reown (h_blocks h0) (lt ++ bufs) m' (b :: lt' ++ bufs))
    | None =>
      res.1 <> KV_SUCCESS /\ Kt' = Kt /\ lt' = lt /\ stack' = stack /\
      reown (h_blocks h0) (lt ++ bufs) m' (lt ++ bufs)
    end.

Lemma device_retrieve_effect k del cap r out M M' :
  device_retrieve k del cap r out M M' -> retrieve_effect k del (map_kvs_result r) M M'.
Proof.
  intros (Ho & Hs & _ & Hn & Hf). split_and!; try done.
  - intros (E & _ & E')%map_kvs_success%Hs. rewrite E, E'. split; [by eauto|by destruct del].
  - intros Hr%map_not_found. by apply Hn.
  - rewrite map_kvs_success. intros [?|(Hd & ? & ?)]%Hf; [by left|right].
    split_and!; [by apply device_error_fault|done..].
Qed.

Lemma retrieve_effect_same k del r M M1 M2 :
  retrieve_effect k del r M M1 -> (forall k', M2 k' = M1 k') -> retrieve_effect k del r M M2.
Proof. intros H E. unfold retrieve_effect in *. by setoid_rewrite E. Qed.

Lemma holding_record m st e Kt lt bufs stack fp b cap i ctx r :
  holding m st e Kt lt bufs stack fp b cap -> ke_devices e !! i = Some ctx ->
  holding m st (set_devices (<[i := device_record_result ctx r]> (ke_devices e)) e)
    Kt lt bufs stack fp b cap.
Proof.
  intros (? & ? & ? & stack' & Hinv & Hst) Hctx. split_and!; try done. exists stack'.
  split; [|done]. by apply inv_record.
Qed.

(** The end of a failed retrieve. *)
Lemma wp_retrieve_fail X k del (tr : list bool) (h0 : heap) m (st0 st : kvs_state) (e0 e : kv_engine) (Kt : keyset) lt bufs stack fp b cap r :
  holding m st e Kt lt bufs stack fp b cap -> same_engine e0 e -> same_handles st0 st ->
  reown (h_blocks h0) (lt ++ bufs) m (extra fp b ++ lt ++ bufs) ->
  map_kvs_result r <> KV_SUCCESS ->
  retrieve_effect k del (map_kvs_result r) (lookup_kv st0 e0) (lookup_kv st e) ->
  (refusals h0 <= refusals (Heap tr m))%nat ->
  wp X (_ ← give_back fp b; _ ← update_stats true false false false 0;
        mret (map_kvs_result r, None))
    (retrieve_post h0 st0 e0 Kt lt bufs stack k del) (Est (World (Heap tr m) st) e).
Proof.
  intros Hhold Hs Hh Hre Hr Heff Href. apply wp_bind, (wp_give_back _ _ _ _ _ _ _ _ _ _ _ _ _ Hhold).
  intros e1 Hinv1 Hs1. apply wp_bind, wp_update_stats; [apply Hinv1|]. apply wp_ret.
  match goal with |- retrieve_post _ _ _ _ _ _ _ _ _ _ (Est _ ?e2) =>
    assert (same_engine e e2) as Hs2 by done end.
  eexists tr, _, st, _, Kt, lt, stack. split; [reflexivity|]. split_and!.
  - by apply inv_stats.
  - by eapply same_engine_trans.
  - apply Hh.
  - eapply retrieve_effect_same; [exact Heff|]. intros k'. by apply lookup_kv_same.
  - exact Href.
  - simpl. split_and!; try done. eapply reown_trans; [exact Hre|].
    destruct fp; simpl; [apply reown_refl, Hinv1|]. apply reown_free, Hre.
Qed.

(** The end of a successful retrieve. *)
Lemma retrieve_success_post k (del : bool) (tr : list bool) (h0 : heap) m m1 (st0 st : kvs_state) (e0 e e1 : kv_engine) (Kt Kt' : keyset) lt lt1 bufs stack
    fp b cap out d stack' :
  holding m st e Kt lt bufs stack fp b cap ->
  inv m1 st e1 Kt' lt1 bufs stack' -> Kt' = (if del then Kt ∖ {[k]} else Kt) ->
  (if fp then stack = stack' ++ [b] else stack = stack') ->
  reown (h_blocks h0) (lt ++ bufs) m1 (extra fp b ++ lt1 ++ bufs) ->
  (fp = false -> h_blocks h0 !! b = None) ->
  m1 !! b = Some (Block cap (rt_data out ++ d)) -> same_engine e0 e1 -> same_handles st0 st ->
  device_retrieve k del cap KVS_SUCCESS out (lookup_kv st0 e0) (lookup_kv st e1) ->
  (refusals h0 <= refusals (Heap tr m1))%nat ->
  retrieve_post h0 st0 e0 Kt lt bufs stack k del (KV_SUCCESS, Some (b, rt_length out))
    (Est (World (Heap tr m1) st) e1).
Proof.
  intros Hhold Hinv HKt Hst Hre Hnew Hblk Hs Hh Heff Href.
  eexists tr, m1, st, e1, Kt', lt1, stack'. split; [reflexivity|]. split_and!; try done.
  - by eapply (device_retrieve_effect _ _ _ KVS_SUCCESS).
  - destruct Heff as (_ & Hsucc & _). destruct (Hsucc eq_refl) as (E & El & _).
    simpl. split_and!; try done.
    + exists (rt_data out), (Block cap (rt_data out ++ d)). split_and!; try done.
      simpl. by rewrite take_app_length.
    + destruct fp; simpl in Hre; [left|right]; subst; auto.
Qed.

Lemma wp_retrieve_finish X k del (tr : list bool) (h0 : heap) m (st0 st : kvs_state) (e0 e : kv_engine) (Kt : keyset) lt bufs stack fp b cap r out d ctx :
  holding m st e Kt lt bufs stack fp b cap -> engine_key k -> same_engine e0 e -> same_handles st0 st ->
  m !! b = Some (Block cap (rt_data out ++ d)) ->
  ke_devices e !! Z.to_nat (kv_engine_shard_for_key k (ke_num_devices e0)) = Some ctx ->
  reown (h_blocks h0) (lt ++ bufs) m (extra fp b ++ lt ++ bufs) ->
  (fp = false -> h_blocks h0 !! b = None) ->
  device_retrieve k del cap r out (lookup_kv st0 e0) (lookup_kv st e) ->
  (refusals h0 <= refusals (Heap tr m))%nat ->
  wp X (retrieve_finish (kv_engine_shard_for_key k (ke_num_devices e0)) k (Z.of_nat (length k))
          del fp b (r, out))
    (retrieve_post h0 st0 e0 Kt lt bufs stack k del) (Est (World (Heap tr m) st) e).
Proof.
  intros Hhold Hk Hs Hh Hblk Hctx Hre Hnew Heff Href. unfold retrieve_finish.
  apply wp_bind, (wp_record_result _ _ _ ctx); [done|].
  pose proof (same_engine_record _ _ _ r Hctx) as Hs1.
  pose proof (holding_record _ _ _ _ _ _ _ _ _ _ _ _ r Hhold Hctx) as Hhold1.
  set (e1 := set_devices _ e) in *.
  assert (same_engine e0 e1) as Hs01 by (by eapply same_engine_trans).
  assert (device_retrieve k del cap r out (lookup_kv st0 e0) (lookup_kv st e1)) as Heff1.
  { unfold device_retrieve in *. by setoid_rewrite (lookup_kv_same st _ _ _ Hs1). }
  destruct (decide (r = KVS_SUCCESS)) as [->|Hr].
  2:{ rewrite bool_decide_eq_false_2, andb_false_r by done. apply wp_bind, wp_ret. simpl negb.
      cbv iota. eapply wp_retrieve_fail; [done..|by rewrite map_kvs_success| |done].
      by eapply device_retrieve_effect. }
  rewrite bool_decide_eq_true_2, andb_true_r by done. simpl negb. cbv iota.
  destruct Hhold1 as (Hpos & Hb & Ho & stack' & Hinv & Hst).
  assert (if fp then stack = stack' ++ [b] else stack = stack') as Hst'
    by (by destruct fp; destruct_and?).
  assert (b ∈ extra fp b ++ bufs) as Hbin.
  { destruct fp; simpl; [|set_solver]. by destruct Hst as (_ & _ & ?). }
  apply wp_bind. destruct del.
  - eapply (wp_with_table X _ _ tr m st e1 lt (extra fp b ++ bufs) (fun _ K1 h =>
      K1 = Kt ∖ {[k]} /\ h_log h = tr)); [apply Hinv|by rewrite owns_mid| |].
    { apply wp_table_remove; [apply Hinv|by apply engine_key_ok]. }
    intros _ t1 K1 lt1 [tr1 m1] Ht1 [-> Htr] Hre1 Hsame1. simpl in Ht1, Htr, Hre1, Hsame1.
    subst tr1. apply wp_bind, wp_update_stats; [apply Hinv|]. apply wp_ret.
    assert (owns (lt1 ++ bufs) m1) as Ho1.
    { destruct Hre1 as [Ho1 _]. rewrite owns_mid in Ho1. by eapply owns_app_r. }
    eapply (retrieve_success_post _ _ _ _ m _ _ _ _ e); try done.
    + apply inv_stats. eapply inv_table_step; [done|done|done|].
      intros x Hx. apply Hsame1. set_solver.
    + eapply reown_trans; [exact Hre|].
      assert (forall l : list Z, extra fp b ++ l ++ bufs ≡ₚ l ++ extra fp b ++ bufs) as Hp
        by (intros; solve_Permutation).
      by rewrite !Hp.
    + by rewrite Hsame1.
  - apply wp_ret. apply wp_bind, wp_update_stats; [apply Hinv|]. apply wp_ret.
    eapply (retrieve_success_post _ _ _ _ m _ _ _ _ e); try done. by apply inv_stats.
Qed.

Lemma retrieve_give_up k del tr (h0 : heap) st e (Kt : keyset) lt bufs stack r m' e' st' :
  inv m' st' e' Kt lt bufs stack -> same_engine e e' -> same_handles st st' ->
  r = KV_ERR_DEVICE_DEGRADED \/ r = KV_ERR_NO_MEMORY ->
  reown (h_blocks h0) (lt ++ bufs) m' (lt ++ bufs) ->
  (forall k', lookup_kv st' e' k' = lookup_kv st e k') ->
  (refusals h0 <= refusals (Heap tr m'))%nat ->
  retrieve_post h0 st e Kt lt bufs stack k del (r, None) (Est (World (Heap tr m') st') e').
Proof.
  intros Hinv Hs Hh Hr Hre HM Href. eexists tr, m', st', e', Kt, lt, stack. split; [done|].
  split_and!; try done; try apply Hh.
  - unfold retrieve_effect. split_and!; intros; try apply HM; try (by destruct Hr as [-> | ->]).
    left. apply HM.
  - simpl. by split_and!; try done; destruct Hr as [-> | ->].
Qed.

(** A new block for the retrieve buffer. *)
Lemma holding_fresh m st e Kt lt bufs stack b cap :
  inv m st e Kt lt bufs stack -> fresh_block m DMA_ALIGNMENT cap b ->
  holding (<[b := Block cap []]> m) st e Kt lt bufs stack false b cap /\
  reown m (lt ++ bufs) (<[b := Block cap []]> m) (extra false b ++ lt ++ bufs).
Proof.
  intros Hinv Hf. pose proof (fresh_block_none _ _ _ _ Hf) as Hn.
  pose proof (reown_alloc m _ _ _ b (Block cap []) (inv_owns _ _ _ _ _ _ _ Hinv) Hf) as Hre.
  split; [|done]. split_and!.
  - apply Hf.
  - exists (Block cap []). by rewrite lookup_insert_eq.
  - apply Hre.
  - exists stack. split; [|done]. destruct Hinv as [Hi Hsl Hhl Hd Ht [Hp [Hns Hb]] [Hnd Hin]].
    assert (forall a, a ∈ lt ++ bufs -> <[b := Block cap []]> m !! a = m !! a) as Hs.
    { intros a Ha. apply lookup_insert_ne. intros ->. destruct (Hin a Ha) as [_ [? ?]]. congruence. }
    split; try done.
    + eapply table_is_frame; [done|]. intros a Ha ?. by rewrite Hs by set_solver.
    + split_and!; [done..|]. intros a Ha. rewrite Hs by set_solver. by apply Hb.
    + split; [done|]. intros a Ha. rewrite Hs by done. by apply Hin.
Qed.

(** Changing what a held buffer contains. *)
Lemma reown_hold_block m0 m lt bufs fp b cap d :
  reown m0 (lt ++ bufs) m (extra fp b ++ lt ++ bufs) -> b ∈ extra fp b ++ lt ++ bufs ->
  reown m0 (lt ++ bufs) (<[b := Block cap d]> m) (extra fp b ++ lt ++ bufs).
Proof.
  intros [[Hnd Hin] E] Hb. split.
  - split; [done|]. intros a Ha. destruct (Hin a Ha). rewrite lookup_insert. case_decide; eauto.
  - rewrite <- E. apply map_eq. intros a. rewrite !lookup_delete_all. case_decide; [done|].
    rewrite lookup_insert_ne; [done|]. intros ->. done.
Qed.

(** The second attempt, with a buffer of the size the device asked for. *)
Lemma wp_retrieve_retry X k del tr (h0 : heap) m (st0 st : kvs_state) e0 e (Kt : keyset) lt bufs stack fp b cap
    size ctx :
  holding m st e Kt lt bufs stack fp b cap -> engine_key k -> same_engine e0 e -> same_handles st0 st ->
  0 <= size ->
  ke_devices e !! Z.to_nat (kv_engine_shard_for_key k (ke_num_devices e0)) = Some ctx ->
  device_open ctx st ->
  reown (h_blocks h0) (lt ++ bufs) m (extra fp b ++ lt ++ bufs) ->
  (forall k', lookup_kv st e k' = lookup_kv st0 e0 k') ->
  (refusals h0 <= refusals (Heap tr m))%nat ->
  wp X (_ ← give_back fp b;
        buffer ← with_heap (dma_alloc size);
        if buffer =? 0 then mret (KV_ERR_NO_MEMORY, None) else
        r ← retrieve_into ctx k del buffer size;
        retrieve_finish (kv_engine_shard_for_key k (ke_num_devices e0)) k (Z.of_nat (length k))
          del false buffer r)
    (retrieve_post h0 st0 e0 Kt lt bufs stack k del) (Est (World (Heap tr m) st) e).
Proof.
  intros Hhold Hk Hs Hh0 Hsize Hctx Hopen Hre HM Href.
  apply wp_bind, (wp_give_back _ _ _ _ _ _ _ _ _ _ _ _ _ Hhold). intros e1 Hinv1 Hs1.
  set (m1 := delete_all (extra fp b) m) in *.
  assert (same_engine e0 e1) as Hs01 by (by eapply same_engine_trans).
  assert (reown (h_blocks h0) (lt ++ bufs) m1 (lt ++ bufs)) as Hre1.
  { destruct Hre as [_ E]. split; [apply Hinv1|]. rewrite <- E. unfold m1.
    by rewrite (delete_all_comm (extra fp b)). }
  assert (forall k', lookup_kv st e1 k' = lookup_kv st0 e0 k') as HM1.
  { intros k'. rewrite <- HM. by apply lookup_kv_same. }
  destruct (ctx_ids_lookup _ _ _ _ Hs1 Hctx) as (ctx1 & Hctx1 & Hids).
  assert (device_open ctx1 st) as Hopen1 by (by apply (device_open_ids ctx ctx1 st st)).
  assert (dc_keyspace ctx1 = dc_keyspace ctx) as Eks by (unfold ctx_ids in Hids; congruence).
  apply wp_bind, wp_with_heap, wp_dma_alloc; [done| |].
  { intros tr' Htr. simpl. apply wp_ret. apply retrieve_give_up; auto.
    etransitivity; [exact Href|]. apply refusals_le. tauto. }
  intros b2 Hpos Hf. rewrite (fresh_block_eqb _ _ _ _ Hf). apply wp_bind.
  destruct (holding_fresh _ _ _ _ _ _ _ _ _ Hinv1 Hf) as [Hhold2 Hre2].
  assert (retrieve_into ctx k del b2 size = retrieve_into ctx1 k del b2 size) as ->
    by (unfold retrieve_into; by rewrite Eks).
  pose proof Hs01 as (_ & Hnum & _).
  eapply wp_retrieve_into; [exact Hhold2|done|by rewrite Hnum|done|].
  intros r out st2 d Hh Heff.
  eapply (wp_retrieve_finish _ _ _ _ h0 _ st0 _ e0 _ _ _ _ _ false b2 size r out d ctx1).
  - by eapply holding_block.
  - done.
  - done.
  - by eapply same_handles_trans.
  - apply lookup_insert_eq.
  - done.
  - apply reown_hold_block; [|set_solver]. eapply reown_trans; [exact Hre1|done].
  - intros _. destruct Hre1 as [_ E]. pose proof (fresh_block_none _ _ _ _ Hf) as Hn.
    assert (b2 ∉ lt ++ bufs) as Hnin.
    { intros Hin. destruct (inv_owns _ _ _ _ _ _ _ Hinv1) as [_ Ho].
      destruct (Ho b2 Hin) as [_ [? ?]]. congruence. }
    apply (f_equal (.!! b2)) in E. rewrite !lookup_delete_all, !decide_False in E by done.
    congruence.
  - unfold device_retrieve in *. by setoid_rewrite HM1 in Heff.
  - exact Href.
Qed.

(** Both attempts, once a buffer is held. *)
Lemma wp_retrieve_held X k del tr (h0 : heap) m (st : kvs_state) e0 e (Kt : keyset) lt bufs stack fp b cap ctx :
  holding m st e Kt lt bufs stack fp b cap -> 0 <= cap -> engine_key k -> same_engine e0 e ->
  ke_devices e !! Z.to_nat (kv_engine_shard_for_key k (ke_num_devices e0)) = Some ctx ->
  device_open ctx st ->
  reown (h_blocks h0) (lt ++ bufs) m (extra fp b ++ lt ++ bufs) -> (fp = false -> h_blocks h0 !! b = None) ->
  (refusals h0 <= refusals (Heap tr m))%nat ->
  wp X (r ← retrieve_into ctx k del b cap;
        if bool_decide (r.1 = KVS_ERR_BUFFER_SMALL) then
          _ ← give_back fp b;
          let size := rt_actual_value_size r.2 in
          buffer ← with_heap (dma_alloc size);
          if buffer =? 0 then mret (KV_ERR_NO_MEMORY, None) else
          r ← retrieve_into ctx k del buffer size;
          retrieve_finish (kv_engine_shard_for_key k (ke_num_devices e0)) k (Z.of_nat (length k))
            del false buffer r
        else retrieve_finish (kv_engine_shard_for_key k (ke_num_devices e0)) k
               (Z.of_nat (length k)) del fp b r)
    (retrieve_post h0 st e0 Kt lt bufs stack k del) (Est (World (Heap tr m) st) e).
Proof.
  intros Hhold Hcap Hk Hs Hctx Hopen Hre Hnew Href. pose proof Hs as (_ & Hnum & _).
  assert (forall k', lookup_kv st e k' = lookup_kv st e0 k') as HM
    by (intros; by apply lookup_kv_same).
  assert (b ∈ extra fp b ++ lt ++ bufs) as Hbin.
  { destruct fp; simpl; [|set_solver]. destruct Hhold as (_ & _ & _ & ? & _ & _ & _ & ?). set_solver. }
  apply wp_bind. eapply wp_retrieve_into; [exact Hhold|done|by rewrite Hnum|done|].
  intros r out st1 d Hh Heff. pose proof (holding_block _ _ st1 _ _ _ _ _ _ _ _ (rt_data out ++ d) Hhold Hh) as Hhold1.
  assert (reown (h_blocks h0) (lt ++ bufs) (<[b := Block cap (rt_data out ++ d)]> m)
    (extra fp b ++ lt ++ bufs)) as Hre1 by (by apply reown_hold_block).
  case_bool_decide as Hsmall; simpl in Hsmall.
  - subst r. destruct Heff as (Hother & _ & Hsm & _ & Hfail).
    destruct (Hsm eq_refl) as (v & _ & ? & Eact).
    eapply wp_retrieve_retry; try done.
    + simpl. lia.
    + by eapply device_open_ids; [reflexivity|..].
    + intros k'. rewrite <- HM. destruct (decide (k' = k)) as [->|]; [|by apply Hother].
      by destruct (Hfail ltac:(done)) as [?|[? _]].
  - eapply wp_retrieve_finish; try done; [apply lookup_insert_eq|].
    unfold device_retrieve in *. by setoid_rewrite HM in Heff.
Qed.

Lemma wp_kv_engine_retrieve X k del tr m st e (Kt : keyset) lt bufs stack :
  inv m st e Kt lt bufs stack -> engine_key k ->
  wp X (kv_engine_retrieve true (Some k) (Z.of_nat (length k)) true del)
    (retrieve_post (Heap tr m) st e Kt lt bufs stack k del) (Est (World (Heap tr m) st) e).
Proof.
  intros Hinv Hk. unfold kv_engine_retrieve. apply wp_bind, wp_ret. simpl negb.
  rewrite (inv_init _ _ _ _ _ _ _ Hinv), engine_key_len by done.
  replace (Z.of_nat (length k) =? 0) with false by (unfold engine_key in Hk; bool_lia).
  simpl orb. cbv iota.
  apply wp_bind, wp_read_arg_all, wp_bind, wp_shard_device; [apply Hinv|].
  intros ctx Hctx Hopen. cbv iota zeta.
  assert (forall tr' r, tr' = tr \/ tr' = false :: tr ->
    r = KV_ERR_DEVICE_DEGRADED \/ r = KV_ERR_NO_MEMORY ->
    retrieve_post (Heap tr m) st e Kt lt bufs stack k del (r, None)
      (Est (World (Heap tr' m) st) e)) as Hgive.
  { intros tr' r Htr Hr. apply retrieve_give_up; try done; [apply reown_refl, Hinv|].
    apply refusals_le. tauto. }
  destruct (health_cases ctx) as [[-> _]|[-> _]].
  2:{ rewrite bool_decide_eq_false_2 by done. apply wp_ret, Hgive; by left. }
  rewrite bool_decide_eq_true_2 by done. simpl negb. cbv iota.
  apply wp_bind, (wp_pool_acquire _ _ _ _ Kt lt bufs stack); [done| |].
  - simpl negb. cbv iota. apply wp_bind, wp_with_heap, wp_dma_alloc; [done| |].
    { intros. simpl. apply wp_ret, Hgive; [done|by right]. }
    intros b _ Hf. rewrite (fresh_block_eqb _ _ _ _ Hf).
    destruct (holding_fresh _ _ _ _ _ _ _ _ _ Hinv Hf) as [Hhold Hre].
    eapply wp_retrieve_held; try done. intros _. by eapply fresh_block_none.
  - intros b e1 Hhold Hs. assert (0 < b) as Hpos by exact (proj1 Hhold).
    replace (b =? 0) with false by lia. simpl negb. cbv iota. apply wp_bind, wp_ret.
    replace (b =? 0) with false by lia.
    destruct (ctx_ids_lookup _ _ _ _ Hs Hctx) as (ctx1 & Hctx1 & Hids).
    assert (device_open ctx1 st) as Hopen1 by (by eapply device_open_ids).
    assert (dc_keyspace ctx1 = dc_keyspace ctx) as Eks by (unfold ctx_ids in Hids; congruence).
    assert (retrieve_into ctx k del = retrieve_into ctx1 k del) as ->
      by (unfold retrieve_into; by rewrite Eks).
    eapply wp_retrieve_held; try done. simpl. apply reown_refl, Hinv.
Qed.

(** ** Delete and exists *)

Definition delete_effect (k : bytes) (r : kv_result_t) (M M' : bytes -> option bytes) : Prop :=
  (forall k', k' <> k -> M' k' = M k') /\
  (r = KV_SUCCESS -> M' k = None) /\
  (r <> KV_SUCCESS -> M' k = M k \/ fault r /\ M' k = None).

Definition delete_post (tr : list bool) (m : gmap Z block) (st : kvs_state) (e : kv_engine) (Kt : keyset)
    (lt bufs stack : list Z) (k : bytes) (r : kv_result_t) (s : est) : Prop :=
  exists m' st' e' Kt' lt', s = Est (World (Heap tr m') st') e' /\
    inv m' st' e' Kt' lt' bufs stack /\ kept m e lt bufs m' e' lt' /\ same_handles st st' /\
    delete_effect k r (lookup_kv st e) (lookup_kv st' e') /\
    (Kt' = Kt ∖ {[k]} \/ Kt' = Kt /\ r = KV_ERR_DEVICE_DEGRADED).

Lemma wp_kv_engine_delete X k tr m st e (Kt : keyset) lt bufs stack :
  inv m st e Kt lt bufs stack -> engine_key k ->
  wp X (kv_engine_delete true (Some k) (Z.of_nat (length k)))
    (delete_post tr m st e Kt lt bufs stack k) (Est (World (Heap tr m) st) e).
Proof.
  intros Hinv Hk. unfold kv_engine_delete. apply wp_bind, wp_ret. simpl negb.
  rewrite (inv_init _ _ _ _ _ _ _ Hinv), engine_key_len by done. simpl orb. cbv iota.
  apply wp_bind, wp_read_arg_all, wp_bind, wp_shard_device; [apply Hinv|].
  intros ctx Hctx Hopen. cbv iota zeta. destruct (health_cases ctx) as [[-> _]|[-> _]].
  2:{ rewrite bool_decide_eq_false_2 by done. apply wp_ret.
      eexists m, st, e, Kt, lt. split_and!; try done; [by eapply kept_refl| |by right].
      split_and!; try done. by left. }
  rewrite bool_decide_eq_true_2 by done. simpl negb. cbv iota.
  apply wp_bind, wp_call_kvs. intros res st1 Hkvs.
  destruct (device_open_space _ _ Hopen) as [sp Hsp].
  destruct (delete_spec _ _ _ _ _ _ _ Hkvs Hsp) as (Htouch & Hsucc & Hfail).
  destruct (lookup_kv_touches _ _ _ _ _ _ Hctx Hsp Htouch) as (Lk & Lk' & Lother).
  apply wp_bind, (wp_record_result _ _ _ ctx); [done|]. apply wp_bind.
  pose proof (same_engine_record _ _ _ res Hctx) as Hs1. set (e1 := set_devices _ e) in *.
  eapply (wp_with_table X _ _ tr m st1 e1 lt bufs (fun _ K1 h => K1 = Kt ∖ {[k]} /\ h_log h = tr));
    [apply Hinv|apply Hinv| |].
  { apply wp_table_remove; [apply Hinv|by apply engine_key_ok]. }
  intros _ t1 K1 lt1 [tr1 m1] Ht1 [-> Htr] Hre1 Hsame1. simpl in Ht1, Htr, Hre1, Hsame1.
  subst tr1. apply wp_bind, wp_update_stats; [apply Hinv|]. apply wp_ret.
  match goal with |- delete_post _ _ _ _ _ _ _ _ _ _ (Est _ ?e2) =>
    assert (same_engine e e2) as Hs by exact Hs1 end.
  eexists m1, st1, _, (Kt ∖ {[k]}), lt1. split; [reflexivity|]. split_and!.
  - eapply inv_update; [exact Hinv|apply Htouch|exact Hs|apply Hinv|done..].
  - by split.
  - apply Htouch.
  - unfold delete_effect. rewrite <- Lk, <- Lk' in *.
    setoid_rewrite (lookup_kv_same st1 _ _ _ Hs). split_and!; [done| |].
    + intros ?%map_kvs_success. auto.
    + rewrite map_kvs_success. intros [?|[Hd ?]]%Hfail; [by left|right].
      split; [by apply device_error_fault|done].
  - by left.
Qed.

Definition exists_post (tr : list bool) (m : gmap Z block) (st : kvs_state) (e : kv_engine) (Kt : keyset)
    (lt bufs stack : list Z) (k : bytes) (res : kv_result_t * option Z) (s : est) : Prop :=
  exists st' e' lt', s = Est (World (Heap tr m) st') e' /\
    inv m st' e' Kt lt' bufs stack /\ kept m e lt bufs m e' lt' /\ same_handles st st' /\
    (forall k', lookup_kv st' e' k' = lookup_kv st e k') /\
    match res.2 with
    | Some x => res.1 = KV_SUCCESS /\
        x = (if decide (is_Some (lookup_kv st e k) /\ k ∈ Kt) then 1 else 0)
    | None => res.1 <> KV_SUCCESS
    end.

Lemma wp_kv_engine_exists X k tr m st e (Kt : keyset) lt bufs stack :
  inv m st e Kt lt bufs stack -> engine_key k ->
  wp X (kv_engine_exists true (Some k) (Z.of_nat (length k)) true)
    (exists_post tr m st e Kt lt bufs stack k) (Est (World (Heap tr m) st) e).
Proof.
  intros Hinv Hk. unfold kv_engine_exists. apply wp_bind, wp_ret. simpl negb.
  rewrite (inv_init _ _ _ _ _ _ _ Hinv), engine_key_len by done. simpl orb. cbv iota.
  apply wp_bind, wp_read_arg_all, wp_bind, wp_shard_device; [apply Hinv|].
  intros ctx Hctx Hopen. cbv iota zeta. destruct (health_cases ctx) as [[-> _]|[-> _]].
  2:{ rewrite bool_decide_eq_false_2 by done. apply wp_ret.
      eexists st, e, lt. split_and!; try done. by eapply kept_refl. }
  rewrite bool_decide_eq_true_2 by done. simpl negb. cbv iota. apply wp_bind.
  eapply (wp_with_table X _ _ tr m st e lt bufs (fun x K1 h =>
    K1 = Kt /\ x = (if decide (k ∈ Kt) then 1 else 0) /\ h = Heap tr m)); [apply Hinv|apply Hinv| |].
  { eapply wp_mono; [apply wp_key_in_table; [apply Hinv|by apply engine_key_ok]|]. cbn beta.
    intros ? ? (t1 & -> & Ht1 & ->). exists t1, Kt, lt. split_and!; try done.
    apply reown_refl. by destruct Ht1 as (? & ? & ? & ? & ? & ?). }
  intros x t1 K1 lt1 h Ht1 (-> & -> & ->) Hre1 Hsame1. simpl in Ht1, Hre1, Hsame1.
  apply wp_bind, wp_call_kvs. intros [res b] st1 Hkvs.
  destruct (device_open_space _ _ Hopen) as [sp Hsp].
  destruct (exist_spec _ _ _ _ _ _ _ Hkvs Hsp) as (Hh & Hdata & Hres).
  assert (touches_only sp k st st1) as Htouch by (split; [done|intros; by rewrite Hdata]).
  destruct (lookup_kv_touches _ _ _ _ _ _ Hctx Hsp Htouch) as (Lk & Lk' & Lother).
  apply wp_bind, (wp_record_result _ _ _ ctx); [done|].
  pose proof (same_engine_record _ _ _ res Hctx) as Hs1.
  match goal with |- wp _ _ _ (Est _ ?e2) =>
    assert (same_engine e e2) as Hs by exact Hs1; set (e' := e2) in * end.
  assert (forall k', lookup_kv st1 e' k' = lookup_kv st e k') as HM.
  { intros k'. rewrite (lookup_kv_same st1 _ _ _ Hs).
    destruct (decide (k' = k)) as [->|]; [by rewrite Lk, Lk', Hdata|by apply Lother]. }
  assert (inv m st1 e' Kt lt1 bufs stack) as Hinv'.
  { eapply inv_update; [exact Hinv|done|exact Hs|apply Hinv|apply Hinv|done..]. }
  case_bool_decide as Hr; simpl negb; cbv iota; apply wp_ret;
    eexists st1, e', lt1; (split; [reflexivity|]); split_and!; try done.
  - simpl. split; [done|]. specialize (Hres Hr). rewrite Lk.
    destruct (b =? 0) eqn:Eb; bool_to_prop; simpl; [rewrite decide_False; naive_solver|].
    destruct (decide (k ∈ Kt)); simpl; [rewrite decide_True|rewrite decide_False]; naive_solver.
  - simpl. by rewrite map_kvs_success.
Qed.
End rules.
