(* ===== verification/EngineProps.v ===== *)
(** * Theorems about the engine's synchronous operations

    Refinement of a key-value map by any sequence of calls, the round trip of a
    stored value, failing fast on a degraded device, rejection of bad arguments,
    and the life of a retrieved buffer. *)
From S2P Require Import Prelude Libc KvTypes MemoryPool DmaPool UtHash HashTable KvsApi.
From S2P Require Import Emulator MultiDevice ThreadPool Engine EngineSpec.

(** ** Specification: a map and the set of keys the engine has seen *)

Inductive eop : Type :=
| OStore (k v : bytes) (addr : Z) (overwrite : bool)
| ORetrieve (k : bytes) (del : bool)
| ODelete (k : bytes)
| OExists (k : bytes).

(** The answer to a call: its code and, where there is one, the value it gave. *)
Inductive eres : Type :=
| RCode (r : kv_result_t)
| RValue (r : kv_result_t) (v : option bytes)
| RFlag (r : kv_result_t) (x : option Z).

Definition op_key (op : eop) : bytes :=
  match op with OStore k _ _ _ | ORetrieve k _ | ODelete k | OExists k => k end.

Definition bad_key (k : bytes) : bool := bad_key_len (Z.of_nat (length k)).

Record spec_state := Spec { sp_map : bytes -> option bytes; sp_keys : keyset }.

(** One call on the specification.  [lossy] allows what a refused allocation may
    cost: the key table does not learn a key. *)
Definition spec_step (lossy : Prop) (s : spec_state) (op : eop) (res : eres) (s' : spec_state) : Prop :=
  match op, res with
  | OStore k v _ ow, RCode r =>
    if bad_key k then r = KV_ERR_INVALID_PARAM /\ s' = s else
    store_effect k v ow r (sp_map s) (sp_map s') /\
    (sp_keys s' = sp_keys s ∪ {[k]} \/ sp_keys s' = sp_keys s /\
       (lossy \/ r = KV_ERR_DEVICE_DEGRADED \/ r = KV_ERR_NO_MEMORY))
  | ORetrieve k del, RValue r v =>
    if bad_key k then r = KV_ERR_INVALID_PARAM /\ v = None /\ s' = s else
    retrieve_effect k del r (sp_map s) (sp_map s') /\
    v = (if decide (r = KV_SUCCESS) then sp_map s k else None) /\
    sp_keys s' = (if decide (r = KV_SUCCESS /\ del = true) then sp_keys s ∖ {[k]} else sp_keys s)
  | ODelete k, RCode r =>
    if bad_key k then r = KV_ERR_INVALID_PARAM /\ s' = s else
    delete_effect k r (sp_map s) (sp_map s') /\
    (sp_keys s' = sp_keys s ∖ {[k]} \/ sp_keys s' = sp_keys s /\ r = KV_ERR_DEVICE_DEGRADED)
  | OExists k, RFlag r x =>
    if bad_key k then r = KV_ERR_INVALID_PARAM /\ x = None /\ s' = s else
    (forall k', sp_map s' k' = sp_map s k') /\ sp_keys s' = sp_keys s /\
    match x with
    | Some y => r = KV_SUCCESS /\
        y = (if decide (is_Some (sp_map s k) /\ k ∈ sp_keys s) then 1 else 0)
    | None => r <> KV_SUCCESS
    end
  | _, _ => False
  end.

Inductive spec_run (lossy : Prop) : spec_state -> list eop -> list eres -> spec_state -> Prop :=
| spec_nil s : spec_run lossy s [] [] s
| spec_cons s s1 s2 op ops r rs :
    spec_step lossy s op r s1 -> spec_run lossy s1 ops rs s2 ->
    spec_run lossy s (op :: ops) (r :: rs) s2.

Lemma spec_step_weaken (P Q : Prop) s op r s' :
  (P -> Q) -> spec_step P s op r s' -> spec_step Q s op r s'.
Proof. intros H. destruct op, r; simpl; try done. case_if E; [done|]. naive_solver. Qed.

Lemma spec_run_weaken (P Q : Prop) s ops rs s' :
  (P -> Q) -> spec_run P s ops rs s' -> spec_run Q s ops rs s'.
Proof. intros H. induction 1; econstructor; [by eapply spec_step_weaken|done]. Qed.

(** ** The calls *)

Section calls.
Context {AB : Abi} {AL : Allocator} `{K : KvsOps}.

(** A client that reads what it retrieves. *)
Definition run_eop (op : eop) : prog est eres :=
  match op with
  | OStore k v a ow =>
    r ← kv_engine_store true (Some k) (Z.of_nat (length k)) (Some (CBuf a v))
          (Z.of_nat (length v)) ow; mret (RCode r)
  | ORetrieve k del =>
    r ← kv_engine_retrieve true (Some k) (Z.of_nat (length k)) true del;
    match r with
    | (res, Some (b, len)) => v ← with_heap (load_bytes b len); mret (RValue res (Some v))
    | (res, None) => mret (RValue res None)
    end
  | ODelete k => r ← kv_engine_delete true (Some k) (Z.of_nat (length k)); mret (RCode r)
  | OExists k =>
    r ← kv_engine_exists true (Some k) (Z.of_nat (length k)) true; mret (RFlag r.1 r.2)
  end.

Fixpoint run_eops (ops : list eop) : prog est (list eres) :=
  match ops with
  | [] => mret []
  | op :: ops' => r ← run_eop op; rs ← run_eops ops'; mret (r :: rs)
  end.
End calls.

Section theorems.
Context {AB : Abi} {AL : Allocator} {LIM : AllocLimit AL} `{KS : KvsSpec}.
Implicit Types (st : kvs_state) (e : kv_engine).

Lemma bad_key_false k : bad_key k = false <-> engine_key k.
Proof.
  unfold bad_key, bad_key_len, engine_key. rewrite orb_false_iff, Z.ltb_ge, Z.ltb_ge. lia.
Qed.

Definition view st e (Kt : keyset) : spec_state := Spec (lookup_kv st e) Kt.

(** A call whose key has a bad length returns before it does anything. *)
Lemma wp_bad_key X op h st e Kt (Q : eres -> est -> Prop) lossy :
  bad_key (op_key op) = true ->
  (forall r, spec_step lossy (view st e Kt) op r (view st e Kt) -> Q r (Est (World h st) e)) ->
  wp X (run_eop op) Q (Est (World h st) e).
Proof.
  intros Hbad HQ. destruct op as [k v a ow|k del|k|k]; simpl in Hbad; simpl run_eop; apply wp_bind.
  - unfold kv_engine_store. apply wp_bind, wp_ret. unfold bad_key in Hbad. rewrite Hbad.
    simpl. case_if E; apply wp_ret, wp_ret, HQ; simpl; unfold bad_key; by rewrite Hbad.
  - unfold kv_engine_retrieve. apply wp_bind, wp_ret. unfold bad_key in Hbad. rewrite Hbad.
    simpl. case_if E; apply wp_ret, wp_ret, HQ; simpl; unfold bad_key; by rewrite Hbad.
  - unfold kv_engine_delete. apply wp_bind, wp_ret. unfold bad_key in Hbad. rewrite Hbad.
    simpl. case_if E; apply wp_ret, wp_ret, HQ; simpl; unfold bad_key; by rewrite Hbad.
  - unfold kv_engine_exists. apply wp_bind, wp_ret. unfold bad_key in Hbad. rewrite Hbad.
    simpl. case_if E; apply wp_ret, wp_ret, HQ; simpl; unfold bad_key; by rewrite Hbad.
Qed.

(** One call: the invariant is kept, and the specification explains the answer. *)
Lemma wp_run_eop h0 op tr m st e Kt lt bufs stack :
  inv m st e Kt lt bufs stack -> (refusals h0 <= refusals (Heap tr m))%nat ->
  wp (oom h0) (run_eop op) (fun r s =>
    exists tr' m' st' e' Kt' lt' stack', s = Est (World (Heap tr' m') st') e' /\
      inv m' st' e' Kt' lt' bufs stack' /\
      spec_step (oom h0 s) (view st e Kt) op r (view st' e' Kt') /\
      (refusals (Heap tr m) <= refusals (Heap tr' m'))%nat /\ same_engine e e' /\ same_handles st st' /\
      exists given, reown m (lt ++ bufs) m' (given ++ lt' ++ bufs)) (Est (World (Heap tr m) st) e).
Proof.
  intros Hinv Hr. destruct (bad_key (op_key op)) eqn:Hbad.
  { eapply wp_bad_key; [done|]. intros r Hstep.
    exists tr, m, st, e, Kt, lt, stack. split_and!; try done. exists []. apply reown_refl, Hinv. }
  pose proof Hbad as Hk. apply bad_key_false in Hk.
  destruct op as [k v a ow|k del|k|k]; simpl in Hbad, Hk; simpl run_eop; apply wp_bind.
  - eapply wp_mono; [eapply wp_exit_mono; [by apply wp_kv_engine_store|]|].
    { unfold oom, out_of_memory. intros ? ?. lia. }
    intros r s (tr' & m' & st' & e' & Kt' & lt' & -> & Hinv' & Hkept & Hh & Heff & HK & Hr').
    apply wp_ret. exists tr', m', st', e', Kt', lt', stack.
    split_and!; try done; [|apply Hkept|exists []; apply Hkept].
    simpl. rewrite Hbad. split; [done|]. destruct HK as [?|[? [Ho|Ho]]]; [by left|right..]; (split; [done|]); [left|by right].
    unfold oom, out_of_memory in *. simpl in *. lia.
  - eapply wp_mono; [by apply wp_kv_engine_retrieve|].
    intros [r out] s (tr' & m' & st' & e' & Kt' & lt' & stack' & -> & Hinv' & Hs & Hh & Heff & Hr' & Hout).
    simpl in Heff, Hout. destruct out as [[b len]|].
    + destruct Hout as (-> & HKt & (v & blk & Hv & -> & Hb & Hdata) & Hcase).
      apply wp_bind, wp_with_heap. eapply wp_load_bytes; [exact Hb| |].
      { assert (length v = length (take (length v) (blk_data blk))) as E by (by rewrite Hdata).
        rewrite length_take in E. lia. }
      rewrite Nat2Z.id, Hdata. apply wp_ret.
      exists tr', m', st', e', Kt', lt', stack'. split_and!; try done.
      { simpl. rewrite Hbad, HKt, Hv. by destruct del. }
      destruct Hcase as [[_ ?]|(_ & _ & ?)]; [by exists []|by exists [b]].
    + destruct Hout as (Hne & -> & -> & -> & Hre). apply wp_ret.
      exists tr', m', st', e', Kt, lt, stack. split_and!; try done; [|by exists []].
      simpl. rewrite Hbad, !decide_False by tauto. done.
  - eapply wp_mono; [by apply wp_kv_engine_delete|].
    intros r s (m' & st' & e' & Kt' & lt' & -> & Hinv' & Hkept & Hh & Heff & HK).
    apply wp_ret. exists tr, m', st', e', Kt', lt', stack.
    split_and!; try done; [|apply Hkept|exists []; apply Hkept].
    simpl. by rewrite Hbad.
  - eapply wp_mono; [by apply wp_kv_engine_exists|].
    intros [r x] s (st' & e' & lt' & -> & Hinv' & Hkept & Hh & HM & Hx).
    apply wp_ret. exists tr, m, st', e', Kt, lt', stack.
    split_and!; try done; [|apply Hkept|exists []; apply Hkept].
    simpl. by rewrite Hbad.
Qed.

Lemma wp_run_eops h0 ops tr m st e Kt lt bufs stack :
  inv m st e Kt lt bufs stack -> (refusals h0 <= refusals (Heap tr m))%nat ->
  wp (oom h0) (run_eops ops) (fun rs s =>
    exists tr' m' st' e' Kt' lt' stack', s = Est (World (Heap tr' m') st') e' /\
      inv m' st' e' Kt' lt' bufs stack' /\
      spec_run (oom h0 s) (view st e Kt) ops rs (view st' e' Kt') /\
      (refusals (Heap tr m) <= refusals (Heap tr' m'))%nat /\ same_engine e e' /\ same_handles st st' /\
      exists given, reown m (lt ++ bufs) m' (given ++ lt' ++ bufs)) (Est (World (Heap tr m) st) e).
Proof.
  revert tr m st e Kt lt stack. induction ops as [|op ops IH]; intros tr m st e Kt lt stack Hinv Hr.
  { apply wp_ret. exists tr, m, st, e, Kt, lt, stack. split_and!; try done; [constructor|].
    exists []. apply reown_refl, Hinv. }
  simpl run_eops. apply wp_bind.
  eapply wp_mono; [by eapply wp_run_eop|]. cbn beta.
  intros r s (tr1 & m1 & st1 & e1 & Kt1 & lt1 & stack1 & -> & Hinv1 & Hstep & Hr1 & Hs1 & Hh1 & g1 & Hre1).
  apply wp_bind. eapply wp_mono; [eapply IH; [done|lia]|]. cbn beta.
  intros rs s (tr2 & m2 & st2 & e2 & Kt2 & lt2 & stack2 & -> & Hinv2 & Hrun & Hr2 & Hs2 & Hh2 & g2 & Hre2).
  apply wp_ret. exists tr2, m2, st2, e2, Kt2, lt2, stack2.
  split_and!; try done; [|lia|by eapply same_engine_trans|by eapply same_handles_trans|].
  2:{ exists (g2 ++ g1). rewrite (Permutation_app_comm g1) in Hre1.
      destruct (reown_frame _ _ _ _ g1 (proj1 Hre1) Hre2) as [Hre3 _].
      eapply reown_perm; [done..|done| |eapply reown_trans; [exact Hre1|exact Hre3]]. solve_Permutation. }
  econstructor; [|done]. eapply spec_step_weaken; [|done].
  unfold oom, out_of_memory. cbn [es_w w_heap]. lia.
Qed.

(** ** Properties *)


(** C32: round trip.  When a store of a value below 4 GiB succeeds, a retrieve of
    the same key right after it either fails for a reason other than a missing
    key, or hands out a buffer whose bytes are that value, with its length. *)
Theorem store_retrieve_roundtrip k v a overwrite tr m st e Kt lt bufs stack :
  inv m st e Kt lt bufs stack -> engine_key k -> Z.of_nat (length v) < 2 ^ 32 ->
  wp (oom (Heap tr m))
    (r ← kv_engine_store true (Some k) (Z.of_nat (length k)) (Some (CBuf a v))
           (Z.of_nat (length v)) overwrite;
     if bool_decide (r = KV_SUCCESS)
     then x ← kv_engine_retrieve true (Some k) (Z.of_nat (length k)) true false; mret (Some x)
     else mret None)
    (fun x s => match x with
     | Some (r, Some (b, len)) =>
       r = KV_SUCCESS /\ len = Z.of_nat (length v) /\
       exists blk, h_blocks (w_heap (es_w s)) !! b = Some blk /\ take (length v) (blk_data blk) = v
     | Some (r, None) => r <> KV_SUCCESS /\ r <> KV_ERR_KEY_NOT_FOUND
     | None => True
     end)
    (Est (World (Heap tr m) st) e).
Proof.
  intros Hinv Hk Hv. apply wp_bind. eapply wp_mono; [by eapply wp_kv_engine_store|]. cbn beta.
  intros r s (tr1 & m1 & st1 & e1 & Kt1 & lt1 & -> & Hinv1 & _ & _ & (_ & Hsucc & _) & _).
  case_bool_decide as Hr; [|by apply wp_ret].
  destruct (Hsucc Hr) as [Hl _]. rewrite wire_small in Hl by done. apply wp_bind.
  eapply wp_mono; [by eapply wp_kv_engine_retrieve|]. cbn beta.
  intros [r2 out] s (tr2 & m2 & st2 & e2 & Kt2 & lt2 & stack2 & -> & _ & _ & _ & Heff & _ & Hout).
  apply wp_ret. destruct out as [[b len]|]; simpl in Hout.
  - destruct Hout as (? & _ & (v' & blk & Hv' & -> & Hb & Hdata) & _).
    rewrite Hl in Hv'. simplify_eq. split_and!; try done. by exists blk.
  - destruct Hout as (Hne & _). split; [done|]. intros E. destruct Heff as (_ & _ & Hnf & _).
    simpl in Hnf. rewrite (Hnf E) in Hl. done.
Qed.

(** The answer of a call refused for the state of its device. *)
Definition degraded_answer (op : eop) : eres :=
  match op with
  | OStore _ _ _ _ | ODelete _ => RCode KV_ERR_DEVICE_DEGRADED
  | ORetrieve _ _ => RValue KV_ERR_DEVICE_DEGRADED None
  | OExists _ => RFlag KV_ERR_DEVICE_DEGRADED None
  end.

(** C39: fail fast.  While the device a key shards to is marked unhealthy, every
    operation on that key returns KV_ERR_DEVICE_DEGRADED and leaves the heap, the
    device library, the counters and the key table exactly as they are. *)
Theorem degraded_fails_fast op ctx (s : est) :
  engine_key (op_key op) -> ke_initialized (es_e s) = true -> 1 <= ke_num_devices (es_e s) ->
  ke_devices (es_e s) !!
    Z.to_nat (kv_engine_shard_for_key (op_key op) (ke_num_devices (es_e s))) = Some ctx ->
  dc_healthy ctx = false ->
  run_eop op s = Done (degraded_answer op) s.
Proof.
  intros Hk Hi Hn Hctx Hbad. pose proof (engine_key_len _ Hk) as Hlen.
  assert (forall kp : bytes, read_arg (St := est) kp (Z.of_nat (length kp)) = mret kp) as Hread.
  { intros kp. unfold read_arg. by rewrite Z.leb_refl, Nat2Z.id, firstn_all. }
  assert (shard_device (op_key op) s = Done (kv_engine_shard_for_key (op_key op)
    (ke_num_devices (es_e s)), ctx) s) as Hsh.
  { unfold shard_device, mbind, prog_bind, engine. replace (ke_num_devices (es_e s) =? 0)
      with false by lia. by rewrite Hctx. }
  assert (check_device_health ctx = KV_ERR_DEVICE_DEGRADED) as Hh
    by (unfold check_device_health; by rewrite Hbad).
  destruct op as [k v a ow|k del|k|k]; simpl in Hk, Hlen, Hsh; simpl run_eop;
    unfold kv_engine_store, kv_engine_retrieve, kv_engine_delete, kv_engine_exists;
    unfold mbind, prog_bind, engine; rewrite Hi, Hlen; simpl negb; simpl orb; cbv iota;
    rewrite ?Hread.
  2: replace (Z.of_nat (length k) =? 0) with false by (unfold engine_key in Hk; bool_lia).
  all: unfold mret, prog_ret; cbn [negb orb]; cbv beta iota; rewrite Hsh, Hh; by rewrite bool_decide_eq_false_2.
Qed.

(** Bad arguments.  With a null engine, an engine that is not initialised, a
    null key, or a key length outside 4..255, every operation returns
    KV_ERR_INVALID_PARAM and changes nothing, whatever the other arguments and
    whatever the state. *)
Theorem bad_arguments_rejected eng key key_len value value_len ow outs del (s : est) :
  eng = false \/ ke_initialized (es_e s) = false \/ key = None \/ bad_key_len key_len = true ->
  kv_engine_store eng key key_len value value_len ow s = Done KV_ERR_INVALID_PARAM s /\
  kv_engine_retrieve eng key key_len outs del s = Done (KV_ERR_INVALID_PARAM, None) s /\
  kv_engine_delete eng key key_len s = Done KV_ERR_INVALID_PARAM s /\
  kv_engine_exists eng key key_len outs s = Done (KV_ERR_INVALID_PARAM, None) s.
Proof.
  intros Hbad. unfold kv_engine_store, kv_engine_retrieve, kv_engine_delete, kv_engine_exists.
  unfold mbind, prog_bind, engine. destruct key as [k|]; [|by destruct value].
  destruct eng; simpl; [|by destruct value].
  destruct (ke_initialized (es_e s)); simpl; [|by destruct value].
  destruct Hbad as [?|[?|[?|Hl]]]; try done. rewrite Hl.
  split_and!; [by destruct value|by destruct ((key_len =? 0) || negb outs)|done|by destruct outs].
Qed.

(** *** The life of a retrieved buffer *)

Lemma wp_kv_engine_free_buffer X tr m st e (Kt : keyset) lt bufs stack b fp stack0
    (Q : unit -> est -> Prop) :
  inv m st e Kt lt bufs stack -> 0 < b -> is_Some (m !! b) -> owns (extra fp b ++ lt ++ bufs) m ->
  (if fp : bool then stack0 = stack ++ [b] /\ NoDup stack0 /\ b ∈ bufs
   else stack0 = stack /\ b ∉ bufs) ->
  (forall e', inv (delete_all (extra fp b) m) st e' Kt lt bufs stack0 -> same_engine e e' ->
     Q tt (Est (World (Heap tr (delete_all (extra fp b) m)) st) e')) ->
  wp X (kv_engine_free_buffer b) Q (Est (World (Heap tr m) st) e).
Proof.
  intros Hinv Hpos [blk Hblk] Ho Hst HQ.
  assert (holding m st e Kt lt bufs stack0 fp b (blk_size blk)) as Hhold.
  { split_and!; [done|by exists blk|done|]. exists stack. split; [done|]. by destruct fp; destruct_and?. }
  pose proof (wp_give_back X tr _ _ _ _ _ _ _ _ _ _ Q Hhold HQ) as Hgive.
  unfold kv_engine_free_buffer. apply wp_bind, wp_ret. cbn [es_e].
  pose proof (inv_pool _ _ _ _ _ _ _ Hinv) as [Hp _].
  destruct (ke_buffer_pool e) as [p|] eqn:Ep.
  - destruct Hp as [Hp _].
    assert (wp never (dma_pool_owns b) (fun o p' => o = if decide (b ∈ bufs) then 1 else 0) p) as Hw
      by (by eapply wp_dma_pool_owns).
    apply wp_done in Hw as (o & p' & -> & ->).
    destruct fp; destruct_and?; [rewrite decide_True by done|rewrite decide_False by done]; exact Hgive.
  - destruct Hp as [-> ->]. destruct fp; destruct_and?; [set_solver|exact Hgive].
Qed.

(** No buffer is lost.  Retrieving a key (without deleting it) and returning
    the buffer with kv_engine_free_buffer leaves the pool with the same free
    buffers and the heap with the same blocks, whether the value came through a
    pooled buffer or a new one; a retrieve that fails has no buffer to return and
    leaves the same. *)
Theorem retrieve_free_no_leak k tr m st e Kt lt bufs stack :
  inv m st e Kt lt bufs stack -> engine_key k ->
  wp never
    (r ← kv_engine_retrieve true (Some k) (Z.of_nat (length k)) true false;
     match r.2 with
     | Some (b, _) => kv_engine_free_buffer b
     | None => mret tt
     end)
    (fun _ s => exists lt', inv (h_blocks (w_heap (es_w s))) (w_kvs (es_w s)) (es_e s)
       Kt lt' bufs stack /\
       reown m (lt ++ bufs) (h_blocks (w_heap (es_w s))) (lt' ++ bufs))
    (Est (World (Heap tr m) st) e).
Proof.
  intros Hinv Hk. apply wp_bind. eapply wp_mono; [by eapply wp_kv_engine_retrieve|]. cbn beta.
  intros [r out] s (tr1 & m1 & st1 & e1 & Kt1 & lt1 & stack1 & -> & Hinv1 & _ & _ & _ & _ & Hout).
  simpl in Hout. destruct out as [[b len]|]; simpl.
  2:{ destruct Hout as (_ & -> & -> & -> & Hre). apply wp_ret. by exists lt. }
  destruct Hout as (_ & -> & (v & blk & _ & _ & Hb & _) & Hcase).
  destruct Hcase as [[-> Hre]|(-> & Hn & Hre)].
  - pose proof (inv_pool _ _ _ _ _ _ _ Hinv) as [_ [Hnd _]].
    assert (b ∈ bufs) as Hbin by (eapply stack_in_bufs; [exact Hinv|set_solver]).
    assert (0 < b) as Hpos.
    { destruct (inv_owns _ _ _ _ _ _ _ Hinv) as [_ Ho]. apply (Ho b). set_solver. }
    eapply (wp_kv_engine_free_buffer _ _ _ _ _ _ _ _ _ b true); try done; [apply Hinv1|].
    intros e2 Hinv2 _. exists lt1. by split.
  - destruct (proj1 (owns_cons _ _ _) (proj1 Hre)) as (Hpos & Hs & Hbn & _).
    eapply (wp_kv_engine_free_buffer _ _ _ _ _ _ _ _ _ b false stack); try done; [apply Hre|split; [done|set_solver]|].
    intros e2 Hinv2 _. exists lt1. split; [done|]. eapply reown_trans; [exact Hre|].
    simpl. apply reown_free, Hre.
Qed.
End theorems.

(** ** A concrete engine *)

Definition sample_path : string := "/dev/kvemul0".
Definition sample_lib : lib :=
  Lib 3 {[ 1 := sample_path ]} {[ 2 := (1, ks_name 0) ]}
    {[ sample_path := Emu {[ ks_name 0 := ∅ ]} 1000000 1000000 ]} ∅.

Lemma sample_lib_ok : lib_ok sample_lib.
Proof.
  split_and!; simpl; [lia|..].
  - intros h [p Hp]. apply lookup_singleton_Some in Hp as [<- _]. lia.
  - intros hd x Hx. apply lookup_singleton_Some in Hx as [<- <-]. split; [lia|]. simpl.
    rewrite lookup_singleton_eq. eauto.
  - intros p e ks k v Hp. apply lookup_singleton_Some in Hp as [<- <-]. unfold ks_map. simpl.
    rewrite lookup_singleton. case_decide; simpl; by rewrite lookup_empty.
Qed.

Definition sample_kvs : lib_state := exist _ sample_lib sample_lib_ok.

Definition sample_ctx : kv_device_ctx_t := DevCtx 1 2 0 true 0 0 0 10.
Definition sample_engine : kv_engine :=
  Engine 0 (sample_ctx :: replicate 7 zero_ctx) 1 0 0 None None None zero_stats M_free M_free
    (HashTab None M_free) true None.

Lemma sample_inv : inv ∅ sample_kvs sample_engine ∅ [] [] [].
Proof.
  split; try done.
  - split_and!; try done. intros i ctx Hi Hctx. assert (i = 0%nat) as -> by (simpl in Hi; lia).
    simpl in Hctx. simplify_eq. by split_and!; try done; exists (ks_name 0).
  - exists []. split_and!; try done; [|apply owns_nil]. split_and!; try done; apply NoDup_nil_2.
  - split_and!; [done|apply NoDup_nil_2|set_solver].
  - apply owns_nil.
Qed.

Definition sample_state (e : kv_engine) : @est emu_kvs :=
  @Est emu_kvs (@World emu_kvs (Heap [] ∅) sample_kvs) e.

Definition sample_key : bytes := [107; 101; 121; 49].
Definition sample_ops : list eop :=
  [OStore sample_key [1; 2; 3] 4096 true; ORetrieve sample_key false; OExists sample_key;
   ODelete sample_key; ORetrieve sample_key false; ODelete []].

(** The run the witness is about, evaluated. *)
Example sample_run :
  match @run_eops lp64 big_allocator emu_kvs sample_ops
          (sample_state sample_engine) with
  | Done rs _ => rs
  | _ => []
  end =
  [RCode KV_SUCCESS; RValue KV_SUCCESS (Some [1; 2; 3]); RFlag KV_SUCCESS (Some 1);
   RCode KV_SUCCESS; RValue KV_ERR_KEY_NOT_FOUND None; RCode KV_ERR_INVALID_PARAM].
Proof. vm_compute. reflexivity. Qed.

(** ** The theorems at the concrete engine *)


Lemma sample_key_ok : engine_key sample_key.
Proof. unfold engine_key, sample_key. simpl. lia. Qed.

Lemma store_retrieve_roundtrip_witness :
  (r ← @kv_engine_store lp64 big_allocator emu_kvs true (Some sample_key) 4
         (Some (CBuf 4097 [1; 2; 3])) 3 true;
   if bool_decide (r = KV_SUCCESS)
   then x ← @kv_engine_retrieve big_allocator emu_kvs true (Some sample_key) 4 true false;
        mret (Some x)
   else mret None) (sample_state sample_engine) <> Undef.
Proof.
  intros E.
  pose proof (@store_retrieve_roundtrip lp64 big_allocator big_alloc_limit emu_kvs emu_view emu_spec
    sample_key [1; 2; 3] 4097 true [] ∅ sample_kvs sample_engine ∅ [] [] [] sample_inv
    sample_key_ok ltac:(vm_compute; reflexivity)) as H.
  unfold wp in H. change (Z.of_nat (length sample_key)) with 4 in H.
  change (Z.of_nat (length [1; 2; 3])) with 3 in H. unfold sample_state in E. rewrite E in H. exact H.
Defined.

Definition sick_engine : kv_engine :=
  set_devices (DevCtx 1 2 0 false 10 10 12 10 :: replicate 7 zero_ctx) sample_engine.

Lemma degraded_fails_fast_witness :
  @run_eop lp64 big_allocator emu_kvs (OStore sample_key [1] 0 true)
    (sample_state sick_engine) =
  Done (RCode KV_ERR_DEVICE_DEGRADED) (sample_state sick_engine).
Proof.
  apply (degraded_fails_fast (AB := lp64) (AL := big_allocator) (K := emu_kvs) (OStore sample_key [1] 0 true)
    (DevCtx 1 2 0 false 10 10 12 10) (sample_state sick_engine));
    [exact sample_key_ok|reflexivity|simpl; lia|vm_compute; reflexivity|reflexivity].
Defined.

Lemma bad_arguments_rejected_witness :
  @kv_engine_delete emu_kvs true (Some sample_key) 3
    (sample_state sample_engine) =
  Done KV_ERR_INVALID_PARAM (sample_state sample_engine).
Proof.
  apply (bad_arguments_rejected (AB := lp64) (AL := big_allocator) (K := emu_kvs) true (Some sample_key) 3 None 0 true
    true true (sample_state sample_engine)). right. right. right. reflexivity.
Defined.

Lemma retrieve_free_no_leak_witness :
  (r ← @kv_engine_retrieve big_allocator emu_kvs true (Some sample_key) 4 true false;
   match r.2 with
   | Some (b, _) => @kv_engine_free_buffer emu_kvs b
   | None => mret tt
   end) (sample_state sample_engine) <> Undef.
Proof.
  intros E.
  pose proof (@retrieve_free_no_leak big_allocator big_alloc_limit emu_kvs emu_view emu_spec
    sample_key [] ∅ sample_kvs sample_engine ∅ [] [] [] sample_inv sample_key_ok) as H.
  unfold wp in H. change (Z.of_nat (length sample_key)) with 4 in H. unfold sample_state in E. rewrite E in H. exact H.
Defined.

Lemma device_open_close_roundtrip_witness :
  (r ← @kv_engine_open_device big_allocator emu_kvs sample_path 1;
   match r with
   | (Some ctx, res) => _ ← @kv_engine_close_device emu_kvs ctx; mret (true, res)
   | (None, res) => mret (false, res)
   end) (World (Heap [] ∅) sample_kvs) <> Undef.
Proof.
  intros E. pose proof (@device_open_close_roundtrip big_allocator emu_kvs emu_view emu_spec
    sample_path 1 [] ∅ sample_kvs) as H.
  unfold wp in H. rewrite E in H. exact H.
Defined.

Lemma resolve_device_paths_spec_witness :
  kv_engine_resolve_device_paths
    (Some (Config (Some sample_path) None 0 0 0 0 (replicate 8 None) 0 0)) true =
    (KV_SUCCESS, [sample_path]) /\
  exists cfg, Some (Config (Some sample_path) None 0 0 0 0 (replicate 8 None) 0 0) = Some cfg /\
    cfg_device_path cfg = Some sample_path.
Proof.
  split; [reflexivity|].
  destruct (resolve_device_paths_spec
    (Some (Config (Some sample_path) None 0 0 0 0 (replicate 8 None) 0 0)) true KV_SUCCESS
    [sample_path] eq_refl) as [(_ & cfg & E & _)|(E & _)]; [|discriminate].
  exists cfg. split; [exact E|]. injection E as <-. reflexivity.
Defined.
