(* ===== verification/Async.v ===== *)
(** * Asynchronous operations (src/async/async_ops.c)

    An asynchronous call copies its arguments into a context and hands it to the
    thread pool; a worker later runs the synchronous operation and calls back.
    Submissions and worker turns are the events of a schedule; a synchronous
    operation is one step of it. *)
From S2P Require Import Prelude Libc KvTypes MemoryPool DmaPool UtHash HashTable KvsApi.
From S2P Require Import Emulator MultiDevice ThreadPool Engine EngineSpec EngineProps.

(** One call of a completion callback: which, with what, and for
    [kv_retrieve_cb] the buffer and the bytes it finds there. *)
Record completion := Completion {
  cp_callback : Z;
  cp_result : kv_result_t;
  cp_value : option (Z * bytes);
  cp_user_data : Z
}.

(** The engine and the callbacks made so far, in order. *)
Record ast `{KvsOps} := Ast { as_est : est; as_done : list completion }.
Arguments Ast {_} _ _.

Section async.
Context {AB : Abi} {AL : Allocator} `{K : KvsOps}.

Definition on_engine {A} (m : prog est A) : prog ast A :=
  zoom as_est (fun s a => Ast s (as_done a)) m.

(** [callback(...)], when it is not NULL. *)
Definition call_back (c : completion) : prog ast unit :=
  if cp_callback c =? 0 then mret tt else modify (fun a => Ast (as_est a) (as_done a ++ [c])).

(** ** Contexts *)

Definition async_context_create (op_type : async_op_type_t) (key : bytes) (key_len : Z)
    (value : option bytes) (value_len callback user_data : Z) (overwrite : bool)
    : prog heap (option async_context_t) :=
  ctx ← malloc (sizeof T_async_context);
  if ctx =? 0 then mret None else
  key_buffer ← malloc key_len;
  if key_buffer =? 0 then _ ← free ctx; mret None else
  src ← read_arg key key_len;
  _ ← store_bytes key_buffer src;
  let made value_buffer := Some (AsyncCtx ctx op_type callback 0 user_data key_buffer key_len
                                   value_buffer value_len overwrite) in
  match value with
  | Some v =>
    if 0 <? value_len then
      value_buffer ← malloc value_len;
      if value_buffer =? 0 then _ ← free key_buffer; _ ← free ctx; mret None else
      src ← read_arg v value_len;
      _ ← store_bytes value_buffer src;
      mret (made value_buffer)
    else mret (made 0)
  | None => mret (made 0)
  end.

Definition async_context_free (ctx : async_context_t) : prog heap unit :=
  _ ← free (ac_key_buffer ctx);
  _ ← free (ac_value_buffer ctx);
  free (ac_self ctx).

Definition set_retrieve_callback (cb : Z) (ctx : async_context_t) : async_context_t :=
  AsyncCtx (ac_self ctx) (ac_op_type ctx) (ac_callback ctx) cb (ac_user_data ctx)
    (ac_key_buffer ctx) (ac_key_len ctx) (ac_value_buffer ctx) (ac_value_len ctx) (ac_overwrite ctx).

(** ** The worker *)

(** The bytes behind [ctx->value_buffer]. *)
Definition context_value (ctx : async_context_t) : prog heap (option cbuf) :=
  if ac_value_buffer ctx =? 0 then mret None else
  v ← load_bytes (ac_value_buffer ctx) (ac_value_len ctx);
  mret (Some (CBuf (ac_value_buffer ctx) v)).

(** What the callback of a retrieve finds behind its [value] argument. *)
Definition seen_value (out : option (Z * Z)) : prog heap (option (Z * bytes)) :=
  match out with
  | Some (b, len) => v ← load_bytes b len; mret (Some (b, v))
  | None => mret None
  end.

Definition async_worker_func (ctx : async_context_t) : prog ast unit :=
  key ← on_engine (with_heap (load_bytes (ac_key_buffer ctx) (ac_key_len ctx)));
  match ac_op_type ctx with
  | ASYNC_OP_STORE =>
    value ← on_engine (with_heap (context_value ctx));
    result ← on_engine (kv_engine_store true (Some key) (ac_key_len ctx) value (ac_value_len ctx)
                          (ac_overwrite ctx));
    _ ← call_back (Completion (ac_callback ctx) result None (ac_user_data ctx));
    on_engine (with_heap (async_context_free ctx))
  | ASYNC_OP_RETRIEVE =>
    r ← on_engine (kv_engine_retrieve true (Some key) (ac_key_len ctx) true false);
    let '(result, out) := (r : kv_result_t * option (Z * Z)) in
    value ← on_engine (with_heap (seen_value out));
    _ ← call_back (Completion (ac_retrieve_callback ctx) result value (ac_user_data ctx));
    on_engine (with_heap (async_context_free ctx))
  | ASYNC_OP_DELETE =>
    result ← on_engine (kv_engine_delete true (Some key) (ac_key_len ctx));
    _ ← call_back (Completion (ac_callback ctx) result None (ac_user_data ctx));
    on_engine (with_heap (async_context_free ctx))
  end.

(** One turn of [thread_pool_worker]; it does nothing when the worker would sleep. *)
Definition worker_turn : prog ast unit :=
  e ← on_engine engine;
  match ke_workers e with
  | None => mret tt
  | Some p =>
    match worker_critical p with
    | (ATake item, p') =>
      _ ← on_engine (set_engine (set_workers p'));
      _ ← async_worker_func (wi_arg item);
      on_engine (with_heap (free (wi_self item)))
    | (AFault, _) => undefined
    | _ => mret tt
    end
  end.

(** ** Submission *)

(** [thread_pool_submit(engine->workers, async_worker_func, ctx, ...)].  A submitter
    that finds the queue full sleeps until a worker has taken an item; there is
    room then, so it does not block twice. *)
Definition thread_pool_submit (ctx : async_context_t) : prog ast Z :=
  self ← on_engine (with_heap (malloc (sizeof T_work_item)));
  if self =? 0 then mret (-1) else
  let item := WorkItem self ctx in
  let attempt (blocked : prog ast Z) : prog ast Z :=
    e ← on_engine engine;
    match ke_workers e with
    | None => undefined
    | Some p =>
      match submit_critical item p with
      | (SReject, _) => _ ← on_engine (with_heap (free self)); mret (-1)
      | (SEnqueue, p') => _ ← on_engine (set_engine (set_workers p')); mret 0
      | (SBlock, _) => blocked
      end
    end in
  attempt (_ ← worker_turn; attempt undefined).

(** The common end of the three calls. *)
Definition submit_context (made : option async_context_t) : prog ast kv_result_t :=
  match made with
  | None => mret KV_ERR_NO_MEMORY
  | Some ctx =>
    r ← thread_pool_submit ctx;
    if negb (r =? 0) then _ ← on_engine (with_heap (async_context_free ctx)); mret KV_ERR_IO
    else mret KV_SUCCESS
  end.

Definition kv_engine_store_async (eng : bool) (key : option bytes) (key_len : Z)
    (value : option bytes) (value_len callback user_data : Z) (overwrite : bool)
    : prog ast kv_result_t :=
  e ← on_engine engine;
  match key, value with
  | Some k, Some _ =>
    if negb eng || negb (ke_initialized e) then mret KV_ERR_INVALID_PARAM else
    if bad_key_len key_len then mret KV_ERR_INVALID_PARAM else
    if bool_decide (ke_workers e = None) then mret KV_ERR_NOT_INITIALIZED else
    made ← on_engine (with_heap (async_context_create ASYNC_OP_STORE k key_len value value_len
                                   callback user_data overwrite));
    submit_context made
  | _, _ => mret KV_ERR_INVALID_PARAM
  end.

Definition kv_engine_retrieve_async (eng : bool) (key : option bytes) (key_len callback user_data : Z)
    : prog ast kv_result_t :=
  e ← on_engine engine;
  match key with
  | Some k =>
    if negb eng || negb (ke_initialized e) then mret KV_ERR_INVALID_PARAM else
    if bad_key_len key_len then mret KV_ERR_INVALID_PARAM else
    if bool_decide (ke_workers e = None) then mret KV_ERR_NOT_INITIALIZED else
    made ← on_engine (with_heap (async_context_create ASYNC_OP_RETRIEVE k key_len None 0
                                   0 user_data false));
    submit_context (set_retrieve_callback callback <$> made)
  | None => mret KV_ERR_INVALID_PARAM
  end.

Definition kv_engine_delete_async (eng : bool) (key : option bytes) (key_len callback user_data : Z)
    : prog ast kv_result_t :=
  e ← on_engine engine;
  match key with
  | Some k =>
    if negb eng || negb (ke_initialized e) then mret KV_ERR_INVALID_PARAM else
    if bad_key_len key_len then mret KV_ERR_INVALID_PARAM else
    if bool_decide (ke_workers e = None) then mret KV_ERR_NOT_INITIALIZED else
    made ← on_engine (with_heap (async_context_create ASYNC_OP_DELETE k key_len None 0
                                   callback user_data false));
    submit_context made
  | None => mret KV_ERR_INVALID_PARAM
  end.
End async.

(** ** What a context stands for *)

Inductive acall : Type :=
| CStore (k v : bytes) (overwrite : bool)
| CRetrieve (k : bytes)
| CDelete (k : bytes).

Record areq := Areq { rq_call : acall; rq_callback : Z; rq_user_data : Z }.

Definition call_key (c : acall) : bytes :=
  match c with CStore k _ _ | CRetrieve k | CDelete k => k end.

(** [ctx] holds the request [r], its key and value copied into the heap [m]. *)
Definition ctx_is (m : gmap Z block) (ctx : async_context_t) (r : areq) : Prop :=
  let k := call_key (rq_call r) in
  engine_key k /\ ac_key_len ctx = Z.of_nat (length k) /\ ac_user_data ctx = rq_user_data r /\
  m !! ac_key_buffer ctx = Some (Block (Z.of_nat (length k)) k) /\
  match rq_call r with
  | CStore _ v ow =>
    ac_op_type ctx = ASYNC_OP_STORE /\ ac_callback ctx = rq_callback r /\ ac_overwrite ctx = ow /\
    ac_value_len ctx = Z.of_nat (length v) /\
    (v = [] /\ ac_value_buffer ctx = 0 \/
     v <> [] /\ 0 < ac_value_buffer ctx /\
       m !! ac_value_buffer ctx = Some (Block (Z.of_nat (length v)) v))
  | CRetrieve _ =>
    ac_op_type ctx = ASYNC_OP_RETRIEVE /\ ac_retrieve_callback ctx = rq_callback r /\
    ac_value_buffer ctx = 0
  | CDelete _ =>
    ac_op_type ctx = ASYNC_OP_DELETE /\ ac_callback ctx = rq_callback r /\ ac_value_buffer ctx = 0
  end.

Definition ctx_blocks (ctx : async_context_t) : list Z :=
  ac_key_buffer ctx :: (if ac_value_buffer ctx =? 0 then [] else [ac_value_buffer ctx]) ++
  [ac_self ctx].

Definition item_blocks (it : work_item async_context_t) : list Z :=
  wi_self it :: ctx_blocks (wi_arg it).

Lemma ctx_is_frame m m' ctx r :
  ctx_is m ctx r -> (forall a, a ∈ ctx_blocks ctx -> m' !! a = m !! a) -> ctx_is m' ctx r.
Proof.
  unfold ctx_is, ctx_blocks. intros (? & ? & ? & Hk & Hc) Hsame. split_and!; try done.
  - by rewrite Hsame by set_solver.
  - destruct (rq_call r); try done. destruct Hc as (? & ? & ? & ? & Hv). split_and!; try done.
    destruct Hv as [?|(? & Hpos & Hv)]; [by left|right]. split_and!; try done.
    rewrite Hsame; [done|]. replace (ac_value_buffer ctx =? 0) with false by lia. set_solver.
Qed.

Section contexts.
Context {AB : Abi} {AL : Allocator}.

Definition no_value (value : option bytes) : Prop := value = None \/ value = Some [].

(** The block of a copied value, if there is one. *)
Definition copied (m : gmap Z block) (value : option bytes) (b : Z) : Prop :=
  no_value value /\ b = 0 \/
  exists v, value = Some v /\ v <> [] /\ 0 < b /\ m !! b = Some (Block (Z.of_nat (length v)) v).

Lemma wp_copy_arg X a n (v : bytes) (Q : unit -> heap -> Prop) t m :
  n = Z.of_nat (length v) ->
  Q tt (Heap t (<[a := Block n v]> m)) ->
  wp X (src ← read_arg v n; store_bytes a src) Q (Heap t (<[a := Block n []]> m)).
Proof.
  intros -> HQ. apply wp_bind, wp_read_arg_all.
  eapply wp_store_bytes; [apply lookup_insert_eq|simpl; lia|]. simpl.
  by rewrite drop_nil, app_nil_r, insert_insert_eq.
Qed.

Lemma wp_bind_assoc {St A B C} X (m : prog St A) (f : A -> prog St B) (g : B -> prog St C) Q s :
  wp X (x ← (y ← m; f y); g x) Q s -> wp X (y ← m; x ← f y; g x) Q s.
Proof. unfold wp, mbind, prog_bind. by destruct (m s). Qed.

(** Copying the arguments: either the context owns its new blocks, or memory was
    refused and nothing is left allocated. *)
Lemma wp_async_context_create X op k value vlen cb ud ow t m l
    (Q : option async_context_t -> heap -> Prop) :
  owns l m -> (forall v, value = Some v -> vlen = Z.of_nat (length v)) ->
  (forall t', out_of_memory (Heap t m) (Heap t' m) -> Q None (Heap t' m)) ->
  (forall t' m' self kb vb, refusals (Heap t' m') = refusals (Heap t m) ->
     m' !! kb = Some (Block (Z.of_nat (length k)) k) -> copied m' value vb ->
     let ctx := AsyncCtx self op cb 0 ud kb (Z.of_nat (length k)) vb vlen ow in
     reown m l m' (ctx_blocks ctx ++ l) ->
     Q (Some ctx) (Heap t' m')) ->
  wp X (async_context_create op k (Z.of_nat (length k)) value vlen cb ud ow) Q (Heap t m).
Proof.
  intros Ho Hv Hnone Hsome. unfold async_context_create.
  assert (Hoom : forall t1, refusals (Heap t1 m) = refusals (Heap t m) ->
    out_of_memory (Heap t m) (Heap (false :: t1) m)).
  { unfold out_of_memory, refusals. simpl. intros. lia. }
  apply wp_bind, wp_malloc; [auto with words|by apply wp_ret, Hnone, Hoom|].
  intros self Hself. rewrite (fresh_block_eqb _ _ _ _ Hself).
  pose proof (reown_alloc m l _ _ self (Block (sizeof T_async_context) []) Ho Hself) as R1.
  apply wp_bind, wp_malloc; [lia| |].
  { apply wp_bind. eapply wp_free_fresh; [exact Hself|]. by apply wp_ret, Hnone, Hoom. }
  intros kb Hkb. rewrite (fresh_block_eqb _ _ _ _ Hkb).
  pose proof (reown_alloc _ _ _ _ kb (Block (Z.of_nat (length k)) k) (proj1 R1) Hkb) as R2.
  apply wp_bind_assoc, wp_bind, wp_copy_arg; [done|]. cbv zeta.
  set (m2 := <[kb := _]> (<[self := _]> m)) in *.
  assert (Hk2 : m2 !! kb = Some (Block (Z.of_nat (length k)) k)) by apply lookup_insert_eq.
  assert (Hdone : no_value value -> Q (Some (AsyncCtx self op cb 0 ud kb (Z.of_nat (length k)) 0 vlen ow))
    (Heap (true :: true :: t) m2)).
  { intros Hnv. apply Hsome; [done|done|by left|]. by eapply reown_trans. }
  destruct value as [v|]; [|by apply wp_ret, Hdone; left].
  rewrite (Hv v eq_refl) in *. destruct v as [|x v']; [by apply wp_ret, Hdone; right|].
  set (v := x :: v') in *. replace (0 <? Z.of_nat (length v)) with true by (simpl; bool_lia).
  apply wp_bind, wp_malloc; [lia| |].
  { apply wp_bind. eapply wp_free_fresh; [exact Hkb|]. apply wp_bind.
    eapply wp_free_fresh; [exact Hself|]. by apply wp_ret, Hnone, Hoom. }
  intros vb Hvb. rewrite (fresh_block_eqb _ _ _ _ Hvb).
  pose proof (reown_alloc _ _ _ _ vb (Block (Z.of_nat (length v)) v) (proj1 R2) Hvb) as R3.
  apply wp_bind_assoc, wp_bind, wp_copy_arg; [done|]. apply wp_ret.
  assert (vb <> kb) by (intros ->; apply fresh_block_none in Hvb; congruence).
  apply Hsome; [done|by rewrite lookup_insert_ne| |].
  - right. exists v. split_and!; [done|done|apply Hvb|apply lookup_insert_eq].
  - unfold ctx_blocks. simpl. rewrite (fresh_block_eqb _ _ _ _ Hvb). simpl.
    rewrite (Permutation_swap vb kb). eapply reown_trans; [exact R1|]. by eapply reown_trans.
Qed.

Lemma wp_async_context_free X ctx t m l (Q : unit -> heap -> Prop) :
  owns (ctx_blocks ctx ++ l) m ->
  (forall m', reown m (ctx_blocks ctx ++ l) m' l -> Q tt (Heap t m')) ->
  wp X (async_context_free ctx) Q (Heap t m).
Proof.
  unfold ctx_blocks, async_context_free. simpl. intros Ho HQ.
  pose proof (reown_free _ _ _ Ho) as R1. apply owns_cons in Ho as (Hk & Hks & _ & _).
  apply wp_bind, wp_free_in; [done..|]. destruct (ac_value_buffer ctx =? 0) eqn:E; simpl in *.
  - apply Z.eqb_eq in E. rewrite E. apply wp_bind, wp_free_null.
    pose proof (reown_free _ _ _ (proj1 R1)) as R2. pose proof (proj1 R1) as Ho1.
    apply owns_cons in Ho1 as (? & ? & _). apply wp_free_in; [done..|]. apply HQ. by eapply reown_trans.
  - pose proof (reown_free _ _ _ (proj1 R1)) as R2. pose proof (proj1 R1) as Ho1.
    apply owns_cons in Ho1 as (? & ? & _). apply wp_bind, wp_free_in; [done..|].
    pose proof (reown_free _ _ _ (proj1 R2)) as R3. pose proof (proj1 R2) as Ho2.
    apply owns_cons in Ho2 as (? & ? & _). apply wp_free_in; [done..|]. apply HQ.
    eapply reown_trans; [exact R1|]. by eapply reown_trans.
Qed.
End contexts.

(** ** Specification: the calls take effect in the order they were accepted *)

Definition async_spec (lossy : Prop) (s : spec_state) (r : areq) (c : completion)
    (s' : spec_state) : Prop :=
  cp_callback c = rq_callback r /\ cp_user_data c = rq_user_data r /\
  match rq_call r with
  | CStore k v ow =>
    cp_value c = None /\
    (** a value of length 0 is not copied, and the worker passes NULL on *)
    (if decide (v = []) then cp_result c = KV_ERR_INVALID_PARAM /\ s' = s
     else spec_step lossy s (OStore k v 0 ow) (RCode (cp_result c)) s')
  | CRetrieve k => spec_step lossy s (ORetrieve k false) (RValue (cp_result c) (snd <$> cp_value c)) s'
  | CDelete k => cp_value c = None /\ spec_step lossy s (ODelete k) (RCode (cp_result c)) s'
  end.

Inductive async_spec_run (lossy : Prop) : spec_state -> list areq -> list completion -> spec_state -> Prop :=
| async_nil s : async_spec_run lossy s [] [] s
| async_snoc s rs cs s1 r c s2 :
    async_spec_run lossy s rs cs s1 -> async_spec lossy s1 r c s2 ->
    async_spec_run lossy s (rs ++ [r]) (cs ++ [c]) s2.

(** Completions that reach a callback. *)
Definition has_callback (c : completion) : bool := negb (cp_callback c =? 0).

Lemma async_spec_weaken (P Q : Prop) s r c s' :
  (P -> Q) -> async_spec P s r c s' -> async_spec Q s r c s'.
Proof.
  intros H (? & ? & Hc). split_and!; try done. destruct (rq_call r).
  - destruct Hc as [? Hc]. split; [done|]. case_decide; [done|]. by eapply spec_step_weaken.
  - by eapply spec_step_weaken.
  - destruct Hc as [? Hc]. split; [done|]. by eapply spec_step_weaken.
Qed.

Lemma async_spec_run_weaken (P Q : Prop) s rs cs s' :
  (P -> Q) -> async_spec_run P s rs cs s' -> async_spec_run Q s rs cs s'.
Proof. intros H. induction 1; econstructor; [done|by eapply async_spec_weaken]. Qed.

(** ** The worker *)

Section worker.
Context {AB : Abi} {AL : Allocator} {LIM : AllocLimit AL} `{KS : KvsSpec}.
Implicit Types (st : kvs_state) (e : kv_engine).

Definition aoom (h0 : heap) (a : ast) : Prop := oom h0 (as_est a).

Lemma wp_on_engine {A} X (m : prog est A) (Q : A -> ast -> Prop) s log :
  wp (fun s' => X (Ast s' log)) m (fun x s' => Q x (Ast s' log)) s ->
  wp X (on_engine m) Q (Ast s log).
Proof. intros H. by apply wp_zoom. Qed.

Lemma wp_call_back X c (Q : unit -> ast -> Prop) s log :
  Q tt (Ast s (log ++ List.filter has_callback [c])) -> wp X (call_back c) Q (Ast s log).
Proof.
  unfold call_back, has_callback. simpl. intros HQ.
  destruct (cp_callback c =? 0); simpl in HQ; [|done]. by rewrite app_nil_r in HQ.
Qed.

(** Blocks of other components may change as long as the engine's do not. *)
Lemma inv_frame m m' st e Kt lt bufs stack :
  inv m st e Kt lt bufs stack -> (forall a, a ∈ lt ++ bufs -> m' !! a = m !! a) ->
  inv m' st e Kt lt bufs stack.
Proof.
  intros [Hi Hsl Hhl Hd Ht [Hp [Hns Hb]] Ho] Hsame. split; try done.
  - eapply table_is_frame; [exact Ht|]. intros b Hin Hs. by rewrite Hsame by set_solver.
  - split_and!; [done..|]. intros b Hin. rewrite Hsame by set_solver. by apply Hb.
  - split; [apply Ho|]. intros a Ha. rewrite Hsame by done. by apply Ho.
Qed.

(** The buffers handed to callbacks that do not belong to the pool. *)
Definition handed (bufs : list Z) (c : completion) : list Z :=
  match cp_value c with
  | Some (b, _) => if decide (b ∈ bufs) then [] else [b]
  | None => []
  end.

(** What a worker leaves behind after the request [r], [R] being blocks of others. *)
Definition worker_post (h0 : heap) st e (Kt : keyset) (bufs R : list Z) (m : gmap Z block)
    (mine : list Z) (r : areq) (log : list completion) (a : ast) : Prop :=
  exists tr' m' st' e' Kt' lt' stack' c,
    a = Ast (Est (World (Heap tr' m') st') e') (log ++ List.filter has_callback [c]) /\
    inv m' st' e' Kt' lt' bufs stack' /\ same_engine e e' /\ same_handles st st' /\
    async_spec (out_of_memory h0 (Heap tr' m')) (view st e Kt) r c (view st' e' Kt') /\
    reown m (mine ++ R) m' ((lt' ++ bufs) ++ handed bufs c ++ R) /\
    (forall x, x ∈ R -> m' !! x = m !! x) /\
    (refusals h0 <= refusals (Heap tr' m'))%nat.

(** The common end: the callback, then the context is freed. *)
Lemma wp_async_finish (h0 : heap) ctx r c tr m m1 st e Kt lt0 lt bufs stack R st0 e0 Kt0 log :
  inv m1 st e Kt lt bufs stack -> same_engine e0 e -> same_handles st0 st ->
  async_spec (out_of_memory h0 (Heap tr m1)) (view st0 e0 Kt0) r c (view st e Kt) ->
  owns ((lt0 ++ bufs) ++ ctx_blocks ctx ++ R) m ->
  reown m (lt0 ++ bufs) m1 (handed bufs c ++ lt ++ bufs) ->
  (refusals h0 <= refusals (Heap tr m1))%nat ->
  wp (aoom h0)
    (_ ← call_back c; on_engine (with_heap (async_context_free ctx)))
    (fun _ => worker_post h0 st0 e0 Kt0 bufs R m (lt0 ++ bufs ++ ctx_blocks ctx) r log)
    (Ast (Est (World (Heap tr m1) st) e) log).
Proof.
  intros Hinv Hs Hh Hspec Ho Hre Hr. apply wp_bind, wp_call_back, wp_on_engine, wp_with_heap.
  destruct (reown_frame _ _ _ _ _ Ho Hre) as [Hre1 Hsame1].
  assert (Hp : (handed bufs c ++ lt ++ bufs) ++ ctx_blocks ctx ++ R ≡ₚ
    (ctx_blocks ctx ++ []) ++ (lt ++ bufs) ++ handed bufs c ++ R).
  { rewrite app_nil_r. solve_Permutation. }
  assert (Ho1 : owns ((ctx_blocks ctx ++ []) ++ (lt ++ bufs) ++ handed bufs c ++ R) m1).
  { rewrite <- Hp. apply Hre1. }
  eapply (wp_async_context_free _ _ _ _ []).
  { by eapply owns_app_l. }
  intros m2 Hfree. destruct (reown_frame _ _ _ _ _ Ho1 Hfree) as [Hre2 Hsame2].
  exists tr, m2, st, e, Kt, lt, stack, c. split_and!; try done.
  - eapply inv_frame; [exact Hinv|]. intros x Hx. apply Hsame2. set_solver.
  - rewrite <- Hp in Hre2. simpl in Hre2.
    assert (Hp2 : (lt0 ++ bufs ++ ctx_blocks ctx) ++ R ≡ₚ (lt0 ++ bufs) ++ ctx_blocks ctx ++ R)
      by solve_Permutation.
    rewrite Hp2. by eapply reown_trans.
  - intros x Hx. rewrite Hsame2, Hsame1 by set_solver. done.
Qed.
Lemma oom_mono h0 tr m s :
  (refusals h0 <= refusals (Heap tr m))%nat -> oom (Heap tr m) s -> oom h0 s.
Proof. unfold oom, out_of_memory. lia. Qed.

(** The retrieved buffer is one of the pool's, or a block that was not there before. *)
Lemma retrieved_handed m st e Kt lt bufs stack stack' lt' m' b v cb res ud :
  inv m st e Kt lt bufs stack ->
  (stack = stack' ++ [b] /\ reown m (lt ++ bufs) m' (lt' ++ bufs) \/
   stack' = stack /\ m !! b = None /\ reown m (lt ++ bufs) m' (b :: lt' ++ bufs)) ->
  reown m (lt ++ bufs) m' (handed bufs (Completion cb res (Some (b, v)) ud) ++ lt' ++ bufs).
Proof.
  intros Hinv [[-> Hre] | (-> & Hn & Hre)]; unfold handed; simpl.
  - rewrite decide_True; [done|]. eapply stack_in_bufs; [exact Hinv|set_solver].
  - rewrite decide_False; [done|]. intros Hb. destruct (inv_owns _ _ _ _ _ _ _ Hinv) as [_ Ho].
    destruct (Ho b) as [_ [? ?]]; [set_solver|]. congruence.
Qed.

Lemma wp_load_all X a (k : bytes) n (Q : bytes -> heap -> Prop) h :
  h_blocks h !! a = Some (Block n k) -> Q k h -> wp X (load_bytes a (Z.of_nat (length k))) Q h.
Proof.
  intros Ha HQ. eapply wp_load_bytes; [exact Ha|simpl; lia|]. simpl. by rewrite Nat2Z.id, firstn_all.
Qed.

Section one_request.
Context (h0 : heap) (ctx : async_context_t) (r : areq) (tr : list bool) (m : gmap Z block).
Context (st : kvs_state) (e : kv_engine) (Kt : keyset) (lt bufs stack R : list Z).
Context (log : list completion).
Hypothesis Hinv : inv m st e Kt lt bufs stack.
Hypothesis Hctx : ctx_is m ctx r.
Hypothesis Howns : owns ((lt ++ bufs) ++ ctx_blocks ctx ++ R) m.
Hypothesis Href : (refusals h0 <= refusals (Heap tr m))%nat.

Let goal_of (m' : prog ast unit) : Prop :=
  wp (aoom h0) m' (fun _ => worker_post h0 st e Kt bufs R m (lt ++ bufs ++ ctx_blocks ctx) r log)
    (Ast (Est (World (Heap tr m) st) e) log).

Lemma wp_async_store k v ow :
  rq_call r = CStore k v ow ->
  goal_of (value ← on_engine (with_heap (context_value ctx));
    result ← on_engine (kv_engine_store true (Some k) (ac_key_len ctx) value (ac_value_len ctx)
                          (ac_overwrite ctx));
    _ ← call_back (Completion (ac_callback ctx) result None (ac_user_data ctx));
    on_engine (with_heap (async_context_free ctx))).
Proof.
  intros Hc. destruct Hctx as (Hk & Hkl & Hud & _ & Hrest). rewrite Hc in Hk, Hkl, Hrest. simpl in Hk, Hkl.
  destruct Hrest as (_ & Hcb & How & Hvl & Hv).
  unfold goal_of. apply wp_bind, wp_on_engine, wp_with_heap. unfold context_value.
  destruct Hv as [[-> ->] | (Hne & Hpos & Hblk)].
  - apply wp_ret, wp_bind, wp_on_engine. eapply wp_of_done; [reflexivity|].
    eapply wp_async_finish; try done.
    + split_and!; try done. rewrite Hc. done.
    + simpl. apply reown_refl, Hinv.
  - replace (ac_value_buffer ctx =? 0) with false by lia. rewrite Hvl. apply wp_bind.
    eapply wp_load_all; [exact Hblk|]. apply wp_ret, wp_bind, wp_on_engine. rewrite Hkl.
    eapply wp_mono; [eapply wp_exit_mono; [by apply wp_kv_engine_store|]|].
    { intros s'. unfold aoom. simpl. by apply oom_mono. }
    intros res s (tr' & m' & st' & e' & Kt' & lt' & -> & Hinv' & Hkept & Hh & Heff & HK & Hr').
    eapply wp_async_finish; try done; [apply Hkept| |apply Hkept|lia].
    split_and!; try done. rewrite Hc. simpl. rewrite decide_False by done. split; [done|].
    rewrite (proj2 (bad_key_false k) Hk), <- How. split; [done|].
    destruct HK as [?|[? [Ho|Ho]]]; [by left|right..]; (split; [done|]); [left|by right].
    unfold out_of_memory in *. lia.
Qed.

Lemma wp_async_retrieve k :
  rq_call r = CRetrieve k ->
  goal_of (x ← on_engine (kv_engine_retrieve true (Some k) (ac_key_len ctx) true false);
    let '(result, out) := (x : kv_result_t * option (Z * Z)) in
    value ← on_engine (with_heap (seen_value out));
    _ ← call_back (Completion (ac_retrieve_callback ctx) result value (ac_user_data ctx));
    on_engine (with_heap (async_context_free ctx))).
Proof.
  intros Hc. destruct Hctx as (Hk & Hkl & Hud & _ & Hrest). rewrite Hc in Hk, Hkl, Hrest. simpl in Hk, Hkl.
  destruct Hrest as (_ & Hcb & _).
  unfold goal_of. rewrite Hkl. apply wp_bind, wp_on_engine.
  eapply wp_mono; [by apply wp_kv_engine_retrieve|].
  intros [res out] s (tr' & m' & st' & e' & Kt' & lt' & stack' & -> & Hinv' & Hs & Hh & Heff & Hr' & Hout).
  simpl in Heff, Hout. apply wp_bind, wp_on_engine, wp_with_heap. destruct out as [[b len]|]; simpl seen_value.
  - destruct Hout as (-> & -> & (v & blk & Hv & -> & Hb & Hdata) & Hcase).
    apply wp_bind. eapply wp_load_bytes; [exact Hb| |].
    { assert (length v = length (take (length v) (blk_data blk))) as E by (by rewrite Hdata).
      rewrite length_take in E. lia. }
    rewrite Nat2Z.id, Hdata. apply wp_ret.
    eapply wp_async_finish; try done; [|by eapply retrieved_handed|lia].
    split_and!; try done. rewrite Hc. simpl. rewrite (proj2 (bad_key_false k) Hk), Hv. done.
  - destruct Hout as (Hne & -> & -> & -> & Hre). apply wp_ret.
    eapply wp_async_finish; try done; [|lia].
    split_and!; try done. rewrite Hc. simpl.
    rewrite (proj2 (bad_key_false k) Hk), !decide_False by tauto. done.
Qed.

Lemma wp_async_delete k :
  rq_call r = CDelete k ->
  goal_of (result ← on_engine (kv_engine_delete true (Some k) (ac_key_len ctx));
    _ ← call_back (Completion (ac_callback ctx) result None (ac_user_data ctx));
    on_engine (with_heap (async_context_free ctx))).
Proof.
  intros Hc. destruct Hctx as (Hk & Hkl & Hud & _ & Hrest). rewrite Hc in Hk, Hkl, Hrest. simpl in Hk, Hkl.
  destruct Hrest as (_ & Hcb & _).
  unfold goal_of. rewrite Hkl. apply wp_bind, wp_on_engine.
  eapply wp_mono; [by apply wp_kv_engine_delete|].
  intros res s (m' & st' & e' & Kt' & lt' & -> & Hinv' & Hkept & Hh & Heff & HK).
  eapply wp_async_finish; try done; [apply Hkept| |apply Hkept].
  split_and!; try done. rewrite Hc. simpl. by rewrite (proj2 (bad_key_false k) Hk).
Qed.

(** A worker serves one request: the operation takes effect as specified, its
    callback is called once, and the context is freed. *)
Lemma wp_async_worker_func : goal_of (async_worker_func ctx).
Proof.
  pose proof Hctx as (Hk & Hkl & _ & Hkey & Hrest). unfold goal_of, async_worker_func.
  apply wp_bind, wp_on_engine, wp_with_heap. rewrite Hkl. eapply wp_load_all; [exact Hkey|]. rewrite <- Hkl.
  destruct (rq_call r) as [k v ow|k|k] eqn:Hc; simpl in *; destruct Hrest as (-> & _).
  - by eapply wp_async_store.
  - by eapply wp_async_retrieve.
  - by eapply wp_async_delete.
Qed.
End one_request.

End worker.

(** ** Schedules *)

Section schedule.
Context {AB : Abi} {AL : Allocator} `{K : KvsOps}.

Definition run_acall (r : areq) : prog ast kv_result_t :=
  match rq_call r with
  | CStore k v ow =>
    kv_engine_store_async true (Some k) (Z.of_nat (length k)) (Some v) (Z.of_nat (length v))
      (rq_callback r) (rq_user_data r) ow
  | CRetrieve k =>
    kv_engine_retrieve_async true (Some k) (Z.of_nat (length k)) (rq_callback r) (rq_user_data r)
  | CDelete k =>
    kv_engine_delete_async true (Some k) (Z.of_nat (length k)) (rq_callback r) (rq_user_data r)
  end.

(** The client calls, or a worker gets to run. *)
Inductive aevent : Type := ECall (r : areq) | ETurn.

(** The calls made, with the codes they returned. *)
Fixpoint run_aevents (evs : list aevent) : prog ast (list (areq * kv_result_t)) :=
  match evs with
  | [] => mret []
  | ECall r :: evs' => c ← run_acall r; rs ← run_aevents evs'; mret ((r, c) :: rs)
  | ETurn :: evs' => _ ← worker_turn; run_aevents evs'
  end.

(** The workers run until they have nothing left to do. *)
Fixpoint drain (n : nat) : prog ast unit :=
  match n with
  | O => mret tt
  | S n' => _ ← worker_turn; drain n'
  end.
End schedule.

Definition is_success (r : kv_result_t) : bool := bool_decide (r = KV_SUCCESS).
Definition accepted (rs : list (areq * kv_result_t)) : list areq :=
  (List.filter (fun x => is_success x.2) rs).*1.

(** The parts of an engine that stay while it runs. *)
Definition engine_parts : Type :=
  list (Z * Z * Z) * Z * Z * Z * Z * option memory_pool_t * option health_probe_t *
  option (Z * Z * Z * Z) * option (Z * Z).

Definition engine_ids (e : kv_engine) : engine_parts :=
  (ctx_ids <$> ke_devices e, ke_num_devices e, ke_self e, ke_config_path e, ke_config_emul e,
   ke_mem_pool e, ke_health_probe e, pool_ids <$> ke_buffer_pool e,
   (fun p => (tp_self p, tp_threads_ptr p)) <$> ke_workers e).

Lemma same_engine_ids e e' : same_engine e e' -> engine_ids e' = engine_ids e.
Proof.
  intros (E1 & E2 & E3 & E4 & E5 & E6 & E7 & E8 & E9). unfold engine_ids. by rewrite E1, E2, E3, E4, E5, E6, E7, E8, E9.
Qed.

Lemma set_workers_ids e p p' :
  ke_workers e = Some p -> tp_self p' = tp_self p -> tp_threads_ptr p' = tp_threads_ptr p ->
  engine_ids (set_workers p' e) = engine_ids e.
Proof. intros Hw E1 E2. unfold engine_ids. simpl. by rewrite Hw, E1, E2. Qed.

Section invariant.
Context {AB : Abi} {AL : Allocator} {LIM : AllocLimit AL} `{KS : KvsSpec}.
(** The queue's capacity, the pool's [shutdown]; what the engine is made of, and a
    state of the device library with the same open handles. *)
Context (cap : Z) (sd : bool) (ids : engine_parts) (sth : kvs_state).
Implicit Types (st : kvs_state) (e : kv_engine).

Definition queue_blocks (p : thread_pool_t async_context_t) : list Z := tp_queue p ≫= item_blocks.

(** A running engine with its pool: the queue holds the pending requests. *)
Record asys (m : gmap Z block) st e (Kt : keyset) (lt bufs stack given : list Z)
    (p : thread_pool_t async_context_t) (pending : list areq) : Prop := Asys {
  ay_inv : inv m st e Kt lt bufs stack;
  ay_ids : engine_ids e = ids;
  ay_handles : same_handles sth st;
  ay_workers : ke_workers e = Some p;
  ay_running : tp_shutdown p = sd;
  ay_size : tp_queue_size p = Z.of_nat (length (tp_queue p));
  ay_cap : tp_queue_capacity p = cap /\ 0 < cap < 2 ^ 32 /\ tp_queue_size p <= cap;
  ay_queue : Forall2 (fun it r => ctx_is m (wi_arg it) r) (tp_queue p) pending;
  ay_owns : owns ((lt ++ bufs) ++ given ++ queue_blocks p) m
}.

(** The state after accepting [acc] from the specification state [s0] and the
    heap [h0], with [n] requests pending; [held] are blocks the submitter holds,
    with the contents they have in [mh]. *)
Definition arun (h0 : heap) (s0 : spec_state) (l0 : list Z) (bufs : list Z) (log0 : list completion)
    (held : list Z) (mh : gmap Z block) (acc : list areq) (n : nat) (a : ast) : Prop :=
  exists tr m st e Kt lt stack p served pending cs,
    a = Ast (Est (World (Heap tr m) st) e) (log0 ++ List.filter has_callback cs) /\
    asys m st e Kt lt bufs stack ((cs ≫= handed bufs) ++ held) p pending /\
    (forall x, x ∈ held -> m !! x = mh !! x) /\ acc = served ++ pending /\ n = length pending /\
    async_spec_run (out_of_memory h0 (Heap tr m)) s0 served cs (view st e Kt) /\
    reown (h_blocks h0) l0 m ((lt ++ bufs) ++ ((cs ≫= handed bufs) ++ held) ++ queue_blocks p) /\
    (refusals h0 <= refusals (Heap tr m))%nat.

Lemma view_set_workers st e Kt p : view st (set_workers p e) Kt = view st e Kt.
Proof. done. Qed.

Lemma inv_set_workers m st e Kt lt bufs stack p :
  inv m st e Kt lt bufs stack -> inv m st (set_workers p e) Kt lt bufs stack.
Proof. intros [? ? ? ? ? ? ?]. by split. Qed.

Lemma asys_take m st e Kt lt bufs stack given p r pending :
  asys m st e Kt lt bufs stack given p (r :: pending) ->
  exists item q, worker_critical p = (ATake item, set_queue q (u32 (tp_queue_size p - 1)) p) /\
    tp_queue p = item :: q /\ ctx_is m (wi_arg item) r /\
    Forall2 (fun it r => ctx_is m (wi_arg it) r) q pending.
Proof.
  intros [_ _ _ _ Hsh Hz _ Hq _]. revert Hsh.
  inversion Hq as [|item r' q pending' Hc Hq' E1 E2]; subst. intros Hsh.
  exists item, q. split_and!; try done. unfold worker_critical. rewrite <- E1 in Hz. simpl in Hz.
  rewrite Hsh, <- E1. replace (tp_queue_size p =? 0) with false by lia. by destruct sd.
Qed.

Lemma asys_idle m st e Kt lt bufs stack given p :
  asys m st e Kt lt bufs stack given p [] ->
  worker_critical p = (if sd then AExit else AWait, p).
Proof.
  intros [_ _ _ _ Hsh Hz _ Hq _]. inversion Hq as [E|]. rewrite <- E in Hz. simpl in Hz.
  unfold worker_critical. rewrite Hz, Hsh. by destruct sd.
Qed.

(** Contexts survive changes elsewhere in the heap. *)
Lemma queue_frame m m' (q : list (work_item async_context_t)) pending :
  Forall2 (fun it r => ctx_is m (wi_arg it) r) q pending ->
  (forall x, x ∈ q ≫= item_blocks -> m' !! x = m !! x) ->
  Forall2 (fun it r => ctx_is m' (wi_arg it) r) q pending.
Proof.
  intros Hq Hsame. induction Hq as [|it r q pending Hc Hq IH]; [constructor|].
  csimpl in Hsame. constructor.
  - eapply ctx_is_frame; [done|]. intros x Hx. apply Hsame. unfold item_blocks. set_solver.
  - apply IH. intros x Hx. apply Hsame. set_solver.
Qed.

(** The end of a turn: the item itself is freed. *)
Lemma reown_free_one m1 w l :
  owns (w :: l) m1 -> reown m1 (w :: l) (delete w m1) l /\ (forall x, x ∈ l -> delete w m1 !! x = m1 !! x).
Proof.
  intros Ho. split; [by apply reown_free|]. intros x Hx. apply owns_cons in Ho as (_ & _ & Hn & _).
  by rewrite lookup_delete_ne by (intros ->; done).
Qed.

Lemma wp_engine_get X s log (Q : kv_engine -> ast -> Prop) :
  Q (es_e s) (Ast s log) -> wp X (on_engine engine) Q (Ast s log).
Proof. done. Qed.

Lemma wp_set_workers X p h st e log (Q : unit -> ast -> Prop) :
  Q tt (Ast (Est (World h st) (set_workers p e)) log) ->
  wp X (on_engine (set_engine (set_workers p))) Q (Ast (Est (World h st) e) log).
Proof. done. Qed.

Lemma log_app (l0 : list completion) cs c :
  (l0 ++ List.filter has_callback cs) ++ List.filter has_callback [c] =
  l0 ++ List.filter has_callback (cs ++ [c]).
Proof. by rewrite <- app_assoc, <- List.filter_app. Qed.

Lemma handed_snoc bufs cs c :
  (cs ++ [c]) ≫= handed bufs ≡ₚ handed bufs c ++ (cs ≫= handed bufs).
Proof. rewrite bind_app. csimpl. rewrite app_nil_r. apply Permutation_app_comm. Qed.

(** A worker turn serves the oldest pending request. *)
Lemma arun_turn h0 s0 l0 bufs log0 held mh acc n a :
  arun h0 s0 l0 bufs log0 held mh acc n a ->
  wp (aoom h0) worker_turn (fun _ => arun h0 s0 l0 bufs log0 held mh acc (Nat.pred n)) a.
Proof.
  intros (tr & m & st & e & Kt & lt & stack & p & served & pending & cs & -> & HA & Hh & -> & -> & Hrun & Hre & Hr).
  unfold worker_turn. apply wp_bind, wp_engine_get. cbn [es_e]. rewrite (ay_workers _ _ _ _ _ _ _ _ _ _ HA).
  destruct pending as [|r pending].
  { rewrite (asys_idle _ _ _ _ _ _ _ _ _ HA). destruct sd; apply wp_ret;
      by exists tr, m, st, e, Kt, lt, stack, p, served, [], cs. }
  destruct (asys_take _ _ _ _ _ _ _ _ _ _ _ HA) as (item & q & Hcrit & Hq & Hctx & Hq').
  rewrite Hcrit. apply wp_bind, wp_set_workers, wp_bind.
  set (p' := set_queue q _ p) in *. set (given := cs ≫= handed bufs) in *.
  set (R := wi_self item :: given ++ held ++ queue_blocks p').
  assert (Hp : (lt ++ bufs) ++ (given ++ held) ++ queue_blocks p ≡ₚ (lt ++ bufs ++ ctx_blocks (wi_arg item)) ++ R).
  { unfold R, queue_blocks. rewrite Hq. csimpl. unfold item_blocks at 1. solve_Permutation. }
  destruct HA as [Hinv Hids Hhd Hw Hsh Hz Hcap _ Ho].
  eapply wp_mono; [eapply wp_exit_mono;
    [eapply (wp_async_worker_func (Heap tr m) _ r _ _ _ _ Kt lt bufs stack R); try done
    |intros ?; by apply oom_mono]|].
  { by apply inv_set_workers. }
  { rewrite Hp in Ho. eapply owns_perm; [|done|exact Ho]. solve_Permutation. }
  intros _ a (tr1 & m1 & st1 & e1 & Kt1 & lt1 & stack1 & c & -> & Hinv1 & Hs1 & Hh1 & Hspec & Hre1 & Hsame1 & Hr1).
  rewrite view_set_workers in Hspec. pose proof (proj1 Hre1) as Ho1.
  assert (Hp1 : (lt1 ++ bufs) ++ handed bufs c ++ R ≡ₚ
    wi_self item :: (lt1 ++ bufs) ++ (((cs ++ [c]) ≫= handed bufs) ++ held) ++ queue_blocks p')
    by (rewrite handed_snoc; unfold R; solve_Permutation).
  rewrite Hp1 in Ho1. destruct (reown_free_one _ _ _ Ho1) as [Hre2 Hsame2].
  apply wp_on_engine, wp_with_heap. apply owns_cons in Ho1 as (Hpos & Hlive & _).
  apply wp_free_in; [done..|].
  assert (Hkeep : forall x, x ∈ held ++ queue_blocks p' -> delete (wi_self item) m1 !! x = m !! x).
  { intros x Hx. rewrite Hsame2, Hsame1; [done|unfold R; set_solver|set_solver]. }
  rewrite log_app. eexists tr1, _, st1, e1, Kt1, lt1, stack1, p', (served ++ [r]), pending, (cs ++ [c]).
  rewrite Hq in Hz. simpl in Hz.
  split_and!; [reflexivity| | |by rewrite <- app_assoc|done| | |unfold refusals in *; simpl in *; lia].
  - split; [| | |by destruct Hs1 as (_ & _ & _ & _ & _ & _ & -> & _)|done| | | |apply Hre2].
    4:{ simpl. rewrite wrap_small; [lia|]. unfold in_word. lia. }
    4:{ simpl. rewrite wrap_small; [lia|]. unfold in_word. lia. }
    + eapply inv_frame; [exact Hinv1|]. intros x Hx. apply Hsame2. set_solver.
    + rewrite (same_engine_ids _ _ Hs1), (set_workers_ids _ p) by done. exact Hids.
    + by eapply same_handles_trans.
    + eapply queue_frame; [exact Hq'|]. intros x Hx. apply Hkeep. unfold queue_blocks. set_solver.
  - intros x Hx. rewrite Hkeep by set_solver. by apply Hh.
  - econstructor; [eapply async_spec_run_weaken; [|exact Hrun]|eapply async_spec_weaken; [|exact Hspec]];
      unfold out_of_memory, refusals in *; simpl in *; lia.
  - eapply reown_trans; [exact Hre|]. rewrite Hp. rewrite Hp1 in Hre1. by eapply reown_trans.
Qed.

(** Blocks allocated on top of the running system become held. *)
Lemma arun_hold h0 s0 l0 bufs log0 held mh acc n tr tr' m m' st e log l :
  arun h0 s0 l0 bufs log0 held mh acc n (Ast (Est (World (Heap tr m) st) e) log) ->
  reown m [] m' l -> (refusals (Heap tr m) <= refusals (Heap tr' m'))%nat ->
  arun h0 s0 l0 bufs log0 (l ++ held) m' acc n (Ast (Est (World (Heap tr' m') st) e) log).
Proof.
  intros (? & ? & ? & ? & Kt & lt & stack & p & served & pending & cs & [= <- <- <- <- ->] & HA & Hh & -> & -> & Hrun & Hre & Hr) Hl Hr'.
  destruct HA as [Hinv Hids Hhd Hw Hsh Hz Hcap Hq Ho].
  destruct (reown_frame m [] m' l _ Ho Hl) as [Hre1 Hsame]. simpl in Hre1.
  assert (Hp : l ++ (lt ++ bufs) ++ ((cs ≫= handed bufs) ++ held) ++ queue_blocks p ≡ₚ
    (lt ++ bufs) ++ ((cs ≫= handed bufs) ++ l ++ held) ++ queue_blocks p) by solve_Permutation.
  rewrite Hp in Hre1.
  exists tr', m', st, e, Kt, lt, stack, p, served, pending, cs. split_and!; try done.
  - split; try done; [| |apply Hre1].
    + eapply inv_frame; [exact Hinv|]. intros x Hx. apply Hsame. set_solver.
    + eapply queue_frame; [exact Hq|]. intros x Hx. apply Hsame. unfold queue_blocks. set_solver.
  - eapply async_spec_run_weaken; [|exact Hrun]. unfold out_of_memory, refusals in *; simpl in *; lia.
  - by eapply reown_trans.
  - lia.
Qed.

(** Held blocks that are freed. *)
Lemma arun_release h0 s0 l0 bufs log0 held mh acc n tr m m' st e log l :
  arun h0 s0 l0 bufs log0 (l ++ held) mh acc n (Ast (Est (World (Heap tr m) st) e) log) ->
  reown m l m' [] ->
  arun h0 s0 l0 bufs log0 held mh acc n (Ast (Est (World (Heap tr m') st) e) log).
Proof.
  intros (? & ? & ? & ? & Kt & lt & stack & p & served & pending & cs & [= <- <- <- <- ->] & HA & Hh & -> & -> & Hrun & Hre & Hr) Hl.
  destruct HA as [Hinv Hids Hhd Hw Hsh Hz Hcap Hq Ho].
  assert (Hp : (lt ++ bufs) ++ ((cs ≫= handed bufs) ++ l ++ held) ++ queue_blocks p ≡ₚ
    l ++ (lt ++ bufs) ++ ((cs ≫= handed bufs) ++ held) ++ queue_blocks p) by solve_Permutation.
  rewrite Hp in Ho. rewrite Hp in Hre.
  destruct (reown_frame _ _ _ _ _ Ho Hl) as [Hre1 Hsame]. simpl in Hre1.
  exists tr, m', st, e, Kt, lt, stack, p, served, pending, cs. split_and!; try done.
  - split; try done; [| |apply Hre1].
    + eapply inv_frame; [exact Hinv|]. intros x Hx. apply Hsame. set_solver.
    + eapply queue_frame; [exact Hq|]. intros x Hx. apply Hsame. unfold queue_blocks. set_solver.
  - intros x Hx. rewrite Hsame by set_solver. apply Hh. set_solver.
  - by eapply reown_trans.
Qed.

(** An item the submitter holds goes to the end of the queue. *)
Lemma arun_enqueue h0 s0 l0 bufs log0 mh acc n h st e log item r p :
  arun h0 s0 l0 bufs log0 (item_blocks item) mh acc n (Ast (Est (World h st) e) log) ->
  ctx_is mh (wi_arg item) r -> ke_workers e = Some p -> tp_queue_size p < cap ->
  arun h0 s0 l0 bufs log0 [] ∅ (acc ++ [r]) (S n)
    (Ast (Est (World h st)
       (set_workers (set_queue (tp_queue p ++ [item]) (u32 (tp_queue_size p + 1)) p) e)) log).
Proof.
  intros (tr & m & ? & ? & Kt & lt & stack & p0 & served & pending & cs & [= -> <- <- ->] & HA & Hh & -> & -> & Hrun & Hre & Hr) Hctx Hwp Hlt.
  destruct HA as [Hinv Hids Hhd Hw Hsh Hz Hcap Hq Ho]. assert (p0 = p) as -> by congruence.
  set (p' := set_queue _ _ p).
  assert (Hp : (lt ++ bufs) ++ ((cs ≫= handed bufs) ++ item_blocks item) ++ queue_blocks p ≡ₚ
    (lt ++ bufs) ++ ((cs ≫= handed bufs) ++ []) ++ queue_blocks p').
  { unfold queue_blocks. simpl. rewrite bind_app. csimpl. rewrite !app_nil_r. solve_Permutation. }
  rewrite Hp in Ho, Hre.
  exists tr, m, st, (set_workers p' e), Kt, lt, stack, p', served, (pending ++ [r]), cs.
  split_and!; [done| |set_solver|by rewrite app_assoc|rewrite length_app; simpl; lia|done|done|done].
  split; try done; simpl.
  - by apply inv_set_workers.
  - by rewrite (set_workers_ids _ p).
  - rewrite wrap_small, length_app; [simpl; lia|unfold in_word; lia].
  - rewrite wrap_small; [lia|unfold in_word; lia].
  - apply Forall2_app; [done|]. constructor; [|constructor]. eapply ctx_is_frame; [exact Hctx|].
    intros x Hx. apply Hh. unfold item_blocks. set_solver.
Qed.

Lemma arun_pool h0 s0 l0 bufs log0 held mh acc n h st e log :
  arun h0 s0 l0 bufs log0 held mh acc n (Ast (Est (World h st) e) log) ->
  exists p, ke_workers e = Some p /\ tp_shutdown p = sd /\ tp_queue_size p = Z.of_nat n /\
    tp_queue_capacity p = cap /\ 0 < cap /\ tp_queue_size p <= cap.
Proof.
  intros (tr & m & ? & ? & Kt & lt & stack & p & served & pending & cs & [= -> <- <- ->] & HA & _ & _ & -> & _).
  exists p. destruct HA as [_ _ _ ? ? Hz ? Hq _]. apply Forall2_length in Hq. split_and!; try done; lia.
Qed.

(** What a submission comes to: accepted, or refused for lack of memory with the
    context still the caller's. *)
Definition submitted (h0 : heap) s0 l0 bufs log0 (held : list Z) mh acc r n (z : Z) (a : ast) : Prop :=
  (z = 0 /\ exists n', (n' <= S n)%nat /\ arun h0 s0 l0 bufs log0 [] ∅ (acc ++ [r]) n' a) \/
  (z = -1 /\ aoom h0 a /\ arun h0 s0 l0 bufs log0 held mh acc n a).

Hypothesis Hsd : sd = false.

Lemma wp_thread_pool_submit h0 s0 l0 bufs log0 mh acc n ctx r a :
  arun h0 s0 l0 bufs log0 (ctx_blocks ctx) mh acc n a -> ctx_is mh ctx r ->
  wp (aoom h0) (thread_pool_submit ctx)
    (submitted h0 s0 l0 bufs log0 (ctx_blocks ctx) mh acc r n) a.
Proof.
  intros HA Hctx. destruct a as [[[[tr m] st] e] log]. unfold thread_pool_submit.
  assert (Hr : (refusals h0 <= refusals (Heap tr m))%nat).
  { by destruct HA as (? & ? & ? & ? & ? & ? & ? & ? & ? & ? & ? & [= <- <- _ _ _] & _ & _ & _ & _ & _ & _ & ?). }
  apply wp_bind, wp_on_engine, wp_with_heap, wp_malloc; [auto with words| |].
  { apply wp_ret. right. split_and!; [done| |].
    - unfold aoom, oom, out_of_memory, refusals in *. simpl in *. lia.
    - destruct HA as (? & ? & ? & ? & Kt & lt & stack & p & served & pending & cs & [= <- <- <- <- ->] & HA & Hh & -> & -> & Hrun & Hre & _).
      exists (false :: tr), m, st, e, Kt, lt, stack, p, served, pending, cs. split_and!; try done.
      + eapply async_spec_run_weaken; [|exact Hrun]. unfold out_of_memory, refusals in *; simpl in *; lia.
      + unfold refusals in *; simpl in *; lia. }
  intros self Hself. rewrite (fresh_block_eqb _ _ _ _ Hself). cbv zeta.
  set (item := WorkItem self ctx). set (m1 := <[self := _]> m).
  assert (HA1 : arun h0 s0 l0 bufs log0 (item_blocks item) m1 acc n
    (Ast (Est (World (Heap (true :: tr) m1) st) e) log)).
  { apply (arun_hold _ _ _ _ _ (ctx_blocks ctx) mh acc n tr _ m _ _ _ _ [self] HA).
    - eapply reown_alloc; [apply owns_nil|exact Hself].
    - done. }
  assert (Hctx1 : ctx_is m1 ctx r).
  { destruct HA as (? & ? & ? & ? & Kt & lt & stack & p & served & pending & cs & [= <- <- <- <- ->] & HA & Hh & _).
    eapply ctx_is_frame; [exact Hctx|]. intros x Hx. rewrite <- Hh by done.
    apply lookup_insert_ne. intros <-. destruct (ay_owns _ _ _ _ _ _ _ _ _ _ HA) as [_ Hl].
    destruct (Hl self) as [_ [? ?]]; [set_solver|]. apply fresh_block_none in Hself. congruence. }
  destruct (arun_pool _ _ _ _ _ _ _ _ _ _ _ _ _ HA1) as (p & Hp & Hsh & Hz & Hc & Hpos & Hle).
  apply wp_bind, wp_engine_get. cbn [es_e]. rewrite Hp. unfold submit_critical at 1.
  rewrite Hsh, Hc, Hz, Hsd. case_if Efull; bool_to_prop.
  - apply wp_bind. eapply wp_mono; [by eapply arun_turn|]. cbn beta.
    intros _ [[[h2 st2] e2] log2] HA2.
    destruct (arun_pool _ _ _ _ _ _ _ _ _ _ _ _ _ HA2) as (p2 & Hp2 & Hsh2 & Hz2 & Hc2 & _ & _).
    apply wp_bind, wp_engine_get. cbn [es_e]. rewrite Hp2. unfold submit_critical.
    rewrite Hsh2, Hc2, Hz2, Hsd. replace (cap <=? Z.of_nat (Nat.pred n)) with false by bool_lia.
    apply wp_bind, wp_set_workers, wp_ret. left. split; [done|]. exists (S (Nat.pred n)).
    split; [lia|]. rewrite <- Hz2. eapply arun_enqueue; [exact HA2|exact Hctx1|done|lia].
  - apply wp_bind, wp_set_workers, wp_ret. left. split; [done|]. exists (S n). split; [done|].
    rewrite <- Hz. eapply arun_enqueue; [exact HA1|exact Hctx1|done|lia].
Qed.

(** The codes an asynchronous call can return. *)
Definition answered (h0 : heap) s0 l0 bufs log0 acc r n (code : kv_result_t) (a : ast) : Prop :=
  (code = KV_SUCCESS /\ exists n', (n' <= S n)%nat /\ arun h0 s0 l0 bufs log0 [] ∅ (acc ++ [r]) n' a) \/
  (code <> KV_SUCCESS /\ arun h0 s0 l0 bufs log0 [] ∅ acc n a /\
   (bad_key (call_key (rq_call r)) = true /\ code = KV_ERR_INVALID_PARAM \/
    aoom h0 a /\ (code = KV_ERR_NO_MEMORY \/ code = KV_ERR_IO))).

Lemma arun_nil h0 s0 l0 bufs log0 mh mh' acc n a :
  arun h0 s0 l0 bufs log0 [] mh acc n a -> arun h0 s0 l0 bufs log0 [] mh' acc n a.
Proof.
  intros (tr & m & st & e & Kt & lt & stack & p & served & pending & cs & -> & HA & _ & HR).
  exists tr, m, st, e, Kt, lt, stack, p, served, pending, cs. split_and!; try done; [set_solver|apply HR..].
Qed.

Lemma arun_log h0 s0 l0 bufs log0 held mh acc n tr tr' m st e log :
  arun h0 s0 l0 bufs log0 held mh acc n (Ast (Est (World (Heap tr m) st) e) log) ->
  (refusals (Heap tr m) <= refusals (Heap tr' m))%nat ->
  arun h0 s0 l0 bufs log0 held mh acc n (Ast (Est (World (Heap tr' m) st) e) log).
Proof.
  intros (? & ? & ? & ? & Kt & lt & stack & p & served & pending & cs & [= <- <- <- <- ->] & HA & Hh & -> & -> & Hrun & Hre & Hr) Hr'.
  exists tr', m, st, e, Kt, lt, stack, p, served, pending, cs. split_and!; try done; [|lia].
  eapply async_spec_run_weaken; [|exact Hrun]. unfold out_of_memory. lia.
Qed.

Lemma arun_facts h0 s0 l0 bufs log0 held mh acc n tr m st e log :
  arun h0 s0 l0 bufs log0 held mh acc n (Ast (Est (World (Heap tr m) st) e) log) ->
  (refusals h0 <= refusals (Heap tr m))%nat /\ owns held m /\ ke_initialized e = true.
Proof.
  intros (? & ? & ? & ? & Kt & lt & stack & p & served & pending & cs & [= <- <- <- <- ->] & HA & _ & _ & _ & _ & _ & Hr).
  destruct HA as [Hinv _ _ _ _ _ _ _ Ho]. split_and!; [done| |apply Hinv].
  eapply owns_app_r, owns_app_l, owns_app_r. exact Ho.
Qed.

Lemma wp_submit_context h0 s0 l0 bufs log0 mh acc n ctx r a :
  arun h0 s0 l0 bufs log0 (ctx_blocks ctx) mh acc n a -> ctx_is mh ctx r ->
  wp (aoom h0) (submit_context (Some ctx)) (answered h0 s0 l0 bufs log0 acc r n) a.
Proof.
  intros HA Hctx. simpl. apply wp_bind. eapply wp_mono; [by eapply wp_thread_pool_submit|].
  intros z [[[[tr m] st] e] log] [[-> Hacc]|(-> & Hoom & HA')]; simpl.
  { apply wp_ret. left. by split. }
  apply wp_bind, wp_on_engine, wp_with_heap.
  destruct (arun_facts _ _ _ _ _ _ _ _ _ _ _ _ _ _ HA') as (_ & Ho & _).
  apply (wp_async_context_free _ _ _ _ []); [by rewrite app_nil_r|].
  intros m' Hfree. rewrite app_nil_r in Hfree. apply wp_ret. right. split_and!; [done| |].
  - eapply arun_nil, arun_release; [|exact Hfree]. by rewrite app_nil_r.
  - right. split; [|by right]. done.
Qed.

(** The part the three calls share: make the context, then submit it. *)
Lemma wp_make_and_submit h0 s0 l0 bufs log0 acc n a op k value vlen cb ud ow
    (g : option async_context_t -> option async_context_t) f r :
  arun h0 s0 l0 bufs log0 [] ∅ acc n a ->
  (forall v, value = Some v -> vlen = Z.of_nat (length v)) ->
  g None = None -> (forall ctx, g (Some ctx) = Some (f ctx) /\ ctx_blocks (f ctx) = ctx_blocks ctx) ->
  (forall m' self kb vb, m' !! kb = Some (Block (Z.of_nat (length k)) k) -> copied m' value vb ->
     ctx_is m' (f (AsyncCtx self op cb 0 ud kb (Z.of_nat (length k)) vb vlen ow)) r) ->
  wp (aoom h0)
    (made ← on_engine (with_heap (async_context_create op k (Z.of_nat (length k)) value vlen cb ud ow));
     submit_context (g made)) (answered h0 s0 l0 bufs log0 acc r n) a.
Proof.
  intros HA Hv Hg Hf Hctx. destruct a as [[[[tr m] st] e] log].
  destruct (arun_facts _ _ _ _ _ _ _ _ _ _ _ _ _ _ HA) as (Hr & _).
  apply wp_bind, wp_on_engine, wp_with_heap, (wp_async_context_create _ _ _ _ _ _ _ _ _ _ []);
    [apply owns_nil|done| |].
  - intros t' Ho. rewrite Hg. apply wp_ret. right. split_and!; [done| |].
    + eapply arun_log; [exact HA|]. unfold out_of_memory in Ho. lia.
    + right. split; [|by left]. unfold aoom, oom, out_of_memory in *. simpl in *. lia.
  - intros t' m' self kb vb Hr' Hk Hcp ctx Hre. rewrite app_nil_r in Hre.
    destruct (Hf ctx) as [-> Hb]. eapply wp_submit_context; [|by apply Hctx].
    rewrite Hb, <- (app_nil_r (ctx_blocks ctx)). eapply arun_hold; [exact HA|exact Hre|lia].
Qed.

(** One asynchronous call. *)
Lemma wp_run_acall h0 s0 l0 bufs log0 acc n a r :
  arun h0 s0 l0 bufs log0 [] ∅ acc n a ->
  wp (aoom h0) (run_acall r) (answered h0 s0 l0 bufs log0 acc r n) a.
Proof.
  intros HA. destruct a as [[[[tr m] st] e] log].
  destruct (arun_facts _ _ _ _ _ _ _ _ _ _ _ _ _ _ HA) as (_ & _ & Hi).
  destruct (arun_pool _ _ _ _ _ _ _ _ _ _ _ _ _ HA) as (p & Hp & _).
  assert (Hw : bool_decide (ke_workers e = None) = false) by (by rewrite bool_decide_eq_false, Hp).
  assert (Hbad : bad_key (call_key (rq_call r)) = true ->
    answered h0 s0 l0 bufs log0 acc r n KV_ERR_INVALID_PARAM (Ast (Est (World (Heap tr m) st) e) log)).
  { intros Hb. right. split_and!; [done|done|]. by left. }
  unfold run_acall. destruct (rq_call r) as [k v ow|k|k] eqn:Hc; simpl in Hbad;
    (destruct (bad_key k) eqn:Hb;
      [|apply bad_key_false in Hb as Hk; rewrite ?Hc]);
    unfold kv_engine_store_async, kv_engine_retrieve_async, kv_engine_delete_async;
    apply wp_bind, wp_engine_get; cbn [es_e]; rewrite Hi; cbn [negb orb]; unfold bad_key in Hb; rewrite Hb;
    try (by apply wp_ret, Hbad); rewrite Hw.
  - eapply (wp_make_and_submit _ _ _ _ _ _ _ _ _ k (Some v) _ _ _ _ (fun x => x) (fun x => x)); try done.
    { by intros ? [= ->]. }
    intros m' self kb vb Hkb Hcp. unfold ctx_is. rewrite Hc. split_and!; try done.
    destruct Hcp as [[[?|[= ->]] ->]|(v' & [= ->] & ?)]; [done|by left|by right].
  - eapply (wp_make_and_submit _ _ _ _ _ _ _ _ _ k None _ _ _ _ _ (set_retrieve_callback (rq_callback r))); try done.
    intros m' self kb vb Hkb Hcp. unfold ctx_is. rewrite Hc. split_and!; try done.
    by destruct Hcp as [[_ ->]|(v' & ? & _)].
  - eapply (wp_make_and_submit _ _ _ _ _ _ _ _ _ k None _ _ _ _ (fun x => x) (fun x => x)); try done.
    intros m' self kb vb Hkb Hcp. unfold ctx_is. rewrite Hc. split_and!; try done.
    by destruct Hcp as [[_ ->]|(v' & ? & _)].
Qed.

(** The codes a call of a schedule can have returned. *)
Definition code_ok (x : areq * kv_result_t) : Prop :=
  x.2 = KV_SUCCESS \/ bad_key (call_key (rq_call x.1)) = true /\ x.2 = KV_ERR_INVALID_PARAM \/
  x.2 = KV_ERR_NO_MEMORY \/ x.2 = KV_ERR_IO.

Lemma wp_run_aevents h0 s0 l0 bufs log0 evs acc n a :
  arun h0 s0 l0 bufs log0 [] ∅ acc n a ->
  wp (aoom h0) (run_aevents evs) (fun rs a' =>
    Forall code_ok rs /\ exists n', (n' <= n + length evs)%nat /\
      arun h0 s0 l0 bufs log0 [] ∅ (acc ++ accepted rs) n' a') a.
Proof.
  revert acc n a. induction evs as [|[r|] evs IH]; intros acc n a HA.
  - apply wp_ret. split; [done|]. exists n. unfold accepted. simpl. rewrite app_nil_r. split; [lia|done].
  - simpl run_aevents. apply wp_bind. eapply wp_mono; [by eapply wp_run_acall|].
    intros code a1 [[-> (n1 & Hn1 & HA1)]|(Hne & HA1 & Hcode)]; apply wp_bind;
      (eapply wp_mono; [by eapply IH|]); cbn beta; intros rs a2 (Hok & n2 & Hn2 & HA2); apply wp_ret.
    + split; [constructor; [by left|done]|]. exists n2. simpl. split; [lia|].
      unfold accepted in *. simpl. by rewrite <- app_assoc in HA2.
    + split; [constructor; [|done]|].
      { right. destruct Hcode as [?|[_ ?]]; [by left|by right]. }
      exists n2. simpl. split; [lia|]. unfold accepted in *. simpl. unfold is_success at 1.
      by rewrite bool_decide_eq_false_2.
  - simpl run_aevents. apply wp_bind. eapply wp_mono; [by eapply arun_turn|]. cbn beta. intros _ a1 HA1.
    eapply wp_mono; [by eapply IH|]. cbn beta. intros rs a2 (Hok & n2 & Hn2 & HA2).
    split; [done|]. exists n2. simpl. split; [lia|done].
Qed.

Lemma wp_drain h0 s0 l0 bufs log0 held mh acc n k a :
  (n <= k)%nat -> arun h0 s0 l0 bufs log0 held mh acc n a ->
  wp (aoom h0) (drain k) (fun _ => arun h0 s0 l0 bufs log0 held mh acc 0) a.
Proof.
  revert n a. induction k as [|k IH]; intros n a Hn HA; simpl.
  - assert (n = 0%nat) as -> by lia. by apply wp_ret.
  - apply wp_bind. eapply wp_mono; [by eapply arun_turn|]. cbn beta. intros _ a1 HA1.
    eapply IH; [|exact HA1]. lia.
Qed.

End invariant.

Section completion.
Context {AB : Abi} {AL : Allocator} {LIM : AllocLimit AL} `{KS : KvsSpec}.

(** A running engine whose pool is open and has nothing to do. *)
Definition async_ready (cap : Z) (m : gmap Z block) (st : kvs_state) (e : kv_engine) (Kt : keyset)
    (lt bufs stack : list Z) (p : thread_pool_t async_context_t) : Prop :=
  asys cap false (engine_ids e) st m st e Kt lt bufs stack [] p [].

Lemma arun_start cap tr m st e Kt lt bufs stack p log :
  async_ready cap m st e Kt lt bufs stack p ->
  arun cap false (engine_ids e) st (Heap tr m) (view st e Kt) (lt ++ bufs) bufs log [] ∅ [] 0
    (Ast (Est (World (Heap tr m) st) e) log).
Proof.
  intros HA. assert (Hq : tp_queue p = []) by (destruct HA as [_ _ _ _ _ _ _ Hq _]; by inversion Hq).
  exists tr, m, st, e, Kt, lt, stack, p, [], [], []. simpl. rewrite !app_nil_r.
  split_and!; try done; [set_solver|constructor|].
  unfold queue_blocks. rewrite Hq. simpl. rewrite app_nil_r. apply reown_refl, HA.
Qed.

End completion.

(** ** A concrete engine with a pool of two slots *)

Definition sample_pool : thread_pool_t async_context_t := ThreadPool 16 32 1 false [] 0 2.
Definition async_engine : kv_engine := set_workers sample_pool sample_engine.

Lemma sample_asys :
  @async_ready emu_kvs emu_view 2 ∅ sample_kvs async_engine ∅ [] [] [] sample_pool.
Proof.
  split; try done; simpl; first [apply inv_set_workers, sample_inv | apply owns_nil | constructor].
Qed.

(** Three calls on a queue of two: the third waits for a worker. *)
Definition sample_events : list aevent :=
  [ECall (Areq (CStore sample_key [1; 2; 3] true) 7 70);
   ECall (Areq (CRetrieve sample_key) 8 80);
   ECall (Areq (CDelete sample_key) 9 90); ETurn].

Definition sample_ast : @ast emu_kvs := Ast (sample_state async_engine) [].

Example sample_async_run :
  match (rs ← @run_aevents lp64 big_allocator emu_kvs sample_events;
         _ ← @drain lp64 big_allocator emu_kvs 4; mret rs) sample_ast with
  | Done rs a => (rs.*2, (fun c => (cp_callback c, cp_result c, snd <$> cp_value c)) <$> as_done a)
  | _ => ([], [])
  end =
  ([KV_SUCCESS; KV_SUCCESS; KV_SUCCESS],
   [(7, KV_SUCCESS, None); (8, KV_SUCCESS, Some [1; 2; 3]); (9, KV_SUCCESS, None)]).
Proof. vm_compute. reflexivity. Qed.


(** A store of an empty value differs between the two interfaces: the
    synchronous call (with an aligned pointer) succeeds, the asynchronous call is
    accepted and then calls back with KV_ERR_INVALID_PARAM, because the empty value
    is not copied and the worker passes a null pointer on. *)
Theorem async_empty_store_rejected :
  match @kv_engine_store lp64 big_allocator emu_kvs true (Some sample_key) 4
          (Some (CBuf 4096 [])) 0 true (sample_state sample_engine) with
  | Done r _ => r = KV_SUCCESS
  | _ => False
  end /\
  match (c ← @run_acall lp64 big_allocator emu_kvs (Areq (CStore sample_key [] true) 7 70);
         _ ← @worker_turn lp64 big_allocator emu_kvs; mret c) sample_ast with
  | Done c a => c = KV_SUCCESS /\ as_done a = [Completion 7 KV_ERR_INVALID_PARAM None 70]
  | _ => False
  end.
Proof. vm_compute. repeat split. Qed.
