(* ===== verification/Health.v ===== *)
(** * Device health (src/core/kv_engine_health.c)

    The background probe that re-marks devices healthy, its life cycle, the
    public health queries, and adding a device.  The probe thread is its sweeps
    over the devices, run between the engine's operations. *)
From S2P Require Import Prelude Libc KvTypes MemoryPool DmaPool HashTable KvsApi Emulator.
From S2P Require Import MultiDevice ThreadPool Engine EngineSpec EngineProps.

(** [kv_device_health_t]; the path is the characters before the terminator. *)
Record kv_device_health_t := DevHealth {
  dh_device_index : Z;
  dh_healthy : bool;
  dh_capacity_bytes : Z;
  dh_utilization_pct : Z;
  dh_consecutive_errors : Z;
  dh_total_errors : Z;
  dh_total_ops : Z;
  dh_device_path : bytes
}.

Section health.
Context {AB : Abi} {AL : Allocator} `{K : KvsOps}.

(** ** The probe *)

Definition set_health (healthy : bool) (consecutive : Z) (ctx : kv_device_ctx_t) : kv_device_ctx_t :=
  DevCtx (dc_device ctx) (dc_keyspace ctx) (dc_device_path ctx) healthy consecutive
    (dc_total_errors ctx) (dc_total_ops ctx) (dc_max_consecutive_errors ctx).

(** One iteration of the recovery loop; [counts] is [recovery_counts]. *)
Definition probe_device (threshold : Z) (i : Z) (counts : list Z) : prog est (list Z) :=
  e ← engine;
  match ke_devices e !! Z.to_nat i, counts !! Z.to_nat i with
  | Some dev, Some n =>
    if dc_healthy dev then mret counts else
    r ← call_kvs (kvs_get_device_utilization (dc_device dev));
    if bool_decide (r.1 = KVS_SUCCESS) then
      let n := u32 (n + 1) in
      if threshold <=? n then
        _ ← set_engine (fun e => set_devices
              (<[Z.to_nat i := set_health true 0 dev]> (ke_devices e)) e);
        mret (<[Z.to_nat i := 0]> counts)
      else mret (<[Z.to_nat i := n]> counts)
    else mret (<[Z.to_nat i := 0]> counts)
  | _, _ => undefined
  end.

(** [for (i = 0; i < engine->num_devices; i++)], from [i], [n] to go. *)
Fixpoint probe_loop (threshold : Z) (n : nat) (i : Z) (counts : list Z) : prog est (list Z) :=
  match n with
  | O => mret counts
  | S n' => counts ← probe_device threshold i counts; probe_loop threshold n' (i + 1) counts
  end.

(** One turn of [health_probe_thread] after its timed wait. *)
Definition probe_sweep (threshold : Z) (counts : list Z) : prog est (list Z) :=
  e ← engine;
  probe_loop threshold (Z.to_nat (ke_num_devices e)) 0 counts.

(** [spawned] is the outcome of [pthread_create]. *)
Definition health_probe_create (spawned : bool) : prog heap (option health_probe_t) :=
  probe ← calloc 1 (sizeof T_health_probe);
  if probe =? 0 then mret None else
  if spawned then mret (Some (Probe probe true 5 3))
  else _ ← free probe; mret None.

(** The thread has ended once [pthread_join] returns. *)
Definition health_probe_destroy (probe : option health_probe_t) : prog heap unit :=
  match probe with
  | None => mret tt
  | Some p => free (hp_self p)
  end.

(** ** Queries *)

(** The characters of a C string, up to [n] of them. *)
Fixpoint until_zero (n : nat) (l : bytes) : bytes :=
  match n, l with
  | S n', c :: l' => if c =? 0 then [] else c :: until_zero n' l'
  | _, _ => []
  end.

Definition kv_engine_get_device_health (eng : bool) (device_index : Z) (outs : bool)
    : prog est (kv_result_t * option kv_device_health_t) :=
  e ← engine;
  if negb eng || negb (ke_initialized e) || negb outs then mret (KV_ERR_INVALID_PARAM, None) else
  if ke_num_devices e <=? device_index then mret (KV_ERR_INVALID_PARAM, None) else
  match ke_devices e !! Z.to_nat device_index with
  | None => undefined
  | Some dev =>
    path ← (if dc_device_path dev =? 0 then mret [] else
            s ← get;
            match h_blocks (w_heap (es_w s)) !! dc_device_path dev with
            | Some b => mret (until_zero 255 (blk_data b))
            | None => undefined
            end);
    cap ← call_kvs (kvs_get_device_capacity (dc_device dev));
    util ← call_kvs (kvs_get_device_utilization (dc_device dev));
    mret (KV_SUCCESS, Some (DevHealth device_index (dc_healthy dev)
      (if bool_decide (cap.1 = KVS_SUCCESS) then cap.2 else 0)
      (if bool_decide (util.1 = KVS_SUCCESS) then util.2 else 0)
      (dc_consecutive_errors dev) (dc_total_errors dev) (dc_total_ops dev) path))
  end.

Fixpoint count_healthy (n : nat) (i : nat) (ds : list kv_device_ctx_t) : Z :=
  match n with
  | O => 0
  | S n' =>
    (if match ds !! i with Some d => dc_healthy d | None => false end then 1 else 0)
    + count_healthy n' (S i) ds
  end.

Definition kv_engine_healthy_device_count (eng : bool) (e : kv_engine) : Z :=
  if negb eng || negb (ke_initialized e) then 0
  else count_healthy (Z.to_nat (ke_num_devices e)) 0 (ke_devices e).

(** ** Adding a device *)

Definition kv_engine_add_device (eng : bool) (device_path : option string) : prog est kv_result_t :=
  e ← engine;
  match device_path with
  | None => mret KV_ERR_INVALID_PARAM
  | Some path =>
    if negb eng || negb (ke_initialized e) then mret KV_ERR_INVALID_PARAM else
    let current := ke_num_devices e in
    if KV_MAX_DEVICES <=? current then mret KV_ERR_INVALID_PARAM else
    l ← mutex_lock (ke_stats_lock e);
    let writes := st_write_ops (ke_stats e) in
    l ← mutex_unlock l;
    _ ← set_engine (set_stats (ke_stats e) l);
    if 0 <? writes then mret KV_ERR_INVALID_PARAM else
    r ← zoom es_w (fun w s => Est w (es_e s)) (kv_engine_open_device path current);
    match r with
    | (Some ctx, KV_SUCCESS) =>
      _ ← set_engine (fun e => set_num_devices (current + 1)
            (set_devices (<[Z.to_nat current := ctx]> (ke_devices e)) e));
      mret KV_SUCCESS
    | (_, res) => mret res
    end
  end.
End health.

(** ** Runs of equal outcomes in a history *)

Section runs.
Context {A : Type} (P : A -> bool).

(** [n] consecutive elements of [l] satisfy [P]. *)
Definition has_run (n : nat) (l : list A) : Prop :=
  exists pre mid post, l = pre ++ mid ++ post /\ length mid = n /\ Forall (fun x => P x = true) mid.

(** How many elements at the head of [l] satisfy [P]. *)
Fixpoint lead (l : list A) : nat :=
  match l with
  | [] => 0
  | x :: l' => if P x then S (lead l') else 0
  end.

Lemma lead_ge n l :
  (n <= lead l)%nat <-> exists mid post, l = mid ++ post /\ length mid = n /\
    Forall (fun x => P x = true) mid.
Proof.
  revert n. induction l as [|x l IH]; intros n; simpl.
  - split; [intros; exists [], []; assert (n = 0%nat) as -> by lia; done|].
    intros (mid & post & E & <- & _). destruct mid; [simpl; lia|done].
  - destruct n as [|n]; [split; [intros _; by exists [], (x :: l)|lia]|]. split.
    + destruct (P x) eqn:Ex; [|lia]. intros Hn. assert (n <= lead l)%nat as H by lia.
      apply IH in H as (mid & post & -> & <- & Hall). exists (x :: mid), post.
      split_and!; [done..|by constructor].
    + intros (mid & post & E & Hlen & Hall). destruct mid as [|y mid]; [done|].
      simpl in E, Hlen. simplify_eq. apply Forall_cons in Hall as [-> Hall].
      assert (length mid <= lead (mid ++ post))%nat; [|lia]. apply IH. by exists mid, post.
Qed.

Lemma has_run_cons n x l :
  (0 < n)%nat -> has_run n (x :: l) <-> has_run n l \/ (n <= lead (x :: l))%nat.
Proof.
  intros Hn. rewrite lead_ge. split.
  - intros (pre & mid & post & E & Hl & Hall). destruct pre as [|y pre].
    + right. by exists mid, post.
    + left. simpl in E. simplify_eq. by exists pre, mid, post.
  - intros [(pre & mid & post & -> & Hl & Hall)|(mid & post & E & Hl & Hall)].
    + by exists (x :: pre), mid, post.
    + by exists [], mid, post.
Qed.

Lemma has_run_nil n : (0 < n)%nat -> ~ has_run n [].
Proof.
  intros Hn (pre & mid & post & E & Hl & _).
  symmetry in E. apply app_eq_nil in E as [_ E]. apply app_eq_nil in E as [-> _]. simpl in Hl. lia.
Qed.

Lemma has_run_rev n l : has_run n (reverse l) <-> has_run n l.
Proof.
  assert (forall l, has_run n l -> has_run n (reverse l)) as H.
  { intros l' (pre & mid & post & -> & Hl & Hall).
    exists (reverse post), (reverse mid), (reverse pre).
    rewrite !reverse_app, <- app_assoc, length_reverse. split_and!; [done..|].
    by rewrite Forall_reverse. }
  split; [|apply H]. intros Hr%H. by rewrite reverse_involutive in Hr.
Qed.
End runs.

(** ** When a device is marked unhealthy *)

(** The device is gone: one such answer is enough. *)
Definition unplugged (r : kvs_result) : bool :=
  match r with KVS_ERR_DEV_NOT_EXIST | KVS_ERR_DEV_NOT_OPENED => true | _ => false end.

Lemma unplugged_error r : unplugged r = true -> is_device_error r = true.
Proof. by destruct r. Qed.

(** The state of a context after the results [h], the latest first. *)
Definition after (ctx : kv_device_ctx_t) (h : list kvs_result) : kv_device_ctx_t :=
  foldr (fun r c => device_record_result c r) ctx h.

Lemma after_state ctx h :
  dc_healthy ctx = true -> dc_consecutive_errors ctx = 0 -> dc_max_consecutive_errors ctx = 10 ->
  Z.of_nat (length h) < 2 ^ 64 ->
  dc_max_consecutive_errors (after ctx h) = 10 /\
  dc_consecutive_errors (after ctx h) = Z.of_nat (lead is_device_error h) /\
  (lead is_device_error h <= length h)%nat /\
  (dc_healthy (after ctx h) = false <->
     Exists (fun r => unplugged r = true) h \/ has_run is_device_error 10 h).
Proof.
  intros Hh Hc Hm. induction h as [|r h IH]; intros Hlen.
  { simpl. split_and!; try done. rewrite Hh. split; [done|].
    intros [H|H]; [by inversion H|by apply has_run_nil in H; [|lia]]. }
  simpl in Hlen. destruct IH as (IHm & IHc & IHl & IHh); [lia|].
  cbn [after foldr]. fold (after ctx h). set (c := after ctx h) in *.
  assert (in_word 64 (dc_consecutive_errors c + 1)) as Hw by (unfold in_word; lia).
  rewrite Exists_cons, has_run_cons by lia. unfold device_record_result. cbn [lead length].
  destruct (is_device_error r) eqn:Er; simpl.
  - rewrite wrap_small by done. rewrite IHm, IHc. split_and!; [done|lia|lia|].
    assert ((10 <=? Z.of_nat (lead is_device_error h) + 1) = true <->
      (10 <= S (lead is_device_error h))%nat) as H10 by (rewrite Z.leb_le; lia).
    destruct r; try done; simpl; try (split; [intros _|done]; auto);
      destruct (10 <=? Z.of_nat (lead is_device_error h) + 1); naive_solver.
  - split_and!; [done|done|lia|]. rewrite IHh.
    assert (unplugged r = false) as Hu by (destruct r; done). rewrite Hu.
    split; [naive_solver|]. intros [[?|?]|[?|?]]; try done; auto; lia.
Qed.

Lemma foldl_after ctx rs : foldl device_record_result ctx rs = after ctx (reverse rs).
Proof.
  revert ctx. induction rs as [|r rs IH]; intros ctx; [done|].
  simpl. rewrite IH, reverse_cons. unfold after. by rewrite foldr_app.
Qed.

(** The health threshold.  A device that starts healthy is marked unhealthy by
    a sequence of results exactly when one of them says that the device is gone,
    or ten device-level errors follow each other without any other result in
    between; application-level errors never count and always reset the run. *)
Theorem health_threshold ctx rs :
  dc_healthy ctx = true -> dc_consecutive_errors ctx = 0 -> dc_max_consecutive_errors ctx = 10 ->
  Z.of_nat (length rs) < 2 ^ 64 ->
  dc_healthy (foldl device_record_result ctx rs) = false <->
  Exists (fun r => unplugged r = true) rs \/ has_run is_device_error 10 rs.
Proof.
  intros Hh Hc Hm Hlen. rewrite <- (length_reverse rs) in Hlen.
  destruct (after_state ctx (reverse rs) Hh Hc Hm Hlen) as (_ & _ & _ & Hiff).
  rewrite has_run_rev in Hiff. rewrite foldl_after, Hiff, !Exists_exists.
  by setoid_rewrite elem_of_reverse.
Qed.

Lemma health_threshold_witness :
  dc_healthy (foldl device_record_result sample_ctx (replicate 10 KVS_ERR_SYS_IO)) = false /\
  dc_healthy (foldl device_record_result sample_ctx
    (replicate 9 KVS_ERR_SYS_IO ++ [KVS_ERR_KEY_NOT_EXIST] ++ replicate 9 KVS_ERR_SYS_IO)) = true.
Proof.
  split; [|vm_compute; reflexivity].
  apply (health_threshold sample_ctx (replicate 10 KVS_ERR_SYS_IO));
    [reflexivity|reflexivity|reflexivity|vm_compute; reflexivity|].
  right. exists [], (replicate 10 KVS_ERR_SYS_IO), [].
  split; [reflexivity|]. split; [reflexivity|]. by repeat constructor.
Defined.

(** ** When a device is marked healthy again *)

(** What a probe that answers [ok] does to a device and its recovery count. *)
Definition probe_one (threshold : Z) (p : kv_device_ctx_t * Z) (ok : bool) : kv_device_ctx_t * Z :=
  let '(dev, n) := p in
  if dc_healthy dev then p else
  if ok then
    if threshold <=? u32 (n + 1) then (set_health true 0 dev, 0) else (dev, u32 (n + 1))
  else (dev, 0).

Section recovery.
Context {AL : Allocator} `{KS : KvsSpec}.
Implicit Types (st : kvs_state) (e : kv_engine).

(** The utilization queries made, on device number [i] with handle [h i], and
    whether they succeeded, in order. *)
Inductive calls (h : nat -> option Z) : kvs_state -> list (nat * bool) -> kvs_state -> Prop :=
| calls_nil st : calls h st [] st
| calls_cons st st1 st2 i hd r u log :
    h i = Some hd -> kvs_get_device_utilization hd st = (r, u, st1) -> calls h st1 log st2 ->
    calls h st ((i, bool_decide (r = KVS_SUCCESS)) :: log) st2.

Lemma calls_app h st log1 st1 log2 st2 :
  calls h st log1 st1 -> calls h st1 log2 st2 -> calls h st (log1 ++ log2) st2.
Proof. induction 1; simpl; [done|]. econstructor; eauto. Qed.

Definition answers (i : nat) (log : list (nat * bool)) : list bool :=
  snd <$> filter (fun x => x.1 = i) log.

Lemma answers_app i l1 l2 : answers i (l1 ++ l2) = answers i l1 ++ answers i l2.
Proof. unfold answers. by rewrite filter_app, fmap_app. Qed.

Lemma answers_one j i ok : answers j [(i, ok)] = if decide (j = i) then [ok] else [].
Proof.
  unfold answers. case_decide as H.
  - by rewrite filter_cons_True.
  - by rewrite filter_cons_False by (simpl; congruence).
Qed.

Definition handle_of (e : kv_engine) (i : nat) : option Z := dc_device <$> ke_devices e !! i.

Lemma handle_of_same e e' : same_engine e e' -> forall i, handle_of e' i = handle_of e i.
Proof.
  intros Hs i. unfold handle_of. destruct (ke_devices e !! i) as [d|] eqn:E.
  - destruct (ctx_ids_lookup _ _ _ _ Hs E) as (d' & -> & Hid). unfold ctx_ids in Hid. simpl. congruence.
  - apply same_engine_sym in Hs. destruct (ke_devices e' !! i) as [d'|] eqn:E'; [|done].
    destruct (ctx_ids_lookup _ _ _ _ Hs E') as (? & ? & _). congruence.
Qed.

(** Everything probing may change, and how: each device and its count follow the
    answers to its own probes; one that is unhealthy to the end was probed on each
    of its [visits]. *)
Definition probed (thr : Z) (visits : nat -> nat) st e (counts : list Z)
    (log : list (nat * bool)) st' e' (counts' : list Z) : Prop :=
  calls (handle_of e) st log st' /\ same_handles st st' /\
  (forall s, data st' s = data st s) /\
  same_engine e e' /\ (exists ds, e' = set_devices ds e) /\ length counts' = length counts /\
  forall i dev n, ke_devices e !! i = Some dev -> counts !! i = Some n ->
    exists dev' n', ke_devices e' !! i = Some dev' /\ counts' !! i = Some n' /\
      (dev', n') = foldl (probe_one thr) (dev, n) (answers i log) /\
      (dc_healthy dev' = false -> length (answers i log) = visits i).

Lemma probed_refl thr st e counts : probed thr (fun _ => 0%nat) st e counts [] st e counts.
Proof.
  split_and!; try done; [constructor|by exists (ke_devices e); destruct e|]. eauto 10.
Qed.

(** Visits to devices that are healthy anyway do not count. *)
Lemma probed_skip thr st e counts i dev :
  ke_devices e !! i = Some dev -> dc_healthy dev = true ->
  probed thr (fun j => if decide (j = i) then 1%nat else 0%nat) st e counts [] st e counts.
Proof.
  intros Hd Hh. destruct (probed_refl thr st e counts) as (? & ? & ? & ? & ? & ? & F).
  split_and!; try done. intros j dev0 n0 Hd0 Hn0. destruct (F j dev0 n0 Hd0 Hn0) as (d & n & Hd' & Hn' & E & _).
  exists d, n. split_and!; [done..|]. case_decide; [|done]. subst. intros Hun. congruence.
Qed.

Lemma probe_one_healthy thr p oks : dc_healthy p.1 = true -> foldl (probe_one thr) p oks = p.
Proof.
  intros H. induction oks as [|ok oks IH]; simpl; [done|]. destruct p as [d n]. simpl in *.
  by rewrite H.
Qed.

Lemma probed_visits thr v v' st e c log st' e' c' :
  (forall i, v i = v' i) -> probed thr v st e c log st' e' c' -> probed thr v' st e c log st' e' c'.
Proof. intros E. unfold probed. by setoid_rewrite E. Qed.

Lemma probed_trans thr v1 v2 st e c l1 st1 e1 c1 l2 st2 e2 c2 :
  probed thr v1 st e c l1 st1 e1 c1 -> probed thr v2 st1 e1 c1 l2 st2 e2 c2 ->
  probed thr (fun i => (v1 i + v2 i)%nat) st e c (l1 ++ l2) st2 e2 c2.
Proof.
  intros (C1 & [H1 H1'] & D1 & S1 & [ds1 E1] & L1 & F1) (C2 & [H2 H2'] & D2 & S2 & [ds2 E2] & L2 & F2).
  split_and!.
  - eapply calls_app; [done|]. clear -C2 S1. remember (handle_of e1) as h1 eqn:Eh.
    induction C2; [constructor|]. subst h1. econstructor; [|done|auto].
    by rewrite <- (handle_of_same _ _ S1).
  - split; congruence.
  - intros s. by rewrite D2, D1.
  - by eapply same_engine_trans.
  - exists ds2. by rewrite E2, E1.
  - congruence.
  - intros i dev n Hd Hn. destruct (F1 i dev n Hd Hn) as (d1 & n1 & Hd1 & Hn1 & Ef1 & Ev1).
    destruct (F2 i d1 n1 Hd1 Hn1) as (d2 & n2 & ? & ? & Ef2 & Ev2). exists d2, n2.
    rewrite answers_app, foldl_app, <- Ef1, length_app. split_and!; [done..|].
    intros Hun. rewrite Ev2 by done. rewrite Ev1; [done|]. destruct (dc_healthy d1) eqn:E1'; [|done].
    rewrite probe_one_healthy in Ef2 by done. congruence.
Qed.

Lemma set_health_ids b c dev : ctx_ids (set_health b c dev) = ctx_ids dev.
Proof. done. Qed.

(** One device probed. *)
Lemma probed_update thr st st1 e i dev n r u counts :
  ke_devices e !! i = Some dev -> counts !! i = Some n -> dc_healthy dev = false ->
  kvs_get_device_utilization (dc_device dev) st = (r, u, st1) ->
  let ok := bool_decide (r = KVS_SUCCESS) in
  probed thr (fun j => if decide (j = i) then 1%nat else 0%nat) st e counts [(i, ok)] st1
    (set_devices (<[i := (probe_one thr (dev, n) ok).1]> (ke_devices e)) e)
    (<[i := (probe_one thr (dev, n) ok).2]> counts).
Proof.
  intros Hd Hn Hh Hc ok. pose proof (utilization_spec _ _ _ _ _ Hc) as [Hsame Hdata].
  assert (ctx_ids (probe_one thr (dev, n) ok).1 = ctx_ids dev) as Hids.
  { unfold probe_one. repeat case_match; done. }
  assert (same_engine e (set_devices (<[i := (probe_one thr (dev, n) ok).1]> (ke_devices e)) e))
    as Hse.
  { split; [|done]. cbn [ke_devices set_devices]. rewrite list_fmap_insert, Hids.
    apply list_insert_id. by rewrite list_lookup_fmap, Hd. }
  split; [|split; [done|split; [done|split; [exact Hse|split_and!]]]].
  - eapply calls_cons; [|done|constructor]. unfold handle_of. by rewrite Hd.
  - eauto.
  - apply length_insert.
  - intros j dev0 n0 Hd0 Hn0. simpl. destruct (decide (j = i)) as [->|Hne].
    + simplify_eq. pose proof (lookup_lt_Some _ _ _ Hd). pose proof (lookup_lt_Some _ _ _ Hn).
      rewrite !list_lookup_insert_eq by done. do 2 eexists. split_and!; [done..| |].
      * rewrite answers_one, decide_True by done. symmetry. apply surjective_pairing.
      * by rewrite answers_one, decide_True.
    + rewrite !list_lookup_insert_ne by done. do 2 eexists. split_and!; [done..| |].
      * by rewrite answers_one, decide_False.
      * by rewrite answers_one, !decide_False.
Qed.

Lemma wp_probe_device X thr i counts h st e (Q : list Z -> est -> Prop) :
  (Z.to_nat i < length (ke_devices e))%nat -> (Z.to_nat i < length counts)%nat ->
  (forall log st' e' counts',
     probed thr (fun j => if decide (j = Z.to_nat i) then 1%nat else 0%nat) st e counts
       log st' e' counts' -> Q counts' (Est (World h st') e')) ->
  wp X (probe_device thr i counts) Q (Est (World h st) e).
Proof.
  intros Hi Hc HQ. unfold probe_device. apply wp_bind, wp_ret. cbn [es_e].
  destruct (lookup_lt_is_Some_2 _ _ Hi) as [dev Hd], (lookup_lt_is_Some_2 _ _ Hc) as [n Hn].
  rewrite Hd, Hn. destruct (dc_healthy dev) eqn:Hh; [apply wp_ret; eapply HQ; by eapply probed_skip|].
  apply wp_bind, wp_call_kvs. intros [r u] st1 Hcall. cbn [fst].
  pose proof (probed_update thr _ _ _ _ _ _ _ _ _ Hd Hn Hh Hcall) as Hp. cbv zeta in Hp.
  unfold probe_one in Hp. rewrite Hh in Hp.
  case_bool_decide; [case_if Et|]; cbn [fst snd] in Hp.
  - exact (HQ _ _ _ _ Hp).
  - apply wp_ret. rewrite list_insert_id in Hp by done.
    replace (set_devices (ke_devices e) e) with e in Hp by (by destruct e). exact (HQ _ _ _ _ Hp).
  - apply wp_ret. rewrite list_insert_id in Hp by done.
    replace (set_devices (ke_devices e) e) with e in Hp by (by destruct e). exact (HQ _ _ _ _ Hp).
Qed.

Lemma wp_probe_loop X thr k i counts h st e (Q : list Z -> est -> Prop) :
  0 <= i -> (Z.to_nat i + k <= length (ke_devices e))%nat -> length counts = length (ke_devices e) ->
  (forall log st' e' counts',
     probed thr (fun j => if decide (Z.to_nat i <= j < Z.to_nat i + k)%nat then 1%nat else 0%nat)
       st e counts log st' e' counts' -> Q counts' (Est (World h st') e')) ->
  wp X (probe_loop thr k i counts) Q (Est (World h st) e).
Proof.
  revert i counts st e. induction k as [|k IH]; intros i counts st e Hi Hk Hc HQ; simpl.
  { apply wp_ret. eapply HQ, probed_visits; [|apply probed_refl]. intros j. simpl.
    rewrite decide_False; [done|lia]. }
  apply wp_bind, wp_probe_device; [lia|lia|]. intros log1 st1 e1 c1 P1.
  pose proof P1 as (_ & _ & _ & Hs & _ & Hl & _).
  assert (length (ke_devices e1) = length (ke_devices e)) as Hlen.
  { destruct Hs as (Hids & _). rewrite <- !(length_fmap ctx_ids). by rewrite Hids. }
  apply IH; [lia|lia|congruence|]. intros log2 st2 e2 c2 P2.
  eapply HQ, probed_visits; [|by eapply probed_trans]. intros j. simpl.
  repeat case_decide; lia.
Qed.

(** [k] sweeps of the probe thread. *)
Fixpoint probe_sweeps (thr : Z) (k : nat) (counts : list Z) : prog est (list Z) :=
  match k with
  | O => mret counts
  | S k' => counts ← probe_sweep thr counts; probe_sweeps thr k' counts
  end.

Lemma wp_probe_sweeps X thr k counts h st e (Q : list Z -> est -> Prop) :
  devices_ok st e -> length counts = length (ke_devices e) ->
  (forall log st' e' counts',
     probed thr (fun j => if decide (j < Z.to_nat (ke_num_devices e))%nat then k else 0%nat)
       st e counts log st' e' counts' -> Q counts' (Est (World h st') e')) ->
  wp X (probe_sweeps thr k counts) Q (Est (World h st) e).
Proof.
  revert counts st e. induction k as [|k IH]; intros counts st e Hd Hc HQ; simpl.
  { apply wp_ret. eapply HQ, probed_visits; [|apply probed_refl]. intros j. by case_decide. }
  pose proof Hd as (Hn & Hlen & _). apply wp_bind. unfold probe_sweep. apply wp_bind, wp_ret.
  cbn [es_e]. apply wp_probe_loop; [lia|unfold KV_MAX_DEVICES in *; lia|done|].
  intros log1 st1 e1 c1 P1. pose proof P1 as (_ & Hh & _ & Hs & _ & Hl & _).
  assert (length (ke_devices e1) = length (ke_devices e)) as Hlen1.
  { destruct Hs as (Hids & _). rewrite <- !(length_fmap ctx_ids). by rewrite Hids. }
  apply IH; [by eapply devices_ok_same|congruence|].
  intros log2 st2 e2 c2 P2. eapply HQ, probed_visits; [|by eapply probed_trans].
  intros j. simpl. destruct Hs as (_ & -> & _). repeat case_decide; lia.
Qed.

Definition succeeded (ok : bool) : bool := ok.

(** The device recovers exactly on a run of [thr] successes. *)
Lemma probe_history thr dev h :
  (0 < thr)%nat -> Z.of_nat thr < 2 ^ 32 -> dc_healthy dev = false ->
  let p := foldr (fun ok p => probe_one (Z.of_nat thr) p ok) (dev, 0) h in
  (dc_healthy p.1 = true <-> has_run succeeded thr h) /\
  (dc_healthy p.1 = false -> p = (dev, Z.of_nat (lead succeeded h)) /\ (lead succeeded h < thr)%nat) /\
  (dc_healthy p.1 = true -> p = (set_health true 0 dev, 0)).
Proof.
  intros Hpos Hw Hh. induction h as [|ok h IH]; simpl foldr; cbv zeta.
  { simpl. rewrite Hh. split_and!; try done. split; [done|]. intros H. by apply has_run_nil in H. }
  cbv zeta in IH. destruct (foldr _ _ h) as [d n] eqn:E. cbn [fst] in IH.
  destruct IH as (IH1 & IH2 & IH3). rewrite has_run_cons by done. unfold probe_one at 1 2 3 4 5.
  destruct (dc_healthy d) eqn:Ed.
  - cbn [fst]. rewrite Ed. split_and!; [|done|by intros _; apply IH3]. split; [intros _|done].
    left. by apply IH1.
  - destruct (IH2 eq_refl) as [[= -> ->] Hlt]. cbn [lead].
    destruct ok.
    + rewrite wrap_small by (unfold in_word; lia). case_if Et; bool_to_prop; cbn [fst].
      * split_and!; try done. split; [intros _|done]. right. simpl. lia.
      * rewrite Hh. split_and!; try done.
        -- split; [done|]. intros [H%IH1|H]; [done|]. simpl in H. lia.
        -- intros _. simpl. split; [f_equal; lia|lia].
    + cbn [fst]. rewrite Hh. split_and!; try done.
      * split; [done|]. intros [H%IH1|H]; [done|]. simpl in H. lia.
Qed.

Lemma inv_probed thr v m st e Kt lt bufs stack c log st' e' c' :
  inv m st e Kt lt bufs stack -> probed thr v st e c log st' e' c' ->
  inv m st' e' Kt lt bufs stack.
Proof.
  intros Hinv (_ & Hh & _ & Hs & [ds ->] & _). destruct Hinv as [Hi Hsl Hhl Hd Ht Hp Ho].
  split; try done. by eapply devices_ok_same.
Qed.

Lemma foldl_foldr_probe thr p oks :
  foldl (probe_one thr) p oks = foldr (fun ok p => probe_one thr p ok) p (reverse oks).
Proof.
  revert p. induction oks as [|ok oks IH]; intros p; [done|].
  simpl. by rewrite IH, reverse_cons, foldr_app.
Qed.

(** C35: recovery.  In any number of sweeps of the health probe from fresh counts,
    an unhealthy device is marked healthy, with its error run reset, exactly when
    three utilization queries on it succeeded in a row; while it stays unhealthy
    it is queried once per sweep.  The queries are the calls made on the device
    library, in order; the pairs it stores do not change, and the engine's
    invariant holds afterwards. *)
Theorem probe_recovery X k h st e Kt lt bufs stack :
  inv (h_blocks h) st e Kt lt bufs stack ->
  wp X (probe_sweeps 3 k (replicate (Z.to_nat KV_MAX_DEVICES) 0)) (fun _ s =>
    exists log, calls (handle_of e) st log (w_kvs (es_w s)) /\ w_heap (es_w s) = h /\
      (forall sp, data (w_kvs (es_w s)) sp = data st sp) /\
      inv (h_blocks h) (w_kvs (es_w s)) (es_e s) Kt lt bufs stack /\
      forall i dev, (i < Z.to_nat (ke_num_devices e))%nat -> ke_devices e !! i = Some dev ->
        dc_healthy dev = false ->
        exists dev', ke_devices (es_e s) !! i = Some dev' /\
          (dc_healthy dev' = true <-> has_run succeeded 3 (answers i log)) /\
          (dc_healthy dev' = true -> dc_consecutive_errors dev' = 0) /\
          (dc_healthy dev' = false -> dev' = dev /\ length (answers i log) = k))
    (Est (World h st) e).
Proof.
  intros Hinv. pose proof (inv_devices _ _ _ _ _ _ _ Hinv) as Hd. pose proof Hd as (Hn & Hlen & _).
  apply wp_probe_sweeps; [done|by rewrite length_replicate|].
  intros log st' e' c' Hp. exists log. pose proof (inv_probed _ _ _ _ _ _ _ _ _ _ _ _ _ _ Hinv Hp) as Hinv'.
  destruct Hp as (Hcalls & _ & Hdata & _ & _ & _ & F). split_and!; try done.
  intros i dev Hi Hdev Hun. cbn [es_e].
  assert (replicate (Z.to_nat KV_MAX_DEVICES) 0 !! i = Some 0) as Hc.
  { apply lookup_replicate_2. unfold KV_MAX_DEVICES in *. lia. }
  destruct (F i dev 0 Hdev Hc) as (dev' & n' & Hdev' & _ & Ef & Hv). exists dev'.
  rewrite foldl_foldr_probe in Ef.
  destruct (probe_history 3 dev (reverse (answers i log)) ltac:(lia) ltac:(lia) Hun) as (H1 & H2 & H3).
  change (Z.of_nat 3) with 3 in *. rewrite <- Ef in H1, H2, H3. cbn [fst] in H1, H2, H3.
  split_and!; try done.
  - by rewrite H1, has_run_rev.
  - intros Hh. injection (H3 Hh) as -> _. done.
  - intros Hh. split; [by destruct (H2 Hh) as [[= -> _] _]|]. rewrite Hv by done.
    by rewrite decide_True.
Qed.

(** *** Queries and adding a device *)

Lemma device_open_le ctx st st' : handles_le st st' -> device_open ctx st -> device_open ctx st'.
Proof.
  intros [Hd Hk] (? & ? & [p Hp] & name & Hn). split_and!; try done.
  - exists p. by eapply lookup_weaken.
  - exists name. by eapply lookup_weaken.
Qed.

Lemma opened_le path i ctx st st' : opened path i ctx st st' -> handles_le st st'.
Proof.
  intros (_ & _ & Hd & Hk & Hd' & Hk' & _). split; [rewrite Hd'|rewrite Hk']; by apply insert_subseteq.
Qed.

(** Adding a device.  A call on a running engine that fails leaves heap blocks,
    handles and devices as they were; one that succeeds appends one open, healthy
    device, keeps the invariant, and every key that still shards to its old device
    keeps its value.  It succeeds only below eight devices and while no write has
    been counted. *)
Theorem add_device_spec X path tr m st e Kt lt bufs stack :
  inv m st e Kt lt bufs stack ->
  wp X (kv_engine_add_device true (Some path)) (fun r s =>
    exists tr' m' st' e', s = Est (World (Heap tr' m') st') e' /\
      inv m' st' e' Kt lt bufs stack /\
      if decide (r = KV_SUCCESS) then
        st_write_ops (ke_stats e) <= 0 /\ ke_num_devices e' = ke_num_devices e + 1 /\
        (exists ctx, ke_devices e' = <[Z.to_nat (ke_num_devices e) := ctx]> (ke_devices e) /\
           opened path (ke_num_devices e) ctx st st' /\ dc_healthy ctx = true /\
           grown m m' (ctx_blocks ctx)) /\
        (forall k, kv_engine_shard_for_key k (ke_num_devices e + 1) =
             kv_engine_shard_for_key k (ke_num_devices e) ->
           lookup_kv st' e' k = lookup_kv st e k)
      else m' = m /\ same_handles st st' /\ same_engine e e')
    (Est (World (Heap tr m) st) e).
Proof.
  intros Hinv. unfold kv_engine_add_device. apply wp_bind, wp_ret. cbn [es_e].
  rewrite (inv_init _ _ _ _ _ _ _ Hinv). cbn [negb orb].
  pose proof Hinv as [Hi Hsl Hhl Hd Ht [Hp [Hns Hb]] Ho]. pose proof Hd as (Hn & Hlen & Hopen).
  case_if Emax; bool_to_prop.
  { apply wp_ret. exists tr, m, st, e. by split_and!. }
  rewrite Hsl. apply wp_bind, wp_ret, wp_bind, wp_ret, wp_bind. unfold set_engine at 1, wp at 1.
  fold (wp (St := est) (A := kv_result_t)).
  match goal with |- wp _ _ _ ?s => set (s0 := s) end.
  assert (s0 = Est (World (Heap tr m) st) e) as ->.
  { unfold s0. cbn. f_equal. unfold set_stats. rewrite <- Hsl. by destruct e. }
  case_if Ew; bool_to_prop.
  { apply wp_ret. exists tr, m, st, e. by split_and!. }
  apply wp_bind, wp_zoom. cbn [es_w es_e]. apply wp_kv_engine_open_device.
  - intros st' Hsame Hkeep. apply wp_ret. exists tr, m, st', e. rewrite decide_False by done.
    split_and!; try done. by eapply inv_handles.
  - intros ctx tr' m' st' Hop Hg Hh Hmax. apply wp_bind. unfold set_engine, wp. cbn.
    pose proof (opened_le _ _ _ _ _ Hop) as Hle.
    assert (forall a, is_Some (m !! a) -> m' !! a = m !! a) as Hm.
    { intros a [x Hx]. destruct Hg as (_ & Hout & Hin). apply Hout. intros Ha.
      destruct (Hin a Ha) as (_ & Hnone & _). congruence. }
    eexists tr', m', st', _. split; [reflexivity|]. split.
    + split; try done; cbn.
      * unfold devices_ok. cbn [ke_num_devices ke_devices set_num_devices set_devices].
        split_and!; [lia|lia|by rewrite length_insert|]. intros i c Hic Hc.
        apply list_lookup_insert_Some in Hc as [(<- & <- & _)|[Hne Hc]].
        -- by eapply opened_device_open.
        -- eapply device_open_le; [done|]. eapply Hopen; [|done]. lia.
      * eapply table_is_frame; [done|]. intros a _ Ha. by rewrite Hm.
      * split_and!; [done..|]. intros b Hbin. destruct (Hb b Hbin) as (blk & Hblk & Hsz).
        exists blk. split; [|done]. rewrite Hm; [done|eauto].
      * destruct Ho as [Hnd Hin]. split; [done|]. intros a Ha. destruct (Hin a Ha). by rewrite Hm.
    + rewrite decide_True by done. split_and!; [lia|done|by exists ctx|].
      intros k Hk. unfold lookup_kv. cbn. rewrite Hk.
      pose proof (shard_range k (ke_num_devices e) ltac:(lia)).
      rewrite list_lookup_insert_ne by lia.
      destruct (ke_devices e !! _) as [c|] eqn:Ec; [|done].
      assert (device_open c st) as Hoc by (eapply Hopen; [|done]; lia).
      destruct (device_open_space _ _ Hoc) as [sp Hsp]. rewrite Hsp.
      rewrite (space_of_le _ _ _ _ Hle Hsp). destruct Hop as (_ & _ & _ & _ & _ & _ & Hkeep).
      by rewrite (Hkeep _ _ Hsp).
Qed.
End recovery.

(** ** At concrete engines *)

Lemma sick_inv : inv ∅ sample_kvs sick_engine ∅ [] [] [].
Proof.
  destruct sample_inv as [Hi Hsl Hhl Hd Ht Hp Ho]. split; try done.
  split_and!; try done. intros i ctx Hil Hctx. assert (i = 0%nat) as -> by (simpl in Hil; lia).
  simpl in Hctx. simplify_eq. by split_and!; try done; exists (ks_name 0).
Qed.

Lemma probe_recovery_witness :
  (match @probe_sweeps emu_kvs 3 3 (replicate 8 0) (sample_state sick_engine) with
   | Done _ s => kv_engine_healthy_device_count true (es_e s)
   | _ => -1
   end = 1) /\
  @probe_sweeps emu_kvs 3 2 (replicate 8 0) (sample_state sick_engine) <> Undef.
Proof.
  split; [vm_compute; reflexivity|]. intros E.
  pose proof (probe_recovery (K := emu_kvs) never 2 (Heap [] ∅) sample_kvs sick_engine ∅ [] [] []
    sick_inv) as H.
  unfold wp in H. unfold sample_state in E. change (Z.to_nat KV_MAX_DEVICES) with 8%nat in H.
  rewrite E in H. exact H.
Defined.

Lemma add_device_spec_witness :
  @kv_engine_add_device big_allocator emu_kvs true (Some "/dev/kvemul9"%string)
    (sample_state sample_engine) <> Undef.
Proof.
  intros E. pose proof (add_device_spec (AL := big_allocator) (K := emu_kvs) never
    "/dev/kvemul9"%string [] ∅ sample_kvs sample_engine ∅ [] [] [] sample_inv) as H.
  unfold wp in H. unfold sample_state in E. rewrite E in H. exact H.
Defined.

(** Two devices, of which the engine has opened the first. *)
Definition second_path : string := "/dev/kvemul1".
Definition two_lib : lib :=
  Lib 3 {[ 1 := sample_path ]} {[ 2 := (1, ks_name 0) ]}
    {[ sample_path := Emu {[ ks_name 0 := ∅ ]} 1000000 1000000;
       second_path := Emu ∅ 1000000 1000000 ]} ∅.

Lemma two_lib_ok : lib_ok two_lib.
Proof.
  destruct sample_lib_ok as (H1 & H2 & H3 & _). split_and!; try done. simpl.
  intros p e ks k v. rewrite lookup_insert_Some, lookup_singleton_Some.
  intros [[<- <-]|[_ [<- <-]]]; unfold ks_map; simpl.
  - rewrite lookup_singleton. case_decide; simpl; by rewrite lookup_empty.
  - by rewrite lookup_empty.
Qed.

Definition two_state : @est emu_kvs :=
  @Est emu_kvs (@World emu_kvs (Heap [] ∅) (exist _ two_lib two_lib_ok)) sample_engine.

(** Store a key, reset the statistics or not, add the second device, and look
    the key up again. *)
Definition store_add_retrieve (reset : bool) (k : bytes)
    : prog (@est emu_kvs) (kv_result_t * kv_result_t * kv_result_t) :=
  r1 ← @kv_engine_store lp64 big_allocator emu_kvs true (Some k) 4 (Some (CBuf 4096 [1; 2; 3])) 3 true;
  _ ← (if reset then kv_engine_reset_stats true else mret tt);
  r2 ← @kv_engine_add_device big_allocator emu_kvs true (Some second_path);
  r3 ← @kv_engine_retrieve big_allocator emu_kvs true (Some k) 4 true false;
  mret (r1, r2, r3.1).

(** The guard of kv_engine_add_device is the write counter, which
    kv_engine_reset_stats zeroes.  After a successful store the call is refused;
    after a store and a reset of the statistics it is accepted, and the stored
    key, which now shards to the new device, can no longer be found. *)
Theorem add_device_after_reset_loses_keys :
  (match store_add_retrieve false [107; 101; 121; 49] two_state with
   | Done r _ => Some r | _ => None end =
     Some (KV_SUCCESS, KV_ERR_INVALID_PARAM, KV_SUCCESS)) /\
  (match store_add_retrieve true [107; 101; 121; 49] two_state with
   | Done r _ => Some r | _ => None end =
     Some (KV_SUCCESS, KV_SUCCESS, KV_ERR_KEY_NOT_FOUND)).
Proof. split; vm_compute; reflexivity. Qed.
