(* ===== verification/Lifecycle.v ===== *)
(** * Engine life cycle (src/core/kv_engine.c: kv_engine_init, kv_engine_cleanup)

    Initialisation with its error paths, and cleanup, which lets the workers drain
    the queue of asynchronous requests first.  Initialisation followed by any calls
    and cleanup returns every block and every device handle. *)
From S2P Require Import Prelude Libc KvTypes MemoryPool DmaPool UtHash HashTable KvsApi.
From S2P Require Import Emulator MultiDevice ThreadPool Engine EngineSpec EngineProps Async.
From S2P Require Import Health.

(** What the threading library answers: the [pthread_create] calls of the workers
    and of the probe, the [pthread_mutex_init] calls, and what a lock is after the
    [memset] of the engine. *)
Record pthreads := Pthreads {
  pt_spawn : Z -> bool;
  pt_spawn_probe : bool;
  pt_stats_rc : Z;
  pt_table_rc : Z;
  pt_zeroed : mutex
}.

Section lifecycle.
Context {AB : Abi} {AL : Allocator} `{K : KvsOps}.

(** ** Initialisation *)

(** [strdup] of a string that may be NULL. *)
Definition strdup_opt (s : option string) : prog heap Z :=
  match s with None => mret 0 | Some s => strdup s end.

Fixpoint close_devices (ds : list kv_device_ctx_t) : prog world unit :=
  match ds with
  | [] => mret tt
  | ctx :: ds' => _ ← kv_engine_close_device ctx; close_devices ds'
  end.

(** Open the devices in order, from number [i], [acc] being open already; on a
    failure those are closed again. *)
Fixpoint open_devices (paths : list string) (i : Z) (acc : list kv_device_ctx_t)
    : prog world (list kv_device_ctx_t + kv_result_t) :=
  match paths with
  | [] => mret (inl acc)
  | p :: paths' =>
    r ← kv_engine_open_device p i;
    match r with
    | (Some ctx, KV_SUCCESS) => open_devices paths' (i + 1) (acc ++ [ctx])
    | (_, res) => _ ← close_devices acc; mret (inr res)
    end
  end.

Definition default_pool_size : Z := 16 * 1024 * 1024.

(** From the initialisation of the statistics on; [dma_create] is
    [dma_pool_create]. *)
Definition init_finish (dma_create : Z -> Z -> prog heap (option dma_pool_t)) (env : pthreads)
    (c : kv_engine_config_t) (eng path emul : Z) (ds : list kv_device_ctx_t)
    (mem_pool : option memory_pool_t) (workers : option (thread_pool_t async_context_t))
    : prog world (kv_result_t * option kv_engine) :=
  let stats_lock := mutex_init (pt_stats_rc env) (pt_zeroed env) in
  buffer_pool ← (if 0 <? cfg_dma_pool_count c
                 then on_heap (dma_create KV_ENGINE_RETRIEVE_SIZE (cfg_dma_pool_count c))
                 else mret None);
  match create_table (Some (HashTab None (pt_zeroed env))) (pt_table_rc env) with
  | (Some table, 0) =>
    probe ← on_heap (health_probe_create (pt_spawn_probe env));
    mret (KV_SUCCESS, Some (Engine eng
      (ds ++ replicate (Z.to_nat KV_MAX_DEVICES - length ds) zero_ctx)
      (Z.of_nat (length ds)) path emul mem_pool buffer_pool workers zero_stats
      stats_lock (pt_zeroed env) table true probe))
  | _ =>
    _ ← on_heap (dma_pool_destroy buffer_pool);
    _ ← match workers with
        | None => mret tt
        | Some w => on_heap (thread_pool_release (fun B m => m) async_context_free w)
        end;
    _ ← on_heap (memory_pool_destroy mem_pool);
    _ ← close_devices ds;
    _ ← on_heap (free path); _ ← on_heap (free emul);
    _ ← mutex_destroy stats_lock;
    _ ← on_heap (free eng);
    mret (KV_ERR_NO_MEMORY, None)
  end.

Definition kv_engine_init_with (dma_create : Z -> Z -> prog heap (option dma_pool_t))
    (env : pthreads) (engine_out : bool) (config : option kv_engine_config_t)
    : prog world (kv_result_t * option kv_engine) :=
  match config with
  | None => mret (KV_ERR_INVALID_PARAM, None)
  | Some c =>
    if negb engine_out then mret (KV_ERR_INVALID_PARAM, None) else
    eng ← on_heap (malloc (sizeof T_kv_engine));
    if eng =? 0 then mret (KV_ERR_NO_MEMORY, None) else
    path ← on_heap (strdup_opt (cfg_device_path c));
    emul ← on_heap (strdup_opt (cfg_emul_config_file c));
    let '(res, paths) := kv_engine_resolve_device_paths config true in
    if negb (bool_decide (res = KV_SUCCESS)) then _ ← on_heap (free eng); mret (res, None) else
    opened ← open_devices paths 0 [];
    match opened with
    | inr res => _ ← on_heap (free eng); mret (res, None)
    | inl ds =>
      mem_pool ← on_heap (memory_pool_create
        (if 0 <? cfg_memory_pool_size c then cfg_memory_pool_size c else default_pool_size));
      if bool_decide (mem_pool = None)
      then _ ← close_devices ds; _ ← on_heap (free eng); mret (KV_ERR_NO_MEMORY, None) else
      if 0 <? cfg_num_worker_threads c then
        workers ← on_heap (thread_pool_create (cfg_num_worker_threads c) (cfg_queue_depth c)
                             (pt_spawn env));
        if bool_decide (workers = None)
        then _ ← on_heap (memory_pool_destroy mem_pool); _ ← close_devices ds;
             _ ← on_heap (free eng); mret (KV_ERR_NO_MEMORY, None)
        else init_finish dma_create env c eng path emul ds mem_pool workers
      else init_finish dma_create env c eng path emul ds mem_pool None
    end
  end.

Definition kv_engine_init := kv_engine_init_with dma_pool_create.

(** ** Cleanup *)

Definition on_world {A} (m : prog world A) : prog ast A :=
  on_engine (zoom es_w (fun w s => Est w (es_e s)) m).

(** [thread_pool_destroy(engine->workers)]: after [shutdown] is set the workers run
    what is queued and exit. *)
Definition thread_pool_destroy : prog ast unit :=
  e ← on_engine engine;
  match ke_workers e with
  | None => mret tt
  | Some p =>
    _ ← on_engine (set_engine (set_workers (set_shutdown p)));
    _ ← drain (length (tp_queue p));
    e ← on_engine engine;
    match ke_workers e with
    | None => undefined
    | Some p =>
      thread_pool_release (fun B m => on_engine (with_heap m))
        (fun ctx => on_engine (with_heap (async_context_free ctx))) p
    end
  end.

(** The part of cleanup after the workers have gone. *)
Definition cleanup_rest : prog ast unit :=
  e ← on_engine engine;
  _ ← on_world (on_heap (dma_pool_destroy (ke_buffer_pool e)));
  _ ← on_world (on_heap (memory_pool_destroy (ke_mem_pool e)));
  _ ← on_world (close_devices (take (Z.to_nat (ke_num_devices e)) (ke_devices e)));
  _ ← on_world (on_heap (free_table (Some (ke_key_table e))));
  _ ← on_world (on_heap (if ke_config_path e =? 0 then mret tt else free (ke_config_path e)));
  _ ← on_world (on_heap (if ke_config_emul e =? 0 then mret tt else free (ke_config_emul e)));
  _ ← mutex_destroy (ke_stats_lock e);
  _ ← mutex_destroy (ke_hash_lock e);
  on_world (on_heap (free (ke_self e))).

Definition kv_engine_cleanup (eng : bool) : prog ast unit :=
  if negb eng then mret tt else
  e ← on_engine engine;
  _ ← on_world (on_heap (health_probe_destroy (ke_health_probe e)));
  _ ← thread_pool_destroy;
  cleanup_rest.

(** ** A session: synchronous calls, then asynchronous ones, then cleanup *)

Definition run_session (ops : list eop) (evs : list aevent)
    : prog ast (list eres * list (areq * kv_result_t)) :=
  rs ← on_engine (run_eops ops);
  codes ← run_aevents evs;
  _ ← kv_engine_cleanup true;
  mret (rs, codes).

(** The answers, and the callbacks that were made. *)
Definition session_result : Type := list eres * list (areq * kv_result_t) * list completion.

Definition start_engine (e : kv_engine) (m : prog ast (list eres * list (areq * kv_result_t)))
    : prog world (option session_result) := fun w =>
  match m (Ast (Est w e) []) with
  | Done x a => Done (Some (x, as_done a)) (es_w (as_est a))
  | Undef => Undef
  | Exit a => Exit (es_w (as_est a))
  end.

Definition session_with (dma_create : Z -> Z -> prog heap (option dma_pool_t)) (env : pthreads)
    (c : kv_engine_config_t) (ops : list eop) (evs : list aevent) : prog world (option session_result) :=
  r ← kv_engine_init_with dma_create env true (Some c);
  match r with
  | (KV_SUCCESS, Some e) => start_engine e (run_session ops evs)
  | _ => mret None
  end.

Definition session := session_with dma_pool_create.
End lifecycle.

(** ** Device handles *)

Section handles.
Context `{KS : KvsSpec}.
Implicit Types (st : kvs_state) (ds : list kv_device_ctx_t).

(** The contexts [ds] hold, beside what was open in [st0], all the open handles. *)
Record held_handles st0 ds st : Prop := Held {
  hh_nodup : NoDup (dc_device <$> ds);
  hh_open : Forall (fun ctx => device_open ctx st) ds;
  hh_dev : forall h, dev_path st0 !! h =
    if decide (h ∈ dc_device <$> ds) then None else dev_path st !! h;
  hh_ks : ks_of st0 = filter (fun x => x.2.1 ∉ dc_device <$> ds) (ks_of st)
}.

Lemma filter_all {A} (P : Z * A -> Prop) `{!forall x, Decision (P x)} (m : gmap Z A) :
  (forall k x, m !! k = Some x -> P (k, x)) -> filter P m = m.
Proof. apply map_filter_id. Qed.

Lemma held_nil st0 st : held_handles st0 [] st <-> same_handles st0 st.
Proof.
  split.
  - intros [_ _ Hd Hk]. split.
    + apply map_eq. intros h. symmetry. apply Hd.
    + rewrite Hk. symmetry. apply filter_all. intros k x _. simpl. set_solver.
  - intros [Hd Hk]. split; [apply NoDup_nil_2|constructor|by intros h; rewrite Hd|].
    rewrite Hk. symmetry. apply filter_all. intros k x _. simpl. set_solver.
Qed.

Lemma held_open st0 ds st p i ctx st' :
  held_handles st0 ds st -> opened p i ctx st st' -> held_handles st0 (ds ++ [ctx]) st'.
Proof.
  intros [Hnd Hop Hd Hk] Ho. pose proof (opened_device_open _ _ _ _ _ Ho) as Hctx.
  destruct Ho as (H1 & H2 & Hdn & Hkn & Hd' & Hk' & _).
  assert (Hnew : dc_device ctx ∉ dc_device <$> ds).
  { intros (x & Ex & Hx)%list_elem_of_fmap. rewrite Forall_forall in Hop.
    destruct (Hop x Hx) as (_ & _ & [? Hs] & _). rewrite <- Ex in Hs. congruence. }
  split.
  - rewrite fmap_app. apply NoDup_app. split_and!; [done|set_solver|apply NoDup_singleton].
  - apply Forall_app. split; [|by constructor]. eapply Forall_impl; [exact Hop|].
    intros x (? & ? & [q Hq] & name & Hn). unfold device_open. rewrite Hd', Hk'. split_and!; try done.
    + rewrite lookup_insert_ne by congruence. eauto.
    + exists name. rewrite lookup_insert_ne by congruence. done.
  - intros h. rewrite (Hd h), Hd', lookup_insert.
    repeat case_decide; subst; set_solver.
  - rewrite Hk, Hk'. symmetry. rewrite map_filter_insert_False by (simpl; set_solver).
    rewrite delete_id by done. apply map_filter_ext. intros hd [dh n] Hhd. simpl.
    assert (dh <> dc_device ctx).
    { intros ->. apply ks_dev_open in Hhd as [? ?]. congruence. }
    set_solver.
Qed.

Lemma held_close st0 ctx ds st st' :
  held_handles st0 (ctx :: ds) st -> closed ctx st st' -> held_handles st0 ds st'.
Proof.
  intros [Hnd Hop Hd Hk] (Hd' & Hk' & _). csimpl in *. apply NoDup_cons in Hnd as [Hn Hnd].
  apply Forall_cons in Hop as [_ Hop]. split; [done| | |].
  - rewrite Forall_forall in Hop |- *. intros x Hx. destruct (Hop x Hx) as (? & ? & ? & name & Hname).
    assert (dc_device x <> dc_device ctx) by (intros E; apply Hn; rewrite <- E; apply list_elem_of_fmap; eauto).
    unfold device_open. rewrite Hd', Hk', lookup_delete_ne by done. split_and!; try done.
    exists name. by apply map_lookup_filter_Some.
  - intros h. rewrite Hd, Hd', lookup_delete. repeat case_decide; subst; set_solver.
  - rewrite Hk, Hk', map_filter_filter. apply map_filter_ext. intros hd [dh n] _. simpl. set_solver.
Qed.

Lemma held_same st0 ds ds' st st' :
  held_handles st0 ds st -> same_handles st st' -> ctx_ids <$> ds' = ctx_ids <$> ds ->
  held_handles st0 ds' st'.
Proof.
  intros [Hnd Hop Hd Hk] Hs Hids.
  assert (Edev : dc_device <$> ds' = dc_device <$> ds).
  { change (dc_device <$> ds') with ((fun c => (ctx_ids c).1.1) <$> ds').
    change (dc_device <$> ds) with ((fun c => (ctx_ids c).1.1) <$> ds).
    change (fun c => (ctx_ids c).1.1) with ((fun x : Z * Z * Z => x.1.1) ∘ ctx_ids).
    by rewrite !list_fmap_compose, Hids. }
  split; rewrite ?Edev; [done| |by destruct Hs as [-> _]|by destruct Hs as [_ ->]].
  rewrite Forall_forall in Hop |- *. intros x (j & Hj)%list_elem_of_lookup.
  assert (Hx : (ctx_ids <$> ds) !! j = Some (ctx_ids x)) by (by rewrite <- Hids, list_lookup_fmap, Hj).
  rewrite list_lookup_fmap in Hx. destruct (ds !! j) as [y|] eqn:Hy; [|done]. apply (inj Some) in Hx.
  eapply device_open_ids; [|exact Hs|apply Hop; by eapply list_elem_of_lookup_2]. done.
Qed.
End handles.

(** ** What each part allocates and frees *)

Lemma reown_step m0 l0 m m' l1 l2 r :
  reown m0 l0 m (l1 ++ r) -> reown m l1 m' l2 ->
  reown m0 l0 m' (l2 ++ r) /\ (forall a, a ∈ r -> m' !! a = m !! a).
Proof.
  intros H1 H2. destruct (reown_frame _ _ _ _ _ (proj1 H1) H2) as [H3 ?].
  split; [by eapply reown_trans|done].
Qed.

Lemma reown_owned m0 l0 m l1 r : reown m0 l0 m (l1 ++ r) -> owns l1 m.
Proof. intros [Ho _]. by eapply owns_app_l. Qed.

Lemma reown_delete_all l m : owns l m -> reown m l (delete_all l m) [].
Proof. intros Ho. split; [apply owns_nil|done]. Qed.

Section parts.
Context {AB : Abi} {AL : Allocator}.

Definition mem_pool_blocks (p : option memory_pool_t) : list Z :=
  match p with Some p => [mp_base p; mp_self p] | None => [] end.

Lemma wp_memory_pool_create_re X size (Q : option memory_pool_t -> heap -> Prop) t m :
  0 <= size ->
  (forall t', Q None (Heap t' m)) ->
  (forall t' m' p, reown m [] m' (mem_pool_blocks (Some p)) -> Q (Some p) (Heap t' m')) ->
  wp X (memory_pool_create size) Q (Heap t m).
Proof.
  intros Hsz HN HS. apply wp_memory_pool_create; [done|done|]. intros t' self base Hs Hb.
  apply HS. simpl. eapply reown_trans; [eapply reown_alloc; [apply owns_nil|exact Hs]|].
  eapply reown_alloc; [|exact Hb]. eapply reown_alloc; [apply owns_nil|exact Hs].
Qed.

Lemma wp_free_re X a (Q : unit -> heap -> Prop) t m :
  owns [a] m -> (forall m', reown m [a] m' [] -> Q tt (Heap t m')) -> wp X (free a) Q (Heap t m).
Proof.
  intros Ho HQ. pose proof Ho as (? & ? & _)%owns_cons. apply wp_free_in; [done..|].
  by apply HQ, reown_free.
Qed.

Lemma wp_free_two X a b (Q : unit -> heap -> Prop) t m :
  owns [a; b] m -> (forall m', reown m [a; b] m' [] -> Q tt (Heap t m')) ->
  wp X (_ ← free a; free b) Q (Heap t m).
Proof.
  intros Ho HQ. apply wp_bind, wp_free_re; [by apply (owns_app_l [a] [b])|]. intros m1 R1.
  destruct (reown_step m [a; b] m m1 [a] [] [b] (reown_refl _ _ Ho) R1) as [R2 _]. simpl in R2.
  apply wp_free_re; [apply R2|]. intros m2 R3. apply HQ. by eapply reown_trans.
Qed.

Lemma wp_memory_pool_destroy_re X p (Q : unit -> heap -> Prop) t m :
  owns (mem_pool_blocks p) m -> (forall m', reown m (mem_pool_blocks p) m' [] -> Q tt (Heap t m')) ->
  wp X (memory_pool_destroy p) Q (Heap t m).
Proof.
  destruct p as [p|]; simpl; intros Ho HQ; [|by apply wp_ret, HQ].
  pose proof Ho as (? & _)%owns_cons. replace (mp_base p =? 0) with false by lia.
  by apply wp_free_two.
Qed.

Definition worker_blocks (p : option (thread_pool_t async_context_t)) : list Z :=
  match p with Some p => [tp_threads_ptr p; tp_self p] | None => [] end.

(** A pool as [thread_pool_create] leaves it. *)
Definition idle_pool (p : thread_pool_t async_context_t) : Prop :=
  tp_shutdown p = false /\ tp_queue p = [] /\ tp_queue_size p = 0 /\
  0 < tp_queue_capacity p < 2 ^ 32.

Lemma wp_thread_pool_create_re X n depth spawn (Q : _ -> heap -> Prop) t m :
  0 < n -> in_word 32 depth ->
  (forall t', Q None (Heap t' m)) ->
  (forall t' m' p, reown m [] m' (worker_blocks (Some p)) -> idle_pool p -> Q (Some p) (Heap t' m')) ->
  wp X (thread_pool_create n depth spawn) Q (Heap t m).
Proof.
  intros Hn Hd HN HS. unfold thread_pool_create. replace (n =? 0) with false by lia.
  apply wp_bind, wp_malloc; [auto with words|by apply wp_ret, HN|]. intros self Hself.
  rewrite (fresh_block_eqb _ _ _ _ Hself).
  assert (0 <= n * sizeof T_pthread) by (pose proof (sizeof_pos T_pthread); nia).
  apply wp_bind, wp_alloc_aligned; [done|done| |].
  { apply wp_bind. eapply wp_free_fresh; [exact Hself|]. apply wp_ret, HN. }
  intros threads Hthr. rewrite (fresh_block_eqb _ _ _ _ Hthr). case_if Hsp.
  - apply wp_ret, HS.
    + simpl. eapply reown_trans; [eapply reown_alloc; [apply owns_nil|exact Hself]|].
      eapply reown_alloc; [|exact Hthr]. eapply reown_alloc; [apply owns_nil|exact Hself].
    + split_and!; try done; simpl; case_if E; bool_to_prop; try lia. apply Hd.
  - apply wp_bind. eapply wp_free_fresh; [exact Hthr|]. apply wp_bind.
    eapply wp_free_fresh; [exact Hself|]. apply wp_ret, HN.
Qed.

Definition probe_blocks (p : option health_probe_t) : list Z :=
  match p with Some p => [hp_self p] | None => [] end.

Lemma wp_health_probe_create_re X spawned (Q : _ -> heap -> Prop) t m :
  (forall t' m' p, reown m [] m' (probe_blocks p) -> Q p (Heap t' m')) ->
  wp X (health_probe_create spawned) Q (Heap t m).
Proof.
  intros HQ. unfold health_probe_create.
  assert (0 <= 1 * sizeof T_health_probe) by (pose proof (sizeof_pos T_health_probe); lia).
  apply wp_bind, wp_alloc_aligned; [done|done|apply wp_ret, HQ, reown_refl, owns_nil|].
  intros a Ha. rewrite (fresh_block_eqb _ _ _ _ Ha). case_if E.
  - apply wp_ret, HQ. simpl. eapply reown_alloc; [apply owns_nil|exact Ha].
  - apply wp_bind. eapply wp_free_fresh; [exact Ha|]. apply wp_ret, HQ, reown_refl, owns_nil.
Qed.

(** The blocks of a DMA pool beside its buffers. *)
Definition dma_struct_blocks (p : option dma_pool_t) : list Z :=
  match p with Some p => [dp_all_buffers_ptr p; dp_free_list_ptr p; dp_self p] | None => [] end.

Definition dma_pool_ok (p : option dma_pool_t) (bufs stack : list Z) : Prop :=
  match p with
  | None => bufs = [] /\ stack = []
  | Some p => pool_rep p bufs stack /\ dp_buffer_size p = KV_ENGINE_RETRIEVE_SIZE
  end.

Lemma wp_dma_pool_destroy_re X p bufs stack (Q : unit -> heap -> Prop) t m :
  dma_pool_ok p bufs stack -> owns (bufs ++ dma_struct_blocks p) m ->
  (forall m', reown m (bufs ++ dma_struct_blocks p) m' [] -> Q tt (Heap t m')) ->
  wp X (dma_pool_destroy p) Q (Heap t m).
Proof.
  destruct p as [p|]; intros Hp Ho HQ.
  - eapply wp_mono; [by apply (wp_dma_pool_destroy X p bufs stack t m (proj1 Hp))|].
    intros [] h ->. by apply HQ, reown_delete_all.
  - destruct Hp as [-> _]. by apply wp_ret, HQ, reown_refl.
Qed.

(** [dma_pool_create] where it is defined, and failure where it is not. *)
Definition dma_create_defined (size count : Z) : prog heap (option dma_pool_t) := fun h =>
  match dma_pool_create size count h with Undef => Done None h | o => o end.

Lemma wp_dma_create_defined X count (Q : _ -> heap -> Prop) t m :
  0 < count < 2 ^ 31 ->
  (forall t' m' p bufs, dma_pool_ok p bufs bufs -> NoDup bufs ->
     buffers_sized KV_ENGINE_RETRIEVE_SIZE bufs m' ->
     reown m [] m' (bufs ++ dma_struct_blocks p) -> Q p (Heap t' m')) ->
  wp X (dma_create_defined KV_ENGINE_RETRIEVE_SIZE count) Q (Heap t m).
Proof.
  intros Hc HQ. unfold wp, dma_create_defined.
  assert (0 <= KV_ENGINE_RETRIEVE_SIZE) as Hsz by done.
  assert (HN : forall t', Q None (Heap t' m)).
  { intros t'. apply (HQ t' m None []); [done|apply NoDup_nil_2| |apply reown_refl, owns_nil].
    intros b Hb. by apply elem_of_nil in Hb. }
  destruct (dma_pool_create KV_ENGINE_RETRIEVE_SIZE count (Heap t m)) as [[p|] [t' m']| |h] eqn:E.
  - destruct (dma_pool_create_done _ _ _ _ _ _ Hsz Hc E) as (bufs & Hrep & _ & Hbs & Hg & Hsized).
    apply (HQ t' m' (Some p) bufs); [done|by destruct Hrep as (_ & _ & _ & _ & _ & _ & _ & ? & _)|done|].
    apply reown_grown in Hg. eapply reown_perm; [done..|done| |exact Hg]. solve_Permutation.
  - apply dma_pool_create_none in E; [|done..]. simpl in E. subst. apply HN.
  - apply HN.
  - by apply dma_pool_create_no_exit in E.
Qed.

Lemma dma_create_approx size count :
  approx (dma_pool_create size count) (dma_create_defined size count).
Proof.
  intros h. unfold dma_create_defined. destruct (dma_pool_create size count h); auto.
Qed.
End parts.

(** ** Devices *)

Section device_rules.
Context {AB : Abi} {AL : Allocator} `{KS : KvsSpec}.
Implicit Types (st : kvs_state) (ds : list kv_device_ctx_t).

Definition dev_blocks ds : list Z := ds ≫= MultiDevice.ctx_blocks.

Lemma wp_close_devices X st0 ds st t m (Q : unit -> world -> Prop) :
  held_handles st0 ds st -> owns (dev_blocks ds) m ->
  (forall m' st', same_handles st0 st' -> reown m (dev_blocks ds) m' [] -> Q tt (World (Heap t m') st')) ->
  wp X (close_devices ds) Q (World (Heap t m) st).
Proof.
  revert st m Q. induction ds as [|ctx ds IH]; intros st m Q Hh Ho HQ; simpl.
  { apply wp_ret, HQ; [by apply held_nil|by apply reown_refl]. }
  change (dev_blocks (ctx :: ds)) with (MultiDevice.ctx_blocks ctx ++ dev_blocks ds) in *.
  pose proof (hh_open _ _ _ Hh) as [Hctx _]%Forall_cons.
  pose proof (owns_app_l _ _ _ Ho) as Hoc. apply wp_bind, wp_kv_engine_close_device; [done|done|].
  intros ctx' st' Hcl.
  destruct (reown_step m _ m _ _ [] _ (reown_refl _ _ Ho) (reown_delete_all _ _ Hoc)) as [R _].
  apply IH; [by eapply held_close|apply R|]. intros m' st2 Hs R2. apply HQ; [done|].
  by eapply reown_trans.
Qed.

Lemma wp_open_devices X st0 paths i ds st t m0 m (Q : _ -> world -> Prop) :
  held_handles st0 ds st -> reown m0 [] m (dev_blocks ds) ->
  (forall t' m' ds' st', held_handles st0 ds' st' -> reown m0 [] m' (dev_blocks ds') ->
     length ds' = (length ds + length paths)%nat -> Q (inl ds') (World (Heap t' m') st')) ->
  (forall t' m' st', same_handles st0 st' -> reown m0 [] m' [] ->
     Q (inr KV_ERR_DEVICE_OPEN) (World (Heap t' m') st')) ->
  wp X (open_devices paths i ds) Q (World (Heap t m) st).
Proof.
  revert i ds st t m. induction paths as [|p paths IH]; intros i ds st t m Hh Hre HS HN; simpl.
  { apply wp_ret, HS; [done|done|simpl; lia]. }
  apply wp_bind, wp_kv_engine_open_device.
  - intros st' Hs _. apply wp_bind. eapply wp_close_devices; [by eapply held_same|apply Hre|].
    intros m' st2 Hs2 Hre2. apply wp_ret, HN; [done|]. by eapply reown_trans.
  - intros ctx t' m' st' Ho Hg _ _. apply IH.
    + by eapply held_open.
    + apply reown_grown in Hg. unfold dev_blocks in *. rewrite bind_app. csimpl. rewrite app_nil_r.
      rewrite (Permutation_app_comm (ds ≫= _)).
      by destruct (reown_step m0 [] m m' [] _ (ds ≫= MultiDevice.ctx_blocks) Hre Hg).
    + intros t2 m2 ds2 st2 ? ? Hlen. apply HS; [done..|]. rewrite Hlen, length_app. simpl. lia.
    + done.
Qed.
End device_rules.

(** ** Initialisation: what it establishes *)

Section init.
Context {AB : Abi} {AL : Allocator} {LIM : AllocLimit AL} `{KS : KvsSpec}.
Implicit Types (st : kvs_state) (e : kv_engine).

Definition nz (a : Z) : list Z := if a =? 0 then [] else [a].

(** The blocks of an engine beside its key table and DMA buffers. *)
Definition engine_blocks e : list Z :=
  probe_blocks (ke_health_probe e) ++ worker_blocks (ke_workers e) ++
  dma_struct_blocks (ke_buffer_pool e) ++ mem_pool_blocks (ke_mem_pool e) ++
  dev_blocks (take (Z.to_nat (ke_num_devices e)) (ke_devices e)) ++
  nz (ke_config_path e) ++ nz (ke_config_emul e) ++ [ke_self e].

(** A new engine on top of the heap [m0] and the open handles of [st0]. *)
Definition fresh_engine (m0 : gmap Z block) st0 (m : gmap Z block) st e (bufs : list Z) : Prop :=
  inv m st e ∅ [] bufs bufs /\
  held_handles st0 (take (Z.to_nat (ke_num_devices e)) (ke_devices e)) st /\
  reown m0 [] m (bufs ++ engine_blocks e) /\
  match ke_workers e with Some p => idle_pool p | None => True end.

(** A failed initialisation: everything is given back, except possibly the copies
    of the two configuration strings. *)
Definition init_failed (m0 : gmap Z block) st0 (c : kv_engine_config_t) (r : kv_result_t)
    (m : gmap Z block) st : Prop :=
  r <> KV_SUCCESS /\ same_handles st0 st /\
  exists leak, reown m0 [] m leak /\ (length leak <= 2)%nat /\
    (cfg_device_path c = None -> cfg_emul_config_file c = None -> leak = []).

Lemma wp_strdup_opt X s (Q : Z -> heap -> Prop) t m :
  (forall t' m' a, reown m [] m' (nz a) -> (s = None -> a = 0) -> Q a (Heap t' m')) ->
  wp X (strdup_opt s) Q (Heap t m).
Proof.
  intros HQ. destruct s as [s|]; simpl; [|apply wp_ret, HQ; [apply reown_refl, owns_nil|done]].
  apply wp_strdup; [apply HQ; [apply reown_refl, owns_nil|done]|]. intros a Ha. apply HQ; [|done].
  unfold nz. rewrite (fresh_block_eqb _ _ _ _ Ha). eapply reown_alloc; [apply owns_nil|exact Ha].
Qed.

Lemma wp_free_nz X a (Q : unit -> heap -> Prop) t m :
  owns (nz a) m -> (forall m', reown m (nz a) m' [] -> Q tt (Heap t m')) ->
  wp X (free a) Q (Heap t m).
Proof.
  unfold nz. destruct (a =? 0) eqn:E; intros Ho HQ; [|by apply wp_free_re].
  apply Z.eqb_eq in E. subst. by apply wp_free_null, HQ, reown_refl.
Qed.

Lemma wp_release_idle X w (Q : unit -> heap -> Prop) t m :
  idle_pool w -> owns (worker_blocks (Some w)) m ->
  (forall m', reown m (worker_blocks (Some w)) m' [] -> Q tt (Heap t m')) ->
  wp X (thread_pool_release (fun B m => m) async_context_free w) Q (Heap t m).
Proof.
  intros (_ & Hq & _) Ho HQ. unfold thread_pool_release. rewrite Hq. simpl.
  apply wp_bind, wp_ret. by apply wp_free_two.
Qed.

Lemma nz_length a : (length (nz a) <= 1)%nat.
Proof. unfold nz. case_match; simpl; lia. Qed.

Definition init_post (m0 : gmap Z block) st0 (c : kv_engine_config_t)
    (res : kv_result_t * option kv_engine) (w : world) : Prop :=
  match res with
  | (r, Some e) => r = KV_SUCCESS /\
      exists bufs, fresh_engine m0 st0 (h_blocks (w_heap w)) (w_kvs w) e bufs
  | (r, None) => init_failed m0 st0 c r (h_blocks (w_heap w)) (w_kvs w)
  end.

Section one_init.
Context (m0 : gmap Z block) (st0 : kvs_state) (c : kv_engine_config_t).
Context (eng path emul : Z).
Hypothesis Hpath : cfg_device_path c = None -> path = 0.
Hypothesis Hemul : cfg_emul_config_file c = None -> emul = 0.

(** The engine structure and the configuration strings. *)
Let base : list Z := nz path ++ nz emul ++ [eng].

Lemma wp_init_exit X r t m st :
  r <> KV_SUCCESS -> reown m0 [] m base -> same_handles st0 st ->
  wp X (_ ← on_heap (free eng); mret (r, None)) (init_post m0 st0 c) (World (Heap t m) st).
Proof.
  intros Hr Hre Hs. assert (Hp : base ≡ₚ [eng] ++ nz path ++ nz emul) by (unfold base; solve_Permutation).
  rewrite Hp in Hre. apply wp_bind, wp_on_heap, wp_free_re; [by eapply reown_owned|].
  intros m' R. apply wp_ret. split_and!; [done|done|]. exists (nz path ++ nz emul).
  destruct (reown_step _ _ _ _ _ _ _ Hre R) as [R' _]. split_and!; [exact R'| |].
  - rewrite length_app. pose proof (nz_length path). pose proof (nz_length emul). lia.
  - intros H1 H2. by rewrite (Hpath H1), (Hemul H2).
Qed.

Lemma wp_init_close X r ds t m st :
  r <> KV_SUCCESS -> held_handles st0 ds st -> reown m0 [] m (dev_blocks ds ++ base) ->
  wp X (_ ← close_devices ds; _ ← on_heap (free eng); mret (r, None)) (init_post m0 st0 c)
    (World (Heap t m) st).
Proof.
  intros Hr Hh Hre. apply wp_bind. eapply wp_close_devices; [done|by eapply reown_owned|].
  intros m' st' Hs R. destruct (reown_step _ _ _ _ _ _ _ Hre R) as [R' _]. by apply wp_init_exit.
Qed.

(** The error path after the key table could not be created. *)
Lemma wp_init_undo X ds mp w bp bufs mu t m st :
  held_handles st0 ds st -> dma_pool_ok bp bufs bufs -> mu = M_free ->
  match w with Some p => idle_pool p | None => True end ->
  reown m0 [] m ((bufs ++ dma_struct_blocks bp) ++ worker_blocks w ++ mem_pool_blocks mp ++ dev_blocks ds ++ base) ->
  wp X (_ ← on_heap (dma_pool_destroy bp);
        _ ← match w with
            | None => mret tt
            | Some w => on_heap (thread_pool_release (fun B m => m) async_context_free w)
            end;
        _ ← on_heap (memory_pool_destroy mp);
        _ ← close_devices ds;
        _ ← on_heap (free path); _ ← on_heap (free emul);
        _ ← mutex_destroy mu;
        _ ← on_heap (free eng);
        mret (KV_ERR_NO_MEMORY, None)) (init_post m0 st0 c) (World (Heap t m) st).
Proof.
  intros Hh Hbp -> Hw R. apply wp_bind, wp_on_heap.
  eapply wp_dma_pool_destroy_re; [done|by eapply reown_owned|]. intros m1 F1.
  destruct (reown_step _ _ _ _ _ _ _ R F1) as [R1 _]. simpl in R1. apply wp_bind.
  assert (Hgo : forall m2, reown m0 [] m2 (mem_pool_blocks mp ++ dev_blocks ds ++ base) ->
    wp X (_ ← on_heap (memory_pool_destroy mp); _ ← close_devices ds;
        _ ← on_heap (free path); _ ← on_heap (free emul); _ ← mutex_destroy M_free;
        _ ← on_heap (free eng); mret (KV_ERR_NO_MEMORY, None)) (init_post m0 st0 c) (World (Heap t m2) st)).
  { intros m2 R2. apply wp_bind, wp_on_heap, wp_memory_pool_destroy_re; [by eapply reown_owned|]. intros m3 F3.
    destruct (reown_step _ _ _ _ _ _ _ R2 F3) as [R3 _]. simpl in R3.
    apply wp_bind. eapply wp_close_devices; [done|by eapply reown_owned|]. intros m4 st4 Hs F4.
    destruct (reown_step _ _ _ _ _ _ _ R3 F4) as [R4 _]. simpl in R4. unfold base in R4.
    apply wp_bind, wp_on_heap, wp_free_nz; [by eapply reown_owned|]. intros m5 F5.
    destruct (reown_step _ _ _ _ _ _ _ R4 F5) as [R5 _]. simpl in R5.
    apply wp_bind, wp_on_heap, wp_free_nz; [by eapply reown_owned|]. intros m6 F6.
    destruct (reown_step _ _ _ _ _ _ _ R5 F6) as [R6 _]. simpl in R6.
    apply wp_bind, wp_ret, wp_bind, wp_on_heap, wp_free_re; [apply R6|]. intros m7 F7.
    apply wp_ret. split_and!; [done|done|]. exists []. split_and!; [|simpl; lia|done].
    by eapply reown_trans. }
  destruct w as [w|]; [|by apply wp_ret, Hgo].
  apply wp_on_heap, wp_release_idle; [done|by eapply reown_owned|]. intros m2 F2.
  destruct (reown_step _ _ _ _ _ _ _ R1 F2) as [R2 _]. by apply Hgo.
Qed.
(** The end of a successful initialisation. *)
Lemma wp_init_probe X ds mp w bp bufs env table t m st :
  held_handles st0 ds st -> (1 <= length ds <= 8)%nat ->
  dma_pool_ok bp bufs bufs -> NoDup bufs -> buffers_sized KV_ENGINE_RETRIEVE_SIZE bufs m ->
  pt_zeroed env = M_free -> (forall m', table_is table ∅ m' []) ->
  match w with Some p => idle_pool p | None => True end ->
  reown m0 [] m ((bufs ++ dma_struct_blocks bp) ++ worker_blocks w ++ mem_pool_blocks mp ++ dev_blocks ds ++ base) ->
  wp X (probe ← on_heap (health_probe_create (pt_spawn_probe env));
        mret (KV_SUCCESS, Some (Engine eng
          (ds ++ replicate (Z.to_nat KV_MAX_DEVICES - length ds) zero_ctx)
          (Z.of_nat (length ds)) path emul mp bp w zero_stats
          (mutex_init (pt_stats_rc env) (pt_zeroed env)) (pt_zeroed env) table true probe)))
    (init_post m0 st0 c) (World (Heap t m) st).
Proof.
  intros Hh Hlen Hbp Hnd Hsz Hz Ht Hw R. apply wp_bind, wp_on_heap, wp_health_probe_create_re.
  intros t' m' probe F.
  destruct (reown_step m0 [] m m' [] (probe_blocks probe) _ R F) as [R' Hsame].
  apply wp_ret. split; [done|]. exists bufs. rewrite Hz.
  set (e := Engine eng _ _ _ _ _ _ _ _ _ _ _ _ _).
  assert (Etake : take (Z.to_nat (ke_num_devices e)) (ke_devices e) = ds).
  { simpl. by rewrite Nat2Z.id, take_app_length. }
  assert (Hblocks : probe_blocks probe ++ (bufs ++ dma_struct_blocks bp) ++ worker_blocks w ++
    mem_pool_blocks mp ++ dev_blocks ds ++ base ≡ₚ bufs ++ engine_blocks e).
  { unfold engine_blocks. rewrite Etake. unfold base. simpl. solve_Permutation. }
  rewrite Hblocks in R'. unfold fresh_engine. rewrite Etake. split_and!; [|done|exact R'|done].
  split; try done.
  - unfold e, mutex_init. cbn [ke_stats_lock]. by destruct (pt_stats_rc env =? 0).
  - split_and!; [simpl; unfold KV_MAX_DEVICES; lia..| |].
    + simpl. rewrite length_app, length_replicate. unfold KV_MAX_DEVICES. lia.
    + intros i ctx Hi Hctx. simpl in Hi, Hctx. rewrite lookup_app_l in Hctx by lia.
      pose proof (hh_open _ _ _ Hh) as Hop. rewrite Forall_forall in Hop.
      by eapply Hop, list_elem_of_lookup_2.
  - split_and!; [done|done|]. intros b Hb. rewrite Hsame by set_solver. by apply Hsz.
  - simpl. eapply owns_app_l, (proj1 R').
Qed.

Lemma wp_init_finish X ds mp w env t m st :
  held_handles st0 ds st -> (1 <= length ds <= 8)%nat -> pt_zeroed env = M_free ->
  cfg_dma_pool_count c < 2 ^ 31 ->
  match w with Some p => idle_pool p | None => True end ->
  reown m0 [] m (worker_blocks w ++ mem_pool_blocks mp ++ dev_blocks ds ++ base) ->
  wp X (init_finish dma_create_defined env c eng path emul ds mp w) (init_post m0 st0 c)
    (World (Heap t m) st).
Proof.
  intros Hh Hlen Hz Hdma Hw R. unfold init_finish. cbv zeta.
  match goal with |- wp _ (_ ≫= ?k) _ _ => set (tail := k) end. apply wp_bind.
  assert (Htail : forall bp bufs t' m', dma_pool_ok bp bufs bufs -> NoDup bufs ->
    buffers_sized KV_ENGINE_RETRIEVE_SIZE bufs m' -> reown m [] m' (bufs ++ dma_struct_blocks bp) ->
    wp X (tail bp) (init_post m0 st0 c) (World (Heap t' m') st)).
  { intros bp bufs t' m' Hbp Hnd Hsz F.
    destruct (reown_step m0 [] m m' [] _ _ R F) as [R' _]. unfold tail, create_table.
    destruct (Z.eq_dec (pt_table_rc env) 0) as [E|E].
    - rewrite E. eapply wp_init_probe; try done. intros m2. rewrite Hz.
      by destruct (create_table_is m2 0 (HashTab None M_free) eq_refl) as (t2 & [= <-] & ?).
    - assert (Hu : forall A (x y : A), match pt_table_rc env with 0 => x | _ => y end = y)
        by (intros; by destruct (pt_table_rc env)).
      rewrite Hu. eapply wp_init_undo; try done. unfold mutex_init. rewrite Hz. by destruct (pt_stats_rc env =? 0). }
  case_if Ed; bool_to_prop.
  - apply wp_on_heap, wp_dma_create_defined; [lia|]. intros t' m' p bufs Hp Hnd Hsz F. by eapply Htail.
  - apply wp_ret, (Htail None []); [done|apply NoDup_nil_2|intros b Hb; by apply elem_of_nil in Hb|].
    apply reown_refl, owns_nil.
Qed.
End one_init.

Lemma resolve_length c l :
  kv_engine_resolve_device_paths (Some c) true = (KV_SUCCESS, l) -> (1 <= length l <= 8)%nat.
Proof.
  intros H. apply resolve_device_paths_range in H as [[H1 H2]|H]; [|lia].
  unfold KV_MAX_DEVICES in *. lia.
Qed.

(** Initialisation, with a DMA pool creation that never fails half way. *)
Lemma wp_kv_engine_init X env outs c t m st :
  config_wf c -> pt_zeroed env = M_free -> cfg_dma_pool_count c < 2 ^ 31 ->
  wp X (kv_engine_init_with dma_create_defined env outs (Some c)) (init_post m st c) (World (Heap t m) st).
Proof.
  intros (Hmp & Hqd & Hnw & _ & Hdc & _) Hz Hdma. unfold kv_engine_init_with.
  assert (Hnone : forall r t', r <> KV_SUCCESS -> init_post m st c (r, None) (World (Heap t' m) st)).
  { intros r t' Hr. split_and!; [done|done|]. exists []. split_and!; [apply reown_refl, owns_nil|simpl; lia|done]. }
  destruct outs; simpl negb; cbv iota; [|by apply wp_ret, Hnone].
  apply wp_bind, wp_on_heap, wp_malloc; [auto with words|by apply wp_ret, Hnone|]. intros eng Heng.
  rewrite (fresh_block_eqb _ _ _ _ Heng).
  pose proof (reown_alloc m [] _ _ eng (Block (sizeof T_kv_engine) []) (owns_nil _) Heng) as R0.
  apply wp_bind, wp_on_heap, wp_strdup_opt. intros t1 m1 path F1 Hpath.
  destruct (reown_step m [] _ m1 [] _ _ R0 F1) as [R1 _].
  apply wp_bind, wp_on_heap, wp_strdup_opt. intros t2 m2 emul F2 Hemul.
  destruct (reown_step m [] _ m2 [] _ _ R1 F2) as [R2 _].
  assert (Hp : nz emul ++ nz path ++ [eng] ≡ₚ nz path ++ nz emul ++ [eng]) by solve_Permutation.
  rewrite Hp in R2. clear Hp.
  destruct (kv_engine_resolve_device_paths (Some c) true) as [res paths] eqn:Eres.
  case_bool_decide as Hres; simpl negb; cbv iota; [|by eapply wp_init_exit].
  subst res. apply resolve_length in Eres.
  apply wp_bind. eapply (wp_open_devices _ st _ _ [] _ _ m2); [by apply held_nil|apply reown_refl, owns_nil| |].
  2:{ intros t3 m3 st3 Hs F3. eapply wp_init_exit; try done.
      by destruct (reown_step m [] _ m3 [] _ _ R2 F3). }
  intros t3 m3 ds st3 Hh F3 Hlen. simpl in Hlen. rewrite <- Hlen in Eres.
  destruct (reown_step m [] _ m3 [] _ _ R2 F3) as [R3 _].
  apply wp_bind, wp_on_heap, wp_memory_pool_create_re.
  { case_match; bool_to_prop; [apply Hmp|done]. }
  { intros t4. rewrite bool_decide_eq_true_2 by done. by eapply wp_init_close. }
  intros t4 m4 mp F4. destruct (reown_step m [] _ m4 [] _ _ R3 F4) as [R4 _].
  rewrite bool_decide_eq_false_2 by done. case_if Ew; bool_to_prop.
  - apply wp_bind, wp_on_heap, wp_thread_pool_create_re; [done|done| |].
    + intros t5. rewrite bool_decide_eq_true_2 by done. apply wp_bind, wp_on_heap.
      apply wp_memory_pool_destroy_re; [by eapply reown_owned|]. intros m5 F5.
      destruct (reown_step _ _ _ _ _ _ _ R4 F5) as [R5 _]. by eapply wp_init_close.
    + intros t5 m5 w F5 Hw. rewrite bool_decide_eq_false_2 by done.
      destruct (reown_step m [] _ m5 [] _ _ R4 F5) as [R5 _]. by eapply wp_init_finish.
  - by eapply wp_init_finish.
Qed.

End init.

(** ** Cleanup: what it gives back *)

Section cleanup.
Context {AB : Abi} {AL : Allocator} {LIM : AllocLimit AL} `{KS : KvsSpec}.
Implicit Types (st : kvs_state) (e : kv_engine).

Definition engine_devices e : list kv_device_ctx_t := take (Z.to_nat (ke_num_devices e)) (ke_devices e).

(** The blocks left when probe and workers are gone. *)
Definition rest_blocks e : list Z :=
  dma_struct_blocks (ke_buffer_pool e) ++ mem_pool_blocks (ke_mem_pool e) ++
  dev_blocks (engine_devices e) ++ nz (ke_config_path e) ++ nz (ke_config_emul e) ++ [ke_self e].

Lemma dev_blocks_ids ds ds' : ctx_ids <$> ds' = ctx_ids <$> ds -> dev_blocks ds' = dev_blocks ds.
Proof.
  revert ds'. induction ds as [|c ds IH]; intros [|c' ds'] E; try done.
  rewrite !fmap_cons in E. injection E as _ _ E1 E2. unfold dev_blocks in *. csimpl.
  rewrite (IH ds' E2). unfold MultiDevice.ctx_blocks. by rewrite E1.
Qed.

Lemma engine_ids_parts e e' :
  engine_ids e' = engine_ids e ->
  rest_blocks e' = rest_blocks e /\ probe_blocks (ke_health_probe e') = probe_blocks (ke_health_probe e) /\
  worker_blocks (ke_workers e') = worker_blocks (ke_workers e) /\
  ctx_ids <$> engine_devices e' = ctx_ids <$> engine_devices e.
Proof.
  unfold engine_ids. intros E. injection E as E1 E2 E3 E4 E5 E6 E7 E8 E9.
  assert (Hd : ctx_ids <$> engine_devices e' = ctx_ids <$> engine_devices e).
  { unfold engine_devices. by rewrite !fmap_take, E1, E2. }
  assert (Hb : dma_struct_blocks (ke_buffer_pool e') = dma_struct_blocks (ke_buffer_pool e)).
  { destruct (ke_buffer_pool e'), (ke_buffer_pool e); simpl in E8; try done.
    injection E8 as E81 E82 E83 _. simpl. by rewrite E81, E82, E83. }
  split_and!; [|by rewrite E7| |done].
  - unfold rest_blocks. by rewrite E3, E4, E5, E6, Hb, (dev_blocks_ids _ _ Hd).
  - destruct (ke_workers e'), (ke_workers e); simpl in E9; try done.
    injection E9 as E91 E92. simpl. by rewrite E91, E92.
Qed.

Lemma wp_on_world {A} X (m : prog world A) (Q : A -> ast -> Prop) w e log :
  wp (fun w' => X (Ast (Est w' e) log)) m (fun a w' => Q a (Ast (Est w' e) log)) w ->
  wp X (on_world m) Q (Ast (Est w e) log).
Proof. intros H. by apply wp_on_engine, wp_zoom. Qed.

Lemma wp_free_if X a (Q : unit -> heap -> Prop) t m :
  owns (nz a) m -> (forall m', reown m (nz a) m' [] -> Q tt (Heap t m')) ->
  wp X (if a =? 0 then mret tt else free a) Q (Heap t m).
Proof.
  unfold nz. destruct (a =? 0) eqn:E; intros Ho HQ; [by apply wp_ret, HQ, reown_refl|by apply wp_free_re].
Qed.
Lemma wp_cleanup_rest X m0 l0 st0 t m st e Kt lt bufs stack R log :
  inv m st e Kt lt bufs stack -> held_handles st0 (engine_devices e) st ->
  reown m0 l0 m ((lt ++ bufs) ++ rest_blocks e ++ R) ->
  wp X cleanup_rest (fun _ a => exists t' m' st', a = Ast (Est (World (Heap t' m') st') e) log /\
      same_handles st0 st' /\ reown m0 l0 m' R /\ t' = t)
    (Ast (Est (World (Heap t m) st) e) log).
Proof.
  intros Hinv Hh Hre. unfold cleanup_rest. apply wp_bind, wp_engine_get. cbn [es_e].
  assert (Hp : (lt ++ bufs) ++ rest_blocks e ++ R ≡ₚ
    (bufs ++ dma_struct_blocks (ke_buffer_pool e)) ++ mem_pool_blocks (ke_mem_pool e) ++
    dev_blocks (engine_devices e) ++ lt ++ nz (ke_config_path e) ++ nz (ke_config_emul e) ++ [ke_self e] ++ R).
  { unfold rest_blocks. solve_Permutation. }
  rewrite Hp in Hre. clear Hp.
  apply wp_bind, wp_on_world, wp_on_heap.
  eapply wp_dma_pool_destroy_re; [apply Hinv|by eapply reown_owned|]. intros m1 F1.
  destruct (reown_step _ _ _ _ _ _ _ Hre F1) as [R1 S1]. simpl in R1.
  apply wp_bind, wp_on_world, wp_on_heap, wp_memory_pool_destroy_re; [by eapply reown_owned|]. intros m2 F2.
  destruct (reown_step _ _ _ _ _ _ _ R1 F2) as [R2 S2]. simpl in R2.
  apply wp_bind, wp_on_world. eapply wp_close_devices; [exact Hh|by eapply reown_owned|].
  intros m3 st3 Hs F3. destruct (reown_step _ _ _ _ _ _ _ R2 F3) as [R3 S3]. simpl in R3.
  assert (Ht : table_is (ke_key_table e) Kt m3 lt).
  { eapply table_is_frame; [apply Hinv|]. intros b Hb Hs1.
    rewrite S3, S2, S1 by set_solver. done. }
  apply wp_bind, wp_on_world, wp_on_heap. eapply wp_mono; [by eapply (wp_free_table _ _ _ _ t)|]. cbn beta.
  intros tab h4 (_ & ->).
  destruct (reown_step _ _ _ _ _ _ _ R3 (reown_delete_all lt m3 (reown_owned _ _ _ _ _ R3))) as [R4 _]. simpl in R4.
  apply wp_bind, wp_on_world, wp_on_heap, wp_free_if; [by eapply reown_owned|]. intros m5 F5.
  destruct (reown_step _ _ _ _ _ _ _ R4 F5) as [R5 _]. simpl in R5.
  apply wp_bind, wp_on_world, wp_on_heap, wp_free_if; [by eapply reown_owned|]. intros m6 F6.
  destruct (reown_step _ _ _ _ _ _ _ R5 F6) as [R6 _]. simpl app in R6.
  rewrite (inv_stats_lock _ _ _ _ _ _ _ Hinv), (inv_hash_lock _ _ _ _ _ _ _ Hinv).
  apply wp_bind, wp_ret, wp_bind, wp_ret, wp_on_world, wp_on_heap, wp_free_re.
  { by apply (owns_app_l [ke_self e] R), R6. }
  intros m7 F7. destruct (reown_step _ _ _ _ [ke_self e] [] R R6 F7) as [R7 _].
  by exists t, m7, st3.
Qed.

(** [shutdown] is set: the pending requests are the same. *)
Lemma arun_shutdown cap ids sth h0 s0 l0 bufs log0 held mh acc n h st e log p :
  arun cap false ids sth h0 s0 l0 bufs log0 held mh acc n (Ast (Est (World h st) e) log) ->
  ke_workers e = Some p ->
  arun cap true ids sth h0 s0 l0 bufs log0 held mh acc n
    (Ast (Est (World h st) (set_workers (set_shutdown p) e)) log).
Proof.
  intros (tr & m & ? & ? & Kt & lt & stack & p' & served & pending & cs & [= -> <- <- ->] & HA & Hh & Hrest) Hw.
  destruct HA as [Hinv Hids Hhd Hw' Hsh Hz Hcap Hq Ho]. assert (p' = p) as -> by congruence.
  exists tr, m, st, (set_workers (set_shutdown p) e), Kt, lt, stack, (set_shutdown p), served, pending, cs.
  split_and!; [done| |done|apply Hrest..]. split; try done.
  - by apply inv_set_workers.
  - by rewrite (set_workers_ids _ p).
Qed.

Lemma wp_health_probe_destroy X p (Q : unit -> heap -> Prop) t m :
  owns (probe_blocks p) m -> (forall m', reown m (probe_blocks p) m' [] -> Q tt (Heap t m')) ->
  wp X (health_probe_destroy p) Q (Heap t m).
Proof.
  destruct p as [p|]; simpl; intros Ho HQ; [by apply wp_free_re|by apply wp_ret, HQ, reown_refl].
Qed.

(** The workers drain the queue and the pool is freed. *)
Lemma wp_thread_pool_destroy cap ids h0 s0 l0 bufs log0 R mh acc n h st0 st e p log :
  arun cap false ids st0 h0 s0 l0 bufs log0 (worker_blocks (Some p) ++ R) mh acc n
    (Ast (Est (World h st) e) log) ->
  ke_workers e = Some p ->
  wp (aoom h0) thread_pool_destroy (fun _ a => exists tr' m' st' e' Kt' lt' stack' cs,
      a = Ast (Est (World (Heap tr' m') st') e') (log0 ++ List.filter has_callback cs) /\
      inv m' st' e' Kt' lt' bufs stack' /\ engine_ids e' = ids /\ same_handles st0 st' /\
      async_spec_run (out_of_memory h0 (Heap tr' m')) s0 acc cs (view st' e' Kt') /\
      reown (h_blocks h0) l0 m' ((lt' ++ bufs) ++ (cs ≫= handed bufs) ++ R) /\
      (refusals h0 <= refusals (Heap tr' m'))%nat)
    (Ast (Est (World h st) e) log).
Proof.
  intros HA Hw. unfold thread_pool_destroy. apply wp_bind, wp_engine_get. cbn [es_e]. rewrite Hw.
  apply wp_bind, wp_set_workers, wp_bind.
  destruct (arun_pool _ _ _ _ _ _ _ _ _ _ _ _ _ _ _ _ _ HA) as (p' & Hp' & _ & Hz & _).
  assert (p' = p) as -> by congruence.
  assert (Hn : (n <= length (tp_queue p))%nat).
  { destruct HA as (? & ? & ? & ? & ? & ? & ? & p' & ? & ? & ? & [= -> <- <- ->] & [_ _ _ Hw' _ Hz' _ _ _] & _).
    assert (p' = p) as -> by congruence. lia. }
  pose proof (arun_shutdown _ _ _ _ _ _ _ _ _ _ _ _ _ _ _ _ _ HA Hw) as HA1.
  eapply wp_mono; [by eapply wp_drain|]. cbn beta.
  intros _ a2 (tr & m & st2 & e2 & Kt & lt & stack & p2 & served & pending & cs & -> & HS & Hh & Hacc & Hlen & Hrun & Hre & Hr).
  destruct pending; [|done]. rewrite app_nil_r in Hacc. subst served.
  destruct HS as [Hinv Hids Hhd Hw2 _ _ _ Hf _]. inversion Hf as [Hq2|].
  apply wp_bind, wp_engine_get. cbn [es_e]. rewrite Hw2. unfold thread_pool_release. rewrite <- Hq2.
  simpl free_leftover. apply wp_bind, wp_ret.
  assert (Hids0 : engine_ids e = ids).
  { by destruct HA as (? & ? & ? & ? & ? & ? & ? & ? & ? & ? & ? & [= -> <- <- ->] & [_ ? _ _ _ _ _ _ _] & _). }
  assert (Hwb : worker_blocks (Some p2) = worker_blocks (Some p)).
  { rewrite <- Hw2, <- Hw. apply engine_ids_parts. congruence. }
  unfold queue_blocks in Hre. rewrite <- Hq2 in Hre. simpl app in Hre.
  assert (Hp : (lt ++ bufs) ++ ((cs ≫= handed bufs) ++ worker_blocks (Some p) ++ R) ++ [] ≡ₚ
    worker_blocks (Some p2) ++ (lt ++ bufs) ++ (cs ≫= handed bufs) ++ R)
    by (rewrite Hwb, app_nil_r; solve_Permutation).
  change (([] : list (work_item async_context_t)) ≫= item_blocks) with ([] : list Z) in Hre.
  rewrite Hp in Hre.
  simpl worker_blocks in Hre.
  apply wp_bind, wp_on_engine, wp_with_heap, wp_free_re.
  { apply (owns_app_l [tp_threads_ptr p2] (tp_self p2 :: (lt ++ bufs) ++ (cs ≫= handed bufs) ++ R)), Hre. }
  intros m1 F1. destruct (reown_step _ _ _ _ [tp_threads_ptr p2] [] _ Hre F1) as [R1 S1].
  apply wp_on_engine, wp_with_heap, wp_free_re.
  { apply (owns_app_l [tp_self p2] ((lt ++ bufs) ++ (cs ≫= handed bufs) ++ R)), R1. }
  intros m2 F2. destruct (reown_step _ _ _ _ [tp_self p2] [] _ R1 F2) as [R2 S2].
  exists tr, m2, st2, e2, Kt, lt, stack, cs. split_and!; try done.
  eapply inv_frame; [exact Hinv|]. intros x Hx. rewrite S2, S1 by set_solver. done.
Qed.
(** What is outside the engine is carried along. *)
Lemma arun_frame cap sd ids sth h0 s0 l0 bufs log0 acc n a r :
  arun cap sd ids sth h0 s0 l0 bufs log0 [] ∅ acc n a -> owns (l0 ++ r) (h_blocks h0) ->
  arun cap sd ids sth h0 s0 (l0 ++ r) bufs log0 r (h_blocks h0) acc n a.
Proof.
  intros (tr & m & st & e & Kt & lt & stack & p & served & pending & cs & -> & HA & _ & -> & -> & Hrun & Hre & Hr) Ho.
  destruct HA as [Hinv Hids Hhd Hw Hsh Hz Hcap Hq _].
  destruct (reown_frame _ _ _ _ _ Ho Hre) as [Hre1 Hsame].
  assert (Hp : ((lt ++ bufs) ++ ((cs ≫= handed bufs) ++ []) ++ queue_blocks p) ++ r ≡ₚ
    (lt ++ bufs) ++ ((cs ≫= handed bufs) ++ r) ++ queue_blocks p)
    by (rewrite app_nil_r; solve_Permutation).
  rewrite Hp in Hre1.
  exists tr, m, st, e, Kt, lt, stack, p, served, pending, cs. split_and!; try done.
  split; try done. apply Hre1.
Qed.

Lemma run_aevents_none evs (a : ast) :
  ke_workers (es_e (as_est a)) = None -> ke_initialized (es_e (as_est a)) = true ->
  exists rs, run_aevents evs a = Done rs a /\ accepted rs = [].
Proof.
  intros Hw Hi. assert (Hb : bool_decide (ke_workers (es_e (as_est a)) = None) = true)
    by (by apply bool_decide_eq_true).
  destruct a as [s log]. induction evs as [|[r|] evs (rs & IH & Hacc)]; simpl run_aevents; [by exists []| |].
  - assert (exists code, run_acall r (Ast s log) = Done code (Ast s log) /\ code <> KV_SUCCESS)
      as (code & Hc & Hne).
    { unfold run_acall. destruct (rq_call r);
        unfold kv_engine_store_async, kv_engine_retrieve_async, kv_engine_delete_async, mbind, prog_bind,
          on_engine, zoom, engine; simpl in *; rewrite Hi, Hb; simpl;
        (destruct (bad_key_len _); [by eexists|by eexists]). }
    exists ((r, code) :: rs). unfold mbind, prog_bind. rewrite Hc, IH. split; [done|].
    unfold accepted in *. simpl. unfold is_success at 1. by rewrite bool_decide_eq_false_2.
  - exists rs. split; [|done]. unfold mbind, prog_bind.
    assert (worker_turn (Ast s log) = Done tt (Ast s log)) as ->; [|done].
    unfold worker_turn, mbind, prog_bind, on_engine, zoom, engine. simpl in *. by rewrite Hw.
Qed.

Lemma engine_blocks_split e :
  engine_blocks e = probe_blocks (ke_health_probe e) ++ worker_blocks (ke_workers e) ++ rest_blocks e.
Proof. done. Qed.

(** What cleanup leaves behind: the requests that were pending have been served,
    the handles are those of [st0], and of the engine's blocks none is left. *)
Definition cleaned (h0 : heap) (s0 : spec_state) (l0 R bufs : list Z) st0 (acc : list areq)
    (log0 : list completion) (a : ast) : Prop :=
  exists tr' m' st' e' cs s',
    a = Ast (Est (World (Heap tr' m') st') e') (log0 ++ List.filter has_callback cs) /\
    same_handles st0 st' /\ reown (h_blocks h0) l0 m' ((cs ≫= handed bufs) ++ R) /\
    async_spec_run (out_of_memory h0 (Heap tr' m')) s0 acc cs s' /\
    (refusals h0 <= refusals (Heap tr' m'))%nat.

Lemma wp_cleanup_workers cap ids sth h0 s0 l0 bufs R mh acc n h st0 st e p log :
  arun cap false ids sth h0 s0 l0 bufs [] (engine_blocks e ++ R) mh acc n (Ast (Est (World h st) e) log) ->
  ke_workers e = Some p -> held_handles st0 (engine_devices e) sth ->
  wp (aoom h0) (kv_engine_cleanup true) (fun _ => cleaned h0 s0 l0 R bufs st0 acc [])
    (Ast (Est (World h st) e) log).
Proof.
  intros HA Hw Hh. unfold kv_engine_cleanup. simpl negb. cbv iota. apply wp_bind, wp_engine_get. cbn [es_e].
  rewrite engine_blocks_split, Hw, <- !app_assoc in HA. destruct h as [t m].
  destruct (arun_facts _ _ _ _ _ _ _ _ _ _ _ _ _ _ _ _ _ _ HA) as (_ & Ho & _).
  apply wp_bind, wp_on_world, wp_on_heap, wp_health_probe_destroy; [by eapply owns_app_l|]. intros m1 F1.
  pose proof (arun_release _ _ _ _ _ _ _ _ _ _ _ _ _ _ _ _ _ _ _ _ HA F1) as HA1.
  assert (Hids0 : engine_ids e = ids).
  { by destruct HA as (? & ? & ? & ? & ? & ? & ? & ? & ? & ? & ? & [= <- <- <- <- ->] & [_ ? _ _ _ _ _ _ _] & _). }
  apply wp_bind. eapply wp_mono; [by eapply wp_thread_pool_destroy|]. cbn beta.
  intros _ a (tr2 & m2 & st2 & e2 & Kt2 & lt2 & stack2 & cs & -> & Hinv2 & Hids2 & Hs2 & Hrun & Hre & Hr).
  destruct (engine_ids_parts e e2) as (Hrest & _ & _ & Hdev); [congruence|].
  assert (Hp : (lt2 ++ bufs) ++ (cs ≫= handed bufs) ++ rest_blocks e ++ R ≡ₚ
    (lt2 ++ bufs) ++ rest_blocks e2 ++ (cs ≫= handed bufs) ++ R) by (rewrite Hrest; solve_Permutation).
  rewrite Hp in Hre.
  eapply wp_mono; [eapply wp_cleanup_rest; [exact Hinv2| |exact Hre]|].
  { eapply held_same; [exact Hh|exact Hs2|done]. }
  cbn beta. intros _ a (t3 & m3 & st3 & -> & Hs3 & Hre3 & ->).
  by exists tr2, m3, st3, e2, cs, (view st2 e2 Kt2).
Qed.

Lemma wp_cleanup_no_workers X h0 s0 l0 bufs R t m st0 st e Kt lt stack :
  ke_workers e = None -> inv m st e Kt lt bufs stack -> held_handles st0 (engine_devices e) st ->
  reown (h_blocks h0) l0 m ((lt ++ bufs) ++ engine_blocks e ++ R) ->
  (refusals h0 <= refusals (Heap t m))%nat ->
  wp X (kv_engine_cleanup true) (fun _ => cleaned h0 s0 l0 R bufs st0 [] [])
    (Ast (Est (World (Heap t m) st) e) []).
Proof.
  intros Hw Hinv Hh Hre Hr. unfold kv_engine_cleanup. simpl negb. cbv iota.
  apply wp_bind, wp_engine_get. cbn [es_e].
  assert (Hp : (lt ++ bufs) ++ engine_blocks e ++ R ≡ₚ
    probe_blocks (ke_health_probe e) ++ (lt ++ bufs) ++ rest_blocks e ++ R)
    by (rewrite engine_blocks_split, Hw; solve_Permutation).
  rewrite Hp in Hre. apply wp_bind, wp_on_world, wp_on_heap, wp_health_probe_destroy; [by eapply reown_owned|].
  intros m1 F1. destruct (reown_step _ _ _ _ _ _ _ Hre F1) as [R1 S1]. simpl app in R1.
  apply wp_bind. unfold thread_pool_destroy. apply wp_bind, wp_engine_get. cbn [es_e]. rewrite Hw. apply wp_ret.
  eapply wp_mono; [eapply (wp_cleanup_rest _ _ _ st0 _ _ _ _ Kt lt bufs stack R); [|exact Hh|exact R1]|].
  { eapply inv_frame; [exact Hinv|]. intros x Hx. apply S1. set_solver. }
  cbn beta. intros _ a (t3 & m3 & st3 & -> & Hs3 & Hre3 & ->).
  exists t, m3, st3, e, [], s0. split_and!; try done. constructor.
Qed.
End cleanup.

(** ** Sessions *)

Section sessions.
Context {AB : Abi} {AL : Allocator} {LIM : AllocLimit AL} `{KS : KvsSpec}.
Implicit Types (st : kvs_state) (e : kv_engine).

(** After a session from the engine's initial map [s0]: the synchronous answers
    and the accepted asynchronous calls, in this order, are explained by the
    specification; every accepted call has called back; the device handles are
    those from before the engine, and the heap has grown only by buffers that were
    handed to the client. *)
Definition session_done (h : heap) (m0 : gmap Z block) st0 (s0 : spec_state) (ops : list eop)
    (r : session_result) (w : world) : Prop :=
  let '(rs, codes, log) := r in
  let lossy := out_of_memory h (w_heap w) in
  exists s1 cs s2 given,
    spec_run lossy s0 ops rs s1 /\ async_spec_run lossy s1 (accepted codes) cs s2 /\
    log = List.filter has_callback cs /\
    same_handles st0 (w_kvs w) /\ reown m0 [] (h_blocks (w_heap w)) given.

Lemma cleaned_done h h1 m0 st0 s0 s1 ops rs codes l1 R bufs a :
  cleaned h1 s1 l1 R bufs st0 (accepted codes) [] a ->
  (refusals h <= refusals h1)%nat -> spec_run (out_of_memory h h1) s0 ops rs s1 ->
  reown m0 [] (h_blocks h1) l1 ->
  session_done h m0 st0 s0 ops (rs, codes, as_done a) (es_w (as_est a)).
Proof.
  intros (tr & m & st & e & cs & s2 & -> & Hs & Hre & Hrun & Hr) Hle Hspec Hre0.
  exists s1, cs, s2, ((cs ≫= handed bufs) ++ R). simpl. split_and!; try done.
  - eapply spec_run_weaken; [|exact Hspec]. unfold out_of_memory. lia.
  - eapply async_spec_run_weaken; [|exact Hrun]. unfold out_of_memory. lia.
  - by eapply reown_trans.
Qed.

Lemma fresh_ready m0 st0 m st e bufs m1 st1 e1 Kt1 lt1 stack1 p :
  fresh_engine m0 st0 m st e bufs -> inv m1 st1 e1 Kt1 lt1 bufs stack1 -> same_engine e e1 ->
  ke_workers e1 = Some p -> async_ready (tp_queue_capacity p) m1 st1 e1 Kt1 lt1 bufs stack1 p.
Proof.
  intros (_ & _ & _ & Hw) Hinv (_ & _ & _ & _ & _ & _ & Ew & _) Hp. rewrite <- Ew, Hp in Hw.
  destruct Hw as (Hsh & Hq & Hz & Hcap). split; try done.
  - by rewrite Hz, Hq.
  - split_and!; [done|lia|lia|lia].
  - rewrite Hq. constructor.
  - unfold queue_blocks. rewrite Hq. simpl. rewrite app_nil_r. apply Hinv.
Qed.

Lemma wp_run_session ops evs m0 st0 t m st e bufs :
  fresh_engine m0 st0 m st e bufs ->
  wp (aoom (Heap t m)) (run_session ops evs)
    (fun x a => session_done (Heap t m) m0 st0 (view st e ∅) ops (x, as_done a) (es_w (as_est a))) (Ast (Est (World (Heap t m) st) e) []).
Proof.
  intros HF. pose proof HF as (Hinv & Hh & Hre & Hw). unfold run_session. apply wp_bind, wp_on_engine.
  eapply wp_mono; [by eapply (wp_run_eops (Heap t m))|]. cbn beta.
  intros rs s (tr1 & m1 & st1 & e1 & Kt1 & lt1 & stack1 & -> & Hinv1 & Hrun & Hr & Hs & Hhd & g & Hre1).
  simpl app in Hre1. destruct (reown_step _ _ _ _ _ _ _ Hre Hre1) as [Hre2 _].
  destruct (engine_ids_parts e e1 (same_engine_ids _ _ Hs)) as (B1 & B2 & B3 & B4).
  assert (Heb : engine_blocks e1 = engine_blocks e) by (by rewrite !engine_blocks_split, B1, B2, B3).
  assert (Hp : (g ++ lt1 ++ bufs) ++ engine_blocks e ≡ₚ (lt1 ++ bufs) ++ engine_blocks e1 ++ g)
    by (rewrite Heb; solve_Permutation).
  rewrite Hp in Hre2.
  assert (Hh1 : held_handles st0 (engine_devices e1) st1) by (eapply held_same; [exact Hh|done|exact B4]).
  apply wp_bind. destruct (ke_workers e1) as [p|] eqn:Hp1.
  - pose proof (fresh_ready _ _ _ _ _ _ _ _ _ _ _ _ _ HF Hinv1 Hs Hp1) as HR.
    eapply wp_mono; [eapply wp_exit_mono; [eapply wp_run_aevents; [done|eapply (arun_start _ tr1); exact HR]|]|].
    { intros s'. by apply oom_mono. }
    cbn beta. intros codes a2 (_ & n & _ & HA). simpl in HA.
    apply (arun_frame _ _ _ _ _ _ _ _ _ _ _ _ (engine_blocks e1 ++ g)) in HA; [|apply Hre2].
    destruct a2 as [[[h2 st2] e2] log2].
    assert (Hids : engine_ids e2 = engine_ids e1 /\ exists p2, ke_workers e2 = Some p2).
    { destruct HA as (? & ? & ? & ? & ? & ? & ? & ? & ? & ? & ? & [= -> <- <- ->] & [_ ? _ ? _ _ _ _ _] & _).
      split; [done|by eexists]. }
    destruct Hids as [Hids [p2 Hp2]]. destruct (engine_ids_parts _ _ Hids) as (C1 & C2 & C3 & C4).
    assert (Heb2 : engine_blocks e2 = engine_blocks e1) by (by rewrite !engine_blocks_split, C1, C2, C3).
    rewrite <- Heb2 in HA. apply wp_bind.
    eapply wp_mono; [eapply wp_exit_mono; [eapply wp_cleanup_workers; [exact HA|exact Hp2|]|]|].
    { eapply held_same; [exact Hh1|done|exact C4]. }
    { intros s'. by apply oom_mono. }
    cbn beta. intros _ a3 Hcl. apply wp_ret. eapply cleaned_done; [exact Hcl|exact Hr|exact Hrun|].
    by rewrite Heb2.
  - destruct (run_aevents_none evs (Ast (Est (World (Heap tr1 m1) st1) e1) [])) as (codes & E & Hacc);
      [done|apply Hinv1|].
    eapply wp_of_done; [exact E|]. apply wp_bind.
    eapply wp_mono; [eapply (wp_cleanup_no_workers _ (Heap tr1 m1) (view st1 e1 Kt1)
      ((lt1 ++ bufs) ++ engine_blocks e1 ++ g) bufs g _ _ st0); try done; apply reown_refl, Hre2|].
    cbn beta. intros _ a3 Hcl. apply wp_ret. rewrite <- Hacc in Hcl. by eapply cleaned_done.
Qed.

Lemma init_finish_approx d1 d2 env c eng path emul ds mp w :
  (forall x y, approx (d1 x y) (d2 x y)) ->
  approx (init_finish d1 env c eng path emul ds mp w) (init_finish d2 env c eng path emul ds mp w).
Proof.
  intros H. unfold init_finish. apply approx_bind; [|intros; apply approx_refl].
  destruct (0 <? cfg_dma_pool_count c); [|apply approx_refl]. by apply approx_zoom.
Qed.

Lemma init_approx d1 d2 env outs c :
  (forall x y, approx (d1 x y) (d2 x y)) ->
  approx (kv_engine_init_with d1 env outs c) (kv_engine_init_with d2 env outs c).
Proof.
  intros H. unfold kv_engine_init_with. destruct c as [c|]; [|apply approx_refl].
  destruct (negb outs); [apply approx_refl|].
  apply approx_bind; [apply approx_refl|]. intros eng. destruct (eng =? 0); [apply approx_refl|].
  apply approx_bind; [apply approx_refl|]. intros path. apply approx_bind; [apply approx_refl|]. intros emul.
  destruct (kv_engine_resolve_device_paths (Some c) true) as [res paths].
  destruct (negb _); [apply approx_refl|]. apply approx_bind; [apply approx_refl|].
  intros [ds|r]; [|apply approx_refl]. apply approx_bind; [apply approx_refl|]. intros mp.
  destruct (bool_decide _); [apply approx_refl|]. destruct (0 <? _); [|by apply init_finish_approx].
  apply approx_bind; [apply approx_refl|]. intros w.
  destruct (bool_decide _); [apply approx_refl|by apply init_finish_approx].
Qed.

(** Without a DMA pool, nothing is undefined. *)
Lemma init_no_pool env outs c :
  cfg_dma_pool_count c <= 0 ->
  kv_engine_init env outs (Some c) = kv_engine_init_with dma_create_defined env outs (Some c).
Proof.
  intros H. unfold kv_engine_init, kv_engine_init_with, init_finish.
  by replace (0 <? cfg_dma_pool_count c) with false by lia.
Qed.

Lemma engine_init_spec_aux env outs c t m st :
  config_wf c -> pt_zeroed env = M_free -> cfg_dma_pool_count c < 2 ^ 31 ->
  match kv_engine_init env outs (Some c) (World (Heap t m) st) with
  | Done r w => init_post m st c r w
  | Undef => 0 < cfg_dma_pool_count c
  | Exit _ => False
  end.
Proof.
  intros Hc Hz Hd. pose proof (wp_kv_engine_init never env outs c t m st Hc Hz Hd) as Hwp. unfold wp in Hwp.
  destruct (decide (0 < cfg_dma_pool_count c)) as [Hp|Hp].
  - destruct (init_approx _ _ env outs (Some c) dma_create_approx (World (Heap t m) st)) as [E|E];
      unfold kv_engine_init; rewrite E; [done|].
    by destruct (kv_engine_init_with _ _ _ _ _).
  - rewrite init_no_pool by lia. by destruct (kv_engine_init_with _ _ _ _ _).
Qed.


End sessions.

(** ** Concrete sessions *)

Definition sample_env : pthreads := Pthreads (fun _ => true) true 0 0 M_free.
Definition sample_config : kv_engine_config_t :=
  Config (Some sample_path) None 0 2 1 0 (replicate 8 None) 0 0.

Lemma sample_config_wf : config_wf sample_config.
Proof. unfold config_wf, in_word. simpl. split_and!; done. Qed.

(** A device that nobody has opened, without key spaces. *)
Definition idle_lib : lib := Lib 1 ∅ ∅ {[ sample_path := Emu ∅ 1000000 1000000 ]} ∅.

Lemma idle_lib_ok : lib_ok idle_lib.
Proof.
  split_and!; simpl; [lia|..].
  - intros h [p Hp]. by rewrite lookup_empty in Hp.
  - intros hd x Hx. by rewrite lookup_empty in Hx.
  - intros p e ks k v Hp. apply lookup_singleton_Some in Hp as [<- <-]. unfold ks_map. simpl.
    by rewrite lookup_empty.
Qed.

Definition idle_kvs : lib_state := exist _ idle_lib idle_lib_ok.
Definition idle_world : @world emu_kvs := @World emu_kvs (Heap [] ∅) idle_kvs.

Definition sample_session : prog (@world emu_kvs) (option session_result) :=
  @session lp64 big_allocator emu_kvs sample_env sample_config
    [OStore sample_key [1; 2; 3] 4096 true; OExists sample_key] sample_events.

(** What the session above does: both kinds of calls are answered, the three
    requests complete although cleanup starts while two are queued, and of all the
    memory only the buffer given to the retrieve callback is left. *)
Example sample_session_run :
  match sample_session idle_world with
  | Done (Some (rs, codes, log)) w =>
      (rs, codes.*2, cp_result <$> log, length (map_to_list (h_blocks (w_heap w))))
  | _ => ([], [], [], 0%nat)
  end =
  ([RCode KV_SUCCESS; RFlag KV_SUCCESS (Some 1)], [KV_SUCCESS; KV_SUCCESS; KV_SUCCESS],
   [KV_SUCCESS; KV_SUCCESS; KV_SUCCESS], 1%nat).
Proof. vm_compute. reflexivity. Qed.



(** The error paths of [kv_engine_init] before the key table leak the copies of
    the configuration strings: opening a device that another handle already holds
    returns KV_ERR_DEVICE_OPEN, the engine structure is freed and the copied device
    path is still allocated. *)
Theorem init_failure_leaks_config :
  match @kv_engine_init lp64 big_allocator emu_kvs sample_env true (Some sample_config)
          (@World emu_kvs (Heap [] ∅) sample_kvs) with
  | Done (r, eng) w => r = KV_ERR_DEVICE_OPEN /\ eng = None /\
      blk_data <$> (map_to_list (h_blocks (w_heap w))).*2 = [cstring sample_path]
  | _ => False
  end.
Proof. vm_compute. repeat split. Qed.

(** [kv_engine_init] never initialises [hash_lock]: it relies on a zeroed
    [pthread_mutex_t] being an initialised one.  On a platform where that is not so,
    the first store on a new engine is undefined. *)
Theorem hash_lock_never_initialised :
  match @kv_engine_init lp64 big_allocator emu_kvs
          (Pthreads (fun _ => true) true 0 0 M_uninit) true (Some sample_config) idle_world with
  | Done (r, Some e) w => r = KV_SUCCESS /\
      match @run_eop lp64 big_allocator emu_kvs (OStore sample_key [1] 4096 true) (Est w e) with
      | Undef => True
      | _ => False
      end
  | _ => False
  end.
Proof. vm_compute. repeat split. Qed.
