(* ===== verification/FtlAlloc.v ===== *)
(** * Value allocators of the KV flash translation layer (lib/nvmevirt)

    The two allocators of append_only.c and bitmap.c behind the interface
    [allocator_ops] of kv_ftl.h: a class of operations, a class of laws (what is
    handed out lies in the device and overlaps nothing handed out before), and
    the two instances.  [va_reserve] is how many bytes an allocation really keeps
    for its caller. *)
From S2P Require Import Prelude.

(** ** The interface: struct allocator_ops *)

Class ValueAllocator := {
  va_state : Type;
  va_init : Z -> prog va_state unit;
  va_allocate : Z -> prog va_state Z
}.

(** Byte ranges: offset and length. *)
Definition apart (r r' : Z * Z) : Prop := r.1 + r.2 <= r'.1 \/ r'.1 + r'.2 <= r.1.

Class AllocatorLaws (VA : ValueAllocator) := {
  va_reserve : Z -> Z;
  (** [va_holds a size rs]: the ranges [rs] of a device of [size] bytes are taken *)
  va_holds : va_state -> Z -> list (Z * Z) -> Prop;
  va_room : va_state -> Z -> Prop;
  va_reserve_ge len a : va_room a len -> len <= va_reserve len;
  va_allocate_ok a size rs len :
    va_holds a size rs -> 0 <= len -> va_room a len ->
    wp never (va_allocate len) (fun off a' =>
      0 <= off /\ off + va_reserve len <= size /\ Forall (apart (off, va_reserve len)) rs /\
      va_holds a' size ((off, va_reserve len) :: rs)) a
}.

(** ** append_only.c *)

Module AppendOnly.

(** The static variables of the file. *)
Record append_only := Statics {
  latest : Z;
  dev_size : Z;
  total_written : Z
}.

Definition append_only_allocator_init (size : Z) : prog append_only unit :=
  put (Statics 0 size 0).

(** The message for a nearly full device is left out. *)
Definition append_only_allocate (length : Z) : prog append_only Z :=
  a ← get;
  let ret := latest a in
  _ ← put (Statics (u64 (latest a + length)) (dev_size a) (u64 (total_written a + length)));
  mret ret.

#[export] Instance append_only_ops : ValueAllocator := {|
  va_init := append_only_allocator_init;
  va_allocate := append_only_allocate
|}.

Definition holds (a : append_only) (size : Z) (rs : list (Z * Z)) : Prop :=
  dev_size a = size /\ 0 <= latest a /\ Forall (fun r => r.1 + r.2 <= latest a) rs.

Definition room (a : append_only) (len : Z) : Prop :=
  0 <= len /\ latest a + len <= dev_size a /\ dev_size a < 2 ^ 64.

#[export] Program Instance append_only_laws : AllocatorLaws append_only_ops := {|
  va_reserve len := len;
  va_holds := holds;
  va_room := room
|}.
Next Obligation. done. Qed.
Next Obligation.
  intros a size rs len (<- & Hl & Hrs) Hlen (_ & Hroom & Hsz). unfold wp, never. simpl.
  rewrite wrap_small by (unfold in_word; lia). unfold holds. simpl. split_and!; try lia.
  - eapply Forall_impl; [exact Hrs|]. intros [o n] Hr. right. simpl in *. lia.
  - constructor; [simpl; lia|]. eapply Forall_impl; [exact Hrs|]. intros [o n] Hr. simpl in *. lia.
Qed.

Lemma append_only_init_holds size a :
  wp never (append_only_allocator_init size) (fun _ a' => holds a' size [] /\ latest a' = 0) a.
Proof. unfold wp, holds. simpl. split_and!; by try constructor. Qed.
End AppendOnly.

(** ** bitmap.c *)

Module Bitmap.

Definition SMALL_LENGTH : Z := 1024.
Definition LARGE_LENGTH : Z := 4096.

(** Bits of the static arrays [small_bitmap] and [large_bitmap]. *)
Definition small_bits : Z := 600000 * 64.
Definition large_bits : Z := 300000 * 64.

Record bitmap_alloc := Statics {
  small_nbits : Z;
  large_nbits : Z;
  small_bitmap : gset Z;
  large_bitmap : gset Z;
  small_capacity : Z;
  large_capacity : Z;
  small_last_pos : Z;
  large_last_pos : Z;
  dev_size : Z;
  total_written : Z
}.

(** Only the bits below [nbits] are cleared; positions and counters are kept. *)
Definition bitmap_allocator_init (size : Z) : prog bitmap_alloc unit :=
  a ← get;
  let sn := size / 2 / SMALL_LENGTH in
  let ln := size / 2 / LARGE_LENGTH in
  if (small_bits <? sn) || (large_bits <? ln) then undefined else
  put (Statics sn ln (filter (fun i => sn <= i) (small_bitmap a))
         (filter (fun i => ln <= i) (large_bitmap a))
         (small_capacity a) (large_capacity a) (small_last_pos a) (large_last_pos a)
         size (total_written a)).

(** The kernel's [find_next_zero_bit] and [bitmap_find_next_zero_area] for an area
    of one bit: the first clear bit from [start] on, or a number above [size]. *)
Fixpoint find_next_zero_bit (bits : gset Z) (n : nat) (i : Z) : Z :=
  match n with
  | O => i
  | S n' => if bool_decide (i ∈ bits) then find_next_zero_bit bits n' (i + 1) else i
  end.

Definition bitmap_find_next_zero_area (bits : gset Z) (size start : Z) : Z :=
  let index := if start <? size then find_next_zero_bit bits (Z.to_nat (size - start)) start
               else size in
  if size <? index + 1 then index + 1 else index.

Definition next_pos (off nbits : Z) : Z := if nbits <? off + 1 then 0 else off + 1.

Definition bitmap_allocate (length : Z) : prog bitmap_alloc Z :=
  a ← get;
  if SMALL_LENGTH <? length then
    let off := bitmap_find_next_zero_area (large_bitmap a) (large_nbits a) (large_last_pos a) in
    if large_bits <=? off then undefined else
    _ ← put (Statics (small_nbits a) (large_nbits a) (small_bitmap a) ({[off]} ∪ large_bitmap a)
               (small_capacity a) (large_capacity a + 1) (small_last_pos a)
               (next_pos off (large_nbits a)) (dev_size a) (u64 (total_written a + length)));
    mret (u64 (dev_size a / 2 + off * LARGE_LENGTH))
  else
    let off := bitmap_find_next_zero_area (small_bitmap a) (small_nbits a) (small_last_pos a) in
    if small_bits <=? off then undefined else
    _ ← put (Statics (small_nbits a) (large_nbits a) ({[off]} ∪ small_bitmap a) (large_bitmap a)
               (small_capacity a + 1) (large_capacity a) (next_pos off (small_nbits a))
               (large_last_pos a) (dev_size a) (u64 (total_written a + length)));
    mret (u64 (off * SMALL_LENGTH)).

#[export] Instance bitmap_ops : ValueAllocator := {|
  va_init := bitmap_allocator_init;
  va_allocate := bitmap_allocate
|}.

(** A clear bit the search can still reach. *)
Definition clear_ahead (bits : gset Z) (nbits pos : Z) : Prop :=
  exists i, pos <= i < nbits /\ i ∉ bits.

Definition taken (a : bitmap_alloc) (r : Z * Z) : Prop :=
  (exists i, r = (i * SMALL_LENGTH, SMALL_LENGTH) /\ 0 <= i < small_nbits a /\ i ∈ small_bitmap a) \/
  (exists i, r = (dev_size a / 2 + i * LARGE_LENGTH, LARGE_LENGTH) /\
     0 <= i < large_nbits a /\ i ∈ large_bitmap a).

Definition holds (a : bitmap_alloc) (size : Z) (rs : list (Z * Z)) : Prop :=
  dev_size a = size /\ 0 <= size < 2 ^ 64 /\
  small_nbits a = size / 2 / SMALL_LENGTH /\ large_nbits a = size / 2 / LARGE_LENGTH /\
  small_nbits a <= small_bits /\ large_nbits a <= large_bits /\
  0 <= small_last_pos a /\ 0 <= large_last_pos a /\
  Forall (taken a) rs.

Definition room (a : bitmap_alloc) (len : Z) : Prop :=
  len <= LARGE_LENGTH /\
  if SMALL_LENGTH <? len then clear_ahead (large_bitmap a) (large_nbits a) (large_last_pos a)
  else clear_ahead (small_bitmap a) (small_nbits a) (small_last_pos a).

Lemma find_next_zero_bit_spec bits n i j :
  i <= j < i + Z.of_nat n -> j ∉ bits ->
  i <= find_next_zero_bit bits n i <= j /\ find_next_zero_bit bits n i ∉ bits.
Proof.
  revert i. induction n as [|n IH]; intros i Hj Hf; [lia|]. simpl. case_bool_decide as Hi.
  - destruct (decide (i = j)) as [->|]; [done|]. destruct (IH (i + 1)) as [??]; [lia|done|].
    split; [lia|done].
  - split; [lia|done].
Qed.

Lemma find_area_clear bits nbits pos :
  clear_ahead bits nbits pos ->
  let off := bitmap_find_next_zero_area bits nbits pos in pos <= off < nbits /\ off ∉ bits.
Proof.
  intros (i & Hi & Hf). unfold bitmap_find_next_zero_area. replace (pos <? nbits) with true by lia.
  destruct (find_next_zero_bit_spec bits (Z.to_nat (nbits - pos)) pos i) as [Hr Hb]; [lia|done|].
  cbv zeta. case_if E; bool_to_prop; [lia|]. split; [lia|done].
Qed.

Lemma next_pos_nonneg off n : 0 <= off -> 0 <= next_pos off n.
Proof. unfold next_pos. case_if E; lia. Qed.

(** The two halves of the device. *)
Lemma halves a size rs :
  holds a size rs ->
  small_nbits a * SMALL_LENGTH <= size / 2 /\ size / 2 + large_nbits a * LARGE_LENGTH <= size /\
  0 <= size / 2 <= size.
Proof.
  intros (_ & Hsz & -> & -> & _). unfold SMALL_LENGTH, LARGE_LENGTH.
  Z.to_euclidean_division_equations. lia.
Qed.

(** Taking a clear bit of the small half. *)
Lemma small_step a size rs off cap total :
  holds a size rs -> 0 <= off < small_nbits a -> off ∉ small_bitmap a ->
  let r := (off * SMALL_LENGTH, SMALL_LENGTH) in
  r.1 + r.2 <= size /\ Forall (apart r) rs /\
  holds (Statics (small_nbits a) (large_nbits a) ({[off]} ∪ small_bitmap a) (large_bitmap a)
           cap (large_capacity a) (next_pos off (small_nbits a)) (large_last_pos a)
           (dev_size a) total) size (r :: rs).
Proof.
  intros Hh Hoff Hclear. destruct (halves _ _ _ Hh) as (Hsmall & Hlarge & Hhalf).
  destruct Hh as (<- & Hsz & Hsn & Hln & Hsb & Hlb & Hsp & Hlp & Hrs).
  unfold SMALL_LENGTH, LARGE_LENGTH in *. cbv zeta. simpl. split_and!.
  - lia.
  - eapply Forall_impl; [exact Hrs|].
    intros r [(i & -> & Hi & Hbit)|(i & -> & Hi & _)]; unfold apart, SMALL_LENGTH, LARGE_LENGTH; simpl.
    + assert (i <> off) by (intros ->; done). lia.
    + lia.
  - unfold holds. simpl. split_and!; try done; try lia; [apply next_pos_nonneg; lia|].
    constructor; [left; exists off; simpl; split_and!; [done|lia|lia|set_solver]|].
    eapply Forall_impl; [exact Hrs|]. intros r [(i & -> & Hi & Hbit)|(i & -> & Hi & Hbit)].
    + left. exists i. simpl. split_and!; [done|lia|lia|set_solver].
    + right. exists i. simpl. split_and!; [done|lia|lia|done].
Qed.

Lemma large_step a size rs off cap total :
  holds a size rs -> 0 <= off < large_nbits a -> off ∉ large_bitmap a ->
  let r := (dev_size a / 2 + off * LARGE_LENGTH, LARGE_LENGTH) in
  r.1 + r.2 <= size /\ Forall (apart r) rs /\
  holds (Statics (small_nbits a) (large_nbits a) (small_bitmap a) ({[off]} ∪ large_bitmap a)
           (small_capacity a) cap (small_last_pos a) (next_pos off (large_nbits a))
           (dev_size a) total) size (r :: rs).
Proof.
  intros Hh Hoff Hclear. destruct (halves _ _ _ Hh) as (Hsmall & Hlarge & Hhalf).
  destruct Hh as (<- & Hsz & Hsn & Hln & Hsb & Hlb & Hsp & Hlp & Hrs).
  unfold SMALL_LENGTH, LARGE_LENGTH in *. cbv zeta. simpl. split_and!.
  - lia.
  - eapply Forall_impl; [exact Hrs|].
    intros r [(i & -> & Hi & _)|(i & -> & Hi & Hbit)]; unfold apart, SMALL_LENGTH, LARGE_LENGTH; simpl.
    + lia.
    + assert (i <> off) by (intros ->; done). lia.
  - unfold holds. simpl. split_and!; try done; try lia; [apply next_pos_nonneg; lia|].
    constructor; [right; exists off; simpl; split_and!; [done|lia|lia|set_solver]|].
    eapply Forall_impl; [exact Hrs|]. intros r [(i & -> & Hi & Hbit)|(i & -> & Hi & Hbit)].
    + left. exists i. simpl. split_and!; [done|lia|lia|done].
    + right. exists i. simpl. split_and!; [done|lia|lia|set_solver].
Qed.

#[export] Program Instance bitmap_laws : AllocatorLaws bitmap_ops := {|
  va_reserve len := if SMALL_LENGTH <? len then LARGE_LENGTH else SMALL_LENGTH;
  va_holds := holds;
  va_room := room
|}.
Next Obligation. intros len a [Hlen _]. simpl. case_if E; bool_to_prop; lia. Qed.
Next Obligation.
  intros a size rs len Hh Hlen [_ Hroom]. simpl.
  unfold bitmap_allocate. apply wp_bind, wp_get.
  pose proof Hh as (<- & Hsz & Hsn & Hln & Hsb & Hlb & Hsp & Hlp & _).
  destruct (halves _ _ _ Hh) as (Hsmall & Hlarge & Hhalf).
  destruct (SMALL_LENGTH <? len); apply find_area_clear in Hroom; cbv zeta in Hroom;
    destruct Hroom as [Hoff Hclear].
  - case_if E; bool_to_prop; [lia|]. apply wp_bind, wp_put, wp_ret.
    edestruct large_step as (H1 & H2 & H3); [exact Hh|split; [|exact (proj2 Hoff)]; lia|exact Hclear|].
    unfold LARGE_LENGTH in *. simpl in *. rewrite wrap_small by (unfold in_word; lia).
    split_and!; [lia|done|done|exact H3].
  - case_if E; bool_to_prop; [lia|]. apply wp_bind, wp_put, wp_ret.
    edestruct small_step as (H1 & H2 & H3); [exact Hh|split; [|exact (proj2 Hoff)]; lia|exact Hclear|].
    unfold SMALL_LENGTH in *. simpl in *. rewrite wrap_small by (unfold in_word; lia).
    split_and!; [lia|done|done|exact H3].
Qed.
End Bitmap.
