(* ===== verification/KvFtl.v ===== *)
(** * The key-value flash translation layer of the NVMe emulator (lib/nvmevirt/kv_ftl.c)

    The device side of the key-value commands: a hash table of mapping entries
    chained through [next_slot], values in a flat storage area, and the transfer
    between storage and the pages of host memory a command names.  Tables and
    memories are sparse maps: a slot that was never written is as
    [kv_init_namespace] leaves it, a byte that was never written is zero.
    Undefined are accesses outside the tables and buffers, null pointers, and
    failed [BUG_ON] assertions; so is a loop that does not end within its bound. *)
From S2P Require Import Prelude FtlAlloc.

(** ** Byte memories *)

Abbreviation memory := (gmap Z Z).

Definition mem_get (m : memory) (a : Z) : Z := default 0 (m !! a).

Definition mem_read (m : memory) (a n : Z) : bytes := (fun i => mem_get m (a + i)) <$> seqZ 0 n.

Fixpoint mem_write (m : memory) (a : Z) (l : bytes) : memory :=
  match l with
  | [] => m
  | b :: l' => <[a := b]> (mem_write m (a + 1) l')
  end.

(** A little-endian number. *)
Definition le_int (l : bytes) : Z := foldr (fun b x => b + 256 * x) 0 l.

Fixpoint le_bytes (n : nat) (x : Z) : bytes :=
  match n with O => [] | S n' => x mod 256 :: le_bytes n' (x / 256) end.

(** ** Commands *)

Definition nvme_cmd_kv_store : Z := 129.
Definition nvme_cmd_kv_append : Z := 131.
Definition nvme_cmd_kv_batch : Z := 133.
Definition nvme_cmd_kv_retrieve : Z := 144.
Definition nvme_cmd_kv_delete : Z := 161.
Definition nvme_cmd_kv_iter_req : Z := 177.
Definition nvme_cmd_kv_iter_read : Z := 178.
Definition nvme_cmd_kv_exist : Z := 179.

Definition is_kv_iter_cmd (opcode : Z) : bool :=
  (opcode =? nvme_cmd_kv_iter_req) || (opcode =? nvme_cmd_kv_iter_read).

Definition is_kv_cmd (opcode : Z) : bool :=
  (opcode =? nvme_cmd_kv_append) || (opcode =? nvme_cmd_kv_store)
  || (opcode =? nvme_cmd_kv_retrieve) || (opcode =? nvme_cmd_kv_delete)
  || (opcode =? nvme_cmd_kv_iter_req) || (opcode =? nvme_cmd_kv_iter_read)
  || (opcode =? nvme_cmd_kv_exist) || (opcode =? nvme_cmd_kv_batch).

(** [struct nvme_kv_command]: the fields the commands read; the layouts of the
    union agree on the place of opcode, key, lengths and data pointers. *)
Record nvme_kv_command := KvCmd {
  c_opcode : Z;
  c_key : bytes;          (** the 16 inline bytes *)
  c_key_len : Z;          (** length minus one, a byte *)
  c_value_len : Z;        (** in words, 32 bits *)
  c_prp1 : Z;
  c_prp2 : Z;
  c_rsvd4 : Z;            (** number of sub-commands of a batch *)
  c_iter_handle : Z;
  c_option : Z;
  c_iter_val : Z;
  c_iter_bitmask : Z
}.

Definition KV_ERR_KEY_NOT_EXIST : Z := 784.

Definition cmd_key_length (cmd : nvme_kv_command) : Z := c_key_len cmd + 1.
Definition cmd_value_length (cmd : nvme_kv_command) : Z := u32 (Z.shiftl (c_value_len cmd) 2).

Definition hash_function (key : bytes) : Z :=
  foldl (fun h b => Z.lxor (u32 (h * 16777619)) b) 2166136261 key.

(** ** Mapping entries *)

Definition NO_OFFSET : Z := 2 ^ 64 - 1.
Definition NO_SLOT : Z := 2 ^ 32 - 1.

Record mapping_entry := MapEntry {
  me_key : bytes;         (** 18 bytes *)
  me_mem_offset : Z;
  me_length : Z;
  me_next_slot : Z
}.

(** As [kv_init_namespace] leaves a slot, and as [memset(-1)] does. *)
Definition init_entry : mapping_entry := MapEntry (replicate 18 0) NO_OFFSET NO_OFFSET NO_SLOT.
Definition cleared_entry : mapping_entry := MapEntry (replicate 18 255) NO_OFFSET NO_OFFSET NO_SLOT.

Definition is_free (e : mapping_entry) : bool := me_mem_offset e =? NO_OFFSET.

(** [memcpy] over the first bytes of an array. *)
Definition overlay (l old : bytes) : bytes := l ++ drop (length l) old.

Record kv_iter_context := IterCtx {
  it_prefix : Z;
  it_bitmask : Z;
  it_buf : memory;        (** 32768 bytes *)
  it_current_pos : Z
}.

Section kv_ftl.
Context {VA : ValueAllocator}.

(** [struct kv_ftl] with the storage, and the host memory its commands name.  A
    handle that was never written is [None]. *)
Record kv_ftl := KvFtl {
  kf_table : gmap Z mapping_entry;
  kf_hash_slots : Z;
  kf_alloc : va_state;
  kf_iter_handle : list (option (option kv_iter_context));
  kf_storage : memory;
  kf_storage_size : Z;
  kf_host : memory
}.

Definition set_table (t : gmap Z mapping_entry) (s : kv_ftl) : kv_ftl :=
  KvFtl t (kf_hash_slots s) (kf_alloc s) (kf_iter_handle s) (kf_storage s) (kf_storage_size s)
    (kf_host s).
Definition set_alloc (a : va_state) (s : kv_ftl) : kv_ftl :=
  KvFtl (kf_table s) (kf_hash_slots s) a (kf_iter_handle s) (kf_storage s) (kf_storage_size s)
    (kf_host s).
Definition set_iters (l : list (option (option kv_iter_context))) (s : kv_ftl) : kv_ftl :=
  KvFtl (kf_table s) (kf_hash_slots s) (kf_alloc s) l (kf_storage s) (kf_storage_size s)
    (kf_host s).
Definition set_storage (m : memory) (s : kv_ftl) : kv_ftl :=
  KvFtl (kf_table s) (kf_hash_slots s) (kf_alloc s) (kf_iter_handle s) m (kf_storage_size s)
    (kf_host s).
Definition set_host (m : memory) (s : kv_ftl) : kv_ftl :=
  KvFtl (kf_table s) (kf_hash_slots s) (kf_alloc s) (kf_iter_handle s) (kf_storage s)
    (kf_storage_size s) m.

(** ** The mapping table *)

Definition lookup_slot (t : gmap Z mapping_entry) (i : Z) : mapping_entry :=
  default init_entry (t !! i).

Definition read_slot (i : Z) : prog kv_ftl mapping_entry := fun s =>
  if (0 <=? i) && (i <? kf_hash_slots s) then Done (lookup_slot (kf_table s) i) s else Undef.

Definition write_slot (i : Z) (e : mapping_entry) : prog kv_ftl unit := fun s =>
  if (0 <=? i) && (i <? kf_hash_slots s) then Done tt (set_table (<[i := e]> (kf_table s)) s)
  else Undef.

(** No walk visits more slots than were ever written, plus one. *)
Definition walk_fuel (s : kv_ftl) : nat := S (size (kf_table s)).

Definition get_hash_slot (key : bytes) : prog kv_ftl Z := fun s =>
  if kf_hash_slots s =? 0 then Undef else Done (u32 (hash_function key mod kf_hash_slots s)) s.

Definition chain_mapping (prev slot : Z) : prog kv_ftl unit :=
  e ← read_slot prev;
  write_slot prev (MapEntry (me_key e) (me_mem_offset e) (me_length e) slot).

(** The first loop of [find_next_slot]: the last slot in use of the chain. *)
Fixpoint find_tail (fuel : nat) (tail prevs : Z) : prog kv_ftl Z :=
  match fuel with
  | O => undefined
  | S n =>
    e ← read_slot tail;
    if is_free e then mret prevs else
    if me_next_slot e =? NO_SLOT then mret tail else find_tail n (me_next_slot e) tail
  end.

(** Its second loop: the next free slot. *)
Fixpoint find_free (fuel : nat) (ret_slot : Z) : prog kv_ftl Z :=
  match fuel with
  | O => undefined
  | S n =>
    e ← read_slot ret_slot;
    if is_free e then mret ret_slot else
    s ← get;
    let next := u32 (ret_slot + 1) in
    find_free n (if kf_hash_slots s <=? next then 0 else next)
  end.

Definition find_next_slot (original_slot : Z) : prog kv_ftl (Z * Z) :=
  s ← get;
  prevs ← find_tail (walk_fuel s) original_slot NO_SLOT;
  ret_slot ← find_free (walk_fuel s) prevs;
  mret (ret_slot, prevs).

Definition new_mapping_entry_by_key (key : bytes) (val_len val_offset : Z) : prog kv_ftl unit :=
  s ← get;
  if kf_storage_size s <=? val_offset then undefined else
  slot ← get_hash_slot key;
  e ← read_slot slot;
  sp ← (if is_free e then mret (slot, NO_SLOT) else find_next_slot slot);
  let '(slot, prev_slot) := (sp : Z * Z) in
  if 18 <? Z.of_nat (length key) then undefined else
  e ← read_slot slot;
  _ ← write_slot slot (MapEntry (overlay key (me_key e)) val_offset val_len (me_next_slot e));
  if prev_slot =? NO_SLOT then mret tt else chain_mapping prev_slot slot.

(** The key of a command; reading past the inline bytes is undefined. *)
Definition cmd_key (cmd : nvme_kv_command) : prog kv_ftl bytes :=
  if cmd_key_length cmd <=? Z.of_nat (length (c_key cmd))
  then mret (take (Z.to_nat (cmd_key_length cmd)) (c_key cmd)) else undefined.

Definition new_mapping_entry (cmd : nvme_kv_command) (val_offset : Z) : prog kv_ftl unit :=
  key ← cmd_key cmd; new_mapping_entry_by_key key (cmd_value_length cmd) val_offset.

(** The search loop of [get_], [update_] and [delete_mapping_entry]: the slot of
    the chain whose first bytes are those of the key. *)
Fixpoint find_entry (fuel : nat) (key : bytes) (slot : Z) : prog kv_ftl (option Z) :=
  match fuel with
  | O => undefined
  | S n =>
    e ← read_slot slot;
    if is_free e then mret None else
    if 18 <? Z.of_nat (length key) then undefined else
    if bool_decide (take (length key) (me_key e) = key) then mret (Some slot) else
    if me_next_slot e =? NO_SLOT then mret None else find_entry n key (me_next_slot e)
  end.

Definition search (key : bytes) : prog kv_ftl (option Z) :=
  slot ← get_hash_slot key; s ← get; find_entry (walk_fuel s) key slot.

Definition get_mapping_entry_by_key (key : bytes) : prog kv_ftl mapping_entry :=
  found ← search key;
  match found with
  | None => mret cleared_entry
  | Some slot =>
    e ← read_slot slot;
    mret (MapEntry (overlay (take (length key) (me_key e)) (me_key cleared_entry))
            (me_mem_offset e) (me_length e) (me_next_slot e))
  end.

Definition get_mapping_entry (cmd : nvme_kv_command) : prog kv_ftl mapping_entry :=
  key ← cmd_key cmd; get_mapping_entry_by_key key.

Definition update_mapping_entry (cmd : nvme_kv_command) : prog kv_ftl Z :=
  key ← cmd_key cmd;
  found ← search key;
  match found with
  | None => mret 1
  | Some slot =>
    e ← read_slot slot;
    _ ← write_slot slot (MapEntry (me_key e) (me_mem_offset e) (cmd_value_length cmd)
                           (me_next_slot e));
    mret 0
  end.

(** The entry it returns is never read. *)
Definition delete_mapping_entry (cmd : nvme_kv_command) : prog kv_ftl unit :=
  key ← cmd_key cmd;
  found ← search key;
  match found with
  | None => mret tt
  | Some slot => write_slot slot cleared_entry
  end.

Definition allocate_mem_offset_by_length (val_len : Z) : prog kv_ftl Z :=
  offset ← zoom kf_alloc set_alloc (va_allocate val_len);
  if offset =? NO_OFFSET then mret 0 else mret offset.

Definition allocate_mem_offset (cmd : nvme_kv_command) : prog kv_ftl Z :=
  if c_opcode cmd =? nvme_cmd_kv_store
  then allocate_mem_offset_by_length (cmd_value_length cmd) else mret 0.

(** ** Host pages *)

Definition PAGE_SIZE : Z := 4096.

(** Where a transfer is in the pages of its command: [paddr_list] is the address
    of the list of pages, once it is mapped. *)
Record prp_state := Prp { prp_offs : Z; prp2_offs : Z; paddr_list : option Z }.
Definition prp_start : prp_state := Prp 0 0 None.

(** [paddr_list[i]]; only the page of the list is mapped. *)
Definition read_prp (host : memory) (list i : Z) : option Z :=
  if PAGE_SIZE <? list mod PAGE_SIZE + 8 * (i + 1) then None
  else Some (le_int (mem_read host (list + 8 * i) 8)).

(** One turn of the transfer loops: the address in host memory and the number of
    bytes to move there. *)
Definition prp_next (host : memory) (cmd : nvme_kv_command) (remaining : Z) (ps : prp_state)
    : option (Z * Z * prp_state) :=
  let offs := prp_offs ps + 1 in
  '(paddr, ps') ←
    (if offs =? 1 then Some (c_prp1 cmd, Prp offs (prp2_offs ps) (paddr_list ps))
     else if offs =? 2 then
       if PAGE_SIZE <? remaining then
         x ← read_prp host (c_prp2 cmd) (prp2_offs ps);
         Some (x, Prp offs (prp2_offs ps + 1) (Some (c_prp2 cmd)))
       else Some (c_prp2 cmd, Prp offs (prp2_offs ps) (paddr_list ps))
     else
       l ← paddr_list ps;
       x ← read_prp host l (prp2_offs ps);
       Some (x, Prp offs (prp2_offs ps + 1) (Some l)));
  let io_size := Z.min remaining PAGE_SIZE in
  let mem_offs := paddr mod PAGE_SIZE in
  let io_size := if negb (mem_offs =? 0) && (PAGE_SIZE <? io_size + mem_offs)
                 then PAGE_SIZE - mem_offs else io_size in
  Some (paddr, io_size, ps').

(** A turn takes at least one byte, so the bytes to move bound the turns. *)
Definition prp_fuel (remaining : Z) : nat := S (Z.to_nat remaining).

Definition next_page (cmd : nvme_kv_command) (remaining : Z) (ps : prp_state)
    : prog kv_ftl (Z * Z * prp_state) := fun s =>
  match prp_next (kf_host s) cmd remaining ps with Some x => Done x s | None => Undef end.

(** [memcpy] from and to [nvmev_vdev->storage_mapped + offset]. *)
Definition storage_read (offset n : Z) : prog kv_ftl bytes := fun s =>
  if (0 <=? offset) && (offset + n <=? kf_storage_size s)
  then Done (mem_read (kf_storage s) offset n) s else Undef.

Definition storage_write (offset : Z) (l : bytes) : prog kv_ftl unit := fun s =>
  if (0 <=? offset) && (offset + Z.of_nat (length l) <=? kf_storage_size s)
  then Done tt (set_storage (mem_write (kf_storage s) offset l) s) else Undef.

Definition host_read (a n : Z) : prog kv_ftl bytes := fun s =>
  Done (mem_read (kf_host s) a n) s.

Definition host_write (a : Z) (l : bytes) : prog kv_ftl unit :=
  modify (fun s => set_host (mem_write (kf_host s) a l) s).

(** The transfer loop of [__do_perform_kv_io]. *)
Fixpoint kv_io_loop (fuel : nat) (cmd : nvme_kv_command) (remaining offset : Z) (ps : prp_state)
    : prog kv_ftl unit :=
  if remaining =? 0 then mret tt else
  match fuel with
  | O => undefined
  | S n =>
    x ← next_page cmd remaining ps;
    let '(paddr, io_size, ps') := (x : Z * Z * prp_state) in
    _ ← (if c_opcode cmd =? nvme_cmd_kv_store then
           l ← host_read paddr io_size; storage_write offset l
         else if c_opcode cmd =? nvme_cmd_kv_retrieve then
           l ← storage_read offset io_size; host_write paddr l
         else mret tt);
    kv_io_loop n cmd (remaining - io_size) (offset + io_size) ps'
  end.

(** ** Key-value commands *)

Definition SMALL_LENGTH : Z := Bitmap.SMALL_LENGTH.

Inductive insert_kind : Set := NoInsert | IsInsert | IsResize.

(** What a store does with an entry it found: [is_insert]. *)
Definition store_kind (length : Z) (entry : mapping_entry) : insert_kind :=
  if length =? me_length entry then NoInsert
  else if (length <=? SMALL_LENGTH) && (me_length entry <=? SMALL_LENGTH) then IsResize
  else NoInsert.

(** The result is the returned number and what was written to [*status]. *)
Definition do_perform_kv_io (cmd : nvme_kv_command) : prog kv_ftl (Z * option Z) :=
  entry ← get_mapping_entry cmd;
  let offset := me_mem_offset entry in
  let length := cmd_value_length cmd in
  if c_opcode cmd =? nvme_cmd_kv_store then
    if is_free entry then
      new_offset ← allocate_mem_offset cmd;
      _ ← kv_io_loop (prp_fuel length) cmd length new_offset prp_start;
      _ ← new_mapping_entry cmd new_offset;
      mret (0, None)
    else
      _ ← kv_io_loop (prp_fuel length) cmd length offset prp_start;
      match store_kind length entry with
      | IsResize => _ ← update_mapping_entry cmd; mret (0, None)
      | _ => mret (0, None)
      end
  else if c_opcode cmd =? nvme_cmd_kv_retrieve then
    if is_free entry then mret (0, Some KV_ERR_KEY_NOT_EXIST)
    else
      let length := Z.min (me_length entry) length in
      _ ← kv_io_loop (prp_fuel length) cmd length offset prp_start;
      mret (length, None)
  else if c_opcode cmd =? nvme_cmd_kv_exist then
    if is_free entry then mret (0, Some KV_ERR_KEY_NOT_EXIST) else mret (0, None)
  else if c_opcode cmd =? nvme_cmd_kv_delete then
    if is_free entry then mret (0, Some KV_ERR_KEY_NOT_EXIST)
    else _ ← delete_mapping_entry cmd; mret (0, None)
  else mret (0, None).

(** ** Batches *)

Definition ALIGN_LEN : Z := 64.
Definition MAX_SUB_CMD : Z := 8.

(** One sub-command: only stores are carried out, and an update never changes the
    recorded length. *)
Definition do_perform_kv_batched_io (opcode : Z) (key value : bytes) : prog kv_ftl unit :=
  entry ← get_mapping_entry_by_key key;
  let val_len := Z.of_nat (length value) in
  if negb (opcode =? nvme_cmd_kv_store) then mret tt else
  if is_free entry then
    new_offset ← allocate_mem_offset_by_length val_len;
    _ ← storage_write new_offset value;
    new_mapping_entry_by_key key val_len new_offset
  else storage_write (me_mem_offset entry) value.

(** The first loop of [__do_perform_kv_batch]: the pages of the payload. *)
Fixpoint gather_loop (fuel : nat) (cmd : nvme_kv_command) (remaining : Z) (ps : prp_state)
    : prog kv_ftl bytes :=
  if remaining =? 0 then mret [] else
  match fuel with
  | O => undefined
  | S n =>
    x ← next_page cmd remaining ps;
    let '(paddr, io_size, ps') := (x : Z * Z * prp_state) in
    l ← host_read paddr io_size;
    rest ← gather_loop n cmd (remaining - io_size) ps';
    mret (l ++ rest)
  end.

(** Bytes of the payload buffer; reading past it is undefined. *)
Definition sub_bytes (buffer : bytes) (off n : Z) : prog kv_ftl bytes :=
  if (0 <=? off) && (0 <=? n) && (off + n <=? Z.of_nat (length buffer))
  then mret (take (Z.to_nat n) (drop (Z.to_nat off) buffer)) else undefined.

(** [((len - 1) / ALIGN_LEN + 1) * ALIGN_LEN], with C's division. *)
Definition align_len (len : Z) : Z := (Z.quot (len - 1) ALIGN_LEN + 1) * ALIGN_LEN.

(** The second loop, from sub-command [i], [n] to go.  The header of the payload is
    8 attributes of 16 bytes in 512 bytes; keys are copied to an array of 20 bytes,
    values to one of 4097. *)
Fixpoint batch_loop (n : nat) (i payload_offset : Z) (buffer : bytes) : prog kv_ftl unit :=
  match n with
  | O => mret tt
  | S n' =>
    if MAX_SUB_CMD <=? i then undefined else
    attr ← sub_bytes buffer (16 * i) 16;
    let opcode := le_int (take 1 attr) in
    let key_len := le_int (take 1 (drop 1 attr)) in
    let val_len := le_int (take 4 (drop 4 attr)) in
    if (20 <? key_len) || (4097 <? val_len) then undefined else
    key ← sub_bytes buffer (512 + payload_offset) key_len;
    value ← sub_bytes buffer (512 + payload_offset + align_len key_len) val_len;
    _ ← do_perform_kv_batched_io opcode key value;
    batch_loop n' (i + 1) (payload_offset + (align_len key_len + align_len val_len + ALIGN_LEN))
      buffer
  end.

Definition do_perform_kv_batch (cmd : nvme_kv_command) : prog kv_ftl (Z * option Z) :=
  let length := cmd_value_length cmd in
  buffer ← gather_loop (prp_fuel length) cmd length prp_start;
  _ ← batch_loop (Z.to_nat (c_rsvd4 cmd)) 0 ALIGN_LEN buffer;
  mret (0, None).

(** ** Iterators *)

Definition ITER_OPTION_OPEN : Z := 1.
Definition ITER_OPTION_CLOSE : Z := 2.

(** [kv_ftl->iter_handle[i]]: reading a handle never written is undefined. *)
Definition read_handle (i : Z) : prog kv_ftl (option kv_iter_context) := fun s =>
  match arr_get (kf_iter_handle s) i with Some h => Done h s | None => Undef end.

Definition write_handle (i : Z) (h : option kv_iter_context) : prog kv_ftl unit :=
  s ← get;
  l ← arr_write (kf_iter_handle s) i h;
  put (set_iters l s).

(** The first unused handle from [i] on, [n] to try. *)
Fixpoint free_handle (n : nat) (i : Z) : prog kv_ftl (option Z) :=
  match n with
  | O => mret None
  | S n' =>
    h ← read_handle i;
    match h with None => mret (Some i) | Some _ => free_handle n' (i + 1) end
  end.

(** Memory for a context is taken to be there. *)
Definition kv_iter_open (cmd : nvme_kv_command) : prog kv_ftl (Z * option Z) :=
  found ← free_handle 16 1;
  match found with
  | None => mret (1, None)
  | Some iter =>
    _ ← write_handle iter (Some (IterCtx (c_iter_val cmd) (c_iter_bitmask cmd) ∅ 0));
    mret (iter, Some 0)
  end.

Definition kv_iter_close (cmd : nvme_kv_command) : prog kv_ftl (Z * option Z) :=
  let iter := c_iter_handle cmd in
  h ← read_handle iter;
  match h with
  | None => mret (0, Some 0)
  | Some _ => _ ← write_handle iter None; mret (0, Some 0)
  end.

Definition iter_keylen : Z := 16.

(** Whether the iterator reports the entry of a slot. *)
Definition iter_match (h : kv_iter_context) (e : mapping_entry) : bool :=
  negb (is_free e) &&
  (Z.land (le_int (take 4 (me_key e))) (it_bitmask h)
   =? Z.land (it_prefix h) (it_bitmask h)).

(** The scan of [kv_iter_read] from slot [pos], [n] slots to go: the next position,
    the end of the buffer, the number of keys, the buffer, and whether the end of
    the table was reached. *)
Fixpoint iter_scan (n : nat) (t : gmap Z mapping_entry) (h : kv_iter_context)
    (pos buf_offset nr_keys : Z) (buf : memory) : Z * Z * Z * memory * bool :=
  match n with
  | O => (pos, buf_offset, nr_keys, buf, false)
  | S n' =>
    let e := lookup_slot t pos in
    if iter_match h e && (1024 <? buf_offset + 4 + iter_keylen)
    then (pos, buf_offset, nr_keys, buf, false)
    else
    let '(off', nr', buf') :=
      if iter_match h e then
        (buf_offset + 4 + Z.land (iter_keylen + 3) (-4), nr_keys + 1,
         mem_write (mem_write buf buf_offset (le_bytes 4 iter_keylen)) (buf_offset + 4)
           (take (Z.to_nat iter_keylen) (me_key e)))
      else (buf_offset, nr_keys, buf) in
    match n' with
    | O => (pos + 1, off', nr', buf', true)
    | _ => iter_scan n' t h (pos + 1) off' nr' buf'
    end
  end.

(** The transfer of the buffer to the pages of the command. *)
Fixpoint scatter_loop (fuel : nat) (cmd : nvme_kv_command) (buf : memory) (remaining offset : Z)
    (ps : prp_state) : prog kv_ftl unit :=
  if remaining =? 0 then mret tt else
  match fuel with
  | O => undefined
  | S n =>
    x ← next_page cmd remaining ps;
    let '(paddr, io_size, ps') := (x : Z * Z * prp_state) in
    _ ← host_write paddr (mem_read buf offset io_size);
    scatter_loop n cmd buf (remaining - io_size) (offset + io_size) ps'
  end.

Definition kv_iter_read (cmd : nvme_kv_command) : prog kv_ftl (Z * option Z) :=
  let iter := c_iter_handle cmd in
  handle ← read_handle iter;
  match handle with
  | None => mret (0, None)
  | Some h =>
    s ← get;
    let '(pos, buf_offset, nr_keys, buf, fin) :=
      iter_scan (Z.to_nat (kf_hash_slots s - it_current_pos h)) (kf_table s) h
        (it_current_pos h) 4 0 (it_buf h) in
    let buf := mem_write buf 0 (le_bytes 4 nr_keys) in
    _ ← write_handle iter (Some (IterCtx (it_prefix h) (it_bitmask h) buf pos));
    _ ← scatter_loop (prp_fuel buf_offset) cmd buf buf_offset 0 prp_start;
    mret (buf_offset, Some (if (fin : bool) then 915 else 0))
  end.

Definition do_perform_kv_iter_io (cmd : nvme_kv_command) : prog kv_ftl (Z * option Z) :=
  if c_opcode cmd =? nvme_cmd_kv_iter_req then
    if negb (Z.land (c_option cmd) ITER_OPTION_OPEN =? 0) then kv_iter_open cmd
    else if negb (Z.land (c_option cmd) ITER_OPTION_CLOSE =? 0) then kv_iter_close cmd
    else mret (0, None)
  else if c_opcode cmd =? nvme_cmd_kv_iter_read then kv_iter_read cmd
  else mret (0, None).

(** ** The namespace *)

Definition kv_perform_nvme_io_cmd (cmd : nvme_kv_command) : prog kv_ftl (Z * option Z) :=
  if c_opcode cmd =? nvme_cmd_kv_batch then do_perform_kv_batch cmd
  else if is_kv_iter_cmd (c_opcode cmd) then do_perform_kv_iter_io cmd
  else do_perform_kv_io cmd.

Definition KV_MAPPING_TABLE_SIZE : Z := 2 ^ 30.
Definition KV_MAPPING_ENTRY_SIZE : Z := 48.

(** A new namespace; [a0] are the static variables of the allocator.  Of the 17
    iterator handles the last is not initialised. *)
Definition kv_init_namespace (storage_size : Z) (a0 : va_state) (storage host : memory)
    : outcome va_state kv_ftl :=
  match va_init storage_size a0 with
  | Done _ a => Done (KvFtl ∅ (KV_MAPPING_TABLE_SIZE / KV_MAPPING_ENTRY_SIZE) a
                        (replicate 16 (Some None) ++ [None]) storage storage_size host) a
  | Undef => Undef
  | Exit a => Exit a
  end.
End kv_ftl.
