(* ===== verification/KvFtlSpec.v ===== *)
(** * The KV flash translation layer: memories, chains and transfers

    What the loops of kv_ftl.c do: walks along the chains of the mapping table,
    the search for a free slot, and the transfers between storage and host pages. *)
From S2P Require Import Prelude FtlAlloc KvFtl.

(** ** Byte memories *)

Definition in_range (r : Z * Z) (a : Z) : Prop := r.1 <= a < r.1 + r.2.

#[global] Instance in_range_dec r a : Decision (in_range r a).
Proof. unfold in_range. apply _. Defined.

Lemma mem_get_write m a l x :
  mem_get (mem_write m a l) x =
  if decide (in_range (a, Z.of_nat (length l)) x) then l !!! Z.to_nat (x - a) else mem_get m x.
Proof.
  unfold in_range. simpl. revert a. induction l as [|b l IH]; intros a; simpl.
  - rewrite decide_False by lia. done.
  - unfold mem_get in *. destruct (decide (x = a)) as [->|Hne].
    + rewrite lookup_insert_eq, decide_True by lia. by rewrite Z.sub_diag.
    + rewrite lookup_insert_ne by done. rewrite IH. repeat case_decide; try lia; try done.
      replace (Z.to_nat (x - a)) with (S (Z.to_nat (x - (a + 1)))) by lia. done.
Qed.

Lemma length_mem_read m a n : 0 <= n -> Z.of_nat (length (mem_read m a n)) = n.
Proof. intros. unfold mem_read. rewrite length_fmap, length_seqZ. lia. Qed.

Lemma lookup_mem_read m a n i :
  mem_read m a n !! i = if decide (Z.of_nat i < n) then Some (mem_get m (a + Z.of_nat i)) else None.
Proof.
  unfold mem_read. rewrite list_lookup_fmap. case_decide.
  - by rewrite lookup_seqZ_lt by lia.
  - by rewrite lookup_seqZ_ge by lia.
Qed.

Lemma mem_read_ext m m' a n :
  (forall x, a <= x < a + n -> mem_get m' x = mem_get m x) -> mem_read m' a n = mem_read m a n.
Proof.
  intros H. apply list_eq. intros i. rewrite !lookup_mem_read. case_decide; [|done].
  by rewrite H by lia.
Qed.

Lemma mem_read_write m a l : mem_read (mem_write m a l) a (Z.of_nat (length l)) = l.
Proof.
  apply list_eq. intros i. rewrite lookup_mem_read. case_decide as Hi.
  - rewrite mem_get_write, decide_True by (unfold in_range; simpl; lia).
    replace (Z.to_nat (a + Z.of_nat i - a)) with i by lia.
    symmetry. apply list_lookup_lookup_total_lt. lia.
  - symmetry. apply lookup_ge_None. lia.
Qed.

Lemma mem_read_write_apart m a l b n :
  apart (a, Z.of_nat (length l)) (b, n) -> mem_read (mem_write m a l) b n = mem_read m b n.
Proof.
  intros H. apply mem_read_ext. intros x Hx. rewrite mem_get_write, decide_False; [done|].
  unfold in_range, apart in *. simpl in *. lia.
Qed.

Lemma le_int_le_bytes_mod k x : le_int (le_bytes k x) = x mod 256 ^ Z.of_nat k.
Proof.
  revert x. induction k as [|k IH]; intros x; simpl; [by rewrite Z.mod_1_r|].
  change (foldr (fun b x0 => b + 256 * x0) 0 (le_bytes k (x / 256))) with (le_int (le_bytes k (x / 256))).
  rewrite IH, Nat2Z.inj_succ, Z.pow_succ_r by lia. symmetry. apply Z.rem_mul_r; lia.
Qed.

Lemma le_int_le_bytes k x : 0 <= x < 256 ^ Z.of_nat k -> le_int (le_bytes k x) = x.
Proof. intros Hx. rewrite le_int_le_bytes_mod. by apply Z.mod_small. Qed.

Lemma length_le_bytes k x : length (le_bytes k x) = k.
Proof. revert x. induction k as [|k IH]; intros x; simpl; [done|]. by rewrite IH. Qed.

Lemma mem_read_app m a n k :
  0 <= n -> 0 <= k -> mem_read m a (n + k) = mem_read m a n ++ mem_read m (a + n) k.
Proof.
  intros Hn Hk. unfold mem_read. rewrite seqZ_app, fmap_app by done. f_equal.
  replace (0 + n) with (n + 0) by lia. rewrite <- (fmap_add_seqZ n 0 k) by done.
  rewrite <- list_fmap_compose. apply list_fmap_ext. intros i x _. simpl. f_equal. lia.
Qed.

Lemma take_mem_read m a n k : 0 <= k <= n -> take (Z.to_nat k) (mem_read m a n) = mem_read m a k.
Proof.
  intros. replace n with (k + (n - k)) by lia. rewrite mem_read_app by lia.
  apply take_app_length'. pose proof (length_mem_read m a k). lia.
Qed.

Lemma mem_write_app m a l l' :
  mem_write (mem_write m a l) (a + Z.of_nat (length l)) l' = mem_write m a (l ++ l').
Proof.
  revert a m. induction l as [|b l IH]; intros a m; simpl.
  - by rewrite Z.add_0_r.
  - rewrite <- IH. replace (a + Z.of_nat (S (length l))) with (a + 1 + Z.of_nat (length l)) by lia.
    generalize (mem_write m (a + 1) l) as m0. clear IH. intros m0.
    assert (a < a + 1 + Z.of_nat (length l)) as Hlt by lia. revert Hlt.
    generalize (a + 1 + Z.of_nat (length l)) as c. revert m0.
    induction l' as [|b' l' IH]; intros m0 c Hc; simpl; [done|].
    rewrite IH by lia. rewrite insert_insert_ne by lia. done.
Qed.

(** ** Chains of the mapping table *)

Section chains.
Implicit Types (t : gmap Z mapping_entry) (e : mapping_entry).

Abbreviation used t i := (is_free (lookup_slot t i) = false).
Abbreviation next_of t i := (me_next_slot (lookup_slot t i)).

(** [chain t i l]: the walk from [i] visits the slots [l].  The slot number
    [NO_SLOT] is outside every table and so reads as free. *)
Inductive chain t : Z -> list Z -> Prop :=
| chain_stop i : is_free (lookup_slot t i) = true -> chain t i []
| chain_step i l : used t i -> chain t (next_of t i) l -> chain t i (i :: l).

Lemma chain_det t i l l' : chain t i l -> chain t i l' -> l = l'.
Proof.
  intros H. revert l'. induction H; intros l' H'; inversion H'; subst; try congruence.
  f_equal. auto.
Qed.

Lemma chain_used t i l j : chain t i l -> j ∈ l -> used t j.
Proof. induction 1; rewrite ?elem_of_cons; [set_solver|]. intros [-> |?]; auto. Qed.

(** Everything from a visited slot on is visited. *)
Lemma chain_suffix t i l j : chain t i l -> j ∈ l -> exists l1 l2, l = l1 ++ l2 /\ chain t j l2 /\ l2 <> [].
Proof.
  induction 1 as [|i l Hu Hc IH]; [set_solver|]. rewrite elem_of_cons. intros [-> |Hj].
  - exists [], (i :: l). split_and!; [done|by constructor|done].
  - destruct (IH Hj) as (l1 & l2 & -> & ? & ?). by exists (i :: l1), l2.
Qed.

Lemma chain_NoDup t i l : chain t i l -> NoDup l.
Proof.
  induction 1 as [|i l Hu Hc IH]; constructor; [|done]. intros Hi.
  destruct (chain_suffix _ _ _ _ Hc Hi) as (l1 & l2 & -> & Hc2 & _).
  assert (E : l2 = i :: l1 ++ l2) by (eapply chain_det; [exact Hc2|by constructor]).
  apply (f_equal length) in E. simpl in E. rewrite length_app in E. lia.
Qed.

Lemma chain_closed t i l j : chain t i l -> j ∈ l -> used t (next_of t j) -> next_of t j ∈ l.
Proof.
  intros Hc Hj Hn. destruct (chain_suffix _ _ _ _ Hc Hj) as (l1 & l2 & -> & Hc2 & Hne).
  inversion Hc2 as [|? l3 ? Hc3]; subst; [done|]. inversion Hc3; subst; [congruence|].
  set_solver.
Qed.

Lemma used_in_dom t i : used t i -> i ∈ dom t.
Proof.
  unfold lookup_slot. rewrite elem_of_dom. destruct (t !! i); [by eauto|]. done.
Qed.

Lemma used_size t l : NoDup l -> (forall j, j ∈ l -> used t j) -> (length l <= size t)%nat.
Proof.
  intros Hnd Hu. rewrite <- size_dom, <- (size_list_to_set (C := gset Z)) by done.
  apply subseteq_size. intros j Hj. apply used_in_dom, Hu. set_solver.
Qed.

Lemma chain_size t i l : chain t i l -> (length l <= size t)%nat.
Proof. intros Hc. eapply used_size; [by eapply chain_NoDup|]. intros j. by eapply chain_used. Qed.

Lemma lookup_slot_insert t i e j :
  lookup_slot (<[i := e]> t) j = if decide (j = i) then e else lookup_slot t j.
Proof.
  unfold lookup_slot. case_decide; subst; [by rewrite lookup_insert_eq|by rewrite lookup_insert_ne].
Qed.

(** Chains only depend on which slots are used and where they lead. *)
Lemma chain_ext t t' i l :
  (forall j, is_free (lookup_slot t' j) = is_free (lookup_slot t j)) ->
  (forall j, used t j -> next_of t' j = next_of t j \/
     is_free (lookup_slot t (next_of t' j)) = true /\ is_free (lookup_slot t (next_of t j)) = true) ->
  chain t i l -> chain t' i l.
Proof.
  intros Hf Hn. induction 1 as [i Hi|i l Hu Hc IH]; [constructor; by rewrite Hf|].
  constructor; [by rewrite Hf|]. destruct (Hn i Hu) as [-> |[H1 H2]]; [done|].
  inversion Hc; subst; [|congruence]. constructor. by rewrite Hf.
Qed.

(** Filling a free slot extends the chains that stopped there. *)
Lemma chain_fill t s e i l :
  is_free (lookup_slot t s) = true -> is_free e = false ->
  is_free (lookup_slot t (me_next_slot e)) = true -> me_next_slot e <> s ->
  chain t i l -> exists l', chain (<[s := e]> t) i l' /\ l ⊆ l'.
Proof.
  intros Hs He Hn Hne.
  assert (Hself : chain (<[s := e]> t) s [s]).
  { constructor; rewrite lookup_slot_insert, decide_True by done; [done|].
    constructor. by rewrite lookup_slot_insert, decide_False by done. }
  induction 1 as [i Hi|i l Hu Hc IH].
  - destruct (decide (i = s)) as [-> |]; [exists [s]; split; [done|set_solver]|].
    exists []. split; [|done]. constructor. by rewrite lookup_slot_insert, decide_False.
  - destruct IH as (l' & Hc' & Hsub). assert (i <> s) by (intros ->; congruence).
    exists (i :: l'). split; [|set_solver].
    constructor; rewrite lookup_slot_insert, decide_False by done; done.
Qed.

(** Clearing the last slot of a chain shortens the chains through it. *)
Lemma chain_clear t s e i l :
  used t s -> is_free (lookup_slot t (next_of t s)) = true -> is_free e = true ->
  chain t i l -> exists l', chain (<[s := e]> t) i l' /\ forall j, j ∈ l -> j <> s -> j ∈ l'.
Proof.
  intros Hs Hn He. induction 1 as [i Hi|i l Hu Hc IH].
  - exists []. split; [|set_solver]. constructor. rewrite lookup_slot_insert. by case_decide.
  - destruct (decide (i = s)) as [-> |].
    + exists []. split; [constructor; by rewrite lookup_slot_insert, decide_True|].
      inversion Hc; subst; [set_solver|congruence].
    + destruct IH as (l' & Hc' & Hsub). exists (i :: l'). split.
      * constructor; rewrite lookup_slot_insert, decide_False by done; done.
      * intros j. rewrite !elem_of_cons. naive_solver.
Qed.
End chains.

(** ** The mapping table *)

Section table.
Context {VA : ValueAllocator}.
Implicit Types (t : gmap Z mapping_entry) (e : mapping_entry) (s : kv_ftl).

Abbreviation used t i := (is_free (lookup_slot t i) = false).
Abbreviation next_of t i := (me_next_slot (lookup_slot t i)).

(** A table of [n] slots whose chains all end. *)
Record table_wf (n : Z) t : Prop := TableWf {
  wf_size : 0 < n <= 2 ^ 31;
  wf_dom : forall i, i ∈ dom t -> 0 <= i < n;
  wf_key : forall i, length (me_key (lookup_slot t i)) = 18%nat;
  wf_next : forall i, used t i -> next_of t i = NO_SLOT \/ 0 <= next_of t i < n;
  wf_free : forall i, is_free (lookup_slot t i) = true -> next_of t i = NO_SLOT;
  wf_chain : forall i, exists l, chain t i l
}.

Lemma used_range n t i : table_wf n t -> used t i -> 0 <= i < n.
Proof. intros W Hu. by apply (wf_dom n t W), used_in_dom. Qed.

Lemma no_slot_free n t : table_wf n t -> is_free (lookup_slot t NO_SLOT) = true.
Proof.
  intros W. apply not_false_is_true. intros Hu. apply (used_range n) in Hu; [|done].
  pose proof (wf_size n t W). unfold NO_SLOT in *. lia.
Qed.

Lemma wp_read_slot X i (Q : mapping_entry -> kv_ftl -> Prop) s :
  0 <= i < kf_hash_slots s -> Q (lookup_slot (kf_table s) i) s -> wp X (read_slot i) Q s.
Proof.
  intros Hi HQ. unfold wp, read_slot. replace ((0 <=? i) && (i <? kf_hash_slots s)) with true by lia. done.
Qed.

Lemma wp_write_slot X i e (Q : unit -> kv_ftl -> Prop) s :
  0 <= i < kf_hash_slots s -> Q tt (set_table (<[i := e]> (kf_table s)) s) -> wp X (write_slot i e) Q s.
Proof.
  intros Hi HQ. unfold wp, write_slot.
  replace ((0 <=? i) && (i <? kf_hash_slots s)) with true by lia. done.
Qed.

Lemma home_range key n : 0 < n <= 2 ^ 31 -> 0 <= u32 (hash_function key mod n) < n.
Proof.
  intros Hn. pose proof (Z.mod_pos_bound (hash_function key) n). rewrite wrap_small; [lia|].
  unfold in_word. lia.
Qed.

Definition home (n : Z) (key : bytes) : Z := u32 (hash_function key mod n).

Lemma wp_get_hash_slot X key (Q : Z -> kv_ftl -> Prop) s :
  0 < kf_hash_slots s -> Q (home (kf_hash_slots s) key) s -> wp X (get_hash_slot key) Q s.
Proof.
  intros Hn HQ. unfold wp, get_hash_slot. by replace (kf_hash_slots s =? 0) with false by lia.
Qed.

(** The first loop of [find_next_slot] ends at the last slot of the chain. *)
Lemma wp_find_tail X fuel i l prevs (Q : Z -> kv_ftl -> Prop) s :
  table_wf (kf_hash_slots s) (kf_table s) -> 0 <= i < kf_hash_slots s ->
  chain (kf_table s) i l -> (length l < fuel)%nat ->
  Q (default prevs (last l)) s -> wp X (find_tail fuel i prevs) Q s.
Proof.
  intros W Hi Hc. revert fuel prevs Hi. induction Hc as [i Hf|i l Hu Hc IH];
    intros fuel prevs Hi Hfuel HQ; (destruct fuel as [|fuel]; [simpl in *; lia|]); simpl;
    apply wp_bind, wp_read_slot; try done.
  - by rewrite Hf.
  - rewrite Hu. case_if E; bool_to_prop.
    + rewrite E in Hc. pose proof (no_slot_free _ _ W) as Hno. inversion Hc; subst; [done|congruence].
    + destruct (wf_next _ _ W i Hu) as [|Hr]; [congruence|]. apply IH; [done|simpl in *; lia|].
      rewrite last_cons in HQ. destruct (last l); done.
Qed.

(** The searches: the first slot of the chain that matches. *)
Definition key_matches (key : bytes) e : bool := bool_decide (take (length key) (me_key e) = key).

Lemma wp_find_entry X fuel key i l (Q : option Z -> kv_ftl -> Prop) s :
  table_wf (kf_hash_slots s) (kf_table s) -> 0 <= i < kf_hash_slots s ->
  (length key <= 18)%nat -> chain (kf_table s) i l -> (length l < fuel)%nat ->
  Q (List.find (fun j => key_matches key (lookup_slot (kf_table s) j)) l) s ->
  wp X (find_entry fuel key i) Q s.
Proof.
  intros W Hi Hk Hc. revert fuel Hi. induction Hc as [i Hf|i l Hu Hc IH];
    intros fuel Hi Hfuel HQ; (destruct fuel as [|fuel]; [simpl in *; lia|]); simpl;
    apply wp_bind, wp_read_slot; try done.
  - by rewrite Hf.
  - rewrite Hu. replace (18 <? Z.of_nat (length key)) with false by lia.
    simpl in HQ. unfold key_matches at 1 in HQ. case_bool_decide as Hm; [done|].
    case_if E; bool_to_prop.
    + rewrite E in Hc. pose proof (no_slot_free _ _ W) as Hno. inversion Hc; subst; [done|congruence].
    + destruct (wf_next _ _ W i Hu) as [|Hr]; [congruence|]. apply IH; [done|simpl in *; lia|done].
Qed.

(** The [k]-th slot after [start], around the table. *)
Definition slot_after (n start : Z) (k : nat) : Z := (start + Z.of_nat k) mod n.

Lemma slot_after_inj n start j k :
  0 < n -> Z.of_nat j < n -> Z.of_nat k < n -> slot_after n start j = slot_after n start k -> j = k.
Proof.
  unfold slot_after. intros Hn Hj Hk E.
  assert (H : (Z.of_nat j - Z.of_nat k) mod n = 0).
  { replace (Z.of_nat j - Z.of_nat k) with ((start + Z.of_nat j) - (start + Z.of_nat k)) by lia.
    rewrite Zminus_mod, E, Z.sub_diag. by apply Z.mod_0_l; lia. }
  apply Z.mod_divide in H as [q Hq]; [|lia]. assert (q = 0) by nia. subst q. lia.
Qed.

Lemma slots_visited t n start (k : nat) :
  0 < n -> Z.of_nat k <= n -> (forall j, (j < k)%nat -> used t (slot_after n start j)) ->
  (k <= size t)%nat.
Proof.
  intros Hn Hk Hu. pose proof (used_size t (slot_after n start <$> seq 0 k)) as H.
  rewrite length_fmap, length_seq in H. apply H.
  - apply NoDup_fmap_2_strong; [|apply NoDup_seq].
    intros i j Hi%elem_of_seq Hj%elem_of_seq E. eapply slot_after_inj; [done| | |done]; lia.
  - intros j (i & -> & Hi%elem_of_seq)%list_elem_of_fmap. apply Hu. lia.
Qed.

(** The second loop of [find_next_slot] finds a free slot if there is one. *)
Lemma wp_find_free X fuel k k0 start (Q : Z -> kv_ftl -> Prop) s :
  table_wf (kf_hash_slots s) (kf_table s) ->
  (forall j, (j < k)%nat -> used (kf_table s) (slot_after (kf_hash_slots s) start j)) ->
  (k <= k0)%nat -> Z.of_nat k0 < kf_hash_slots s ->
  is_free (lookup_slot (kf_table s) (slot_after (kf_hash_slots s) start k0)) = true ->
  (size (kf_table s) < fuel + k)%nat ->
  (forall i, 0 <= i < kf_hash_slots s -> is_free (lookup_slot (kf_table s) i) = true -> Q i s) ->
  wp X (find_free fuel (slot_after (kf_hash_slots s) start k)) Q s.
Proof.
  intros W. pose proof (wf_size _ _ W) as Hn. revert k.
  induction fuel as [|fuel IH]; intros k Hu Hk Hk0 Hfree Hfuel HQ; simpl.
  { exfalso. pose proof (slots_visited _ _ start k (proj1 Hn) ltac:(lia) Hu). lia. }
  pose proof (Z.mod_pos_bound (start + Z.of_nat k) (kf_hash_slots s) (proj1 Hn)) as Hr.
  apply wp_bind, wp_read_slot; [done|]. case_if E; [apply wp_ret, HQ; done|].
  assert (k <> k0) by (intros ->; congruence).
  apply wp_bind, wp_get.
  assert (slot_after (kf_hash_slots s) start (S k) =
    (if kf_hash_slots s <=? u32 (slot_after (kf_hash_slots s) start k + 1) then 0
     else u32 (slot_after (kf_hash_slots s) start k + 1))) as <-.
  { unfold slot_after in *. rewrite wrap_small by (unfold in_word; lia).
    rewrite Nat2Z.inj_succ. replace (start + Z.succ (Z.of_nat k)) with (start + Z.of_nat k + 1) by lia.
    rewrite <- (Zplus_mod_idemp_l (start + Z.of_nat k)). case_if E2; bool_to_prop.
    - replace ((start + Z.of_nat k) mod kf_hash_slots s + 1) with (kf_hash_slots s) by lia.
      by apply Z.mod_same; lia.
    - rewrite Z.mod_small; lia. }
  apply IH; try done; try lia. intros j Hj. destruct (decide (j = k)) as [-> |]; [done|].
  apply Hu. lia.
Qed.
End table.

(** ** Transfers *)

Section transfers.
Context {VA : ValueAllocator}.
Implicit Types (s : kv_ftl) (host : memory) (segs : list (Z * Z)).

(** The pieces of host memory a transfer of [remaining] bytes goes through. *)
Fixpoint prp_segs (fuel : nat) (host : memory) (cmd : nvme_kv_command) (remaining : Z)
    (ps : prp_state) : option (list (Z * Z)) :=
  if remaining =? 0 then Some [] else
  match fuel with
  | O => None
  | S n =>
    '(paddr, io_size, ps') ← prp_next host cmd remaining ps;
    rest ← prp_segs n host cmd (remaining - io_size) ps';
    Some ((paddr, io_size) :: rest)
  end.

Definition gathered (host : memory) segs : bytes := segs ≫= (fun r => mem_read host r.1 r.2).

Definition touched segs (a : Z) : Prop := Exists (fun r => in_range r a) segs.

Definition same_outside segs host host' : Prop :=
  forall a, ~ touched segs a -> mem_get host' a = mem_get host a.

Definition pairwise_apart segs : Prop := ForallOrdPairs apart segs.

Lemma prp_next_size host cmd remaining ps a io ps' :
  0 < remaining -> prp_next host cmd remaining ps = Some (a, io, ps') -> 0 < io <= remaining.
Proof.
  intros Hr. unfold prp_next. intros ([paddr ps1] & _ & E)%bind_Some. simplify_eq.
  pose proof (Z.mod_pos_bound a PAGE_SIZE eq_refl). unfold PAGE_SIZE in *. case_if E2; bool_to_prop; lia.
Qed.

(** Which page comes next is read from host memory, where to go from there is not. *)
Lemma prp_next_state host host' cmd remaining ps a io ps1 a' io' ps1' :
  prp_next host cmd remaining ps = Some (a, io, ps1) ->
  prp_next host' cmd remaining ps = Some (a', io', ps1') -> ps1' = ps1.
Proof.
  unfold prp_next. intros ([p q] & E & ?)%bind_Some ([p' q'] & E' & ?)%bind_Some. simplify_eq.
  repeat case_match; simplify_eq; try done;
    repeat match goal with
    | H : _ ≫= _ = Some _ |- _ => apply bind_Some in H as (? & ? & ?)
    end; simplify_eq; done.
Qed.

Lemma prp_segs_cons fuel host cmd remaining ps segs :
  0 < remaining -> prp_segs fuel host cmd remaining ps = Some segs ->
  exists n a io ps' rest, fuel = S n /\ segs = (a, io) :: rest /\
    prp_next host cmd remaining ps = Some (a, io, ps') /\
    prp_segs n host cmd (remaining - io) ps' = Some rest /\ 0 < io <= remaining.
Proof.
  intros Hr. destruct fuel as [|n]; simpl; replace (remaining =? 0) with false by lia; [done|].
  intros ([[a io] ps'] & Hn & (rest & Hrest & ?)%bind_Some)%bind_Some. simplify_eq.
  exists n, a, io, ps', rest. split_and!; try done; by eapply prp_next_size.
Qed.

Lemma prp_segs_nil fuel host cmd ps : prp_segs fuel host cmd 0 ps = Some [].
Proof. by destruct fuel. Qed.

Lemma length_gathered fuel host host' cmd remaining ps segs :
  0 <= remaining -> prp_segs fuel host cmd remaining ps = Some segs ->
  Z.of_nat (length (gathered host' segs)) = remaining.
Proof.
  revert remaining ps segs. induction fuel as [|n IH]; intros remaining ps segs Hr H.
  all: destruct (decide (remaining = 0)) as [-> |Hne]; [rewrite prp_segs_nil in H; by simplify_eq|].
  all: apply prp_segs_cons in H as (n' & a & io & ps' & rest & Hn & -> & Hnext & Hrest & Hio); [|lia].
  - done.
  - simplify_eq. unfold gathered in *. csimpl. rewrite length_app, Nat2Z.inj_add, length_mem_read by lia.
    rewrite (IH (remaining - io) ps' rest); [lia|lia|done].
Qed.

Lemma wp_next_page X cmd remaining ps x (Q : Z * Z * prp_state -> kv_ftl -> Prop) s :
  prp_next (kf_host s) cmd remaining ps = Some x -> Q x s -> wp X (next_page cmd remaining ps) Q s.
Proof. unfold wp, next_page. by intros ->. Qed.

Lemma wp_storage_write X offset l (Q : unit -> kv_ftl -> Prop) s :
  0 <= offset -> offset + Z.of_nat (length l) <= kf_storage_size s ->
  Q tt (set_storage (mem_write (kf_storage s) offset l) s) -> wp X (storage_write offset l) Q s.
Proof.
  intros H1 H2 HQ. unfold wp, storage_write.
  by replace ((0 <=? offset) && (offset + Z.of_nat (length l) <=? kf_storage_size s)) with true by lia.
Qed.

Lemma wp_storage_read X offset n (Q : bytes -> kv_ftl -> Prop) s :
  0 <= offset -> offset + n <= kf_storage_size s ->
  Q (mem_read (kf_storage s) offset n) s -> wp X (storage_read offset n) Q s.
Proof.
  intros H1 H2 HQ. unfold wp, storage_read.
  by replace ((0 <=? offset) && (offset + n <=? kf_storage_size s)) with true by lia.
Qed.

(** A store copies the pages of the command to the storage. *)
Lemma wp_kv_io_store X fuel cmd remaining offset ps segs (Q : unit -> kv_ftl -> Prop) s :
  c_opcode cmd = nvme_cmd_kv_store -> 0 <= remaining -> 0 <= offset ->
  offset + remaining <= kf_storage_size s ->
  prp_segs fuel (kf_host s) cmd remaining ps = Some segs ->
  Q tt (set_storage (mem_write (kf_storage s) offset (gathered (kf_host s) segs)) s) ->
  wp X (kv_io_loop fuel cmd remaining offset ps) Q s.
Proof.
  intros Hop. revert remaining offset ps segs s.
  induction fuel as [|n IH]; intros remaining offset ps segs s Hr Ho Hsz H HQ; simpl.
  all: destruct (decide (remaining = 0)) as [-> |Hne];
    [rewrite prp_segs_nil in H; simplify_eq; by destruct s|].
  all: apply prp_segs_cons in H as (n' & a & io & ps' & rest & Hn & -> & Hnext & Hrest & Hio); [|lia].
  { done. }
  simplify_eq. replace (remaining =? 0) with false by lia.
  apply wp_bind. eapply wp_next_page; [exact Hnext|]. rewrite Hop. simpl.
  pose proof (length_mem_read (kf_host s) a io) as Hlen.
  apply wp_bind, wp_bind, wp_of_done with (a := mem_read (kf_host s) a io) (s' := s); [done|].
  apply wp_storage_write; [done|lia|].
  eapply IH; try (simpl; lia); [exact Hrest|].
  unfold gathered in *. csimpl in HQ. simpl.
  rewrite <- mem_write_app, Hlen in HQ by lia. exact HQ.
Qed.

(** A retrieve copies from the storage to the pages of the command, if these do not
    overlap each other or the list that names them. *)
Lemma wp_kv_io_retrieve X fuel cmd remaining offset ps segs all host0 (Q : unit -> kv_ftl -> Prop) s :
  c_opcode cmd = nvme_cmd_kv_retrieve -> 0 <= remaining -> 0 <= offset ->
  offset + remaining <= kf_storage_size s ->
  (forall host', same_outside all host0 host' ->
     prp_segs fuel host' cmd remaining ps = Some segs) ->
  (forall r, r ∈ segs -> r ∈ all) -> pairwise_apart segs -> same_outside all host0 (kf_host s) ->
  (forall host', same_outside segs (kf_host s) host' ->
     gathered host' segs = mem_read (kf_storage s) offset remaining -> Q tt (set_host host' s)) ->
  wp X (kv_io_loop fuel cmd remaining offset ps) Q s.
Proof.
  intros Hop. revert remaining offset ps segs s.
  induction fuel as [|n IH]; intros remaining offset ps segs s Hr Ho Hsz Hst Hin Hap Hsame HQ; simpl.
  all: destruct (decide (remaining = 0)) as [-> |Hne].
  1,3: specialize (Hst _ Hsame); rewrite prp_segs_nil in Hst; simplify_eq; destruct s as [? ? ? ? ? ? h];
    apply wp_ret, (HQ h); done.
  all: pose proof (Hst _ Hsame) as H;
    apply prp_segs_cons in H as (n' & a & io & ps' & rest & Hn & -> & Hnext & Hrest & Hio); [|lia].
  { done. }
  simplify_eq. replace (remaining =? 0) with false by lia.
  apply wp_bind. eapply wp_next_page; [exact Hnext|]. rewrite Hop. simpl.
  apply wp_bind, wp_bind, wp_storage_read; [done|lia|].
  pose proof (length_mem_read (kf_storage s) offset io) as Hlen.
  apply wp_modify. inversion Hap as [|? ? Hfirst Hap']; subst.
  set (host1 := mem_write (kf_host s) a (mem_read (kf_storage s) offset io)).
  assert (Hout : forall x, ~ in_range (a, io) x -> mem_get host1 x = mem_get (kf_host s) x).
  { intros x Hx. subst host1. rewrite mem_get_write, Hlen, decide_False by (done || lia). done. }
  eapply (IH _ _ _ rest); try (simpl; lia); try done.
  - intros host' Hh. specialize (Hst _ Hh).
    apply prp_segs_cons in Hst as (n2 & a' & io' & ps2 & rest' & Hn & ? & Hnext' & Hrest' & _); [|lia].
    simplify_eq. by rewrite (prp_next_state _ _ _ _ _ _ _ _ _ _ _ Hnext Hnext') in Hrest'.
  - intros r Hrr. apply Hin. by right.
  - simpl. intros x Hx. rewrite Hout; [by apply Hsame|]. contradict Hx.
    apply Exists_exists. exists (a, io). split; [apply Hin; by left|done].
  - simpl. intros host' Hh Hg.
    change (Q tt (set_host host' s)). apply HQ.
    + intros x Hx. rewrite Hh; [|contradict Hx; by right]. apply Hout. contradict Hx. by left.
    + unfold gathered in *. csimpl. rewrite Hg.
      replace remaining with (io + (remaining - io)) at 2 by lia.
      rewrite mem_read_app by lia. f_equal.
      rewrite (mem_read_ext host1).
      * pose proof (mem_read_write (kf_host s) a (mem_read (kf_storage s) offset io)) as E.
        rewrite Hlen in E by lia. exact E.
      * intros x Hx. apply Hh. intros (r & Hr' & Hrx)%Exists_exists.
        rewrite List.Forall_forall in Hfirst. specialize (Hfirst r).
        apply list_elem_of_In in Hr'. apply Hfirst in Hr'. unfold apart, in_range in *. simpl in *. lia.
Qed.
End transfers.
