(* ===== verification/KvFtlProps.v ===== *)
(** * The KV flash translation layer implements a map

    The mapping table, the storage and the allocator together represent a map from
    keys (of one length) to values, each with the room its allocation reserved;
    the commands act on that map. *)
From S2P Require Import Prelude FtlAlloc KvFtl KvFtlSpec.

Abbreviation used t i := (is_free (lookup_slot t i) = false).
Abbreviation next_of t i := (me_next_slot (lookup_slot t i)).

(** ** Adding an entry to the table *)

Section insertion.
Context {VA : ValueAllocator}.
Implicit Types (t : gmap Z mapping_entry) (e : mapping_entry) (s : kv_ftl).

(** [t'] is [t] with the entry [e] in the free slot [i], reached from [h]. *)
Record table_added (n : Z) t (h i : Z) e t' : Prop := TableAdded {
  ta_wf : table_wf n t';
  ta_slot : 0 <= i < n;
  ta_was_free : is_free (lookup_slot t i) = true;
  ta_new : lookup_slot t' i = e;
  ta_other : forall j, j <> i -> is_free (lookup_slot t' j) = is_free (lookup_slot t j) /\
    me_key (lookup_slot t' j) = me_key (lookup_slot t j) /\
    me_mem_offset (lookup_slot t' j) = me_mem_offset (lookup_slot t j) /\
    me_length (lookup_slot t' j) = me_length (lookup_slot t j);
  ta_chain : forall j l, chain t j l -> exists l', chain t' j l' /\ l ⊆ l';
  ta_reach : exists l, chain t' h l /\ i ∈ l
}.

Definition relink e (slot : Z) : mapping_entry :=
  MapEntry (me_key e) (me_mem_offset e) (me_length e) slot.

(** Filling a free slot keeps the table well formed. *)
Lemma table_fill n t i e :
  table_wf n t -> 0 <= i < n -> is_free (lookup_slot t i) = true -> is_free e = false ->
  me_next_slot e = NO_SLOT -> length (me_key e) = 18%nat ->
  table_wf n (<[i := e]> t) /\
  forall j l, chain t j l -> exists l', chain (<[i := e]> t) j l' /\ l ⊆ l'.
Proof.
  intros W Hi Hf He Hn Hk. pose proof (wf_size _ _ W) as Hsz.
  assert (Hch : forall j l, chain t j l -> exists l', chain (<[i := e]> t) j l' /\ l ⊆ l').
  { intros j l. apply chain_fill; try done; rewrite Hn; [by eapply no_slot_free|].
    unfold NO_SLOT. lia. }
  split; [|done]. constructor; [done| | | | |].
  - intros j. rewrite dom_insert, elem_of_union, elem_of_singleton. intros [-> |Hj]; [done|].
    by apply (wf_dom _ _ W).
  - intros j. rewrite lookup_slot_insert. case_decide; [done|apply (wf_key _ _ W)].
  - intros j. rewrite lookup_slot_insert. case_decide; [by left|apply (wf_next _ _ W)].
  - intros j. rewrite lookup_slot_insert. case_decide; [done|apply (wf_free _ _ W)].
  - intros j. destruct (wf_chain _ _ W j) as [l Hl]. destruct (Hch j l Hl) as (l' & Hl' & _). eauto.
Qed.

(** Pointing the last slot of a chain at a free slot changes no chain. *)
Lemma table_relink n t p i :
  table_wf n t -> used t p -> is_free (lookup_slot t (next_of t p)) = true ->
  0 <= i < n -> is_free (lookup_slot t i) = true ->
  let t' := <[p := relink (lookup_slot t p) i]> t in
  table_wf n t' /\ forall j l, chain t j l -> chain t' j l.
Proof.
  intros W Hp Hlast Hi Hf. cbv zeta. pose proof (wf_size _ _ W) as Hsz.
  assert (Hfree : forall j, is_free (lookup_slot (<[p := relink (lookup_slot t p) i]> t) j) =
    is_free (lookup_slot t j)).
  { intros j. rewrite lookup_slot_insert. by case_decide; subst. }
  assert (Hch : forall j l, chain t j l -> chain (<[p := relink (lookup_slot t p) i]> t) j l).
  { intros j l. apply chain_ext; [done|]. intros k Hk. rewrite lookup_slot_insert.
    case_decide; subst; [by right|by left]. }
  split; [|done]. constructor; [done| | | | |].
  - intros j. rewrite dom_insert, elem_of_union, elem_of_singleton. intros [-> |Hj].
    + by apply (used_range n t).
    + by apply (wf_dom _ _ W).
  - intros j. rewrite lookup_slot_insert. case_decide; apply (wf_key _ _ W).
  - intros j. rewrite Hfree. intros Hj. rewrite lookup_slot_insert.
    case_decide; [by right|by apply (wf_next _ _ W)].
  - intros j. rewrite Hfree. intros Hj. rewrite lookup_slot_insert.
    case_decide; [subst; congruence|by apply (wf_free _ _ W)].
  - intros j. destruct (wf_chain _ _ W j) as [l Hl]. eauto.
Qed.

Lemma table_add_home n t h e :
  table_wf n t -> 0 <= h < n -> is_free (lookup_slot t h) = true -> is_free e = false ->
  me_next_slot e = NO_SLOT -> length (me_key e) = 18%nat ->
  table_added n t h h e (<[h := e]> t).
Proof.
  intros W Hh Hf He Hn Hk. destruct (table_fill n t h e) as [W' Hch]; try done.
  constructor; try done.
  - by rewrite lookup_slot_insert, decide_True.
  - intros j Hj. by rewrite lookup_slot_insert, decide_False.
  - destruct (wf_chain _ _ W' h) as [l Hl]. exists l. split; [done|].
    inversion Hl as [? Hx|]; subst; [|by left]. by rewrite lookup_slot_insert, decide_True, He in Hx.
Qed.

Lemma table_add_chain n t h l p i e :
  table_wf n t -> chain t h l -> last l = Some p -> 0 <= i < n ->
  is_free (lookup_slot t i) = true -> is_free e = false ->
  me_next_slot e = NO_SLOT -> length (me_key e) = 18%nat ->
  table_added n t h i e (<[p := relink (lookup_slot t p) i]> (<[i := e]> t)).
Proof.
  intros W Hc Hp Hi Hf He Hn Hk.
  assert (Hpl : p ∈ l) by (by apply last_Some_elem_of).
  pose proof (chain_used _ _ _ _ Hc Hpl) as Hu.
  assert (Hpi : p <> i) by (intros ->; congruence).
  assert (Hlast : is_free (lookup_slot t (next_of t p)) = true).
  { apply not_false_is_true. intros Hnx. pose proof (chain_NoDup _ _ _ Hc) as Hnd.
    destruct (chain_suffix _ _ _ _ Hc Hpl) as (l1 & l2 & -> & Hc2 & Hne).
    inversion Hc2 as [|? l3 ? Hc3]; subst; [done|].
    inversion Hc3 as [|? l4 ? Hc4]; subst; [congruence|].
    rewrite last_app_cons, last_cons_cons in Hp. apply last_Some_elem_of in Hp.
    apply NoDup_app in Hnd as (_ & _ & Hnd%NoDup_cons). naive_solver. }
  rewrite insert_insert_ne by done.
  destruct (table_relink n t p i) as [W1 Hch1]; try done.
  set (t1 := <[p := relink (lookup_slot t p) i]> t) in *.
  assert (Hf1 : is_free (lookup_slot t1 i) = true)
    by (subst t1; by rewrite lookup_slot_insert, decide_False).
  destruct (table_fill n t1 i e) as [W' Hch]; try done.
  assert (Hi' : lookup_slot (<[i := e]> t1) i = e) by (by rewrite lookup_slot_insert, decide_True).
  constructor; try done.
  - intros j Hj. rewrite lookup_slot_insert, decide_False by done. subst t1.
    rewrite lookup_slot_insert. by case_decide; subst.
  - intros j l0 Hl0. by apply Hch, Hch1.
  - destruct (Hch h l (Hch1 _ _ Hc)) as (l' & Hc' & Hsub). exists l'. split; [done|].
    assert (En : next_of (<[i := e]> t1) p = i).
    { rewrite lookup_slot_insert, decide_False by done. subst t1.
      by rewrite lookup_slot_insert, decide_True. }
    rewrite <- En. eapply chain_closed; [done|by apply Hsub|]. by rewrite En, Hi'.
Qed.

Lemma is_free_offset k off len nx : off <> NO_OFFSET -> is_free (MapEntry k off len nx) = false.
Proof. intros. unfold is_free. simpl. lia. Qed.

(** [new_mapping_entry_by_key] adds one entry. *)
Lemma wp_new_mapping_entry X key val_len off (Q : unit -> kv_ftl -> Prop) s :
  table_wf (kf_hash_slots s) (kf_table s) -> (length key <= 18)%nat ->
  0 <= off < kf_storage_size s -> off <> NO_OFFSET ->
  (exists i, 0 <= i < kf_hash_slots s /\ is_free (lookup_slot (kf_table s) i) = true) ->
  (forall i e t', table_added (kf_hash_slots s) (kf_table s) (home (kf_hash_slots s) key) i e t' ->
     take (length key) (me_key e) = key -> me_mem_offset e = off -> me_length e = val_len ->
     Q tt (set_table t' s)) ->
  wp X (new_mapping_entry_by_key key val_len off) Q s.
Proof.
  intros W Hk Hoff Hno (f & Hf & Hfree) HQ. pose proof (wf_size _ _ W) as Hsz.
  unfold new_mapping_entry_by_key. apply wp_bind, wp_get.
  replace (kf_storage_size s <=? off) with false by lia.
  apply wp_bind, wp_get_hash_slot; [lia|]. set (h := home _ key).
  assert (Hh : 0 <= h < kf_hash_slots s) by (by apply home_range).
  apply wp_bind, wp_read_slot; [done|].
  assert (Hkey : forall e0, length (me_key e0) = 18%nat -> length (overlay key (me_key e0)) = 18%nat)
    by (intros; unfold overlay; rewrite length_app, length_drop; lia).
  assert (Htake : forall e0, take (length key) (overlay key (me_key e0)) = key)
    by (intros; unfold overlay; by rewrite take_app_length).
  destruct (is_free (lookup_slot (kf_table s) h)) eqn:E.
  - apply wp_bind, wp_ret. cbn beta iota zeta.
    replace (18 <? Z.of_nat (length key)) with false by lia.
    apply wp_bind, wp_read_slot; [done|]. apply wp_bind, wp_write_slot; [done|].
    replace (NO_SLOT =? NO_SLOT) with true by done. apply wp_ret. eapply HQ.
    + apply table_add_home; try done; [by apply is_free_offset|by apply (wf_free _ _ W)|].
      apply Hkey, (wf_key _ _ W).
    + apply Htake.
    + done.
    + done.
  - destruct (wf_chain _ _ W h) as [l Hl].
    assert (exists p, last l = Some p) as [p Hp].
    { inversion Hl; subst; [congruence|]. apply last_is_Some. done. }
    assert (Hpu : used (kf_table s) p) by (eapply chain_used; [done|by apply last_Some_elem_of]).
    pose proof (used_range _ _ _ W Hpu) as Hpr.
    apply wp_bind. unfold find_next_slot, walk_fuel. apply wp_bind, wp_get. apply wp_bind.
    eapply wp_find_tail; [done|done|done|pose proof (chain_size _ _ _ Hl); lia|]. rewrite Hp. simpl default.
    apply wp_bind.
    replace p with (slot_after (kf_hash_slots s) p 0) at 1
      by (unfold slot_after; rewrite Z.add_0_r, Z.mod_small; lia).
    eapply (wp_find_free X _ 0 (Z.to_nat ((f - p) mod kf_hash_slots s))); try done; try lia.
    + pose proof (Z.mod_pos_bound (f - p) (kf_hash_slots s)). lia.
    + unfold slot_after. pose proof (Z.mod_pos_bound (f - p) (kf_hash_slots s)).
      rewrite Z2Nat.id by lia. rewrite Zplus_mod_idemp_r.
      replace (p + (f - p)) with f by lia. by rewrite Z.mod_small.
    + intros i Hi Hif. apply wp_ret. cbn beta iota zeta.
      replace (18 <? Z.of_nat (length key)) with false by lia.
      apply wp_bind, wp_read_slot; [done|]. apply wp_bind, wp_write_slot; [done|].
      replace (p =? NO_SLOT) with false by (unfold NO_SLOT; lia).
      unfold chain_mapping. apply wp_bind, wp_read_slot; [done|]. apply wp_write_slot; [done|].
      assert (Hpi : p <> i) by (intros ->; congruence).
      set (e := MapEntry (overlay key _) off val_len _).
      change (Q tt (set_table (<[p := relink (lookup_slot (<[i := e]> (kf_table s)) p) i]>
                                 (<[i := e]> (kf_table s))) s)).
      rewrite (lookup_slot_insert _ i e p), decide_False by done.
      apply (HQ i e).
      * eapply table_add_chain; try done; [by apply is_free_offset|by apply (wf_free _ _ W)|].
        apply Hkey, (wf_key _ _ W).
      * apply Htake.
      * done.
      * done.
Qed.
End insertion.

(** ** The represented map *)

(** Where a pair lives: its slot, the range its allocation reserved, its value. *)
Record place := Place { pl_slot : Z; pl_off : Z; pl_cap : Z; pl_val : bytes }.

Definition pl_range (p : place) : Z * Z := (pl_off p, pl_cap p).
Definition pl_len (p : place) : Z := Z.of_nat (length (pl_val p)).

Section rep.
Context `{AL : AllocatorLaws} (L : nat).
Implicit Types (t : gmap Z mapping_entry) (e : mapping_entry) (s : kv_ftl) (P : gmap bytes place).

(** The entry of a placed pair, and its bytes. *)
Definition entry_is t (k : bytes) (p : place) : Prop :=
  let e := lookup_slot t (pl_slot p) in
  is_free e = false /\ take L (me_key e) = k /\ me_mem_offset e = pl_off p /\ me_length e = pl_len p.

Definition stored (m : memory) (size : Z) (p : place) : Prop :=
  0 <= pl_off p /\ pl_off p + pl_cap p <= size /\ pl_len p <= pl_cap p /\
  mem_read m (pl_off p) (pl_len p) = pl_val p.

Record ftl_rep s P : Prop := FtlRep {
  fr_wf : table_wf (kf_hash_slots s) (kf_table s);
  fr_key : forall k p, P !! k = Some p -> length k = L;
  fr_entry : forall k p, P !! k = Some p -> entry_is (kf_table s) k p;
  fr_stored : forall k p, P !! k = Some p -> stored (kf_storage s) (kf_storage_size s) p;
  fr_reach : forall k p, P !! k = Some p ->
    exists l, chain (kf_table s) (home (kf_hash_slots s) k) l /\ pl_slot p ∈ l;
  fr_used : forall i, used (kf_table s) i -> exists k p, P !! k = Some p /\ pl_slot p = i;
  fr_alloc : exists rs, va_holds (kf_alloc s) (kf_storage_size s) rs /\
    forall k p, P !! k = Some p -> pl_range p ∈ rs;
  fr_apart : forall k k' p p', P !! k = Some p -> P !! k' = Some p' -> k <> k' ->
    apart (pl_range p) (pl_range p');
  fr_size : kf_storage_size s < NO_OFFSET
}.

(** The values with the room they have. *)
Definition contents P : gmap bytes (bytes * Z) := (fun p => (pl_val p, pl_cap p)) <$> P.

Lemma slot_key s P k k' p p' :
  ftl_rep s P -> P !! k = Some p -> P !! k' = Some p' -> pl_slot p = pl_slot p' -> k = k'.
Proof.
  intros R Hk Hk' E. destruct (fr_entry s P R k p Hk) as (_ & <- & _).
  destruct (fr_entry s P R k' p' Hk') as (_ & <- & _). by rewrite E.
Qed.

(** What a search relies on: the part of [ftl_rep] about the table. *)
Definition table_rep n t P : Prop :=
  table_wf n t /\ (forall k p, P !! k = Some p -> entry_is t k p) /\
  (forall k p, P !! k = Some p -> exists l, chain t (home n k) l /\ pl_slot p ∈ l) /\
  (forall i, used t i -> exists k p, P !! k = Some p /\ pl_slot p = i).

Lemma rep_table s P : ftl_rep s P -> table_rep (kf_hash_slots s) (kf_table s) P.
Proof. intros []. by split_and!. Qed.

(** Searching finds the slot of the key, and only that. *)
Lemma wp_search X k (Q : option Z -> kv_ftl -> Prop) s P :
  table_rep (kf_hash_slots s) (kf_table s) P -> length k = L -> (L <= 18)%nat ->
  Q (pl_slot <$> P !! k) s -> wp X (search k) Q s.
Proof.
  intros (W & Hent & Hreach & Hused) Hk HL HQ. pose proof (wf_size _ _ W) as Hn.
  unfold search. apply wp_bind, wp_get_hash_slot; [lia|]. apply wp_bind, wp_get.
  destruct (wf_chain _ _ W (home (kf_hash_slots s) k)) as [l Hl].
  eapply wp_find_entry; [done|by apply home_range|lia|exact Hl| |].
  { unfold walk_fuel. pose proof (chain_size _ _ _ Hl). lia. }
  assert (Hm : forall j, j ∈ l -> key_matches k (lookup_slot (kf_table s) j) = true ->
    pl_slot <$> P !! k = Some j).
  { intros j Hj Hm. unfold key_matches in Hm. apply bool_decide_eq_true in Hm. rewrite Hk in Hm.
    destruct (Hused j) as (k' & p & Hp & <-); [by eapply chain_used|].
    destruct (Hent k' p Hp) as (_ & Ek & _). by rewrite <- Hm, Ek, Hp. }
  destruct (List.find _ l) as [j|] eqn:Ef.
  - apply List.find_some in Ef as [Hj Hmj]. rewrite <- (Hm j); [done|by apply list_elem_of_In|done].
  - destruct (P !! k) as [p|] eqn:Ep; [|done]. exfalso.
    destruct (Hreach k p Ep) as (l' & Hl' & Hin). rewrite (chain_det _ _ _ _ Hl' Hl) in Hin.
    destruct (Hent k p Ep) as (_ & Ek & _).
    assert (Hf := List.find_none _ _ Ef (pl_slot p) (proj1 (list_elem_of_In _ _) Hin)).
    unfold key_matches in Hf. simpl in Hf. rewrite Hk, Ek in Hf. by apply bool_decide_eq_false in Hf.
Qed.

Lemma wp_get_mapping_entry X k (Q : mapping_entry -> kv_ftl -> Prop) s P :
  ftl_rep s P -> length k = L -> (L <= 18)%nat ->
  (P !! k = None -> Q cleared_entry s) ->
  (forall p e, P !! k = Some p -> is_free e = false -> me_mem_offset e = pl_off p ->
     me_length e = pl_len p -> Q e s) ->
  wp X (get_mapping_entry_by_key k) Q s.
Proof.
  intros R Hk HL HN HS. unfold get_mapping_entry_by_key. apply wp_bind.
  eapply wp_search; [by apply rep_table|done|done|].
  destruct (P !! k) as [p|] eqn:Ep; simpl; [|by apply wp_ret, HN].
  destruct (fr_entry s P R k p Ep) as (Hu & _ & Ho & Hl).
  apply wp_bind, wp_read_slot; [by eapply used_range; [apply R|]|]. apply wp_ret. by eapply HS.
Qed.

(** A table with fewer pairs than slots has a free slot. *)
Lemma free_slot s P :
  ftl_rep s P -> Z.of_nat (size P) < kf_hash_slots s ->
  exists i, 0 <= i < kf_hash_slots s /\ is_free (lookup_slot (kf_table s) i) = true.
Proof.
  intros R Hsz. set (slots := seqZ 0 (kf_hash_slots s)).
  destruct (decide (Exists (fun i => is_free (lookup_slot (kf_table s) i) = true) slots)) as [He|Hne].
  - apply Exists_exists in He as (i & Hi%elem_of_seqZ & Hf). exists i. split; [lia|done].
  - exfalso. assert (Hall : forall i, i ∈ slots -> used (kf_table s) i).
    { intros i Hi. apply not_true_is_false. contradict Hne. apply Exists_exists. eauto. }
    assert (Hle : (length slots <= size P)%nat).
    { transitivity (length ((pl_slot ∘ snd) <$> map_to_list P));
        [|by rewrite length_fmap, length_map_to_list].
      apply submseteq_length, NoDup_submseteq; [apply NoDup_seqZ|]. intros i Hi.
      destruct (fr_used s P R i (Hall i Hi)) as (k & p & Hk & <-).
      apply list_elem_of_fmap. exists (k, p). split; [done|by apply elem_of_map_to_list]. }
    subst slots. rewrite length_seqZ in Hle. lia.
Qed.

(** Writing outside the room of a pair keeps it. *)
Lemma stored_write m size p a l :
  stored m size p -> apart (a, Z.of_nat (length l)) (pl_range p) -> stored (mem_write m a l) size p.
Proof.
  intros (H1 & H2 & H3 & H4) Ha. split_and!; try done. rewrite mem_read_write_apart; [done|].
  unfold apart, pl_range in *. simpl in *. unfold pl_len in *. lia.
Qed.

Lemma stored_new m size i off cap v :
  0 <= off -> off + cap <= size -> Z.of_nat (length v) <= cap ->
  stored (mem_write m off v) size (Place i off cap v).
Proof. intros. unfold stored, pl_len. simpl. split_and!; try done. apply mem_read_write. Qed.

(** A pair is added: its value, its allocation and its entry. *)
Lemma rep_add s P k i e off cap v a' t' rs :
  ftl_rep s P -> P !! k = None -> length k = L ->
  table_added (kf_hash_slots s) (kf_table s) (home (kf_hash_slots s) k) i e t' ->
  take L (me_key e) = k -> me_mem_offset e = off -> me_length e = Z.of_nat (length v) ->
  0 <= off -> off + cap <= kf_storage_size s -> Z.of_nat (length v) <= cap ->
  va_holds (kf_alloc s) (kf_storage_size s) rs -> (forall k p, P !! k = Some p -> pl_range p ∈ rs) ->
  Forall (apart (off, cap)) rs -> va_holds a' (kf_storage_size s) ((off, cap) :: rs) ->
  ftl_rep (set_table t' (set_storage (mem_write (kf_storage s) off v) (set_alloc a' s)))
    (<[k := Place i off cap v]> P).
Proof.
  intros R Hk HkL TA Ekey Eoff Elen Hoff Hsz Hlen Hrs HPrs Hap Hrs'.
  assert (Hdiff : forall k' p, P !! k' = Some p -> pl_slot p <> i).
  { intros k' p Hp E. destruct (fr_entry s P R k' p Hp) as (Hu & _). rewrite E in Hu.
    pose proof (ta_was_free _ _ _ _ _ _ TA). congruence. }
  assert (Hnew : is_free (lookup_slot t' i) = false).
  { rewrite (ta_new _ _ _ _ _ _ TA). unfold is_free. rewrite Eoff.
    pose proof (fr_size s P R). unfold NO_OFFSET in *. lia. }
  assert (Hapart : forall k' p, P !! k' = Some p -> apart (off, cap) (pl_range p)).
  { intros k' p Hp. rewrite Forall_forall in Hap. by apply Hap, (HPrs k'). }
  constructor; simpl.
  - apply TA.
  - intros k' p. rewrite lookup_insert_Some. intros [[<- <-]|[_ Hp]]; [done|by eapply R].
  - intros k' p. rewrite lookup_insert_Some. intros [[<- <-]|[_ Hp]]; unfold entry_is; simpl.
    + rewrite (ta_new _ _ _ _ _ _ TA) in *. by split_and!.
    + destruct (ta_other _ _ _ _ _ _ TA (pl_slot p) (Hdiff _ _ Hp)) as (-> & -> & -> & ->).
      by apply (fr_entry s P R).
  - intros k' p. rewrite lookup_insert_Some. intros [[<- <-]|[_ Hp]]; [by apply stored_new|].
    apply stored_write; [by apply (fr_stored s P R k')|]. specialize (Hapart k' p Hp).
    unfold apart, pl_range in *. simpl in *. lia.
  - intros k' p. rewrite lookup_insert_Some. intros [[<- <-]|[_ Hp]]; [apply TA|].
    destruct (fr_reach s P R k' p Hp) as (l & Hl & Hin).
    destruct (ta_chain _ _ _ _ _ _ TA _ _ Hl) as (l' & Hl' & Hsub). exists l'. split; [done|by apply Hsub].
  - intros j Hj. destruct (decide (j = i)) as [-> |Hne].
    + exists k, (Place i off cap v). by rewrite lookup_insert_eq.
    + destruct (ta_other _ _ _ _ _ _ TA j Hne) as (E & _). rewrite E in Hj.
      destruct (fr_used s P R j Hj) as (k' & p & Hp & Es). exists k', p. split; [|done].
      rewrite lookup_insert_ne; [done|]. intros <-. congruence.
  - exists ((off, cap) :: rs). split; [done|]. intros k' p. rewrite lookup_insert_Some.
    intros [[<- <-]|[_ Hp]]; [by left|right; by eapply HPrs].
  - intros k1 k2 p1 p2. rewrite !lookup_insert_Some.
    intros [[<- <-]|[H1 Hp1]] [[<- <-]|[H2 Hp2]] Hne; [done|by eapply Hapart| |by eapply (fr_apart s P R k1 k2)].
    specialize (Hapart _ _ Hp1). unfold apart in *. simpl in *. tauto.
  - apply R.
Qed.

(** The value of a pair is replaced in place, [e] being its new entry. *)
Lemma rep_replace s P k p e v :
  ftl_rep s P -> P !! k = Some p -> Z.of_nat (length v) <= pl_cap p ->
  e = lookup_slot (kf_table s) (pl_slot p) \/
    e = MapEntry (me_key (lookup_slot (kf_table s) (pl_slot p))) (pl_off p) (me_length e)
          (next_of (kf_table s) (pl_slot p)) ->
  me_length e = Z.of_nat (length v) ->
  ftl_rep (set_table (<[pl_slot p := e]> (kf_table s))
             (set_storage (mem_write (kf_storage s) (pl_off p) v) s))
    (<[k := Place (pl_slot p) (pl_off p) (pl_cap p) v]> P).
Proof.
  intros R Hk Hlen He Elen. destruct (fr_entry s P R k p Hk) as (Hu & Ekey & Eoff & El).
  destruct (fr_stored s P R k p Hk) as (Ho1 & Ho2 & _).
  assert (Hsame : is_free e = false /\ me_key e = me_key (lookup_slot (kf_table s) (pl_slot p)) /\
    me_mem_offset e = pl_off p /\ me_next_slot e = next_of (kf_table s) (pl_slot p)).
  { destruct He as [-> | ->]; [done|]. split_and!; try done. simpl.
    unfold is_free in *. simpl. by rewrite Eoff in Hu. }
  destruct Hsame as (Hu' & Ek' & Eo' & En'). pose proof (fr_wf s P R) as W.
  assert (Hfree : forall j, is_free (lookup_slot (<[pl_slot p := e]> (kf_table s)) j) =
    is_free (lookup_slot (kf_table s) j)).
  { intros j. rewrite lookup_slot_insert. case_decide; subst; congruence. }
  assert (Hnext : forall j, next_of (<[pl_slot p := e]> (kf_table s)) j = next_of (kf_table s) j).
  { intros j. rewrite lookup_slot_insert. case_decide; subst; congruence. }
  assert (Hch : forall j l, chain (kf_table s) j l -> chain (<[pl_slot p := e]> (kf_table s)) j l).
  { intros j l. apply chain_ext; [done|]. intros k' _. left. apply Hnext. }
  constructor; simpl.
  - constructor; [apply W| | | | |].
    + intros j. rewrite dom_insert, elem_of_union, elem_of_singleton.
      intros [-> |Hj]; [by eapply used_range|by apply (wf_dom _ _ W)].
    + intros j. rewrite lookup_slot_insert. case_decide; [rewrite Ek'|]; apply (wf_key _ _ W).
    + intros j. rewrite Hfree, Hnext. apply (wf_next _ _ W).
    + intros j. rewrite Hfree, Hnext. apply (wf_free _ _ W).
    + intros j. destruct (wf_chain _ _ W j) as [l Hl]. eauto.
  - intros k' p'. rewrite lookup_insert_Some. intros [[<- <-]|[_ Hp]]; by eapply R.
  - intros k' p'. rewrite lookup_insert_Some. intros [[<- <-]|[Hne Hp]]; unfold entry_is; simpl.
    + rewrite lookup_slot_insert, decide_True by done. rewrite Ek'. by split_and!.
    + rewrite lookup_slot_insert, decide_False; [by apply (fr_entry s P R)|].
      intros E. apply Hne. by eapply slot_key.
  - intros k' p'. rewrite lookup_insert_Some. intros [[<- <-]|[Hne Hp]]; [by apply stored_new|].
    apply stored_write; [by apply (fr_stored s P R k')|].
    pose proof (fr_apart s P R k k' p p' Hk Hp Hne) as Ha. unfold apart, pl_range in *. simpl in *. lia.
  - intros k' p'. rewrite lookup_insert_Some. intros [[<- <-]|[_ Hp]]; simpl.
    + destruct (fr_reach s P R k p Hk) as (l & Hl & Hin). eauto.
    + destruct (fr_reach s P R k' p' Hp) as (l & Hl & Hin). eauto.
  - intros j. rewrite Hfree. intros Hj. destruct (fr_used s P R j Hj) as (k' & p' & Hp & Es).
    destruct (decide (k' = k)) as [-> |].
    + rewrite Hk in Hp. injection Hp as <-. eexists k, _. by rewrite lookup_insert_eq.
    + exists k', p'. by rewrite lookup_insert_ne.
  - destruct (fr_alloc s P R) as (rs & Hrs & HP). exists rs. split; [done|].
    intros k' p'. rewrite lookup_insert_Some. intros [[<- <-]|[_ Hp]]; [by apply (HP k p)|by eapply HP].
  - intros k1 k2 p1 p2. rewrite !lookup_insert_Some.
    intros [[<- <-]|[H1 Hp1]] [[<- <-]|[H2 Hp2]] Hne; [done| | |by eapply (fr_apart s P R k1 k2)].
    + exact (fr_apart s P R k k2 p p2 Hk Hp2 Hne).
    + exact (fr_apart s P R k1 k p1 p Hp1 Hk Hne).
  - apply R.
Qed.

(** The pair at the end of its chain is removed. *)
Lemma rep_delete s P k p :
  ftl_rep s P -> P !! k = Some p ->
  is_free (lookup_slot (kf_table s) (next_of (kf_table s) (pl_slot p))) = true ->
  ftl_rep (set_table (<[pl_slot p := cleared_entry]> (kf_table s)) s) (delete k P).
Proof.
  intros R Hk Hlast. destruct (fr_entry s P R k p Hk) as (Hu & _). pose proof (fr_wf s P R) as W.
  assert (Hch := fun j l => chain_clear (kf_table s) (pl_slot p) cleared_entry j l Hu Hlast eq_refl).
  assert (Hdiff : forall k' p', delete k P !! k' = Some p' -> P !! k' = Some p' /\ pl_slot p' <> pl_slot p).
  { intros k' p' [Hne Hp]%lookup_delete_Some. split; [done|]. intros E. apply Hne. by eapply slot_key. }
  constructor; simpl.
  - constructor; [apply W| | | | |].
    + intros j. rewrite dom_insert, elem_of_union, elem_of_singleton.
      intros [-> |Hj]; [by eapply used_range|by apply (wf_dom _ _ W)].
    + intros j. rewrite lookup_slot_insert. case_decide; [done|apply (wf_key _ _ W)].
    + intros j. rewrite lookup_slot_insert. case_decide; [done|apply (wf_next _ _ W)].
    + intros j. rewrite lookup_slot_insert. case_decide; [done|apply (wf_free _ _ W)].
    + intros j. destruct (wf_chain _ _ W j) as [l Hl]. destruct (Hch j l Hl) as (l' & ? & _). eauto.
  - intros k' p' [Hp _]%Hdiff. by eapply R.
  - intros k' p' [Hp Hne]%Hdiff. unfold entry_is. rewrite lookup_slot_insert, decide_False by done.
    by apply (fr_entry s P R).
  - intros k' p' [Hp Hne]%Hdiff. by apply (fr_stored s P R k').
  - intros k' p' [Hp Hne]%Hdiff. destruct (fr_reach s P R k' p' Hp) as (l & Hl & Hin).
    destruct (Hch _ l Hl) as (l' & Hl' & Hin'). eauto.
  - intros j. rewrite lookup_slot_insert. case_decide as Hj; [done|]. intros Huj.
    destruct (fr_used s P R j Huj) as (k' & p' & Hp & Es). exists k', p'. split; [|done].
    rewrite lookup_delete_ne; [done|]. intros <-. rewrite Hk in Hp. simplify_eq.
  - destruct (fr_alloc s P R) as (rs & Hrs & HP). exists rs. split; [done|].
    intros k' p' [Hp _]%Hdiff. by eapply HP.
  - intros k1 k2 p1 p2 [H1 _]%Hdiff [H2 _]%Hdiff. by apply (fr_apart s P R).
  - apply R.
Qed.

Lemma rep_host s P h : ftl_rep s P -> ftl_rep (set_host h s) P.
Proof. intros []. by constructor. Qed.
End rep.

(** ** The commands *)

Section commands.
Context `{AL : AllocatorLaws} (L : nat).
Context (HL : (L <= 16)%nat).
Implicit Types (s : kv_ftl) (P : gmap bytes place) (M : gmap bytes (bytes * Z)).

(** The device stores [M]: values, each with the room its allocation reserved. *)
Definition ftl_holds s M : Prop := exists P, ftl_rep L s P /\ M = contents P.

(** The command names the key [k] with its inline bytes. *)
Definition names_key (cmd : nvme_kv_command) (k : bytes) : Prop :=
  length (c_key cmd) = 16%nat /\ cmd_key_length cmd = Z.of_nat L /\ k = take L (c_key cmd).

(** The pages of a command for [n] bytes. *)
Definition cmd_segs host (cmd : nvme_kv_command) (n : Z) : option (list (Z * Z)) :=
  prp_segs (prp_fuel n) host cmd n prp_start.

(** A command that reads from the device writes to pages that overlap neither each
    other nor the list of pages. *)
Definition pages_ok host cmd n segs : Prop :=
  pairwise_apart segs /\ forall host', same_outside segs host host' -> cmd_segs host' cmd n = Some segs.

(** What the caller has to see to. *)
Definition io_pre s M (cmd : nvme_kv_command) (k : bytes) : Prop :=
  let len := cmd_value_length cmd in
  if c_opcode cmd =? nvme_cmd_kv_store then
    0 < len /\ is_Some (cmd_segs (kf_host s) cmd len) /\
    match M !! k with
    | None => va_room (kf_alloc s) len /\ Z.of_nat (size M) < kf_hash_slots s
    | Some (v, cap) => len <= cap /\
        (len = Z.of_nat (length v) \/ len <= SMALL_LENGTH /\ Z.of_nat (length v) <= SMALL_LENGTH)
    end
  else if c_opcode cmd =? nvme_cmd_kv_retrieve then
    match M !! k with
    | None => True
    | Some (v, _) => exists segs, pages_ok (kf_host s) cmd (Z.min (Z.of_nat (length v)) len) segs
    end
  else if c_opcode cmd =? nvme_cmd_kv_delete then
    forall i, used (kf_table s) i -> take L (me_key (lookup_slot (kf_table s) i)) = k ->
      is_free (lookup_slot (kf_table s) (next_of (kf_table s) i)) = true
  else True.

(** What the command does to the map and to host memory, and what it answers. *)
Definition io_post M (cmd : nvme_kv_command) (k : bytes) (host host' : memory)
    (r : Z * option Z) M' : Prop :=
  let len := cmd_value_length cmd in
  if c_opcode cmd =? nvme_cmd_kv_store then
    r = (0, None) /\ host' = host /\
    exists segs, cmd_segs host cmd len = Some segs /\
      M' = <[k := (gathered host segs, from_option snd (va_reserve len) (M !! k))]> M
  else if c_opcode cmd =? nvme_cmd_kv_retrieve then
    M' = M /\
    match M !! k with
    | None => r = (0, Some KV_ERR_KEY_NOT_EXIST) /\ host' = host
    | Some (v, _) =>
      let n := Z.min (Z.of_nat (length v)) len in
      r = (n, None) /\ exists segs, cmd_segs host cmd n = Some segs /\
        gathered host' segs = take (Z.to_nat n) v /\ same_outside segs host host'
    end
  else if c_opcode cmd =? nvme_cmd_kv_exist then
    M' = M /\ host' = host /\
    r = (0, match M !! k with Some _ => None | None => Some KV_ERR_KEY_NOT_EXIST end)
  else if c_opcode cmd =? nvme_cmd_kv_delete then
    host' = host /\ M' = delete k M /\
    r = (0, match M !! k with Some _ => None | None => Some KV_ERR_KEY_NOT_EXIST end)
  else M' = M /\ host' = host /\ r = (0, None).

Lemma wp_cmd_key X cmd k (Q : bytes -> kv_ftl -> Prop) s :
  names_key cmd k -> Q k s -> wp X (cmd_key cmd) Q s.
Proof.
  intros (Hl & Hn & ->) HQ. unfold wp, cmd_key. rewrite Hl, Hn.
  replace (Z.of_nat L <=? Z.of_nat 16) with true by bool_lia. simpl. by rewrite Nat2Z.id.
Qed.

Lemma names_key_length cmd k : names_key cmd k -> length k = L.
Proof. intros (Hl & _ & ->). rewrite length_take. lia. Qed.

Lemma contents_lookup P k :
  contents P !! k = (fun p => (pl_val p, pl_cap p)) <$> P !! k.
Proof. unfold contents. apply lookup_fmap. Qed.

Lemma cmd_value_length_nonneg cmd : 0 <= cmd_value_length cmd.
Proof. unfold cmd_value_length. pose proof (wrap_in_word 32 (Z.shiftl (c_value_len cmd) 2)). unfold in_word in *. lia. Qed.

(** A store of a new key. *)
Lemma wp_store_new X cmd k segs (Q : Z * option Z -> kv_ftl -> Prop) s P :
  ftl_rep L s P -> names_key cmd k -> P !! k = None -> c_opcode cmd = nvme_cmd_kv_store ->
  0 < cmd_value_length cmd -> cmd_segs (kf_host s) cmd (cmd_value_length cmd) = Some segs ->
  va_room (kf_alloc s) (cmd_value_length cmd) -> Z.of_nat (size P) < kf_hash_slots s ->
  (forall s' p, ftl_rep L s' (<[k := p]> P) -> kf_host s' = kf_host s ->
     kf_hash_slots s' = kf_hash_slots s ->
     pl_val p = gathered (kf_host s) segs -> pl_cap p = va_reserve (cmd_value_length cmd) ->
     Q (0, None) s') ->
  wp X (new_offset ← allocate_mem_offset cmd;
        _ ← kv_io_loop (prp_fuel (cmd_value_length cmd)) cmd (cmd_value_length cmd) new_offset prp_start;
        _ ← new_mapping_entry cmd new_offset;
        mret (0, None)) Q s.
Proof.
  intros R Hcmd Hk Hop Hlen Hsegs Hroom Hsz HQ. pose proof (names_key_length _ _ Hcmd) as HkL.
  destruct (fr_alloc L s P R) as (rs & Hrs & HPrs).
  destruct (free_slot L s P R Hsz) as (f & Hf & Hff).
  pose proof (va_reserve_ge _ _ Hroom) as Hres. pose proof (fr_size L s P R) as Hnof.
  pose proof (length_gathered _ _ (kf_host s) _ _ _ _ (Z.lt_le_incl _ _ Hlen) Hsegs) as Hgl.
  apply wp_bind. unfold allocate_mem_offset, allocate_mem_offset_by_length. rewrite Hop, Z.eqb_refl.
  apply wp_bind, wp_zoom.
  eapply wp_exit_mono; [eapply wp_mono; [by eapply va_allocate_ok; [exact Hrs|lia|exact Hroom]|]|done].
  intros off a' (Ho & Hos & Hap & Hrs'). cbn beta.
  replace (off =? NO_OFFSET) with false by (symmetry; apply Z.eqb_neq; lia). apply wp_ret, wp_bind.
  eapply wp_kv_io_store; [done|lia|done|simpl; lia|exact Hsegs|].
  apply wp_bind. unfold new_mapping_entry. apply wp_bind. eapply wp_cmd_key; [done|].
  apply wp_new_mapping_entry; [apply R|lia|simpl; lia|lia|by exists f|].
  intros i e t' TA Ekey Eoff Elen. apply wp_ret. simpl in TA. rewrite HkL in Ekey.
  eapply (HQ _ (Place i off (va_reserve (cmd_value_length cmd)) (gathered (kf_host s) segs)));
    try done.
  apply (rep_add L s P k i e off (va_reserve (cmd_value_length cmd)) (gathered (kf_host s) segs) a' t' rs);
    try done; lia.
Qed.

(** A store to a key that is there. *)
Lemma wp_store_old X cmd k segs p e (Q : Z * option Z -> kv_ftl -> Prop) s P :
  ftl_rep L s P -> names_key cmd k -> P !! k = Some p -> c_opcode cmd = nvme_cmd_kv_store ->
  me_length e = pl_len p -> cmd_value_length cmd <= pl_cap p ->
  cmd_value_length cmd = pl_len p \/ cmd_value_length cmd <= SMALL_LENGTH /\ pl_len p <= SMALL_LENGTH ->
  cmd_segs (kf_host s) cmd (cmd_value_length cmd) = Some segs ->
  (forall s', ftl_rep L s' (<[k := Place (pl_slot p) (pl_off p) (pl_cap p) (gathered (kf_host s) segs)]> P) ->
     kf_host s' = kf_host s -> kf_hash_slots s' = kf_hash_slots s -> Q (0, None) s') ->
  wp X (_ ← kv_io_loop (prp_fuel (cmd_value_length cmd)) cmd (cmd_value_length cmd) (pl_off p) prp_start;
        match store_kind (cmd_value_length cmd) e with
        | IsResize => _ ← update_mapping_entry cmd; mret (0, None)
        | _ => mret (0, None)
        end) Q s.
Proof.
  intros R Hcmd Hk Hop Hel Hcap Hkind Hsegs HQ. pose proof (names_key_length _ _ Hcmd) as HkL.
  pose proof (cmd_value_length_nonneg cmd) as Hnn.
  pose proof (length_gathered _ _ (kf_host s) _ _ _ _ Hnn Hsegs) as Hgl.
  destruct (fr_stored L s P R k p Hk) as (Ho1 & Ho2 & Ho3 & _).
  destruct (fr_entry L s P R k p Hk) as (Hu & _ & Eo & El).
  apply wp_bind. eapply wp_kv_io_store; [done|done|done|lia|exact Hsegs|].
  set (g := gathered (kf_host s) segs) in *. unfold store_kind. rewrite Hel.
  assert (Hrep : forall e', e' = lookup_slot (kf_table s) (pl_slot p) \/
    e' = MapEntry (me_key (lookup_slot (kf_table s) (pl_slot p))) (pl_off p) (me_length e')
          (next_of (kf_table s) (pl_slot p)) -> me_length e' = Z.of_nat (length g) ->
    ftl_rep L (set_table (<[pl_slot p := e']> (kf_table s))
             (set_storage (mem_write (kf_storage s) (pl_off p) g) s))
      (<[k := Place (pl_slot p) (pl_off p) (pl_cap p) g]> P))
    by (intros; apply rep_replace; try done; lia).
  case_if E; bool_to_prop.
  - apply wp_ret, HQ; [|done|done]. specialize (Hrep _ (or_introl eq_refl)).
    rewrite insert_id in Hrep.
    + apply Hrep. by rewrite El, Hgl.
    + unfold lookup_slot. apply used_in_dom in Hu. apply elem_of_dom in Hu as [x Hx]. by rewrite Hx.
  - replace ((cmd_value_length cmd <=? SMALL_LENGTH) && (pl_len p <=? SMALL_LENGTH)) with true by lia.
    apply wp_bind. unfold update_mapping_entry. apply wp_bind. eapply wp_cmd_key; [done|].
    apply wp_bind. eapply wp_search; [by eapply (rep_table L s P)|done|lia|]. rewrite Hk. simpl.
    apply wp_bind, wp_read_slot; [by eapply used_range; [apply R|]|].
    apply wp_bind, wp_write_slot; [by eapply used_range; [apply R|]|].
    apply wp_ret, wp_ret, HQ; [|done|done]. simpl. rewrite Eo. apply Hrep; [by right|done].
Qed.

(** A retrieve of a key that is there. *)
Lemma wp_retrieve_old X cmd k p e segs (Q : Z * option Z -> kv_ftl -> Prop) s P :
  ftl_rep L s P -> P !! k = Some p -> c_opcode cmd = nvme_cmd_kv_retrieve ->
  me_mem_offset e = pl_off p -> me_length e = pl_len p ->
  let n := Z.min (pl_len p) (cmd_value_length cmd) in
  pages_ok (kf_host s) cmd n segs ->
  (forall host', same_outside segs (kf_host s) host' ->
     gathered host' segs = take (Z.to_nat n) (pl_val p) -> Q (n, None) (set_host host' s)) ->
  wp X (let length := Z.min (me_length e) (cmd_value_length cmd) in
        _ ← kv_io_loop (prp_fuel length) cmd length (me_mem_offset e) prp_start;
        mret (length, None)) Q s.
Proof.
  intros R Hk Hop Eo El n [Hap Hst] HQ. cbv zeta. rewrite Eo, El. fold n.
  destruct (fr_stored L s P R k p Hk) as (Ho1 & Ho2 & Ho3 & Hval).
  pose proof (cmd_value_length_nonneg cmd) as Hnn. unfold pl_len in *.
  apply wp_bind. eapply (wp_kv_io_retrieve X _ cmd n _ _ segs segs (kf_host s)); try done; try lia.
  intros host' Hsame Hg. apply wp_ret, HQ; [done|]. rewrite Hg, <- Hval.
  rewrite take_mem_read by lia. done.
Qed.

Lemma fmap_delete_contents P k : contents (delete k P) = delete k (contents P).
Proof. unfold contents. apply fmap_delete. Qed.

(** C14: the key-value commands of the emulated device act on a map.  From a device
    that stores [M] (keys of one length up to 16), under either allocator: a store
    puts the bytes of the command's host pages under the key, a retrieve copies the
    value (or as much as fits) to the pages and changes no other byte of host
    memory, exist and delete answer whether the key is there, and in every case
    the device stores the resulting map afterwards.  Required are room for a new
    value, pages that do not overlap, an update no longer than the room of the old
    value (and of the same length, or both at most 1024 bytes), and for a delete
    that the entry is the last of its chain. *)
Theorem kv_commands_refine_map cmd k s M :
  ftl_holds s M -> names_key cmd k -> io_pre s M cmd k ->
  wp never (do_perform_kv_io cmd) (fun r s' => exists M', ftl_holds s' M' /\
    kf_hash_slots s' = kf_hash_slots s /\ io_post M cmd k (kf_host s) (kf_host s') r M') s.
Proof.
  intros (P & R & ->) Hcmd Hpre. pose proof (names_key_length _ _ Hcmd) as HkL.
  unfold do_perform_kv_io, get_mapping_entry. apply wp_bind, wp_bind. eapply wp_cmd_key; [done|].
  unfold io_pre, io_post in *. rewrite contents_lookup in *.
  assert (Hhold : forall s' P', ftl_rep L s' P' -> ftl_holds s' (contents P'))
    by (intros; eexists; eauto).
  eapply wp_get_mapping_entry; [done|done|lia| |].
  - intros Hk. rewrite Hk in *. cbn [fmap option_fmap option_map from_option] in *. change (is_free cleared_entry) with true. cbv iota.
    destruct (c_opcode cmd =? nvme_cmd_kv_store) eqn:Eop.
    + destruct Hpre as (Hlen & [segs Hsegs] & Hroom & Hsz). bool_to_prop.
      eapply wp_store_new; try done; [by unfold contents in Hsz; rewrite map_size_fmap in Hsz|].
      intros s' p R' Hh Hs Hv Hc. exists (contents (<[k := p]> P)).
      split_and!; [by eauto|done|done|done|]. exists segs. split; [done|].
      unfold contents. by rewrite fmap_insert, Hv, Hc.
    + destruct (c_opcode cmd =? nvme_cmd_kv_retrieve) eqn:Er; [apply wp_ret; exists (contents P); by split_and!; auto|].
      destruct (c_opcode cmd =? nvme_cmd_kv_exist) eqn:Ee; [apply wp_ret; exists (contents P); by split_and!; auto|].
      destruct (c_opcode cmd =? nvme_cmd_kv_delete) eqn:Ed; apply wp_ret; exists (contents P);
        [|by split_and!; auto].
      split_and!; try done; [by eauto|]. symmetry. apply delete_id. by rewrite contents_lookup, Hk.
  - intros p e Hk Hu Eo El. rewrite Hk in *. cbn [fmap option_fmap option_map from_option] in *. rewrite Hu.
    destruct (c_opcode cmd =? nvme_cmd_kv_store) eqn:Eop.
    + destruct Hpre as (Hlen & [segs Hsegs] & Hcap & Hkind). bool_to_prop. rewrite Eo.
      eapply wp_store_old; try done. intros s' R' Hh Hs.
      eexists. split_and!; [by eauto|done|done|done|]. exists segs. split; [done|].
      unfold contents. by rewrite fmap_insert.
    + destruct (c_opcode cmd =? nvme_cmd_kv_retrieve) eqn:Er.
      { destruct Hpre as (segs & Hpages). bool_to_prop.
        eapply wp_retrieve_old; try done. intros host' Hsame Hg. exists (contents P).
        split_and!; [by eapply Hhold, rep_host|done|done|done|].
        exists segs. split_and!; try done. by apply (proj2 Hpages). }
      destruct (c_opcode cmd =? nvme_cmd_kv_exist) eqn:Ee; [apply wp_ret; exists (contents P); by split_and!; auto|].
      destruct (c_opcode cmd =? nvme_cmd_kv_delete) eqn:Ed; [|apply wp_ret; exists (contents P); by split_and!; auto].
      destruct (fr_entry L s P R k p Hk) as (Hup & Ekey & _).
      apply wp_bind. unfold delete_mapping_entry. apply wp_bind. eapply wp_cmd_key; [done|].
      apply wp_bind. eapply wp_search; [by apply rep_table|done|lia|]. rewrite Hk. simpl.
      apply wp_write_slot; [by eapply used_range; [apply R|]|]. apply wp_ret.
      exists (contents (delete k P)). split_and!; try done.
      * eapply Hhold, rep_delete; [done|done|by apply Hpre].
      * apply fmap_delete_contents.
Qed.
End commands.

(** ** A device with the append-only allocator *)

Lemma lookup_slot_empty i : lookup_slot ∅ i = init_entry.
Proof. done. Qed.

(** A new namespace stores nothing. *)
Lemma init_holds `{AL : AllocatorLaws} L n a iters storage size host :
  0 < n <= 2 ^ 31 -> size < NO_OFFSET -> va_holds a size [] ->
  ftl_holds L (KvFtl ∅ n a iters storage size host) ∅.
Proof.
  intros Hn Hsz Ha. exists ∅. split; [|by unfold contents; rewrite fmap_empty].
  constructor; simpl; try done.
  - constructor; try done. intros i. exists []. by constructor.
  - by exists [].
Qed.

Module Sample.

Definition slots : Z := KV_MAPPING_TABLE_SIZE / KV_MAPPING_ENTRY_SIZE.

(** Two keys of 16 bytes with the same hash slot: user000000008928 and
    user000000022578. *)
Definition key_a : bytes := [117; 115; 101; 114; 48; 48; 48; 48; 48; 48; 48; 48; 56; 57; 50; 56].
Definition key_b : bytes := [117; 115; 101; 114; 48; 48; 48; 48; 48; 48; 48; 50; 50; 53; 55; 56].

Definition host : memory := mem_write ∅ 4096 [1; 2; 3; 4; 5; 6; 7; 8].

(** [words] words from or to the page at [page]. *)
Definition command (opcode : Z) (key : bytes) (words page : Z) : nvme_kv_command :=
  KvCmd opcode key 15 words page 0 0 0 0 0 0.

Definition device : kv_ftl (VA := AppendOnly.append_only_ops) :=
  KvFtl (VA := AppendOnly.append_only_ops) ∅ slots (AppendOnly.Statics 0 65536 0)
    (replicate 16 (Some None) ++ [None]) ∅ 65536 host.

(** Carry out commands, collecting the answers. *)
Fixpoint run (cmds : list nvme_kv_command) : prog (kv_ftl (VA := AppendOnly.append_only_ops))
    (list (Z * option Z)) :=
  match cmds with
  | [] => mret []
  | c :: cmds' => r ← kv_perform_nvme_io_cmd c; rs ← run cmds'; mret (r :: rs)
  end.

Definition answers (cmds : list nvme_kv_command) : option (list (Z * option Z)) :=
  match run cmds device with Done rs _ => Some rs | _ => None end.

(** The host bytes at [page] after the commands. *)
Definition host_after (cmds : list nvme_kv_command) (page n : Z) : option bytes :=
  match run cmds device with Done _ s => Some (mem_read (kf_host s) page n) | _ => None end.
End Sample.
Import Sample.

Lemma device_holds : ftl_holds (AL := AppendOnly.append_only_laws) 16 device ∅.
Proof.
  apply init_holds; [done|done|]. split_and!; try done.
Qed.

Lemma kv_commands_refine_map_witness :
  io_pre (AL := AppendOnly.append_only_laws) 16 device ∅ (command nvme_cmd_kv_store key_a 2 4096) key_a /\
  wp never (do_perform_kv_io (command nvme_cmd_kv_store key_a 2 4096)) (fun r s' =>
    exists M', ftl_holds (AL := AppendOnly.append_only_laws) 16 s' M' /\ kf_hash_slots s' = kf_hash_slots device /\
      io_post (AL := AppendOnly.append_only_laws) ∅ (command nvme_cmd_kv_store key_a 2 4096) key_a (kf_host device) (kf_host s') r M')
    device.
Proof.
  assert (Hpre : io_pre (AL := AppendOnly.append_only_laws) 16 device ∅ (command nvme_cmd_kv_store key_a 2 4096) key_a).
  { split; [done|]. split; [by exists [(4096, 8)]|]. split; [|done].
    unfold AppendOnly.room. simpl. split_and!; try done. }
  split; [exact Hpre|].
  apply (kv_commands_refine_map (AL := AppendOnly.append_only_laws) 16 (le_n 16) (command nvme_cmd_kv_store key_a 2 4096) key_a device ∅);
    [exact device_holds|by split_and!|exact Hpre].
Defined.

(** Deleting a pair can lose another.  Two keys that share a hash slot are
    stored; both are there; when the first is deleted its entry is overwritten,
    link included, and the second is no longer found. *)
Theorem kv_delete_loses_chained :
  answers [command nvme_cmd_kv_store key_a 1 4096; command nvme_cmd_kv_store key_b 1 4096;
           command nvme_cmd_kv_exist key_b 0 0; command nvme_cmd_kv_delete key_a 0 0;
           command nvme_cmd_kv_exist key_b 0 0] =
  Some [(0, None); (0, None); (0, None); (0, None); (0, Some KV_ERR_KEY_NOT_EXIST)].
Proof. vm_compute. reflexivity. Qed.

(** With the append-only allocator a longer update overwrites the next value.
    Two values of four bytes lie next to each other; storing eight bytes under the
    first key succeeds and changes the value read under the second. *)
Theorem kv_longer_update_corrupts :
  host_after [command nvme_cmd_kv_store key_a 1 4096; command nvme_cmd_kv_store key_b 1 4096;
              command nvme_cmd_kv_retrieve key_b 1 8192] 8192 4 = Some [1; 2; 3; 4] /\
  host_after [command nvme_cmd_kv_store key_a 1 4096; command nvme_cmd_kv_store key_b 1 4096;
              command nvme_cmd_kv_store key_a 2 4096;
              command nvme_cmd_kv_retrieve key_b 1 8192] 8192 4 = Some [5; 6; 7; 8].
Proof. split; vm_compute; reflexivity. Qed.

(** The sixteenth iterator handle is never initialised: fifteen iterators can be
    opened, with handles 1 to 15, and opening another one reads an indeterminate
    pointer. *)
Theorem kv_sixteenth_iterator_undefined :
  let open := KvCmd nvme_cmd_kv_iter_req [] 0 0 0 0 0 0 ITER_OPTION_OPEN 0 0 in
  answers (replicate 15 open) = Some ((fun i => (i, Some 0)) <$> seqZ 1 15) /\
  match run (replicate 16 open) device with Undef => True | _ => False end.
Proof. split; vm_compute; done. Qed.
