(* ===== verification/KvFtlIter.v ===== *)
(** * Iterators of the KV flash translation layer

    An iterator reports the keys of the table that match its prefix, up to 51 of
    them per read; reading until the end reports each of them once. *)
From S2P Require Import Prelude FtlAlloc KvFtl KvFtlSpec.

Section iter.
Context {VA : ValueAllocator}.
Implicit Types (t : gmap Z mapping_entry) (e : mapping_entry) (s : kv_ftl) (h : kv_iter_context).

(** How the buffer reports an entry: the length of the key, and the key. *)
Definition key_record e : bytes := le_bytes 4 iter_keylen ++ take 16 (me_key e).

(** The entries the iterator reports among the [n] slots from [pos] on. *)
Definition matching t h (pos n : Z) : list mapping_entry :=
  List.filter (iter_match h) (lookup_slot t <$> seqZ pos n).

Definition records (es : list mapping_entry) : bytes := es ≫= key_record.

Lemma matching_nil t h pos : matching t h pos 0 = [].
Proof. done. Qed.

Lemma matching_cons t h pos n :
  0 < n -> matching t h pos n =
    (if iter_match h (lookup_slot t pos) then [lookup_slot t pos] else []) ++ matching t h (pos + 1) (n - 1).
Proof.
  intros Hn. unfold matching. rewrite seqZ_cons by done. rewrite Z.add_1_r, Z.sub_1_r. simpl.
  by destruct (iter_match h (lookup_slot t pos)).
Qed.

Lemma matching_app t h pos n k :
  0 <= n -> 0 <= k -> matching t h pos (n + k) = matching t h pos n ++ matching t h (pos + n) k.
Proof. intros. unfold matching. by rewrite seqZ_app, fmap_app, List.filter_app. Qed.

Lemma length_key_record e : length (me_key e) = 18%nat -> length (key_record e) = 20%nat.
Proof. intros He. unfold key_record. rewrite length_app, length_take, He. done. Qed.

Lemma records_cons e es : records (e :: es) = key_record e ++ records es.
Proof. done. Qed.

Lemma records_app es es' : records (es ++ es') = records es ++ records es'.
Proof. unfold records. apply bind_app. Qed.

Lemma length_records es :
  Forall (fun e => length (me_key e) = 18%nat) es -> length (records es) = (20 * length es)%nat.
Proof.
  induction 1 as [|e es He _ IH]; [done|].
  rewrite records_cons, length_app, IH, length_key_record by done. simpl. lia.
Qed.

(** The scan reports a run of the matching entries and stops at the end of the
    table, or with a full buffer before a matching entry. *)
Lemma iter_scan_spec n t h pos nr buf es pos' off' nr' buf' fin :
  (forall i, length (me_key (lookup_slot t i)) = 18%nat) ->
  Forall (fun e => length (me_key e) = 18%nat) es -> nr = Z.of_nat (length es) -> nr <= 51 ->
  mem_read buf 4 (20 * nr) = records es ->
  iter_scan n t h pos (4 + 20 * nr) nr buf = (pos', off', nr', buf', fin) ->
  pos <= pos' <= pos + Z.of_nat n /\
  let es' := es ++ matching t h pos (pos' - pos) in
  nr' = Z.of_nat (length es') /\ nr' <= 51 /\ off' = 4 + 20 * nr' /\
  mem_read buf' 4 (20 * nr') = records es' /\
  (if fin : bool then pos' = pos + Z.of_nat n else n = O \/ nr' = 51 /\ pos' < pos + Z.of_nat n).
Proof.
  intros Hkey. revert pos nr buf es. induction n as [|n IH]; intros pos nr buf es Hes Hnr Hle Hbuf Hscan.
  { simpl in Hscan. simplify_eq. rewrite Z.sub_diag, matching_nil, app_nil_r.
    split; [lia|]. split_and!; try done. by left. }
  simpl in Hscan. set (e := lookup_slot t pos) in *. unfold iter_keylen in *.
  destruct (iter_match h e && (1024 <? 4 + 20 * nr + 4 + 16)) eqn:Efull; simpl in Hscan.
  { bool_to_prop. simplify_eq. rewrite Z.sub_diag, matching_nil, app_nil_r.
    split; [lia|]. split_and!; try done. right. lia. }
  set (es1 := es ++ if iter_match h e then [e] else []).
  assert (exists nr1 buf1, nr1 = Z.of_nat (length es1) /\ nr1 <= 51 /\
    mem_read buf1 4 (20 * nr1) = records es1 /\
    match n with
    | O => (pos + 1, 4 + 20 * nr1, nr1, buf1, true)
    | _ => iter_scan n t h (pos + 1) (4 + 20 * nr1) nr1 buf1
    end = (pos', off', nr', buf', fin)) as (nr1 & buf1 & Hnr1 & Hle1 & Hbuf1 & Hscan1).
  { subst es1. destruct (iter_match h e) eqn:Em; simpl in *.
    - bool_to_prop. exists (nr + 1), (mem_write (mem_write buf (4 + 20 * nr) (le_bytes 4 16))
        (4 + 20 * nr + 4) (take 16 (me_key e))).
      rewrite length_app. cbn [length]. split_and!; [lia|lia| |].
      + replace (20 * (nr + 1)) with (20 * nr + 20) by lia. rewrite mem_read_app by lia.
        rewrite records_app. f_equal.
        * rewrite !mem_read_write_apart; [done| |]; unfold apart; simpl; rewrite ?length_take; lia.
        * change (4 + 20 * nr + 4) with (4 + 20 * nr + Z.of_nat (length (le_bytes 4 16))).
          rewrite mem_write_app, records_cons, app_nil_r. fold iter_keylen. fold (key_record e).
          replace 20 with (Z.of_nat (length (key_record e))) at 3; [apply mem_read_write|].
          by rewrite (length_key_record e (Hkey pos)).
      + rewrite <- Hscan. replace (4 + 20 * (nr + 1)) with (4 + 20 * nr + 4 + 16) by lia. done.
    - exists nr, buf. rewrite app_nil_r. split_and!; done. }
  assert (Hes1 : Forall (fun e => length (me_key e) = 18%nat) es1).
  { subst es1. apply Forall_app. split; [done|]. destruct (iter_match h e); [|constructor].
    constructor; [apply Hkey|constructor]. }
  assert (Hstep : forall p, pos + 1 <= p -> es ++ matching t h pos (p - pos) =
    es1 ++ matching t h (pos + 1) (p - (pos + 1))).
  { intros p Hp. subst es1. rewrite matching_cons, app_assoc by lia. fold e. do 2 f_equal. lia. }
  destruct n as [|n].
  - simplify_eq. rewrite Hstep, Z.sub_diag, matching_nil, app_nil_r by lia.
    split; [lia|]. split_and!; try done.
  - destruct (IH _ _ _ _ Hes1 Hnr1 Hle1 Hbuf1 Hscan1) as (Hpos & H1 & H2 & H3 & H4 & H5).
    cbv zeta. rewrite Hstep by lia. split; [lia|]. split_and!; try done.
    destruct fin; [lia|]. destruct H5 as [|[H5 H6]]; [done|right; split; [done|lia]].
Qed.

(** One page takes the whole buffer. *)
Lemma wp_scatter_one X cmd buf n (Q : unit -> kv_ftl -> Prop) s :
  0 < n -> c_prp1 cmd mod PAGE_SIZE + n <= PAGE_SIZE ->
  Q tt (set_host (mem_write (kf_host s) (c_prp1 cmd) (mem_read buf 0 n)) s) ->
  wp X (scatter_loop (prp_fuel n) cmd buf n 0 prp_start) Q s.
Proof.
  intros Hn Hp HQ. unfold prp_fuel. cbn [scatter_loop]. replace (n =? 0) with false by lia.
  pose proof (Z.mod_pos_bound (c_prp1 cmd) PAGE_SIZE eq_refl) as Hm.
  apply wp_bind. eapply wp_next_page.
  { unfold prp_next. simpl. reflexivity. }
  cbn beta iota. replace (Z.min n PAGE_SIZE) with n by lia.
  replace (PAGE_SIZE <? n + c_prp1 cmd mod PAGE_SIZE) with false by lia. rewrite andb_false_r.
  apply wp_bind, wp_modify. rewrite Z.sub_diag. by destruct (Z.to_nat n).
Qed.

Lemma wp_read_handle X i x (Q : option kv_iter_context -> kv_ftl -> Prop) s :
  arr_get (kf_iter_handle s) i = Some x -> Q x s -> wp X (read_handle i) Q s.
Proof. unfold wp, read_handle. by intros ->. Qed.

Lemma wp_write_handle X i x x' (Q : unit -> kv_ftl -> Prop) s :
  arr_get (kf_iter_handle s) i = Some x ->
  (forall l, arr_get l i = Some x' -> Q tt (set_iters l s)) -> wp X (write_handle i x') Q s.
Proof.
  intros Hi HQ. unfold write_handle. apply wp_bind, wp_get, wp_bind.
  unfold arr_get in *. destruct (0 <=? i) eqn:E; [|done].
  destruct (kf_iter_handle s !! Z.to_nat i) as [y|] eqn:Ey; [|done].
  pose proof (lookup_lt_Some _ _ _ Ey) as Hlt.
  apply wp_arr_write; [lia|]. apply wp_put, HQ. by rewrite list_lookup_insert_eq.
Qed.

Definition at_pos h (pos : Z) (buf : memory) : kv_iter_context :=
  IterCtx (it_prefix h) (it_bitmask h) buf pos.

Lemma matching_at_pos t h p b pos n : matching t (at_pos h p b) pos n = matching t h pos n.
Proof. done. Qed.

(** One read: a page of records, and where the next read goes on. *)
Lemma wp_kv_iter_read X cmd h (Q : Z * option Z -> kv_ftl -> Prop) s :
  (forall i, length (me_key (lookup_slot (kf_table s) i)) = 18%nat) ->
  arr_get (kf_iter_handle s) (c_iter_handle cmd) = Some (Some h) ->
  0 <= it_current_pos h < kf_hash_slots s -> c_prp1 cmd mod PAGE_SIZE + 1024 <= PAGE_SIZE ->
  (forall pos' buf l host' (fin : bool),
     let es := matching (kf_table s) h (it_current_pos h) (pos' - it_current_pos h) in
     it_current_pos h <= pos' <= kf_hash_slots s ->
     arr_get l (c_iter_handle cmd) = Some (Some (at_pos h pos' buf)) ->
     mem_read host' (c_prp1 cmd) (4 + 20 * Z.of_nat (length es)) =
       le_bytes 4 (Z.of_nat (length es)) ++ records es ->
     (if fin then pos' = kf_hash_slots s else length es = 51%nat /\ pos' < kf_hash_slots s) ->
     Q (4 + 20 * Z.of_nat (length es), Some (if fin then 915 else 0)) (set_host host' (set_iters l s))) ->
  wp X (kv_iter_read cmd) Q s.
Proof.
  intros Hkey Hh Hpos Hpage HQ. unfold kv_iter_read. apply wp_bind. eapply wp_read_handle; [exact Hh|].
  apply wp_bind, wp_get.
  destruct (iter_scan _ _ _ _ _ _ _) as [[[[pos' off'] nr'] buf'] fin] eqn:Escan.
  apply (iter_scan_spec _ _ _ _ 0 _ []) in Escan as (Hp' & Hnr & Hle & Hoff & Hbuf & Hfin);
    [|done|constructor|done|lia|done].
  rewrite Z2Nat.id in Hp', Hfin by lia. cbn [app] in *.
  set (es := matching (kf_table s) h (it_current_pos h) (pos' - it_current_pos h)) in *.
  apply wp_bind. eapply wp_write_handle; [exact Hh|]. intros l Hl. apply wp_bind.
  apply wp_scatter_one; [lia|lia|]. apply wp_ret. rewrite Hoff, Hnr.
  eapply HQ; [lia|exact Hl| |].
  - fold es. set (img := mem_write buf' 0 _).
    assert (E : mem_read img 0 (4 + 20 * Z.of_nat (length es)) =
      le_bytes 4 (Z.of_nat (length es)) ++ records es).
    { subst img. rewrite mem_read_app by lia. f_equal; [apply mem_read_write|].
      rewrite mem_read_write_apart by (unfold apart; simpl; lia). by rewrite <- Hnr. }
    rewrite <- E.
    pose proof (mem_read_write (kf_host (set_iters l s)) (c_prp1 cmd)
      (mem_read img 0 (4 + 20 * Z.of_nat (length es)))) as E2.
    rewrite length_mem_read in E2 by lia. exact E2.
  - fold es. destruct fin; [lia|]. destruct Hfin as [|[? ?]]; [lia|]. split; lia.
Qed.

(** The host reads until the device says that there is no more. *)
Fixpoint read_all (fuel : nat) (cmd : nvme_kv_command) : prog kv_ftl bytes :=
  match fuel with
  | O => undefined
  | S n =>
    r ← kv_iter_read cmd;
    s ← get;
    let page := mem_read (kf_host s) (c_prp1 cmd + 4) (r.1 - 4) in
    if bool_decide (r.2 = Some 915) then mret page
    else rest ← read_all n cmd; mret (page ++ rest)
  end.

Lemma wp_read_all X fuel cmd h (Q : bytes -> kv_ftl -> Prop) s :
  (forall i, length (me_key (lookup_slot (kf_table s) i)) = 18%nat) ->
  arr_get (kf_iter_handle s) (c_iter_handle cmd) = Some (Some h) ->
  0 <= it_current_pos h < kf_hash_slots s -> c_prp1 cmd mod PAGE_SIZE + 1024 <= PAGE_SIZE ->
  kf_hash_slots s - it_current_pos h <= Z.of_nat fuel ->
  (forall s', kf_table s' = kf_table s ->
     Q (records (matching (kf_table s) h (it_current_pos h) (kf_hash_slots s - it_current_pos h))) s') ->
  wp X (read_all fuel cmd) Q s.
Proof.
  revert h Q s. induction fuel as [|n IH]; intros h Q s Hkey Hh Hpos Hpage Hfuel HQ; [lia|].
  cbn [read_all]. apply wp_bind. eapply wp_kv_iter_read; [done|exact Hh|done|done|].
  intros pos' buf l host' fin es Hp' Hl Himg Hfin. apply wp_bind, wp_get.
  set (s1 := set_host host' (set_iters l s)).
  assert (Hpg : mem_read (kf_host s1) (c_prp1 cmd + 4) (4 + 20 * Z.of_nat (length es) - 4) = records es).
  { rewrite mem_read_app in Himg by lia. apply app_inj_1 in Himg as [_ Himg].
    - by replace (4 + 20 * Z.of_nat (length es) - 4) with (20 * Z.of_nat (length es)) by lia.
    - pose proof (length_mem_read host' (c_prp1 cmd) 4). simpl. lia. }
  simpl fst. rewrite Hpg. destruct fin; simpl.
  - apply wp_ret. subst pos'. apply HQ. done.
  - destruct Hfin as [H51 Hlt]. apply wp_bind. apply (IH (at_pos h pos' buf) _ s1); try done; simpl.
    + lia.
    + assert (pos' <> it_current_pos h); [|lia]. intros E. subst es. rewrite E, Z.sub_diag in H51. done.
    + intros s' Hs'. apply wp_ret. rewrite matching_at_pos. subst es. rewrite <- records_app.
      replace (kf_hash_slots s - pos') with (kf_hash_slots s - it_current_pos h - (pos' - it_current_pos h)) by lia.
      replace pos' with (it_current_pos h + (pos' - it_current_pos h)) at 2 by lia.
      rewrite <- matching_app by lia.
      replace (pos' - it_current_pos h + _) with (kf_hash_slots s - it_current_pos h) by lia.
      by apply HQ.
Qed.

End iter.

(** ** A small table *)

Module Sample.
Definition entry (first : Z) : mapping_entry :=
  MapEntry (first :: replicate 17 7) 0 4 NO_SLOT.

Definition table : gmap Z mapping_entry := {[ 1 := entry 65; 2 := entry 66; 5 := entry 65 ]}.

(** Keys that begin with the byte 65. *)
Definition handle : kv_iter_context := IterCtx 65 255 ∅ 0.

Definition device : kv_ftl (VA := AppendOnly.append_only_ops) :=
  KvFtl (VA := AppendOnly.append_only_ops) table 8 (AppendOnly.Statics 0 4096 0)
    [Some None; Some (Some handle)] ∅ 4096 ∅.

Definition read_cmd : nvme_kv_command := KvCmd nvme_cmd_kv_iter_read [] 0 0 8192 0 0 1 0 0 0.
End Sample.

