(* ===== verification/IoSched.v ===== *)
(** * Completion times of the simple devices (lib/nvmevirt: simple_ftl.c, kv_ftl.c)

    Both devices keep, per I/O unit, the time at which it is free again, and give a
    command the time at which the last of the units it touches is done.  Times are
    64-bit nanoseconds. *)
From S2P Require Import Prelude KvFtl.

Definition LBA_BITS : Z := 9.
Definition nvme_cmd_flush : Z := 0.
Definition nvme_cmd_write : Z := 1.
Definition nvme_cmd_read : Z := 2.

(** The part of [struct nvmev_config] the scheduler reads. *)
Record io_config := IoConfig {
  nr_io_units : Z;
  io_unit_shift : Z;
  read_delay : Z;
  read_time : Z;
  read_trailing : Z;
  write_delay : Z;
  write_time : Z;
  write_trailing : Z
}.

(** [delay], [latency] and [trailing] of a command. *)
Record timing := Timing { tm_delay : Z; tm_latency : Z; tm_trailing : Z }.

Section sched.
Context (cfg : io_config).

Definition write_timing : timing := Timing (write_delay cfg) (write_time cfg) (write_trailing cfg).
Definition read_timing : timing := Timing (read_delay cfg) (read_time cfg) (read_trailing cfg).
Definition no_timing : timing := Timing 0 0 0.

(** The [do ... while (length > 0)] loop over [io_unit_stat]. *)
Fixpoint unit_loop (fuel : nat) (tm : timing) (size io_unit left length latest : Z)
    : prog (list Z) Z :=
  match fuel with
  | O => undefined
  | S n =>
    stat ← get;
    if Z.of_nat (List.length stat) <=? io_unit then undefined else
    let latest := u64 (latest + tm_latency tm) in
    _ ← put (<[Z.to_nat io_unit :=
               if 0 <? left then u64 (latest + tm_trailing tm) else latest]> stat);
    let length := length - Z.min length size in
    let io_unit := if nr_io_units cfg <=? io_unit + 1 then 0 else io_unit + 1 in
    if 0 <? length then unit_loop n tm size io_unit (left - 1) length latest else mret latest
  end.

Definition div_round_up (n d : Z) : Z := (n + d - 1) / d.

Definition schedule_units (tm : timing) (lba length nsecs_start : Z) : prog (list Z) Z :=
  let io_unit_size := Z.shiftl 1 (io_unit_shift cfg) in
  if (io_unit_shift cfg <? LBA_BITS) || (nr_io_units cfg =? 0) then undefined else
  let io_unit := Z.shiftr lba (io_unit_shift cfg - LBA_BITS) mod nr_io_units cfg in
  let left := Z.min (nr_io_units cfg) (div_round_up length io_unit_size) in
  stat ← get;
  match stat !! Z.to_nat io_unit with
  | None => undefined
  | Some free_at =>
    let latest := u64 (Z.max nsecs_start free_at + tm_delay tm) in
    unit_loop (S (Z.to_nat (length / io_unit_size))) tm io_unit_size io_unit left length latest
  end.

(** [__schedule_io_units] of kv_ftl.c, with its classes of commands. *)
Definition kv_schedule_io_units (opcode lba length nsecs_start : Z) : prog (list Z) Z :=
  schedule_units
    (if (opcode =? nvme_cmd_write) || (opcode =? nvme_cmd_kv_store) || (opcode =? nvme_cmd_kv_batch)
     then write_timing
     else if (opcode =? nvme_cmd_read) || (opcode =? nvme_cmd_kv_retrieve) then read_timing
     else no_timing) lba length nsecs_start.

(** [__schedule_io_units] of simple_ftl.c. *)
Definition simple_schedule_io_units (opcode lba length nsecs_start : Z) : prog (list Z) Z :=
  schedule_units
    (if opcode =? nvme_cmd_write then write_timing
     else if opcode =? nvme_cmd_read then read_timing else no_timing) lba length nsecs_start.

(** The loop of [__schedule_flush], from unit [i], [n] to go. *)
Fixpoint flush_loop (n : nat) (i latest : Z) : prog (list Z) Z :=
  match n with
  | O => mret latest
  | S n' =>
    stat ← get;
    match stat !! Z.to_nat i with
    | None => undefined
    | Some x => flush_loop n' (i + 1) (Z.max latest x)
    end
  end.

Definition schedule_flush : prog (list Z) Z := flush_loop (Z.to_nat (nr_io_units cfg)) 0 0.

(** [__cmd_io_size]: the length field counts blocks from zero. *)
Definition cmd_io_size (length : Z) : Z := Z.shiftl (length + 1) LBA_BITS.

(** The commands [proc_io_cmd] gets: opcode, block address and length of a
    read or write, and the length of the value of a key-value command.  [None]: the
    target time is left as it was. *)
Definition kv_proc_nvme_io_cmd (opcode slba blocks value_len now : Z) : prog (list Z) (option Z) :=
  if (opcode =? nvme_cmd_write) || (opcode =? nvme_cmd_read) then
    t ← kv_schedule_io_units opcode slba (u32 (cmd_io_size blocks)) now; mret (Some t)
  else if opcode =? nvme_cmd_flush then t ← schedule_flush; mret (Some t)
  else if (opcode =? nvme_cmd_kv_store) || (opcode =? nvme_cmd_kv_retrieve)
          || (opcode =? nvme_cmd_kv_batch) then
    t ← kv_schedule_io_units opcode 0 value_len now; mret (Some t)
  else mret None.

Definition simple_proc_nvme_io_cmd (opcode slba blocks now : Z) : prog (list Z) (option Z) :=
  if (opcode =? nvme_cmd_write) || (opcode =? nvme_cmd_read) then
    t ← simple_schedule_io_units opcode slba (u32 (cmd_io_size blocks)) now; mret (Some t)
  else if opcode =? nvme_cmd_flush then t ← schedule_flush; mret (Some t)
  else mret None.

(** ** Closed forms *)

(** Units touched by a transfer: at least one. *)
Definition units_of (length size : Z) : Z := Z.max 1 (div_round_up length size).

Lemma div_round_up_step length size :
  0 < size -> 0 <= length ->
  units_of length size = 1 + (if 0 <? length - Z.min length size
                              then units_of (length - Z.min length size) size else 0).
Proof.
  intros Hs Hl. unfold units_of, div_round_up. destruct (Z.le_gt_cases length size) as [Hle|Hgt].
  - rewrite Z.min_l by lia. rewrite Z.sub_diag. simpl.
    assert ((length + size - 1) / size <= 1); [|lia].
    assert ((length + size - 1) / size < 2); [|lia]. apply Z.div_lt_upper_bound; lia.
  - rewrite Z.min_r by lia. replace (0 <? length - size) with true by lia.
    replace (length + size - 1) with (1 * size + (length - size + size - 1)) by lia.
    rewrite Z.div_add_l by lia.
    assert (1 <= (length - size + size - 1) / size); [|lia]. apply Z.div_le_lower_bound; lia.
Qed.

Lemma wp_unit_loop X fuel tm size io_unit left length latest (Q : Z -> list Z -> Prop) stat :
  0 < size -> 0 <= length -> length / size < Z.of_nat fuel ->
  Z.of_nat (List.length stat) = nr_io_units cfg -> 0 <= io_unit < nr_io_units cfg ->
  0 <= tm_latency tm -> 0 <= latest -> latest + tm_latency tm * units_of length size < 2 ^ 64 ->
  (forall stat', List.length stat' = List.length stat ->
     Q (latest + tm_latency tm * units_of length size) stat') ->
  wp X (unit_loop fuel tm size io_unit left length latest) Q stat.
Proof.
  intros Hs. revert io_unit left length latest stat.
  induction fuel as [|n IH]; intros io_unit left length latest stat Hl Hf Hst Hu Hlat Hlt Hov HQ.
  { pose proof (Z.div_pos length size). lia. }
  simpl. apply wp_bind, wp_get.
  replace (Z.of_nat (List.length stat) <=? io_unit) with false by bool_lia.
  rewrite (div_round_up_step length size Hs Hl) in *.
  assert (Hpos : 0 <= (if 0 <? length - Z.min length size
    then units_of (length - Z.min length size) size else 0)) by (unfold units_of; case_if E; lia).
  rewrite wrap_small by (unfold in_word; nia).
  apply wp_bind, wp_put. destruct (0 <? length - Z.min length size) eqn:E; bool_to_prop.
  - rewrite Z.min_r in * by lia. apply IH; try lia.
    + replace length with (1 * size + (length - size)) in Hf by lia.
      rewrite Z.div_add_l in Hf by lia. lia.
    + by rewrite length_insert.
    + case_if E2; lia.
    + intros stat' Hlen. rewrite length_insert in Hlen.
      replace (latest + tm_latency tm + _) with (latest + tm_latency tm * (1 + units_of (length - size) size)) by lia.
      by apply HQ.
  - apply wp_ret. replace (latest + tm_latency tm) with (latest + tm_latency tm * (1 + 0)) by lia.
    apply HQ. by rewrite length_insert.
Qed.

(** Completion times.  As long as no time overflows, a transfer is done at the
    later of its start and the time its first unit is free, plus the delay of its
    class, plus one latency per I/O unit it covers (at least one): the loop over the
    units equals the closed form, for reads and writes and, in the key-value
    device, for stores, batches and retrieves. *)
Theorem schedule_completion tm lba length start stat free_at :
  0 < nr_io_units cfg -> Z.of_nat (List.length stat) = nr_io_units cfg ->
  LBA_BITS <= io_unit_shift cfg -> 0 <= length -> 0 <= start -> 0 <= free_at ->
  0 <= tm_delay tm -> 0 <= tm_latency tm ->
  stat !! Z.to_nat (Z.shiftr lba (io_unit_shift cfg - LBA_BITS) mod nr_io_units cfg) = Some free_at ->
  let done_at := Z.max start free_at + tm_delay tm
                 + tm_latency tm * units_of length (2 ^ io_unit_shift cfg) in
  done_at < 2 ^ 64 ->
  wp never (schedule_units tm lba length start) (fun t stat' =>
    t = done_at /\ List.length stat' = List.length stat) stat.
Proof.
  intros Hn Hst Hsh Hl Hs Hfr Hd Hlat Hfree done_at Hov. unfold schedule_units, LBA_BITS in *.
  replace (io_unit_shift cfg <? 9) with false by lia. replace (nr_io_units cfg =? 0) with false by lia.
  cbn [orb]. apply wp_bind, wp_get. rewrite Hfree. rewrite Z.shiftl_1_l.
  assert (0 < 2 ^ io_unit_shift cfg) as Hsz by lia.
  assert (0 <= tm_latency tm * units_of length (2 ^ io_unit_shift cfg)) as Hnn
    by (unfold units_of; nia).
  rewrite wrap_small by (unfold in_word; subst done_at; lia).
  pose proof (Z.div_pos length (2 ^ io_unit_shift cfg)).
  pose proof (Z.mod_pos_bound (Z.shiftr lba (io_unit_shift cfg - 9)) (nr_io_units cfg) Hn).
  apply wp_unit_loop; lia || done.
Qed.
End sched.

(** ** A device of two units *)

Module Sample.
Definition config : io_config := IoConfig 2 12 0 10 0 0 10 0.

(** Ten writes of one unit to unit 1, then one of two units from unit 0 on, then a
    flush, all at time 0. *)
Definition writes_and_flush : prog (list Z) (list Z * Z) :=
  ts ← mapM (fun _ : nat => simple_schedule_io_units config nvme_cmd_write 8 4096 0) (seq 0 10);
  _ ← simple_schedule_io_units config nvme_cmd_write 0 8192 0;
  f ← schedule_flush config;
  mret (ts, f).
End Sample.

Lemma schedule_completion_witness :
  Z.of_nat (length [5; 0]) = 2 /\
  wp never (schedule_units Sample.config (write_timing Sample.config) 0 8192 3) (fun t stat' =>
    t = 25 /\ length stat' = 2%nat) [5; 0].
Proof.
  split; [reflexivity|].
  apply (schedule_completion Sample.config (write_timing Sample.config) 0 8192 3 [5; 0] 5);
    vm_compute; done.
Defined.

(** A flush can be over before an earlier write.  A transfer that covers several
    units sets the time of every unit after the first without looking at how busy
    it was: after ten writes to one unit, the last of which is done at 100, a write
    across both units takes the unit back to 20, and a flush is done at 20. *)
Theorem flush_before_pending_write :
  match Sample.writes_and_flush [0; 0] with
  | Done (ts, f) _ => last ts = Some 100 /\ f = 20
  | _ => False
  end.
Proof. vm_compute. done. Qed.
