(* ===== verification/Pqueue.v ===== *)
(** * The priority queue of the emulator (lib/nvmevirt/pqueue/pqueue.c)

    A binary heap in an array whose cell 0 is not used.  The elements are objects
    of the client: their priority and their position in the array are read and
    written through callbacks.  The queue works against the interface
    [PqCallbacks], and its theorems rely on the laws [PqLaws] only. *)
From S2P Require Import Prelude.

(** ** The client's objects *)

Class PqCallbacks (Obj El : Type) := {
  cmppri : Z -> Z -> bool;
  getpri : Obj -> El -> option Z;
  setpri : El -> Z -> Obj -> option Obj;
  getpos : Obj -> El -> option Z;
  setpos : El -> Z -> Obj -> option Obj
}.

(** [None] is a dangling element.  [cmppri] says that its second argument has to
    come out first; its negation is a total preorder.  Setting the priority or
    position of a live element changes nothing else. *)
Class PqLaws (Obj El : Type) {CB : PqCallbacks Obj El} := {
  cmppri_asym a b : cmppri a b = true -> cmppri b a = false;
  cmppri_trans a b c : cmppri a b = false -> cmppri b c = false -> cmppri a c = false;
  getpri_getpos o e : is_Some (getpri o e) <-> is_Some (getpos o e);
  setpos_live o e i : is_Some (getpos o e) -> is_Some (setpos e i o);
  setpri_live o e p : is_Some (getpos o e) -> is_Some (setpri e p o);
  getpos_setpos o e i o' : setpos e i o = Some o' -> getpos o' e = Some i;
  getpos_setpos_ne o e i o' e' : setpos e i o = Some o' -> e' <> e -> getpos o' e' = getpos o e';
  getpri_setpos o e i o' e' : setpos e i o = Some o' -> getpri o' e' = getpri o e';
  getpri_setpri o e p o' : setpri e p o = Some o' -> getpri o' e = Some p;
  getpri_setpri_ne o e p o' e' : setpri e p o = Some o' -> e' <> e -> getpri o' e' = getpri o e';
  getpos_setpri o e p o' e' : setpri e p o = Some o' -> getpos o' e' = getpos o e'
}.

(** ** The queue *)

(** The macros on indices, of type [size_t]. *)
Definition left (i : Z) : Z := u64 (Z.shiftl i 1).
Definition right (i : Z) : Z := u64 (u64 (Z.shiftl i 1) + 1).
Definition parent (i : Z) : Z := Z.shiftr i 1.

Record pqueue_t (El : Type) := Pq {
  q_size : Z;                    (** one more than the number of elements *)
  q_avail : Z;
  q_step : Z;
  q_d : list (option El)
}.
Arguments Pq {El}.
Arguments q_size {El}.
Arguments q_avail {El}.
Arguments q_step {El}.
Arguments q_d {El}.

Section pqueue.
Context {Obj El : Type} {CB : PqCallbacks Obj El}.

(** The state the operations run on: the queue and the client's objects. *)
Abbreviation pq_state := (pqueue_t El * Obj)%type.

(** The arguments are the results of the two calls of [kmalloc]. *)
Definition pqueue_init (alloc_q alloc_d : bool) (n : Z) : option (pqueue_t El) :=
  if negb alloc_q then None
  else if negb alloc_d then None
  else Some (Pq 1 (u64 (n + 1)) (u64 (n + 1)) (fresh_array (u64 (n + 1)))).

Definition pqueue_size (q : pqueue_t El) : Z := u64 (q_size q - 1).

Definition q_read (i : Z) : prog pq_state El := fun s => arr_read (q_d (fst s)) i s.

Definition q_write (i : Z) (e : El) : prog pq_state unit := fun s =>
  match arr_write (q_d (fst s)) i e s with
  | Done d _ => Done tt (Pq (q_size (fst s)) (q_avail (fst s)) (q_step (fst s)) d, snd s)
  | Undef => Undef
  | Exit s' => Exit s'
  end.

Definition q_get_size : prog pq_state Z := fun s => Done (q_size (fst s)) s.
Definition q_set_size (n : Z) : prog pq_state unit := fun s =>
  Done tt (Pq n (q_avail (fst s)) (q_step (fst s)) (q_d (fst s)), snd s).

(** Calls of the callbacks. *)
Definition call_getpri (e : El) : prog pq_state Z := fun s =>
  match getpri (snd s) e with Some p => Done p s | None => Undef end.
Definition call_setpri (e : El) (p : Z) : prog pq_state unit := fun s =>
  match setpri e p (snd s) with Some o => Done tt (fst s, o) | None => Undef end.
Definition call_getpos (e : El) : prog pq_state Z := fun s =>
  match getpos (snd s) e with Some i => Done i s | None => Undef end.
Definition call_setpos (e : El) (i : Z) : prog pq_state unit := fun s =>
  match setpos e i (snd s) with Some o => Done tt (fst s, o) | None => Undef end.

(** The loop of [bubble_up]; it ends with the index of the hole. *)
Fixpoint bubble_loop (fuel : nat) (moving_pri i : Z) : prog pq_state Z :=
  match fuel with
  | O => undefined
  | S n =>
    if 1 <? i then
      e ← q_read (parent i);
      p ← call_getpri e;
      if cmppri p moving_pri then
        _ ← q_write i e;
        _ ← call_setpos e i;
        bubble_loop n moving_pri (parent i)
      else mret i
    else mret i
  end.

Definition bubble_up (i : Z) : prog pq_state unit :=
  moving_node ← q_read i;
  moving_pri ← call_getpri moving_node;
  i' ← bubble_loop (S (Z.to_nat i)) moving_pri i;
  _ ← q_write i' moving_node;
  call_setpos moving_node i'.

Definition maxchild (i : Z) : prog pq_state Z :=
  let child_node := left i in
  size ← q_get_size;
  if size <=? child_node then mret 0
  else if u64 (child_node + 1) <? size then
    l ← q_read child_node; pl ← call_getpri l;
    r ← q_read (u64 (child_node + 1)); pr ← call_getpri r;
    mret (if cmppri pl pr then u64 (child_node + 1) else child_node)
  else mret child_node.

Fixpoint percolate_loop (fuel : nat) (moving_pri i : Z) : prog pq_state Z :=
  match fuel with
  | O => undefined
  | S n =>
    child_node ← maxchild i;
    if child_node =? 0 then mret i else
    e ← q_read child_node;
    p ← call_getpri e;
    if cmppri moving_pri p then
      _ ← q_write i e;
      _ ← call_setpos e i;
      percolate_loop n moving_pri child_node
    else mret i
  end.

Definition percolate_down (i : Z) : prog pq_state unit :=
  moving_node ← q_read i;
  moving_pri ← call_getpri moving_node;
  size ← q_get_size;
  i' ← percolate_loop (S (Z.to_nat size)) moving_pri i;
  _ ← q_write i' moving_node;
  call_setpos moving_node i'.

(** The first argument says whether the queue pointer is not null. *)
Definition pqueue_insert (q : bool) (d : El) : prog pq_state Z :=
  if negb q then mret 1 else
  i ← q_get_size;
  _ ← q_set_size (u64 (i + 1));
  _ ← q_write i d;
  _ ← bubble_up i;
  mret 0.

Definition pqueue_change_priority (new_pri : Z) (d : El) : prog pq_state unit :=
  old_pri ← call_getpri d;
  _ ← call_setpri d new_pri;
  posn ← call_getpos d;
  if cmppri old_pri new_pri then bubble_up posn else percolate_down posn.

Definition pqueue_remove (d : El) : prog pq_state Z :=
  posn ← call_getpos d;
  size ← q_get_size;
  _ ← q_set_size (u64 (size - 1));
  last ← q_read (u64 (size - 1));
  _ ← q_write posn last;
  pd ← call_getpri d;
  e ← q_read posn;
  pe ← call_getpri e;
  _ ← if cmppri pd pe then bubble_up posn else percolate_down posn;
  mret 0.

Definition pqueue_pop (q : bool) : prog pq_state (option El) :=
  if negb q then mret None else
  size ← q_get_size;
  if size =? 1 then mret None else
  head ← q_read 1;
  _ ← q_set_size (u64 (size - 1));
  last ← q_read (u64 (size - 1));
  _ ← q_write 1 last;
  _ ← percolate_down 1;
  mret (Some head).

Definition pqueue_peek (q : bool) : prog pq_state (option El) :=
  if negb q then mret None else
  size ← q_get_size;
  if size =? 1 then mret None else
  d ← q_read 1;
  mret (Some d).

(** [subtree_is_valid]; [pos] is an [int], and twice it must be one. *)
Fixpoint subtree_is_valid (fuel : nat) (pos : Z) : prog pq_state bool :=
  match fuel with
  | O => undefined
  | S n =>
    let l := Z.shiftl pos 1 in
    let r := Z.shiftl pos 1 + 1 in
    if 2 ^ 31 <=? r then undefined else
    size ← q_get_size;
    let check child : prog pq_state bool :=
      if child <? size then
        e ← q_read pos; p ← call_getpri e;
        c ← q_read child; pc ← call_getpri c;
        if cmppri p pc then mret false else subtree_is_valid n child
      else mret true in
    ok ← check l;
    if negb ok then mret false else check r
  end.

Definition pqueue_is_valid : prog pq_state bool :=
  size ← q_get_size;
  subtree_is_valid (S (Z.to_nat size)) 1.

End pqueue.
