(* ===== verification/PqueueProps.v ===== *)
(** * The priority queue keeps a set (proofs about Pqueue)

    [pq_rep]: the array holds the elements of a finite set once each, each element
    knows its index, and no element has to come out before its parent.  Every
    operation keeps it and acts on the set; what comes out is an element no other
    one has to precede. *)
From S2P Require Import Prelude Pqueue.

(** ** Indices *)

Lemma parent_spec c i : parent c = i <-> 2 * i <= c <= 2 * i + 1.
Proof.
  unfold parent. rewrite Z.shiftr_div_pow2 by lia. change (2 ^ 1) with 2.
  split; intros; Z.to_euclidean_division_equations; lia.
Qed.

Lemma parent_bounds c : 2 * parent c <= c <= 2 * parent c + 1.
Proof. by apply parent_spec. Qed.

Lemma left_small i : 0 <= i < 2 ^ 62 -> left i = 2 * i.
Proof.
  intros. unfold left. rewrite Z.shiftl_mul_pow2 by lia. change (2 ^ 1) with 2.
  rewrite wrap_small by (unfold in_word; lia). lia.
Qed.

Definition fill {A} (i : Z) (x : A) (d : list (option A)) : list (option A) :=
  <[Z.to_nat i := Some x]> d.

Lemma length_fill {A} i (x : A) d : length (fill i x d) = length d.
Proof. apply length_insert. Qed.

Lemma arr_get_fill {A} i (x : A) d j :
  0 <= i < Z.of_nat (length d) ->
  arr_get (fill i x d) j = if decide (j = i) then Some x else arr_get d j.
Proof.
  intros Hi. unfold arr_get, fill. destruct (Z.leb_spec 0 j); case_decide; try lia; try done.
  - subst. rewrite list_lookup_insert_eq by lia. done.
  - rewrite list_lookup_insert_ne by lia. done.
Qed.

Section order.
Context {Obj El : Type} {CB : PqCallbacks Obj El} {L : PqLaws Obj El}.
Implicit Types f g : Z -> Z.

Abbreviation le_pri a b := (cmppri (Obj := Obj) (El := El) a b = false).

Lemma cmppri_irrefl a : le_pri a a.
Proof. destruct (cmppri a a) eqn:E; [|done]. by apply cmppri_asym in E as E'; congruence. Qed.

(** ** Heap order on the priorities of the cells [1 .. n-1] *)

Definition heap (n : Z) f : Prop :=
  forall j, 2 <= j < n -> le_pri (f (parent j)) (f j).

(** Heap order but for the cell [i]; the cells around it are ordered. *)
Definition heap_except (n i : Z) f : Prop :=
  (forall j, 2 <= j < n -> j <> i -> parent j <> i -> le_pri (f (parent j)) (f j)) /\
  (forall c, 2 <= c < n -> parent c = i -> 1 < i -> le_pri (f (parent i)) (f c)).

Definition below_ok (n i : Z) f : Prop :=
  forall c, 2 <= c < n -> parent c = i -> le_pri (f i) (f c).
Definition above_ok (i : Z) f : Prop := 1 < i -> le_pri (f (parent i)) (f i).

Lemma heap_of_except n i f : heap_except n i f -> below_ok n i f -> above_ok i f -> heap n f.
Proof.
  intros [H _] Hb Ha j Hj. destruct (decide (j = i)) as [->|]; [apply Ha; lia|].
  destruct (decide (parent j = i)) as [<-|]; [by apply Hb|auto].
Qed.

Lemma except_of_heap n i f : heap n f -> heap_except n i f /\ below_ok n i f /\ (i < n -> above_ok i f).
Proof.
  intros H. repeat split.
  - auto.
  - intros c Hc E Hi. pose proof (parent_bounds c). pose proof (parent_bounds i).
    apply (cmppri_trans _ (f i)); [apply H; lia|]. subst. apply H. lia.
  - intros c Hc <-. auto.
  - intros Hi ?. apply H. lia.
Qed.

(** One turn of the loop of [bubble_up]: the hole moves to its parent. *)
Lemma bubble_step n i f g :
  1 < i < n -> heap_except n i f -> below_ok n i f ->
  cmppri (f (parent i)) (f i) = true ->
  g (parent i) = f i -> g i = f (parent i) ->
  (forall j, j <> i -> j <> parent i -> g j = f j) ->
  heap_except n (parent i) g /\ below_ok n (parent i) g.
Proof.
  intros Hi [Hh Hg] Hb Hc Ep Ei Eo. pose proof (parent_bounds i) as Bi.
  pose proof (cmppri_asym _ _ Hc) as Hc'.
  assert (Hpp : 1 < parent i -> le_pri (f (parent (parent i))) (f (parent i))).
  { intros. pose proof (parent_bounds (parent i)). apply Hh; lia. }
  assert (Hsib : forall s, 2 <= s < n -> parent s = parent i -> s <> i ->
                 le_pri (f (parent i)) (f s)).
  { intros s Hs Es Hne. pose proof (parent_bounds s). rewrite <- Es. apply Hh; lia. }
  assert (Epp : parent (parent i) <> i /\ parent (parent i) <> parent i).
  { pose proof (parent_bounds (parent i)). lia. }
  repeat split.
  - intros j Hj Hjp Hjpp. pose proof (parent_bounds j) as Bj. destruct (decide (j = i)); [congruence|].
    rewrite (Eo j) by done. destruct (decide (parent j = i)) as [E|].
    + rewrite E, Ei. apply Hg; [done..|lia].
    + rewrite Eo by done. by apply Hh.
  - intros c Hcr E Hp1. rewrite Eo by tauto. destruct (decide (c = i)) as [->|].
    + rewrite Ei. auto.
    + pose proof (parent_bounds c). rewrite Eo by lia.
      apply (cmppri_trans _ (f (parent i))); auto.
  - intros c Hcr E. rewrite Ep. destruct (decide (c = i)) as [->|]; [by rewrite Ei|].
    pose proof (parent_bounds c). rewrite Eo by lia. apply (cmppri_trans _ (f (parent i))); auto.
Qed.

(** One turn of the loop of [percolate_down]: the hole moves to a child that no
    other child precedes. *)
Lemma percolate_step n i c f g :
  1 <= i -> 2 <= c < n -> parent c = i -> heap_except n i f -> above_ok i f ->
  (forall c', 2 <= c' < n -> parent c' = i -> le_pri (f c) (f c')) ->
  cmppri (f i) (f c) = true ->
  g c = f i -> g i = f c -> (forall j, j <> i -> j <> c -> g j = f j) ->
  heap_except n c g /\ above_ok c g.
Proof.
  intros Hi Hc Epc [Hh Hg] Ha Hmax Hlt Ec Ei Eo. pose proof (parent_bounds c) as Bc.
  pose proof (cmppri_asym _ _ Hlt) as Hlt'.
  assert (Hne : i <> c) by lia.
  repeat split.
  - intros j Hj Hjc Hpjc. pose proof (parent_bounds j) as Bj. destruct (decide (parent j = i)) as [E|].
    + rewrite E, Ei, Eo by lia. auto.
    + destruct (decide (j = i)) as [->|].
      * rewrite Ei, Eo by lia. apply Hg; [done..|lia].
      * rewrite !Eo by done. auto.
  - intros g' Hg' E Hc1. rewrite Epc, Ei. pose proof (parent_bounds g'). rewrite Eo by lia.
    rewrite <- E. apply Hh; lia.
  - intros Hc1. by rewrite Epc, Ei, Ec.
Qed.

End order.

(** ** The array *)

Section array.
Context {Obj El : Type} `{Countable El} {CB : PqCallbacks Obj El} {L : PqLaws Obj El}.
Implicit Types (d : list (option El)) (o : Obj) (X : gset El) (q : pqueue_t El).

(** Priority of the element of a cell. *)
Definition cell_pri d o (j : Z) : Z := default 0 (arr_get d j ≫= getpri o).

(** The cells [1 .. n-1] hold the elements of [X] once each, and the elements know
    their cell, but for the one in cell [i]. *)
Record holed (n i : Z) X d o : Prop := {
  hd_len : n <= Z.of_nat (length d);
  hd_cell j : 1 <= j < n -> exists e, arr_get d j = Some e /\ e ∈ X;
  hd_elem e : e ∈ X -> is_Some (getpos o e) /\ exists j, 1 <= j < n /\ arr_get d j = Some e;
  hd_inj j k : 1 <= j < n -> 1 <= k < n -> arr_get d j = arr_get d k -> j = k;
  hd_pos j e : 1 <= j < n -> j <> i -> arr_get d j = Some e -> getpos o e = Some j
}.

(** The objects after positions of elements of [X] were set. *)
Definition moved X : Obj -> Obj -> Prop :=
  rtc (fun a b => exists e i, e ∈ X /\ setpos e i a = Some b).

Lemma moved_pri X o o' e : moved X o o' -> getpri o' e = getpri o e.
Proof.
  induction 1 as [|? ? ? (e' & i & _ & E) _ IH]; [done|]. rewrite IH.
  by eapply getpri_setpos.
Qed.

Lemma moved_pos X o o' e : moved X o o' -> e ∉ X -> getpos o' e = getpos o e.
Proof.
  intros Hm He. induction Hm as [|? ? ? (e' & i & He' & E) _ IH]; [done|]. rewrite IH.
  eapply getpos_setpos_ne; [done|]. by intros ->.
Qed.

Lemma moved_mono X Y o o' : X ⊆ Y -> moved X o o' -> moved Y o o'.
Proof. intros HXY. apply rtc_subrel. intros ?? (e & i & ? & ?). exists e, i. set_solver. Qed.

Lemma moved_live X o o' e : moved X o o' -> is_Some (getpos o e) -> is_Some (getpos o' e).
Proof. intros Hm He. apply getpri_getpos. rewrite (moved_pri _ _ _ _ Hm). by apply getpri_getpos. Qed.

Lemma cell_pri_moved X d o o' j : moved X o o' -> cell_pri d o' j = cell_pri d o j.
Proof.
  intros Hm. unfold cell_pri. destruct (arr_get d j); simpl; [|done].
  by rewrite (moved_pri _ _ _ _ Hm).
Qed.

Lemma heap_except_ext n i f g :
  (forall j, f j = g j) -> heap_except (Obj := Obj) (El := El) n i f ->
  heap_except (Obj := Obj) (El := El) n i g.
Proof. intros E [H1 H2]. split; intros; rewrite <- !E; auto. Qed.
Lemma heap_ext n f g :
  (forall j, 1 <= j < n -> f j = g j) -> heap (Obj := Obj) (El := El) n f ->
  heap (Obj := Obj) (El := El) n g.
Proof.
  intros E H1 j Hj. pose proof (parent_bounds j). rewrite <- !E by lia. auto.
Qed.

(** The element of cell [p] moves into the hole, the moving element takes its place. *)
Lemma holed_move n X i p m e d o o' :
  1 <= i < n -> 1 <= p < n -> p <> i -> n <= Z.of_nat (length d) ->
  holed n i X (fill i m d) o -> arr_get d p = Some e -> setpos e i o = Some o' ->
  holed n p X (fill p m (fill i e d)) o'.
Proof.
  intros Hi Hp Hne Hlen [Hl Hcell Helem Hinj Hpos] Ee Es.
  assert (Eg : forall j, arr_get (fill p m (fill i e d)) j =
    if decide (j = p) then Some m else if decide (j = i) then Some e else arr_get d j).
  { intros. rewrite !arr_get_fill; rewrite ?length_fill; lia || done. }
  assert (Ef : forall j, arr_get (fill i m d) j = if decide (j = i) then Some m else arr_get d j).
  { intros. apply arr_get_fill. lia. }
  assert (Hswap : forall j, arr_get (fill p m (fill i e d)) j =
    arr_get (fill i m d) (if decide (j = p) then i else if decide (j = i) then p else j)).
  { intros j. rewrite Eg, Ef. repeat case_decide; congruence. }
  split.
  - by rewrite !length_fill.
  - intros j Hj. rewrite Hswap. apply Hcell. repeat case_decide; lia.
  - intros e' He'. destruct (Helem e' He') as (Hlive & j & Hj & E). split.
    + apply getpri_getpos. erewrite getpri_setpos by done. by apply getpri_getpos.
    + exists (if decide (j = p) then i else if decide (j = i) then p else j).
      split; [repeat case_decide; lia|]. rewrite Hswap, <- E. f_equal. repeat case_decide; lia.
  - intros j k Hj Hk E. rewrite !Hswap in E.
    apply Hinj in E; repeat case_decide; lia.
  - intros j e' Hj Hjp E. rewrite Eg in E. case_decide; [done|]. case_decide as Hji.
    + simplify_eq. by eapply getpos_setpos.
    + assert (e' <> e).
      { intros ->. apply Hjp. apply Hinj; [done..|]. rewrite !Ef.
        rewrite !decide_False by done. congruence. }
      erewrite getpos_setpos_ne by done. apply Hpos; [done..|]. rewrite Ef.
      by rewrite decide_False.
Qed.

(** The loops end by filling the hole. *)
Lemma holed_done n X i m d o o' :
  1 <= i < n -> n <= Z.of_nat (length d) ->
  holed n i X (fill i m d) o -> setpos m i o = Some o' -> holed n 0 X (fill i m d) o'.
Proof.
  intros Hi Hlen [Hl Hcell Helem Hinj Hpos] Es.
  assert (Ef : forall j, arr_get (fill i m d) j = if decide (j = i) then Some m else arr_get d j).
  { intros. apply arr_get_fill. lia. }
  split; auto.
  - intros e He. split; [|by apply Helem]. apply getpri_getpos.
    erewrite getpri_setpos by done. apply getpri_getpos. by apply Helem.
  - intros j e Hj _ E. destruct (decide (j = i)) as [->|].
    + rewrite Ef, decide_True in E by done. simplify_eq. by eapply getpos_setpos.
    + assert (e <> m).
      { intros ->. apply n0. apply Hinj; [done..|]. rewrite E, Ef. by rewrite decide_True. }
      erewrite getpos_setpos_ne by done. auto.
Qed.

End array.

(** ** The loops *)

Section loops.
Context {Obj El : Type} `{Countable El} {CB : PqCallbacks Obj El} {L : PqLaws Obj El}.
Implicit Types (d : list (option El)) (o : Obj) (X : gset El).

Lemma wp_q_read i e n av st d o (Q : El -> pqueue_t El * Obj -> Prop) :
  arr_get d i = Some e -> Q e (Pq n av st d, o) -> wp never (q_read i) Q (Pq n av st d, o).
Proof. intros E HQ. unfold wp, q_read, arr_read. simpl. by rewrite E. Qed.

Lemma wp_q_write i e n av st d o (Q : unit -> pqueue_t El * Obj -> Prop) :
  0 <= i < Z.of_nat (length d) -> Q tt (Pq n av st (fill i e d), o) ->
  wp never (q_write i e) Q (Pq n av st d, o).
Proof.
  intros Hi HQ. unfold wp, q_write, arr_write. simpl.
  by replace ((0 <=? i) && (i <? Z.of_nat (length d))) with true by bool_lia.
Qed.

Lemma wp_getpri e p q o (Q : Z -> pqueue_t El * Obj -> Prop) :
  getpri o e = Some p -> Q p (q, o) -> wp never (call_getpri e) Q (q, o).
Proof. intros E HQ. unfold wp, call_getpri. simpl. by rewrite E. Qed.

Lemma wp_getpos e i q o (Q : Z -> pqueue_t El * Obj -> Prop) :
  getpos o e = Some i -> Q i (q, o) -> wp never (call_getpos e) Q (q, o).
Proof. intros E HQ. unfold wp, call_getpos. simpl. by rewrite E. Qed.

Lemma wp_setpos e i o' q o (Q : unit -> pqueue_t El * Obj -> Prop) :
  setpos e i o = Some o' -> Q tt (q, o') -> wp never (call_setpos e i) Q (q, o).
Proof. intros E HQ. unfold wp, call_setpos. simpl. by rewrite E. Qed.

Lemma wp_setpri e p o' q o (Q : unit -> pqueue_t El * Obj -> Prop) :
  setpri e p o = Some o' -> Q tt (q, o') -> wp never (call_setpri e p) Q (q, o).
Proof. intros E HQ. unfold wp, call_setpri. simpl. by rewrite E. Qed.

Lemma wp_get_size n av st d o (Q : Z -> pqueue_t El * Obj -> Prop) :
  Q n (Pq n av st d, o) -> wp never q_get_size Q (Pq n av st d, o).
Proof. done. Qed.

(** State of a loop with its hole in cell [i] and the element [m] in hand. *)
Record hole_state (n i : Z) X (m : El) (pm : Z) d o : Prop := {
  hs_range : 1 <= i < n;
  hs_len : n <= Z.of_nat (length d);
  hs_holed : holed n i X (fill i m d) o;
  hs_pri : getpri o m = Some pm;
  hs_heap : heap_except (Obj := Obj) (El := El) n i (cell_pri (fill i m d) o)
}.

Lemma hole_get n i X m pm d o j :
  hole_state n i X m pm d o -> j <> i -> 1 <= j < n ->
  exists e p, arr_get d j = Some e /\ e ∈ X /\ e <> m /\ getpri o e = Some p /\
    cell_pri (fill i m d) o j = p /\ is_Some (getpos o e).
Proof.
  intros [Hr Hl [_ Hcell Helem Hinj _] Hm _] Hj Hjr.
  destruct (Hcell j Hjr) as (e & E & He). destruct (Helem e He) as [Hlive _].
  destruct (proj2 (getpri_getpos o e) Hlive) as [p Ep]. exists e, p. split_and!; try done.
  - rewrite arr_get_fill, decide_False in E by lia. done.
  - intros ->. apply Hj, Hinj; [done..|]. rewrite E, arr_get_fill by lia. by rewrite decide_True.
  - unfold cell_pri. by rewrite E; simpl; rewrite Ep.
Qed.

Lemma hole_cell_pri n i X m pm d o : hole_state n i X m pm d o -> cell_pri (fill i m d) o i = pm.
Proof.
  intros [Hr Hl _ Hm _]. unfold cell_pri. rewrite arr_get_fill, decide_True by lia.
  simpl. by rewrite Hm.
Qed.

(** Moving the element of cell [p] into the hole swaps the two priorities. *)
Lemma hole_move n i p X m pm d o o' e :
  hole_state n i X m pm d o -> p <> i -> 1 <= p < n -> arr_get d p = Some e ->
  setpos e i o = Some o' ->
  let f := cell_pri (fill i m d) o in
  let g := cell_pri (fill p m (fill i e d)) o' in
  holed n p X (fill p m (fill i e d)) o' /\ getpri o' m = Some pm /\
  g p = f i /\ g i = f p /\ (forall j, j <> i -> j <> p -> g j = f j).
Proof.
  intros [Hr Hl Hh Hm Hx] Hp Hpr Ee Es f g.
  assert (Hpri : forall e, getpri o' e = getpri o e) by (intros; by eapply getpri_setpos).
  split; [by eapply holed_move|]. split; [by rewrite Hpri|].
  subst f g. unfold cell_pri.
  repeat split; [| |intros j Hj1 Hj2];
    rewrite !arr_get_fill by (rewrite ?length_fill; lia); repeat case_decide; try done;
    rewrite ?Ee; simpl; try (by rewrite Hpri); try (destruct (arr_get d j); simpl; rewrite ?Hpri; done).
Qed.

(** A filled hole with its order restored. *)
Definition hole_done (n av st : Z) X (m : El) d o (i' : Z) (s : pqueue_t El * Obj) : Prop :=
  exists d' o', s = (Pq n av st d', o') /\ length d' = length d /\ moved X o o' /\
    1 <= i' < n /\ holed n i' X (fill i' m d') o' /\
    heap (Obj := Obj) (El := El) n (cell_pri (fill i' m d') o').

Lemma wp_bubble_loop fuel n av st X m pm i d o :
  (Z.to_nat i < fuel)%nat -> hole_state n i X m pm d o ->
  below_ok (Obj := Obj) (El := El) n i (cell_pri (fill i m d) o) ->
  wp never (bubble_loop fuel pm i) (hole_done n av st X m d o) (Pq n av st d, o).
Proof.
  revert i d o. induction fuel as [|fuel IH]; intros i d o Hf Hs Hb; [lia|].
  pose proof (hs_range _ _ _ _ _ _ _ Hs) as Hr. pose proof (hs_len _ _ _ _ _ _ _ Hs) as Hl.
  assert (Hstop : above_ok (Obj := Obj) (El := El) i (cell_pri (fill i m d) o) ->
    hole_done n av st X m d o i (Pq n av st d, o)).
  { intros Ha. exists d, o. do 2 (split; [done|]). split; [apply rtc_refl|]. split; [done|].
    split; [apply Hs|]. eapply heap_of_except; [apply Hs|done..]. }
  cbn [bubble_loop]. destruct (Z.ltb_spec 1 i); [|apply wp_ret, Hstop; intros ?; lia].
  pose proof (parent_bounds i) as Hp.
  destruct (hole_get _ _ _ _ _ _ _ (parent i) Hs) as (e & p & Ee & HeX & Hem & Ep & Ec & Hlive);
    [lia..|].
  apply wp_bind. eapply wp_q_read; [done|]. apply wp_bind. eapply wp_getpri; [done|].
  destruct (cmppri p pm) eqn:Ecmp; cycle 1.
  { apply wp_ret, Hstop. intros _. by rewrite Ec, (hole_cell_pri _ _ _ _ _ _ _ Hs). }
  apply wp_bind, wp_q_write; [lia|].
  destruct (setpos_live o e i Hlive) as [o' Es]. apply wp_bind. eapply wp_setpos; [done|].
  destruct (hole_move _ _ (parent i) _ _ _ _ _ _ _ Hs ltac:(lia) ltac:(lia) Ee Es)
    as (Hh' & Hm' & Gp & Gi & Go).
  rewrite <- Ec, <- (hole_cell_pri _ _ _ _ _ _ _ Hs) in Ecmp.
  destruct (bubble_step n i _ _ ltac:(lia) (hs_heap _ _ _ _ _ _ _ Hs) Hb Ecmp Gp Gi Go) as [Hx Hb'].
  eapply wp_mono; [apply IH; [lia| |exact Hb']|].
  - split; try done; rewrite ?length_fill; lia.
  - intros i' s' (d' & o'' & -> & El' & Hmv & Hrest). exists d', o''. rewrite length_fill in El'.
    split; [done|]. split; [done|]. split; [|done]. eapply rtc_l; [|exact Hmv]. by exists e, i.
Qed.

(** [maxchild]: a child no other child precedes, or 0. *)
Lemma wp_maxchild n av st X m pm i d o :
  n <= 2 ^ 62 -> hole_state n i X m pm d o ->
  let f := cell_pri (fill i m d) o in
  wp never (maxchild i) (fun c s => s = (Pq n av st d, o) /\
    (c = 0 /\ (forall c', 2 <= c' < n -> parent c' <> i) \/
     (2 <= c < n /\ parent c = i /\
      forall c', 2 <= c' < n -> parent c' = i ->
        cmppri (Obj := Obj) (El := El) (f c) (f c') = false)))
    (Pq n av st d, o).
Proof.
  intros Hn Hs f. pose proof (hs_range _ _ _ _ _ _ _ Hs) as Hr. unfold maxchild.
  apply wp_bind, wp_get_size. rewrite left_small by lia.
  destruct (Z.leb_spec n (2 * i)).
  { apply wp_ret. split; [done|]. left. split; [done|]. intros c' ? ?%parent_spec. lia. }
  rewrite (wrap_small 64 (2 * i + 1)) by (unfold in_word; lia).
  assert (Hp1 : parent (2 * i) = i) by (apply parent_spec; lia).
  assert (Hp2 : parent (2 * i + 1) = i) by (apply parent_spec; lia).
  destruct (Z.ltb_spec (2 * i + 1) n); cycle 1.
  { apply wp_ret. split; [done|]. right. split_and!; [lia..|done|].
    intros c' ? ?%parent_spec. assert (c' = 2 * i) as -> by lia. apply cmppri_irrefl. }
  destruct (hole_get _ _ _ _ _ _ _ (2 * i) Hs) as (e & p & Ee & _ & _ & Ep & Ec & _); [lia..|].
  destruct (hole_get _ _ _ _ _ _ _ (2 * i + 1) Hs) as (e' & p' & Ee' & _ & _ & Ep' & Ec' & _); [lia..|].
  apply wp_bind. eapply wp_q_read; [done|]. apply wp_bind. eapply wp_getpri; [done|].
  apply wp_bind. eapply wp_q_read; [done|]. apply wp_bind. eapply wp_getpri; [done|].
  apply wp_ret. split; [done|]. right.
  assert (Hcase : forall c', parent c' = i -> c' = 2 * i \/ c' = 2 * i + 1).
  { intros c' ?%parent_spec. lia. }
  subst f. destruct (cmppri p p') eqn:Ecmp; (split; [lia|]); (split; [done|]);
    intros c' _ [->| ->]%Hcase; rewrite ?Ec, ?Ec'; auto using cmppri_irrefl, cmppri_asym.
Qed.

Lemma wp_percolate_loop fuel n av st X m pm i d o :
  n <= 2 ^ 62 -> (Z.to_nat (n - i) < fuel)%nat -> hole_state n i X m pm d o ->
  above_ok (Obj := Obj) (El := El) i (cell_pri (fill i m d) o) ->
  wp never (percolate_loop fuel pm i) (hole_done n av st X m d o) (Pq n av st d, o).
Proof.
  intros Hn. revert i d o. induction fuel as [|fuel IH]; intros i d o Hf Hs Ha; [lia|].
  pose proof (hs_range _ _ _ _ _ _ _ Hs) as Hr. pose proof (hs_len _ _ _ _ _ _ _ Hs) as Hl.
  assert (Hstop : below_ok (Obj := Obj) (El := El) n i (cell_pri (fill i m d) o) ->
    hole_done n av st X m d o i (Pq n av st d, o)).
  { intros Hb. exists d, o. do 2 (split; [done|]). split; [apply rtc_refl|]. split; [done|].
    split; [apply Hs|]. eapply heap_of_except; [apply Hs|done..]. }
  cbn [percolate_loop]. apply wp_bind.
  eapply wp_mono; [by eapply wp_maxchild|]. intros c s [-> [[-> Hno]|(Hc & Hpc & Hmax)]].
  { apply wp_ret, Hstop. intros c' ? ?. by apply Hno in H0. }
  replace (c =? 0) with false by lia. pose proof (parent_bounds c) as Hpb.
  destruct (hole_get _ _ _ _ _ _ _ c Hs) as (e & p & Ee & HeX & Hem & Ep & Ec & Hlive); [lia..|].
  apply wp_bind. eapply wp_q_read; [done|]. apply wp_bind. eapply wp_getpri; [done|].
  destruct (cmppri pm p) eqn:Ecmp; rewrite <- Ec, <- (hole_cell_pri _ _ _ _ _ _ _ Hs) in Ecmp; cycle 1.
  { apply wp_ret, Hstop. intros c' Hc' E'. eapply cmppri_trans; [exact Ecmp|by apply Hmax]. }
  apply wp_bind, wp_q_write; [lia|].
  destruct (setpos_live o e i Hlive) as [o' Es]. apply wp_bind. eapply wp_setpos; [done|].
  destruct (hole_move _ _ c _ _ _ _ _ _ _ Hs ltac:(lia) ltac:(lia) Ee Es) as (Hh' & Hm' & Gp & Gi & Go).
  destruct (percolate_step n i c _ _ ltac:(lia) Hc Hpc (hs_heap _ _ _ _ _ _ _ Hs) Ha Hmax Ecmp Gp Gi Go)
    as [Hx Ha'].
  eapply wp_mono; [apply IH; [lia| |exact Ha']|].
  - split; try done; rewrite ?length_fill; lia.
  - intros i' s' (d' & o'' & -> & El' & Hmv & Hrest). exists d', o''. rewrite length_fill in El'.
    split; [done|]. split; [done|]. split; [|done]. eapply rtc_l; [|exact Hmv]. by exists e, i.
Qed.

(** ** Restoring the order from one cell *)

(** What the two routines leave: the array of [X] in heap order. *)
Definition settled (n av st : Z) X d o (s : pqueue_t El * Obj) : Prop :=
  exists d' o', s = (Pq n av st d', o') /\ length d' = length d /\ moved X o o' /\
    holed n 0 X d' o' /\ heap (Obj := Obj) (El := El) n (cell_pri d' o').

Lemma fill_same i (m : El) d : arr_get d i = Some m -> fill i m d = d.
Proof.
  unfold arr_get, fill. destruct (Z.leb_spec 0 i); [|done]. intros E.
  apply list_insert_id. by destruct (d !! Z.to_nat i) as [[]|]; simplify_eq/=.
Qed.

Lemma wp_hole_finish n av st X m d o i s :
  m ∈ X -> n <= Z.of_nat (length d) ->
  hole_done n av st X m d o i s ->
  wp never (_ ← q_write i m; call_setpos m i) (fun _ => settled n av st X d o) s.
Proof.
  intros HmX Hl (d' & o' & -> & El' & Hmv & Hr & Hh & Hheap).
  apply wp_bind, wp_q_write; [lia|].
  destruct (hd_elem _ _ _ _ _ Hh m HmX) as [Hlive _].
  destruct (setpos_live o' m i Hlive) as [o'' Es]. eapply wp_setpos; [done|].
  assert (Hmv' : moved X o' o'') by (apply rtc_once; by exists m, i).
  exists (fill i m d'), o''. rewrite length_fill. split; [done|]. split; [done|].
  split; [by etrans|]. split; [eapply holed_done; eauto; lia|].
  eapply heap_ext; [|exact Hheap]. intros. symmetry. by eapply cell_pri_moved.
Qed.

Section from_cell.
Context (n av st : Z) (X : gset El) (i : Z) (d : list (option El)) (o : Obj) (m : El).
Context (Hn : n <= 2 ^ 62) (Hi : 1 <= i < n) (Em : arr_get d i = Some m).
Context (Hh : holed n i X d o).
Context (Hx : heap_except (Obj := Obj) (El := El) n i (cell_pri d o)).

Lemma from_cell_state : exists pm, getpri o m = Some pm /\ m ∈ X /\ hole_state n i X m pm d o.
Proof.
  destruct (hd_cell _ _ _ _ _ Hh i Hi) as (m' & Em' & HX). assert (m' = m) as -> by congruence.
  destruct (hd_elem _ _ _ _ _ Hh m HX) as [Hlive _].
  destruct (proj2 (getpri_getpos o m) Hlive) as [pm Epm]. exists pm. split; [done|]. split; [done|].
  split; try rewrite (fill_same i m d Em); try done. apply Hh.
Qed.

Lemma wp_bubble_up :
  below_ok (Obj := Obj) (El := El) n i (cell_pri d o) ->
  wp never (bubble_up i) (fun _ => settled n av st X d o) (Pq n av st d, o).
Proof.
  intros Hb. destruct from_cell_state as (pm & Epm & HX & Hs). unfold bubble_up.
  apply wp_bind. eapply wp_q_read; [done|]. apply wp_bind. eapply wp_getpri; [done|].
  apply wp_bind. eapply wp_mono.
  - eapply (wp_bubble_loop _ n av st X m pm i); [lia|done|]. by rewrite (fill_same i m d Em).
  - intros i' s' Hd. cbn beta. apply wp_hole_finish; [done|apply Hs|done].
Qed.

Lemma wp_percolate_down :
  above_ok (Obj := Obj) (El := El) i (cell_pri d o) ->
  wp never (percolate_down i) (fun _ => settled n av st X d o) (Pq n av st d, o).
Proof.
  intros Ha. destruct from_cell_state as (pm & Epm & HX & Hs). unfold percolate_down.
  apply wp_bind. eapply wp_q_read; [done|]. apply wp_bind. eapply wp_getpri; [done|].
  apply wp_bind, wp_get_size. apply wp_bind. eapply wp_mono.
  - eapply (wp_percolate_loop _ n av st X m pm i); [done|lia|done|]. by rewrite (fill_same i m d Em).
  - intros i' s' Hd. cbn beta. apply wp_hole_finish; [done|apply Hs|done].
Qed.
End from_cell.

End loops.

(** ** The operations *)

Section operations.
Context {Obj El : Type} `{Countable El} {CB : PqCallbacks Obj El} {L : PqLaws Obj El}.
Implicit Types (d : list (option El)) (o : Obj) (X : gset El) (q : pqueue_t El).

Record pq_rep q o X : Prop := {
  pr_size : 1 <= q_size q <= q_avail q;
  pr_avail : q_avail q = Z.of_nat (length (q_d q));
  pr_bound : q_avail q <= 2 ^ 61;
  pr_holed : holed (q_size q) 0 X (q_d q) o;
  pr_heap : heap (Obj := Obj) (El := El) (q_size q) (cell_pri (q_d q) o)
}.

(** The elements of [X] that [e] does not have to follow. *)
Definition first_of o X (e : El) : Prop :=
  e ∈ X /\ forall e' p p', e' ∈ X -> getpri o e = Some p -> getpri o e' = Some p' ->
    cmppri (Obj := Obj) (El := El) p p' = false.

Lemma pq_rep_card q o X : pq_rep q o X -> Z.of_nat (size X) = q_size q - 1.
Proof.
  intros [Hs _ _ Hh _].
  set (get j := arr_get (q_d q) j).
  assert (HX : X = list_to_set (omap get (seqZ 1 (q_size q - 1)))).
  { apply set_eq. intros e. rewrite elem_of_list_to_set, list_elem_of_omap. split.
    - intros (_ & j & Hj & E)%(hd_elem _ _ _ _ _ Hh). exists j. split; [|done].
      apply elem_of_seqZ. lia.
    - intros (j & Hj%elem_of_seqZ & E). destruct (hd_cell _ _ _ _ _ Hh j) as (e' & E' & ?); [lia|].
      subst get. simpl in E. congruence. }
  assert (Hlen : forall l, (forall j, j ∈ l -> 1 <= j < q_size q) -> NoDup l ->
     NoDup (omap get l) /\ length (omap get l) = length l).
  { induction l as [|j l IH]; intros Hin Hnd; [by split; [constructor|]|].
    inversion_clear Hnd as [|? ? Hj Hnd']. destruct IH as [IH1 IH2]; [set_solver|done|].
    assert (Hjr : 1 <= j < q_size q) by (apply Hin; set_solver).
    destruct (hd_cell _ _ _ _ _ Hh j Hjr) as (e & E & _).
    assert (omap get (j :: l) = e :: omap get l) as -> by (simpl; by replace (get j) with (Some e)).
    simpl. rewrite IH2. split; [|done].
    constructor; [|done]. rewrite list_elem_of_omap. intros (k & Hk & Ek).
    apply Hj. replace j with k; [done|]. apply (hd_inj _ _ _ _ _ Hh); [|done|by subst get; simpl in *; congruence].
    apply Hin. set_solver. }
  destruct (Hlen (seqZ 1 (q_size q - 1))) as [Hnd Hl].
  { intros j Hj%elem_of_seqZ. lia. }
  { apply NoDup_seqZ. }
  rewrite HX, size_list_to_set, Hl, length_seqZ by done. lia.
Qed.

(** Objects that are not in the queue may change. *)
Lemma pq_rep_frame q o o' X :
  (forall e, e ∈ X -> getpri o' e = getpri o e /\ getpos o' e = getpos o e) ->
  pq_rep q o X -> pq_rep q o' X.
Proof.
  intros He [H1 H2 H3 [L1 L2 L3 L4 L5] H5]. split; try done.
  - split; try done.
    + intros e Hx. rewrite (proj2 (He e Hx)). auto.
    + intros j e Hj Hj0 E. destruct (L2 j Hj) as (e' & E' & Hx).
      assert (e' = e) as -> by congruence. rewrite (proj2 (He e Hx)). auto.
  - eapply heap_ext; [|exact H5]. intros j Hj. unfold cell_pri.
    destruct (L2 j Hj) as (e & E & Hx). rewrite E. simpl. by rewrite (proj1 (He e Hx)).
Qed.

(** No element precedes the one in cell 1. *)
Lemma heap_top n f j : heap (Obj := Obj) (El := El) n f -> 1 <= j < n ->
  cmppri (Obj := Obj) (El := El) (f 1) (f j) = false.
Proof.
  intros Hh. induction (Z.lt_wf 0 j) as [j _ IH]. intros Hj.
  destruct (decide (j = 1)) as [->|]; [apply cmppri_irrefl|].
  pose proof (parent_bounds j).
  apply (cmppri_trans _ (f (parent j))); [apply IH; lia|]. apply Hh. lia.
Qed.

Lemma pq_top q o X e : pq_rep q o X -> 1 < q_size q -> arr_get (q_d q) 1 = Some e -> first_of o X e.
Proof.
  intros [Hs _ _ Hh Hp] Hn E. destruct (hd_cell _ _ _ _ _ Hh 1) as (e1 & E1 & He1); [lia|].
  split; [congruence|]. intros e' p p' He' Ep Ep'.
  destruct (hd_elem _ _ _ _ _ Hh e' He') as (_ & j & Hj & Ej).
  pose proof (heap_top _ _ j Hp Hj) as Hle. unfold cell_pri in Hle.
  rewrite E, Ej in Hle. simpl in Hle. by rewrite Ep, Ep' in Hle.
Qed.

Lemma pq_rep_settled n av st X d o s :
  1 <= n <= av -> av = Z.of_nat (length d) -> av <= 2 ^ 61 -> settled n av st X d o s ->
  exists q' o', s = (q', o') /\ pq_rep q' o' X /\ q_avail q' = av /\ moved X o o'.
Proof.
  intros Hn Hav Hb (d' & o' & -> & El' & Hm & Hh & Hp). exists (Pq n av st d'), o'.
  split; [done|]. split; [|done]. by split; simpl; rewrite ?El'.
Qed.

(** Changing the priority in one cell of a heap. *)
Lemma heap_replace n n' i f g :
  n' <= n -> heap (Obj := Obj) (El := El) n f -> (forall j, 1 <= j < n' -> j <> i -> g j = f j) ->
  1 <= i < n' ->
  heap_except (Obj := Obj) (El := El) n' i g /\
  (cmppri (Obj := Obj) (El := El) (f i) (g i) = false -> above_ok (Obj := Obj) (El := El) i g) /\
  (cmppri (Obj := Obj) (El := El) (f i) (g i) = true -> below_ok (Obj := Obj) (El := El) n' i g).
Proof.
  intros Hn Hf Hg Hi. pose proof (parent_bounds i) as Bi.
  destruct (except_of_heap n i f Hf) as ([He1 He2] & Hb & Ha). repeat split.
  - intros j Hj Hji Hpj. pose proof (parent_bounds j). rewrite !Hg by lia. apply He1; lia.
  - intros c Hc E Hi1. pose proof (parent_bounds c). rewrite !Hg by lia. apply He2; lia.
  - intros Hle Hi1. rewrite Hg by lia. eapply cmppri_trans; [apply Ha; lia|done].
  - intros Hlt c Hc E. pose proof (parent_bounds c). rewrite (Hg c) by lia.
    eapply cmppri_trans; [by apply cmppri_asym|]. apply Hb; lia.
Qed.

(** The last element takes the place of the element of cell [i]. *)
Lemma holed_replace_last n X d o i e l :
  holed n 0 X d o -> 1 <= i < n - 1 -> arr_get d i = Some e -> arr_get d (n - 1) = Some l ->
  holed (n - 1) i (X ∖ {[e]}) (fill i l d) o.
Proof.
  intros [Hl Hcell Helem Hinj Hpos] Hi Ei El'.
  assert (Ef : forall j, arr_get (fill i l d) j = if decide (j = i) then Some l else arr_get d j).
  { intros. apply arr_get_fill. lia. }
  assert (Hel : forall j, 1 <= j < n -> arr_get d j = Some e -> j = i).
  { intros j Hj E. apply Hinj; [done|lia|congruence]. }
  split.
  - rewrite length_fill. lia.
  - intros j Hj. rewrite Ef. case_decide as Hji.
    + exists l. split; [done|]. destruct (Hcell (n - 1)) as (l' & E' & ?); [lia|].
      apply elem_of_difference. split; [congruence|]. intros ->%elem_of_singleton.
      apply Hel in El'; lia.
    + destruct (Hcell j) as (e' & E' & ?); [lia|]. exists e'. split; [done|].
      apply elem_of_difference. split; [done|]. intros ->%elem_of_singleton. apply Hji, Hel; [lia|done].
  - intros e' [He' Hne]%elem_of_difference. destruct (Helem e' He') as (? & j & Hj & E).
    split; [done|]. destruct (decide (j = n - 1)) as [->|].
    + exists i. split; [lia|]. rewrite Ef, decide_True by done. congruence.
    + exists j. split; [lia|]. rewrite Ef, decide_False; [done|]. intros ->. set_solver.
  - intros j k Hj Hk. rewrite !Ef. repeat case_decide; subst; try done; intros E.
    + rewrite <- El' in E. apply Hinj in E; lia.
    + rewrite <- El' in E. symmetry in E. apply Hinj in E; lia.
    + apply Hinj in E; lia.
  - intros j e' Hj Hji E. rewrite Ef, decide_False in E by done. apply Hpos; [lia..|done].
Qed.

Lemma holed_drop_last n X d o e :
  holed n 0 X d o -> 1 < n -> arr_get d (n - 1) = Some e -> holed (n - 1) 0 (X ∖ {[e]}) d o.
Proof.
  intros [Hl Hcell Helem Hinj Hpos] Hn Ei. split.
  - lia.
  - intros j Hj. destruct (Hcell j) as (e' & E' & ?); [lia|]. exists e'. split; [done|].
    apply elem_of_difference. split; [done|]. intros ->%elem_of_singleton.
    enough (j = n - 1) by lia. apply Hinj; [lia..|congruence].
  - intros e' [He' Hne]%elem_of_difference. destruct (Helem e' He') as (? & j & Hj & E).
    split; [done|]. exists j. split; [|done].
    enough (j <> n - 1) by lia. intros ->. set_solver.
  - intros j k Hj Hk. apply Hinj; lia.
  - intros j e' Hj Hji E. apply Hpos; [lia..|done].
Qed.

(** Percolating a cell that has no children only rewrites it. *)
Lemma wp_percolate_leaf n av st d o i m (Q : unit -> pqueue_t El * Obj -> Prop) :
  1 <= i <= n -> n <= 2 ^ 61 -> n <= 2 * i -> arr_get d i = Some m -> is_Some (getpos o m) ->
  0 <= i < Z.of_nat (length d) ->
  (forall o', setpos m i o = Some o' -> Q tt (Pq n av st d, o')) ->
  wp never (percolate_down i) Q (Pq n av st d, o).
Proof.
  intros Hi Hn Hleaf Em Hlive Hlen HQ. unfold percolate_down.
  apply wp_bind. eapply wp_q_read; [done|].
  destruct (proj2 (getpri_getpos o m) Hlive) as [pm Epm].
  apply wp_bind. eapply wp_getpri; [done|]. apply wp_bind, wp_get_size.
  apply wp_bind. cbn [percolate_loop]. apply wp_bind. unfold maxchild. apply wp_bind, wp_get_size.
  rewrite left_small by lia. replace (n <=? 2 * i) with true by lia. apply wp_ret. simpl.
  apply wp_ret. apply wp_bind, wp_q_write; [done|]. rewrite (fill_same i m d Em).
  destruct (setpos_live o m i Hlive) as [o' Es]. eapply wp_setpos; eauto.
Qed.

Lemma wp_set_size k n av st d o (Q : unit -> pqueue_t El * Obj -> Prop) :
  Q tt (Pq k av st d, o) -> wp never (q_set_size k) Q (Pq n av st d, o).
Proof. done. Qed.

(** What an operation leaves: the queue of the set [X'], positions set only. *)
Definition rep_after q o X' (Y : gset El) (s : pqueue_t El * Obj) : Prop :=
  exists q' o', s = (q', o') /\ pq_rep q' o' X' /\ q_avail q' = q_avail q /\ moved Y o o'.

Lemma wp_pqueue_insert q o X e :
  pq_rep q o X -> e ∉ X -> is_Some (getpos o e) -> q_size q < q_avail q ->
  wp never (pqueue_insert true e) (fun r s => r = 0 /\ rep_after q o ({[e]} ∪ X) ({[e]} ∪ X) s) (q, o).
Proof.
  intros Hrep He Hlive Hsz. destruct q as [n av st d]. destruct Hrep as [Hs Ha Hb Hh Hp]. simpl in *.
  pose proof Hh as [Hl Hcell Helem Hinj Hpos].
  unfold pqueue_insert. simpl. apply wp_bind, wp_get_size. apply wp_bind, wp_set_size.
  rewrite wrap_small by (unfold in_word; lia). apply wp_bind, wp_q_write; [lia|].
  assert (Ef : forall j, arr_get (fill n e d) j = if decide (j = n) then Some e else arr_get d j).
  { intros. apply arr_get_fill. lia. }
  apply wp_bind. eapply wp_mono; [eapply (wp_bubble_up (n + 1) av st ({[e]} ∪ X) n _ o e)|].
  - lia.
  - by rewrite Ef, decide_True.
  - split.
    + rewrite length_fill. lia.
    + intros j Hj. rewrite Ef. case_decide; [exists e; set_solver|].
      destruct (Hcell j) as (e' & ? & ?); [lia|]. exists e'. set_solver.
    + intros e' [->%elem_of_singleton|He']%elem_of_union.
      * split; [done|]. exists n. rewrite Ef, decide_True by done. split; [lia|done].
      * destruct (Helem e' He') as (? & j & ? & ?). split; [done|]. exists j.
        rewrite Ef, decide_False by lia. split; [lia|done].
    + intros j k Hj Hk. rewrite !Ef. repeat case_decide; subst; intros E; try done.
      * destruct (Hcell k) as (e' & ? & ?); [lia|]. congruence.
      * destruct (Hcell j) as (e' & ? & ?); [lia|]. congruence.
      * apply Hinj; [lia..|done].
    + intros j e' Hj Hjn. rewrite Ef, decide_False by done. apply Hpos; lia.
  - apply (heap_replace (n + 1) (n + 1) n
      (fun j => if decide (j = n) then cell_pri d o (parent n) else cell_pri d o j));
      [lia| |intros j Hj Hjn|lia].
    + intros j Hj. pose proof (parent_bounds j). repeat case_decide; subst; try lia;
        [apply cmppri_irrefl|apply Hp; lia].
    + rewrite decide_False by done. unfold cell_pri. by rewrite Ef, decide_False.
  - intros c Hc E. pose proof (parent_bounds c). lia.
  - intros [] s Hsd. apply wp_ret. split; [done|].
    eapply pq_rep_settled in Hsd; [exact Hsd|rewrite ?length_fill; lia..].
Qed.

Lemma wp_pqueue_peek q o X :
  pq_rep q o X ->
  wp never (pqueue_peek true) (fun r s => s = (q, o) /\
    (X = ∅ /\ r = None \/
     exists e, r = Some e /\ arr_get (q_d q) 1 = Some e /\ first_of o X e)) (q, o).
Proof.
  intros Hrep. pose proof Hrep as [Hs Ha Hb Hh Hp]. pose proof (pq_rep_card _ _ _ Hrep) as Hcard.
  destruct q as [n av st d]. unfold pqueue_peek. simpl in *. apply wp_bind, wp_get_size.
  destruct (Z.eqb_spec n 1).
  - apply wp_ret. split; [done|]. left. split; [|done]. apply leibniz_equiv, size_empty_inv. lia.
  - destruct (hd_cell _ _ _ _ _ Hh 1) as (e & E & _); [lia|].
    apply wp_bind. eapply wp_q_read; [done|]. apply wp_ret. split; [done|]. right. exists e.
    split; [done|]. split; [done|]. eapply pq_top; [done|simpl; lia|done].
Qed.

(** Taking the element of cell [i] out: [pqueue_pop] and [pqueue_remove] after the
    last element has taken its place. *)
Lemma wp_take_out n av st d o X i e l (up : bool) :
  pq_rep (Pq n av st d) o X -> 1 <= i < n -> arr_get d i = Some e -> arr_get d (n - 1) = Some l ->
  (up = true -> cmppri (Obj := Obj) (El := El) (cell_pri d o i) (cell_pri d o (n - 1)) = true) ->
  (up = false -> i = 1 \/
    cmppri (Obj := Obj) (El := El) (cell_pri d o i) (cell_pri d o (n - 1)) = false) ->
  wp never (if up then bubble_up i else percolate_down i)
    (fun _ => rep_after (Pq n av st d) o (X ∖ {[e]}) X) (Pq (n - 1) av st (fill i l d), o).
Proof.
  intros Hrep Hi Ei El' Hup Hdown. pose proof Hrep as [Hs Ha Hb Hh Hp]. simpl in *.
  destruct (decide (i = n - 1)) as [->|Hne].
  - rewrite (fill_same _ _ _ El'). assert (l = e) as -> by congruence.
    assert (up = false) as ->.
    { destruct up; [|done]. by rewrite cmppri_irrefl in Hup; specialize (Hup eq_refl). }
    destruct (hd_cell _ _ _ _ _ Hh (n - 1)) as (e' & Ee' & He'); [lia|].
    assert (e' = e) as -> by congruence.
    eapply wp_percolate_leaf; [lia..|done|by apply Hh|pose proof (hd_len _ _ _ _ _ Hh); lia|].
    intros o' Es. assert (Hm : moved X o o') by (apply rtc_once; by exists e, (n - 1)).
    exists (Pq (n - 1) av st d), o'. split; [done|]. split; [|done].
    pose proof (holed_drop_last _ _ _ _ _ Hh ltac:(lia) Ei) as [Hl Hcell Helem Hinj Hpos].
    split; simpl; [lia|done|lia| |].
    + split; auto.
      * intros e' He2. destruct (Helem e' He2) as [? ?]. split; [by eapply moved_live|done].
      * intros j e' Hj Hj0 E'. destruct (Hcell j Hj) as (e'' & ? & ?).
        erewrite getpos_setpos_ne by (done || set_solver). auto.
    + intros j Hj. rewrite !(cell_pri_moved X d o o') by done. apply Hp. lia.
  - assert (Hrp : arr_get (fill i l d) i = Some l).
    { rewrite arr_get_fill by (pose proof (hd_len _ _ _ _ _ Hh); lia). by rewrite decide_True. }
    assert (Hci : cell_pri (fill i l d) o i = cell_pri d o (n - 1)).
    { unfold cell_pri. by rewrite Hrp, El'. }
    destruct (heap_replace n (n - 1) i (cell_pri d o) (cell_pri (fill i l d) o))
      as (Hx & Habove & Hbelow); [lia|done| |lia|].
    { intros j Hj Hji. unfold cell_pri. rewrite arr_get_fill, decide_False; [done..|].
      pose proof (hd_len _ _ _ _ _ Hh). lia. }
    rewrite Hci in Habove, Hbelow.
    pose proof (holed_replace_last n X d o i e l Hh ltac:(lia) Ei El') as Hh'.
    assert (Hfin : forall s, settled (n - 1) av st (X ∖ {[e]}) (fill i l d) o s ->
      rep_after (Pq n av st d) o (X ∖ {[e]}) X s).
    { intros s Hsd. eapply pq_rep_settled in Hsd as (q' & o' & -> & Hr & Hav & Hm);
        [|rewrite ?length_fill; lia..].
      exists q', o'. split_and!; try done. eapply moved_mono; [|done]. set_solver. }
    destruct up.
    + eapply wp_mono; [eapply (wp_bubble_up (n - 1) av st _ i); [lia|done..|]; auto|]. auto.
    + eapply wp_mono; [eapply (wp_percolate_down (n - 1) av st _ i); [lia|lia|done..|]|auto].
      destruct (Hdown eq_refl) as [->|]; [intros ?; lia|auto].
Qed.

Lemma wp_pqueue_pop q o X :
  pq_rep q o X ->
  wp never (pqueue_pop true) (fun r s =>
    (X = ∅ /\ r = None /\ s = (q, o)) \/
    exists e, r = Some e /\ arr_get (q_d q) 1 = Some e /\ first_of o X e /\
      rep_after q o (X ∖ {[e]}) X s) (q, o).
Proof.
  intros Hrep. pose proof Hrep as [Hs Ha Hb Hh Hp]. pose proof (pq_rep_card _ _ _ Hrep) as Hcard.
  destruct q as [n av st d]. unfold pqueue_pop. simpl in *. apply wp_bind, wp_get_size.
  destruct (Z.eqb_spec n 1).
  - apply wp_ret. left. split; [|done]. apply leibniz_equiv, size_empty_inv. lia.
  - destruct (hd_cell _ _ _ _ _ Hh 1) as (e & E & _); [lia|].
    destruct (hd_cell _ _ _ _ _ Hh (n - 1)) as (l & El' & _); [lia|].
    rewrite !(wrap_small 64 (n - 1)) by (unfold in_word; lia).
    apply wp_bind. eapply wp_q_read; [done|]. apply wp_bind, wp_set_size.
    apply wp_bind. eapply wp_q_read; [done|]. apply wp_bind, wp_q_write; [lia|].
    apply wp_bind. eapply wp_mono;
      [eapply (wp_take_out n av st d o X 1 e l false); eauto; try done; lia|].
    intros [] s Hsd. apply wp_ret. right. exists e. split_and!; [done|done| |done].
    eapply pq_top; [done|simpl; lia|done].
Qed.

Lemma wp_pqueue_remove q o X e :
  pq_rep q o X -> e ∈ X ->
  wp never (pqueue_remove e) (fun r s => r = 0 /\ rep_after q o (X ∖ {[e]}) X s) (q, o).
Proof.
  intros Hrep He. pose proof Hrep as [Hs Ha Hb Hh Hp]. destruct q as [n av st d].
  unfold pqueue_remove. simpl in *.
  destruct (hd_elem _ _ _ _ _ Hh e He) as (Hlive & i & Hi & Ei).
  assert (Epos : getpos o e = Some i) by (eapply (hd_pos _ _ _ _ _ Hh); [done|lia|done]).
  destruct (hd_cell _ _ _ _ _ Hh (n - 1)) as (l & El' & Hl); [lia|].
  destruct (hd_elem _ _ _ _ _ Hh l Hl) as (Hlivel & _).
  destruct (proj2 (getpri_getpos o e) Hlive) as [pe Epe].
  destruct (proj2 (getpri_getpos o l) Hlivel) as [pl Epl].
  apply wp_bind. eapply wp_getpos; [done|]. apply wp_bind, wp_get_size.
  rewrite !(wrap_small 64 (n - 1)) by (unfold in_word; lia).
  apply wp_bind, wp_set_size. apply wp_bind. eapply wp_q_read; [done|].
  apply wp_bind, wp_q_write; [lia|]. apply wp_bind. eapply wp_getpri; [done|].
  apply wp_bind. eapply (wp_q_read _ l).
  { rewrite arr_get_fill by lia. by rewrite decide_True. }
  apply wp_bind. eapply wp_getpri; [done|].
  assert (Eci : cell_pri d o i = pe) by (unfold cell_pri; rewrite Ei; simpl; by rewrite Epe).
  assert (Ecl : cell_pri d o (n - 1) = pl) by (unfold cell_pri; rewrite El'; simpl; by rewrite Epl).
  apply wp_bind. eapply wp_mono;
    [eapply (wp_take_out n av st d o X i e l (cmppri pe pl)); eauto; rewrite Eci, Ecl; auto|].
  intros [] s Hsd. by apply wp_ret.
Qed.

Lemma wp_pqueue_change_priority q o X e p :
  pq_rep q o X -> e ∈ X ->
  wp never (pqueue_change_priority p e) (fun _ s =>
    exists o1, setpri e p o = Some o1 /\ rep_after q o1 X X s) (q, o).
Proof.
  intros Hrep He. pose proof Hrep as [Hs Ha Hb Hh Hp]. destruct q as [n av st d].
  unfold pqueue_change_priority. simpl in *.
  pose proof Hh as [Hl Hcell Helem Hinj Hpos].
  destruct (Helem e He) as (Hlive & i & Hi & Ei).
  destruct (proj2 (getpri_getpos o e) Hlive) as [pe Epe].
  destruct (setpri_live o e p Hlive) as [o1 E1].
  apply wp_bind. eapply wp_getpri; [done|]. apply wp_bind. eapply wp_setpri; [done|].
  apply wp_bind. eapply wp_getpos.
  { erewrite getpos_setpri by done. eapply Hpos; [done|lia|done]. }
  assert (Hh' : holed n i X d o1).
  { split; auto.
    - intros e' He'. erewrite getpos_setpri by done. auto.
    - intros j e' Hj _ E. erewrite getpos_setpri by done. apply Hpos; [done|lia|done]. }
  destruct (heap_replace n n i (cell_pri d o) (cell_pri d o1)) as (Hx & Habove & Hbelow);
    [lia|done| |done|].
  { intros j Hj Hji. unfold cell_pri. destruct (Hcell j Hj) as (e' & E' & _). rewrite E'. simpl.
    erewrite getpri_setpri_ne; [done..|]. intros ->. apply Hji, Hinj; [done..|congruence]. }
  assert (Eci : cell_pri d o i = pe) by (unfold cell_pri; rewrite Ei; simpl; by rewrite Epe).
  assert (Ecl : cell_pri d o1 i = p).
  { unfold cell_pri. rewrite Ei. simpl. by erewrite getpri_setpri. }
  rewrite Eci, Ecl in Habove, Hbelow.
  assert (Hfin : forall s, settled n av st X d o1 s ->
    exists o2, setpri e p o = Some o2 /\ rep_after (Pq n av st d) o2 X X s).
  { intros s Hsd. exists o1. split; [done|]. by eapply pq_rep_settled in Hsd. }
  destruct (cmppri pe p) eqn:Ecmp.
  - eapply wp_mono; [eapply (wp_bubble_up n av st _ i); [lia|done..|]; auto|]. auto.
  - eapply wp_mono; [eapply (wp_percolate_down n av st _ i); [lia|lia|done..|]; auto|]. auto.
Qed.

End operations.

(** ** The validity check *)

Section validity.
Context {Obj El : Type} `{Countable El} {CB : PqCallbacks Obj El} {L : PqLaws Obj El}.
Implicit Types (d : list (option El)) (o : Obj) (X : gset El).

(** [x] lies in the subtree of [pos]. *)
Definition in_subtree (pos x : Z) : Prop := exists k, Nat.iter k parent x = pos.

Lemma in_subtree_cases pos x :
  in_subtree pos x <-> x = pos \/ in_subtree (2 * pos) x \/ in_subtree (2 * pos + 1) x.
Proof.
  split.
  - intros [[|k] E]; [by left|]. right. simpl in E. apply parent_spec in E.
    destruct (decide (Nat.iter k parent x = 2 * pos)) as [E'|]; [left; by exists k|].
    right. exists k. lia.
  - intros [->|[[k E]|[k E]]]; [by exists 0%nat| |];
      (exists (S k)); simpl; rewrite E; apply parent_spec; lia.
Qed.

Lemma in_subtree_le pos x : 0 <= x -> in_subtree pos x -> pos <= x.
Proof.
  intros Hx [k <-]. enough (0 <= Nat.iter k parent x <= x) by lia.
  induction k; simpl; [lia|]. pose proof (parent_bounds (Nat.iter k parent x)). lia.
Qed.

Lemma in_root x : 1 <= x -> in_subtree 1 x.
Proof.
  induction (Z.lt_wf 0 x) as [x _ IH]. intros Hx. destruct (decide (x = 1)) as [->|]; [by exists 0%nat|].
  pose proof (parent_bounds x). destruct (IH (parent x)) as [k E]; [lia..|].
  exists (S k). by rewrite Nat.iter_succ_r.
Qed.

Definition subtree_ok (n : Z) (f : Z -> Z) (pos : Z) : Prop :=
  forall j, 2 <= j < n -> in_subtree pos (parent j) ->
    cmppri (Obj := Obj) (El := El) (f (parent j)) (f j) = false.

Lemma subtree_ok_cases n f pos :
  1 <= pos ->
  subtree_ok n f pos <->
  (forall c, 2 <= c < n -> parent c = pos -> cmppri (Obj := Obj) (El := El) (f pos) (f c) = false) /\
  (2 * pos < n -> subtree_ok n f (2 * pos)) /\ (2 * pos + 1 < n -> subtree_ok n f (2 * pos + 1)).
Proof.
  intros Hpos. unfold subtree_ok. split.
  - intros Hs. split; [|split].
    + intros c Hc E. rewrite <- E. apply Hs; [done|]. rewrite E. apply in_subtree_cases. by left.
    + intros _ j Hj Hd. apply Hs; [done|]. apply in_subtree_cases. auto.
    + intros _ j Hj Hd. apply Hs; [done|]. apply in_subtree_cases. auto.
  - intros (Hc & H1 & H2) j Hj Hd. pose proof (parent_bounds j).
    apply in_subtree_cases in Hd as [E|[Hd|Hd]]; [rewrite E; by apply Hc| |].
    + apply H1; [apply in_subtree_le in Hd; lia|done..].
    + apply H2; [apply in_subtree_le in Hd; lia|done..].
Qed.

Lemma wp_subtree_is_valid fuel n av st X d o pos :
  n < 2 ^ 30 -> holed n 0 X d o -> 1 <= pos < n -> (Z.to_nat (n - pos) < fuel)%nat ->
  wp never (subtree_is_valid fuel pos)
    (fun b s => s = (Pq n av st d, o) /\ (b = true <-> subtree_ok n (cell_pri d o) pos))
    (Pq n av st d, o).
Proof.
  intros Hn Hh. revert pos. induction fuel as [|fuel IH]; intros pos Hpos Hf; [lia|].
  cbn [subtree_is_valid]. rewrite !Z.shiftl_mul_pow2 by lia. change (2 ^ 1) with 2.
  replace (2 ^ 31 <=? pos * 2 + 1) with false by lia. apply wp_bind, wp_get_size.
  assert (Hread : forall i, 1 <= i < n -> exists e, arr_get d i = Some e /\
    getpri o e = Some (cell_pri d o i)).
  { intros i Hi. destruct (hd_cell _ _ _ _ _ Hh i Hi) as (e & E & HeX). exists e. split; [done|].
    destruct (hd_elem _ _ _ _ _ Hh e HeX) as [Hl _].
    destruct (proj2 (getpri_getpos o e) Hl) as [p Ep]. unfold cell_pri. rewrite E. simpl. by rewrite Ep. }
  destruct (Hread pos Hpos) as (e & E & Ep).
  assert (Hchild : forall c, parent c = pos -> 2 <= c ->
    wp never (if c <? n then e ← q_read pos; p ← call_getpri e; c' ← q_read c; pc ← call_getpri c';
        if cmppri (Obj := Obj) (El := El) p pc then mret false else subtree_is_valid fuel c
      else mret true)
      (fun b s => s = (Pq n av st d, o) /\
        (b = true <-> (c < n -> cmppri (Obj := Obj) (El := El) (cell_pri d o pos) (cell_pri d o c) = false
                               /\ subtree_ok n (cell_pri d o) c))) (Pq n av st d, o)).
  { intros c Epc Hc. pose proof (parent_bounds c). destruct (Z.ltb_spec c n); cycle 1.
    { apply wp_ret. split; [done|]. split; [lia|done]. }
    destruct (Hread c) as (ec & Eec & Epec); [lia|].
    apply wp_bind. eapply wp_q_read; [done|]. apply wp_bind. eapply wp_getpri; [done|].
    apply wp_bind. eapply wp_q_read; [done|]. apply wp_bind. eapply wp_getpri; [done|].
    destruct (cmppri (cell_pri d o pos) (cell_pri d o c)) eqn:Ecmp.
    - apply wp_ret. split; [done|]. split; [done|]. intros Hx. by destruct Hx.
    - eapply wp_mono; [apply IH; lia|]. intros b s [-> Hb]. split; [done|]. rewrite Hb. tauto. }
  assert (Hiff : subtree_ok n (cell_pri d o) pos <->
    (2 * pos < n -> cmppri (Obj := Obj) (El := El) (cell_pri d o pos) (cell_pri d o (2 * pos)) = false
       /\ subtree_ok n (cell_pri d o) (2 * pos)) /\
    (2 * pos + 1 < n -> cmppri (Obj := Obj) (El := El) (cell_pri d o pos) (cell_pri d o (2 * pos + 1)) = false
       /\ subtree_ok n (cell_pri d o) (2 * pos + 1))).
  { rewrite subtree_ok_cases by lia. split.
    - intros (Hc & H1 & H2). split; intros; (split; [apply Hc; [lia|apply parent_spec; lia]|auto]).
    - intros [H1 H2]. split; [|split]; [|tauto..]. intros c Hc Epc%parent_spec.
      assert (c = 2 * pos \/ c = 2 * pos + 1) as [->| ->] by lia; [apply H1|apply H2]; lia. }
  replace (pos * 2) with (2 * pos) by lia. apply wp_bind.
  eapply wp_mono; [apply Hchild; [apply parent_spec|]; lia|]. intros b s [-> Hb]. cbn beta.
  destruct b; simpl.
  - eapply wp_mono; [apply Hchild; [apply parent_spec|]; lia|]. intros b s [-> Hb']. split; [done|].
    rewrite Hb', Hiff. tauto.
  - apply wp_ret. split; [done|]. rewrite Hiff. split; [done|]. intros [H1 _]. by apply Hb in H1.
Qed.

End validity.

(** ** Specification: a set whose members have priorities *)

Inductive pq_op (El : Type) :=
| PqInsert (e : El)
| PqPop
| PqPeek
| PqRemove (e : El)
| PqChange (p : Z) (e : El).
Arguments PqInsert {El}.
Arguments PqPop {El}.
Arguments PqPeek {El}.
Arguments PqRemove {El}.
Arguments PqChange {El}.

Section refinement.
Context {Obj El : Type} `{Countable El} {CB : PqCallbacks Obj El} {L : PqLaws Obj El}.
Implicit Types (o : Obj) (X : gset El) (q : pqueue_t El) (pri : El -> option Z).

Definition run_pq (op : pq_op El) : prog (pqueue_t El * Obj) (option El) :=
  match op with
  | PqInsert e => _ ← pqueue_insert true e; mret None
  | PqPop => pqueue_pop true
  | PqPeek => pqueue_peek true
  | PqRemove e => _ ← pqueue_remove e; mret None
  | PqChange p e => _ ← pqueue_change_priority p e; mret None
  end.

Fixpoint run_pqs (ops : list (pq_op El)) : prog (pqueue_t El * Obj) (list (option El)) :=
  match ops with
  | [] => mret []
  | op :: ops' => r ← run_pq op; rs ← run_pqs ops'; mret (r :: rs)
  end.

(** [e] is in [X] and no other member has to come out before it. *)
Definition top_of pri X (e : El) : Prop :=
  e ∈ X /\ forall e' p p', e' ∈ X -> pri e = Some p -> pri e' = Some p' ->
    cmppri (Obj := Obj) (El := El) p p' = false.

Definition out_of pri X (r : option El) : Prop :=
  match r with None => X = ∅ | Some e => top_of pri X e end.

(** What an operation may answer, and the set and priorities after it. *)
Definition pq_step (op : pq_op El) X pri (r : option El) X' pri' : Prop :=
  match op with
  | PqInsert e => r = None /\ X' = {[e]} ∪ X /\ forall e', pri' e' = pri e'
  | PqPop => out_of pri X r /\ X' = match r with Some e => X ∖ {[e]} | None => X end /\
      forall e', pri' e' = pri e'
  | PqPeek => out_of pri X r /\ X' = X /\ forall e', pri' e' = pri e'
  | PqRemove e => r = None /\ X' = X ∖ {[e]} /\ forall e', pri' e' = pri e'
  | PqChange p e => r = None /\ X' = X /\
      forall e', pri' e' = if decide (e' = e) then Some p else pri e'
  end.

(** What the client must respect: an object is inserted when it is not in the
    queue and there is room, and only members are removed or changed. *)
Definition pq_legal (cap : Z) (op : pq_op El) X pri : Prop :=
  match op with
  | PqInsert e => (e ∉ X) /\ is_Some (pri e) /\ Z.of_nat (size X) < cap
  | PqPop | PqPeek => True
  | PqRemove e | PqChange _ e => e ∈ X
  end.

Fixpoint pq_client (cap : Z) (ops : list (pq_op El)) X pri : Prop :=
  match ops with
  | [] => True
  | op :: ops' => pq_legal cap op X pri /\
      forall r X' pri', pq_step op X pri r X' pri' -> pq_client cap ops' X' pri'
  end.

Inductive pq_answers : list (pq_op El) -> gset El -> (El -> option Z) ->
    list (option El) -> gset El -> (El -> option Z) -> Prop :=
| pq_answers_nil X pri : pq_answers [] X pri [] X pri
| pq_answers_cons op ops X pri r X1 pri1 rs X2 pri2 :
    pq_step op X pri r X1 pri1 -> pq_answers ops X1 pri1 rs X2 pri2 ->
    pq_answers (op :: ops) X pri (r :: rs) X2 pri2.

Lemma wp_run_pq op q o X :
  pq_rep q o X -> pq_legal (q_avail q - 1) op X (getpri o) ->
  wp never (run_pq op) (fun r s => exists q' o' X', s = (q', o') /\ pq_rep q' o' X' /\
    q_avail q' = q_avail q /\ pq_step op X (getpri o) r X' (getpri o')) (q, o).
Proof.
  intros Hrep Hlegal. destruct op as [e| | |e|p e]; simpl in *.
  - destruct Hlegal as (He & Hlive & Hcap). rewrite (pq_rep_card q o X Hrep) in Hcap.
    apply wp_bind. eapply wp_mono; [apply wp_pqueue_insert; eauto; [by apply getpri_getpos|lia]|].
    intros r s (_ & q' & o' & -> & Hr & Ha & Hm). apply wp_ret. exists q', o', ({[e]} ∪ X).
    split_and!; auto. intros e'. by eapply moved_pri.
  - eapply wp_mono; [by apply wp_pqueue_pop|].
    intros r s [(-> & -> & ->)|(e & -> & _ & Ht & q' & o' & -> & Hr & Ha & Hm)].
    + exists q, o, ∅. by split_and!.
    + exists q', o', (X ∖ {[e]}). split_and!; try done. intros e'. by eapply moved_pri.
  - eapply wp_mono; [by apply wp_pqueue_peek|].
    intros r s (-> & [(-> & ->)|(e & -> & _ & Ht)]); eexists q, o, _; by split_and!.
  - apply wp_bind. eapply wp_mono; [by apply wp_pqueue_remove|].
    intros r s (_ & q' & o' & -> & Hr & Ha & Hm). apply wp_ret. exists q', o', (X ∖ {[e]}).
    split_and!; auto. intros e'. by eapply moved_pri.
  - apply wp_bind. eapply wp_mono; [by apply wp_pqueue_change_priority|].
    intros r s (o1 & E1 & q' & o' & -> & Hr & Ha & Hm). apply wp_ret. exists q', o', X.
    split_and!; auto. intros e'. rewrite (moved_pri _ _ _ _ Hm). case_decide; subst.
    + by eapply getpri_setpri.
    + by eapply getpri_setpri_ne.
Qed.

(** C20: the queue is a priority queue.  Whatever a client does that respects
    [pq_client], the operations never touch memory outside the array, keep the heap
    order and the positions of the elements, and answer as a set with priorities:
    [pqueue_peek] and [pqueue_pop] answer an element that no other one has to
    precede, and NULL exactly when the set is empty. *)
Theorem pqueue_refines_set ops q o X :
  pq_rep q o X -> pq_client (q_avail q - 1) ops X (getpri o) ->
  wp never (run_pqs ops) (fun rs s => exists q' o' X', s = (q', o') /\ pq_rep q' o' X' /\
    pqueue_size q' = Z.of_nat (size X') /\ q_avail q' = q_avail q /\
    pq_answers ops X (getpri o) rs X' (getpri o')) (q, o).
Proof.
  revert q o X. induction ops as [|op ops IH]; intros q o X Hrep Hc; simpl.
  - apply wp_ret. exists q, o, X. split_and!; try done; [|constructor].
    rewrite (pq_rep_card _ _ _ Hrep). apply wrap_small. destruct Hrep. unfold in_word. lia.
  - destruct Hc as [Hl Hc]. apply wp_bind. eapply wp_mono; [by apply wp_run_pq|].
    intros r s (q1 & o1 & X1 & -> & Hr1 & Ha1 & Hst). apply wp_bind.
    eapply wp_mono; [apply IH; [done|]; rewrite Ha1; eauto|].
    intros rs s (q2 & o2 & X2 & -> & Hr2 & Hs2 & Ha2 & Hans). apply wp_ret.
    exists q2, o2, X2. split_and!; try done; [congruence|]. by econstructor.
Qed.

(** [pqueue_is_valid] decides the heap order: on any array of distinct live
    elements it answers 1 exactly when no element has to come out before its
    parent.  Positions are [int]s there, so the queue holds fewer than 2^30. *)
Theorem pqueue_is_valid_exact q o X :
  q_size q < 2 ^ 30 -> 1 < q_size q -> holed (q_size q) 0 X (q_d q) o ->
  wp never pqueue_is_valid (fun b s => s = (q, o) /\
    (b = true <-> heap (Obj := Obj) (El := El) (q_size q) (cell_pri (q_d q) o))) (q, o).
Proof.
  intros Hn Hn1 Hh. destruct q as [n av st d]. simpl in *. unfold pqueue_is_valid.
  apply wp_bind, wp_get_size. eapply wp_mono; [eapply wp_subtree_is_valid; eauto; lia|].
  intros b s [-> Hb]. split; [done|]. rewrite Hb. split; intros Hok j Hj.
  - apply Hok; [done|]. apply in_root. pose proof (parent_bounds j). lia.
  - intros _. by apply Hok.
Qed.

(** A fresh queue is the empty set. *)
Lemma pqueue_init_rep n q o :
  0 <= n < 2 ^ 61 -> pqueue_init (El := El) true true n = Some q -> pq_rep q o ∅ /\ q_avail q = n + 1.
Proof.
  intros Hn E. unfold pqueue_init in E. simpl in E. rewrite wrap_small in E by (unfold in_word; lia).
  simplify_eq. split; [|done]. split; simpl; unfold fresh_array; rewrite ?length_replicate; try lia.
  - split; try set_solver by lia; try (intros; lia). rewrite length_replicate. lia.
  - intros j Hj. lia.
Qed.

End refinement.

(** ** An instance: objects that carry priority and position *)

Module Sample.

(** Objects by address, smallest priority first. *)
#[export] Instance sample_callbacks : PqCallbacks (gmap Z (Z * Z)) Z := {|
  cmppri next curr := curr <? next;
  getpri o e := fst <$> o !! e;
  setpri e p o := match o !! e with Some (_, i) => Some (<[e := (p, i)]> o) | None => None end;
  getpos o e := snd <$> o !! e;
  setpos e i o := match o !! e with Some (p, _) => Some (<[e := (p, i)]> o) | None => None end
|}.

#[export] Instance sample_laws : PqLaws (gmap Z (Z * Z)) Z.
Proof.
  split; simpl; intros *; try lia; rewrite ?fmap_is_Some; try done;
    try (intros [[p' i'] ->]; eauto);
    try (destruct (o !! e) as [[p' i']|] eqn:E; [|done]; intros; simplify_eq;
         first [by rewrite lookup_insert_eq | by rewrite lookup_insert_ne
               | destruct (decide (e = e')) as [<-|];
                 [by rewrite lookup_insert_eq, E | by rewrite lookup_insert_ne] ]).
Qed.

Definition objects : gmap Z (Z * Z) := list_to_map [(10, (7, 0)); (20, (3, 0)); (30, (5, 0))].
Definition queue : pqueue_t Z := Pq 1 4 4 (fresh_array 4).

Lemma queue_rep : pq_rep queue objects ∅.
Proof. by apply (pqueue_init_rep 3). Qed.

(** Two objects go in, the one with the smaller priority comes out. *)
Example two_in_one_out :
  match run_pqs [PqInsert 10; PqInsert 20; PqPop] (queue, objects) with
  | Done rs _ => rs = [None; None; Some 20]
  | _ => False
  end.
Proof. by vm_compute. Qed.

Lemma sample_client : pq_client 3 [PqInsert 10; PqInsert 20; PqPop] ∅ (getpri objects).
Proof.
  split; [split_and!; [set_solver|by eexists|done]|].
  intros r1 X1 pri1 (-> & -> & E1). split.
  - split_and!; [set_solver|rewrite E1; by eexists|].
    rewrite union_empty_r_L, size_singleton. done.
  - intros r2 X2 pri2 (-> & -> & E2). by split.
Qed.

Lemma pqueue_refines_set_witness :
  wp never (run_pqs [PqInsert 10; PqInsert 20; PqPop]) (fun rs s => exists q' o' X',
    s = (q', o') /\ pq_rep q' o' X' /\ pqueue_size q' = Z.of_nat (size X') /\
    q_avail q' = 4 /\
    pq_answers [PqInsert 10; PqInsert 20; PqPop] ∅ (getpri objects) rs X' (getpri o'))
    (queue, objects).
Proof.
  exact (pqueue_refines_set [PqInsert 10; PqInsert 20; PqPop] queue objects ∅ queue_rep sample_client).
Defined.

(** A queue of two elements in the wrong order. *)
Definition bad_queue : pqueue_t Z := Pq 3 4 4 [None; Some 10; Some 20; None].
Definition bad_objects : gmap Z (Z * Z) := list_to_map [(10, (7, 1)); (20, (3, 2))].

Lemma bad_holed : holed 3 0 {[10; 20]} (q_d bad_queue) bad_objects.
Proof.
  split; simpl; try lia.
  - intros j Hj. assert (j = 1 \/ j = 2) as [->| ->] by lia; eexists; (split; [done|set_solver]).
  - intros e [->%elem_of_singleton| ->%elem_of_singleton]%elem_of_union;
      (split; [by eexists|]); [exists 1|exists 2]; (split; [lia|done]).
  - intros j k Hj Hk. assert (j = 1 \/ j = 2) as [->| ->] by lia;
      assert (k = 1 \/ k = 2) as [->| ->] by lia; done.
  - intros j e Hj _. assert (j = 1 \/ j = 2) as [->| ->] by lia; intros [= <-]; done.
Qed.

Lemma pqueue_is_valid_exact_witness :
  wp never pqueue_is_valid (fun b s => s = (bad_queue, bad_objects) /\
    (b = true <-> heap (Obj := gmap Z (Z * Z)) (El := Z) 3 (cell_pri (q_d bad_queue) bad_objects)))
    (bad_queue, bad_objects).
Proof.
  exact (pqueue_is_valid_exact bad_queue bad_objects {[10; 20]} eq_refl eq_refl bad_holed).
Defined.

Example bad_queue_refused :
  match pqueue_is_valid (bad_queue, bad_objects) with Done b _ => b = false | _ => False end.
Proof. by vm_compute. Qed.

End Sample.
