(* ===== verification/ChannelModel.v ===== *)
(** * Bandwidth of a channel (lib/nvmevirt/channel_model.c)

    A channel is a ring of credits, one cell per interval of 4 microseconds from
    the current time on.  A transfer takes a credit per 128 bytes from the first
    intervals that still have some.  The clock is an argument of the request. *)
From S2P Require Import Prelude.

Definition NR_CREDIT_ENTRIES : Z := 1024 * 96.
Definition UNIT_TIME_INTERVAL : Z := 4000.
Definition UNIT_XFER_SIZE : Z := 128.
Definition UNIT_XFER_CREDITS : Z := 1.
Definition NS_PER_SEC : Z := 1000000000.

Definition BANDWIDTH_TO_TX_TIME (mb_s : Z) : Z :=
  UNIT_XFER_SIZE * NS_PER_SEC / u64 (Z.shiftl mb_s 20).
Definition BANDWIDTH_TO_MAX_CREDITS (mb_s : Z) : Z :=
  u64 (u64 (Z.shiftl mb_s 20) * UNIT_TIME_INTERVAL) / NS_PER_SEC / UNIT_XFER_SIZE * UNIT_XFER_CREDITS.

(** A cell of [avail_credits] that is not in the map holds the value [MEMSET] gives
    every cell in [chmodel_init], the byte of [max_credits]. *)
Record channel_model := Chan {
  ch_cur_time : Z;
  ch_head : Z;
  ch_valid_len : Z;
  ch_max_credits : Z;
  ch_command_credits : Z;
  ch_xfer_lat : Z;
  ch_avail_credits : gmap Z Z
}.

Definition set_credits (m : gmap Z Z) (ch : channel_model) : channel_model :=
  Chan (ch_cur_time ch) (ch_head ch) (ch_valid_len ch) (ch_max_credits ch)
    (ch_command_credits ch) (ch_xfer_lat ch) m.

(** Division by zero is undefined. *)
Definition chmodel_init (bandwidth : Z) : prog channel_model unit :=
  if u64 (Z.shiftl bandwidth 20) =? 0 then undefined else
  put (Chan 0 0 0 (u32 (BANDWIDTH_TO_MAX_CREDITS bandwidth)) 0
         (u32 (BANDWIDTH_TO_TX_TIME bandwidth)) ∅).

(** [MEMSET(&avail_credits[start], max_credits, length)]. *)
Definition reset_credits (start length : Z) : prog channel_model unit :=
  ch ← get;
  if (0 <=? start) && (0 <=? length) && (start + length <=? NR_CREDIT_ENTRIES) then
    put (set_credits (filter (fun kv => (kv.1 < start) \/ start + length <= kv.1)
                        (ch_avail_credits ch)) ch)
  else undefined.

Definition credit_at (ch : channel_model) (pos : Z) : Z :=
  default (u8 (ch_max_credits ch)) (ch_avail_credits ch !! pos).

Definition read_credit (pos : Z) : prog channel_model Z :=
  ch ← get;
  if (0 <=? pos) && (pos <? NR_CREDIT_ENTRIES) then mret (credit_at ch pos) else undefined.

Definition write_credit (pos v : Z) : prog channel_model unit :=
  ch ← get;
  if (0 <=? pos) && (pos <? NR_CREDIT_ENTRIES)
  then put (set_credits (<[pos := u8 v]> (ch_avail_credits ch)) ch) else undefined.

(** The [while (1)] loop of [chmodel_request], with the last cell it came to and
    the number of intervals it moved on. *)
Fixpoint credit_loop (fuel : nat) (pos remaining_credits delay : Z) : prog channel_model (Z * Z) :=
  match fuel with
  | O => undefined
  | S n =>
    avail ← read_credit pos;
    let consumed_credits := if remaining_credits <=? avail then remaining_credits else avail in
    _ ← write_credit pos (avail - consumed_credits);
    let remaining_credits := remaining_credits - consumed_credits in
    if negb (remaining_credits =? 0) then
      let next_pos := (pos + 1) mod NR_CREDIT_ENTRIES in
      ch ← get;
      if negb (next_pos =? ch_head ch) then credit_loop n next_pos remaining_credits (delay + 1)
      else mret (pos, delay)
    else mret (pos, delay)
  end.

(** Move the head to the current time. *)
Definition chmodel_advance (cur_time : Z) : prog channel_model unit :=
  ch ← get;
  let offs := u32 (cur_time / UNIT_TIME_INTERVAL - ch_cur_time ch / UNIT_TIME_INTERVAL) in
  let cur_time_offs := if offs <? ch_valid_len ch then offs else ch_valid_len ch in
  _ ← (if NR_CREDIT_ENTRIES <=? u32 (ch_head ch + cur_time_offs) then
         _ ← reset_credits (ch_head ch) (u32 (NR_CREDIT_ENTRIES - ch_head ch));
         reset_credits 0 (u32 (cur_time_offs - u32 (NR_CREDIT_ENTRIES - ch_head ch)))
       else reset_credits (ch_head ch) cur_time_offs);
  ch ← get;
  put (Chan cur_time (u32 (ch_head ch + cur_time_offs) mod NR_CREDIT_ENTRIES)
         (u32 (ch_valid_len ch - cur_time_offs)) (ch_max_credits ch) (ch_command_credits ch)
         (ch_xfer_lat ch) (ch_avail_credits ch)).

(** Take the credits of a transfer from cell [pos] on; what is left is the latency. *)
Definition chmodel_take (request_time units_to_xfer request_time_offs : Z) : prog channel_model Z :=
  ch ← get;
  let pos := u32 (ch_head ch + request_time_offs) mod NR_CREDIT_ENTRIES in
  let remaining_credits := u32 (u32 (units_to_xfer * UNIT_XFER_CREDITS) + ch_command_credits ch) in
  if ch_max_credits ch =? 0 then undefined else
  let default_delay := remaining_credits / ch_max_credits ch in
  r ← credit_loop (S (Z.to_nat NR_CREDIT_ENTRIES)) pos remaining_credits 0;
  let '(pos, delay) := r in
  ch ← get;
  let valid_length := if ch_head ch <=? pos then pos - ch_head ch + 1
                      else NR_CREDIT_ENTRIES - (ch_head ch - pos - 1) in
  _ ← put (Chan (ch_cur_time ch) (ch_head ch)
             (if ch_valid_len ch <? valid_length then valid_length else ch_valid_len ch)
             (ch_max_credits ch) (ch_command_credits ch) (ch_xfer_lat ch) (ch_avail_credits ch));
  let delay := if default_delay <? delay then delay - default_delay else 0 in
  let total_latency := u64 (u32 (ch_xfer_lat ch * units_to_xfer) + u64 (delay * UNIT_TIME_INTERVAL)) in
  mret (u64 (request_time + total_latency)).

(** [chmodel_request]; [cur_time] is what [__get_wallclock] answers. *)
Definition chmodel_request (cur_time request_time length : Z) : prog channel_model Z :=
  let units_to_xfer := u32 (u64 (length + (UNIT_XFER_SIZE - 1)) / UNIT_XFER_SIZE) in
  _ ← chmodel_advance cur_time;
  ch ← get;
  if NR_CREDIT_ENTRIES <? ch_valid_len ch then undefined
  else if request_time <? cur_time then mret request_time
  else
    let request_time_offs :=
      u32 (request_time / UNIT_TIME_INTERVAL - cur_time / UNIT_TIME_INTERVAL) in
    if NR_CREDIT_ENTRIES <=? request_time_offs then mret request_time
    else chmodel_take request_time units_to_xfer request_time_offs.

(** ** Specification: a ledger of credits by absolute time *)

Definition interval (t : Z) : Z := t / UNIT_TIME_INTERVAL.

Definition booked_sum (used used' : Z -> Z) (first last : Z) : Z :=
  foldr Z.add 0 ((fun j => used' j - used j) <$> seqZ first (last - first + 1)).

(** [need] credits are taken from the intervals [first .. last], which are used up
    but for the last one; before [limit] there were not enough of them only if the
    last interval before it is used up too. *)
Definition booked (max limit : Z) (used : Z -> Z) (first need last : Z) (used' : Z -> Z) : Prop :=
  first <= last < limit /\
  (forall j, j < first \/ last < j -> used' j = used j) /\
  (forall j, first <= j < last -> used' j = max) /\
  used last <= used' last <= max /\
  (booked_sum used used' first last = need /\ (first < last -> used last < used' last) \/
   last = limit - 1 /\ used' last = max /\ booked_sum used used' first last < need).

(** Cell of the interval [k] after the current one. *)
Definition slot (head k : Z) : Z := (head + k) mod NR_CREDIT_ENTRIES.

(** The ring holds what the ledger leaves of every interval from now on. *)
Definition cells (ch : channel_model) (used : Z -> Z) : Prop :=
  forall k, 0 <= k < NR_CREDIT_ENTRIES ->
    credit_at ch (slot (ch_head ch) k) = ch_max_credits ch - used (interval (ch_cur_time ch) + k).

Record ledger_rep (ch : channel_model) (used : Z -> Z) : Prop := {
  lr_head : 0 <= ch_head ch < NR_CREDIT_ENTRIES;
  lr_valid : 0 <= ch_valid_len ch <= NR_CREDIT_ENTRIES;
  lr_max : 0 < ch_max_credits ch < 256;
  lr_command : ch_command_credits ch = 0;
  lr_cells : cells ch used;
  lr_bounds j : interval (ch_cur_time ch) <= j -> 0 <= used j <= ch_max_credits ch;
  lr_window k : ch_valid_len ch <= k -> used (interval (ch_cur_time ch) + k) = 0
}.

(** ** The ring *)

Lemma nr_credits : 0 < NR_CREDIT_ENTRIES < 2 ^ 20.
Proof. by vm_compute. Qed.

#[local] Opaque NR_CREDIT_ENTRIES.

Lemma slot_spec h k :
  0 <= h < NR_CREDIT_ENTRIES -> 0 <= k <= NR_CREDIT_ENTRIES ->
  slot h k = if h + k <? NR_CREDIT_ENTRIES then h + k else h + k - NR_CREDIT_ENTRIES.
Proof.
  unfold slot. intros. destruct (Z.ltb_spec (h + k) NR_CREDIT_ENTRIES).
  - apply Z.mod_small. lia.
  - symmetry. apply (Z.mod_unique_pos _ _ 1); lia.
Qed.

Lemma slot_range h k : 0 <= slot h k < NR_CREDIT_ENTRIES.
Proof. apply Z.mod_pos_bound. apply nr_credits. Qed.

Lemma slot_inj h j k :
  0 <= h < NR_CREDIT_ENTRIES -> 0 <= j < NR_CREDIT_ENTRIES -> 0 <= k < NR_CREDIT_ENTRIES ->
  slot h j = slot h k -> j = k.
Proof.
  intros Hh Hj Hk. rewrite !slot_spec by lia.
  destruct (Z.ltb_spec (h + j) NR_CREDIT_ENTRIES), (Z.ltb_spec (h + k) NR_CREDIT_ENTRIES); lia.
Qed.

(** Advancing the head by [offs] cells. *)
Lemma slot_advance h offs k :
  0 <= h < NR_CREDIT_ENTRIES -> 0 <= offs <= NR_CREDIT_ENTRIES -> 0 <= k < NR_CREDIT_ENTRIES ->
  slot (slot h offs) k =
  slot h (if k + offs <? NR_CREDIT_ENTRIES then k + offs else k + offs - NR_CREDIT_ENTRIES).
Proof.
  intros Hh Ho Hk. pose proof (slot_range h offs). rewrite (slot_spec (slot h offs)) by lia.
  rewrite (slot_spec h offs) by lia.
  destruct (Z.ltb_spec (k + offs) NR_CREDIT_ENTRIES); rewrite slot_spec by lia;
    repeat match goal with |- context [?a <? ?b] => destruct (Z.ltb_spec a b) end; lia.
Qed.

(** The cell after a cell; the head when the ring is used up. *)
Lemma next_slot_spec h k :
  0 <= h < NR_CREDIT_ENTRIES -> 0 <= k < NR_CREDIT_ENTRIES ->
  (slot h k + 1) mod NR_CREDIT_ENTRIES = if k + 1 <? NR_CREDIT_ENTRIES then slot h (k + 1) else h.
Proof.
  intros Hh Hk. pose proof nr_credits. pose proof (slot_range h k) as Hsr. fold (slot (slot h k) 1).
  destruct (Z.ltb_spec (k + 1) NR_CREDIT_ENTRIES).
  - unfold slot. rewrite Z.add_mod_idemp_l by lia. f_equal. lia.
  - rewrite (slot_spec (slot _ _)) by lia. rewrite slot_spec by lia.
    repeat match goal with |- context [?a <? ?b] => destruct (Z.ltb_spec a b) end; lia.
Qed.

Lemma wp_reset_credits start len ch (Q : unit -> channel_model -> Prop) :
  0 <= start -> 0 <= len -> start + len <= NR_CREDIT_ENTRIES ->
  (forall m, (forall p, credit_at (set_credits m ch) p =
      if decide (start <= p < start + len) then u8 (ch_max_credits ch) else credit_at ch p) ->
    Q tt (set_credits m ch)) ->
  wp never (reset_credits start len) Q ch.
Proof.
  intros H1 H2 H3 HQ. unfold reset_credits. apply wp_bind, wp_get.
  replace ((0 <=? start) && (0 <=? len) && (start + len <=? NR_CREDIT_ENTRIES)) with true by lia.
  apply wp_put, HQ. intros p. unfold credit_at. simpl. rewrite map_lookup_filter.
  case_decide as Hp; destruct (ch_avail_credits ch !! p) as [v|] eqn:E; simpl; try done.
  - rewrite option_guard_False; [done|]. simpl. lia.
  - rewrite option_guard_True; [done|]. simpl. lia.
Qed.

(** [chmodel_advance] forgets the intervals that are over and nothing else. *)
Lemma wp_chmodel_advance ch used cur_time :
  ledger_rep ch used -> ch_cur_time ch <= cur_time ->
  interval cur_time - interval (ch_cur_time ch) < 2 ^ 32 ->
  wp never (chmodel_advance cur_time) (fun _ ch' => ledger_rep ch' used /\
    ch_cur_time ch' = cur_time /\ ch_max_credits ch' = ch_max_credits ch /\
    ch_xfer_lat ch' = ch_xfer_lat ch) ch.
Proof.
  intros [Hh Hv Hm Hc Hcells Hb Hw] Ht Hd. pose proof nr_credits as HN.
  unfold chmodel_advance. apply wp_bind, wp_get. fold (interval cur_time) (interval (ch_cur_time ch)).
  assert (Hle : interval (ch_cur_time ch) <= interval cur_time) by (apply Z.div_le_mono; done).
  rewrite (wrap_small 32 (interval cur_time - _)) by (unfold in_word; lia).
  set (delta := interval cur_time - interval (ch_cur_time ch)) in *.
  set (offs := if delta <? ch_valid_len ch then delta else ch_valid_len ch).
  assert (Ho : 0 <= offs <= ch_valid_len ch /\ offs <= delta /\ (offs = delta \/ offs = ch_valid_len ch)).
  { unfold offs. destruct (Z.ltb_spec delta (ch_valid_len ch)); lia. }
  clearbody offs.
  assert (Hu8 : u8 (ch_max_credits ch) = ch_max_credits ch) by (apply wrap_small; unfold in_word; lia).
  rewrite !(wrap_small 32 (ch_head ch + offs)) by (unfold in_word; lia).
  assert (Hfin : forall m, (forall k, 0 <= k < NR_CREDIT_ENTRIES ->
      credit_at (set_credits m ch) (slot (ch_head ch) k) =
      if k <? offs then ch_max_credits ch else credit_at ch (slot (ch_head ch) k)) ->
    wp never (ch0 ← get; put (Chan cur_time (u32 (ch_head ch0 + offs) mod NR_CREDIT_ENTRIES)
         (u32 (ch_valid_len ch0 - offs)) (ch_max_credits ch0) (ch_command_credits ch0)
         (ch_xfer_lat ch0) (ch_avail_credits ch0))) (fun _ ch' => ledger_rep ch' used /\
    ch_cur_time ch' = cur_time /\ ch_max_credits ch' = ch_max_credits ch /\
    ch_xfer_lat ch' = ch_xfer_lat ch) (set_credits m ch)).
  { intros m Hreset. apply wp_bind, wp_get, wp_put. simpl. split; [|done].
    rewrite !wrap_small by (unfold in_word; lia). fold (slot (ch_head ch) offs).
    split; simpl; [apply slot_range|lia|done|done| | |].
    - intros k Hk. cbn -[slot]. rewrite slot_advance by lia.
      replace (interval cur_time + k) with (interval (ch_cur_time ch) + (delta + k)) by lia.
      change (credit_at _ ?p) with (credit_at (set_credits m ch) p).
      destruct (Z.ltb_spec (k + offs) NR_CREDIT_ENTRIES); rewrite Hreset by lia.
      + replace (k + offs <? offs) with false by lia. rewrite Hcells by lia.
        destruct Ho as (Ho1 & Ho2 & [E|E]); rewrite E in *; [by rewrite (Z.add_comm k)|].
        rewrite !Hw by lia. done.
      + replace (k + offs - NR_CREDIT_ENTRIES <? offs) with true by lia. rewrite Hw by lia. lia.
    - intros j Hj. apply Hb. lia.
    - intros k Hk. replace (interval cur_time + k) with (interval (ch_cur_time ch) + (delta + k)) by lia.
      apply Hw. lia. }
  apply wp_bind. destruct (Z.leb_spec NR_CREDIT_ENTRIES (ch_head ch + offs)).
  - rewrite !(wrap_small 32) by (unfold in_word; rewrite ?wrap_small; unfold in_word; lia).
    apply wp_bind, wp_reset_credits; [lia..|]. intros m1 H1.
    apply wp_reset_credits; [lia..|]. intros m2 H2. apply Hfin. intros k Hk.
    etrans; [apply H2|]. rewrite H1. simpl. rewrite Hu8, slot_spec by lia.
    destruct (Z.ltb_spec (ch_head ch + k) NR_CREDIT_ENTRIES), (Z.ltb_spec k offs);
      repeat case_decide; lia || done.
  - apply wp_reset_credits; [lia..|]. intros m1 H1. apply Hfin. intros k Hk.
    rewrite H1, Hu8, slot_spec by lia.
    destruct (Z.ltb_spec (ch_head ch + k) NR_CREDIT_ENTRIES), (Z.ltb_spec k offs);
      repeat case_decide; lia || done.
Qed.

(** ** Taking credits *)

Lemma wp_read_credit pos ch (Q : Z -> channel_model -> Prop) :
  0 <= pos < NR_CREDIT_ENTRIES -> Q (credit_at ch pos) ch -> wp never (read_credit pos) Q ch.
Proof.
  intros Hp HQ. unfold read_credit. apply wp_bind, wp_get.
  by replace ((0 <=? pos) && (pos <? NR_CREDIT_ENTRIES)) with true by lia.
Qed.

Lemma wp_write_credit pos v ch (Q : unit -> channel_model -> Prop) :
  0 <= pos < NR_CREDIT_ENTRIES ->
  Q tt (set_credits (<[pos := u8 v]> (ch_avail_credits ch)) ch) -> wp never (write_credit pos v) Q ch.
Proof.
  intros Hp HQ. unfold write_credit. apply wp_bind, wp_get.
  by replace ((0 <=? pos) && (pos <? NR_CREDIT_ENTRIES)) with true by lia.
Qed.

Definition book_one (used : Z -> Z) (i n : Z) : Z -> Z :=
  fun j => if decide (j = i) then used i + n else used j.

(** Taking [n] credits from interval [i]. *)
Lemma cells_book ch used k n :
  0 <= ch_head ch < NR_CREDIT_ENTRIES -> 0 < ch_max_credits ch < 256 -> cells ch used ->
  0 <= k < NR_CREDIT_ENTRIES ->
  let i := interval (ch_cur_time ch) + k in
  0 <= n -> 0 <= used i -> used i + n <= ch_max_credits ch ->
  cells (set_credits (<[slot (ch_head ch) k := u8 (ch_max_credits ch - used i - n)]>
           (ch_avail_credits ch)) ch) (book_one used i n).
Proof.
  intros Hh Hm Hc Hk i Hn Hu Hle j Hj. unfold credit_at, book_one. simpl.
  case_decide as E.
  - assert (j = k) as -> by lia. rewrite lookup_insert_eq. simpl.
    rewrite wrap_small by (unfold in_word; lia). lia.
  - rewrite lookup_insert_ne; [by apply Hc|]. intros Es. apply E.
    apply slot_inj in Es; [lia|done..].
Qed.

Lemma booked_sum_cons used used' first last :
  first <= last ->
  booked_sum used used' first last = used' first - used first + booked_sum used used' (first + 1) last.
Proof.
  intros H. unfold booked_sum. rewrite (seqZ_cons first) by lia. simpl.
  replace (Z.pred (last - first + 1)) with (last - (first + 1) + 1) by lia. by rewrite Z.add_1_r.
Qed.

Lemma booked_sum_ext used1 used2 used' first last :
  (forall j, first <= j <= last -> used1 j = used2 j) ->
  booked_sum used1 used' first last = booked_sum used2 used' first last.
Proof.
  intros H. unfold booked_sum. f_equal. apply list_fmap_ext. intros i j Hj%lookup_seqZ.
  rewrite H by lia. done.
Qed.

(** One interval is used up, the rest is booked from the next one on. *)
Lemma booked_cons max limit used first n need last used' :
  0 <= n -> used first + n = max -> n < need ->
  booked max limit (book_one used first n) (first + 1) (need - n) last used' ->
  booked max limit used first need last used'.
Proof.
  intros Hn0 Hn Hneed ([Hf Hl] & Hout & Hin & Hlast & Hsum).
  assert (Eo : forall j, j <> first -> book_one used first n j = used j).
  { intros. unfold book_one. by rewrite decide_False. }
  assert (Ei : book_one used first n first = max).
  { unfold book_one. by rewrite decide_True. }
  assert (Ef : used' first = max) by (rewrite Hout by lia; done).
  assert (Es : booked_sum used used' first last = n + booked_sum (book_one used first n) used' (first + 1) last).
  { rewrite booked_sum_cons by lia. rewrite Ef. f_equal; [lia|].
    apply booked_sum_ext. intros j Hj. symmetry. apply Eo. lia. }
  rewrite Eo in Hlast, Hsum by lia. unfold booked. rewrite Es. split; [lia|]. split; [|split; [|split; [done|]]].
  - intros j Hj. destruct (decide (j = first)) as [->|]; [lia|]. rewrite Hout, Eo by lia. done.
  - intros j Hj. destruct (decide (j = first)) as [->|]; [done|]. apply Hin. lia.
  - destruct Hsum as [[Hs Hlt]|(Hlim & Hmax & Hs)]; [left|right; lia].
    split; [lia|]. intros _. destruct (decide (first + 1 = last)) as [E|]; [|apply Hlt; lia].
    destruct (Z.lt_ge_cases (used last) (used' last)) as [|Hge]; [done|exfalso].
    assert (booked_sum (book_one used first n) used' (first + 1) last = 0); [|lia].
    rewrite booked_sum_cons, E, Eo by lia. unfold booked_sum.
    replace (last - (last + 1) + 1) with 0 by lia. simpl. lia.
Qed.

(** The loop books the credits. *)
Lemma wp_credit_loop fuel ch used k need delay :
  0 <= ch_head ch < NR_CREDIT_ENTRIES -> 0 < ch_max_credits ch < 256 -> cells ch used ->
  (forall j, interval (ch_cur_time ch) <= j -> 0 <= used j <= ch_max_credits ch) ->
  0 <= k < NR_CREDIT_ENTRIES -> 0 <= need -> (Z.to_nat (NR_CREDIT_ENTRIES - k) < fuel)%nat ->
  wp never (credit_loop fuel (slot (ch_head ch) k) need delay) (fun r ch' => exists m k' used',
    ch' = set_credits m ch /\ cells ch' used' /\ k <= k' < NR_CREDIT_ENTRIES /\
    r = (slot (ch_head ch) k', delay + (k' - k)) /\
    booked (ch_max_credits ch) (interval (ch_cur_time ch) + NR_CREDIT_ENTRIES) used
      (interval (ch_cur_time ch) + k) need (interval (ch_cur_time ch) + k') used') ch.
Proof.
  revert ch used k need delay.
  induction fuel as [|fuel IH]; intros ch used k need delay Hh Hm Hc Hb Hk Hn Hf; [lia|].
  cbn [credit_loop]. set (C := interval (ch_cur_time ch)) in *.
  apply wp_bind, wp_read_credit; [apply slot_range|].
  cbv zeta beta. rewrite !Hc by done. fold C.
  set (avail := ch_max_credits ch - used (C + k)).
  assert (Hav : 0 <= avail) by (specialize (Hb (C + k)); subst avail; lia).
  set (n := if need <=? avail then need else avail).
  assert (Hnn : 0 <= n <= need /\ n <= avail /\ (n = need \/ n = avail /\ avail < need)).
  { subst n. destruct (Z.leb_spec need avail); lia. }
  clearbody n. apply wp_bind, wp_write_credit; [apply slot_range|].
  set (ch1 := set_credits _ ch).
  assert (Hc1 : cells ch1 (book_one used (C + k) n)).
  { apply (cells_book ch used k n); try done; try lia; fold C; specialize (Hb (C + k)); lia. }
  assert (Eo : forall j, j <> C + k -> book_one used (C + k) n j = used j).
  { intros. unfold book_one. by rewrite decide_False. }
  assert (Ei : book_one used (C + k) n (C + k) = used (C + k) + n).
  { unfold book_one. by rewrite decide_True. }
  assert (Hsum1 : booked_sum used (book_one used (C + k) n) (C + k) (C + k) = n).
  { rewrite booked_sum_cons by lia. unfold booked_sum.
    replace (C + k - (C + k + 1) + 1) with 0 by lia. simpl. rewrite Ei. lia. }
  assert (Hstop : n = need \/ k = NR_CREDIT_ENTRIES - 1 ->
    exists m k' used', ch1 = set_credits m ch /\ cells ch1 used' /\ k <= k' < NR_CREDIT_ENTRIES /\
      (slot (ch_head ch) k, delay) = (slot (ch_head ch) k', delay + (k' - k)) /\
      booked (ch_max_credits ch) (C + NR_CREDIT_ENTRIES) used (C + k) need (C + k') used').
  { intros Hs. eexists _, k, _. split; [done|]. split; [exact Hc1|]. split; [lia|].
    split; [f_equal; lia|]. unfold booked. rewrite Hsum1, Ei. split; [lia|]. split; [intros; apply Eo; lia|].
    split; [intros; lia|]. split; [lia|]. destruct (decide (n = need)); [left; lia|right; lia]. }
  destruct (Z.eqb_spec (need - n) 0); cbn [negb]; [apply wp_ret, Hstop; lia|].
  apply wp_bind, wp_get. change (ch_head ch1) with (ch_head ch).
  pose proof (next_slot_spec (ch_head ch) k Hh Hk) as Enext.
  rewrite Enext. destruct (Z.ltb_spec (k + 1) NR_CREDIT_ENTRIES); cycle 1.
  { rewrite Z.eqb_refl. cbn [negb]. apply wp_ret, Hstop. lia. }
  replace (slot (ch_head ch) (k + 1) =? ch_head ch) with false; cycle 1.
  { symmetry. apply Z.eqb_neq. rewrite slot_spec by lia.
    destruct (Z.ltb_spec (ch_head ch + (k + 1)) NR_CREDIT_ENTRIES); lia. }
  cbn [negb]. eapply wp_mono;
    [apply (IH ch1 (book_one used (C + k) n) (k + 1) (need - n) (delay + 1)); try done; try lia|].
  - intros j Hj. change (ch_max_credits ch1) with (ch_max_credits ch).
    specialize (Hb j Hj). destruct (decide (j = C + k)) as [->|]; [rewrite Ei|rewrite Eo by done]; lia.
  - intros r ch' (m & k' & used' & -> & Hc' & Hk' & -> & Hbk). exists m, k', used'.
    split; [done|]. split; [done|]. split; [lia|]. split; [f_equal; lia|].
    apply (booked_cons _ _ _ _ n); [lia|lia|lia|]. change (interval (ch_cur_time ch1)) with C in Hbk.
    by rewrite <- (Z.add_assoc C k 1).
Qed.

(** ** Requests *)

Lemma ledger_booked ch m used used' k need last :
  ledger_rep ch used -> 0 <= k < NR_CREDIT_ENTRIES -> 0 <= last < NR_CREDIT_ENTRIES ->
  cells (set_credits m ch) used' ->
  booked (ch_max_credits ch) (interval (ch_cur_time ch) + NR_CREDIT_ENTRIES) used
    (interval (ch_cur_time ch) + k) need (interval (ch_cur_time ch) + last) used' ->
  ledger_rep (Chan (ch_cur_time ch) (ch_head ch) (Z.max (ch_valid_len ch) (last + 1))
    (ch_max_credits ch) (ch_command_credits ch) (ch_xfer_lat ch) m) used'.
Proof.
  intros [Hh Hv Hm Hc Hcells Hb Hw] Hk Hl Hcells' (Hr & Hout & Hin & Hlast & _).
  split; simpl; try done; try lia.
  - intros j Hj. specialize (Hb j Hj).
    destruct (decide (j = interval (ch_cur_time ch) + last)) as [->|]; [lia|].
    destruct (decide (interval (ch_cur_time ch) + k <= j < interval (ch_cur_time ch) + last));
      [rewrite Hin by lia; lia|]. rewrite Hout by lia. lia.
  - intros j Hj. rewrite Hout by lia. apply Hw. lia.
Qed.

(** C21: the ring of credits is a ledger by absolute time.  From a channel that
    stands for a ledger, a request first forgets the intervals that are over.  If it
    starts in the past or beyond the ring, it is answered at once; otherwise it takes
    its credits from the first intervals that have some, no interval ever gives more
    than [max_credits], and the answer is the transfer time, plus the intervals it
    had to wait beyond those its own size accounts for.  Clock steps and request
    times must not span 2^32 intervals, and the transfer time must fit 32 bits. *)
Theorem chmodel_request_books ch used cur_time request_time length :
  let units := (length + 127) / 128 in
  ledger_rep ch used -> ch_cur_time ch <= cur_time ->
  interval cur_time - interval (ch_cur_time ch) < 2 ^ 32 ->
  interval request_time - interval cur_time < 2 ^ 32 ->
  0 <= length < 2 ^ 38 -> 0 <= request_time < 2 ^ 63 -> 0 <= ch_xfer_lat ch * units < 2 ^ 32 ->
  wp never (chmodel_request cur_time request_time length) (fun r ch' => exists used',
    ledger_rep ch' used' /\ ch_cur_time ch' = cur_time /\
    ch_max_credits ch' = ch_max_credits ch /\ ch_xfer_lat ch' = ch_xfer_lat ch /\
    if decide (request_time < cur_time \/ interval cur_time + NR_CREDIT_ENTRIES <= interval request_time)
    then r = request_time /\ used' = used
    else exists last,
      booked (ch_max_credits ch) (interval cur_time + NR_CREDIT_ENTRIES) used
        (interval request_time) units last used' /\
      r = request_time + ch_xfer_lat ch * units +
          UNIT_TIME_INTERVAL * Z.max 0 (last - interval request_time - units / ch_max_credits ch)) ch.
Proof.
  intros units Hrep Ht Hd Hd' Hlen Hrt Hlat. pose proof nr_credits as HN. unfold chmodel_request.
  assert (Hunits : 0 <= units < 2 ^ 32) by (subst units; Z.to_euclidean_division_equations; lia).
  change (UNIT_XFER_SIZE - 1) with 127. change UNIT_XFER_SIZE with 128.
  rewrite (wrap_small 64 (length + 127)) by (unfold in_word; lia). fold units.
  rewrite (wrap_small 32 units) by (unfold in_word; lia).
  apply wp_bind. eapply wp_mono; [by apply wp_chmodel_advance|].
  intros _ ch1 (Hrep1 & Ecur & Emax & Elat). apply wp_bind, wp_get.
  rewrite <- Emax, <- Elat in *. pose proof Hrep1 as [Hh Hv Hm Hc Hcells Hb Hw].
  replace (NR_CREDIT_ENTRIES <? ch_valid_len ch1) with false by lia.
  destruct (Z.ltb_spec request_time cur_time).
  { apply wp_ret. exists used. rewrite decide_True by lia. by split_and!. }
  fold (interval request_time) (interval cur_time).
  assert (Hle : interval cur_time <= interval request_time) by (apply Z.div_le_mono; done).
  rewrite (wrap_small 32 (interval request_time - _)) by (unfold in_word; lia).
  destruct (Z.leb_spec NR_CREDIT_ENTRIES (interval request_time - interval cur_time)).
  { apply wp_ret. exists used. rewrite decide_True by lia. by split_and!. }
  unfold chmodel_take. apply wp_bind, wp_get. rewrite Hc. change UNIT_XFER_CREDITS with 1.
  set (k := interval request_time - interval cur_time) in *.
  rewrite (wrap_small 32 (ch_head ch1 + k)), (wrap_small 32 (units * 1)) by (unfold in_word; lia).
  rewrite (wrap_small 32 (units * 1 + 0)) by (unfold in_word; lia).
  replace (units * 1 + 0) with units by lia. replace (ch_max_credits ch1 =? 0) with false by lia.
  fold (slot (ch_head ch1) k). apply wp_bind.
  eapply wp_mono; [apply (wp_credit_loop _ ch1 used); try done; lia|]. rewrite Ecur.
  intros r ch2 (m & last & used' & -> & Hcells' & Hlast & -> & Hbk). apply wp_bind, wp_get.
  apply wp_bind, wp_put, wp_ret. simpl.
  set (vl := if ch_head ch1 <=? _ then _ else _).
  assert (Evl : vl = last + 1).
  { subst vl. rewrite slot_spec by lia.
    destruct (Z.ltb_spec (ch_head ch1 + last) NR_CREDIT_ENTRIES).
    - replace (ch_head ch1 <=? ch_head ch1 + last) with true by lia. lia.
    - replace (ch_head ch1 <=? ch_head ch1 + last - NR_CREDIT_ENTRIES) with false by lia. lia. }
  rewrite Evl.
  replace (if ch_valid_len ch1 <? last + 1 then last + 1 else ch_valid_len ch1)
    with (Z.max (ch_valid_len ch1) (last + 1)) by (destruct (Z.ltb_spec (ch_valid_len ch1) (last + 1)); lia).
  exists used'. split.
  { eapply (ledger_booked ch1 m used used' k units last); rewrite ?Ecur; try done; lia. }
  split; [done|]. split; [done|]. split; [done|]. rewrite decide_False by lia.
  exists (interval cur_time + last).
  replace (interval cur_time + k) with (interval request_time) in Hbk by lia. split; [done|].
  set (dd := units / ch_max_credits ch1).
  assert (0 <= dd) by (apply Z.div_pos; lia).
  replace (if dd <? 0 + (last - k) then 0 + (last - k) - dd else 0) with (Z.max 0 (last - k - dd))
    by (destruct (Z.ltb_spec dd (0 + (last - k))); lia).
  replace (interval cur_time + last - interval request_time - dd) with (last - k - dd) by lia.
  set (w := Z.max 0 (last - k - dd)). assert (0 <= w < 2 ^ 20) by lia. clearbody w dd.
  rewrite (wrap_small 32) by (unfold in_word; lia). unfold UNIT_TIME_INTERVAL.
  rewrite (wrap_small 64 (w * 4000)) by (unfold in_word; lia).
  rewrite !(wrap_small 64) by (rewrite ?wrap_small; unfold in_word; lia). lia.
Qed.

(** A channel starts with an empty ledger. *)
Lemma wp_chmodel_init bandwidth ch :
  0 < bandwidth < 2 ^ 30 -> 0 < BANDWIDTH_TO_MAX_CREDITS bandwidth < 256 ->
  wp never (chmodel_init bandwidth) (fun _ ch' => ledger_rep ch' (fun _ => 0) /\
    ch_max_credits ch' = BANDWIDTH_TO_MAX_CREDITS bandwidth) ch.
Proof.
  intros Hb Hm. unfold chmodel_init.
  assert (Eb : u64 (Z.shiftl bandwidth 20) = bandwidth * 2 ^ 20).
  { rewrite Z.shiftl_mul_pow2 by lia. apply wrap_small. unfold in_word. lia. }
  rewrite Eb. replace (bandwidth * 2 ^ 20 =? 0) with false by lia. apply wp_put.
  rewrite (wrap_small 32 (BANDWIDTH_TO_MAX_CREDITS bandwidth)) by (unfold in_word; lia).
  split; [|done]. pose proof nr_credits. split; simpl; try lia.
  intros k Hk. unfold credit_at. simpl. rewrite lookup_empty. simpl.
  rewrite wrap_small by (unfold in_word; lia). lia.
Qed.

Module Sample.

(** The flash channel of the SAMSUNG_970PRO configuration: 26 credits an interval. *)
Definition channel : channel_model := Chan 0 0 0 26 0 152 ∅.

Example channel_init : chmodel_init 800 channel = Done tt channel.
Proof. by vm_compute. Qed.

Lemma channel_rep : ledger_rep channel (fun _ => 0).
Proof.
  destruct (wp_done _ _ _ (wp_chmodel_init 800 channel ltac:(lia) ltac:(done)))
    as (a & ch & E & Hrep & _).
  rewrite channel_init in E. by simplify_eq.
Qed.

(** A 4 KiB transfer takes 32 credits, from two intervals. *)
Lemma chmodel_request_books_witness :
  wp never (chmodel_request 8000 9000 4096) (fun r ch' => exists used',
    ledger_rep ch' used' /\ ch_cur_time ch' = 8000 /\ ch_max_credits ch' = 26 /\ ch_xfer_lat ch' = 152 /\
    if decide (9000 < 8000 \/ interval 8000 + NR_CREDIT_ENTRIES <= interval 9000)
    then r = 9000 /\ used' = (fun _ => 0)
    else exists last,
      booked 26 (interval 8000 + NR_CREDIT_ENTRIES) (fun _ => 0) (interval 9000) 32 last used' /\
      r = 9000 + 152 * 32 + UNIT_TIME_INTERVAL * Z.max 0 (last - interval 9000 - 32 / 26)) channel.
Proof.
  exact (chmodel_request_books channel (fun _ => 0) 8000 9000 4096 channel_rep ltac:(done) ltac:(done)
           ltac:(done) ltac:(done) ltac:(done) ltac:(done)).
Defined.

(** Times are compared through a 32-bit difference of intervals.  After 2^32
    intervals, nearly five hours without a request, the difference is 0 and the
    intervals that were used up are taken for the current ones: a transfer that
    would take 152 ns on an idle channel is delayed by three intervals. *)
Example chmodel_wrap_delays :
  match (_ ← chmodel_request 0 0 9984; chmodel_request (2 ^ 32 * 4000) (2 ^ 32 * 4000) 128) channel,
        chmodel_request (2 ^ 32 * 4000) (2 ^ 32 * 4000) 128 channel with
  | Done busy _, Done idle _ => idle = 2 ^ 32 * 4000 + 152 /\ busy = idle + 3 * UNIT_TIME_INTERVAL
  | _, _ => False
  end.
Proof. vm_compute. by split. Qed.

End Sample.
