(* ===== verification/Ssd.v ===== *)
(** * Flash back end of the SSD emulator (lib/nvmevirt: ssd.c, ssd.h, ssd_config.h)

    The geometry of the device, computed from its configuration and capacity; the
    write buffer; the state of flash pages, blocks and dies; and the time a NAND
    command takes.  Pages, blocks, dies and channels are kept in maps keyed by their
    address; an object that is not in its map is as [ssd_init] leaves it, and an
    address outside the geometry is an access outside the arrays. *)
From S2P Require Import Prelude ChannelModel.

(** ** Configuration *)

(** The macros of ssd_config.h that differ between devices. *)
Record ssd_config := SsdConfig {
  SSD_PARTITIONS : Z;
  NAND_CHANNELS : Z;
  LUNS_PER_NAND_CH : Z;
  PLNS_PER_LUN : Z;
  CELL_MODE : Z;
  FLASH_PAGE_SIZE : Z;
  ONESHOT_PAGE_SIZE : Z;
  BLKS_PER_PLN : Z;
  BLK_SIZE : Z;
  MAX_CH_XFER_SIZE : Z;
  WRITE_UNIT_SIZE : Z;
  NAND_CHANNEL_BANDWIDTH : Z;
  PCIE_BANDWIDTH : Z;
  NAND_4KB_READ_LATENCY : Z * Z * Z;     (** LSB, MSB, CSB *)
  NAND_READ_LATENCY : Z * Z * Z;
  NAND_PROG_LATENCY : Z;
  NAND_ERASE_LATENCY : Z;
  FW_4KB_READ_LATENCY : Z;
  FW_READ_LATENCY : Z;
  FW_WBUF_LATENCY0 : Z;
  FW_WBUF_LATENCY1 : Z;
  FW_CH_XFER_LATENCY : Z;
  GLOBAL_WB_SIZE : Z;
  WRITE_EARLY_COMPLETION : bool
}.

Definition KB (k : Z) : Z := Z.shiftl k 10.
Definition MB (m : Z) : Z := Z.shiftl m 20.
Definition GB (g : Z) : Z := Z.shiftl g 30.
Definition LBA_BITS : Z := 9.
Definition LBA_SIZE : Z := Z.shiftl 1 LBA_BITS.
Definition LBA_TO_BYTE (lba : Z) : Z := u64 (Z.shiftl lba LBA_BITS).

Definition SAMSUNG_970PRO : ssd_config := {|
  SSD_PARTITIONS := 4; NAND_CHANNELS := 8; LUNS_PER_NAND_CH := 2; PLNS_PER_LUN := 1;
  CELL_MODE := 2; FLASH_PAGE_SIZE := KB 32; ONESHOT_PAGE_SIZE := KB 32 * 1;
  BLKS_PER_PLN := 8192; BLK_SIZE := 0;
  MAX_CH_XFER_SIZE := KB 16; WRITE_UNIT_SIZE := 512;
  NAND_CHANNEL_BANDWIDTH := 800; PCIE_BANDWIDTH := 3360;
  NAND_4KB_READ_LATENCY := (35760 - 6000, 35760 + 6000, 0);
  NAND_READ_LATENCY := (36013 - 6000, 36013 + 6000, 0);
  NAND_PROG_LATENCY := 185000; NAND_ERASE_LATENCY := 0;
  FW_4KB_READ_LATENCY := 21500; FW_READ_LATENCY := 30490;
  FW_WBUF_LATENCY0 := 4000; FW_WBUF_LATENCY1 := 460; FW_CH_XFER_LATENCY := 0;
  GLOBAL_WB_SIZE := 8 * 2 * (KB 32 * 1) * 2; WRITE_EARLY_COMPLETION := true
|}.

Definition ZNS_PROTOTYPE : ssd_config := {|
  SSD_PARTITIONS := 1; NAND_CHANNELS := 8; LUNS_PER_NAND_CH := 16; PLNS_PER_LUN := 1;
  CELL_MODE := 3; FLASH_PAGE_SIZE := KB 64; ONESHOT_PAGE_SIZE := KB 64 * 2;
  BLKS_PER_PLN := 0; BLK_SIZE := MB 32 / 1;
  MAX_CH_XFER_SIZE := KB 64; WRITE_UNIT_SIZE := KB 64 * 2;
  NAND_CHANNEL_BANDWIDTH := 800; PCIE_BANDWIDTH := 3200;
  NAND_4KB_READ_LATENCY := (25485, 25485, 25485);
  NAND_READ_LATENCY := (40950, 40950, 40950);
  NAND_PROG_LATENCY := 1913640; NAND_ERASE_LATENCY := 0;
  FW_4KB_READ_LATENCY := 37540 - 7390 + 2000; FW_READ_LATENCY := 37540 - 7390 + 2000;
  FW_WBUF_LATENCY0 := 0; FW_WBUF_LATENCY1 := 0; FW_CH_XFER_LATENCY := 413;
  GLOBAL_WB_SIZE := 8 * 16 * (KB 64 * 2) * 2; WRITE_EARLY_COMPLETION := false
|}.

Definition WD_ZN540 : ssd_config := {|
  SSD_PARTITIONS := 1; NAND_CHANNELS := 8; LUNS_PER_NAND_CH := 4; PLNS_PER_LUN := 1;
  CELL_MODE := 3; FLASH_PAGE_SIZE := KB 32; ONESHOT_PAGE_SIZE := KB 32 * 3;
  BLKS_PER_PLN := 0; BLK_SIZE := GB 2 / (8 * 4);
  MAX_CH_XFER_SIZE := KB 32; WRITE_UNIT_SIZE := 512;
  NAND_CHANNEL_BANDWIDTH := 450; PCIE_BANDWIDTH := 3050;
  NAND_4KB_READ_LATENCY := (50000, 50000, 50000);
  NAND_READ_LATENCY := (58000, 58000, 58000);
  NAND_PROG_LATENCY := 561000; NAND_ERASE_LATENCY := 0;
  FW_4KB_READ_LATENCY := 20000; FW_READ_LATENCY := 13000;
  FW_WBUF_LATENCY0 := 5600; FW_WBUF_LATENCY1 := 600; FW_CH_XFER_LATENCY := 0;
  GLOBAL_WB_SIZE := 0; WRITE_EARLY_COMPLETION := true
|}.

(** ** Parameters *)

Record ssdparams := SsdParams {
  secsz : Z; secs_per_pg : Z; pgsz : Z;
  pgs_per_flashpg : Z; flashpgs_per_blk : Z;
  pgs_per_oneshotpg : Z; oneshotpgs_per_blk : Z; pgs_per_blk : Z;
  blks_per_pl : Z; pls_per_lun : Z; luns_per_ch : Z; nchs : Z; cell_mode : Z;
  write_unit_size : Z; write_early_completion : bool;
  pg_4kb_rd_lat : Z * Z * Z; pg_rd_lat : Z * Z * Z; pg_wr_lat : Z; blk_er_lat : Z;
  max_ch_xfer_size : Z;
  fw_4kb_rd_lat : Z; fw_rd_lat : Z; fw_wbuf_lat0 : Z; fw_wbuf_lat1 : Z; fw_ch_xfer_lat : Z;
  ch_bandwidth : Z; pcie_bandwidth : Z;
  secs_per_blk : Z; secs_per_pl : Z; secs_per_lun : Z; secs_per_ch : Z; tt_secs : Z;
  pgs_per_pl : Z; pgs_per_lun : Z; pgs_per_ch : Z; tt_pgs : Z;
  blks_per_lun : Z; blks_per_ch : Z; tt_blks : Z;
  secs_per_line : Z; pgs_per_line : Z; blks_per_line : Z; tt_lines : Z;
  pls_per_ch : Z; tt_pls : Z; tt_luns : Z;
  write_buffer_size : Z
}.

(** A result of [int] arithmetic; overflow, like a failed assertion, gives nothing. *)
Definition as_int (x : Z) : option Z := if (- 2 ^ 31 <=? x) && (x <? 2 ^ 31) then Some x else None.

Definition DIV_ROUND_UP (n d : Z) : Z := (n + d - 1) / d.

(** Number of blocks per plane and size of a block. *)
Definition block_layout (cf : ssd_config) (chs capacity : Z) : option (Z * Z) :=
  if 0 <? BLKS_PER_PLN cf then
    units ← as_int (BLKS_PER_PLN cf * PLNS_PER_LUN cf * LUNS_PER_NAND_CH cf * chs);
    guard (0 < units);;
    Some (BLKS_PER_PLN cf, DIV_ROUND_UP capacity units)
  else
    guard (0 < BLK_SIZE cf);;
    let units := u64 (BLK_SIZE cf * (PLNS_PER_LUN cf * LUNS_PER_NAND_CH cf * chs)) in
    guard (0 < units);;
    blks ← as_int (DIV_ROUND_UP capacity units);
    Some (blks, BLK_SIZE cf).

Definition ssd_init_params (cf : ssd_config) (capacity nparts : Z) : option ssdparams :=
  let secsz := LBA_SIZE in
  let secs_per_pg := 4096 / LBA_SIZE in
  let pgsz := secsz * secs_per_pg in
  guard (0 < nparts /\ NAND_CHANNELS cf mod nparts = 0);;
  let nchs := NAND_CHANNELS cf / nparts in
  let capacity := capacity / nparts in
  l ← block_layout cf nchs capacity;
  let '(blks_per_pl, blk_size) := l in
  guard (ONESHOT_PAGE_SIZE cf mod pgsz = 0 /\ FLASH_PAGE_SIZE cf mod pgsz = 0);;
  guard (0 < FLASH_PAGE_SIZE cf /\ 0 < ONESHOT_PAGE_SIZE cf /\
         ONESHOT_PAGE_SIZE cf mod FLASH_PAGE_SIZE cf = 0);;
  let pgs_per_oneshotpg := ONESHOT_PAGE_SIZE cf / pgsz in
  oneshotpgs_per_blk ← as_int (DIV_ROUND_UP blk_size (ONESHOT_PAGE_SIZE cf));
  let pgs_per_flashpg := FLASH_PAGE_SIZE cf / pgsz in
  flashpgs_per_blk ← as_int (ONESHOT_PAGE_SIZE cf / FLASH_PAGE_SIZE cf * oneshotpgs_per_blk);
  pgs_per_blk ← as_int (pgs_per_oneshotpg * oneshotpgs_per_blk);
  secs_per_blk ← as_int (secs_per_pg * pgs_per_blk);
  let secs_per_pl := u64 (secs_per_blk * blks_per_pl) in
  let secs_per_lun := u64 (secs_per_pl * PLNS_PER_LUN cf) in
  let secs_per_ch := u64 (secs_per_lun * LUNS_PER_NAND_CH cf) in
  pgs_per_pl ← as_int (pgs_per_blk * blks_per_pl);
  let pgs_per_lun := u64 (pgs_per_pl * PLNS_PER_LUN cf) in
  let pgs_per_ch := u64 (pgs_per_lun * LUNS_PER_NAND_CH cf) in
  blks_per_lun ← as_int (blks_per_pl * PLNS_PER_LUN cf);
  let blks_per_ch := u64 (blks_per_lun * LUNS_PER_NAND_CH cf) in
  pls_per_ch ← as_int (PLNS_PER_LUN cf * LUNS_PER_NAND_CH cf);
  tt_luns ← as_int (LUNS_PER_NAND_CH cf * nchs);
  let pgs_per_line := u64 (tt_luns * pgs_per_blk) in
  Some {|
    secsz := secsz; secs_per_pg := secs_per_pg; pgsz := pgsz;
    pgs_per_flashpg := pgs_per_flashpg; flashpgs_per_blk := flashpgs_per_blk;
    pgs_per_oneshotpg := pgs_per_oneshotpg; oneshotpgs_per_blk := oneshotpgs_per_blk;
    pgs_per_blk := pgs_per_blk;
    blks_per_pl := blks_per_pl; pls_per_lun := PLNS_PER_LUN cf;
    luns_per_ch := LUNS_PER_NAND_CH cf; nchs := nchs; cell_mode := CELL_MODE cf;
    write_unit_size := WRITE_UNIT_SIZE cf; write_early_completion := WRITE_EARLY_COMPLETION cf;
    pg_4kb_rd_lat := NAND_4KB_READ_LATENCY cf; pg_rd_lat := NAND_READ_LATENCY cf;
    pg_wr_lat := NAND_PROG_LATENCY cf; blk_er_lat := NAND_ERASE_LATENCY cf;
    max_ch_xfer_size := MAX_CH_XFER_SIZE cf;
    fw_4kb_rd_lat := FW_4KB_READ_LATENCY cf; fw_rd_lat := FW_READ_LATENCY cf;
    fw_wbuf_lat0 := FW_WBUF_LATENCY0 cf; fw_wbuf_lat1 := FW_WBUF_LATENCY1 cf;
    fw_ch_xfer_lat := FW_CH_XFER_LATENCY cf;
    ch_bandwidth := NAND_CHANNEL_BANDWIDTH cf; pcie_bandwidth := PCIE_BANDWIDTH cf;
    secs_per_blk := secs_per_blk; secs_per_pl := secs_per_pl; secs_per_lun := secs_per_lun;
    secs_per_ch := secs_per_ch; tt_secs := u64 (secs_per_ch * nchs);
    pgs_per_pl := pgs_per_pl; pgs_per_lun := pgs_per_lun; pgs_per_ch := pgs_per_ch;
    tt_pgs := u64 (pgs_per_ch * nchs);
    blks_per_lun := blks_per_lun; blks_per_ch := blks_per_ch; tt_blks := u64 (blks_per_ch * nchs);
    secs_per_line := u64 (pgs_per_line * secs_per_pg); pgs_per_line := pgs_per_line;
    blks_per_line := tt_luns; tt_lines := blks_per_lun;
    pls_per_ch := pls_per_ch; tt_pls := u64 (pls_per_ch * nchs); tt_luns := tt_luns;
    write_buffer_size := GLOBAL_WB_SIZE cf
  |}.

(** ** Addresses *)

Definition UNMAPPED_PPA : Z := 2 ^ 64 - 1.
Definition INVALID_LPN : Z := 2 ^ 64 - 1.
Definition PG_FREE : Z := 0.
Definition PG_INVALID : Z := 1.
Definition PG_VALID : Z := 2.

(** [struct ppa] by its fields of 16, 16, 8, 8 and 8 bits; the reserved byte is 0. *)
Record ppa := Ppa { p_pg : Z; p_blk : Z; p_pl : Z; p_lun : Z; p_ch : Z }.

#[export] Instance ppa_eq_dec : EqDecision ppa.
Proof. solve_decision. Defined.
#[export] Instance ppa_countable : Countable ppa.
Proof.
  refine (inj_countable' (fun p => (p_pg p, p_blk p, p_pl p, p_lun p, p_ch p))
    (fun '(a, b, c, d, e) => Ppa a b c d e) _). by intros [].
Defined.

(** Storing into the bit fields. *)
Definition make_ppa (ch lun pl blk pg : Z) : ppa := Ppa (u16 pg) (u16 blk) (u8 pl) (u8 lun) (u8 ch).
Definition set_pg (pg : Z) (p : ppa) : ppa := Ppa (u16 pg) (p_blk p) (p_pl p) (p_lun p) (p_ch p).

(** The word the union holds, and its [h.blk_in_ssd]. *)
Definition ppa_word (p : ppa) : Z :=
  p_pg p + 2 ^ 16 * (p_blk p + 2 ^ 16 * (p_pl p + 2 ^ 8 * (p_lun p + 2 ^ 8 * p_ch p))).
Definition blk_in_ssd (p : ppa) : Z := Z.land (Z.shiftr (ppa_word p) 16) (Z.ones 40).

Definition ppa_fields (p : ppa) : Prop :=
  in_word 16 (p_pg p) /\ in_word 16 (p_blk p) /\ in_word 8 (p_pl p) /\ in_word 8 (p_lun p) /\
  in_word 8 (p_ch p).

Lemma make_ppa_fields ch lun pl blk pg : ppa_fields (make_ppa ch lun pl blk pg).
Proof. unfold ppa_fields. simpl. repeat split; apply wrap_in_word; lia. Qed.

(** No page has the address that marks an unmapped entry. *)
Lemma ppa_word_mapped p : ppa_fields p -> ppa_word p <> UNMAPPED_PPA.
Proof. unfold ppa_fields, in_word, ppa_word, UNMAPPED_PPA. lia. Qed.

Lemma digits_inj n a b a' b' :
  0 <= a < n -> 0 <= a' < n -> a + n * b = a' + n * b' -> a = a' /\ b = b'.
Proof. intros Ha Ha' E. assert (b = b') by nia. subst. lia. Qed.

Lemma ppa_word_inj p q : ppa_fields p -> ppa_fields q -> ppa_word p = ppa_word q -> p = q.
Proof.
  intros (P1 & P2 & P3 & P4 & P5) (Q1 & Q2 & Q3 & Q4 & Q5). unfold ppa_word. intros E.
  do 4 (apply digits_inj in E as [? E]; [|assumption..]). destruct p, q. simpl in *. by subst.
Qed.

(** [h.blk_in_ssd] tells blocks apart. *)
Lemma blk_in_ssd_spec p q :
  ppa_fields p -> ppa_fields q ->
  blk_in_ssd p = blk_in_ssd q <->
  p_ch p = p_ch q /\ p_lun p = p_lun q /\ p_pl p = p_pl q /\ p_blk p = p_blk q.
Proof.
  assert (E : forall p, ppa_fields p -> blk_in_ssd p =
    p_blk p + 2 ^ 16 * (p_pl p + 2 ^ 8 * (p_lun p + 2 ^ 8 * p_ch p))).
  { intros r. unfold ppa_fields, in_word. intros. unfold blk_in_ssd, ppa_word.
    rewrite Z.land_ones, Z.shiftr_div_pow2 by lia. Z.to_euclidean_division_equations. lia. }
  intros Hp Hq. rewrite !E by done. unfold ppa_fields, in_word in *. lia.
Qed.

(** ** State *)

Record nand_block := NandBlock { nb_ipc : Z; nb_vpc : Z; nb_erase_cnt : Z }.
Record nand_lun := NandLun { nl_next_lun_avail_time : Z; nl_gc_endtime : Z }.

Definition blk_addr : Type := (Z * Z * Z * Z)%type.
Definition blk_of (p : ppa) : blk_addr := (p_ch p, p_lun p, p_pl p, p_blk p).

Record ssd := Ssd {
  sp : ssdparams;
  sd_pg : gmap ppa Z;                 (** status *)
  sd_blk : gmap blk_addr nand_block;
  sd_lun : gmap (Z * Z) nand_lun;
  sd_ch : gmap Z channel_model
}.

(** What the parts of the device share: the PCIe link, the write buffer, the clock
    (its readings in order, and how many were taken) and the releases of buffer
    space that [schedule_internal_operation] has queued. *)
Record buffer := Buffer { bf_size : Z; bf_remaining : Z }.
Record shared := Shared {
  sh_pcie : channel_model;
  sh_wbuf : buffer;
  sh_clock : nat -> Z;
  sh_ticks : nat;
  sh_releases : list (Z * Z * Z)      (** queue, time, bytes *)
}.

Definition set_pcie (ch : channel_model) (s : shared) : shared :=
  Shared ch (sh_wbuf s) (sh_clock s) (sh_ticks s) (sh_releases s).
Definition set_wbuf (b : buffer) (s : shared) : shared :=
  Shared (sh_pcie s) b (sh_clock s) (sh_ticks s) (sh_releases s).

(** ** The write buffer *)

Definition buffer_init (size : Z) : buffer := Buffer size size.

Definition buffer_allocate (size : Z) : prog buffer Z :=
  buf ← get;
  if bf_size buf <? size then undefined else
  let size := if bf_remaining buf <? size then 0 else size in
  _ ← put (Buffer (bf_size buf) (u64 (bf_remaining buf - size)));
  mret (u32 size).

Definition buffer_release (size : Z) : prog buffer bool :=
  buf ← get;
  _ ← put (Buffer (bf_size buf) (u64 (bf_remaining buf + size)));
  mret true.

Definition buffer_refill : prog buffer unit :=
  buf ← get;
  put (Buffer (bf_size buf) (bf_size buf)).

(** ** Initialisation *)

Definition init_block : nand_block := NandBlock 0 0 0.
Definition init_lun : nand_lun := NandLun 0 0.

(** [ssd_init_ch]: the channel model with the firmware overhead added. *)
Definition ssd_init_ch (sp : ssdparams) : option channel_model :=
  match chmodel_init (ch_bandwidth sp) (Chan 0 0 0 0 0 0 ∅) with
  | Done _ ch => Some (Chan (ch_cur_time ch) (ch_head ch) (ch_valid_len ch) (ch_max_credits ch)
                         (ch_command_credits ch)
                         (u32 (ch_xfer_lat ch + fw_ch_xfer_lat sp * UNIT_XFER_SIZE / KB 4))
                         (ch_avail_credits ch))
  | _ => None
  end.

Definition ssd_init_pcie (sp : ssdparams) : option channel_model :=
  match chmodel_init (pcie_bandwidth sp) (Chan 0 0 0 0 0 0 ∅) with
  | Done _ ch => Some ch
  | _ => None
  end.

(** [ssd_init] of one instance; the PCIe link and the write buffer are of the
    shared state. *)
Definition ssd_init (sp : ssdparams) : option ssd :=
  ch ← ssd_init_ch sp;
  Some (Ssd sp ∅ ∅ ∅ (list_to_map ((fun i => (i, ch)) <$> seqZ 0 (nchs sp)))).

(** ** Access by address *)

Definition in_geometry (sp : ssdparams) (p : ppa) : bool :=
  (0 <=? p_ch p) && (p_ch p <? nchs sp) && (0 <=? p_lun p) && (p_lun p <? luns_per_ch sp)
  && (0 <=? p_pl p) && (p_pl p <? pls_per_lun sp) && (0 <=? p_blk p) && (p_blk p <? blks_per_pl sp)
  && (0 <=? p_pg p) && (p_pg p <? pgs_per_blk sp).

Definition get_pg (s : ssd) (p : ppa) : Z := default PG_FREE (sd_pg s !! p).
Definition get_blk (s : ssd) (p : ppa) : nand_block := default init_block (sd_blk s !! blk_of p).
Definition get_lun (s : ssd) (p : ppa) : nand_lun := default init_lun (sd_lun s !! (p_ch p, p_lun p)).
Definition get_cell (s : ssd) (p : ppa) : Z := (p_pg p / pgs_per_flashpg (sp s)) mod cell_mode (sp s).

Definition put_pg (p : ppa) (status : Z) (s : ssd) : ssd :=
  Ssd (sp s) (<[p := status]> (sd_pg s)) (sd_blk s) (sd_lun s) (sd_ch s).
Definition put_blk (p : ppa) (b : nand_block) (s : ssd) : ssd :=
  Ssd (sp s) (sd_pg s) (<[blk_of p := b]> (sd_blk s)) (sd_lun s) (sd_ch s).
Definition put_lun (p : ppa) (l : nand_lun) (s : ssd) : ssd :=
  Ssd (sp s) (sd_pg s) (sd_blk s) (<[(p_ch p, p_lun p) := l]> (sd_lun s)) (sd_ch s).
Definition put_ch (i : Z) (ch : channel_model) (s : ssd) : ssd :=
  Ssd (sp s) (sd_pg s) (sd_blk s) (sd_lun s) (<[i := ch]> (sd_ch s)).

(** Entry of a table indexed by cell type. *)
Definition cell_latency (t : Z * Z * Z) (cell : Z) : Z :=
  let '(lsb, msb, csb) := t in
  if cell =? 0 then lsb else if cell =? 1 then msb else csb.

(** ** Time of NAND commands *)

Inductive nand_op := NAND_READ | NAND_WRITE | NAND_ERASE | NAND_NOP.

Record nand_cmd := NandCmd {
  nc_cmd : nand_op;
  nc_xfer_size : Z;
  nc_stime : Z;
  nc_interleave_pci_dma : bool;
  nc_ppa : ppa
}.

(** Code that uses one instance and the shared parts. *)
Abbreviation io_prog := (prog (ssd * shared)).

Definition get_clock : io_prog Z := fun '(d, s) =>
  Done (sh_clock s (sh_ticks s)) (d, Shared (sh_pcie s) (sh_wbuf s) (sh_clock s) (S (sh_ticks s))
                                       (sh_releases s)).

(** Code on the channel of an address. *)
Definition on_channel {A} (p : ppa) (m : prog channel_model A) : io_prog A := fun '(d, s) =>
  match sd_ch d !! p_ch p with
  | None => Undef
  | Some ch =>
    match m ch with
    | Done t ch' => Done t (put_ch (p_ch p) ch' d, s)
    | Undef => Undef
    | Exit ch' => Exit (put_ch (p_ch p) ch' d, s)
    end
  end.

(** [chmodel_request] on the channel of an address, and on the PCIe link. *)
Definition ch_request (p : ppa) (request_time length : Z) : io_prog Z :=
  cur_time ← get_clock;
  on_channel p (chmodel_request cur_time request_time length).

Definition ssd_advance_pcie (request_time length : Z) : io_prog Z :=
  cur_time ← get_clock;
  zoom (fun st => sh_pcie (snd st)) (fun ch st => (fst st, set_pcie ch (snd st)))
    (chmodel_request cur_time request_time length).

Definition ssd_advance_write_buffer (request_time length : Z) : io_prog Z :=
  st ← get;
  let spp := sp (fst st) in
  let nsecs_latest := u64 (request_time + fw_wbuf_lat0 spp) in
  let nsecs_latest := u64 (nsecs_latest + fw_wbuf_lat1 spp * DIV_ROUND_UP length (KB 4)) in
  ssd_advance_pcie nsecs_latest length.

(** The transfer loop of a read, with the times of the last piece. *)
Fixpoint read_xfer_loop (fuel : nat) (ncmd : nand_cmd) (remaining chnl_stime completed : Z)
    : io_prog (Z * Z) :=
  match fuel with
  | O => undefined
  | S n =>
    if remaining =? 0 then mret (chnl_stime, completed) else
    st ← get;
    let xfer_size := Z.min remaining (max_ch_xfer_size (sp (fst st))) in
    chnl_etime ← ch_request (nc_ppa ncmd) chnl_stime xfer_size;
    completed ← (if nc_interleave_pci_dma ncmd then ssd_advance_pcie chnl_etime xfer_size
                 else mret chnl_etime);
    read_xfer_loop n ncmd (remaining - xfer_size) chnl_etime completed
  end.

Definition set_avail_time (p : ppa) (t : Z) : io_prog unit :=
  modify (fun '(d, s) => (put_lun p (NandLun t (nl_gc_endtime (get_lun d p))) d, s)).

(** The command at its start time, on a mapped address (the test for [UNMAPPED_PPA]
    is by [ppa_word_mapped] never met). *)
Definition nand_step (ncmd : nand_cmd) (cmd_stime : Z) : io_prog Z :=
  st ← get;
  let spp := sp (fst st) in
  let p := nc_ppa ncmd in
  if negb (in_geometry spp p) || (cell_mode spp =? 0) || (pgs_per_flashpg spp =? 0) then undefined else
  let avail := nl_next_lun_avail_time (get_lun (fst st) p) in
  let cell := get_cell (fst st) p in
  match nc_cmd ncmd with
  | NAND_READ =>
    let nand_stime := Z.max avail cmd_stime in
    let nand_etime := u64 (nand_stime + cell_latency
      (if nc_xfer_size ncmd =? 4096 then pg_4kb_rd_lat spp else pg_rd_lat spp) cell) in
    if nc_xfer_size ncmd =? 0 then undefined else
    r ← read_xfer_loop (S (Z.to_nat (nc_xfer_size ncmd))) ncmd (nc_xfer_size ncmd) nand_etime 0;
    let '(chnl_etime, completed_time) := r in
    _ ← set_avail_time p chnl_etime;
    mret completed_time
  | NAND_WRITE =>
    let chnl_stime := Z.max avail cmd_stime in
    chnl_etime ← ch_request p chnl_stime (nc_xfer_size ncmd);
    let nand_etime := u64 (chnl_etime + pg_wr_lat spp) in
    _ ← set_avail_time p nand_etime;
    mret nand_etime
  | NAND_ERASE =>
    let nand_etime := u64 (Z.max avail cmd_stime + blk_er_lat spp) in
    _ ← set_avail_time p nand_etime;
    mret nand_etime
  | NAND_NOP =>
    let nand_stime := Z.max avail cmd_stime in
    _ ← set_avail_time p nand_stime;
    mret nand_stime
  end.

Definition ssd_advance_nand (ncmd : nand_cmd) : io_prog Z :=
  cmd_stime ← (if nc_stime ncmd =? 0 then get_clock else mret (nc_stime ncmd));
  nand_step ncmd cmd_stime.

(** [ssd_next_idle_time]: the latest time a die is free. *)
Definition lun_times (s : ssd) : list Z :=
  i ← seqZ 0 (nchs (sp s)); j ← seqZ 0 (luns_per_ch (sp s));
  [nl_next_lun_avail_time (default init_lun (sd_lun s !! (i, j)))].

Definition ssd_next_idle_time : io_prog Z :=
  latest ← get_clock;
  st ← get;
  mret (foldl Z.max latest (lun_times (fst st))).
