(* ===== verification/SsdProps.v ===== *)
(** * Geometry and safety of the flash back end (proofs about Ssd)

    The parameters [ssd_init_params] computes describe one consistent geometry of
    at least the capacity asked for.  NAND commands never fail and change times
    only, whatever the clock reads. *)
From S2P Require Import Prelude ChannelModel Ssd.

(** ** Geometry *)

Record geometry (sp : ssdparams) : Prop := {
  ge_nchs : 0 < nchs sp;
  ge_luns : 0 < luns_per_ch sp;
  ge_pls : 0 < pls_per_lun sp;
  ge_blks : 0 < blks_per_pl sp;
  ge_oneshot : 0 < pgs_per_oneshotpg sp;
  ge_flash : 0 < pgs_per_flashpg sp;
  ge_pgs : 0 < pgs_per_blk sp;
  ge_pgsz : pgsz sp = 4096 /\ secs_per_pg sp = 8;
  ge_blk_oneshot : pgs_per_blk sp = pgs_per_oneshotpg sp * oneshotpgs_per_blk sp;
  ge_blk_flash : pgs_per_blk sp = flashpgs_per_blk sp * pgs_per_flashpg sp;
  ge_pl : pgs_per_pl sp = pgs_per_blk sp * blks_per_pl sp;
  ge_lun : pgs_per_lun sp = pgs_per_pl sp * pls_per_lun sp;
  ge_ch : pgs_per_ch sp = pgs_per_lun sp * luns_per_ch sp;
  ge_tt : tt_pgs sp = pgs_per_ch sp * nchs sp;
  ge_lines : tt_lines sp = blks_per_pl sp * pls_per_lun sp;
  ge_line : pgs_per_line sp = nchs sp * luns_per_ch sp * pgs_per_blk sp;
  ge_tt_lines : tt_pgs sp = tt_lines sp * pgs_per_line sp
}.

(** The configurations of ssd_config.h, by what they have in common. *)
Definition config_ok (cf : ssd_config) : bool :=
  (0 <? SSD_PARTITIONS cf) && (0 <? NAND_CHANNELS cf) && (NAND_CHANNELS cf <=? 256)
  && (0 <? LUNS_PER_NAND_CH cf) && (LUNS_PER_NAND_CH cf <=? 256) && (PLNS_PER_LUN cf =? 1)
  && (0 <=? BLKS_PER_PLN cf) && (BLKS_PER_PLN cf <=? 65536) && (0 <=? BLK_SIZE cf)
  && (BLK_SIZE cf <? 2 ^ 32).

Lemma as_int_Some x y : as_int x = Some y -> y = x /\ - 2 ^ 31 <= x < 2 ^ 31.
Proof. unfold as_int. case_match eqn:E; [|done]. intros. simplify_eq. bool_to_prop. lia. Qed.

Lemma div_round_up_le n d : 0 < d -> n <= DIV_ROUND_UP n d * d.
Proof. unfold DIV_ROUND_UP. intros. Z.to_euclidean_division_equations. nia. Qed.

Lemma div_round_up_pos n d : 0 < d -> 0 < n -> 0 < DIV_ROUND_UP n d.
Proof. intros. pose proof (div_round_up_le n d). nia. Qed.

(** Exact products of the page counts. *)
Lemma page_products ppb blks luns chs :
  0 < ppb < 2 ^ 31 -> 0 < blks -> ppb * blks < 2 ^ 31 -> 0 < luns <= 256 -> 0 < chs <= 256 ->
  u64 (ppb * blks * 1) = ppb * blks /\
  u64 (ppb * blks * luns) = ppb * blks * luns /\
  u64 (ppb * blks * luns * chs) = ppb * blks * luns * chs /\
  u64 (luns * chs * ppb) = chs * luns * ppb.
Proof.
  intros Hp Hb Hpb Hl Hc. assert (H1 : 0 < ppb * blks) by nia.
  set (a := ppb * blks) in *. clearbody a.
  assert (H2 : 0 < a * luns <= a * 256) by nia.
  assert (H3 : 0 < a * luns * chs <= a * luns * 256) by nia.
  assert (H4 : 0 < luns * chs <= 256 * 256) by nia.
  assert (H5 : 0 < luns * chs * ppb <= 256 * 256 * ppb) by nia.
  rewrite Z.mul_1_r, !wrap_small by (unfold in_word; lia). split_and!; lia.
Qed.

Lemma guard_Some {A} (P : Prop) `{Decision P} (mx : option A) y :
  (guard P;; mx) = Some y -> P /\ mx = Some y.
Proof. case_guard; [done|]. discriminate. Qed.

Ltac peel_option H :=
  cbv zeta in H; repeat match type of H with
  | (guard _ ;; _) = Some _ => apply guard_Some in H as [? H]
  | mbind _ _ = Some _ => apply bind_Some in H as (? & ? & H)
  end.

Lemma block_layout_spec cf chs capacity blks blk_size :
  0 < capacity < 2 ^ 63 -> 0 < chs <= 256 -> 0 < LUNS_PER_NAND_CH cf <= 256 -> PLNS_PER_LUN cf = 1 ->
  0 <= BLKS_PER_PLN cf -> BLK_SIZE cf < 2 ^ 32 ->
  block_layout cf chs capacity = Some (blks, blk_size) ->
  0 < blks /\ 0 < blk_size /\ capacity <= blk_size * (blks * LUNS_PER_NAND_CH cf * chs).
Proof.
  intros Hc Hchs Hl Hp Hb Hbs. unfold block_layout. rewrite Hp.
  destruct (Z.ltb_spec 0 (BLKS_PER_PLN cf)); intros E; peel_option E; simplify_eq.
  - apply as_int_Some in H0 as [-> ?].
    pose proof (div_round_up_le capacity (BLKS_PER_PLN cf * 1 * LUNS_PER_NAND_CH cf * chs) ltac:(lia)).
    pose proof (div_round_up_pos capacity (BLKS_PER_PLN cf * 1 * LUNS_PER_NAND_CH cf * chs)
      ltac:(lia) ltac:(lia)).
    split; [lia|]. split; [lia|]. lia.
  - apply as_int_Some in H2 as [-> ?].
    assert (Hlc : 0 < LUNS_PER_NAND_CH cf * chs <= 65536) by nia.
    assert (Hu : 0 < BLK_SIZE cf * (1 * LUNS_PER_NAND_CH cf * chs) < 2 ^ 64) by nia.
    rewrite wrap_small in * by (unfold in_word; lia).
    pose proof (div_round_up_le capacity (BLK_SIZE cf * (1 * LUNS_PER_NAND_CH cf * chs)) ltac:(nia)).
    pose proof (div_round_up_pos capacity (BLK_SIZE cf * (1 * LUNS_PER_NAND_CH cf * chs))
      ltac:(nia) ltac:(lia)).
    split; [lia|]. split; [lia|]. lia.
Qed.

Lemma page_tiling flash oneshot :
  0 < flash -> 0 < oneshot -> oneshot mod 4096 = 0 -> flash mod 4096 = 0 -> oneshot mod flash = 0 ->
  0 < oneshot / 4096 /\ 0 < flash / 4096 /\ oneshot / 4096 = oneshot / flash * (flash / 4096) /\
  oneshot = 4096 * (oneshot / 4096).
Proof.
  intros Hf Ho [o Eo]%Z.mod_divide [f Ef]%Z.mod_divide [r Er]%Z.mod_divide; [|lia..].
  rewrite Er at 3. rewrite Z.div_mul by lia. rewrite Eo at 1 2 3 4. rewrite Ef at 1 2.
  rewrite !Z.div_mul by lia. split; [lia|]. split; [lia|]. split; [nia|lia].
Qed.

(** The products the layout asks for. *)
Lemma init_params_geometry cf capacity spp :
  config_ok cf = true -> SSD_PARTITIONS cf <= capacity < 2 ^ 63 ->
  ssd_init_params cf capacity (SSD_PARTITIONS cf) = Some spp ->
  geometry spp /\ capacity / SSD_PARTITIONS cf <= tt_pgs spp * pgsz spp /\
  SSD_PARTITIONS cf * nchs spp = NAND_CHANNELS cf /\
  luns_per_ch spp = LUNS_PER_NAND_CH cf /\ pls_per_lun spp = PLNS_PER_LUN cf.
Proof.
  intros Hok Hcap Hinit. unfold config_ok in Hok. bool_to_prop. unfold ssd_init_params in Hinit.
  apply guard_Some in Hinit as [[_ Hmod] Hinit].
  set (chs := NAND_CHANNELS cf / SSD_PARTITIONS cf) in *.
  assert (Hchs : SSD_PARTITIONS cf * chs = NAND_CHANNELS cf).
  { subst chs. pose proof (Z.div_mod (NAND_CHANNELS cf) (SSD_PARTITIONS cf)). lia. }
  assert (0 < chs <= 256) by nia.
  assert (Hcp : 0 < capacity / SSD_PARTITIONS cf < 2 ^ 63).
  { split; [apply Z.div_str_pos; lia|]. apply Z.div_lt_upper_bound; nia. }
  apply bind_Some in Hinit as ([blks blk_size] & Hlay & Hinit).
  apply block_layout_spec in Hlay as (Hblks & Hbs & Hcov); [|done|lia..].
  peel_option Hinit. simplify_eq.
  repeat match goal with H : as_int _ = Some _ |- _ => apply as_int_Some in H as [-> ?] end.
  change (LBA_SIZE * (4096 / LBA_SIZE)) with 4096 in *.
  match goal with H : _ mod 4096 = 0 /\ _ |- _ => destruct H as [Ho Hfl] end.
  match goal with H : 0 < FLASH_PAGE_SIZE cf /\ _ |- _ => destruct H as (Hf0 & Ho0 & Hof) end.
  pose proof (page_tiling _ _ Hf0 Ho0 Ho Hfl Hof) as (Hppo & Hppf & Etile & Eo).
  pose proof (div_round_up_pos blk_size (ONESHOT_PAGE_SIZE cf) Ho0 Hbs) as Hnos.
  pose proof (div_round_up_le blk_size (ONESHOT_PAGE_SIZE cf) Ho0) as Hle.
  set (nos := DIV_ROUND_UP blk_size (ONESHOT_PAGE_SIZE cf)) in *.
  set (ppo := ONESHOT_PAGE_SIZE cf / 4096) in *. set (ppf := FLASH_PAGE_SIZE cf / 4096) in *.
  set (r := ONESHOT_PAGE_SIZE cf / FLASH_PAGE_SIZE cf) in *. clearbody nos ppo ppf r.
  assert (Hppb : 0 < ppo * nos) by nia.
  assert (Hp1 : PLNS_PER_LUN cf = 1) by done.
  destruct (page_products (ppo * nos) blks (LUNS_PER_NAND_CH cf) chs) as (E1 & E2 & E3 & E4); [lia..|].
  rewrite Hp1 in *. split; [|split].
  - split; simpl; rewrite ?E1, ?E2, ?E3, ?E4; try done; nia.
  - simpl. rewrite E1, E2, E3. etrans; [exact Hcov|].
    replace (ppo * nos * blks * LUNS_PER_NAND_CH cf * chs * 4096)
      with (4096 * ppo * nos * (blks * LUNS_PER_NAND_CH cf * chs)) by ring.
    apply Z.mul_le_mono_nonneg_r; [nia|]. rewrite <- Eo. lia.
  - simpl. done.
Qed.


Lemma shipped_configs : forallb config_ok [SAMSUNG_970PRO; ZNS_PROTOTYPE; WD_ZN540] = true.
Proof. by vm_compute. Qed.


(** ** A channel never fails *)

#[local] Opaque NR_CREDIT_ENTRIES.

Record chan_ok (ch : channel_model) : Prop := {
  ck_head : 0 <= ch_head ch < NR_CREDIT_ENTRIES;
  ck_valid : 0 <= ch_valid_len ch <= NR_CREDIT_ENTRIES;
  ck_max : ch_max_credits ch <> 0
}.

Lemma chan_ok_credits ch m : chan_ok ch -> chan_ok (set_credits m ch).
Proof. by intros [H1 H2 H3]; split. Qed.

Lemma wp_advance_safe cur_time ch :
  chan_ok ch -> wp never (chmodel_advance cur_time) (fun _ => chan_ok) ch.
Proof.
  intros [Hh Hv Hm]. pose proof nr_credits as HN. unfold chmodel_advance. apply wp_bind, wp_get.
  set (d := u32 (_ - _)). set (offs := if d <? _ then _ else _).
  assert (0 <= d) by (apply wrap_in_word; lia).
  assert (Ho : 0 <= offs <= ch_valid_len ch).
  { unfold offs. destruct (Z.ltb_spec d (ch_valid_len ch)); lia. }
  clearbody offs. rewrite !(wrap_small 32 (ch_head ch + offs)) by (unfold in_word; lia).
  assert (Hfin : forall m, wp never (ch0 ← get;
      put (Chan cur_time (u32 (ch_head ch0 + offs) mod NR_CREDIT_ENTRIES)
        (u32 (ch_valid_len ch0 - offs)) (ch_max_credits ch0) (ch_command_credits ch0)
        (ch_xfer_lat ch0) (ch_avail_credits ch0))) (fun _ => chan_ok) (set_credits m ch)).
  { intros m. apply wp_bind, wp_get, wp_put. split; simpl; [apply Z.mod_pos_bound; lia| |done].
    rewrite wrap_small by (unfold in_word; lia). lia. }
  apply wp_bind. destruct (Z.leb_spec NR_CREDIT_ENTRIES (ch_head ch + offs)).
  - rewrite !(wrap_small 32) by (unfold in_word; rewrite ?wrap_small; unfold in_word; lia).
    apply wp_bind, wp_reset_credits; [lia..|]. intros m1 _.
    apply wp_reset_credits; [lia..|]. intros m2 _. apply Hfin.
  - apply wp_reset_credits; [lia..|]. intros m1 _. apply Hfin.
Qed.

Lemma wp_credit_loop_safe fuel k need delay ch :
  chan_ok ch -> 0 <= k < NR_CREDIT_ENTRIES -> (Z.to_nat (NR_CREDIT_ENTRIES - k) < fuel)%nat ->
  wp never (credit_loop fuel (slot (ch_head ch) k) need delay) (fun r ch' =>
    exists m k' delay', ch' = set_credits m ch /\ 0 <= k' < NR_CREDIT_ENTRIES /\
      r = (slot (ch_head ch) k', delay')) ch.
Proof.
  revert k need delay ch. induction fuel as [|fuel IH]; intros k need delay ch Hok Hk Hf; [lia|].
  cbn [credit_loop]. apply wp_bind, wp_read_credit; [apply slot_range|]. cbv zeta beta.
  set (n := if need <=? _ then _ else _). clearbody n.
  apply wp_bind, wp_write_credit; [apply slot_range|]. set (ch1 := set_credits _ ch).
  assert (Hstop : exists m k' delay', ch1 = set_credits m ch /\ 0 <= k' < NR_CREDIT_ENTRIES /\
      (slot (ch_head ch) k, delay) = (slot (ch_head ch) k', delay')) by (by eexists _, k, _).
  destruct (Z.eqb_spec (need - n) 0); cbn [negb]; [by apply wp_ret|].
  apply wp_bind, wp_get. change (ch_head ch1) with (ch_head ch).
  destruct Hok as [Hh Hv Hm]. pose proof (next_slot_spec (ch_head ch) k Hh Hk) as Enext.
  rewrite Enext. destruct (Z.ltb_spec (k + 1) NR_CREDIT_ENTRIES); cycle 1.
  { rewrite Z.eqb_refl. cbn [negb]. by apply wp_ret. }
  destruct (Z.eqb_spec (slot (ch_head ch) (k + 1)) (ch_head ch)); cbn [negb]; [by apply wp_ret|].
  eapply wp_mono; [apply (IH (k + 1) (need - n) (delay + 1) ch1); [by apply chan_ok_credits|lia..]|].
  intros r ch' (m & k' & delay' & -> & Hk' & ->). by exists m, k', delay'.
Qed.

Lemma wp_chmodel_request_safe cur_time request_time length ch :
  chan_ok ch -> wp never (chmodel_request cur_time request_time length) (fun _ => chan_ok) ch.
Proof.
  intros Hok. unfold chmodel_request. apply wp_bind. eapply wp_mono; [by apply wp_advance_safe|].
  intros [] ch1 Hok1. pose proof Hok1 as [Hh Hv Hm]. pose proof nr_credits as HN.
  apply wp_bind, wp_get. replace (NR_CREDIT_ENTRIES <? ch_valid_len ch1) with false by lia.
  destruct (request_time <? cur_time); [by apply wp_ret|].
  set (k := u32 (_ - _)). assert (0 <= k) by (apply wrap_in_word; lia).
  destruct (Z.leb_spec NR_CREDIT_ENTRIES k); [by apply wp_ret|]. unfold chmodel_take.
  apply wp_bind, wp_get. rewrite (wrap_small 32 (ch_head ch1 + k)) by (unfold in_word; lia).
  replace (ch_max_credits ch1 =? 0) with false by lia.
  fold (slot (ch_head ch1) k). apply wp_bind.
  eapply wp_mono; [apply wp_credit_loop_safe; [done|lia|lia]|].
  intros r ch2 (m & k' & delay' & -> & Hk' & ->). apply wp_bind, wp_get.
  apply wp_bind, wp_put, wp_ret. split; simpl; [done| |done].
  pose proof (slot_range (ch_head ch1) k').
  repeat match goal with
  | |- context [?a <=? ?b] => destruct (Z.leb_spec a b)
  | |- context [?a <? ?b] => destruct (Z.ltb_spec a b)
  end; lia.
Qed.

(** ** NAND commands change times only *)

Record ssd_ok (d : ssd) : Prop := {
  so_geometry : geometry (sp d);
  so_cells : cell_mode (sp d) <> 0;
  so_xfer : 0 < max_ch_xfer_size (sp d);
  so_channels i : 0 <= i < nchs (sp d) -> exists ch, sd_ch d !! i = Some ch /\ chan_ok ch
}.

(** The flash arrays of two states agree. *)
Definition same_flash (d d' : ssd) : Prop :=
  sp d' = sp d /\ sd_pg d' = sd_pg d /\ sd_blk d' = sd_blk d.

(** What a NAND command may change. *)
Definition times_only (d : ssd) (s : shared) (st : ssd * shared) : Prop :=
  exists d' s', st = (d', s') /\ same_flash d d' /\ ssd_ok d' /\ chan_ok (sh_pcie s') /\
    sh_wbuf s' = sh_wbuf s /\ sh_releases s' = sh_releases s.

Lemma times_only_trans d s d' s' st :
  times_only d s (d', s') -> times_only d' s' st -> times_only d s st.
Proof.
  intros (? & ? & [= <- <-] & (E1 & E2 & E3) & _ & _ & Eb & Er)
    (d2 & s2 & -> & (F1 & F2 & F3) & Hok & Hp & Fb & Fr).
  exists d2, s2. unfold same_flash. split_and!; try done; congruence.
Qed.

Section advance.
Context (d : ssd) (s : shared) (Hok : ssd_ok d) (Hpcie : chan_ok (sh_pcie s)).

Lemma times_only_refl : times_only d s (d, s).
Proof. by exists d, s. Qed.

Lemma wp_get_clock (Q : Z -> ssd * shared -> Prop) :
  (forall t s', times_only d s (d, s') -> Q t (d, s')) -> wp never get_clock Q (d, s).
Proof. intros HQ. unfold wp, get_clock. apply HQ. eexists _, _. by split_and!. Qed.

Lemma put_lun_ok p l : ssd_ok (put_lun p l d).
Proof. by destruct Hok; split. Qed.

Lemma put_ch_ok i ch : chan_ok ch -> ssd_ok (put_ch i ch d).
Proof.
  intros Hc. destruct Hok as [H1 H2 H3 H4]. split; try done. intros j Hj. simpl.
  destruct (decide (i = j)) as [->|].
  - exists ch. by rewrite lookup_insert_eq.
  - rewrite lookup_insert_ne by done. by apply H4.
Qed.
End advance.

Lemma wp_on_channel {A} p (m : prog channel_model A) d s (Q : A -> ssd * shared -> Prop) :
  ssd_ok d -> 0 <= p_ch p < nchs (sp d) ->
  (forall ch, chan_ok ch -> wp never m (fun _ => chan_ok) ch) ->
  (forall a ch, chan_ok ch -> Q a (put_ch (p_ch p) ch d, s)) ->
  wp never (on_channel p m) Q (d, s).
Proof.
  intros Hok Hp Hm HQ. destruct (so_channels _ Hok _ Hp) as (ch & E & Hc).
  unfold wp, on_channel. rewrite E. specialize (Hm ch Hc). unfold wp, never in Hm.
  destruct (m ch); [by apply HQ|done..].
Qed.

Lemma wp_ch_request p t len d s (Q : Z -> ssd * shared -> Prop) :
  ssd_ok d -> chan_ok (sh_pcie s) -> 0 <= p_ch p < nchs (sp d) ->
  (forall r d' s', times_only d s (d', s') -> Q r (d', s')) ->
  wp never (ch_request p t len) Q (d, s).
Proof.
  intros Hok Hpc Hp HQ. unfold ch_request. apply wp_bind, wp_get_clock; [done..|]. intros r s' Ht.
  apply wp_on_channel; [done..| |].
  - intros ch Hch. by apply wp_chmodel_request_safe.
  - intros a ch Hch. apply HQ. eapply times_only_trans; [exact Ht|].
    destruct Ht as (? & ? & [= <- <-] & _ & _ & Hp' & _). eexists _, _. split; [done|].
    split; [done|]. split; [by apply put_ch_ok|done].
Qed.

Lemma wp_ssd_advance_pcie t len d s (Q : Z -> ssd * shared -> Prop) :
  ssd_ok d -> chan_ok (sh_pcie s) ->
  (forall r d' s', times_only d s (d', s') -> Q r (d', s')) ->
  wp never (ssd_advance_pcie t len) Q (d, s).
Proof.
  intros Hok Hpc HQ. unfold ssd_advance_pcie. apply wp_bind, wp_get_clock; [done..|]. intros r s' Ht.
  pose proof Ht as (? & ? & [= <- <-] & _ & _ & Hp' & _).
  apply wp_zoom. simpl. apply (wp_exit_mono never); [|by intros ? []].
  eapply wp_mono; [by apply wp_chmodel_request_safe|]. intros a ch Hch. simpl. apply HQ.
  eapply times_only_trans; [exact Ht|]. eexists _, _. by split_and!.
Qed.

Lemma wp_read_xfer_loop fuel ncmd remaining stime completed d s (Q : Z * Z -> ssd * shared -> Prop) :
  ssd_ok d -> chan_ok (sh_pcie s) -> 0 <= p_ch (nc_ppa ncmd) < nchs (sp d) ->
  0 <= remaining -> (Z.to_nat remaining < fuel)%nat ->
  (forall r d' s', times_only d s (d', s') -> Q r (d', s')) ->
  wp never (read_xfer_loop fuel ncmd remaining stime completed) Q (d, s).
Proof.
  revert remaining stime completed d s.
  induction fuel as [|fuel IH]; intros remaining stime completed d s Hok Hpc Hp Hr Hf HQ; [lia|].
  cbn [read_xfer_loop]. destruct (Z.eqb_spec remaining 0).
  { apply wp_ret, HQ. by apply times_only_refl. }
  pose proof (so_xfer _ Hok) as Hx.
  apply wp_bind, wp_get. cbn [fst]. apply wp_bind, wp_ch_request; [done..|]. intros r d1 s1 H1.
  pose proof H1 as (? & ? & [= <- <-] & (Esp & _) & Hok1 & Hpc1 & _).
  assert (Hnext : forall c d2 s2, times_only d1 s1 (d2, s2) ->
    wp never (read_xfer_loop fuel ncmd (remaining - Z.min remaining (max_ch_xfer_size (sp d))) r c)
      Q (d2, s2)).
  { intros c d2 s2 H2. pose proof H2 as (? & ? & [= <- <-] & (Esp2 & _) & Hok2 & Hpc2 & _).
    apply IH; try done; [by rewrite Esp2, Esp|lia|lia|].
    intros r' d3 s3 H3. apply HQ. do 2 (eapply times_only_trans; [eassumption|]). done. }
  apply wp_bind. destruct (nc_interleave_pci_dma ncmd).
  - apply wp_ssd_advance_pcie; [done..|]. intros c d2 s2 H2. by apply Hnext.
  - apply wp_ret, Hnext. by apply times_only_refl.
Qed.

Lemma in_geometry_ch spp p : in_geometry spp p = true -> 0 <= p_ch p < nchs spp.
Proof. unfold in_geometry. intros. bool_to_prop. lia. Qed.

Lemma wp_set_avail_time p t d s d0 s0 (Q : unit -> ssd * shared -> Prop) :
  times_only d0 s0 (d, s) -> (forall d' s', times_only d0 s0 (d', s') -> Q tt (d', s')) ->
  wp never (set_avail_time p t) Q (d, s).
Proof.
  intros Ht HQ. unfold set_avail_time. apply wp_modify. cbn. apply HQ.
  eapply times_only_trans; [exact Ht|].
  destruct Ht as (? & ? & [= <- <-] & _ & Hok & Hpc & _). eexists _, _. split; [done|].
  split; [done|]. split; [by apply put_lun_ok|done].
Qed.

Lemma wp_nand_step ncmd stime d s (Q : Z -> ssd * shared -> Prop) :
  ssd_ok d -> chan_ok (sh_pcie s) -> in_geometry (sp d) (nc_ppa ncmd) = true ->
  (nc_cmd ncmd = NAND_READ -> 0 < nc_xfer_size ncmd) ->
  (forall r d' s', times_only d s (d', s') -> Q r (d', s')) ->
  wp never (nand_step ncmd stime) Q (d, s).
Proof.
  intros Hok Hpc Hin Hsz HQ. unfold nand_step. apply wp_bind, wp_get. cbv zeta. cbn [fst].
  pose proof (in_geometry_ch _ _ Hin) as Hch. pose proof Hok as [Hg Hc _ _]. rewrite Hin.
  replace (cell_mode (sp d) =? 0) with false by lia.
  replace (pgs_per_flashpg (sp d) =? 0) with false by (destruct Hg; lia). cbn [negb orb].
  assert (Hset : forall t d2 s2 a, times_only d s (d2, s2) ->
    wp never (_ ← set_avail_time (nc_ppa ncmd) t; mret a) Q (d2, s2)).
  { intros t d2 s2 a H2. apply wp_bind. eapply wp_set_avail_time; [exact H2|]. intros.
    by apply wp_ret, HQ. }
  pose proof (times_only_refl d s Hok Hpc) as Hrefl.
  destruct (nc_cmd ncmd) eqn:Ecmd; [| |by apply Hset..].
  - specialize (Hsz eq_refl). replace (nc_xfer_size ncmd =? 0) with false by lia.
    apply wp_bind, wp_read_xfer_loop; [done..|lia|lia|]. intros [t c] d2 s2 H2. by apply Hset.
  - apply wp_bind, wp_ch_request; [done..|]. intros t d2 s2 H2. by apply Hset.
Qed.

(** A NAND command on a page of the device always ends and changes times only. *)
Lemma wp_ssd_advance_nand ncmd d s (Q : Z -> ssd * shared -> Prop) :
  ssd_ok d -> chan_ok (sh_pcie s) -> in_geometry (sp d) (nc_ppa ncmd) = true ->
  (nc_cmd ncmd = NAND_READ -> 0 < nc_xfer_size ncmd) ->
  (forall r d' s', times_only d s (d', s') -> Q r (d', s')) ->
  wp never (ssd_advance_nand ncmd) Q (d, s).
Proof.
  intros Hok Hpc Hin Hsz HQ. unfold ssd_advance_nand. apply wp_bind.
  destruct (nc_stime ncmd =? 0).
  - apply wp_get_clock; [done..|]. intros t s1 H1.
    pose proof H1 as (? & ? & [= <- <-] & _ & _ & Hpc1 & _).
    apply wp_nand_step; try done. intros r d2 s2 H2. apply HQ. by eapply times_only_trans.
  - by apply wp_ret, wp_nand_step.
Qed.

(** ** Initialisation *)

Lemma chmodel_init_ok bw ch0 ch : 0 < u32 (BANDWIDTH_TO_MAX_CREDITS bw) ->
  chmodel_init bw ch0 = Done tt ch -> chan_ok ch.
Proof.
  intros Hbw. unfold chmodel_init. case_match; [done|]. unfold put. intros [= <-].
  pose proof nr_credits. split; simpl; lia.
Qed.

Lemma ssd_init_pcie_safe spp pcie :
  0 < u32 (BANDWIDTH_TO_MAX_CREDITS (pcie_bandwidth spp)) -> ssd_init_pcie spp = Some pcie -> chan_ok pcie.
Proof.
  intros Hbw. unfold ssd_init_pcie. intros Hi. destruct (chmodel_init _ _) as [[] ch| |] eqn:E; try done.
  simplify_eq. by eapply chmodel_init_ok.
Qed.

(** A device of a sound geometry with credits on its channels starts sound and empty. *)
Lemma ssd_init_safe spp d :
  geometry spp -> 0 < cell_mode spp -> 0 < max_ch_xfer_size spp ->
  0 < u32 (BANDWIDTH_TO_MAX_CREDITS (ch_bandwidth spp)) -> ssd_init spp = Some d ->
  sp d = spp /\ ssd_ok d /\ sd_pg d = ∅ /\ sd_blk d = ∅.
Proof.
  intros G Hc Hx Hbw (ch & Hch & [= <-])%bind_Some. split; [done|]. split; [|done]. unfold ssd_init_ch in Hch.
  destruct (chmodel_init _ _) as [[] ch1| |] eqn:E; try done.
  assert (Hok : chan_ok ch) by (apply chmodel_init_ok in E as []; [|done]; simplify_eq; by split).
  split; simpl; try done; try lia.
  intros i Hi. exists ch. split; [|done]. apply elem_of_list_to_map_1.
  - rewrite <- list_fmap_compose. simpl. rewrite list_fmap_id. apply NoDup_seqZ.
  - apply list_elem_of_fmap. exists i. rewrite elem_of_seqZ. split; [done|lia].
Qed.
