(* ===== verification/ConvFtl.v ===== *)
(** * The page-mapping flash translation layer (lib/nvmevirt/conv_ftl.c)

    Logical pages are mapped to flash pages; writes go to the line (a block of every
    die) under the write pointer; when few free lines are left, garbage collection
    copies the valid pages of the line with fewest of them and erases it.  A line is
    named by its index.  Memory for the tables is taken to be there. *)
From S2P Require Import Prelude Pqueue ChannelModel Ssd.

(** ** State *)

Record convparams := ConvParams {
  gc_thres_lines : Z;
  gc_thres_lines_high : Z;
  enable_gc_delay : bool;
  pba_pcent : Z
}.

Record line := Line { ln_id : Z; ln_ipc : Z; ln_vpc : Z; ln_pos : Z }.

Record write_pointer := Wp {
  wp_curline : Z; wp_ch : Z; wp_lun : Z; wp_pg : Z; wp_blk : Z; wp_pl : Z
}.

Record line_mgmt := LineMgmt {
  lm_lines : list line;
  lm_free_line_list : list Z;
  lm_victim_line_pq : pqueue_t Z;
  lm_full_line_list : list Z;
  lm_tt_lines : Z;
  lm_free_line_cnt : Z;
  lm_victim_line_cnt : Z;
  lm_full_line_cnt : Z
}.

Record write_flow_control := Wfc { write_credits : Z; credits_to_refill : Z }.

(** An entry that is not in [cf_maptbl] is [UNMAPPED_PPA], one that is not in
    [cf_rmap] is [INVALID_LPN]; both tables have [tt_pgs] entries. *)
Record conv_ftl := ConvFtl {
  cf_ssd : ssd;
  cf_cp : convparams;
  cf_maptbl : gmap Z ppa;
  cf_rmap : gmap Z Z;
  cf_wp : write_pointer;
  cf_gc_wp : write_pointer;
  cf_lm : line_mgmt;
  cf_wfc : write_flow_control
}.

Inductive io_type := USER_IO | GC_IO.

Definition set_ssd (d : ssd) (f : conv_ftl) : conv_ftl :=
  ConvFtl d (cf_cp f) (cf_maptbl f) (cf_rmap f) (cf_wp f) (cf_gc_wp f) (cf_lm f) (cf_wfc f).
Definition set_maptbl (m : gmap Z ppa) (f : conv_ftl) : conv_ftl :=
  ConvFtl (cf_ssd f) (cf_cp f) m (cf_rmap f) (cf_wp f) (cf_gc_wp f) (cf_lm f) (cf_wfc f).
Definition set_rmap (m : gmap Z Z) (f : conv_ftl) : conv_ftl :=
  ConvFtl (cf_ssd f) (cf_cp f) (cf_maptbl f) m (cf_wp f) (cf_gc_wp f) (cf_lm f) (cf_wfc f).
Definition set_lm (l : line_mgmt) (f : conv_ftl) : conv_ftl :=
  ConvFtl (cf_ssd f) (cf_cp f) (cf_maptbl f) (cf_rmap f) (cf_wp f) (cf_gc_wp f) l (cf_wfc f).
Definition set_wfc (w : write_flow_control) (f : conv_ftl) : conv_ftl :=
  ConvFtl (cf_ssd f) (cf_cp f) (cf_maptbl f) (cf_rmap f) (cf_wp f) (cf_gc_wp f) (cf_lm f) w.

(** [__get_wp]. *)
Definition get_wp (t : io_type) (f : conv_ftl) : write_pointer :=
  match t with USER_IO => cf_wp f | GC_IO => cf_gc_wp f end.
Definition set_wp (t : io_type) (w : write_pointer) (f : conv_ftl) : conv_ftl :=
  match t with
  | USER_IO => ConvFtl (cf_ssd f) (cf_cp f) (cf_maptbl f) (cf_rmap f) w (cf_gc_wp f) (cf_lm f) (cf_wfc f)
  | GC_IO => ConvFtl (cf_ssd f) (cf_cp f) (cf_maptbl f) (cf_rmap f) (cf_wp f) w (cf_lm f) (cf_wfc f)
  end.

Abbreviation spp_of f := (sp (cf_ssd f)).

(** Code on one part and the shared state, on its lines, on its flash. *)
Abbreviation fprog := (prog (conv_ftl * shared)).

Definition getf : fprog conv_ftl := fun st => Done (fst st) st.
Definition modf (g : conv_ftl -> conv_ftl) : fprog unit := modify (fun st => (g (fst st), snd st)).
Definition on_lm {A} (m : prog line_mgmt A) : fprog A :=
  zoom (fun st => cf_lm (fst st)) (fun l st => (set_lm l (fst st), snd st)) m.
Definition on_ssd {A} (m : io_prog A) : fprog A :=
  zoom (fun st => (cf_ssd (fst st), snd st)) (fun p st => (set_ssd (fst p) (fst st), snd p)) m.

(** [NVMEV_ASSERT]. *)
Definition assert {St} (b : bool) : prog St unit := if b then mret tt else undefined.

(** ** Lines and the queue of victims *)

Definition read_line (lines : list line) (i : Z) : option line :=
  if 0 <=? i then lines !! Z.to_nat i else None.

(** The callbacks [victim_line_*]; a priority is compared as [unsigned long long]. *)
Definition victim_line_cmp_pri (next curr : Z) : bool := u64 curr <? u64 next.
Definition victim_line_get_pri (lines : list line) (i : Z) : option Z := ln_vpc <$> read_line lines i.
Definition victim_line_set_pri (i pri : Z) (lines : list line) : option (list line) :=
  l ← read_line lines i;
  Some (<[Z.to_nat i := Line (ln_id l) (ln_ipc l) pri (ln_pos l)]> lines).
Definition victim_line_get_pos (lines : list line) (i : Z) : option Z := ln_pos <$> read_line lines i.
Definition victim_line_set_pos (i pos : Z) (lines : list line) : option (list line) :=
  l ← read_line lines i;
  Some (<[Z.to_nat i := Line (ln_id l) (ln_ipc l) (ln_vpc l) pos]> lines).

#[export] Instance victim_callbacks : PqCallbacks (list line) Z := {|
  cmppri := victim_line_cmp_pri;
  getpri := victim_line_get_pri;
  setpri := victim_line_set_pri;
  getpos := victim_line_get_pos;
  setpos := victim_line_set_pos
|}.

Abbreviation lprog := (prog line_mgmt).

Definition on_pq {A} (m : prog (pqueue_t Z * list line) A) : lprog A :=
  zoom (fun l => (lm_victim_line_pq l, lm_lines l))
    (fun p l => LineMgmt (snd p) (lm_free_line_list l) (fst p) (lm_full_line_list l) (lm_tt_lines l)
                  (lm_free_line_cnt l) (lm_victim_line_cnt l) (lm_full_line_cnt l)) m.

Definition get_line (i : Z) : lprog line := fun lm =>
  match read_line (lm_lines lm) i with Some l => Done l lm | None => Undef end.

Definition put_line (i : Z) (l : line) : lprog unit :=
  modify (fun lm => LineMgmt (<[Z.to_nat i := l]> (lm_lines lm)) (lm_free_line_list lm)
    (lm_victim_line_pq lm) (lm_full_line_list lm) (lm_tt_lines lm) (lm_free_line_cnt lm)
    (lm_victim_line_cnt lm) (lm_full_line_cnt lm)).

Definition set_free_list (l : list Z) (cnt : Z) (lm : line_mgmt) : line_mgmt :=
  LineMgmt (lm_lines lm) l (lm_victim_line_pq lm) (lm_full_line_list lm) (lm_tt_lines lm) (u32 cnt)
    (lm_victim_line_cnt lm) (lm_full_line_cnt lm).
Definition set_full_list (l : list Z) (cnt : Z) (lm : line_mgmt) : line_mgmt :=
  LineMgmt (lm_lines lm) (lm_free_line_list lm) (lm_victim_line_pq lm) l (lm_tt_lines lm)
    (lm_free_line_cnt lm) (lm_victim_line_cnt lm) (u32 cnt).
Definition set_victim_cnt (cnt : Z) (lm : line_mgmt) : line_mgmt :=
  LineMgmt (lm_lines lm) (lm_free_line_list lm) (lm_victim_line_pq lm) (lm_full_line_list lm)
    (lm_tt_lines lm) (lm_free_line_cnt lm) (u32 cnt) (lm_full_line_cnt lm).

(** [pqueue_insert] into the queue of victims, with its counter. *)
Definition add_victim (i : Z) : lprog unit :=
  _ ← on_pq (pqueue_insert true i);
  modify (fun lm => set_victim_cnt (lm_victim_line_cnt lm + 1) lm).

(** [list_first_entry_or_null] and [list_del_init]. *)
Definition get_next_free_line : lprog (option Z) :=
  lm ← get;
  match lm_free_line_list lm with
  | [] => mret None
  | i :: rest => _ ← put (set_free_list rest (lm_free_line_cnt lm - 1) lm); mret (Some i)
  end.

(** ** Thresholds and tables *)

Definition should_gc (f : conv_ftl) : bool :=
  lm_free_line_cnt (cf_lm f) <=? gc_thres_lines (cf_cp f).
Definition should_gc_high (f : conv_ftl) : bool :=
  lm_free_line_cnt (cf_lm f) <=? gc_thres_lines_high (cf_cp f).

Definition get_maptbl_ent (lpn : Z) : fprog (option ppa) :=
  f ← getf;
  if (0 <=? lpn) && (lpn <? tt_pgs (spp_of f)) then mret (cf_maptbl f !! lpn) else undefined.

Definition set_maptbl_ent (lpn : Z) (p : ppa) : fprog unit :=
  f ← getf;
  if (0 <=? lpn) && (lpn <? tt_pgs (spp_of f)) then modf (set_maptbl (<[lpn := p]> (cf_maptbl f)))
  else undefined.

Definition pgidx (spp : ssdparams) (p : ppa) : Z :=
  u64 (p_ch p * pgs_per_ch spp + p_lun p * pgs_per_lun spp + p_pl p * pgs_per_pl spp
       + p_blk p * pgs_per_blk spp + p_pg p).

Definition ppa2pgidx (p : ppa) : fprog Z :=
  f ← getf;
  let i := pgidx (spp_of f) p in
  _ ← assert (i <? tt_pgs (spp_of f));
  mret i.

Definition get_rmap_ent (p : ppa) : fprog Z :=
  i ← ppa2pgidx p;
  f ← getf;
  mret (default INVALID_LPN (cf_rmap f !! i)).

Definition set_rmap_ent (lpn : Z) (p : ppa) : fprog unit :=
  i ← ppa2pgidx p;
  f ← getf;
  modf (set_rmap (<[i := lpn]> (cf_rmap f))).

(** ** Write pointers *)

Definition prepare_write_pointer (t : io_type) : fprog unit :=
  r ← on_lm get_next_free_line;
  match r with
  | None => undefined
  | Some i =>
    l ← on_lm (get_line i);
    modf (set_wp t (Wp i 0 0 0 (ln_id l) 0))
  end.

Definition check_addr {St} (a max : Z) : prog St unit := assert ((0 <=? a) && (a <? max)).

(** A line that is used up goes to the full lines or to the victims. *)
Definition retire_line (spp : ssdparams) (i : Z) : lprog unit :=
  l ← get_line i;
  if ln_vpc l =? pgs_per_line spp then
    _ ← assert (ln_ipc l =? 0);
    modify (fun lm => set_full_list (lm_full_line_list lm ++ [i]) (lm_full_line_cnt lm + 1) lm)
  else
    _ ← assert ((0 <=? ln_vpc l) && (ln_vpc l <? pgs_per_line spp));
    _ ← assert (0 <? ln_ipc l);
    add_victim i.

Definition advance_write_pointer (t : io_type) : fprog unit :=
  f ← getf;
  let spp := spp_of f in
  let w := get_wp t f in
  if pgs_per_oneshotpg spp =? 0 then undefined else
  _ ← check_addr (wp_pg w) (pgs_per_blk spp);
  let pg := u32 (wp_pg w + 1) in
  if negb (pg mod pgs_per_oneshotpg spp =? 0)
  then modf (set_wp t (Wp (wp_curline w) (wp_ch w) (wp_lun w) pg (wp_blk w) (wp_pl w))) else
  let pg := u32 (pg - pgs_per_oneshotpg spp) in
  _ ← check_addr (wp_ch w) (nchs spp);
  let ch := u32 (wp_ch w + 1) in
  if negb (ch =? nchs spp)
  then modf (set_wp t (Wp (wp_curline w) ch (wp_lun w) pg (wp_blk w) (wp_pl w))) else
  _ ← check_addr (wp_lun w) (luns_per_ch spp);
  let lun := u32 (wp_lun w + 1) in
  if negb (lun =? luns_per_ch spp)
  then modf (set_wp t (Wp (wp_curline w) 0 lun pg (wp_blk w) (wp_pl w))) else
  let pg := u32 (pg + pgs_per_oneshotpg spp) in
  if negb (pg =? pgs_per_blk spp)
  then modf (set_wp t (Wp (wp_curline w) 0 0 pg (wp_blk w) (wp_pl w))) else
  _ ← on_lm (retire_line spp (wp_curline w));
  _ ← check_addr (wp_blk w) (blks_per_pl spp);
  r ← on_lm get_next_free_line;
  match r with
  | None => undefined
  | Some i =>
    l ← on_lm (get_line i);
    _ ← check_addr (ln_id l) (blks_per_pl spp);
    _ ← assert (wp_pl w =? 0);
    modf (set_wp t (Wp i 0 0 0 (ln_id l) (wp_pl w)))
  end.

Definition get_new_page (t : io_type) : fprog ppa :=
  f ← getf;
  let w := get_wp t f in
  let p := make_ppa (wp_ch w) (wp_lun w) (wp_pl w) (wp_blk w) (wp_pg w) in
  _ ← assert (p_pl p =? 0);
  mret p.

Definition last_pg_in_wordline (spp : ssdparams) (p : ppa) : bool :=
  p_pg p mod pgs_per_oneshotpg spp =? pgs_per_oneshotpg spp - 1.

(** ** Page, block and line status *)

Definition put_flash (g : ssd -> ssd) : fprog unit := modf (fun f => set_ssd (g (cf_ssd f)) f).

Definition check_page (p : ppa) : fprog unit :=
  f ← getf;
  if in_geometry (spp_of f) p then mret tt else undefined.

(** The line part of [mark_page_invalid]. *)
Definition invalidate_in_line (spp : ssdparams) (i : Z) : lprog unit :=
  l ← get_line i;
  _ ← assert ((0 <=? ln_ipc l) && (ln_ipc l <? pgs_per_line spp));
  let was_full_line := ln_vpc l =? pgs_per_line spp in
  _ ← assert (negb was_full_line || (ln_ipc l =? 0));
  _ ← put_line i (Line (ln_id l) (ln_ipc l + 1) (ln_vpc l) (ln_pos l));
  _ ← assert ((0 <? ln_vpc l) && (ln_vpc l <=? pgs_per_line spp));
  _ ← (if negb (ln_pos l =? 0) then on_pq (pqueue_change_priority (ln_vpc l - 1) i)
       else put_line i (Line (ln_id l) (ln_ipc l + 1) (ln_vpc l - 1) (ln_pos l)));
  if was_full_line then
    _ ← modify (fun lm => set_free_list (filter (fun j => j <> i) (lm_free_line_list lm))
                            (lm_free_line_cnt lm) lm);
    _ ← modify (fun lm => set_full_list (filter (fun j => j <> i) (lm_full_line_list lm))
                            (lm_full_line_cnt lm - 1) lm);
    add_victim i
  else mret tt.

Definition mark_page_invalid (p : ppa) : fprog unit :=
  f ← getf;
  let spp := spp_of f in
  _ ← check_page p;
  _ ← assert (get_pg (cf_ssd f) p =? PG_VALID);
  _ ← put_flash (put_pg p PG_INVALID);
  let blk := get_blk (cf_ssd f) p in
  _ ← assert ((0 <=? nb_ipc blk) && (nb_ipc blk <? pgs_per_blk spp));
  _ ← assert ((0 <? nb_vpc blk) && (nb_vpc blk <=? pgs_per_blk spp));
  _ ← put_flash (put_blk p (NandBlock (nb_ipc blk + 1) (nb_vpc blk - 1) (nb_erase_cnt blk)));
  on_lm (invalidate_in_line spp (p_blk p)).

Definition mark_page_valid (p : ppa) : fprog unit :=
  f ← getf;
  let spp := spp_of f in
  _ ← check_page p;
  _ ← assert (get_pg (cf_ssd f) p =? PG_FREE);
  _ ← put_flash (put_pg p PG_VALID);
  let blk := get_blk (cf_ssd f) p in
  _ ← assert ((0 <=? nb_vpc blk) && (nb_vpc blk <? pgs_per_blk spp));
  _ ← put_flash (put_blk p (NandBlock (nb_ipc blk) (nb_vpc blk + 1) (nb_erase_cnt blk)));
  on_lm (l ← get_line (p_blk p);
         _ ← assert ((0 <=? ln_vpc l) && (ln_vpc l <? pgs_per_line spp));
         put_line (p_blk p) (Line (ln_id l) (ln_ipc l) (ln_vpc l + 1) (ln_pos l))).

(** A signed 32-bit value. *)
Definition i32 (x : Z) : Z := u32 (x + 2 ^ 31) - 2 ^ 31.

(** All pages of the block of [p] become free. *)
Definition mark_block_free (p : ppa) : fprog unit :=
  f ← getf;
  _ ← check_page p;
  _ ← put_flash (fun d => Ssd (sp d) (filter (fun kv => blk_of kv.1 <> blk_of p) (sd_pg d))
                            (sd_blk d) (sd_lun d) (sd_ch d));
  let blk := get_blk (cf_ssd f) p in
  put_flash (put_blk p (NandBlock 0 0 (i32 (nb_erase_cnt blk + 1)))).

Definition mark_line_free (p : ppa) : fprog unit :=
  on_lm (l ← get_line (p_blk p);
         _ ← put_line (p_blk p) (Line (ln_id l) 0 0 (ln_pos l));
         modify (fun lm => set_free_list (lm_free_line_list lm ++ [p_blk p])
                             (lm_free_line_cnt lm + 1) lm)).

(** ** Garbage collection *)

Definition valid_lpn (spp : ssdparams) (lpn : Z) : bool := lpn <? tt_pgs spp.

Definition gc_write_page (old_ppa : ppa) : fprog unit :=
  f ← getf;
  let spp := spp_of f in
  lpn ← get_rmap_ent old_ppa;
  _ ← assert (valid_lpn spp lpn);
  new_ppa ← get_new_page GC_IO;
  _ ← set_maptbl_ent lpn new_ppa;
  _ ← set_rmap_ent lpn new_ppa;
  _ ← mark_page_valid new_ppa;
  _ ← advance_write_pointer GC_IO;
  if enable_gc_delay (cf_cp f) then
    let gcw := if last_pg_in_wordline spp new_ppa
               then NandCmd NAND_WRITE (pgsz spp * pgs_per_oneshotpg spp) 0 false new_ppa
               else NandCmd NAND_NOP 0 0 false new_ppa in
    _ ← on_ssd (ssd_advance_nand gcw);
    mret tt
  else mret tt.

Definition select_victim_line (force : bool) : fprog (option Z) :=
  f ← getf;
  r ← on_lm (on_pq (pqueue_peek true));
  match r with
  | None => mret None
  | Some i =>
    l ← on_lm (get_line i);
    if negb force && (pgs_per_line (spp_of f) / 8 <? ln_vpc l) then mret None else
    _ ← on_lm (on_pq (pqueue_pop true));
    l ← on_lm (get_line i);
    _ ← on_lm (put_line i (Line (ln_id l) (ln_ipc l) (ln_vpc l) 0));
    _ ← on_lm (modify (fun lm => set_victim_cnt (lm_victim_line_cnt lm - 1) lm));
    mret (Some i)
  end.

(** The pages of a flash page, from [p] on. *)
Definition flash_pages (spp : ssdparams) (p : ppa) : list ppa :=
  (fun i => set_pg (p_pg p + i) p) <$> seqZ 0 (pgs_per_flashpg spp).

(** The first loop of [clean_one_flashpg]: count the valid pages. *)
Fixpoint count_valid (ps : list ppa) (cnt : Z) : fprog Z :=
  match ps with
  | [] => mret cnt
  | p :: ps' =>
    _ ← check_page p;
    f ← getf;
    let status := get_pg (cf_ssd f) p in
    _ ← assert (negb (status =? PG_FREE));
    count_valid ps' (if status =? PG_VALID then cnt + 1 else cnt)
  end.

(** Its second loop: copy them. *)
Definition copy_page (p : ppa) : fprog unit :=
  _ ← check_page p;
  f ← getf;
  if get_pg (cf_ssd f) p =? PG_VALID then gc_write_page p else mret tt.

Definition clean_one_flashpg (p : ppa) : fprog unit :=
  f ← getf;
  let spp := spp_of f in
  cnt ← count_valid (flash_pages spp p) 0;
  if cnt <=? 0 then mret tt else
  _ ← (if enable_gc_delay (cf_cp f) then
         _ ← on_ssd (ssd_advance_nand (NandCmd NAND_READ (pgsz spp * cnt) 0 false p)); mret tt
       else mret tt);
  for_each (flash_pages spp p) copy_page.

(** The flash pages of a line in the order of the three loops of [do_gc]. *)
Definition gc_targets (spp : ssdparams) : list (Z * Z * Z) :=
  flashpg ← seqZ 0 (flashpgs_per_blk spp);
  ch ← seqZ 0 (nchs spp);
  lun ← seqZ 0 (luns_per_ch spp);
  [(flashpg, ch, lun)].

Definition target_ppa (spp : ssdparams) (blk : Z) (t : Z * Z * Z) : ppa :=
  let '(flashpg, ch, lun) := t in make_ppa ch lun 0 blk (flashpg * pgs_per_flashpg spp).

Definition gc_body (blk : Z) (t : Z * Z * Z) : fprog unit :=
  f ← getf;
  let spp := spp_of f in
  let p := target_ppa spp blk t in
  let '(flashpg, _, _) := t in
  _ ← clean_one_flashpg p;
  if flashpg =? flashpgs_per_blk spp - 1 then
    _ ← mark_block_free p;
    _ ← (if enable_gc_delay (cf_cp f) then
           _ ← on_ssd (ssd_advance_nand (NandCmd NAND_ERASE 0 0 false p)); mret tt
         else mret tt);
    put_flash (fun d => let l := Ssd.get_lun d p in
                        put_lun p (NandLun (nl_next_lun_avail_time l) (nl_next_lun_avail_time l)) d)
  else mret tt.

Definition do_gc (force : bool) : fprog Z :=
  r ← select_victim_line force;
  match r with
  | None => mret (-1)
  | Some i =>
    l ← on_lm (get_line i);
    _ ← modf (fun f => set_wfc (Wfc (write_credits (cf_wfc f)) (ln_ipc l)) f);
    f ← getf;
    _ ← for_each (gc_targets (spp_of f)) (gc_body (ln_id l));
    _ ← mark_line_free (make_ppa 0 0 0 (ln_id l) 0);
    mret 0
  end.

Definition foreground_gc : fprog unit :=
  f ← getf;
  if should_gc_high f then _ ← do_gc true; mret tt else mret tt.

Definition consume_write_credit : fprog unit :=
  modf (fun f => set_wfc (Wfc (u32 (write_credits (cf_wfc f) - 1)) (credits_to_refill (cf_wfc f))) f).

(** [write_credits] is unsigned: the test is for 0. *)
Definition check_and_refill_write_credit : fprog unit :=
  f ← getf;
  if write_credits (cf_wfc f) <=? 0 then
    _ ← foreground_gc;
    modf (fun f => set_wfc (Wfc (u32 (write_credits (cf_wfc f) + credits_to_refill (cf_wfc f)))
                              (credits_to_refill (cf_wfc f))) f)
  else mret tt.

(** ** Commands *)

(** The mapping part of the loop of [conv_write]: logical page [local_lpn] gets the
    page under the write pointer. *)
Definition write_mapping (local_lpn : Z) : fprog ppa :=
  old ← get_maptbl_ent local_lpn;
  _ ← match old with
      | Some p => _ ← mark_page_invalid p; set_rmap_ent INVALID_LPN p
      | None => mret tt
      end;
  p ← get_new_page USER_IO;
  _ ← set_maptbl_ent local_lpn p;
  _ ← set_rmap_ent local_lpn p;
  _ ← mark_page_valid p;
  _ ← advance_write_pointer USER_IO;
  mret p.

(** The loop body of [conv_write], with the latest completion time so far. *)
Definition write_page (sq_id stime local_lpn nsecs_latest : Z) : fprog Z :=
  p ← write_mapping local_lpn;
  f ← getf;
  let spp := spp_of f in
  latest ← (if last_pg_in_wordline spp p then
              let size := pgsz spp * pgs_per_oneshotpg spp in
              nsecs_completed ← on_ssd (ssd_advance_nand (NandCmd NAND_WRITE size stime false p));
              _ ← modify (fun st => (fst st, Shared (sh_pcie (snd st)) (sh_wbuf (snd st))
                     (sh_clock (snd st)) (sh_ticks (snd st))
                     (sh_releases (snd st) ++ [(sq_id, nsecs_completed, size)])));
              mret (Z.max nsecs_completed nsecs_latest)
            else mret nsecs_latest);
  _ ← consume_write_credit;
  _ ← check_and_refill_write_credit;
  mret latest.

(** The namespace: its parts, what they share, and its size in bytes. *)
Record conv_ns := ConvNs { ns_parts : list conv_ftl; ns_shared : shared; ns_size : Z }.

Abbreviation nprog := (prog conv_ns).

Definition on_part {A} (i : Z) (m : fprog A) : nprog A := fun ns =>
  if i <? 0 then Undef else
  match ns_parts ns !! Z.to_nat i with
  | None => Undef
  | Some f =>
    match m (f, ns_shared ns) with
    | Done a (f', s') => Done a (ConvNs (<[Z.to_nat i := f']> (ns_parts ns)) s' (ns_size ns))
    | Undef => Undef
    | Exit (f', s') => Exit (ConvNs (<[Z.to_nat i := f']> (ns_parts ns)) s' (ns_size ns))
    end
  end.

Definition NVME_SC_SUCCESS : Z := 0.
Definition NVME_RW_FUA : Z := Z.shiftl 1 14.

(** The fields of [cmd->rw] and [req] the commands use. *)
Record rw_request := RwRequest {
  rq_slba : Z; rq_length : Z; rq_control : Z; rq_sq_id : Z; rq_nsecs_start : Z
}.

(** First and last logical page of a command. *)
Definition lpn_range (spp : ssdparams) (rq : rw_request) : Z * Z :=
  let nr_lba := rq_length rq + 1 in
  (rq_slba rq / secs_per_pg spp, u64 (u64 (rq_slba rq + nr_lba) - 1) / secs_per_pg spp).

Fixpoint write_loop (fuel : nat) (nr_parts sq_id stime lpn end_lpn latest : Z) : nprog Z :=
  match fuel with
  | O => undefined
  | S n =>
    if lpn <=? end_lpn then
      latest ← on_part (lpn mod nr_parts) (write_page sq_id stime (lpn / nr_parts) latest);
      write_loop n nr_parts sq_id stime (lpn + 1) end_lpn latest
    else mret latest
  end.

(** [None]: the command is not taken; it is tried again later. *)
Definition conv_write (rq : rw_request) : nprog (option Z) :=
  ns ← get;
  let nr_parts := Z.of_nat (length (ns_parts ns)) in
  match ns_parts ns with
  | [] => undefined
  | f0 :: _ =>
    let spp := spp_of f0 in
    if secs_per_pg spp =? 0 then undefined else
    let '(start_lpn, end_lpn) := lpn_range spp rq in
    let nbytes := LBA_TO_BYTE (rq_length rq + 1) in
    if tt_pgs spp <=? end_lpn / nr_parts then mret None else
    allocated ← zoom (fun ns => sh_wbuf (ns_shared ns))
      (fun b ns => ConvNs (ns_parts ns) (set_wbuf b (ns_shared ns)) (ns_size ns)) (buffer_allocate nbytes);
    if allocated <? nbytes then mret None else
    nsecs_xfer_completed ← on_part 0 (on_ssd (ssd_advance_write_buffer (rq_nsecs_start rq) nbytes));
    nsecs_latest ← write_loop (S (Z.to_nat (end_lpn + 1 - start_lpn))) nr_parts (rq_sq_id rq)
                     nsecs_xfer_completed start_lpn end_lpn nsecs_xfer_completed;
    mret (Some (if negb (Z.land (rq_control rq) NVME_RW_FUA =? 0) || negb (write_early_completion spp)
                then nsecs_latest else nsecs_xfer_completed))
  end.

Definition is_same_flash_page (spp : ssdparams) (p q : ppa) : bool :=
  (blk_in_ssd p =? blk_in_ssd q) && (p_pg p / pgs_per_flashpg spp =? p_pg q / pgs_per_flashpg spp).

(** Issue the read that was gathered. *)
Definition issue_read (stime xfer_size : Z) (prev : option ppa) (latest : Z) : fprog Z :=
  if 0 <? xfer_size then
    match prev with
    | None =>                 (** [ssd_advance_nand] answers the start time *)
      t ← (if stime =? 0 then on_ssd get_clock else mret stime);
      mret (Z.max t latest)
    | Some p =>
      t ← on_ssd (ssd_advance_nand (NandCmd NAND_READ xfer_size stime true p));
      mret (Z.max t latest)
    end
  else mret latest.

(** The inner loop of [conv_read] over the logical pages of one part. *)
Fixpoint read_loop (fuel : nat) (nr_parts stime lpn end_lpn xfer_size : Z) (prev : option ppa)
    (latest : Z) : fprog Z :=
  match fuel with
  | O => undefined
  | S n =>
    if lpn <=? end_lpn then
      f ← getf;
      let spp := spp_of f in
      cur ← get_maptbl_ent (lpn / nr_parts);
      match cur with
      | None => read_loop n nr_parts stime (lpn + nr_parts) end_lpn xfer_size prev latest
      | Some p =>
        if negb (in_geometry spp p)
        then read_loop n nr_parts stime (lpn + nr_parts) end_lpn xfer_size prev latest
        else if match prev with Some q => is_same_flash_page spp p q | None => false end
        then read_loop n nr_parts stime (lpn + nr_parts) end_lpn (u32 (xfer_size + pgsz spp)) prev latest
        else
          latest ← issue_read stime xfer_size prev latest;
          read_loop n nr_parts stime (lpn + nr_parts) end_lpn (pgsz spp) (Some p) latest
      end
    else issue_read stime xfer_size prev latest
  end.

(** Its outer loop over the parts. *)
Fixpoint read_parts (fuel : nat) (nr_parts stime i start_lpn end_lpn latest : Z) : nprog Z :=
  match fuel with
  | O => undefined
  | S n =>
    if (i <? nr_parts) && (start_lpn <=? end_lpn) then
      latest ← on_part (start_lpn mod nr_parts)
        (prev ← get_maptbl_ent (start_lpn / nr_parts);
         read_loop (S (Z.to_nat (end_lpn + 1 - start_lpn))) nr_parts stime start_lpn end_lpn 0 prev latest);
      read_parts n nr_parts stime (i + 1) (start_lpn + 1) end_lpn latest
    else mret latest
  end.

Definition conv_read (rq : rw_request) : nprog (option Z) :=
  ns ← get;
  let nr_parts := Z.of_nat (length (ns_parts ns)) in
  match ns_parts ns with
  | [] => undefined
  | f0 :: _ =>
    let spp := spp_of f0 in
    if secs_per_pg spp =? 0 then undefined else
    let '(start_lpn, end_lpn) := lpn_range spp rq in
    if tt_pgs spp <=? end_lpn / nr_parts then mret None else
    let stime := u64 (rq_nsecs_start rq +
      if LBA_TO_BYTE (rq_length rq + 1) <=? KB 4 * nr_parts then fw_4kb_rd_lat spp else fw_rd_lat spp) in
    latest ← read_parts (S (Z.to_nat nr_parts)) nr_parts stime 0 start_lpn end_lpn (rq_nsecs_start rq);
    mret (Some latest)
  end.

(** [conv_flush]; [start] is what [local_clock] answers. *)
Fixpoint flush_parts (parts : list Z) (latest : Z) : nprog Z :=
  match parts with
  | [] => mret latest
  | i :: rest =>
    t ← on_part i (on_ssd ssd_next_idle_time);
    flush_parts rest (Z.max latest t)
  end.

Definition conv_flush (start : Z) : nprog Z :=
  ns ← get;
  flush_parts (seqZ 0 (Z.of_nat (length (ns_parts ns)))) start.

Definition nvme_cmd_flush : Z := 0.
Definition nvme_cmd_write : Z := 1.
Definition nvme_cmd_read : Z := 2.

(** The answer: not taken, done at a time, or (an opcode that is not implemented)
    the result untouched. *)
Inductive conv_answer := NotTaken | DoneAt (nsecs : Z) | NotImplemented.

Definition conv_proc_nvme_io_cmd (start opcode : Z) (rq : rw_request) : nprog conv_answer :=
  let answer r := match r with None => NotTaken | Some t => DoneAt t end in
  if opcode =? nvme_cmd_write then r ← conv_write rq; mret (answer r)
  else if opcode =? nvme_cmd_read then r ← conv_read rq; mret (answer r)
  else if opcode =? nvme_cmd_flush then t ← conv_flush start; mret (DoneAt t)
  else mret NotImplemented.

(** ** Initialisation *)

Definition conv_init_params (op_area_pcent : Z) : convparams :=
  ConvParams 2 2 true (100 + op_area_pcent).

Definition init_lines (spp : ssdparams) : option line_mgmt :=
  guard (blks_per_pl spp = tt_lines spp);;
  pq ← pqueue_init true true (tt_lines spp);
  let ids := seqZ 0 (blks_per_pl spp) in
  Some (LineMgmt ((fun i => Line i 0 0 0) <$> ids) ids pq [] (blks_per_pl spp)
          (blks_per_pl spp) 0 0).

Definition init_write_flow_control (spp : ssdparams) : write_flow_control :=
  Wfc (u32 (pgs_per_line spp)) (u32 (pgs_per_line spp)).

Definition conv_init_ftl (cpp : convparams) (d : ssd) : option conv_ftl :=
  lm ← init_lines (sp d);
  let none := Wp 0 0 0 0 0 0 in
  let f := ConvFtl d cpp ∅ ∅ none none lm (init_write_flow_control (sp d)) in
  let s := Shared (Chan 0 0 0 0 0 0 ∅) (Buffer 0 0) (fun _ => 0) 0 [] in
  match (_ ← prepare_write_pointer USER_IO; prepare_write_pointer GC_IO) (f, s) with
  | Done _ (f', _) => Some f'
  | _ => None
  end.

(** [conv_init_namespace]: the parts are built alike and share the PCIe link and the
    write buffer of the first. *)
Definition conv_init_namespace (cf : ssd_config) (op_area_pcent size : Z) (clock : nat -> Z)
    : option conv_ns :=
  spp ← ssd_init_params cf size (SSD_PARTITIONS cf);
  let cpp := conv_init_params op_area_pcent in
  d ← ssd_init spp;
  f ← conv_init_ftl cpp d;
  pcie ← ssd_init_pcie spp;
  let sh := Shared pcie (buffer_init (write_buffer_size spp)) clock 0 [] in
  Some (ConvNs (replicate (Z.to_nat (SSD_PARTITIONS cf)) f) sh (u64 (size * 100) / pba_pcent cpp)).
