(* ===== verification/ConvFtlSpec.v ===== *)
(** * Pages and lines of the flash (geometry for ConvFtlProps)

    The pages of a line in the order in which the write pointer and garbage
    collection go through them, and the numbers of valid and invalid pages. *)
From S2P Require Import Prelude Pqueue PqueueProps ChannelModel Ssd SsdProps ConvFtl.

(** ** Counting in finite maps *)

Section counting.
Context {K A : Type} `{Countable K} (P : K * A -> Prop) `{!forall x, Decision (P x)}.
Implicit Types m : gmap K A.

Definition mcount m : Z := Z.of_nat (size (filter P m)).

Lemma mcount_insert m k x :
  mcount (<[k := x]> m) =
    mcount m - (match m !! k with Some y => if decide (P (k, y)) then 1 else 0 | None => 0 end)
             + (if decide (P (k, x)) then 1 else 0).
Proof.
  unfold mcount.
  assert (Hd : Z.of_nat (size (filter P (delete k m))) = Z.of_nat (size (filter P m)) -
    (match m !! k with Some y => if decide (P (k, y)) then 1 else 0 | None => 0 end)).
  { destruct (m !! k) as [y|] eqn:E; [|by rewrite delete_id, Z.sub_0_r].
    rewrite <- (insert_delete_id m k y E) at 2. case_decide.
    - rewrite map_filter_insert_True by done. rewrite map_size_insert_None; [lia|].
      apply map_lookup_filter_None. left. apply lookup_delete_eq.
    - rewrite map_filter_insert_not'; [lia|done|]. intros z Ez. by rewrite lookup_delete_eq in Ez. }
  rewrite <- Hd, <- (insert_delete_eq m). case_decide.
  - rewrite map_filter_insert_True by done. rewrite map_size_insert_None; [lia|].
    apply map_lookup_filter_None. left. apply lookup_delete_eq.
  - rewrite map_filter_insert_False by done. rewrite delete_delete_eq. lia.
Qed.

Lemma mcount_nonneg m : 0 <= mcount m.
Proof. unfold mcount. lia. Qed.

Lemma mcount_pos m k x : m !! k = Some x -> P (k, x) -> 0 < mcount m.
Proof.
  intros E HP. unfold mcount. enough (size (filter P m) <> 0%nat) by lia.
  rewrite map_size_non_empty_iff. intros Hem.
  assert (Hk : filter P m !! k = None) by (by rewrite Hem).
  apply map_lookup_filter_None in Hk. naive_solver.
Qed.

Lemma mcount_zero m : (forall k x, m !! k = Some x -> ~ P (k, x)) -> mcount m = 0.
Proof.
  intros Hn. unfold mcount. assert (filter P m = ∅) as ->; [|done].
  apply map_empty. intros k. apply map_lookup_filter_None. right. intros x E. by apply Hn.
Qed.

(** Counting the keys that a set of known size bounds. *)
Lemma mcount_le m (X : gset K) :
  (forall k x, m !! k = Some x -> P (k, x) -> k ∈ X) -> mcount m <= Z.of_nat (size X).
Proof.
  intros HX. unfold mcount. rewrite <- size_dom. apply inj_le, subseteq_size.
  intros k (x & [E HP]%map_lookup_filter_Some)%elem_of_dom. by eapply HX.
Qed.

Lemma mcount_eq m (X : gset K) :
  (forall k, k ∈ X <-> exists x, m !! k = Some x /\ P (k, x)) -> mcount m = Z.of_nat (size X).
Proof.
  intros HX. unfold mcount. rewrite <- size_dom. do 2 f_equal. apply set_eq. intros k.
  rewrite elem_of_dom, HX. split.
  - intros [x [E HP]%map_lookup_filter_Some]. eauto.
  - intros (x & E & HP). exists x. by apply map_lookup_filter_Some.
Qed.
End counting.

Lemma mcount_ext {K A} `{Countable K} (P Q : K * A -> Prop) `{!forall x, Decision (P x)}
    `{!forall x, Decision (Q x)} (m m' : gmap K A) :
  (forall k x, m !! k = Some x -> P (k, x) -> m' !! k = Some x /\ Q (k, x)) ->
  (forall k x, m' !! k = Some x -> Q (k, x) -> m !! k = Some x /\ P (k, x)) ->
  mcount P m = mcount Q m'.
Proof.
  intros Hpq Hqp. unfold mcount. do 2 f_equal. apply map_eq. intros k. apply option_eq. intros x.
  rewrite !map_lookup_filter_Some. naive_solver.
Qed.

(** Disjoint properties add up. *)
Lemma mcount_or {K A} `{Countable K} (P Q R : K * A -> Prop) `{!forall x, Decision (P x)}
    `{!forall x, Decision (Q x)} `{!forall x, Decision (R x)} (m : gmap K A) :
  (forall kx, P kx -> Q kx -> False) -> (forall kx, R kx <-> P kx \/ Q kx) ->
  mcount R m = mcount P m + mcount Q m.
Proof.
  intros Hd Hor. induction m as [|k x m E IH] using map_ind.
  - unfold mcount. by rewrite !map_filter_empty.
  - rewrite !mcount_insert, E, IH. specialize (Hd (k, x)). specialize (Hor (k, x)).
    repeat case_decide; try lia; tauto.
Qed.

Lemma mcount_mono {K A} `{Countable K} (P Q : K * A -> Prop) `{!forall x, Decision (P x)}
    `{!forall x, Decision (Q x)} (m : gmap K A) :
  (forall kx, P kx -> Q kx) -> mcount P m <= mcount Q m.
Proof.
  intros Hpq. induction m as [|k x m E IH] using map_ind.
  - unfold mcount. by rewrite !map_filter_empty.
  - rewrite !mcount_insert, E. specialize (Hpq (k, x)). repeat case_decide; try lia; tauto.
Qed.

(** ** The pages of a line *)

Record fits (spp : ssdparams) : Prop := {
  ft_geometry : geometry spp;
  ft_pls : pls_per_lun spp = 1;
  ft_nchs : nchs spp <= 256;
  ft_luns : luns_per_ch spp <= 256;
  ft_blks : blks_per_pl spp <= 65536;
  ft_pgs : pgs_per_blk spp <= 65536;
  ft_line : 1 < pgs_per_line spp < 2 ^ 31
}.

Section pages.
Context (spp : ssdparams) (F : fits spp).

Let G : geometry spp := ft_geometry spp F.
Abbreviation P := (pgs_per_line spp).
Abbreviation ppo := (pgs_per_oneshotpg spp).

(** The [k]-th page of line [b] under the write pointer: within a one-shot page,
    over the channels, over the dies of a channel, over the one-shot pages. *)
Definition page_at (b k : Z) : ppa :=
  let q := k / ppo in
  let r := q / nchs spp in
  Ppa (r / luns_per_ch spp * ppo + k mod ppo) b 0 (r mod luns_per_ch spp) (q mod nchs spp).

Definition page_index (p : ppa) : Z :=
  ((p_pg p / ppo * luns_per_ch spp + p_lun p) * nchs spp + p_ch p) * ppo + p_pg p mod ppo.

Lemma digit_div n a b : 0 <= b < n -> (a * n + b) / n = a.
Proof. intros. rewrite Z.div_add_l by lia. rewrite Z.div_small by lia. lia. Qed.
Lemma digit_mod n a b : 0 <= b < n -> (a * n + b) mod n = b.
Proof. intros. rewrite Z.add_comm, Z.mod_add by lia. apply Z.mod_small. lia. Qed.

(** The digits of an index. *)
Definition digits (wl lun ch off : Z) : Z := ((wl * luns_per_ch spp + lun) * nchs spp + ch) * ppo + off.

Definition digits_ok (wl lun ch off : Z) : Prop :=
  0 <= wl < oneshotpgs_per_blk spp /\ 0 <= lun < luns_per_ch spp /\ 0 <= ch < nchs spp /\ 0 <= off < ppo.

Lemma page_at_digits b wl lun ch off :
  digits_ok wl lun ch off -> page_at b (digits wl lun ch off) = Ppa (wl * ppo + off) b 0 lun ch.
Proof.
  intros (Hw & Hl & Hc & Ho). unfold page_at, digits.
  by rewrite !digit_div, !digit_mod by lia.
Qed.

Lemma P_digits : P = oneshotpgs_per_blk spp * luns_per_ch spp * nchs spp * ppo.
Proof. rewrite (ge_line _ G), (ge_blk_oneshot _ G). ring. Qed.

Lemma digits_range wl lun ch off : digits_ok wl lun ch off -> 0 <= digits wl lun ch off < P.
Proof.
  intros (Hw & Hl & Hc & Ho). rewrite P_digits. unfold digits.
  assert (0 <= wl * luns_per_ch spp + lun < oneshotpgs_per_blk spp * luns_per_ch spp) by nia.
  set (x := wl * luns_per_ch spp + lun) in *. set (X := oneshotpgs_per_blk spp * luns_per_ch spp) in *.
  assert (0 <= x * nchs spp + ch < X * nchs spp) by nia.
  set (y := x * nchs spp + ch) in *. set (Y := X * nchs spp) in *. nia.
Qed.

Lemma digits_of k : 0 <= k < P -> exists wl lun ch off, digits_ok wl lun ch off /\ k = digits wl lun ch off.
Proof.
  intros Hk. rewrite P_digits in Hk. pose proof (ge_oneshot _ G). pose proof (ge_nchs _ G).
  pose proof (ge_luns _ G). set (q := k / ppo). set (r := q / nchs spp).
  assert (0 <= q < oneshotpgs_per_blk spp * luns_per_ch spp * nchs spp).
  { split; [apply Z.div_pos; lia|]. apply Z.div_lt_upper_bound; lia. }
  assert (0 <= r < oneshotpgs_per_blk spp * luns_per_ch spp).
  { split; [apply Z.div_pos; lia|]. apply Z.div_lt_upper_bound; lia. }
  exists (r / luns_per_ch spp), (r mod luns_per_ch spp), (q mod nchs spp), (k mod ppo).
  split.
  - split_and!; try (apply Z.mod_pos_bound; lia).
    + apply Z.div_pos; lia.
    + apply Z.div_lt_upper_bound; lia.
  - unfold digits. rewrite (Z.div_mod k ppo) at 1 by lia. fold q.
    rewrite (Z.div_mod q (nchs spp)) at 1 by lia. fold r.
    rewrite (Z.div_mod r (luns_per_ch spp)) at 1 by lia. ring.
Qed.

(** The pages of the geometry in line [b]. *)
Definition in_line (b : Z) (p : ppa) : Prop := in_geometry spp p = true /\ p_blk p = b.

Lemma in_geometry_spec p :
  in_geometry spp p = true <->
  0 <= p_ch p < nchs spp /\ 0 <= p_lun p < luns_per_ch spp /\ p_pl p = 0 /\
  0 <= p_blk p < blks_per_pl spp /\ 0 <= p_pg p < pgs_per_blk spp.
Proof.
  unfold in_geometry. rewrite (ft_pls _ F). rewrite !andb_true_iff, !Z.leb_le, !Z.ltb_lt. lia.
Qed.

Lemma page_at_in b k : 0 <= b < blks_per_pl spp -> 0 <= k < P -> in_line b (page_at b k).
Proof.
  intros Hb (wl & lun & ch & off & Hd & ->)%digits_of. rewrite page_at_digits by done.
  destruct Hd as (Hw & Hl & Hc & Ho). split; [|done]. apply in_geometry_spec. simpl.
  rewrite (ge_blk_oneshot _ G). split_and!; nia.
Qed.

Lemma page_index_at b k : 0 <= k < P -> page_index (page_at b k) = k.
Proof.
  intros (wl & lun & ch & off & Hd & ->)%digits_of. rewrite page_at_digits by done.
  destruct Hd as (Hw & Hl & Hc & Ho). unfold page_index, digits. simpl.
  rewrite digit_div, digit_mod by lia. done.
Qed.

Lemma page_at_index p : in_geometry spp p = true ->
  page_at (p_blk p) (page_index p) = p /\ 0 <= page_index p < P.
Proof.
  intros (Hc & Hl & Hp & Hb & Hg)%in_geometry_spec. pose proof (ge_oneshot _ G).
  assert (Hd : digits_ok (p_pg p / ppo) (p_lun p) (p_ch p) (p_pg p mod ppo)).
  { rewrite (ge_blk_oneshot _ G) in Hg. split_and!; try lia; try (apply Z.mod_pos_bound; lia).
    - apply Z.div_pos; lia.
    - apply Z.div_lt_upper_bound; lia. }
  change (page_index p) with (digits (p_pg p / ppo) (p_lun p) (p_ch p) (p_pg p mod ppo)).
  split; [|by apply digits_range]. rewrite page_at_digits by done.
  destruct p as [pg b pl lun ch]. simpl in *. f_equal; [|done].
  rewrite (Z.div_mod pg ppo) at 3 by lia. lia.
Qed.

Lemma page_at_inj b k k' : 0 <= k < P -> 0 <= k' < P -> page_at b k = page_at b k' -> k = k'.
Proof. intros H1 H2 E. rewrite <- (page_index_at b k), E by done. by apply page_index_at. Qed.

Lemma page_at_fields b k : 0 <= b < blks_per_pl spp -> 0 <= k < P ->
  let p := page_at b k in make_ppa (p_ch p) (p_lun p) 0 b (p_pg p) = p.
Proof.
  intros Hb Hk p. destruct (page_at_in b k Hb Hk) as [Hg Eb]. fold p in Hg, Eb. clearbody p.
  apply in_geometry_spec in Hg as (Hc & Hl & Hp & Hbk & Hpg).
  destruct F. unfold make_ppa. rewrite !wrap_small by (unfold in_word; lia).
  destruct p. simpl in *. by subst.
Qed.

(** The pages written when the pointer is at [w]. *)
Definition written_pages (b w : Z) : gset ppa := list_to_set (page_at b <$> seqZ 0 w).

Lemma elem_of_written b w p :
  p ∈ written_pages b w <-> exists k, 0 <= k < w /\ p = page_at b k.
Proof.
  unfold written_pages. rewrite elem_of_list_to_set, list_elem_of_fmap.
  split; intros (k & E & Hk); exists k; rewrite elem_of_seqZ in *; (split; [lia|done]) || naive_solver lia.
Qed.

Lemma size_written b w : 0 <= w <= P -> Z.of_nat (size (written_pages b w)) = w.
Proof.
  intros Hw. unfold written_pages. rewrite size_list_to_set.
  - rewrite length_fmap, length_seqZ. lia.
  - apply NoDup_fmap_2_strong; [|apply NoDup_seqZ].
    intros x y Hx%elem_of_seqZ Hy%elem_of_seqZ. apply page_at_inj; lia.
Qed.

(** The pages of a block. *)
Lemma block_pages_size b lun ch (m : gmap ppa Z) (Q : ppa * Z -> Prop) `{!forall x, Decision (Q x)} :
  (forall p x, m !! p = Some x -> Q (p, x) -> in_geometry spp p = true /\ blk_of p = (ch, lun, 0, b)) ->
  mcount Q m <= pgs_per_blk spp.
Proof.
  intros HQ. etrans; [apply (mcount_le Q m (list_to_set ((fun g => Ppa g b 0 lun ch) <$>
    seqZ 0 (pgs_per_blk spp))))|].
  - intros p x E Hq. destruct (HQ p x E Hq) as [Hg Eb]. apply in_geometry_spec in Hg.
    apply elem_of_list_to_set, list_elem_of_fmap. exists (p_pg p). rewrite elem_of_seqZ.
    unfold blk_of in Eb. destruct p as [pg b' pl' lun' ch']. simpl in *. simplify_eq. split; [done|lia].
  - pose proof (ge_pgs _ G). rewrite size_list_to_set.
    + rewrite length_fmap, length_seqZ. lia.
    + apply NoDup_fmap_2_strong; [|apply NoDup_seqZ]. naive_solver.
Qed.

(** ** The order of garbage collection *)

Abbreviation target := (Z * Z * Z)%type.

Definition target_ok (t : target) : Prop :=
  let '(fp, ch, lun) := t in
  0 <= fp < flashpgs_per_blk spp /\ 0 <= ch < nchs spp /\ 0 <= lun < luns_per_ch spp.

Definition flash_le (t t' : target) : Prop := t.1.1 <= t'.1.1.

(** The pages of the targets still to visit. *)
Definition todo_pages (b : Z) (ts : list target) : list ppa :=
  t ← ts; flash_pages spp (target_ppa spp b t).

Lemma elem_of_gc_targets t : t ∈ gc_targets spp <-> target_ok t.
Proof.
  destruct t as [[fp ch] lun]. unfold gc_targets, target_ok.
  repeat setoid_rewrite list_elem_of_bind. setoid_rewrite elem_of_seqZ. split.
  - intros (x & (y & (z & E & ?) & ?) & ?). apply list_elem_of_singleton in E. simplify_eq. lia.
  - intros (? & ? & ?). exists fp. split; [|lia]. exists ch. split; [|lia]. exists lun.
    split; [|lia]. by apply list_elem_of_singleton.
Qed.

Lemma NoDup_gc_targets : NoDup (gc_targets spp).
Proof.
  apply NoDup_bind; [|intros fp _|apply NoDup_seqZ].
  - intros x1 x2 [[fp ch] lun] _ _. repeat setoid_rewrite list_elem_of_bind.
    setoid_rewrite list_elem_of_singleton. naive_solver.
  - apply NoDup_bind; [|intros ch _|apply NoDup_seqZ].
    + intros x1 x2 [[fp' ch] lun] _ _. repeat setoid_rewrite list_elem_of_bind.
      setoid_rewrite list_elem_of_singleton. naive_solver.
    + apply NoDup_bind; [|intros; apply NoDup_singleton|apply NoDup_seqZ].
      intros x1 x2 y _ _. rewrite !list_elem_of_singleton. naive_solver.
Qed.

(** The outermost loop is over the flash pages. *)
Lemma sorted_gc_targets : StronglySorted flash_le (gc_targets spp).
Proof.
  assert (Hk : forall n x, StronglySorted flash_le
    (fp ← seqZ x (Z.of_nat n); ch ← seqZ 0 (nchs spp); lun ← seqZ 0 (luns_per_ch spp); [(fp, ch, lun)])).
  { induction n as [|n IH]; intros x; [constructor|].
    rewrite (seqZ_cons x (Z.of_nat (S n))) by lia. replace (Z.pred (Z.of_nat (S n))) with (Z.of_nat n) by lia.
    cbn [mbind list_bind]. fold (mbind (M := list) (A := Z) (B := target)).
    assert (Hkey : forall t, t ∈ (ch ← seqZ 0 (nchs spp); lun ← seqZ 0 (luns_per_ch spp); [(x, ch, lun)]) ->
      t.1.1 = x).
    { intros [[fp ch] lun]. repeat setoid_rewrite list_elem_of_bind.
      setoid_rewrite list_elem_of_singleton. naive_solver. }
    apply StronglySorted_app_2; [| |apply IH].
    - intros t t' Ht Ht'. unfold flash_le. rewrite (Hkey t Ht).
      apply list_elem_of_bind in Ht' as (fp & Ht' & Hfp%elem_of_seqZ).
      repeat setoid_rewrite list_elem_of_bind in Ht'.
      setoid_rewrite list_elem_of_singleton in Ht'. destruct Ht' as (? & (? & -> & _) & _). simpl. lia.
    - revert Hkey. generalize (ch ← seqZ 0 (nchs spp); lun ← seqZ 0 (luns_per_ch spp); [(x, ch, lun)]).
      intros l Hl. induction l as [|t l IHl]; constructor; [apply IHl; set_solver|].
      apply Forall_forall. intros t' Ht'. unfold flash_le. rewrite !Hl; [lia|set_solver..]. }
  unfold gc_targets. destruct (decide (0 <= flashpgs_per_blk spp)).
  - replace (flashpgs_per_blk spp) with (Z.of_nat (Z.to_nat (flashpgs_per_blk spp))) by lia. apply Hk.
  - rewrite (seqZ_nil 0 (flashpgs_per_blk spp)) by lia. constructor.
Qed.

Lemma target_flash b t : 0 <= b < blks_per_pl spp -> target_ok t ->
  flash_pages spp (target_ppa spp b t) =
  (fun i => Ppa (t.1.1 * pgs_per_flashpg spp + i) b 0 t.2 t.1.2) <$> seqZ 0 (pgs_per_flashpg spp).
Proof.
  destruct t as [[fp ch] lun]. intros Hb (Hf & Hc & Hl). pose proof (ge_flash _ G) as Hfl.
  pose proof (ge_blk_flash _ G) as Hbf. pose proof F as [_ Hpls Hnc Hnl Hnb Hng _].
  unfold flash_pages, target_ppa. apply list_fmap_ext. intros i j Hj%lookup_seqZ.
  unfold set_pg, make_ppa. simpl. rewrite !(wrap_small 8), !(wrap_small 16) by (unfold in_word;
    try rewrite wrap_small; unfold in_word; nia). done.
Qed.

Lemma target_ppa_in b t : 0 <= b < blks_per_pl spp -> target_ok t -> in_line b (target_ppa spp b t).
Proof.
  intros Hb Ht. pose proof (ge_flash _ G) as Hfl. pose proof (ge_blk_flash _ G) as Hbf.
  destruct t as [[fp ch] lun]. destruct Ht as (Hf & Hc & Hl). pose proof F as [_ Hpls Hnc Hnl Hnb Hng _].
  unfold target_ppa, make_ppa. rewrite !(wrap_small 8), !(wrap_small 16) by (unfold in_word; nia).
  split; [|done]. apply in_geometry_spec. simpl. split_and!; try lia; nia.
Qed.

Lemma elem_of_target_flash b t p : 0 <= b < blks_per_pl spp -> target_ok t ->
  p ∈ flash_pages spp (target_ppa spp b t) <->
  in_line b p /\ (p_pg p / pgs_per_flashpg spp, p_ch p, p_lun p) = t.
Proof.
  intros Hb Ht. rewrite target_flash by done. rewrite list_elem_of_fmap.
  destruct t as [[fp ch] lun]. destruct Ht as (Hf & Hc & Hl). pose proof (ge_flash _ G) as Hfl.
  pose proof (ge_blk_flash _ G) as Hbf. setoid_rewrite elem_of_seqZ. split.
  - intros (i & -> & Hi). simpl. rewrite digit_div by lia. split; [|done]. split; [|done].
    apply in_geometry_spec. simpl. split_and!; try lia; nia.
  - intros ([Hg Eb] & E). simplify_eq. apply in_geometry_spec in Hg.
    exists (p_pg p mod pgs_per_flashpg spp).
    pose proof (Z.mod_pos_bound (p_pg p) (pgs_per_flashpg spp) Hfl). split; [|lia].
    pose proof (Z.div_mod (p_pg p) (pgs_per_flashpg spp)). destruct p. simpl in *.
    destruct Hg as (_ & _ & -> & _). f_equal. lia.
Qed.

(** Every page of a line is visited once. *)
Lemma elem_of_todo b ts p : 0 <= b < blks_per_pl spp -> (forall t, t ∈ ts -> target_ok t) ->
  p ∈ todo_pages b ts <-> in_line b p /\ (p_pg p / pgs_per_flashpg spp, p_ch p, p_lun p) ∈ ts.
Proof.
  intros Hb Hts. unfold todo_pages. rewrite list_elem_of_bind. split.
  - intros (t & Hp & Ht). apply elem_of_target_flash in Hp as [? <-]; auto.
  - intros [Hin Ht]. eexists. split; [|exact Ht]. apply elem_of_target_flash; auto.
Qed.

Lemma page_target p b : in_line b p -> target_ok (p_pg p / pgs_per_flashpg spp, p_ch p, p_lun p).
Proof.
  intros [Hg _]. apply in_geometry_spec in Hg as (Hc & Hl & _ & _ & Hpg).
  pose proof (ge_flash _ G) as Hfl. rewrite (ge_blk_flash _ G) in Hpg. split_and!; try lia.
  - apply Z.div_pos; lia.
  - apply Z.div_lt_upper_bound; lia.
Qed.

Lemma NoDup_todo b ts : 0 <= b < blks_per_pl spp -> (forall t, t ∈ ts -> target_ok t) -> NoDup ts ->
  NoDup (todo_pages b ts).
Proof.
  intros Hb Hts Hnd. apply NoDup_bind; [| |done].
  - intros t1 t2 p H1 H2. rewrite !elem_of_target_flash by auto. naive_solver.
  - intros t Ht. rewrite target_flash by auto. apply NoDup_fmap_2_strong; [|apply NoDup_seqZ].
    intros x y _ _ E. simplify_eq. lia.
Qed.

End pages.
