(* ===== verification/ConvFtlInv.v ===== *)
(** * The invariant of the page-mapping layer (for ConvFtlProps)

    Three parts: the flash arrays count their pages; every line is free, full, a
    victim, under a write pointer, or being collected, and is written accordingly;
    mapping table and reverse table are inverse to each other on the valid pages. *)
From S2P Require Import Prelude Pqueue PqueueProps ChannelModel Ssd SsdProps ConvFtl ConvFtlSpec.

#[export] Instance io_type_eq_dec : EqDecision io_type.
Proof. solve_decision. Defined.

(** ** Status of pages *)

(** Pages of line [b], and of block [a], with status [x]. *)
Definition nstatus (x : Z) (d : ssd) (b : Z) : Z :=
  mcount (fun kv : ppa * Z => kv.2 = x /\ p_blk kv.1 = b) (sd_pg d).
Definition bstatus (x : Z) (d : ssd) (a : blk_addr) : Z :=
  mcount (fun kv : ppa * Z => kv.2 = x /\ blk_of kv.1 = a) (sd_pg d).

Abbreviation nvalid := (nstatus PG_VALID).
Abbreviation ninvalid := (nstatus PG_INVALID).

Lemma get_pg_put d p x q : get_pg (put_pg p x d) q = if decide (q = p) then x else get_pg d q.
Proof.
  unfold get_pg, put_pg. simpl. case_decide; subst; [by rewrite lookup_insert_eq|].
  by rewrite lookup_insert_ne.
Qed.

Definition one (P : Prop) `{Decision P} : Z := if decide P then 1 else 0.

Lemma nstatus_put x d p y b : x <> PG_FREE ->
  nstatus x (put_pg p y d) b =
  nstatus x d b - one (get_pg d p = x /\ p_blk p = b) + one (y = x /\ p_blk p = b).
Proof.
  intros Hx. unfold nstatus, put_pg, get_pg. simpl. rewrite mcount_insert. simpl. unfold one.
  destruct (sd_pg d !! p); simpl; repeat case_decide; try lia; naive_solver.
Qed.

Lemma bstatus_put x d p y a : x <> PG_FREE ->
  bstatus x (put_pg p y d) a =
  bstatus x d a - one (get_pg d p = x /\ blk_of p = a) + one (y = x /\ blk_of p = a).
Proof.
  intros Hx. unfold bstatus, put_pg, get_pg. simpl. rewrite mcount_insert. simpl. unfold one.
  destruct (sd_pg d !! p); simpl; repeat case_decide; try lia; naive_solver.
Qed.

Lemma nstatus_flash x d d' b : sd_pg d' = sd_pg d -> nstatus x d' b = nstatus x d b.
Proof. unfold nstatus. by intros ->. Qed.

(** ** The callbacks of the victim queue *)

Lemma read_line_insert lines i j l :
  is_Some (read_line lines i) ->
  read_line (<[Z.to_nat i := l]> lines) j = if decide (j = i) then Some l else read_line lines j.
Proof.
  unfold read_line. intros [l0 H0]. destruct (Z.leb_spec 0 i); [|done].
  apply lookup_lt_Some in H0. case_decide; subst.
  - destruct (Z.leb_spec 0 i); [|lia]. by apply list_lookup_insert_eq.
  - destruct (Z.leb_spec 0 j); [|done]. apply list_lookup_insert_ne. lia.
Qed.

#[export] Instance victim_laws : PqLaws (list line) Z.
Proof.
  split; simpl; unfold victim_line_cmp_pri, victim_line_get_pri, victim_line_get_pos,
    victim_line_set_pri, victim_line_set_pos; intros *; try lia;
    rewrite ?fmap_is_Some; try done;
    try (intros [l ->]; by eexists);
    (intros (l & E & [= <-])%bind_Some; intros; rewrite !read_line_insert by (by eexists));
    rewrite ?decide_True by done; try done;
    try (rewrite decide_False by done; done);
    case_decide; subst; rewrite ?E; done.
Qed.

(** Two tables of lines that differ in the positions of lines of [X] only. *)
Definition same_but_pos (X : gset Z) (lines lines' : list line) : Prop :=
  length lines' = length lines /\
  forall b l, read_line lines b = Some l -> exists pos, (b ∉ X -> pos = ln_pos l) /\
    read_line lines' b = Some (Line (ln_id l) (ln_ipc l) (ln_vpc l) pos).

Lemma moved_lines X lines lines' : moved X lines lines' -> same_but_pos X lines lines'.
Proof.
  induction 1 as [lines|lines l1 l2 (e & i & He & E) _ [IHl IH]].
  - split; [done|]. intros b l E. exists (ln_pos l). by destruct l.
  - simpl in E. unfold victim_line_set_pos in E. apply bind_Some in E as (le & Ee & [= <-]).
    rewrite length_insert in IHl. split; [done|]. intros b l E.
    destruct (decide (b = e)) as [->|].
    + destruct (IH e (Line (ln_id l) (ln_ipc l) (ln_vpc l) i)) as (pos & Hpos & Er).
      { rewrite read_line_insert by (by eexists). rewrite decide_True by done. congruence. }
      exists pos. split; [done|]. done.
    + apply IH. rewrite read_line_insert by (by eexists). by rewrite decide_False.
Qed.

(** The line under each write pointer with the number of its pages in use, if any. *)
Abbreviation cursors := (io_type -> option (Z * Z)).

Section invariant.
Context (spp : ssdparams) (F : fits spp).
Let G : geometry spp := ft_geometry spp F.
Abbreviation P := (pgs_per_line spp).
Abbreviation T := (blks_per_pl spp).

(** ** The flash *)

Record flash_inv (d : ssd) : Prop := {
  fi_sp : sp d = spp;
  fi_ok : ssd_ok d;
  fi_known p x : sd_pg d !! p = Some x -> in_geometry spp p = true /\
    (x = PG_FREE \/ x = PG_INVALID \/ x = PG_VALID);
  fi_blk p : in_geometry spp p = true ->
    nb_vpc (get_blk d p) = bstatus PG_VALID d (blk_of p) /\
    nb_ipc (get_blk d p) = bstatus PG_INVALID d (blk_of p)
}.

Lemma flash_inv_times d d' : flash_inv d -> same_flash d d' -> ssd_ok d' -> flash_inv d'.
Proof.
  intros [H1 H2 H3 H4] (E1 & E2 & E3) Hok. split; [congruence|done| |].
  - rewrite E2. apply H3.
  - intros p Hp. unfold get_blk, bstatus. rewrite E2, E3. by apply H4.
Qed.

Lemma status_cases d p : flash_inv d ->
  get_pg d p = PG_FREE \/ (in_geometry spp p = true /\ (get_pg d p = PG_INVALID \/ get_pg d p = PG_VALID)).
Proof.
  intros Hd. unfold get_pg. destruct (sd_pg d !! p) as [x|] eqn:E; simpl; [|by left].
  apply (fi_known _ Hd) in E as (? & [->|?]); auto.
Qed.

Lemma status_in d p x : flash_inv d -> get_pg d p = x -> x <> PG_FREE -> in_geometry spp p = true.
Proof. intros Hd <- Hx. by destruct (status_cases d p Hd) as [?|[? _]]. Qed.

Lemma bstatus_le x d p : flash_inv d -> in_geometry spp p = true -> bstatus x d (blk_of p) <= pgs_per_blk spp.
Proof.
  intros Hd Hp. apply (block_pages_size spp F (p_blk p) (p_lun p) (p_ch p)).
  intros q y E [_ Eb]. simpl in Eb. destruct (fi_known _ Hd _ _ E) as [Hq _]. split; [done|].
  rewrite Eb. unfold blk_of. apply in_geometry_spec in Hp as (_ & _ & -> & _); done.
Qed.

(** A page that has another status leaves room in the count. *)
Lemma bstatus_lt x d p : flash_inv d -> in_geometry spp p = true -> get_pg d p <> x -> x <> PG_FREE ->
  0 <= bstatus x d (blk_of p) < pgs_per_blk spp.
Proof.
  intros Hd Hp Hne Hx. split; [apply mcount_nonneg|].
  assert (H1 : bstatus x (put_pg p x d) (blk_of p) = bstatus x d (blk_of p) + 1).
  { rewrite bstatus_put by done. unfold one. rewrite decide_False by naive_solver.
    rewrite decide_True by done. lia. }
  enough (bstatus x (put_pg p x d) (blk_of p) <= pgs_per_blk spp) by lia.
  apply (block_pages_size spp F (p_blk p) (p_lun p) (p_ch p)).
  intros q y E [_ Eb]. simpl in *. split.
  - destruct (decide (q = p)) as [->|]; [done|]. rewrite lookup_insert_ne in E by done.
    by apply (fi_known _ Hd) in E as [? _].
  - rewrite Eb. unfold blk_of. apply in_geometry_spec in Hp as (_ & _ & -> & _); done.
Qed.

Lemma bstatus_pos x d p : get_pg d p = x -> x <> PG_FREE -> 0 < bstatus x d (blk_of p).
Proof.
  intros E Hx. unfold get_pg in E. destruct (sd_pg d !! p) as [y|] eqn:Ep; simpl in E; [|congruence].
  eapply mcount_pos; [exact Ep|]. simpl. naive_solver.
Qed.

Lemma nstatus_pos x d p : get_pg d p = x -> x <> PG_FREE -> 0 < nstatus x d (p_blk p).
Proof.
  intros E Hx. unfold get_pg in E. destruct (sd_pg d !! p) as [y|] eqn:Ep; simpl in E; [|congruence].
  eapply mcount_pos; [exact Ep|]. simpl. naive_solver.
Qed.

(** Setting the status of a page and the counts of its block together. *)
Lemma flash_inv_put d p x blk :
  flash_inv d -> in_geometry spp p = true -> (x = PG_INVALID \/ x = PG_VALID) ->
  nb_vpc blk = bstatus PG_VALID (put_pg p x d) (blk_of p) ->
  nb_ipc blk = bstatus PG_INVALID (put_pg p x d) (blk_of p) ->
  flash_inv (put_blk p blk (put_pg p x d)).
Proof.
  intros [H1 [O1 O2 O3 O4] H3 H4] Hp Hx Ev Ei. split; [done|by split| |].
  - simpl. intros q y E. destruct (decide (q = p)) as [->|].
    + rewrite lookup_insert_eq in E. simplify_eq. tauto.
    + rewrite lookup_insert_ne in E by done. by apply H3.
  - intros q Hq. change (bstatus ?y (put_blk _ _ ?d') ?a) with (bstatus y d' a).
    unfold get_blk. simpl. destruct (decide (blk_of q = blk_of p)) as [E|Hne].
    + by rewrite E, lookup_insert_eq.
    + rewrite lookup_insert_ne by done. destruct (H4 q Hq) as [Hv Hi]. unfold get_blk in Hv, Hi.
      rewrite Hv, Hi, !bstatus_put by done. unfold one. rewrite !decide_False by naive_solver. lia.
Qed.

(** ** Written pages *)

(** The first [w] pages of line [b] are in use, the others free. *)
Definition written (d : ssd) (b w : Z) : Prop :=
  forall k, 0 <= k < P -> (get_pg d (page_at spp b k) <> PG_FREE <-> k < w).

Lemma written_count d b w : flash_inv d -> 0 <= b < T -> 0 <= w <= P -> written d b w ->
  nvalid d b + ninvalid d b = w.
Proof.
  intros Hd Hb Hw Hwr. unfold nstatus.
  rewrite <- (mcount_or _ _ (fun kv : ppa * Z => kv.2 <> PG_FREE /\ p_blk kv.1 = b /\
      (kv.2 = PG_VALID \/ kv.2 = PG_INVALID))).
  - rewrite (mcount_eq _ _ (written_pages spp b w)); [by apply size_written|].
    intros p. rewrite elem_of_written. split.
    + intros (k & Hk & ->). assert (Hnf : get_pg d (page_at spp b k) <> PG_FREE) by (apply Hwr; lia).
      unfold get_pg in Hnf. destruct (sd_pg d !! page_at spp b k) as [x|] eqn:E; simpl in Hnf; [|done].
      exists x. split; [done|]. simpl. destruct (fi_known _ Hd _ _ E) as [_ Hx]. tauto.
    + intros (x & E & Hnf & Eb & _). simpl in *. destruct (fi_known _ Hd _ _ E) as [Hg _].
      destruct (page_at_index spp F p Hg) as [Epi Hi]. exists (page_index spp p). subst b.
      split; [|done]. split; [lia|]. apply Hwr; [done|]. rewrite Epi. unfold get_pg. by rewrite E.
  - intros [q x] [-> _] [E _]. discriminate.
  - intros [q x]. simpl. split; [tauto|].
    intros [[-> ?]|[-> ?]]; (split; [discriminate|]); tauto.
Qed.

(** Using the next page. *)
Lemma written_next d b w x : written d b w -> 0 <= w < P -> x <> PG_FREE ->
  written (put_pg (page_at spp b w) x d) b (w + 1).
Proof.
  intros Hwr Hw Hx k Hk. rewrite get_pg_put. case_decide as E.
  - apply page_at_inj in E; [|done..]. subst. split; [lia|done].
  - rewrite (Hwr k Hk). assert (k <> w) by (by intros ->). lia.
Qed.

(** Changing pages in use, or of another line. *)
Lemma written_ext d d' b w :
  (forall p, p_blk p = b -> get_pg d' p = PG_FREE <-> get_pg d p = PG_FREE) ->
  written d b w -> written d' b w.
Proof. intros He Hwr k Hk. rewrite <- (Hwr k Hk). specialize (He (page_at spp b k) eq_refl). tauto. Qed.

Lemma nstatus_other x d p y b : p_blk p <> b -> nstatus x (put_pg p y d) b = nstatus x d b.
Proof.
  intros Hne. unfold nstatus. apply mcount_ext; simpl; intros q z E [-> Hq].
  - destruct (decide (q = p)) as [->|]; [done|]. by rewrite lookup_insert_ne in E.
  - assert (q <> p) by congruence. by rewrite lookup_insert_ne.
Qed.

(** ** The lines *)

Lemma elem_of_option_list (o : option Z) b : b ∈ option_list o <-> o = Some b.
Proof. destruct o; simpl; rewrite ?list_elem_of_singleton; [|set_solver]. naive_solver. Qed.

Definition set_cur (cur : cursors) (t : io_type) (v : option (Z * Z)) : cursors :=
  fun t' => if decide (t' = t) then v else cur t'.

Definition cur_lines (cur : cursors) : list Z :=
  option_list (fst <$> cur USER_IO) ++ option_list (fst <$> cur GC_IO).

Lemma cur_lines_split cur t b k : cur t = Some (b, k) -> cur_lines cur ≡ₚ b :: cur_lines (set_cur cur t None).
Proof.
  intros E. unfold cur_lines, set_cur. destruct t; rewrite E; simpl; [done|].
  by rewrite Permutation_app_comm, app_nil_r.
Qed.

Lemma cur_lines_set cur t b k : cur_lines (set_cur cur t (Some (b, k))) ≡ₚ b :: cur_lines (set_cur cur t None).
Proof. unfold cur_lines, set_cur. destruct t; simpl; [done|]. by rewrite Permutation_app_comm, app_nil_r. Qed.

Lemma elem_of_cur_lines cur b : b ∈ cur_lines cur <-> exists t k, cur t = Some (b, k).
Proof.
  unfold cur_lines. rewrite elem_of_app, !elem_of_option_list. split.
  - intros [E|E]; apply fmap_Some in E as ([b' k] & E & ->); eauto.
  - intros ([|] & k & ->); [left|right]; done.
Qed.

(** Every line plays one role. *)
Definition parts (free full : list Z) (X : gset Z) (cur : cursors) (vic : option Z) : Prop :=
  free ++ full ++ elements X ++ cur_lines cur ++ option_list vic ≡ₚ seqZ 0 T.

(** The table of lines: identity, position and counts. *)
Definition table (d : ssd) (lines : list line) (X : gset Z) (vic : option Z) : Prop :=
  forall b, 0 <= b < T -> exists l, read_line lines b = Some l /\ ln_id l = b /\
    (b ∉ X -> ln_pos l = 0) /\
    (vic <> Some b -> ln_vpc l = nvalid d b /\ ln_ipc l = ninvalid d b).

Record lines_inv (d : ssd) (lm : line_mgmt) (vic : option Z) (X : gset Z) (cur : cursors) : Prop := {
  li_len : Z.of_nat (length (lm_lines lm)) = T;
  li_table : table d (lm_lines lm) X vic;
  li_pq : pq_rep (lm_victim_line_pq lm) (lm_lines lm) X;
  li_avail : q_avail (lm_victim_line_pq lm) = T + 1;
  li_parts : parts (lm_free_line_list lm) (lm_full_line_list lm) X cur vic;
  li_free b : b ∈ lm_free_line_list lm -> written d b 0;
  li_full b : b ∈ lm_full_line_list lm -> written d b P /\ nvalid d b = P;
  li_vict b : b ∈ X -> written d b P /\ nvalid d b < P;
  li_cur t b k : cur t = Some (b, k) -> 0 <= k <= P /\ written d b k;
  li_nfree : lm_free_line_cnt lm = Z.of_nat (length (lm_free_line_list lm));
  li_nfull : lm_full_line_cnt lm = Z.of_nat (length (lm_full_line_list lm));
  li_nvict : lm_victim_line_cnt lm = Z.of_nat (size X)
}.

Section roles.
Context (free full : list Z) (X : gset Z) (cur : cursors) (vic : option Z).
Context (Hp : parts free full X cur vic).

Lemma parts_in b :
  (b ∈ free \/ b ∈ full \/ b ∈ X \/ (exists t k, cur t = Some (b, k)) \/ vic = Some b) <-> 0 <= b < T.
Proof.
  assert (b ∈ seqZ 0 T <-> 0 <= b < T) as <- by (rewrite elem_of_seqZ; lia).
  rewrite <- Hp. rewrite !elem_of_app, elem_of_elements, elem_of_cur_lines, elem_of_option_list. tauto.
Qed.

Lemma parts_NoDup : NoDup (free ++ full ++ elements X ++ cur_lines cur ++ option_list vic).
Proof. rewrite Hp. apply NoDup_seqZ. Qed.

Lemma parts_disjoint :
  NoDup free /\ NoDup full /\
  (forall b, b ∈ free -> (b ∉ full) /\ (b ∉ X) /\ (forall t k, cur t <> Some (b, k)) /\ vic <> Some b) /\
  (forall b, b ∈ full -> (b ∉ X) /\ (forall t k, cur t <> Some (b, k)) /\ vic <> Some b) /\
  (forall b, b ∈ X -> (forall t k, cur t <> Some (b, k)) /\ vic <> Some b) /\
  (forall t b k, cur t = Some (b, k) -> vic <> Some b /\ forall t' k', t' <> t -> cur t' <> Some (b, k')).
Proof.
  pose proof parts_NoDup as Hnd. rewrite !NoDup_app in Hnd.
  destruct Hnd as (H1 & D1 & H2 & D2 & H3 & D3 & H4 & D4 & H5).
  assert (Hcur : forall b t k, cur t = Some (b, k) -> b ∈ cur_lines cur).
  { intros. apply elem_of_cur_lines. eauto. }
  assert (Hvic : forall b, vic = Some b -> b ∈ option_list vic) by (intros b ->; by left).
  split; [done|]. split; [done|]. split; [|split; [|split]].
  - intros b Hb. specialize (D1 b Hb). rewrite !elem_of_app, elem_of_elements in D1. naive_solver.
  - intros b Hb. specialize (D2 b Hb). rewrite !elem_of_app, elem_of_elements in D2. naive_solver.
  - intros b Hb. specialize (D3 b). rewrite !elem_of_app, elem_of_elements in D3. naive_solver.
  - intros t b k E. split; [intros Ev; by apply (D4 b); eauto|].
    intros t' k' Hne E'. unfold cur_lines in H4. rewrite NoDup_app in H4. destruct H4 as (_ & D & _).
    apply (D b); rewrite elem_of_option_list;
      destruct t, t'; try done; rewrite ?E, ?E'; done.
Qed.
End roles.

End invariant.
