(* ===== verification/ConvFtlLines.v ===== *)
(** * Operations on the lines (for ConvFtlProps)

    Each step of the write pointers and of garbage collection moves a line from one
    role to another and keeps the invariant of the lines. *)
From S2P Require Import Prelude Pqueue PqueueProps ChannelModel Ssd SsdProps ConvFtl ConvFtlSpec ConvFtlInv.

Section lines.
Context (spp : ssdparams) (F : fits spp).
Abbreviation P := (pgs_per_line spp).
Abbreviation T := (blks_per_pl spp).
Abbreviation lines_inv := (lines_inv spp).
Abbreviation flash_inv := (flash_inv spp).
Abbreviation written := (written spp).

Lemma wp_get_line i l lm (Q : line -> line_mgmt -> Prop) :
  read_line (lm_lines lm) i = Some l -> Q l lm -> wp never (get_line i) Q lm.
Proof. intros E HQ. unfold wp, get_line. by rewrite E. Qed.

Lemma wp_assert {St} b (Q : unit -> St -> Prop) s : b = true -> Q tt s -> wp never (assert b) Q s.
Proof. by intros ->. Qed.

Lemma wp_on_pq {A} (m : prog (pqueue_t Z * list line) A) (Q : A -> line_mgmt -> Prop) lm :
  wp never m (fun a p => Q a (LineMgmt (snd p) (lm_free_line_list lm) (fst p) (lm_full_line_list lm)
    (lm_tt_lines lm) (lm_free_line_cnt lm) (lm_victim_line_cnt lm) (lm_full_line_cnt lm)))
    (lm_victim_line_pq lm, lm_lines lm) ->
  wp never (on_pq m) Q lm.
Proof.
  intros H. unfold on_pq. apply wp_zoom. eapply wp_exit_mono; [exact H|]. by intros ? [].
Qed.

(** Changing a line that is not in the queue. *)
Lemma pq_rep_put_line q lines X i l l' :
  pq_rep q lines X -> i ∉ X -> read_line lines i = Some l ->
  pq_rep q (<[Z.to_nat i := l']> lines) X.
Proof.
  intros Hq Hi E. eapply pq_rep_frame; [|exact Hq]. intros e He. simpl.
  unfold victim_line_get_pri, victim_line_get_pos. rewrite read_line_insert by (by eexists).
  rewrite decide_False by set_solver. done.
Qed.

(** ** The queue of victims *)

Lemma table_moved d vic X Y lines lines' :
  table spp d lines X vic -> X ⊆ Y -> same_but_pos Y lines lines' -> table spp d lines' Y vic.
Proof.
  intros Ht HXY [_ Hs] b Hb. destruct (Ht b Hb) as (l & El & Hid & Hpos & Hcnt).
  destruct (Hs b l El) as (pos & Hp & E'). eexists. split; [exact E'|]. simpl. split; [done|].
  split; [|done]. intros HbY. rewrite Hp by done. apply Hpos. set_solver.
Qed.

(** A line enters the queue. *)
Lemma wp_add_victim d lm vic X b (Q : unit -> line_mgmt -> Prop) :
  Z.of_nat (length (lm_lines lm)) = T -> table spp d (lm_lines lm) X vic ->
  pq_rep (lm_victim_line_pq lm) (lm_lines lm) X -> q_avail (lm_victim_line_pq lm) = T + 1 ->
  lm_victim_line_cnt lm = Z.of_nat (size X) ->
  b ∉ X -> 0 <= b < T -> Z.of_nat (size X) < T ->
  (forall q' lines', pq_rep q' lines' ({[b]} ∪ X) -> q_avail q' = T + 1 ->
     table spp d lines' ({[b]} ∪ X) vic -> Z.of_nat (length lines') = T ->
     Q tt (LineMgmt lines' (lm_free_line_list lm) q' (lm_full_line_list lm) (lm_tt_lines lm)
             (lm_free_line_cnt lm) (Z.of_nat (size ({[b]} ∪ X : gset Z))) (lm_full_line_cnt lm))) ->
  wp never (add_victim b) Q lm.
Proof.
  intros Hlen Ht Hq Hav0 Hcnt Hb Hr Hsz HQ. unfold add_victim. apply wp_bind, wp_on_pq.
  pose proof (pq_rep_card _ _ _ Hq) as Hcard. destruct (Ht b Hr) as (l & El & _).
  eapply wp_mono.
  - apply (wp_pqueue_insert _ _ X b Hq Hb).
    + simpl. unfold victim_line_get_pos. rewrite El. by eexists.
    + rewrite Hav0. lia.
  - intros r s (_ & q' & lines' & -> & Hrep & Hav & Hm). simpl. apply wp_modify.
    apply moved_lines in Hm as Hs. pose proof Hs as [Hl _].
    unfold set_victim_cnt. simpl. rewrite Hcnt.
    assert (Hs' : Z.of_nat (size ({[b]} ∪ X : gset Z)) = Z.of_nat (size X) + 1).
    { rewrite size_union by set_solver. rewrite size_singleton. lia. }
    pose proof (ft_blks _ F). rewrite wrap_small by (unfold in_word; lia). rewrite <- Hs'.
    apply HQ; [done|congruence| |congruence]. eapply table_moved; [exact Ht|set_solver|done].
Qed.

Lemma filter_ne_id (b : Z) (l : list Z) : b ∉ l -> filter (fun j => j <> b) l = l.
Proof.
  induction l as [|x l IH]; [done|]. intros Hb. rewrite filter_cons_True by set_solver.
  rewrite IH; set_solver.
Qed.

Lemma filter_ne_perm (b : Z) (l : list Z) :
  NoDup l -> b ∈ l -> l ≡ₚ b :: filter (fun j => j <> b) l.
Proof.
  induction l as [|x l IH]; [set_solver|]. intros Hnd Hb. inversion_clear Hnd as [|? ? Hx Hnd'].
  destruct (decide (x = b)) as [->|].
  - rewrite filter_cons_False by naive_solver. by rewrite filter_ne_id.
  - rewrite filter_cons_True by done. rewrite IH at 1; [|done|set_solver]. apply Permutation_swap.
Qed.

Section one_state.
Context (d : ssd) (lm : line_mgmt) (vic : option Z) (X : gset Z) (cur : cursors).
Context (Hd : flash_inv d) (HI : lines_inv d lm vic X cur).

Let Hparts : parts spp (lm_free_line_list lm) (lm_full_line_list lm) X cur vic.
Proof. by destruct HI. Qed.

Lemma line_range b : b ∈ lm_free_line_list lm \/ b ∈ lm_full_line_list lm \/ b ∈ X \/
  (exists t k, cur t = Some (b, k)) \/ vic = Some b -> 0 <= b < T.
Proof. by apply (parts_in _ F _ _ _ _ _ Hparts). Qed.

(** The counts of a line that is not being collected. *)
Lemma line_counts b : 0 <= b < T -> vic <> Some b ->
  exists l, read_line (lm_lines lm) b = Some l /\ ln_id l = b /\ (b ∉ X -> ln_pos l = 0) /\
    ln_vpc l = nvalid d b /\ ln_ipc l = ninvalid d b.
Proof. intros Hb Hv. destruct (li_table _ _ _ _ _ _ HI b Hb) as (l & ? & ? & ? & Hc). eauto 10. Qed.

(** ** Taking a free line *)

Lemma wp_get_next_free_line t (Q : option Z -> line_mgmt -> Prop) :
  cur t = None -> lm_free_line_list lm <> [] ->
  (forall b rest, lm_free_line_list lm = b :: rest ->
     let lm' := set_free_list rest (lm_free_line_cnt lm - 1) lm in
     lines_inv d lm' vic X (set_cur cur t (Some (b, 0))) -> Q (Some b) lm') ->
  wp never get_next_free_line Q lm.
Proof.
  intros Ht Hne HQ. unfold get_next_free_line. apply wp_bind, wp_get.
  destruct (lm_free_line_list lm) as [|b rest] eqn:Efree; [done|].
  apply wp_bind, wp_put, wp_ret, HQ; [done|]. destruct HI as [I1 I2 I3 I4 I5 I6 I7 I8 I9 I10 I11 I12].
  rewrite Efree in *. split; simpl; try done.
  - unfold parts in *. rewrite cur_lines_set. simpl.
    replace (cur_lines cur) with (cur_lines (set_cur cur t None)) in I5; cycle 1.
    { unfold cur_lines, set_cur. destruct t; simpl; by rewrite Ht. }
    rewrite <- I5. solve_Permutation.
  - intros b' Hb'. apply I6. by right.
  - intros t' b' k'. unfold set_cur. case_decide; [|by apply I9].
    intros [= <- <-]. pose proof (ft_line _ F). split; [lia|]. apply I6. by left.
  - rewrite I10. simpl length. rewrite wrap_small; [lia|]. unfold in_word.
    assert (Z.of_nat (length rest) < T).
    { assert (length (seqZ 0 T) = length ((b :: rest) ++ lm_full_line_list lm ++ elements X
        ++ cur_lines cur ++ option_list vic)) as Hl by (by rewrite I5).
      rewrite length_seqZ, length_app in Hl. simpl in Hl. lia. }
    pose proof (ft_blks _ F). lia.
Qed.

(** ** A page becomes valid *)

Lemma lines_valid t b k l :
  cur t = Some (b, k) -> k < P -> read_line (lm_lines lm) b = Some l ->
  let p := page_at spp b k in
  lines_inv (put_pg p PG_VALID d)
    (LineMgmt (<[Z.to_nat b := Line (ln_id l) (ln_ipc l) (ln_vpc l + 1) (ln_pos l)]> (lm_lines lm))
       (lm_free_line_list lm) (lm_victim_line_pq lm) (lm_full_line_list lm) (lm_tt_lines lm)
       (lm_free_line_cnt lm) (lm_victim_line_cnt lm) (lm_full_line_cnt lm))
    vic X (set_cur cur t (Some (b, k + 1))).
Proof.
  intros Ht Hk El p. destruct (parts_disjoint _ F _ _ _ _ _ Hparts) as (_ & _ & Dfree & Dfull & DX & Dcur).
  assert (Hb : 0 <= b < T) by (apply line_range; eauto 10).
  destruct (li_cur _ _ _ _ _ _ HI _ _ _ Ht) as [Hk' Hwb].
  destruct (Dcur _ _ _ Ht) as [Hbv Hother].
  assert (HbX : b ∉ X) by (intros Hx; destruct (DX b Hx) as [Hc _]; by eapply Hc).
  assert (Hfp : get_pg d p = PG_FREE).
  { destruct (decide (get_pg d p = PG_FREE)) as [|Hn]; [done|]. apply (Hwb k) in Hn; lia. }
  assert (Hoth : forall b', b' <> b -> forall w, written d b' w -> written (put_pg p PG_VALID d) b' w).
  { intros b' Hb' w. apply written_ext. intros q Hq. rewrite get_pg_put, decide_False; [done|].
    intros ->. done. }
  assert (Hn : forall x b', b' <> b -> nstatus x (put_pg p PG_VALID d) b' = nstatus x d b').
  { intros x b' Hb'. apply nstatus_other. by intros <-. }
  destruct HI as [I1 I2 I3 I4 I5 I6 I7 I8 I9 I10 I11 I12].
  split; simpl; try done.
  - by rewrite length_insert.
  - intros b' Hb'. rewrite read_line_insert by (by eexists). case_decide as E.
    + subst b'. destruct (I2 b Hb) as (l' & El' & Hid & Hpos & Hcnt). assert (l' = l) as -> by congruence.
      destruct (Hcnt Hbv) as [Hv Hi]. eexists. split; [done|]. simpl. split; [done|]. split; [done|].
      intros _. rewrite !nstatus_put by done. rewrite Hfp, Hv, Hi. unfold one.
      change (p_blk p) with b. rewrite (decide_True (P := PG_VALID = PG_VALID /\ b = b)) by done.
      rewrite !decide_False by (intros [? _]; discriminate). lia.
    + rewrite !Hn by done. by apply I2.
  - by eapply pq_rep_put_line.
  - unfold parts in *. rewrite cur_lines_set. by rewrite (cur_lines_split cur t b k Ht) in I5.
  - intros b' Hb'. apply Hoth; [|by apply I6]. intros ->. by destruct (Dfree b Hb') as (_ & _ & Hc & _);
      eapply Hc.
  - intros b' Hb'. assert (b' <> b) by (intros ->; by destruct (Dfull b Hb') as (_ & Hc & _); eapply Hc).
    rewrite Hn by done. destruct (I7 b' Hb'). auto.
  - intros b' Hb'. assert (b' <> b) by set_solver. rewrite Hn by done. destruct (I8 b' Hb'). auto.
  - intros t' b' k'. unfold set_cur. case_decide as E.
    + intros [= <- <-]. split; [lia|]. apply written_next; [done..|lia|discriminate].
    + intros E'. destruct (I9 t' b' k' E') as [? ?]. split; [done|]. apply Hoth; [|done].
      intros ->. by eapply Hother.
Qed.

Lemma size_lists : Z.of_nat (length (lm_free_line_list lm)) + Z.of_nat (length (lm_full_line_list lm)) +
  Z.of_nat (size X) + Z.of_nat (length (cur_lines cur)) + Z.of_nat (length (option_list vic)) = T.
Proof.
  assert (Hl : length (lm_free_line_list lm ++ lm_full_line_list lm ++ elements X ++ cur_lines cur
    ++ option_list vic) = length (seqZ 0 T)) by (apply Permutation_length, Hparts).
  rewrite length_seqZ, !length_app in Hl. fold (size X) in Hl.
  pose proof (ge_blks _ (ft_geometry _ F)). unfold size, set_size in *. simpl in *. lia.
Qed.

(** ** A line is used up *)

Lemma wp_retire_line t b (Q : unit -> line_mgmt -> Prop) :
  cur t = Some (b, P) ->
  (forall lm' X', lines_inv d lm' vic X' (set_cur cur t None) ->
     lm_free_line_list lm' = lm_free_line_list lm -> Q tt lm') ->
  wp never (retire_line spp b) Q lm.
Proof.
  intros Ht HQ. destruct (parts_disjoint _ F _ _ _ _ _ Hparts) as (_ & _ & Dfree & Dfull & DX & Dcur).
  assert (Hb : 0 <= b < T) by (apply line_range; eauto 10).
  destruct (li_cur _ _ _ _ _ _ HI _ _ _ Ht) as [Hk Hwb]. destruct (Dcur _ _ _ Ht) as [Hbv Hother].
  assert (HbX : b ∉ X) by (intros Hx; destruct (DX b Hx) as [Hc _]; by eapply Hc).
  destruct (line_counts b Hb Hbv) as (l & El & Hid & Hpos & Hv & Hi).
  pose proof (written_count _ F _ _ _ Hd Hb Hk Hwb) as Hsum.
  pose proof (ft_line _ F) as HP. pose proof (ft_blks _ F) as HT. pose proof size_lists as Hsz.
  rewrite (Permutation_length (cur_lines_split cur t b P Ht)) in Hsz. simpl in Hsz.
  pose proof HI as [I1 I2 I3 I4 I5 I6 I7 I8 I9 I10 I11 I12].
  assert (Hnv : 0 <= nvalid d b) by apply mcount_nonneg.
  assert (Hni : 0 <= ninvalid d b) by apply mcount_nonneg.
  assert (Hcur' : forall t' b' k', set_cur cur t None t' = Some (b', k') -> 0 <= k' <= P /\ written d b' k').
  { intros t' b' k'. unfold set_cur. case_decide; [done|]. apply I9. }
  unfold retire_line. apply wp_bind. eapply wp_get_line; [exact El|]. rewrite Hv, Hi.
  destruct (Z.eqb_spec (nvalid d b) P).
  - apply wp_bind, wp_assert; [lia|]. apply wp_modify, (HQ _ X); [|done]. split; simpl; try done.
    + unfold parts in *. rewrite (cur_lines_split cur t b P Ht) in I5. rewrite <- I5.
      solve_Permutation.
    + intros b' [Hb'|Hb'%list_elem_of_singleton]%elem_of_app; [by apply I7|]. by subst.
    + rewrite I11, length_app. simpl. rewrite wrap_small by (unfold in_word; lia). lia.
  - apply wp_bind, wp_assert; [lia|]. apply wp_bind, wp_assert; [lia|].
    eapply wp_add_victim; [done..|lia|]. intros q' lines' Hrep Hav Htab Hlen.
    apply (HQ _ ({[b]} ∪ X)); [|done]. split; simpl; try done.
    + unfold parts in *. rewrite (cur_lines_split cur t b P Ht) in I5. rewrite <- I5.
      rewrite elements_union_singleton by done. solve_Permutation.
    + intros b' [->%elem_of_singleton|Hb']%elem_of_union; [split; [done|lia]|by apply I8].
Qed.

(** ** A page becomes invalid *)

Section invalidate.
Context (p : ppa) (Hp : get_pg d p = PG_VALID) (Hvic : vic <> Some (p_blk p)).
Context (Hk : forall t b k, cur t = Some (b, k) -> k < P).
Let d' := put_pg p PG_INVALID d.
Let b := p_blk p.

Lemma invalid_written b' w : written d b' w -> written d' b' w.
Proof.
  apply written_ext. intros q _. unfold d'. rewrite get_pg_put. case_decide; [|done].
  subst. rewrite Hp. done.
Qed.

Lemma invalid_counts b' :
  nvalid d' b' = nvalid d b' - one (b' = b) /\ ninvalid d' b' = ninvalid d b' + one (b' = b).
Proof.
  unfold d'. rewrite !nstatus_put by discriminate. rewrite Hp. unfold one. fold b.
  repeat case_decide; naive_solver lia.
Qed.

Lemma invalid_range : 0 <= b < T.
Proof.
  assert (Hg : in_geometry spp p = true) by (eapply (status_in _ d); [done|exact Hp|discriminate]).
  apply (in_geometry_spec _ F) in Hg. unfold b. lia.
Qed.

(** Where the line of the page is, and its counts. *)
Lemma invalid_role :
  (b ∈ lm_full_line_list lm \/ b ∈ X \/ exists t k, cur t = Some (b, k)) /\ (b ∉ lm_free_line_list lm) /\
  0 < nvalid d b /\ 0 <= ninvalid d b /\ nvalid d b + ninvalid d b <= P /\
  (nvalid d b = P -> b ∈ lm_full_line_list lm).
Proof.
  assert (Hg : in_geometry spp p = true) by (eapply (status_in _ d); [done|exact Hp|discriminate]).
  pose proof HI as [I1 I2 I3 I4 I5 I6 I7 I8 I9 I10 I11 I12]. pose proof (ft_line _ F) as HP.
  pose proof invalid_range as Hb.
  assert (Hnf : b ∉ lm_free_line_list lm).
  { intros Hf. specialize (I6 b Hf). destruct (page_at_index _ F p Hg) as [E Hi].
    fold b in E. destruct (I6 _ Hi) as [Hx _]. rewrite E, Hp in Hx. specialize (Hx ltac:(discriminate)). lia. }
  assert (Hv : 0 < nvalid d b) by (by apply nstatus_pos).
  assert (Hi : 0 <= ninvalid d b) by apply mcount_nonneg.
  destruct (proj2 (parts_in _ F _ _ _ _ _ Hparts b) Hb) as [Hr|[Hr|[Hr|[Hr|Hr]]]]; try done.
  - destruct (I7 b Hr) as [Hw Hn]. pose proof (written_count _ F d b P Hd Hb ltac:(lia) Hw).
    split_and!; try lia; auto.
  - destruct (I8 b Hr) as [Hw Hn]. pose proof (written_count _ F d b P Hd Hb ltac:(lia) Hw).
    split_and!; try lia; auto.
  - destruct Hr as (t & k & Ht). destruct (I9 _ _ _ Ht) as [Hkr Hw]. pose proof (Hk _ _ _ Ht).
    pose proof (written_count _ F d b k Hd Hb ltac:(lia) Hw). split_and!; try lia; eauto.
Qed.

(** The table after the line of [p] has its new counts. *)
Lemma table_invalid l l' lines Y :
  read_line (lm_lines lm) b = Some l -> Z.of_nat (length lines) = T ->
  read_line lines b = Some l' -> ln_id l' = b -> ln_vpc l' = ln_vpc l - 1 -> ln_ipc l' = ln_ipc l + 1 ->
  (b ∉ Y -> ln_pos l' = 0) -> X ⊆ Y ->
  (forall b' l0, b' <> b -> read_line (lm_lines lm) b' = Some l0 -> exists pos,
     (b' ∉ Y -> pos = ln_pos l0) /\ read_line lines b' = Some (Line (ln_id l0) (ln_ipc l0) (ln_vpc l0) pos)) ->
  table spp d' lines Y vic.
Proof.
  intros El Hlen El' Hid Hv Hi Hpos HXY Hoth b' Hb'.
  destruct (li_table _ _ _ _ _ _ HI b' Hb') as (l0 & E0 & Hid0 & Hpos0 & Hcnt0).
  destruct (invalid_counts b') as [Cv Ci]. rewrite Cv, Ci. unfold one.
  destruct (decide (b' = b)) as [->|Hne].
  - assert (l0 = l) as -> by congruence. exists l'. split_and!; try done.
    intros Hn. destruct (Hcnt0 Hn). lia.
  - destruct (Hoth b' l0 Hne E0) as (pos & Hp' & E'). eexists. split; [exact E'|]. simpl.
    split; [done|]. split; [intros; rewrite Hp' by done; apply Hpos0; set_solver|].
    intros Hn. destruct (Hcnt0 Hn). lia.
Qed.

(** The line is a victim: its priority changes. *)
Lemma wp_invalidate_victim l (Q : unit -> line_mgmt -> Prop) :
  b ∈ X -> read_line (lm_lines lm) b = Some l -> ln_id l = b ->
  nvalid d b < P ->
  (forall lm', lines_inv d' lm' vic X cur -> lm_free_line_list lm' = lm_free_line_list lm -> Q tt lm') ->
  wp never (_ ← put_line b (Line (ln_id l) (ln_ipc l + 1) (ln_vpc l) (ln_pos l));
            on_pq (pqueue_change_priority (ln_vpc l - 1) b)) Q lm.
Proof.
  intros HbX El Hid Hlt HQ. pose proof HI as [I1 I2 I3 I4 I5 I6 I7 I8 I9 I10 I11 I12].
  apply wp_bind, wp_modify. apply wp_on_pq. cbn [lm_victim_line_pq lm_lines].
  set (lines1 := <[Z.to_nat b := _]> (lm_lines lm)).
  assert (E1 : forall j, read_line lines1 j = if decide (j = b)
    then Some (Line (ln_id l) (ln_ipc l + 1) (ln_vpc l) (ln_pos l)) else read_line (lm_lines lm) j).
  { intros j. unfold lines1. apply read_line_insert. by eexists. }
  assert (Hrep : pq_rep (lm_victim_line_pq lm) lines1 X).
  { eapply pq_rep_frame; [|exact I3]. intros e He. simpl. unfold victim_line_get_pri, victim_line_get_pos.
    rewrite E1. case_decide; subst; by rewrite ?El. }
  eapply wp_mono; [by apply (wp_pqueue_change_priority _ lines1 X)|].
  intros [] s (lines2 & Es & q' & lines3 & -> & Hrep' & Hav & Hm). simpl in Es.
  unfold victim_line_set_pri in Es. rewrite E1, decide_True in Es by done. simpl in Es.
  injection Es as <-. destruct (moved_lines _ _ _ Hm) as [Hl3 H3].
  assert (E2 : forall j, read_line (<[Z.to_nat b := Line (ln_id l) (ln_ipc l + 1) (ln_vpc l - 1) (ln_pos l)]> lines1) j
    = if decide (j = b) then Some (Line (ln_id l) (ln_ipc l + 1) (ln_vpc l - 1) (ln_pos l))
      else read_line (lm_lines lm) j).
  { intros j. rewrite read_line_insert by (rewrite E1; case_decide; by eexists).
    case_decide; [done|]. rewrite E1. by rewrite decide_False. }
  assert (Hl3' : length lines3 = length (lm_lines lm)).
  { rewrite Hl3. unfold lines1. by rewrite !length_insert. }
  destruct (H3 b (Line (ln_id l) (ln_ipc l + 1) (ln_vpc l - 1) (ln_pos l))) as (pos & _ & Eb).
  { rewrite E2. by rewrite decide_True. }
  apply HQ; [|done]. split; simpl; try done.
  - by rewrite Hl3'.
  - eapply (table_invalid l); [done|by rewrite Hl3'|exact Eb|done..|]. intros b' l0 Hne E0.
    apply H3. rewrite E2. by rewrite decide_False.
  - by rewrite Hav.
  - intros b' Hb'. by apply invalid_written, I6.
  - intros b' Hb'. destruct (I7 b' Hb'). split; [by apply invalid_written|].
    destruct (invalid_counts b') as [-> _]. unfold one. rewrite decide_False; [lia|]. intros ->.
    destruct (parts_disjoint _ F _ _ _ _ _ Hparts) as (_ & _ & _ & Dfull & _). by destruct (Dfull b Hb').
  - intros b' Hb'. destruct (I8 b' Hb'). split; [by apply invalid_written|].
    destruct (invalid_counts b') as [-> _]. unfold one. case_decide; lia.
  - intros t b' k Ht. destruct (I9 t b' k Ht). split; [done|]. by apply invalid_written.
Qed.

(** The line is under a write pointer, or was full. *)
Lemma wp_invalidate_other l (Q : unit -> line_mgmt -> Prop) :
  b ∉ X -> read_line (lm_lines lm) b = Some l -> ln_id l = b -> ln_pos l = 0 ->
  (forall lm' X', lines_inv d' lm' vic X' cur -> lm_free_line_list lm' = lm_free_line_list lm -> Q tt lm') ->
  wp never (_ ← put_line b (Line (ln_id l) (ln_ipc l + 1) (ln_vpc l) (ln_pos l));
            _ ← put_line b (Line (ln_id l) (ln_ipc l + 1) (ln_vpc l - 1) (ln_pos l));
            if nvalid d b =? P then
              _ ← modify (fun lm => set_free_list (filter (fun j => j <> b) (lm_free_line_list lm))
                                      (lm_free_line_cnt lm) lm);
              _ ← modify (fun lm => set_full_list (filter (fun j => j <> b) (lm_full_line_list lm))
                                      (lm_full_line_cnt lm - 1) lm);
              add_victim b
            else mret tt) Q lm.
Proof.
  intros HbX El Hid Hpos HQ. pose proof HI as [I1 I2 I3 I4 I5 I6 I7 I8 I9 I10 I11 I12].
  destruct invalid_role as (Hrole & Hnfree & Hv & Hi & Hsum & Hfull). pose proof invalid_range as Hb.
  destruct (parts_disjoint _ F _ _ _ _ _ Hparts) as (_ & NDfull & _ & Dfull & _ & _).
  pose proof size_lists as Hsz. pose proof (ft_blks _ F) as HT.
  apply wp_bind, wp_modify. apply wp_bind, wp_modify. cbn [lm_lines].
  rewrite list_insert_insert_eq. set (lines2 := <[Z.to_nat b := _]> (lm_lines lm)).
  assert (E2 : forall j, read_line lines2 j = if decide (j = b)
    then Some (Line (ln_id l) (ln_ipc l + 1) (ln_vpc l - 1) (ln_pos l)) else read_line (lm_lines lm) j).
  { intros j. unfold lines2. apply read_line_insert. by eexists. }
  assert (Hlen : Z.of_nat (length lines2) = T) by (unfold lines2; by rewrite length_insert).
  assert (Htab : table spp d' lines2 X vic).
  { eapply (table_invalid l); [done|done|rewrite E2; by rewrite decide_True|done..|].
    intros b' l0 Hne E0. exists (ln_pos l0). split; [done|]. rewrite E2, decide_False by done.
    rewrite E0. by destruct l0. }
  assert (Hrep : pq_rep (lm_victim_line_pq lm) lines2 X) by (by eapply pq_rep_put_line).
  assert (Hcur' : forall t' b' k', cur t' = Some (b', k') -> 0 <= k' <= P /\ written d' b' k').
  { intros t' b' k' Ht. destruct (I9 t' b' k' Ht). split; [done|]. by apply invalid_written. }
  assert (Hvict' : forall b', b' ∈ X -> written d' b' P /\ nvalid d' b' < P).
  { intros b' Hb'. destruct (I8 b' Hb'). split; [by apply invalid_written|].
    destruct (invalid_counts b') as [-> _]. unfold one. case_decide; lia. }
  assert (Hfull' : forall b', b' ∈ lm_full_line_list lm -> b' <> b -> written d' b' P /\ nvalid d' b' = P).
  { intros b' Hb' Hne. destruct (I7 b' Hb'). split; [by apply invalid_written|].
    destruct (invalid_counts b') as [-> _]. unfold one. rewrite decide_False by done. lia. }
  assert (Hfree' : forall b', b' ∈ lm_free_line_list lm -> written d' b' 0)
    by (intros; by apply invalid_written, I6).
  destruct (Z.eqb_spec (nvalid d b) P) as [Ev|Ev].
  - specialize (Hfull Ev). pose proof (filter_ne_perm b _ NDfull Hfull) as Eperm.
    pose proof (Permutation_length Eperm) as Elen. simpl in Elen.
    apply wp_bind, wp_modify, wp_bind, wp_modify. unfold set_free_list, set_full_list. simpl.
    rewrite filter_ne_id by done. rewrite I10, I11, Elen.
    rewrite !wrap_small by (unfold in_word; lia).
    eapply (wp_add_victim d' _ vic X); [done..|lia|]. intros q' lines' Hrep' Hav' Htab' Hlen'. simpl.
    apply (HQ _ ({[b]} ∪ X)); [|done]. split; simpl; try done; try lia.
    + unfold parts in *. rewrite elements_union_singleton by done. rewrite <- I5.
      revert Eperm. generalize (filter (fun j => j <> b) (lm_full_line_list lm)). intros ff ->.
      solve_Permutation.
    + intros b' [Hne Hb']%list_elem_of_filter. by apply Hfull'.
    + intros b' [->%elem_of_singleton|Hb']%elem_of_union; [|by apply Hvict'].
      destruct (I7 b Hfull). split; [by apply invalid_written|].
      destruct (invalid_counts b) as [-> _]. unfold one. rewrite decide_True by done. lia.
  - apply wp_ret, (HQ _ X); [|done]. split; simpl; try done.
    intros b' Hb'. apply Hfull'; [done|]. intros ->. by destruct (I7 b Hb').
Qed.

(** [mark_page_invalid] on the line of a valid page. *)
Lemma wp_invalidate_in_line (Q : unit -> line_mgmt -> Prop) :
  (forall lm' X', lines_inv d' lm' vic X' cur -> lm_free_line_list lm' = lm_free_line_list lm -> Q tt lm') ->
  wp never (invalidate_in_line spp b) Q lm.
Proof.
  intros HQ. destruct invalid_role as (Hrole & Hnfree & Hv & Hi & Hsum & Hfull).
  destruct (line_counts b invalid_range Hvic) as (l & El & Hid & Hpos & Ev & Ei).
  unfold invalidate_in_line. apply wp_bind. eapply wp_get_line; [exact El|].
  rewrite <- Ev, <- Ei in *.
  apply wp_bind, wp_assert; [lia|]. apply wp_bind, wp_assert.
  { destruct (Z.eqb_spec (ln_vpc l) P); simpl; lia. }
  destruct (decide (b ∈ X)) as [HbX|HbX].
  - pose proof (li_vict _ _ _ _ _ _ HI b HbX) as [_ Hlt]. rewrite <- Ev in Hlt.
    assert (Hp1 : ln_pos l <> 0).
    { pose proof (pr_holed _ _ _ (li_pq _ _ _ _ _ _ HI)) as Hh.
      destruct (hd_elem _ _ _ _ _ Hh b HbX) as (_ & j & Hj & Ej).
      pose proof (hd_pos _ _ _ _ _ Hh j b Hj ltac:(lia) Ej) as Epos. simpl in Epos.
      unfold victim_line_get_pos in Epos. rewrite El in Epos. simpl in Epos. simplify_eq. lia. }
    replace (ln_pos l =? 0) with false by lia. replace (ln_vpc l =? P) with false by lia. cbn [negb].
    pose proof (wp_invalidate_victim l Q HbX El Hid) as Hw. rewrite <- Ev in Hw.
    specialize (Hw Hlt (fun lm' => HQ lm' X)).
    unfold wp, mbind, prog_bind, put_line, modify, assert, undefined, mret, prog_ret in Hw |- *.
    replace ((0 <? ln_vpc l) && (ln_vpc l <=? P)) with true by lia. by destruct (on_pq _ _) as [[]| |].
  - replace (ln_pos l =? 0) with true by (rewrite Hpos by done; done). cbn [negb].
    pose proof (wp_invalidate_other l Q HbX El Hid (Hpos HbX) HQ) as Hw. rewrite <- Ev in Hw.
    unfold wp, mbind, prog_bind, put_line, modify, assert, undefined, mret, prog_ret in Hw |- *.
    by replace ((0 <? ln_vpc l) && (ln_vpc l <=? P)) with true by lia.
Qed.

End invalidate.

(** ** Garbage collection *)

Lemma wp_peek_victim (Q : option Z -> line_mgmt -> Prop) :
  (X = ∅ -> Q None lm) ->
  (forall b, b ∈ X -> arr_get (q_d (lm_victim_line_pq lm)) 1 = Some b -> Q (Some b) lm) ->
  wp never (on_pq (pqueue_peek true)) Q lm.
Proof.
  intros Hno Hyes. apply wp_on_pq. eapply wp_mono; [apply (wp_pqueue_peek _ _ X), (li_pq _ _ _ _ _ _ HI)|].
  assert (Elm : LineMgmt (lm_lines lm) (lm_free_line_list lm) (lm_victim_line_pq lm)
    (lm_full_line_list lm) (lm_tt_lines lm) (lm_free_line_cnt lm) (lm_victim_line_cnt lm)
    (lm_full_line_cnt lm) = lm) by (by destruct lm).
  intros r s (-> & [(HX & ->)|(b & -> & E & Hb & _)]); simpl; rewrite Elm; auto.
Qed.

(** The queue without the line [b] that [pqueue_pop] took out, before its position
    is cleared. *)
Lemma wp_pop_victim b (Q : option Z -> line_mgmt -> Prop) :
  vic = None -> b ∈ X -> arr_get (q_d (lm_victim_line_pq lm)) 1 = Some b ->
  (forall q' lines' l, pq_rep q' lines' (X ∖ {[b]}) -> q_avail q' = T + 1 ->
     same_but_pos X (lm_lines lm) lines' -> read_line lines' b = Some l ->
     ln_id l = b -> ln_vpc l = nvalid d b -> ln_ipc l = ninvalid d b ->
     lines_inv d (set_victim_cnt (Z.of_nat (size X) - 1)
       (LineMgmt (<[Z.to_nat b := Line (ln_id l) (ln_ipc l) (ln_vpc l) 0]> lines')
          (lm_free_line_list lm) q' (lm_full_line_list lm) (lm_tt_lines lm) (lm_free_line_cnt lm)
          (lm_victim_line_cnt lm) (lm_full_line_cnt lm))) (Some b) (X ∖ {[b]}) cur ->
     Q (Some b) (LineMgmt lines' (lm_free_line_list lm) q' (lm_full_line_list lm) (lm_tt_lines lm)
          (lm_free_line_cnt lm) (lm_victim_line_cnt lm) (lm_full_line_cnt lm))) ->
  wp never (on_pq (pqueue_pop true)) Q lm.
Proof.
  intros Hv Hb E1 HQ. apply wp_on_pq.
  pose proof HI as [I1 I2 I3 I4 I5 I6 I7 I8 I9 I10 I11 I12].
  assert (Hbr : 0 <= b < T) by (apply line_range; auto).
  eapply wp_mono; [by apply (wp_pqueue_pop _ _ X)|].
  intros r s [(-> & _)|(e & -> & Ee & _ & q' & lines' & -> & Hrep & Hav & Hm)]; [set_solver|].
  assert (e = b) as -> by congruence. simpl. apply moved_lines in Hm. pose proof Hm as [Hl Hs].
  destruct (line_counts b Hbr ltac:(by subst)) as (l0 & E0 & Hid & _ & Ev & Ei).
  destruct (Hs b l0 E0) as (pos & _ & El).
  eapply HQ; [done|congruence|done|exact El|done..|].
  pose proof (ft_blks _ F). pose proof size_lists as Hsz.
  assert (Hnz : (size ({[b]} : gset Z) <= size X)%nat) by (apply subseteq_size; set_solver).
  rewrite size_singleton in Hnz.
  assert (Hsize : Z.of_nat (size (X ∖ {[b]})) = Z.of_nat (size X) - 1).
  { rewrite size_difference by set_solver. rewrite size_singleton. lia. }
  split; simpl; try done.
  - by rewrite length_insert, Hl.
  - intros b' Hb'. rewrite read_line_insert by (by eexists). case_decide as Ebb.
    + subst. eexists. split; [done|]. simpl. split; [done|]. split; [done|]. by intros [].
    + destruct (I2 b' Hb') as (l1 & E1' & Hid1 & Hpos1 & Hcnt1).
      destruct (Hs b' l1 E1') as (pos1 & Hpos2 & E2). eexists. split; [exact E2|]. simpl.
      split; [done|]. split; [|intros _; apply Hcnt1; by subst].
      intros Hx. assert (b' ∉ X) by set_solver. rewrite Hpos2 by done. auto.
  - eapply pq_rep_put_line; [done|set_solver|exact El].
  - congruence.
  - unfold parts in *. subst vic. simpl in *. rewrite <- I5.
    assert (elements X ≡ₚ b :: elements (X ∖ {[b]})) as ->.
    { rewrite <- elements_union_singleton by set_solver. f_equiv. intros x.
      destruct (decide (x = b)); set_solver. }
    rewrite app_nil_r. solve_Permutation.
  - intros b' Hb'. apply I8. set_solver.
  - rewrite Hsize. apply wrap_small. unfold in_word. lia.
Qed.

(** The pages of the line being collected may change. *)
Lemma lines_vic_change b d' :
  vic = Some b -> (forall p, p_blk p <> b -> get_pg d' p = get_pg d p) ->
  (forall x b', b' <> b -> nstatus x d' b' = nstatus x d b') ->
  lines_inv d' lm vic X cur.
Proof.
  intros Hv Hsame Hn. pose proof HI as [I1 I2 I3 I4 I5 I6 I7 I8 I9 I10 I11 I12].
  destruct (parts_disjoint _ F _ _ _ _ _ Hparts) as (_ & _ & Dfree & Dfull & DX & Dcur).
  assert (Hw : forall b' w, b' <> b -> written d b' w -> written d' b' w).
  { intros b' w Hb'. apply written_ext. intros q Hq. rewrite Hsame; [done|congruence]. }
  split; try done.
  - intros b' Hb'. destruct (I2 b' Hb') as (l & El & Hid & Hpos & Hcnt). exists l. split_and!; try done.
    intros Hne. assert (b' <> b) by congruence. rewrite !Hn by done. auto.
  - intros b' Hb'. apply Hw; [|by apply I6]. intros ->. by destruct (Dfree b Hb') as (_ & _ & _ & []).
  - intros b' Hb'. assert (b' <> b) by (intros ->; by destruct (Dfull b Hb') as (_ & _ & [])).
    rewrite Hn by done. destruct (I7 b' Hb'). auto.
  - intros b' Hb'. assert (b' <> b) by (intros ->; by destruct (DX b Hb') as (_ & [])).
    rewrite Hn by done. destruct (I8 b' Hb'). auto.
  - intros t b' k Ht. destruct (I9 _ _ _ Ht). split; [done|]. apply Hw; [|done].
    intros ->. by destruct (Dcur _ _ _ Ht) as [[] _].
Qed.

(** An erased line is free again. *)
Lemma lines_free b l :
  vic = Some b -> written d b 0 -> read_line (lm_lines lm) b = Some l ->
  lines_inv d (set_free_list (lm_free_line_list lm ++ [b]) (lm_free_line_cnt lm + 1)
    (LineMgmt (<[Z.to_nat b := Line (ln_id l) 0 0 (ln_pos l)]> (lm_lines lm)) (lm_free_line_list lm)
       (lm_victim_line_pq lm) (lm_full_line_list lm) (lm_tt_lines lm) (lm_free_line_cnt lm)
       (lm_victim_line_cnt lm) (lm_full_line_cnt lm))) None X cur.
Proof.
  intros Hv Hw El. pose proof HI as [I1 I2 I3 I4 I5 I6 I7 I8 I9 I10 I11 I12].
  destruct (parts_disjoint _ F _ _ _ _ _ Hparts) as (_ & _ & _ & _ & DX & _).
  assert (HbX : b ∉ X) by (intros Hx; by destruct (DX b Hx) as [_ []]).
  assert (Hbr : 0 <= b < T) by (apply line_range; auto 10).
  pose proof (ft_blks _ F). pose proof (ft_line _ F). pose proof size_lists as Hsz.
  pose proof (written_count _ F d b 0 Hd Hbr ltac:(lia) Hw) as Hsum.
  assert (Hnv : 0 <= nvalid d b) by apply mcount_nonneg.
  assert (Hni : 0 <= ninvalid d b) by apply mcount_nonneg.
  split; simpl; try done.
  - by rewrite length_insert.
  - intros b' Hb'. rewrite read_line_insert by (by eexists).
    destruct (I2 b' Hb') as (l1 & E1 & Hid1 & Hpos1 & Hcnt1). case_decide as Ebb.
    + subst b'. assert (l1 = l) as -> by congruence. eexists. split; [done|]. simpl.
      split; [done|]. split; [done|]. intros _. rewrite Ebb. split; lia.
    + exists l1. split_and!; try done. intros _. apply Hcnt1. congruence.
  - by eapply pq_rep_put_line.
  - unfold parts in *. subst vic. simpl in *. rewrite <- I5. rewrite app_nil_r. solve_Permutation.
  - intros b' [Hb'|Hb'%list_elem_of_singleton]%elem_of_app; [by apply I6|]. by subst.
  - rewrite I10, length_app. simpl. rewrite wrap_small by (unfold in_word; lia). lia.
Qed.

End one_state.
End lines.
