(* ===== verification/ConvFtlMap.v ===== *)
(** * The mapping tables (for ConvFtlProps)

    Mapping table and reverse table are inverse to each other on the valid pages;
    what invalidating, installing and moving a page does to them. *)
From S2P Require Import Prelude Pqueue PqueueProps ChannelModel Ssd SsdProps ConvFtl ConvFtlSpec ConvFtlInv ConvFtlLines.

Section mapping.
Context (spp : ssdparams) (F : fits spp).
Let G : geometry spp := ft_geometry spp F.
Abbreviation P := (pgs_per_line spp).
Abbreviation T := (blks_per_pl spp).

(** ** Page numbers *)

Lemma pgidx_digits p : in_geometry spp p = true ->
  let i := p_pg p + pgs_per_blk spp * (p_blk p + T * (p_lun p + luns_per_ch spp * p_ch p)) in
  pgidx spp p = i /\ 0 <= i < tt_pgs spp.
Proof.
  intros (Hc & Hl & Hpl & Hb & Hg)%(in_geometry_spec _ F) i. pose proof F as [_ F1 F2 F3 F4 F5 F6].
  assert (Ett : tt_pgs spp = pgs_per_blk spp * (T * (luns_per_ch spp * nchs spp))).
  { rewrite (ge_tt _ G), (ge_ch _ G), (ge_lun _ G), (ge_pl _ G), F1. ring. }
  assert (Ei : p_ch p * pgs_per_ch spp + p_lun p * pgs_per_lun spp + p_pl p * pgs_per_pl spp
    + p_blk p * pgs_per_blk spp + p_pg p = i).
  { rewrite (ge_ch _ G), (ge_lun _ G), (ge_pl _ G), F1, Hpl. unfold i. ring. }
  assert (H1 : 0 <= p_lun p + luns_per_ch spp * p_ch p < luns_per_ch spp * nchs spp) by nia.
  set (x := p_lun p + luns_per_ch spp * p_ch p) in *.
  assert (H2 : 0 <= p_blk p + T * x < T * (luns_per_ch spp * nchs spp)) by nia.
  set (y := p_blk p + T * x) in *.
  assert (H3 : 0 <= i < tt_pgs spp) by (rewrite Ett; unfold i; nia).
  split; [|done]. unfold pgidx. rewrite Ei. apply wrap_small.
  assert (tt_pgs spp < 2 ^ 64); [|unfold in_word; lia].
  rewrite (ge_tt_lines _ G), (ge_lines _ G), F1. nia.
Qed.

Lemma pgidx_inj p q : in_geometry spp p = true -> in_geometry spp q = true ->
  pgidx spp p = pgidx spp q -> p = q.
Proof.
  intros Hp Hq. destruct (pgidx_digits p Hp) as [-> _], (pgidx_digits q Hq) as [-> _].
  apply (in_geometry_spec _ F) in Hp as (? & ? & ? & ? & ?), Hq as (? & ? & ? & ? & ?).
  intros E. do 3 (apply digits_inj in E as [? E]; [|assumption..]).
  destruct p, q. simpl in *. by subst.
Qed.

(** ** The tables

    [live] says which valid pages belong to a logical page; [exc] is a logical page
    whose entry is out of date. *)
Record map_inv (exc : option Z) (live : ppa -> Prop) (d : ssd) (m : gmap Z ppa) (r : gmap Z Z) : Prop := {
  mi_mapped lpn p : exc <> Some lpn -> m !! lpn = Some p ->
    0 <= lpn < tt_pgs spp /\ in_geometry spp p = true /\ get_pg d p = PG_VALID /\
    r !! pgidx spp p = Some lpn /\ live p;
  mi_valid p : get_pg d p = PG_VALID -> live p -> in_geometry spp p = true /\
    exists lpn, exc <> Some lpn /\ r !! pgidx spp p = Some lpn /\ m !! lpn = Some p
}.

Lemma map_install lpn p live d m r :
  map_inv (Some lpn) live d m r -> in_geometry spp p = true -> get_pg d p = PG_FREE -> live p ->
  0 <= lpn < tt_pgs spp ->
  map_inv None live (put_pg p PG_VALID d) (<[lpn := p]> m) (<[pgidx spp p := lpn]> r).
Proof.
  intros [H1 H2] Hg Hf Hl Hlpn. split.
  - intros lpn' q _ E. rewrite get_pg_put. destruct (decide (lpn' = lpn)) as [->|Hne].
    + rewrite lookup_insert_eq in E. simplify_eq. rewrite decide_True, lookup_insert_eq by done. done.
    + rewrite lookup_insert_ne in E by done. destruct (H1 lpn' q) as (? & Hq & Hv & Hr & ?); [congruence|done|].
      assert (q <> p) by (intros ->; rewrite Hf in Hv; discriminate).
      rewrite decide_False by done. rewrite lookup_insert_ne; [done|].
      intros Ei. apply pgidx_inj in Ei; congruence.
  - intros q Hv Hlq. rewrite get_pg_put in Hv. case_decide as Eq.
    + subst. split; [done|]. exists lpn. by rewrite !lookup_insert_eq.
    + destruct (H2 q Hv Hlq) as (Hq & lpn' & Hne & Hr & Hm). split; [done|]. exists lpn'.
      assert (lpn' <> lpn) by congruence. rewrite (lookup_insert_ne m) by done.
      rewrite lookup_insert_ne; [done|]. intros Ei. apply pgidx_inj in Ei; congruence.
Qed.

Lemma map_invalidate lpn p live d m r :
  map_inv None live d m r -> m !! lpn = Some p ->
  map_inv (Some lpn) live (put_pg p PG_INVALID d) m (<[pgidx spp p := INVALID_LPN]> r).
Proof.
  intros [H1 H2] E. destruct (H1 lpn p) as (_ & Hg & _ & Hr & _); [done..|]. split.
  - intros lpn' q Hne E'. destruct (H1 lpn' q) as (? & Hq & Hv & Hrq & ?); [done..|].
    assert (q <> p) by (intros ->; congruence).
    rewrite get_pg_put, decide_False by done. rewrite lookup_insert_ne; [done|].
    intros Ei. apply pgidx_inj in Ei; congruence.
  - intros q Hv Hl. rewrite get_pg_put in Hv. case_decide as Eq; [discriminate|].
    destruct (H2 q Hv Hl) as (Hq & lpn' & _ & Hrq & Hm). split; [done|]. exists lpn'.
    split; [congruence|]. rewrite lookup_insert_ne; [done|]. intros Ei. apply pgidx_inj in Ei; congruence.
Qed.

Lemma map_unmapped lpn live d m r :
  map_inv None live d m r -> m !! lpn = None -> map_inv (Some lpn) live d m r.
Proof.
  intros [H1 H2] E. split.
  - intros lpn' q _. by apply H1.
  - intros q Hv Hl. destruct (H2 q Hv Hl) as (Hq & lpn' & _ & Hrq & Hm). split; [done|]. exists lpn'.
    split; [congruence|done].
Qed.

(** Garbage collection takes over the logical page of a valid page. *)
Lemma map_take p live d m r :
  map_inv None live d m r -> get_pg d p = PG_VALID -> live p ->
  exists lpn, 0 <= lpn < tt_pgs spp /\ in_geometry spp p = true /\ r !! pgidx spp p = Some lpn /\
    m !! lpn = Some p /\ map_inv (Some lpn) (fun q => live q /\ q <> p) d m r.
Proof.
  intros [H1 H2] Hv Hl. destruct (H2 p Hv Hl) as (Hg & lpn & _ & Hr & Hm).
  destruct (H1 lpn p) as (Hlpn & _); [done..|]. exists lpn. do 4 (split; [done|]). split.
  - intros lpn' q Hne E. destruct (H1 lpn' q) as (? & ? & ? & ? & ?); [done..|].
    assert (q <> p) by (intros ->; congruence). done.
  - intros q Hvq [Hlq Hne]. destruct (H2 q Hvq Hlq) as (Hq & lpn' & _ & Hrq & Hm'). split; [done|].
    exists lpn'. split; [congruence|done].
Qed.

(** A page that is not valid need not be live. *)
Lemma map_drop p live d m r :
  map_inv None live d m r -> get_pg d p <> PG_VALID -> map_inv None (fun q => live q /\ q <> p) d m r.
Proof.
  intros [H1 H2] Hv. split.
  - intros lpn q _ E. destruct (H1 lpn q) as (? & ? & Hvq & ? & ?); [done..|].
    assert (q <> p) by (intros ->; congruence). done.
  - intros q Hvq [Hlq _]. eauto.
Qed.

Lemma map_live_ext live live' exc d m r :
  (forall p, get_pg d p = PG_VALID -> live p <-> live' p) -> map_inv exc live d m r -> map_inv exc live' d m r.
Proof.
  intros Hl [H1 H2]. split.
  - intros lpn p Hne E. destruct (H1 lpn p Hne E) as (? & ? & Hv & ? & Hlp). split_and!; try done; try lia.
    by apply Hl.
  - intros p Hv Hlp. apply H2; [done|]. by apply Hl.
Qed.

(** Only pages that are not live change. *)
Lemma map_inv_frame live exc d d' m r :
  (forall p, live p -> get_pg d' p = get_pg d p) -> map_inv exc live d m r -> map_inv exc live d' m r.
Proof.
  intros Hs [H1 H2]. split.
  - intros lpn p Hne E. destruct (H1 lpn p Hne E) as (? & ? & Hv & ? & Hlp). by rewrite Hs.
  - intros p Hv Hlp. apply H2; [|done]. by rewrite <- Hs.
Qed.

(** The mapped logical pages are as many as the valid pages. *)
Lemma map_size d m r :
  flash_inv spp d -> map_inv None (fun _ => True) d m r ->
  Z.of_nat (size m) = mcount (fun kv : ppa * Z => kv.2 = PG_VALID) (sd_pg d).
Proof.
  intros Hd [H1 H2]. rewrite (mcount_eq _ _ (list_to_set ((map_to_list m).*2))).
  - rewrite size_list_to_set; [by rewrite length_fmap, length_map_to_list|].
    apply NoDup_fmap_2_strong; [|apply NoDup_map_to_list].
    intros [l1 p1] [l2 p2] E1%elem_of_map_to_list E2%elem_of_map_to_list. simpl. intros ->.
    destruct (H1 l1 p2) as (_ & _ & _ & R1 & _); [done..|].
    destruct (H1 l2 p2) as (_ & _ & _ & R2 & _); [done..|]. congruence.
  - intros p. rewrite elem_of_list_to_set, list_elem_of_fmap. split.
    + intros ([lpn q] & -> & E%elem_of_map_to_list). simpl.
      destruct (H1 lpn q) as (_ & _ & Hv & _); [done..|]. unfold get_pg in Hv.
      destruct (sd_pg d !! q) as [x|]; simpl in Hv; [by exists x|discriminate].
    + intros (x & E & Hx). simpl in Hx. subst. destruct (H2 p) as (_ & lpn & _ & _ & Hm);
        [unfold get_pg; by rewrite E|done|].
      exists (lpn, p). split; [done|]. by apply elem_of_map_to_list.
Qed.

End mapping.
