(* ===== verification/ConvFtlOps.v ===== *)
(** * Single pages (for ConvFtlProps)

    The rules of the steps on one part, its invariant [core], and what writing a
    logical page does to it: invalidate the old page, install a new one, advance the
    write pointer. *)
From S2P Require Import Prelude Pqueue PqueueProps ChannelModel Ssd SsdProps.
From S2P Require Import ConvFtl ConvFtlSpec ConvFtlInv ConvFtlLines ConvFtlMap.

(** ** Steps of the code *)

Lemma wp_getf f (s : shared) (Q : conv_ftl -> conv_ftl * shared -> Prop) :
  Q f (f, s) -> wp never getf Q (f, s).
Proof. done. Qed.

Lemma wp_modf g f (s : shared) (Q : unit -> conv_ftl * shared -> Prop) :
  Q tt (g f, s) -> wp never (modf g) Q (f, s).
Proof. done. Qed.

Lemma wp_on_lm {A} (m : prog line_mgmt A) f s (Q : A -> conv_ftl * shared -> Prop) :
  wp never m (fun a lm => Q a (set_lm lm f, s)) (cf_lm f) -> wp never (on_lm m) Q (f, s).
Proof.
  intros H. unfold on_lm. apply wp_zoom. eapply wp_exit_mono; [exact H|]. by intros ? [].
Qed.

Lemma wp_on_ssd {A} (m : io_prog A) f s (Q : A -> conv_ftl * shared -> Prop) :
  wp never m (fun a p => Q a (set_ssd (fst p) f, snd p)) (cf_ssd f, s) -> wp never (on_ssd m) Q (f, s).
Proof.
  intros H. unfold on_ssd. apply wp_zoom. eapply wp_exit_mono; [exact H|]. by intros ? [].
Qed.

Section ops.
Context (spp : ssdparams) (F : fits spp).
Let G : geometry spp := ft_geometry spp F.
Abbreviation P := (pgs_per_line spp).
Abbreviation T := (blks_per_pl spp).
Abbreviation ppo := (pgs_per_oneshotpg spp).

(** The write pointer at the [k]-th page of line [b]. *)
Definition wp_at (b k : Z) : write_pointer :=
  let p := page_at spp b k in Wp b (p_ch p) (p_lun p) (p_pg p) b 0.

Lemma wp_at_0 b : wp_at b 0 = Wp b 0 0 0 b 0.
Proof. unfold wp_at, page_at. by rewrite !Z.div_0_l, !Z.mod_0_l by (destruct G; lia). Qed.

Lemma wp_get_new_page t b k f s (Q : ppa -> conv_ftl * shared -> Prop) :
  get_wp t f = wp_at b k -> 0 <= b < T -> 0 <= k < P -> Q (page_at spp b k) (f, s) ->
  wp never (get_new_page t) Q (f, s).
Proof.
  intros Ew Hb Hk HQ. unfold get_new_page. apply wp_bind, wp_getf. cbv zeta. rewrite Ew. unfold wp_at.
  cbn [wp_ch wp_lun wp_pl wp_blk wp_pg]. rewrite page_at_fields by done. apply wp_bind, wp_assert; [done|]. by apply wp_ret.
Qed.

Lemma wp_set_maptbl_ent lpn p f s (Q : unit -> conv_ftl * shared -> Prop) :
  spp_of f = spp -> 0 <= lpn < tt_pgs spp -> Q tt (set_maptbl (<[lpn := p]> (cf_maptbl f)) f, s) ->
  wp never (set_maptbl_ent lpn p) Q (f, s).
Proof.
  intros Es Hl HQ. unfold set_maptbl_ent. apply wp_bind, wp_getf. rewrite Es.
  replace ((0 <=? lpn) && (lpn <? tt_pgs spp)) with true by lia. by apply wp_modf.
Qed.

Lemma wp_get_maptbl_ent lpn f s (Q : option ppa -> conv_ftl * shared -> Prop) :
  spp_of f = spp -> 0 <= lpn < tt_pgs spp -> Q (cf_maptbl f !! lpn) (f, s) ->
  wp never (get_maptbl_ent lpn) Q (f, s).
Proof.
  intros Es Hl HQ. unfold get_maptbl_ent. apply wp_bind, wp_getf. rewrite Es.
  by replace ((0 <=? lpn) && (lpn <? tt_pgs spp)) with true by lia.
Qed.

Lemma wp_ppa2pgidx p f s (Q : Z -> conv_ftl * shared -> Prop) :
  spp_of f = spp -> in_geometry spp p = true -> Q (pgidx spp p) (f, s) -> wp never (ppa2pgidx p) Q (f, s).
Proof.
  intros Es Hp HQ. unfold ppa2pgidx. apply wp_bind, wp_getf. rewrite Es. cbv zeta.
  destruct (pgidx_digits _ F p Hp) as [E ?]. apply wp_bind, wp_assert; [rewrite E; lia|]. by apply wp_ret.
Qed.

Lemma wp_set_rmap_ent lpn p f s (Q : unit -> conv_ftl * shared -> Prop) :
  spp_of f = spp -> in_geometry spp p = true ->
  Q tt (set_rmap (<[pgidx spp p := lpn]> (cf_rmap f)) f, s) -> wp never (set_rmap_ent lpn p) Q (f, s).
Proof.
  intros Es Hp HQ. unfold set_rmap_ent. apply wp_bind, wp_ppa2pgidx; [done..|].
  apply wp_bind, wp_getf. by apply wp_modf.
Qed.

Lemma wp_get_rmap_ent p lpn f s (Q : Z -> conv_ftl * shared -> Prop) :
  spp_of f = spp -> in_geometry spp p = true -> cf_rmap f !! pgidx spp p = Some lpn ->
  Q lpn (f, s) -> wp never (get_rmap_ent p) Q (f, s).
Proof.
  intros Es Hp Er HQ. unfold get_rmap_ent. apply wp_bind, wp_ppa2pgidx; [done..|].
  apply wp_bind, wp_getf, wp_ret. by rewrite Er.
Qed.

Lemma wp_check_page p f s (Q : unit -> conv_ftl * shared -> Prop) :
  spp_of f = spp -> in_geometry spp p = true -> Q tt (f, s) -> wp never (check_page p) Q (f, s).
Proof. intros Es Hp HQ. unfold check_page. apply wp_bind, wp_getf. by rewrite Es, Hp. Qed.

(** ** The invariant of one part *)

Record core (vic : option Z) (X : gset Z) (cur : cursors) (exc : option Z) (live : ppa -> Prop)
    (f : conv_ftl) : Prop := {
  co_flash : flash_inv spp (cf_ssd f);
  co_lines : lines_inv spp (cf_ssd f) (cf_lm f) vic X cur;
  co_map : map_inv spp exc live (cf_ssd f) (cf_maptbl f) (cf_rmap f);
  co_cur t : exists b k, cur t = Some (b, k) /\ 0 <= k < P /\ get_wp t f = wp_at b k
}.

Lemma core_sp vic X cur exc live f : core vic X cur exc live f -> spp_of f = spp.
Proof. intros H. apply H. Qed.

(** Pages left under the write pointers and in the free lines. *)
Definition room (cur : cursors) (t : io_type) : Z :=
  match cur t with Some (_, k) => P - k - 1 | None => 0 end.
Definition spare (f : conv_ftl) (cur : cursors) : Z :=
  Z.of_nat (length (lm_free_line_list (cf_lm f))) * P + room cur USER_IO + room cur GC_IO.

Lemma room_range cur t b k : cur t = Some (b, k) -> 0 <= k < P -> 0 <= room cur t < P.
Proof. unfold room. intros ->. lia. Qed.

(** ** A page becomes valid *)

Lemma wp_mark_page_valid t b k vic X cur f s (Q : unit -> conv_ftl * shared -> Prop) :
  flash_inv spp (cf_ssd f) -> lines_inv spp (cf_ssd f) (cf_lm f) vic X cur ->
  cur t = Some (b, k) -> 0 <= k < P ->
  let p := page_at spp b k in
  (forall lm' blk, lines_inv spp (put_pg p PG_VALID (cf_ssd f)) lm' vic X (set_cur cur t (Some (b, k + 1))) ->
     lm_free_line_list lm' = lm_free_line_list (cf_lm f) ->
     flash_inv spp (put_blk p blk (put_pg p PG_VALID (cf_ssd f))) ->
     Q tt (set_lm lm' (set_ssd (put_blk p blk (put_pg p PG_VALID (cf_ssd f))) f), s)) ->
  wp never (mark_page_valid p) Q (f, s).
Proof.
  intros Hd HL Ht Hk p HQ. pose proof (fi_sp _ _ Hd) as Esp.
  assert (Hb : 0 <= b < T) by (eapply line_range; eauto 10).
  destruct (page_at_in _ F b k Hb Hk) as [Hg _]. fold p in Hg.
  destruct (li_cur _ _ _ _ _ _ HL _ _ _ Ht) as [Hkr Hw].
  assert (Hfp : get_pg (cf_ssd f) p = PG_FREE).
  { destruct (decide (get_pg (cf_ssd f) p = PG_FREE)) as [|Hn]; [done|]. apply (Hw k) in Hn; lia. }
  destruct (fi_blk _ _ Hd p Hg) as [Ev Ei].
  pose proof (bstatus_lt _ F PG_VALID _ _ Hd Hg ltac:(rewrite Hfp; discriminate) ltac:(discriminate)) as Hbv.
  destruct (parts_disjoint _ F _ _ _ _ _ (li_parts _ _ _ _ _ _ HL)) as (_ & _ & _ & _ & _ & Dcur).
  destruct (Dcur _ _ _ Ht) as [Hvic _].
  destruct (line_counts _ _ _ _ _ _ HL b Hb Hvic) as (l & El & _ & _ & Elv & Eli).
  pose proof (written_count _ F _ b k Hd Hb Hkr Hw) as Hsum.
  assert (0 <= ninvalid (cf_ssd f) b) by apply mcount_nonneg.
  assert (0 <= nvalid (cf_ssd f) b) by apply mcount_nonneg.
  unfold mark_page_valid. apply wp_bind, wp_getf. rewrite Esp. cbv zeta.
  apply wp_bind, wp_check_page; [done..|]. apply wp_bind, wp_assert; [by rewrite Hfp|].
  apply wp_bind, wp_modf. apply wp_bind, wp_assert; [lia|].
  apply wp_bind, wp_modf. apply wp_on_lm. change (cf_lm (set_ssd _ (set_ssd _ f))) with (cf_lm f).
  apply wp_bind. eapply wp_get_line; [exact El|]. apply wp_bind, wp_assert; [lia|].
  apply wp_modify. change (p_blk p) with b.
  refine (HQ _ (NandBlock _ _ _) _ _ _); [apply (lines_valid _ F); done || lia|done|].
  apply flash_inv_put; [done..|by right| |]; simpl; rewrite ?Ev, ?Ei, bstatus_put by done;
    rewrite Hfp; unfold one; rewrite !(decide_False (P := PG_FREE = _ /\ _)) by (intros [? _]; discriminate).
  - rewrite decide_True by done. lia.
  - rewrite decide_False by (intros [? _]; discriminate). lia.
Qed.

(** ** The write pointer moves on *)

Lemma lines_inv_ext d lm vic X (cur cur' : cursors) :
  (forall t, cur t = cur' t) -> lines_inv spp d lm vic X cur -> lines_inv spp d lm vic X cur'.
Proof.
  intros E [I1 I2 I3 I4 I5 I6 I7 I8 I9 I10 I11 I12]. split; try done.
  - unfold parts, cur_lines in *. by rewrite <- !E.
  - intros t. rewrite <- E. apply I9.
Qed.

Lemma wp_at_digits b wl lun ch off : digits_ok spp wl lun ch off ->
  wp_at b (digits spp wl lun ch off) = Wp b ch lun (wl * ppo + off) b 0.
Proof. intros Hd. unfold wp_at. by rewrite page_at_digits. Qed.

(** The next page in the same line, by the digit that is counted up. *)
Lemma next_digits wl lun ch off : digits_ok spp wl lun ch off ->
  let k := digits spp wl lun ch off in
  if decide (off + 1 < ppo) then k + 1 = digits spp wl lun ch (off + 1)
  else if decide (ch + 1 < nchs spp) then k + 1 = digits spp wl lun (ch + 1) 0
  else if decide (lun + 1 < luns_per_ch spp) then k + 1 = digits spp wl (lun + 1) 0 0
  else if decide (wl + 1 < oneshotpgs_per_blk spp) then k + 1 = digits spp (wl + 1) 0 0 0
  else k + 1 = P.
Proof.
  intros (Hw & Hl & Hc & Ho) k. unfold k, digits. repeat case_decide.
  - ring.
  - assert (off = ppo - 1) as -> by lia. ring.
  - assert (off = ppo - 1) as -> by lia. assert (ch = nchs spp - 1) as -> by lia. ring.
  - assert (off = ppo - 1) as -> by lia. assert (ch = nchs spp - 1) as -> by lia.
    assert (lun = luns_per_ch spp - 1) as -> by lia. ring.
  - assert (off = ppo - 1) as -> by lia. assert (ch = nchs spp - 1) as -> by lia.
    assert (lun = luns_per_ch spp - 1) as -> by lia.
    assert (wl = oneshotpgs_per_blk spp - 1) as -> by lia. rewrite (P_digits _ F). ring.
Qed.

Lemma wp_check_addr {St} a max (Q : unit -> St -> Prop) st :
  0 <= a < max -> Q tt st -> wp never (check_addr a max) Q st.
Proof. intros Ha HQ. unfold check_addr. apply wp_assert; [lia|done]. Qed.

Section advance.
Context (t : io_type) (b k : Z) (vic : option Z) (X : gset Z) (cur : cursors) (f : conv_ftl) (s : shared).
Context (Hd : flash_inv spp (cf_ssd f)) (HL : lines_inv spp (cf_ssd f) (cf_lm f) vic X cur).
Context (Ht : cur t = Some (b, k + 1)) (Hk : 0 <= k < P) (Hwp : get_wp t f = wp_at b k).
Context (Hfree : k + 1 = P -> lm_free_line_list (cf_lm f) <> []).
Context (Q : unit -> conv_ftl * shared -> Prop).
Context (HQ : forall lm' X' b' k',
  lines_inv spp (cf_ssd f) lm' vic X' (set_cur cur t (Some (b', k'))) -> 0 <= k' < P ->
  Z.of_nat (length (lm_free_line_list lm')) * P + (P - k' - 1) =
  Z.of_nat (length (lm_free_line_list (cf_lm f))) * P + (P - k - 1) - 1 ->
  Q tt (set_wp t (wp_at b' k') (set_lm lm' f), s)).

Lemma wp_advance_same w : k + 1 < P -> w = wp_at b (k + 1) ->
  wp never (modf (set_wp t w)) Q (f, s).
Proof.
  intros Hlt ->. apply wp_modf.
  replace (set_wp t (wp_at b (k + 1)) f) with (set_wp t (wp_at b (k + 1)) (set_lm (cf_lm f) f))
    by (destruct f, t; done).
  apply (HQ _ X); [|lia|lia]. eapply lines_inv_ext; [|exact HL]. intros t'. unfold set_cur.
  case_decide; by subst.
Qed.

(** The line is used up: the pointer moves to a free one. *)
Lemma wp_advance_line : k + 1 = P ->
  wp never (_ ← on_lm (retire_line spp b);
            _ ← check_addr b T;
            r ← on_lm get_next_free_line;
            match r with
            | None => undefined
            | Some i =>
              l ← on_lm (get_line i);
              _ ← check_addr (ln_id l) T;
              _ ← assert (0 =? 0);
              modf (set_wp t (Wp i 0 0 0 (ln_id l) 0))
            end) Q (f, s).
Proof.
  intros Hlast. assert (Hb : 0 <= b < T) by (eapply line_range; eauto 10).
  rewrite Hlast in Ht. apply wp_bind, wp_on_lm.
  eapply (wp_retire_line _ F _ _ _ _ _ Hd HL); [exact Ht|]. intros lm1 X1 HL1 Ef1.
  apply wp_bind, wp_check_addr; [done|]. apply wp_bind, wp_on_lm. cbn [cf_lm set_lm].
  eapply (wp_get_next_free_line _ F _ _ _ _ _ HL1 t).
  { unfold set_cur. by rewrite decide_True. }
  { rewrite Ef1. auto. }
  intros i rest Er lm2 HL2.
  assert (Hi : 0 <= i < T).
  { eapply (line_range _ F _ _ _ _ _ HL2). right. right. right. left. exists t, 0.
    unfold set_cur. by rewrite decide_True. }
  destruct (li_table _ _ _ _ _ _ HL2 i Hi) as (l & El & Hid & _).
  apply wp_bind, wp_on_lm. eapply wp_get_line; [exact El|]. rewrite Hid.
  apply wp_bind, wp_check_addr; [done|]. apply wp_bind, wp_assert; [done|]. apply wp_modf.
  rewrite <- (wp_at_0 i).
  replace (set_lm lm2 (set_lm lm2 (set_lm lm1 f))) with (set_lm lm2 f) by done.
  apply (HQ _ X1); [|lia|].
  - eapply lines_inv_ext; [|exact HL2]. intros t'. unfold set_cur. by repeat case_decide.
  - simpl. rewrite Ef1 in Er. rewrite Er. simpl length. lia.
Qed.

Lemma wp_advance_write_pointer : wp never (advance_write_pointer t) Q (f, s).
Proof.
  assert (Hb : 0 <= b < T) by (eapply line_range; eauto 10).
  destruct (digits_of _ F k Hk) as (wl & lun & ch & off & Hdg & Ek).
  pose proof (next_digits wl lun ch off Hdg) as Hnext. rewrite <- Ek in Hnext. cbv zeta in Hnext.
  pose proof (wp_at_digits b wl lun ch off Hdg) as Ew. rewrite <- Ek in Ew.
  pose proof Hdg as (Hw & Hl & Hc & Ho). pose proof F as [_ F1 F2 F3 F4 F5 F6].
  pose proof (ge_blk_oneshot _ G) as Eb. rewrite Eb in F5.
  assert (Hpg : 0 <= wl * ppo + off < oneshotpgs_per_blk spp * ppo) by nia.
  assert (Hwn : (wl + 1) * ppo <= oneshotpgs_per_blk spp * ppo) by nia.
  unfold advance_write_pointer. apply wp_bind, wp_getf. cbv zeta. rewrite (fi_sp _ _ Hd), Hwp, Ew.
  cbn [wp_curline wp_ch wp_lun wp_pg wp_blk wp_pl].
  replace (ppo =? 0) with false by lia. apply wp_bind, wp_check_addr; [lia|].
  rewrite (wrap_small 32 (wl * ppo + off + 1)) by (unfold in_word; lia).
  replace (wl * ppo + off + 1) with (wl * ppo + (off + 1)) by lia.
  destruct (decide (off + 1 < ppo)).
  { rewrite digit_mod by lia. replace (off + 1 =? 0) with false by lia. cbn [negb].
    assert (Hdn : digits_ok spp wl lun ch (off + 1)) by (split_and!; lia).
    apply wp_advance_same; rewrite Hnext; [by apply digits_range|]. by rewrite wp_at_digits. }
  assert (off = ppo - 1) as Eo by lia.
  replace (wl * ppo + (off + 1)) with ((wl + 1) * ppo) by (rewrite Eo; ring).
  rewrite Z.mod_mul by lia. cbn [Z.eqb negb].
  rewrite (wrap_small 32 ((wl + 1) * ppo - ppo)) by (unfold in_word; nia).
  apply wp_bind, wp_check_addr; [done|].
  rewrite (wrap_small 32 (ch + 1)) by (unfold in_word; lia).
  destruct (decide (ch + 1 < nchs spp)).
  { replace (ch + 1 =? nchs spp) with false by lia. cbn [negb].
    assert (Hdn : digits_ok spp wl lun (ch + 1) 0) by (split_and!; lia).
    apply wp_advance_same; rewrite Hnext; [by apply digits_range|]. rewrite wp_at_digits by done.
    f_equal. ring. }
  replace (ch + 1 =? nchs spp) with true by lia. cbn [negb].
  apply wp_bind, wp_check_addr; [done|]. rewrite (wrap_small 32 (lun + 1)) by (unfold in_word; lia).
  destruct (decide (lun + 1 < luns_per_ch spp)).
  { replace (lun + 1 =? luns_per_ch spp) with false by lia. cbn [negb].
    assert (Hdn : digits_ok spp wl (lun + 1) 0 0) by (split_and!; lia).
    apply wp_advance_same; rewrite Hnext; [by apply digits_range|]. rewrite wp_at_digits by done.
    f_equal. ring. }
  replace (lun + 1 =? luns_per_ch spp) with true by lia. cbn [negb].
  replace ((wl + 1) * ppo - ppo + ppo) with ((wl + 1) * ppo) by ring.
  rewrite (wrap_small 32 ((wl + 1) * ppo)) by (unfold in_word; nia). rewrite Eb.
  destruct (decide (wl + 1 < oneshotpgs_per_blk spp)).
  { replace ((wl + 1) * ppo =? ppo * oneshotpgs_per_blk spp) with false by (symmetry; apply Z.eqb_neq; nia).
    cbn [negb]. assert (Hdn : digits_ok spp (wl + 1) 0 0 0) by (split_and!; lia).
    apply wp_advance_same; rewrite Hnext; [by apply digits_range|]. rewrite wp_at_digits by done.
    f_equal. ring. }
  replace ((wl + 1) * ppo =? ppo * oneshotpgs_per_blk spp) with true by (symmetry; apply Z.eqb_eq; nia).
  cbn [negb]. by apply wp_advance_line.
Qed.

End advance.

(** The invariant of the lines looks at the pages only. *)
Lemma lines_inv_pages d d' lm vic X cur :
  sd_pg d' = sd_pg d -> lines_inv spp d lm vic X cur -> lines_inv spp d' lm vic X cur.
Proof.
  intros E [I1 I2 I3 I4 I5 I6 I7 I8 I9 I10 I11 I12].
  assert (Eg : forall q, get_pg d' q = get_pg d q) by (intros; unfold get_pg; by rewrite E).
  assert (Hw : forall b w, written spp d b w -> written spp d' b w).
  { intros b w Hw k Hk. rewrite Eg. by apply Hw. }
  assert (Hn : forall x b, nstatus x d' b = nstatus x d b) by (intros; by apply nstatus_flash).
  split; auto.
  - intros b Hb. destruct (I2 b Hb) as (l & ? & ? & ? & ?). exists l. by rewrite !Hn.
  - intros b Hb. rewrite Hn. destruct (I7 b Hb). auto.
  - intros b Hb. rewrite Hn. destruct (I8 b Hb). auto.
  - intros t b k Ht. destruct (I9 _ _ _ Ht). auto.
Qed.

(** ** Installing a new page *)

Lemma get_wp_set t t' w f : get_wp t' (set_wp t w f) = if decide (t' = t) then w else get_wp t' f.
Proof. by destruct t, t'. Qed.

Lemma wp_install {A} t b k lpn vic X cur live f s (K : fprog A) (Q : A -> conv_ftl * shared -> Prop) :
  core vic X cur (Some lpn) live f -> cur t = Some (b, k) -> live (page_at spp b k) ->
  0 <= lpn < tt_pgs spp -> (k + 1 = P -> lm_free_line_list (cf_lm f) <> []) ->
  let p := page_at spp b k in
  (forall f' X' cur', core vic X' cur' None live f' ->
     cf_maptbl f' = <[lpn := p]> (cf_maptbl f) -> spare f' cur' = spare f cur - 1 ->
     (forall t', t' <> t -> cur' t' = cur t') ->
     cf_wfc f' = cf_wfc f -> cf_cp f' = cf_cp f ->
     (forall q, q <> p -> get_pg (cf_ssd f') q = get_pg (cf_ssd f) q) ->
     wp never K Q (f', s)) ->
  wp never (_ ← set_maptbl_ent lpn p; _ ← set_rmap_ent lpn p; _ ← mark_page_valid p;
            _ ← advance_write_pointer t; K) Q (f, s).
Proof.
  intros HC Ht Hlive Hlpn Hfree p HK. pose proof HC as [Hd HL HM Hcur].
  pose proof (core_sp _ _ _ _ _ _ HC) as Esp. destruct (Hcur t) as (b' & k' & Ht' & Hk & Hwp).
  assert (b' = b /\ k' = k) as [-> ->] by (rewrite Ht in Ht'; by simplify_eq).
  assert (Hb : 0 <= b < T) by (eapply line_range; eauto 10).
  destruct (page_at_in _ F b k Hb Hk) as [Hg _]. fold p in Hg.
  destruct (li_cur _ _ _ _ _ _ HL _ _ _ Ht) as [_ Hw].
  assert (Hfp : get_pg (cf_ssd f) p = PG_FREE).
  { destruct (decide (get_pg (cf_ssd f) p = PG_FREE)) as [|Hn]; [done|]. apply (Hw k) in Hn; lia. }
  apply wp_bind, wp_set_maptbl_ent; [done..|]. apply wp_bind, wp_set_rmap_ent; [done..|].
  apply wp_bind. eapply (wp_mark_page_valid t b k vic X cur); try done.
  cbn [cf_ssd cf_lm cf_rmap set_rmap set_maptbl]. intros lm1 blk HL1 Ef1 Hd1.
  apply wp_bind. eapply (wp_advance_write_pointer t b k vic X (set_cur cur t (Some (b, k + 1)))); try done.
  - eapply lines_inv_pages; [|exact HL1]. done.
  - unfold set_cur. by rewrite decide_True.
  - simpl. rewrite Ef1. done.
  - simpl. intros lm2 X2 b2 k2 HL2 Hk2 Hspare. rewrite Ef1 in Hspare.
    eapply (HK _ X2 (set_cur cur t (Some (b2, k2)))).
    + split.
      * by destruct t.
      * assert (E : lines_inv spp (put_blk p blk (put_pg p PG_VALID (cf_ssd f))) lm2 vic X2
          (set_cur cur t (Some (b2, k2)))); [|by destruct t].
        eapply lines_inv_ext; [|exact HL2]. intros t'. unfold set_cur. by repeat case_decide.
      * assert (E : map_inv spp None live (put_blk p blk (put_pg p PG_VALID (cf_ssd f)))
          (<[lpn := p]> (cf_maptbl f)) (<[pgidx spp p := lpn]> (cf_rmap f))); [|by destruct t].
        eapply map_inv_frame; [|by apply map_install]. done.
      * intros t'. rewrite get_wp_set. unfold set_cur. case_decide; [by exists b2, k2|].
        destruct (Hcur t') as (b3 & k3 & ? & ? & Hw3). exists b3, k3. split; [done|]. split; [done|].
        rewrite <- Hw3. by destruct t'.
    + by destruct t.
    + unfold spare, room, set_cur. destruct t; simpl; rewrite Ht; lia.
    + intros t' Hne. unfold set_cur. by rewrite decide_False.
    + by destruct t.
    + by destruct t.
    + intros q Hq. assert (E : get_pg (put_pg p PG_VALID (cf_ssd f)) q = get_pg (cf_ssd f) q)
        by (rewrite get_pg_put; by rewrite decide_False). by destruct t.
Qed.

(** ** Writing a logical page *)

Abbreviation every := (fun _ : ppa => True).

Lemma wp_mark_page_invalid lpn p X cur f s (Q : unit -> conv_ftl * shared -> Prop) :
  core None X cur None every f -> cf_maptbl f !! lpn = Some p ->
  (forall f' X', core None X' cur (Some lpn) every f' -> cf_maptbl f' = cf_maptbl f ->
     lm_free_line_list (cf_lm f') = lm_free_line_list (cf_lm f) ->
     cf_wfc f' = cf_wfc f -> cf_cp f' = cf_cp f -> Q tt (f', s)) ->
  wp never (_ ← mark_page_invalid p; set_rmap_ent INVALID_LPN p) Q (f, s).
Proof.
  intros HC Em HQ. pose proof HC as [Hd HL HM Hcur]. pose proof (core_sp _ _ _ _ _ _ HC) as Esp.
  destruct (mi_mapped _ _ _ _ _ _ HM lpn p) as (Hlpn & Hg & Hv & Hr & _); [done..|].
  destruct (fi_blk _ _ Hd p Hg) as [Ev Ei].
  pose proof (bstatus_lt _ F PG_INVALID _ _ Hd Hg ltac:(rewrite Hv; discriminate) ltac:(discriminate)) as Hbi.
  pose proof (bstatus_pos PG_VALID _ _ Hv ltac:(discriminate)) as Hbv.
  pose proof (bstatus_le _ F PG_VALID _ _ Hd Hg) as Hbl.
  apply wp_bind. unfold mark_page_invalid. apply wp_bind, wp_getf. rewrite Esp. cbv zeta.
  apply wp_bind, wp_check_page; [done..|]. apply wp_bind, wp_assert; [by rewrite Hv|].
  apply wp_bind, wp_modf. apply wp_bind, wp_assert; [lia|]. apply wp_bind, wp_assert; [lia|].
  apply wp_bind, wp_modf. apply wp_on_lm.
  eapply (wp_invalidate_in_line _ F (cf_ssd f) (cf_lm f) None X cur Hd HL p Hv); [done| |].
  { intros t b k Ht. destruct (Hcur t) as (b' & k' & Ht' & ? & _). rewrite Ht in Ht'. simplify_eq. lia. }
  intros lm' X' HL' Ef. apply wp_set_rmap_ent; [done..|]. cbn [cf_rmap set_lm set_ssd].
  apply (HQ _ X'); try done. split; cbn [cf_ssd cf_lm cf_maptbl cf_rmap set_rmap set_lm set_ssd].
  - apply flash_inv_put; [done..|by left| |]; simpl; rewrite ?Ev, ?Ei, bstatus_put by done;
      rewrite Hv; unfold one.
    + rewrite decide_True by done. rewrite decide_False by (intros [? _]; discriminate). lia.
    + rewrite decide_False by (intros [? _]; discriminate). rewrite decide_True by done. lia.
  - eapply lines_inv_pages; [|exact HL']. done.
  - eapply map_inv_frame; [|by eapply (map_invalidate _ F)]. done.
  - intros t. destruct (Hcur t) as (b & k & ? & ? & Hw). exists b, k. split; [done|]. split; [done|].
    rewrite <- Hw. by destruct t.
Qed.

Lemma core_live_ext vic X cur exc live live' f :
  (forall p, get_pg (cf_ssd f) p = PG_VALID -> live p <-> live' p) ->
  core vic X cur exc live f -> core vic X cur exc live' f.
Proof. intros Hl [H1 H2 H3 H4]. split; try done. by eapply map_live_ext. Qed.

Lemma wp_write_mapping lpn X cur f s (Q : ppa -> conv_ftl * shared -> Prop) :
  core None X cur None every f -> 0 <= lpn < tt_pgs spp ->
  (room cur USER_IO = 0 -> lm_free_line_list (cf_lm f) <> []) ->
  (forall p f' X' cur', in_geometry spp p = true -> core None X' cur' None every f' ->
     cf_maptbl f' = <[lpn := p]> (cf_maptbl f) -> spare f' cur' = spare f cur - 1 ->
     cf_wfc f' = cf_wfc f -> cf_cp f' = cf_cp f -> Q p (f', s)) ->
  wp never (write_mapping lpn) Q (f, s).
Proof.
  intros HC Hlpn Hfree HQ. pose proof (core_sp _ _ _ _ _ _ HC) as Esp. unfold write_mapping.
  apply wp_bind, wp_get_maptbl_ent; [done..|]. apply wp_bind.
  assert (Hnew : forall f1 X1, core None X1 cur (Some lpn) every f1 -> cf_maptbl f1 = cf_maptbl f ->
    lm_free_line_list (cf_lm f1) = lm_free_line_list (cf_lm f) ->
    cf_wfc f1 = cf_wfc f -> cf_cp f1 = cf_cp f ->
    wp never (p ← get_new_page USER_IO; _ ← set_maptbl_ent lpn p; _ ← set_rmap_ent lpn p;
              _ ← mark_page_valid p; _ ← advance_write_pointer USER_IO; mret p) Q (f1, s)).
  { intros f1 X1 HC1 Em Ef Ew Ec. destruct (co_cur _ _ _ _ _ _ HC1 USER_IO) as (b & k & Ht & Hk & Hwp).
    assert (Hb : 0 <= b < T) by (eapply (line_range _ F _ _ _ _ _ (co_lines _ _ _ _ _ _ HC1)); eauto 10).
    apply wp_bind. eapply wp_get_new_page; [exact Hwp|done..|].
    eapply (wp_install USER_IO b k lpn); [exact HC1|done..| |].
    - intros Hl. rewrite Ef. apply Hfree. unfold room. rewrite Ht. lia.
    - intros f' X' cur' HC' Em' Hs' _ Ew' Ec' _. apply wp_ret, (HQ _ _ X' cur'); try done; try congruence.
      + by apply (page_at_in _ F).
      + rewrite Hs'. unfold spare. by rewrite Ef. }
  destruct (cf_maptbl f !! lpn) as [p|] eqn:Em.
  - eapply wp_mark_page_invalid; [done..|]. intros. by eapply Hnew.
  - apply wp_ret. apply (Hnew f X); try done. destruct HC as [H1 H2 H3 H4]. split; try done.
    by apply map_unmapped.
Qed.

End ops.
