(* ===== verification/ConvFtlGc.v ===== *)
(** * Garbage collection keeps the mapping (for ConvFtlProps)

    While a victim line is collected, [todo] are its pages that are still to be
    visited.  Every valid page outside the line or in [todo] belongs to a logical
    page; the pages that were visited are stale and are erased with their block. *)
From S2P Require Import Prelude Pqueue PqueueProps ChannelModel Ssd SsdProps.
From S2P Require Import ConvFtl ConvFtlSpec ConvFtlInv ConvFtlLines ConvFtlMap ConvFtlOps.

Section gc.
Context (spp : ssdparams) (F : fits spp).
Let G : geometry spp := ft_geometry spp F.
Abbreviation P := (pgs_per_line spp).
Abbreviation T := (blks_per_pl spp).
Abbreviation core := (core spp).
Abbreviation spare := (spare spp).
Abbreviation room := (room spp).

(** ** NAND commands keep the invariant *)

Lemma core_flash vic X cur exc live f d :
  core vic X cur exc live f -> same_flash (cf_ssd f) d -> ssd_ok d ->
  core vic X cur exc live (set_ssd d f).
Proof.
  intros [H1 H2 H3 H4] Hs Hok. pose proof Hs as (E1 & E2 & E3). split; cbn [cf_ssd set_ssd].
  - by eapply flash_inv_times.
  - by eapply lines_inv_pages.
  - eapply map_inv_frame; [|exact H3]. intros p _. unfold get_pg. by rewrite E2.
  - intros t. destruct (H4 t) as (b & k & ? & ? & Hw). exists b, k. split; [done|]. split; [done|].
    rewrite <- Hw. by destruct t.
Qed.

(** What happens outside the flash arrays, the lines and the tables. *)
Definition steady (s s' : shared) : Prop :=
  chan_ok (sh_pcie s') /\ sh_wbuf s' = sh_wbuf s /\ sh_releases s' = sh_releases s.

Lemma wp_nand ncmd vic X cur exc live f s (Q : Z -> conv_ftl * shared -> Prop) :
  core vic X cur exc live f -> chan_ok (sh_pcie s) -> in_geometry spp (nc_ppa ncmd) = true ->
  (nc_cmd ncmd = NAND_READ -> 0 < nc_xfer_size ncmd) ->
  (forall r d s', core vic X cur exc live (set_ssd d f) -> sd_pg d = sd_pg (cf_ssd f) -> steady s s' ->
     Q r (set_ssd d f, s')) ->
  wp never (on_ssd (ssd_advance_nand ncmd)) Q (f, s).
Proof.
  intros HC Hp Hg Hx HQ. pose proof (core_sp _ _ _ _ _ _ _ HC) as Esp.
  apply wp_on_ssd, wp_ssd_advance_nand; [|done|by rewrite Esp|done|].
  - apply (fi_ok _ _ (co_flash _ _ _ _ _ _ _ HC)).
  - intros r d' s' (? & ? & [= <- <-] & Hs & Hok & Hp' & Hw & Hr).
    apply HQ; [by apply core_flash|apply Hs|done].
Qed.

(** ** The state of a collection *)

Definition valid_in (d : ssd) (todo : list ppa) : Z :=
  Z.of_nat (length (filter (fun p => get_pg d p = PG_VALID) todo)).

Lemma valid_in_cons d p todo :
  valid_in d (p :: todo) = (if decide (get_pg d p = PG_VALID) then 1 else 0) + valid_in d todo.
Proof. unfold valid_in. rewrite filter_cons. case_decide; simpl; lia. Qed.

Lemma valid_in_nonneg d todo : 0 <= valid_in d todo.
Proof. unfold valid_in. lia. Qed.

Lemma valid_in_ext d d' todo : (forall p, p ∈ todo -> get_pg d' p = get_pg d p) ->
  valid_in d' todo = valid_in d todo.
Proof.
  induction todo as [|p todo IH]; intros H; [done|].
  rewrite !valid_in_cons, IH by (intros; apply H; by right). by rewrite H by left.
Qed.

(** What a collection of line [b] leaves alone: the set of mapped logical pages, the
    credits, the parameters, and the pages that are left once the victim is free. *)
Record gc_const := GcConst {
  gk_dom : gset Z; gk_wfc : write_flow_control; gk_cp : convparams; gk_spare : Z;
  gk_wbuf : buffer; gk_releases : list (Z * Z * Z)
}.

Record collecting (b : Z) (todo : list ppa) (pend : ppa -> Prop) (c : gc_const)
    (st : conv_ftl * shared) : Prop := {
  cg_core : exists X cur,
    core (Some b) X cur None (fun p => p_blk p <> b \/ p ∈ todo) (fst st) /\
    valid_in (cf_ssd (fst st)) todo <=
      Z.of_nat (length (lm_free_line_list (cf_lm (fst st)))) * P + room cur GC_IO /\
    spare (fst st) cur - valid_in (cf_ssd (fst st)) todo = gk_spare c;
  cg_todo p : p ∈ todo -> in_line spp b p /\ get_pg (cf_ssd (fst st)) p <> PG_FREE;
  cg_pend p : in_line spp b p -> get_pg (cf_ssd (fst st)) p = PG_FREE \/ pend p;
  cg_dom : dom (cf_maptbl (fst st)) = gk_dom c;
  cg_wfc : cf_wfc (fst st) = gk_wfc c;
  cg_cp : cf_cp (fst st) = gk_cp c;
  cg_pcie : chan_ok (sh_pcie (snd st));
  cg_wbuf : sh_wbuf (snd st) = gk_wbuf c;
  cg_rel : sh_releases (snd st) = gk_releases c
}.

Section one_victim.
Context (b : Z) (pend : ppa -> Prop) (c : gc_const) (Hb : 0 <= b < T).

(** A change of times. *)
Lemma collecting_times todo f s d s' :
  collecting b todo pend c (f, s) -> same_flash (cf_ssd f) d -> ssd_ok d -> steady s s' ->
  collecting b todo pend c (set_ssd d f, s').
Proof.
  intros [(X & cur & HC & Hr & Hs) H2 H3 H4 H5 H6 H7 H8 H9] Hf Hok (Hp & Hw & Hrel).
  assert (Eg : forall p, get_pg d p = get_pg (cf_ssd f) p).
  { destruct Hf as (_ & E & _). intros p. unfold get_pg. by rewrite E. }
  assert (Ev : valid_in d todo = valid_in (cf_ssd f) todo) by (by apply valid_in_ext).
  split; cbn [fst snd cf_ssd cf_lm cf_maptbl cf_wfc cf_cp set_ssd] in *; try done; try congruence.
  - exists X, cur. split; [by apply core_flash|]. by rewrite Ev.
  - intros p Hin. rewrite Eg. by apply H2.
  - intros p Hin. rewrite Eg. by apply H3.
Qed.

Lemma wp_nand_collecting ncmd todo f s (Q : Z -> conv_ftl * shared -> Prop) :
  collecting b todo pend c (f, s) -> in_geometry spp (nc_ppa ncmd) = true ->
  (nc_cmd ncmd = NAND_READ -> 0 < nc_xfer_size ncmd) ->
  (forall r st, collecting b todo pend c st -> Q r st) ->
  wp never (on_ssd (ssd_advance_nand ncmd)) Q (f, s).
Proof.
  intros HG Hg Hx HQ. pose proof (cg_core _ _ _ _ _ HG) as (X & cur & HC & _).
  pose proof (core_sp _ _ _ _ _ _ _ HC) as Esp. simpl in Esp.
  apply wp_on_ssd, wp_ssd_advance_nand; [|apply (cg_pcie _ _ _ _ _ HG)|by rewrite Esp|done|].
  - apply (fi_ok _ _ (co_flash _ _ _ _ _ _ _ HC)).
  - intros r d' s' (? & ? & [= <- <-] & Hs & Hok & Hp' & Hw & Hr). apply HQ.
    by eapply collecting_times.
Qed.

(** A page that is not valid is passed over. *)
Lemma collecting_drop p todo st :
  collecting b (p :: todo) pend c st -> p ∉ todo -> get_pg (cf_ssd (fst st)) p <> PG_VALID ->
  collecting b todo pend c st.
Proof.
  intros [(X & cur & HC & Hr & Hs) H2 H3 H4 H5 H6 H7 H8 H9] Hp Hv.
  rewrite valid_in_cons, decide_False in Hr, Hs by done.
  destruct (H2 p) as [[_ Epb] _]; [by left|].
  split; try done; [|intros q Hq; apply H2; by right].
  exists X, cur. split; [|by rewrite Z.add_0_l in Hr, Hs].
  eapply core_live_ext; [|exact HC]. intros q Hvq. simpl.
  assert (q <> p) by congruence. set_solver.
Qed.

(** ** A valid page moves to the line under the second write pointer *)

Lemma wp_gc_write_page p todo st :
  collecting b (p :: todo) pend c st -> p ∉ todo -> get_pg (cf_ssd (fst st)) p = PG_VALID ->
  wp never (gc_write_page p) (fun _ => collecting b todo pend c) st.
Proof.
  destruct st as [f s]. intros HG Hp Hv. pose proof HG as [(X & cur & HC & Hr & Hs) H2 H3 H4 H5 H6 H7 H8 H9].
  cbn [fst snd] in *. rewrite valid_in_cons, decide_True in Hr, Hs by done.
  pose proof (valid_in_nonneg (cf_ssd f) todo) as Hnn. pose proof (core_sp _ _ _ _ _ _ _ HC) as Esp.
  destruct (H2 p) as [[Hpg Epb] _]; [by left|].
  pose proof HC as [K1 K2 K3 K4].
  destruct (map_take _ p _ _ _ _ K3 Hv) as (lpn & Hlpn & _ & Er & Em & HM); [right; by left|].
  destruct (K4 GC_IO) as (b' & k & Ht & Hk & Hw).
  assert (Hne : b' <> b).
  { destruct (parts_disjoint _ F _ _ _ _ _ (li_parts _ _ _ _ _ _ K2)) as (_ & _ & _ & _ & _ & D).
    destruct (D _ _ _ Ht) as [Hd _]. congruence. }
  assert (Hb' : 0 <= b' < T) by (eapply (line_range _ F _ _ _ _ _ K2); eauto 10).
  destruct (page_at_in _ F b' k Hb' Hk) as [Hgn Ebn].
  unfold gc_write_page. apply wp_bind, wp_getf. cbv zeta.
  apply wp_bind. eapply (wp_get_rmap_ent _ F); [done..|].
  apply wp_bind, wp_assert; [unfold valid_lpn; rewrite Esp; lia|].
  apply wp_bind. eapply (wp_get_new_page _ F); [exact Hw|done..|].
  eapply (wp_install _ F GC_IO b' k lpn (Some b) X cur (fun q => p_blk q <> b \/ q ∈ todo)); try done.
  - split; try done. eapply map_live_ext; [|exact HM]. intros q Hvq. simpl.
    destruct (decide (q = p)) as [->|]; [|set_solver]. split; [naive_solver|]. intros []; done.
  - left. by rewrite Ebn.
  - intros Hl He. rewrite He in Hr. unfold ConvFtlOps.room in Hr. rewrite Ht in Hr. simpl in Hr. lia.
  - intros f' X' cur' HC' Em' Hs' Hcur' Ew' Ec' Hpg'.
    set (pn := page_at spp b' k) in *.
    assert (Hsame : forall q, p_blk q = b -> get_pg (cf_ssd f') q = get_pg (cf_ssd f) q).
    { intros q Hq. apply Hpg'. intros ->. congruence. }
    assert (HG' : collecting b todo pend c (f', s)).
    { assert (Ev : valid_in (cf_ssd f') todo = valid_in (cf_ssd f) todo).
      { apply valid_in_ext. intros q Hq. apply Hsame. destruct (H2 q) as [[_ ?] _]; [by right|done]. }
      split; cbn [fst snd] in *; try done; try congruence.
      - exists X', cur'. split; [done|]. rewrite Ev. split; [|lia].
        unfold ConvFtlOps.spare, ConvFtlOps.room in Hs', Hr |- *.
        rewrite (Hcur' USER_IO) in Hs' by done. lia.
      - intros q Hq. destruct (H2 q) as [Hin ?]; [by right|]. split; [done|]. rewrite Hsame; [done|]. apply Hin.
      - intros q Hq. rewrite Hsame by apply Hq. by apply H3.
      - rewrite Em', dom_insert_L. assert (lpn ∈ dom (cf_maptbl f)) by (apply elem_of_dom; eauto). set_solver. }
    destruct (enable_gc_delay (cf_cp f)); [|by apply wp_ret].
    apply wp_bind. rewrite Esp. destruct (last_pg_in_wordline spp pn);
      (eapply wp_nand_collecting; [exact HG'|done|done|]); intros r st HGt; by apply wp_ret.
Qed.

Lemma wp_copy_page p todo st :
  collecting b (p :: todo) pend c st -> p ∉ todo ->
  wp never (copy_page p) (fun _ => collecting b todo pend c) st.
Proof.
  intros HG Hp. destruct st as [f s]. pose proof HG as [(X & cur & HC & _) H2 _ _ _ _ _ _ _].
  destruct (H2 p) as [[Hg _] _]; [by left|]. unfold copy_page.
  apply wp_bind. eapply (wp_check_page spp); [by apply (core_sp _ _ _ _ _ _ _ HC)|done|].
  apply wp_bind, wp_getf. destruct (Z.eqb_spec (get_pg (cf_ssd f) p) PG_VALID).
  - by apply wp_gc_write_page.
  - by apply wp_ret, (collecting_drop p).
Qed.

(** ** One flash page *)

Lemma wp_count_valid ps n f s (Q : Z -> conv_ftl * shared -> Prop) :
  spp_of f = spp ->
  (forall p, p ∈ ps -> in_geometry spp p = true /\ get_pg (cf_ssd f) p <> PG_FREE) ->
  Q (n + valid_in (cf_ssd f) ps) (f, s) -> wp never (count_valid ps n) Q (f, s).
Proof.
  intros Esp. revert n. induction ps as [|p ps IH]; intros n Hps HQ; cbn [count_valid].
  - apply wp_ret. unfold valid_in in HQ. simpl in HQ. by rewrite Z.add_0_r in HQ.
  - destruct (Hps p) as [Hg Hf]; [by left|]. apply wp_bind. eapply (wp_check_page spp); [done..|].
    apply wp_bind, wp_getf. cbv zeta. apply wp_bind, wp_assert.
    { by destruct (Z.eqb_spec (get_pg (cf_ssd f) p) PG_FREE). }
    apply IH; [intros; apply Hps; by right|]. rewrite valid_in_cons in HQ.
    destruct (Z.eqb_spec (get_pg (cf_ssd f) p) PG_VALID); case_decide; try done.
    by rewrite <- Z.add_assoc.
Qed.

Lemma wp_copy_pages ps todo st :
  collecting b (ps ++ todo) pend c st -> NoDup (ps ++ todo) ->
  wp never (for_each ps copy_page) (fun _ => collecting b todo pend c) st.
Proof.
  intros HG Hnd. eapply wp_mono.
  - apply (wp_for_each _ (fun l st => collecting b (l ++ todo) pend c st /\ NoDup (l ++ todo))); [done|].
    intros p l st' [HG' Hnd']. simpl in *. inversion_clear Hnd'.
    eapply wp_mono; [by apply wp_copy_page|]. by intros.
  - by intros [] st' [? _].
Qed.

Lemma collecting_drops ps todo st :
  collecting b (ps ++ todo) pend c st -> NoDup (ps ++ todo) -> valid_in (cf_ssd (fst st)) ps <= 0 ->
  collecting b todo pend c st.
Proof.
  induction ps as [|p ps IH]; intros HG Hnd Hv; [done|]. simpl in *. inversion_clear Hnd.
  rewrite valid_in_cons in Hv. pose proof (valid_in_nonneg (cf_ssd (fst st)) ps).
  case_decide; [lia|]. apply IH; [|done|lia]. by eapply collecting_drop.
Qed.

Lemma wp_clean_one_flashpg t todo st :
  target_ok spp t -> let ps := flash_pages spp (target_ppa spp b t) in
  collecting b (ps ++ todo) pend c st -> NoDup (ps ++ todo) ->
  wp never (clean_one_flashpg (target_ppa spp b t)) (fun _ => collecting b todo pend c) st.
Proof.
  intros Ht ps HG Hnd. destruct st as [f s]. pose proof HG as [(X & cur & HC & _) H2 _ _ _ _ _ _ _].
  pose proof (core_sp _ _ _ _ _ _ _ HC) as Esp. simpl in Esp.
  unfold clean_one_flashpg. apply wp_bind, wp_getf. cbv zeta. rewrite Esp. fold ps.
  apply wp_bind, wp_count_valid; [done| |].
  { intros p Hp. destruct (H2 p) as [[? _] ?]; [set_solver|done]. }
  rewrite Z.add_0_l. destruct (Z.leb_spec (valid_in (cf_ssd f) ps) 0) as [Hle|Hgt].
  { apply wp_ret. by eapply collecting_drops. }
  apply wp_bind. destruct (enable_gc_delay (cf_cp f)).
  - apply wp_bind. eapply wp_nand_collecting; [exact HG|by apply (target_ppa_in _ F)| |].
    + intros _. simpl. destruct (ge_pgsz _ G) as [-> _]. lia.
    + intros r st HG'. apply wp_ret. by apply wp_copy_pages.
  - apply wp_ret. by apply wp_copy_pages.
Qed.

End one_victim.

(** ** Erasing a block *)

Definition erased (p : ppa) (d : ssd) : ssd :=
  put_blk p (NandBlock 0 0 (i32 (nb_erase_cnt (get_blk d p) + 1)))
    (Ssd (sp d) (filter (fun kv => blk_of kv.1 <> blk_of p) (sd_pg d)) (sd_blk d) (sd_lun d) (sd_ch d)).

Lemma get_pg_erased p d q :
  get_pg (erased p d) q = if decide (blk_of q = blk_of p) then PG_FREE else get_pg d q.
Proof.
  unfold get_pg, erased, put_blk. simpl. case_decide as E.
  - rewrite (proj2 (map_lookup_filter_None _ _ _)); [done|]. right. intros x _ Hn. by apply Hn.
  - destruct (sd_pg d !! q) as [x|] eqn:Eq.
    + by rewrite (proj2 (map_lookup_filter_Some _ _ _ x)).
    + rewrite (proj2 (map_lookup_filter_None _ _ _)); [done|]. by left.
Qed.

Lemma flash_inv_erased p d : flash_inv spp d -> in_geometry spp p = true -> flash_inv spp (erased p d).
Proof.
  intros [H1 [O1 O2 O3 O4] H3 H4] Hp. split; [done|by split| |].
  - simpl. intros q x [E _]%map_lookup_filter_Some. by apply H3.
  - intros q Hq. unfold bstatus, erased, put_blk, get_blk. simpl.
    destruct (decide (blk_of q = blk_of p)) as [E|Hne].
    + rewrite E, lookup_insert_eq. simpl. rewrite !mcount_zero; [done|..];
        intros r x [_ Hr]%map_lookup_filter_Some; simpl in *; by intros [_ ?].
    + rewrite lookup_insert_ne by done. destruct (H4 q Hq) as [Hv Hi]. unfold get_blk, bstatus in Hv, Hi.
      rewrite Hv, Hi. split; apply mcount_ext; simpl; intros r x; rewrite map_lookup_filter_Some.
      1, 3: intros Er [Ex Eb]; (split; [|done]); (split; [done|]); simpl; congruence.
      1, 2: by intros [Er _] Hx.
Qed.

Lemma nstatus_erased x p d b : p_blk p <> b -> nstatus x (erased p d) b = nstatus x d b.
Proof.
  intros Hne. apply mcount_ext; simpl; intros q y; rewrite map_lookup_filter_Some; [by intros [? _] ?|].
  intros E [-> Eb]. split; [|done]. split; [done|]. simpl. unfold blk_of. congruence.
Qed.

Lemma wp_mark_block_free p f s (Q : unit -> conv_ftl * shared -> Prop) :
  spp_of f = spp -> in_geometry spp p = true -> Q tt (set_ssd (erased p (cf_ssd f)) f, s) ->
  wp never (mark_block_free p) Q (f, s).
Proof.
  intros Esp Hp HQ. unfold mark_block_free. apply wp_bind, wp_getf.
  apply wp_bind. eapply (wp_check_page spp); [done..|]. apply wp_bind, wp_modf. cbv zeta. by apply wp_modf.
Qed.

(** ** The loops over the line *)

(** A page of line [b] is erased with the last flash page of its block. *)
Definition last_target (p : ppa) : Z * Z * Z := (flashpgs_per_blk spp - 1, p_ch p, p_lun p).

Section the_loop.
Context (b : Z) (c : gc_const) (Hb : 0 <= b < T).

Definition collects (ts : list (Z * Z * Z)) : conv_ftl * shared -> Prop :=
  collecting b (todo_pages spp b ts) (fun p => last_target p ∈ ts) c.

(** The targets still to visit. *)
Record targets (ts : list (Z * Z * Z)) : Prop := {
  tg_ok t : t ∈ ts -> target_ok spp t;
  tg_NoDup : NoDup ts;
  tg_sorted : StronglySorted (flash_le) ts
}.

Lemma targets_all : targets (gc_targets spp).
Proof.
  split; [|by apply NoDup_gc_targets|by apply sorted_gc_targets]. intros t Ht. by apply elem_of_gc_targets in Ht.
Qed.

Lemma targets_tail t ts : targets (t :: ts) -> targets ts.
Proof.
  intros [H1 H2 H3]. inversion_clear H2. inversion_clear H3. split; try done.
  intros t' Ht'. apply H1. by right.
Qed.

(** No page of a block is left to visit once its last flash page is. *)
Lemma block_visited t ts p : targets (t :: ts) -> t.1.1 = flashpgs_per_blk spp - 1 ->
  p ∈ todo_pages spp b ts -> blk_of p <> blk_of (target_ppa spp b t).
Proof.
  intros HT Hl Hp E. pose proof (targets_tail _ _ HT) as HT'.
  pose proof (target_ppa_in _ F b t Hb (tg_ok _ HT t ltac:(by left))) as [Htg _].
  apply (elem_of_todo _ F) in Hp as [Hin Hp]; [|done|apply HT'].
  destruct HT as [H1 H2 H3]. inversion_clear H2 as [|? ? Hn _]. inversion_clear H3 as [|? ? _ Hs].
  rewrite Forall_forall in Hs. specialize (Hs _ Hp). unfold flash_le in Hs. simpl in Hs.
  destruct (tg_ok _ HT' _ Hp) as [Hr _]. apply Hn. destruct t as [[fp ch] lun]. simpl in *. subst fp.
  assert (H1t : target_ok spp (flashpgs_per_blk spp - 1, ch, lun)) by (apply H1; by left).
  assert (Eb : target_ppa spp b (flashpgs_per_blk spp - 1, ch, lun) ∈
               flash_pages spp (target_ppa spp b (flashpgs_per_blk spp - 1, ch, lun))).
  { rewrite (target_flash _ F) by done. apply list_elem_of_fmap. exists 0.
    rewrite elem_of_seqZ. pose proof (ge_flash _ G). split; [|lia]. clear - F H1t Hb Hr.
    destruct H1t as (Hf & Hc & Hlu). pose proof F as [G' Hpls Hnc Hnl Hnb Hng _].
    pose proof (ge_flash _ G') as Hfl. pose proof (ge_blk_flash _ G') as Hbf.
    unfold target_ppa, make_ppa. rewrite !(wrap_small 8), !(wrap_small 16) by (unfold in_word; nia).
    f_equal. simpl. lia. }
  apply (elem_of_target_flash _ F) in Eb as [_ Eb]; [|done..]. injection Eb as _ Ec El.
  unfold blk_of in E. injection E as E1 E2 _ _. rewrite <- Ec, <- El, <- E1, <- E2.
  assert (p_pg p / pgs_per_flashpg spp = flashpgs_per_blk spp - 1) as <- by lia. done.
Qed.

Lemma collecting_pend todo (pend pend' : ppa -> Prop) st :
  (forall p, in_line spp b p -> pend p -> get_pg (cf_ssd (fst st)) p = PG_FREE \/ pend' p) ->
  collecting b todo pend c st -> collecting b todo pend' c st.
Proof. intros Hp []. split; try done. naive_solver. Qed.

(** The block of a target is erased after its last flash page. *)
Lemma collects_erased t ts f s : targets (t :: ts) -> t.1.1 = flashpgs_per_blk spp - 1 ->
  collecting b (todo_pages spp b ts) (fun p => last_target p ∈ t :: ts) c (f, s) ->
  collects ts (set_ssd (erased (target_ppa spp b t) (cf_ssd f)) f, s).
Proof.
  intros HT Hl [(X & cur & HC & Hr & Hs) H2 H3 H4 H5 H6 H7 H8 H9]. cbn [fst snd] in *.
  pose proof (target_ppa_in _ F b t Hb (tg_ok _ HT t ltac:(by left))) as [Htg Htb].
  set (p := target_ppa spp b t) in *.
  assert (Htodo : forall q, q ∈ todo_pages spp b ts -> get_pg (erased p (cf_ssd f)) q = get_pg (cf_ssd f) q).
  { intros q Hq. rewrite get_pg_erased, decide_False by (by eapply block_visited). done. }
  assert (Hother : forall q, p_blk q <> b -> get_pg (erased p (cf_ssd f)) q = get_pg (cf_ssd f) q).
  { intros q Hq. rewrite get_pg_erased, decide_False; [done|]. unfold blk_of. congruence. }
  pose proof HC as [K1 K2 K3 K4].
  split; cbn [fst snd cf_ssd cf_lm cf_maptbl cf_wfc cf_cp set_ssd]; try done.
  - exists X, cur. split; [|by rewrite (valid_in_ext (cf_ssd f))]. split; cbn [cf_ssd cf_lm cf_maptbl cf_rmap set_ssd].
    + by apply flash_inv_erased.
    + eapply (lines_vic_change _ F _ _ _ _ _ K2 b); [done..|]. intros x b' Hb'. apply nstatus_erased. congruence.
    + eapply map_inv_frame; [|exact K3]. intros q [Hq|Hq]; auto.
    + intros t'. destruct (K4 t') as (b' & k & ? & ? & Hw). exists b', k. split; [done|]. split; [done|].
      rewrite <- Hw. by destruct t'.
  - intros q Hq. rewrite Htodo by done. by apply H2.
  - intros q Hq. rewrite get_pg_erased. case_decide as E; [by left|].
    destruct (H3 q Hq) as [?|Ht]; [by left|]. right. apply elem_of_cons in Ht as [Ht|]; [|done].
    exfalso. apply E. destruct t as [[fp ch] lun]. unfold last_target in Ht. simplify_eq.
    pose proof (page_target _ F q b Hq) as (_ & Hc & Hlu). destruct Hq as [Hqg Hqb].
    apply (in_geometry_spec _ F) in Hqg as (_ & _ & Hpl & _). pose proof F as [_ F1 F2 F3 F4 F5 F6].
    unfold p, target_ppa, make_ppa, blk_of. simpl. rewrite Hpl, Hqb.
    by rewrite !(wrap_small 8), !(wrap_small 16) by (unfold in_word; lia).
Qed.

Lemma wp_gc_body t ts st : targets (t :: ts) -> collects (t :: ts) st ->
  wp never (gc_body b t) (fun _ => collects ts) st.
Proof.
  intros HT HG. destruct st as [f s].
  pose proof (cg_core _ _ _ _ _ HG) as (X & cur & HC & _).
  pose proof (core_sp _ _ _ _ _ _ _ HC) as Esp. simpl in Esp.
  assert (Ht : target_ok spp t) by (apply (tg_ok _ HT); by left).
  pose proof (target_ppa_in _ F b t Hb Ht) as [Htg _].
  unfold gc_body. apply wp_bind, wp_getf. cbv zeta. rewrite Esp.
  destruct t as [[fp ch] lun] eqn:Et. rewrite <- Et in *.
  apply wp_bind. eapply wp_mono.
  { apply (wp_clean_one_flashpg b (fun p => last_target p ∈ t :: ts) c Hb t (todo_pages spp b ts)); [done..|].
    apply (NoDup_todo _ F b (t :: ts)); [done|apply HT..]. }
  intros [] [f1 s1] HG1. cbn beta.
  destruct (Z.eqb_spec fp (flashpgs_per_blk spp - 1)) as [Hl|Hl].
  - pose proof (cg_core _ _ _ _ _ HG1) as (X1 & cur1 & HC1 & _).
    apply wp_bind, wp_mark_block_free; [by apply (core_sp _ _ _ _ _ _ _ HC1)|done|].
    assert (HG2 := collects_erased t ts f1 s1 HT ltac:(by rewrite Et) HG1).
    assert (Hend : forall st, collects ts st ->
      wp never (put_flash (fun d => let l := Ssd.get_lun d (target_ppa spp b t) in
        put_lun (target_ppa spp b t) (NandLun (nl_next_lun_avail_time l) (nl_next_lun_avail_time l)) d))
        (fun _ => collects ts) st).
    { intros [f2 s2] HG3. apply wp_modf. apply (collecting_times _ _ _ _ _ s2); try done.
      - pose proof (cg_core _ _ _ _ _ HG3) as (X3 & cur3 & HC3 & _).
        apply put_lun_ok, (fi_ok _ _ (co_flash _ _ _ _ _ _ _ HC3)).
      - split; [apply (cg_pcie _ _ _ _ _ HG3)|done]. }
    apply wp_bind. destruct (enable_gc_delay (cf_cp f)).
    + apply wp_bind. eapply wp_nand_collecting; [exact HG2|done|done|].
      intros r st HG3. apply wp_ret. by apply Hend.
    + apply wp_ret. by apply Hend.
  - apply wp_ret. eapply collecting_pend; [|exact HG1]. intros p _ Hp. right.
    apply elem_of_cons in Hp as [Hp|]; [|done]. unfold last_target in Hp. rewrite Et in Hp. by simplify_eq.
Qed.

Lemma wp_gc_loop st : collects (gc_targets spp) st ->
  wp never (for_each (gc_targets spp) (gc_body b)) (fun _ => collects []) st.
Proof.
  intros HG. eapply wp_mono.
  - apply (wp_for_each _ (fun ts st => targets ts /\ collects ts st)); [split; [apply targets_all|done]|].
    intros t ts st' [HT HG']. eapply wp_mono; [by apply wp_gc_body|].
    intros [] st'' ?. split; [by eapply targets_tail|done].
  - by intros [] st' [_ ?].
Qed.

(** The line is free again. *)
Lemma wp_mark_line_free f s (Q : unit -> conv_ftl * shared -> Prop) :
  collects [] (f, s) ->
  (forall lm' X cur, core None X cur None (fun _ => True) (set_lm lm' f) ->
     spare (set_lm lm' f) cur = gk_spare c + P -> Q tt (set_lm lm' f, s)) ->
  wp never (mark_line_free (make_ppa 0 0 0 b 0)) Q (f, s).
Proof.
  intros [(X & cur & HC & _ & Hs) _ Hfree _ _ _ _ _ _] HQ. cbn [fst snd] in *.
  pose proof HC as [K1 K2 K3 K4]. pose proof (ft_blks _ F).
  assert (Ep : p_blk (make_ppa 0 0 0 b 0) = b) by (apply wrap_small; unfold in_word; lia).
  assert (Hf : forall p, in_line spp b p -> get_pg (cf_ssd f) p = PG_FREE).
  { intros p Hp. destruct (Hfree p Hp) as [?|?]; [done|set_solver]. }
  assert (Hw : written spp (cf_ssd f) b 0).
  { intros k Hk. rewrite Hf by (by apply (page_at_in _ F)). split; [done|lia]. }
  destruct (li_table _ _ _ _ _ _ K2 b Hb) as (l & El & Hid & _).
  unfold mark_line_free. rewrite Ep. apply wp_on_lm. apply wp_bind. eapply wp_get_line; [exact El|].
  apply wp_bind, wp_modify, wp_modify. cbv beta.
  pose proof (lines_free _ F _ _ _ _ _ K1 K2 b l eq_refl Hw El) as HL.
  apply (HQ _ X cur).
  - split; [done|exact HL| |].
    + eapply map_live_ext; [|exact K3]. intros p Hv. split; [done|]. intros _. left. intros Eb.
      rewrite Hf in Hv; [discriminate|]. split; [|done]. eapply (status_in _ (cf_ssd f)); [done|exact Hv|discriminate].
    + intros t. destruct (K4 t) as (b' & k & ? & ? & Hw'). exists b', k. split; [done|]. split; [done|].
      rewrite <- Hw'. by destruct t.
  - unfold ConvFtlOps.spare in *. simpl. rewrite length_app. unfold valid_in in Hs. simpl in *. lia.
Qed.

End the_loop.

(** ** Starting a collection *)

Lemma todo_all b p : 0 <= b < T -> p ∈ todo_pages spp b (gc_targets spp) <-> in_line spp b p.
Proof.
  intros Hb. rewrite (elem_of_todo _ F) by (apply targets_all || done). split; [by intros [? _]|].
  intros Hp. split; [done|]. apply elem_of_gc_targets. by eapply page_target.
Qed.

(** The valid pages to copy are the valid pages of the line. *)
Lemma valid_in_line d b : flash_inv spp d -> 0 <= b < T ->
  valid_in d (todo_pages spp b (gc_targets spp)) = nvalid d b.
Proof.
  intros Hd Hb. unfold nstatus.
  rewrite (mcount_eq _ _ (list_to_set (filter (fun p => get_pg d p = PG_VALID) (todo_pages spp b (gc_targets spp))))).
  - rewrite size_list_to_set; [done|]. apply NoDup_filter, (NoDup_todo _ F); [done|apply targets_all..].
  - intros p. rewrite elem_of_list_to_set, list_elem_of_filter, todo_all by done. unfold get_pg. split.
    + intros [Hv [_ Eb]]. destruct (sd_pg d !! p) as [x|]; simpl in Hv; [by exists x|discriminate].
    + intros (x & E & Ex & Eb). simpl in *. rewrite E. split; [done|]. split; [|done].
      by apply (fi_known _ _ Hd) in E as [? _].
Qed.

Lemma wp_select_victim_line X cur f s (Q : option Z -> conv_ftl * shared -> Prop) :
  core None X cur None (fun _ => True) f -> X <> ∅ ->
  (forall b lm' l, b ∈ X -> core (Some b) (X ∖ {[b]}) cur None (fun _ => True) (set_lm lm' f) ->
     lm_free_line_list lm' = lm_free_line_list (cf_lm f) -> read_line (lm_lines lm') b = Some l ->
     ln_id l = b -> ln_ipc l = ninvalid (cf_ssd f) b -> Q (Some b) (set_lm lm' f, s)) ->
  wp never (select_victim_line true) Q (f, s).
Proof.
  intros HC HX HQ. pose proof HC as [K1 K2 K3 K4]. unfold select_victim_line. apply wp_bind, wp_getf.
  apply wp_bind, wp_on_lm. eapply (wp_peek_victim _ _ _ _ _ _ K2); [done|].
  intros b Hb E1. assert (Hbr : 0 <= b < T) by (eapply (line_range _ F _ _ _ _ _ K2); eauto 10).
  destruct (li_table _ _ _ _ _ _ K2 b Hbr) as (l0 & El0 & _).
  assert (Ef : set_lm (cf_lm f) f = f) by (by destruct f). rewrite Ef.
  apply wp_bind, wp_on_lm. eapply wp_get_line; [exact El0|]. rewrite Ef. cbn [negb andb].
  apply wp_bind, wp_on_lm. eapply (wp_pop_victim _ F _ _ _ _ _ K1 K2 b); [done..|].
  intros q' lines' l Hq Hav Hsame El Hid Hv Hi HL.
  apply wp_bind, wp_on_lm. eapply wp_get_line; [exact El|].
  apply wp_bind, wp_on_lm, wp_modify. apply wp_bind, wp_on_lm, wp_modify, wp_ret.
  cbn [cf_lm set_lm set_victim_cnt lm_lines lm_free_line_list lm_victim_line_pq lm_full_line_list
    lm_tt_lines lm_free_line_cnt lm_victim_line_cnt lm_full_line_cnt] in *.
  rewrite (li_nvict _ _ _ _ _ _ K2).
  eapply (HQ b _ (Line (ln_id l) (ln_ipc l) (ln_vpc l) 0)); try done.
  cbn [lm_lines set_victim_cnt]. rewrite read_line_insert by (by eexists). by rewrite decide_True.
Qed.

(** ** The whole collection *)

Lemma wp_do_gc X cur f s (Q : Z -> conv_ftl * shared -> Prop) :
  core None X cur None (fun _ => True) f -> X <> ∅ -> chan_ok (sh_pcie s) ->
  P <= Z.of_nat (length (lm_free_line_list (cf_lm f))) * P + room cur GC_IO ->
  (forall f' X' cur' s' n, core None X' cur' None (fun _ => True) f' -> steady s s' ->
     dom (cf_maptbl f') = dom (cf_maptbl f) -> cf_cp f' = cf_cp f ->
     cf_wfc f' = Wfc (write_credits (cf_wfc f)) n -> 1 <= n <= P ->
     spare f' cur' = spare f cur + n -> Q 0 (f', s')) ->
  wp never (do_gc true) Q (f, s).
Proof.
  intros HC HX Hp Hroom HQ. unfold do_gc. apply wp_bind. eapply wp_select_victim_line; [exact HC|done|].
  intros b lm' l HbX HC1 Ef El Hid Hi. pose proof HC as [K1 K2 K3 K4].
  assert (Hb : 0 <= b < T) by (eapply (line_range _ F _ _ _ _ _ K2); eauto 10).
  destruct (li_vict _ _ _ _ _ _ K2 b HbX) as [Hw Hlt].
  pose proof (ft_line _ F) as HP. pose proof (written_count _ F _ b P K1 Hb ltac:(lia) Hw) as Hsum.
  assert (Hnv : 0 <= nvalid (cf_ssd f) b) by apply mcount_nonneg.
  pose proof (core_sp _ _ _ _ _ _ _ HC1) as Esp.
  apply wp_bind, wp_on_lm. eapply wp_get_line; [exact El|]. apply wp_bind, wp_modf.
  apply wp_bind, wp_getf. cbn [cf_ssd cf_lm cf_wfc set_lm set_wfc] in *. rewrite Esp, Hid, Hi.
  set (n := ninvalid (cf_ssd f) b) in *.
  set (f1 := set_wfc _ _). set (c := GcConst (dom (cf_maptbl f)) (Wfc (write_credits (cf_wfc f)) n) (cf_cp f)
    (spare f cur - nvalid (cf_ssd f) b) (sh_wbuf s) (sh_releases s)).
  assert (Hstart : collects b c (gc_targets spp) (f1, s)).
  { pose proof (valid_in_line (cf_ssd f) b K1 Hb) as Hvl.
    split; cbn [fst snd f1 c cf_ssd cf_lm cf_maptbl cf_wfc cf_cp set_wfc set_lm gk_dom gk_wfc gk_cp gk_spare
      gk_wbuf gk_releases]; try done.
    - exists (X ∖ {[b]}), cur. unfold ConvFtlOps.spare. change (cf_lm f1) with lm'. rewrite Ef, Hvl.
      split; [|lia]. destruct HC1 as [J1 J2 J3 J4]. split; try done.
      eapply map_live_ext; [|exact J3]. intros p Hv. split; [|done]. intros _.
      destruct (decide (p_blk p = b)) as [Eb|]; [|by left]. right. apply todo_all; [done|]. split; [|done].
      eapply (status_in _ (cf_ssd f)); [done|exact Hv|discriminate].
    - intros p Hin. apply todo_all in Hin; [|done]. split; [done|]. destruct Hin as [Hg Eb].
      destruct (page_at_index _ F p Hg) as [E Hk]. rewrite <- E, Eb. apply Hw; lia.
    - intros p Hin. right. apply elem_of_gc_targets.
      destruct (page_target _ F p b Hin) as (? & ? & ?). unfold last_target. split_and!; lia. }
  apply wp_bind. eapply wp_mono; [by apply wp_gc_loop|]. intros [] [f2 s2] HG.
  apply wp_bind. eapply (wp_mark_line_free b c Hb); [exact HG|]. intros lm2 X2 cur2 HC2 Hs2.
  apply wp_ret. destruct HG as [_ _ _ G4 G5 G6 G7 G8 G9]. cbn [fst snd] in *.
  apply (HQ _ X2 cur2 s2 n); try done.
  - lia.
  - rewrite Hs2. simpl. lia.
Qed.

End gc.
