(* ===== verification/ConvFtlCmd.v ===== *)
(** * Commands of the page-mapping layer keep the invariant (for ConvFtlProps)

    Write credits are handed out so that garbage collection always has room: between
    commands the spare pages are at least two lines more than the credits. *)
From S2P Require Import Prelude Pqueue PqueueProps ChannelModel Ssd SsdProps.
From S2P Require Import ConvFtl ConvFtlSpec ConvFtlInv ConvFtlLines ConvFtlMap ConvFtlOps ConvFtlGc.

Section commands.
Context (spp : ssdparams) (F : fits spp).
Let G : geometry spp := ft_geometry spp F.
Abbreviation P := (pgs_per_line spp).
Abbreviation T := (blks_per_pl spp).
Abbreviation core := (core spp).
Abbreviation spare := (spare spp).
Abbreviation room := (room spp).
Abbreviation every := (fun _ : ppa => True).

(** Logical pages of a part in use, with at least four lines and a page to spare. *)
Context (L : Z) (HL : 0 <= L < (T - 4) * P).

Lemma L_tt : L <= tt_pgs spp.
Proof.
  rewrite (ge_tt_lines _ G), (ge_lines _ G), (ft_pls _ F). pose proof (ft_line _ F). nia.
Qed.

(** ** There is a victim when lines run out *)

Lemma full_lines_valid d bs : NoDup bs -> (forall b, b ∈ bs -> nvalid d b = P) ->
  Z.of_nat (length bs) * P = mcount (fun kv : ppa * Z => kv.2 = PG_VALID /\ p_blk kv.1 ∈ bs) (sd_pg d).
Proof.
  induction bs as [|b bs IH]; intros Hnd Hv.
  - rewrite mcount_zero; [done|]. intros k x _ [_ ?]. set_solver.
  - inversion_clear Hnd as [|? ? Hb Hnd'].
    rewrite (mcount_or (fun kv : ppa * Z => kv.2 = PG_VALID /\ p_blk kv.1 = b)
      (fun kv : ppa * Z => kv.2 = PG_VALID /\ p_blk kv.1 ∈ bs)
      (fun kv : ppa * Z => kv.2 = PG_VALID /\ p_blk kv.1 ∈ b :: bs)).
    + rewrite <- IH by set_solver. pose proof (Hv b ltac:(by left)) as E. unfold nstatus in E.
      rewrite E. simpl length. lia.
    + intros kx [_ E] [_ ?]. by rewrite E in *.
    + intros kx. rewrite elem_of_cons. tauto.
Qed.

Lemma mapped_few (m : gmap Z ppa) : (forall lpn, lpn ∈ dom m -> 0 <= lpn < L) -> Z.of_nat (size m) <= L.
Proof.
  intros Hm. rewrite <- size_dom. transitivity (Z.of_nat (size (list_to_set (seqZ 0 L) : gset Z))).
  - apply inj_le, subseteq_size. intros lpn Hl. rewrite elem_of_list_to_set, elem_of_seqZ.
    specialize (Hm lpn Hl). lia.
  - rewrite size_list_to_set by apply NoDup_seqZ. rewrite length_seqZ. lia.
Qed.

Lemma victim_exists X cur f :
  core None X cur None every f -> (forall lpn, lpn ∈ dom (cf_maptbl f) -> 0 <= lpn < L) ->
  lm_free_line_cnt (cf_lm f) <= 2 -> X <> ∅.
Proof.
  intros HC Hm Hf ->. pose proof HC as [K1 K2 K3 K4].
  pose proof (size_lists _ F _ _ _ _ _ K2) as Hsz. rewrite (li_nfree _ _ _ _ _ _ K2) in Hf.
  rewrite size_empty in Hsz. simpl in Hsz.
  assert (Hc : length (cur_lines cur) = 2%nat).
  { unfold cur_lines. destruct (K4 USER_IO) as (? & ? & -> & _), (K4 GC_IO) as (? & ? & -> & _). done. }
  destruct (parts_disjoint _ F _ _ _ _ _ (li_parts _ _ _ _ _ _ K2)) as (_ & Hnd & _).
  pose proof (full_lines_valid (cf_ssd f) _ Hnd ltac:(intros b Hb; by apply (li_full _ _ _ _ _ _ K2))) as Hfull.
  pose proof (map_size _ _ _ _ K1 K3) as Hsize. pose proof (mapped_few _ Hm) as Hfew.
  pose proof (mcount_mono (fun kv : ppa * Z => kv.2 = PG_VALID /\ p_blk kv.1 ∈ lm_full_line_list (cf_lm f))
    (fun kv : ppa * Z => kv.2 = PG_VALID) (sd_pg (cf_ssd f)) ltac:(tauto)) as Hle.
  pose proof (ft_line _ F). nia.
Qed.

(** ** The invariant of a part between commands *)

Record part_inv (f : conv_ftl) : Prop := {
  pv_core : exists X cur, core None X cur None every f /\
    write_credits (cf_wfc f) + 2 * P <= spare f cur;
  pv_thres : gc_thres_lines_high (cf_cp f) = 2;
  pv_credits : 1 <= write_credits (cf_wfc f) <= P;
  pv_refill : 1 <= credits_to_refill (cf_wfc f) <= P;
  pv_dom lpn : lpn ∈ dom (cf_maptbl f) -> 0 <= lpn < L
}.

Lemma part_sp f : part_inv f -> spp_of f = spp.
Proof. intros [(? & ? & HC & _) _ _ _ _]. by eapply core_sp. Qed.

Lemma part_inv_flash f d : part_inv f -> same_flash (cf_ssd f) d -> ssd_ok d -> part_inv (set_ssd d f).
Proof.
  intros [(X & cur & HC & Hs) H2 H3 H4 H5] Hf Hok. split; try done. exists X, cur.
  split; [by apply core_flash|done].
Qed.

Lemma core_wfc X cur w f : core None X cur None every f -> core None X cur None every (set_wfc w f).
Proof.
  intros [H1 H2 H3 H4]. by split.
Qed.

(** The credits are used up: collect if lines are few, and refill. *)
Lemma wp_refill X cur f s (Q : unit -> conv_ftl * shared -> Prop) :
  core None X cur None every f -> gc_thres_lines_high (cf_cp f) = 2 ->
  0 <= write_credits (cf_wfc f) <= P -> 1 <= credits_to_refill (cf_wfc f) <= P ->
  write_credits (cf_wfc f) + 2 * P <= spare f cur ->
  (forall lpn, lpn ∈ dom (cf_maptbl f) -> 0 <= lpn < L) -> chan_ok (sh_pcie s) ->
  (forall f' s', part_inv f' -> steady s s' -> dom (cf_maptbl f') = dom (cf_maptbl f) -> Q tt (f', s')) ->
  wp never check_and_refill_write_credit Q (f, s).
Proof.
  intros HC Hth Hcr Hre Hs Hdom Hp HQ. pose proof (ft_line _ F) as HP.
  unfold check_and_refill_write_credit. apply wp_bind, wp_getf.
  destruct (Z.leb_spec (write_credits (cf_wfc f)) 0); cycle 1.
  { apply wp_ret, HQ; [|done|done]. split; try done; [|lia]. by exists X, cur. }
  assert (Hw0 : write_credits (cf_wfc f) = 0) by lia.
  apply wp_bind. unfold foreground_gc. apply wp_bind, wp_getf.
  unfold should_gc_high. rewrite Hth. destruct (co_cur _ _ _ _ _ _ _ HC USER_IO) as (bu & ku & Hu & Hku & _).
  pose proof (room_range _ _ _ _ _ Hu Hku) as Hru.
  destruct (Z.leb_spec (lm_free_line_cnt (cf_lm f)) 2) as [Hfew|Hmany].
  - apply wp_bind. eapply (wp_do_gc _ F); [exact HC|by eapply victim_exists|done| |].
    { unfold ConvFtlOps.spare in Hs. lia. }
    intros f' X' cur' s' n HC' Hst Hd' Hc' Hw' Hn Hs'. apply wp_ret, wp_modf. rewrite Hw'. simpl.
    rewrite Hw0, wrap_small by (unfold in_word; lia).
    apply HQ; [|done|done]. split; simpl; try lia; [|by rewrite Hc'|intros lpn; rewrite Hd'; apply Hdom].
    exists X', cur'. split; [by apply core_wfc|].
    unfold ConvFtlOps.spare in *. simpl. lia.
  - apply wp_ret, wp_modf. rewrite Hw0, wrap_small by (unfold in_word; lia).
    apply HQ; [|done|done]. split; simpl; try done; try lia. exists X, cur. split; [by apply core_wfc|].
    pose proof (co_lines _ _ _ _ _ _ _ HC) as K2. rewrite (li_nfree _ _ _ _ _ _ K2) in Hmany.
    destruct (co_cur _ _ _ _ _ _ _ HC GC_IO) as (bg & kg & Hg & Hkg & _).
    pose proof (room_range _ _ _ _ _ Hg Hkg) as Hrg. unfold ConvFtlOps.spare in *. simpl. nia.
Qed.

(** ** Writing one logical page *)

Lemma wp_write_page sq stime lpn latest f s (Q : Z -> conv_ftl * shared -> Prop) :
  part_inv f -> chan_ok (sh_pcie s) -> 0 <= lpn < L ->
  (forall r f' s', part_inv f' -> chan_ok (sh_pcie s') -> sh_wbuf s' = sh_wbuf s ->
     dom (cf_maptbl f') = {[lpn]} ∪ dom (cf_maptbl f) -> Q r (f', s')) ->
  wp never (write_page sq stime lpn latest) Q (f, s).
Proof.
  intros [(X & cur & HC & Hs) Hth Hcr Hre Hdom] Hp Hlpn HQ. pose proof (ft_line _ F) as HP. pose proof L_tt.
  destruct (co_cur _ _ _ _ _ _ _ HC GC_IO) as (bg & kg & Hg & Hkg & _).
  pose proof (room_range _ _ _ _ _ Hg Hkg) as Hrg.
  unfold write_page. apply wp_bind. eapply (wp_write_mapping _ F); [exact HC|lia| |].
  { intros Hr He. unfold ConvFtlOps.spare in Hs. rewrite He in Hs. simpl in Hs. lia. }
  intros p f1 X1 cur1 Hg1 HC1 Em1 Hs1 Hw1 Hc1. apply wp_bind, wp_getf. cbv zeta.
  rewrite (core_sp _ _ _ _ _ _ _ HC1).
  assert (Hfin : forall r d s1, core None X1 cur1 None every (set_ssd d f1) -> chan_ok (sh_pcie s1) ->
    sh_wbuf s1 = sh_wbuf s ->
    wp never (_ ← consume_write_credit; _ ← check_and_refill_write_credit; mret r) Q (set_ssd d f1, s1)).
  { intros r d s1 HC2 Hp1 Hwb. apply wp_bind, wp_modf. simpl. rewrite Hw1, wrap_small by (unfold in_word; lia).
    apply wp_bind. eapply (wp_refill X1 cur1); [by apply core_wfc|..]; simpl; try done; try lia.
    - by rewrite Hc1.
    - unfold ConvFtlOps.spare in *. simpl. lia.
    - intros l. rewrite Em1, dom_insert_L, elem_of_union, elem_of_singleton. intros [->|?]; auto.
    - intros f' s' Hpi (Hp' & Hwb' & _) Hd. apply wp_ret, HQ; [done|done|congruence|].
      by rewrite Hd, Em1, dom_insert_L. }
  assert (Eset : set_ssd (cf_ssd f1) f1 = f1) by (by destruct f1).
  apply wp_bind. destruct (last_pg_in_wordline spp p).
  - apply wp_bind. eapply (wp_nand spp); [exact HC1|done|done|done|]. intros r d s1 HC2 _ (Hp1 & Hwb & _).
    apply wp_bind, wp_modify, wp_ret. simpl. by apply Hfin.
  - apply wp_ret. rewrite <- Eset. apply Hfin; [by rewrite Eset|done|done].
Qed.

(** ** The parts of a namespace *)

Lemma wp_on_part {A} i (m : fprog A) ns f (Q : A -> conv_ns -> Prop) :
  0 <= i -> ns_parts ns !! Z.to_nat i = Some f ->
  wp never m (fun a st => Q a (ConvNs (<[Z.to_nat i := fst st]> (ns_parts ns)) (snd st) (ns_size ns)))
    (f, ns_shared ns) ->
  wp never (on_part i m) Q ns.
Proof.
  intros Hi Ef Hm. unfold wp, on_part in *. replace (i <? 0) with false by lia. rewrite Ef.
  by destruct (m (f, ns_shared ns)) as [a [f' s']| |[f' s']].
Qed.

Record ns_inv (n W size : Z) (ns : conv_ns) : Prop := {
  ni_len : Z.of_nat (length (ns_parts ns)) = n;
  ni_parts i f : ns_parts ns !! i = Some f -> part_inv f;
  ni_pcie : chan_ok (sh_pcie (ns_shared ns));
  ni_wbuf : bf_size (sh_wbuf (ns_shared ns)) = W;
  ni_size : ns_size ns = size
}.

(** The flash page of a logical page of the drive. *)
Definition translate (ns : conv_ns) (lpn : Z) : option ppa :=
  let n := Z.of_nat (length (ns_parts ns)) in
  f ← ns_parts ns !! Z.to_nat (lpn mod n); cf_maptbl f !! (lpn / n).

Section namespace.
Context (n W size : Z) (Hn : 0 < n).
Abbreviation ns_inv := (ns_inv n W size).

Lemma part_at ns lpn : ns_inv ns ->
  0 <= lpn mod n /\ exists f, ns_parts ns !! Z.to_nat (lpn mod n) = Some f /\ part_inv f.
Proof.
  intros Hns. pose proof (Z.mod_pos_bound lpn n Hn) as Hm. split; [lia|].
  pose proof (ni_len _ _ _ _ Hns) as Hl.
  destruct (lookup_lt_is_Some_2 (ns_parts ns) (Z.to_nat (lpn mod n)) ltac:(lia)) as [f Ef].
  exists f. split; [done|]. by eapply ni_parts.
Qed.

Lemma ns_inv_put ns i f' s' : ns_inv ns -> part_inv f' -> chan_ok (sh_pcie s') ->
  bf_size (sh_wbuf s') = W -> ns_inv (ConvNs (<[i := f']> (ns_parts ns)) s' (ns_size ns)).
Proof.
  intros [H1 H2 H3 H4 H5] Hf Hp Hb. split; simpl; try done.
  - by rewrite length_insert.
  - intros j f [(-> & -> & _)|[_ Hj]]%list_lookup_insert_Some; [done|]. by eapply H2.
Qed.

Lemma lpn_eq l lpn : l mod n = lpn mod n -> l / n = lpn / n -> l = lpn.
Proof. intros H1 H2. pose proof (Z.div_mod l n). pose proof (Z.div_mod lpn n). nia. Qed.

(** One entry of one part is added. *)
Lemma translate_put ns lpn f f' s' l : ns_inv ns -> ns_parts ns !! Z.to_nat (lpn mod n) = Some f ->
  dom (cf_maptbl f') = {[lpn / n]} ∪ dom (cf_maptbl f) ->
  is_Some (translate (ConvNs (<[Z.to_nat (lpn mod n) := f']> (ns_parts ns)) s' (ns_size ns)) l) <->
  l = lpn \/ is_Some (translate ns l).
Proof.
  intros Hns Ef Hd. unfold translate. cbn [ns_parts]. rewrite length_insert, (ni_len _ _ _ _ Hns).
  pose proof (Z.mod_pos_bound lpn n Hn). pose proof (Z.mod_pos_bound l n Hn).
  destruct (decide (l mod n = lpn mod n)) as [E|Hne].
  - rewrite E, list_lookup_insert_eq by (by eapply lookup_lt_Some). rewrite Ef. simpl.
    rewrite <- !elem_of_dom, Hd. rewrite elem_of_union, elem_of_singleton.
    split; [intros [?|?]; [left; by apply lpn_eq|by right]|intros [->|?]; auto].
  - rewrite list_lookup_insert_ne by lia. split; [by right|]. intros [->|?]; done.
Qed.

Lemma wp_write_loop fuel sq stime lpn end_lpn latest ns (Q : Z -> conv_ns -> Prop) :
  ns_inv ns -> 0 <= lpn -> (Z.to_nat (end_lpn + 1 - lpn) < fuel)%nat -> end_lpn / n < L ->
  (forall r ns', ns_inv ns' ->
     (forall l, is_Some (translate ns' l) <-> lpn <= l <= end_lpn \/ is_Some (translate ns l)) -> Q r ns') ->
  wp never (write_loop fuel n sq stime lpn end_lpn latest) Q ns.
Proof.
  revert lpn latest ns. induction fuel as [|fuel IH]; intros lpn latest ns Hns Hl Hf He HQ; [lia|].
  cbn [write_loop]. destruct (Z.leb_spec lpn end_lpn) as [Hle|Hgt].
  - destruct (part_at ns lpn Hns) as (Hm & f & Ef & Hpf). apply wp_bind. eapply wp_on_part; [done|exact Ef|].
    apply wp_write_page; [done|apply Hns| |].
    { split; [apply Z.div_pos; lia|]. pose proof (Z.div_le_mono lpn end_lpn n). lia. }
    intros r f' s' Hpf' Hp' Hb' Hd'. cbn [fst snd].
    apply IH; [apply ns_inv_put; try done; rewrite Hb'; apply Hns|lia|lia|done|].
    intros r' ns' Hns' Ht. apply HQ; [done|]. intros l. rewrite Ht, (translate_put _ _ _ _ _ _ Hns Ef Hd').
    split; [intros [?|[->|?]]|intros [?|?]]; try tauto; try (left; lia).
    destruct (decide (l = lpn)); [by right; left|left; lia].
  - apply wp_ret, HQ; [done|]. intros l. split; [by right|]. intros [?|?]; [lia|done].
Qed.

(** ** Commands *)

(** A command inside the namespace, of a size the write buffer can take. *)
Definition request_ok (ns : conv_ns) (rq : rw_request) : bool :=
  (0 <=? rq_slba rq) && (0 <=? rq_length rq) && (rq_length rq <? 65536)
  && (rq_slba rq + rq_length rq + 1 <? 2 ^ 55)
  && (LBA_TO_BYTE (rq_slba rq + rq_length rq + 1) <=? ns_size ns)
  && (LBA_TO_BYTE (rq_length rq + 1) <=? bf_size (sh_wbuf (ns_shared ns))).

Context (Hsize : size / (4096 * n) < L).

Lemma request_range ns rq : ns_inv ns -> request_ok ns rq = true ->
  exists start_lpn end_lpn, lpn_range spp rq = (start_lpn, end_lpn) /\ 0 <= start_lpn <= end_lpn /\
    end_lpn / n < L /\ 0 < LBA_TO_BYTE (rq_length rq + 1) <= W /\ LBA_TO_BYTE (rq_length rq + 1) < 2 ^ 32 /\
    start_lpn = rq_slba rq / 8 /\ end_lpn = (rq_slba rq + rq_length rq) / 8.
Proof.
  intros Hns Hok. unfold request_ok in Hok. bool_to_prop.
  rewrite (ni_size _ _ _ _ Hns), (ni_wbuf _ _ _ _ Hns) in *. unfold LBA_TO_BYTE, lpn_range in *.
  destruct (ge_pgsz _ G) as [_ ->]. rewrite !Z.shiftl_mul_pow2 in * by done. change (2 ^ LBA_BITS) with 512 in *.
  rewrite !(wrap_small 64) in * by (unfold in_word; try rewrite wrap_small; unfold in_word; lia).
  eexists _, _. split; [done|].
  replace (rq_slba rq + (rq_length rq + 1) - 1) with (rq_slba rq + rq_length rq) by lia.
  split_and!; try lia; try (apply Z.div_pos; lia); try (apply Z.div_le_mono; lia).
  eapply Z.le_lt_trans; [|exact Hsize]. rewrite Z.div_div by lia.
  apply Z.div_le_lower_bound; [lia|].
  pose proof (Z.mul_div_le (rq_slba rq + rq_length rq) (8 * n) ltac:(lia)). nia.
Qed.

Lemma first_part ns : ns_inv ns -> exists f0 rest, ns_parts ns = f0 :: rest /\ part_inv f0.
Proof.
  intros Hns. pose proof (ni_len _ _ _ _ Hns) as Hl. destruct (ns_parts ns) as [|f0 rest] eqn:E; [simpl in Hl; lia|].
  exists f0, rest. split; [done|]. eapply (ni_parts _ _ _ _ Hns 0%nat). by rewrite E.
Qed.

(** A part whose tables are the same. *)
Lemma translate_same ns i f f' s' l : ns_parts ns !! i = Some f -> cf_maptbl f' = cf_maptbl f ->
  translate (ConvNs (<[i := f']> (ns_parts ns)) s' (ns_size ns)) l = translate ns l.
Proof.
  intros Ef Em. unfold translate. cbn [ns_parts]. rewrite length_insert.
  destruct (decide (Z.to_nat (l mod Z.of_nat (length (ns_parts ns))) = i)) as [->|Hne].
  - rewrite list_lookup_insert_eq by (by eapply lookup_lt_Some). rewrite Ef. simpl. by rewrite Em.
  - by rewrite list_lookup_insert_ne.
Qed.

Lemma wp_write_buffer req len f s (Q : Z -> conv_ftl * shared -> Prop) :
  part_inv f -> chan_ok (sh_pcie s) ->
  (forall r d s', part_inv (set_ssd d f) -> chan_ok (sh_pcie s') -> sh_wbuf s' = sh_wbuf s ->
     Q r (set_ssd d f, s')) ->
  wp never (on_ssd (ssd_advance_write_buffer req len)) Q (f, s).
Proof.
  intros Hf Hp HQ. pose proof (pv_core _ Hf) as (X & cur & HC & _).
  apply wp_on_ssd. unfold ssd_advance_write_buffer. apply wp_bind, wp_get.
  apply wp_ssd_advance_pcie; [apply (fi_ok _ _ (co_flash _ _ _ _ _ _ _ HC))|done|].
  intros r d s' (? & ? & [= <- <-] & Hs & Hok & Hp' & Hw & Hr). apply HQ; [by apply part_inv_flash|done..].
Qed.

(** A write is turned away and changes nothing, or maps its pages. *)
Lemma wp_conv_write rq ns : ns_inv ns -> request_ok ns rq = true ->
  wp never (conv_write rq) (fun r ns' => ns_inv ns' /\
    match r with
    | None => forall l, translate ns' l = translate ns l
    | Some _ => forall l, is_Some (translate ns' l) <->
        rq_slba rq / 8 <= l <= (rq_slba rq + rq_length rq) / 8 \/ is_Some (translate ns l)
    end) ns.
Proof.
  intros Hns Hok. destruct (request_range ns rq Hns Hok) as (a & e & Er & Ha & He & Hb & Hb32 & Ea & Ee).
  destruct (first_part ns Hns) as (f0 & rest & Ep & Hf0). pose proof (part_sp _ Hf0) as Esp. pose proof L_tt.
  unfold conv_write. apply wp_bind, wp_get. rewrite (ni_len _ _ _ _ Hns). rewrite Ep at 1. rewrite Esp, Er.
  destruct (ge_pgsz _ G) as [_ Es]. rewrite Es. cbn [Z.eqb]. cbv zeta.
  replace (tt_pgs spp <=? e / n) with false by lia.
  apply wp_bind, wp_zoom. unfold buffer_allocate. apply wp_bind, wp_get.
  rewrite (ni_wbuf _ _ _ _ Hns). replace (W <? LBA_TO_BYTE (rq_length rq + 1)) with false by lia.
  set (ns1 := fun b => ConvNs (ns_parts ns) (set_wbuf b (ns_shared ns)) (ns_size ns)).
  assert (Hns1 : forall b, bf_size b = W -> ns_inv (ns1 b)) by (intros b Hbw; destruct Hns; by split).
  apply wp_bind, wp_put, wp_ret. destruct (Z.ltb_spec (bf_remaining (sh_wbuf (ns_shared ns))) (LBA_TO_BYTE (rq_length rq + 1))).
  { rewrite wrap_small by (by unfold in_word). replace (0 <? LBA_TO_BYTE (rq_length rq + 1)) with true by lia.
    apply wp_ret. split; [by apply Hns1|done]. }
  rewrite (wrap_small 32) by (unfold in_word; lia). rewrite Z.ltb_irrefl.
  set (b1 := Buffer _ _). fold (ns1 b1). specialize (Hns1 b1 eq_refl). 
  assert (Hlk : ns_parts (ns1 b1) !! Z.to_nat 0 = Some f0) by (change (ns_parts (ns1 b1)) with (ns_parts ns); by rewrite Ep).
  apply wp_bind. eapply (wp_on_part 0 _ _ f0); [done|exact Hlk|].
  apply wp_write_buffer; [done|apply Hns1|]. intros xfer d s' Hpd Hp' Hb'. cbn [fst snd].
  assert (Hns2 : ns_inv (ConvNs (<[Z.to_nat 0 := set_ssd d f0]> (ns_parts (ns1 b1))) s' (ns_size (ns1 b1)))).
  { apply ns_inv_put; [done..|]. rewrite Hb'. apply Hns1. }
  apply wp_bind. apply wp_write_loop; [done|lia|lia|done|]. intros latest ns' Hns' Ht. apply wp_ret.
  split; [done|]. intros l. rewrite Ht, (translate_same _ _ _ _ _ _ Hlk), <- Ea, <- Ee by done. done.
Qed.

(** ** Reads *)

(** Reading changes times only. *)
Abbreviation reads m f s := (forall Q : Z -> conv_ftl * shared -> Prop,
  (forall r d s', part_inv (set_ssd d f) -> chan_ok (sh_pcie s') -> sh_wbuf s' = sh_wbuf s ->
     Q r (set_ssd d f, s')) -> wp never m Q (f, s)).

Lemma set_ssd_id f : set_ssd (cf_ssd f) f = f.
Proof. by destruct f. Qed.

Lemma wp_issue_read stime xfer prev latest f s :
  part_inv f -> chan_ok (sh_pcie s) -> (forall p, prev = Some p -> in_geometry spp p = true) ->
  reads (issue_read stime xfer prev latest) f s.
Proof.
  intros Hf Hp Hprev Q HQ. pose proof (pv_core _ Hf) as (X & cur & HC & _).
  pose proof (fi_ok _ _ (co_flash _ _ _ _ _ _ _ HC)) as Hok.
  assert (Hsame : forall r, Q r (f, s)) by (intros; rewrite <- (set_ssd_id f); apply HQ; rewrite ?set_ssd_id; done).
  unfold issue_read. destruct (Z.ltb_spec 0 xfer); [|by apply wp_ret]. destruct prev as [p|].
  - apply wp_bind, wp_on_ssd, wp_ssd_advance_nand; try done.
    + simpl. rewrite (part_sp _ Hf). by apply Hprev.
    + intros r d s' (? & ? & [= <- <-] & Hs & Hok' & Hp' & Hw & _). apply wp_ret, HQ; [by apply part_inv_flash|done..].
  - apply wp_bind. destruct (stime =? 0); [|by apply wp_ret, wp_ret].
    apply wp_on_ssd, wp_get_clock; [done..|].
    intros r s' (? & ? & [= <- <-] & Hs & _ & Hp' & Hw & _). apply wp_ret, HQ; [by apply part_inv_flash|done..].
Qed.

Lemma wp_read_loop fuel stime lpn end_lpn xfer prev latest f s :
  part_inv f -> chan_ok (sh_pcie s) -> (forall p, prev = Some p -> in_geometry spp p = true) ->
  0 <= lpn -> (Z.to_nat (end_lpn + 1 - lpn) < fuel)%nat -> end_lpn / n < tt_pgs spp ->
  reads (read_loop fuel n stime lpn end_lpn xfer prev latest) f s.
Proof.
  revert lpn xfer prev latest f s. induction fuel as [|fuel IH]; intros lpn xfer prev latest f s Hf Hp Hprev Hl Hfu He Q HQ; [lia|].
  cbn [read_loop]. destruct (Z.leb_spec lpn end_lpn) as [Hle|Hgt]; [|by apply wp_issue_read].
  pose proof (part_sp _ Hf) as Esp. apply wp_bind, wp_getf. cbv zeta. rewrite Esp. apply wp_bind.
  eapply (wp_get_maptbl_ent spp); [done| |].
  { split; [apply Z.div_pos; lia|]. pose proof (Z.div_le_mono lpn end_lpn n). lia. }
  destruct (cf_maptbl f !! (lpn / n)) as [p|] eqn:Em; [|apply IH; try done; lia].
  destruct (in_geometry spp p) eqn:Hg; cbn [negb]; [|apply IH; try done; lia].
  destruct (match prev with Some q => is_same_flash_page spp p q | None => false end);
    [apply IH; try done; lia|].
  apply wp_bind, wp_issue_read; [done..|]. intros r d s' Hf' Hp' Hb'.
  apply IH; try done; try lia; [naive_solver|]. intros r' d' s'' Hf'' Hp'' Hb''.
  apply HQ; [done|done|congruence].
Qed.

Lemma wp_read_parts fuel stime i start_lpn end_lpn latest ns (Q : Z -> conv_ns -> Prop) :
  ns_inv ns -> 0 <= i <= n -> 0 <= start_lpn -> (Z.to_nat (n - i) < fuel)%nat -> end_lpn / n < tt_pgs spp ->
  (forall r ns', ns_inv ns' -> (forall l, translate ns' l = translate ns l) -> Q r ns') ->
  wp never (read_parts fuel n stime i start_lpn end_lpn latest) Q ns.
Proof.
  revert i start_lpn latest ns. induction fuel as [|fuel IH]; intros i start_lpn latest ns Hns Hi Hs Hfu He HQ; [lia|].
  cbn [read_parts]. destruct ((i <? n) && (start_lpn <=? end_lpn)) eqn:Ec; [|by apply wp_ret, HQ].
  bool_to_prop. destruct (part_at ns start_lpn Hns) as (Hm & f & Ef & Hf).
  pose proof (pv_core _ Hf) as (X & cur & HC & _).
  apply wp_bind. eapply wp_on_part; [done|exact Ef|]. apply wp_bind.
  eapply (wp_get_maptbl_ent spp); [by apply part_sp| |].
  { split; [apply Z.div_pos; lia|]. pose proof (Z.div_le_mono start_lpn end_lpn n). lia. }
  apply wp_read_loop; try done; [apply Hns| |lia|].
  { intros p Em. by eapply (mi_mapped _ _ _ _ _ _ (co_map _ _ _ _ _ _ _ HC)). }
  intros r d s' Hf' Hp' Hb'. cbn [fst snd]. apply IH; try lia.
  - apply ns_inv_put; [done..|]. rewrite Hb'. apply Hns.
  - intros r' ns' Hns' Ht. apply HQ; [done|]. intros l. rewrite Ht. by eapply translate_same.
Qed.

Lemma wp_conv_read rq ns : ns_inv ns -> request_ok ns rq = true ->
  wp never (conv_read rq) (fun _ ns' => ns_inv ns' /\ forall l, translate ns' l = translate ns l) ns.
Proof.
  intros Hns Hok. destruct (request_range ns rq Hns Hok) as (a & e & Er & Ha & He & _).
  destruct (first_part ns Hns) as (f0 & rest & Ep & Hf0). pose proof (part_sp _ Hf0) as Esp. pose proof L_tt.
  unfold conv_read. apply wp_bind, wp_get. rewrite (ni_len _ _ _ _ Hns). rewrite Ep at 1. rewrite Esp, Er.
  destruct (ge_pgsz _ G) as [_ Es]. rewrite Es. cbn [Z.eqb]. cbv zeta.
  replace (tt_pgs spp <=? e / n) with false by lia.
  apply wp_bind, wp_read_parts; try lia; [done|]. intros r ns' Hns' Ht. by apply wp_ret.
Qed.

(** ** Flush *)

Lemma wp_flush_parts js latest ns : ns_inv ns -> (forall i, i ∈ js -> 0 <= i < n) ->
  wp never (flush_parts js latest) (fun _ ns' => ns_inv ns' /\ forall l, translate ns' l = translate ns l) ns.
Proof.
  revert latest ns. induction js as [|i js IH]; intros latest ns Hns Hi; cbn [flush_parts]; [done|].
  assert (Hr : 0 <= i < n) by (apply Hi; by left).
  destruct (part_at ns i Hns) as (Hm & f & Ef & Hf). rewrite Z.mod_small in Ef, Hm by done.
  pose proof (pv_core _ Hf) as (X & cur & HC & _).
  apply wp_bind. eapply wp_on_part; [lia|exact Ef|]. apply wp_on_ssd. unfold ssd_next_idle_time.
  apply wp_bind, wp_get_clock; [apply (fi_ok _ _ (co_flash _ _ _ _ _ _ _ HC))|apply Hns|].
  intros r s' (? & ? & [= <- <-] & Hs & _ & Hp' & Hw & _). apply wp_bind, wp_get, wp_ret. cbn [fst snd].
  rewrite set_ssd_id. eapply wp_mono.
  - apply IH; [|intros; apply Hi; by right]. apply ns_inv_put; [done..|]. rewrite Hw. apply Hns.
  - intros r' ns' [Hns' Ht]. split; [done|]. intros l. rewrite Ht. by eapply translate_same.
Qed.

Lemma wp_conv_flush start ns : ns_inv ns ->
  wp never (conv_flush start) (fun _ ns' => ns_inv ns' /\ forall l, translate ns' l = translate ns l) ns.
Proof.
  intros Hns. unfold conv_flush. apply wp_bind, wp_get. apply wp_flush_parts; [done|].
  intros i. rewrite elem_of_seqZ, (ni_len _ _ _ _ Hns). lia.
Qed.

(** ** All commands *)

Definition writes (opcode : Z) (ans : conv_answer) (rq : rw_request) (l : Z) : Prop :=
  opcode = nvme_cmd_write /\ ans <> NotTaken /\
  rq_slba rq / 8 <= l <= (rq_slba rq + rq_length rq) / 8.

Lemma wp_conv_proc start opcode rq ns : ns_inv ns -> request_ok ns rq = true ->
  wp never (conv_proc_nvme_io_cmd start opcode rq) (fun ans ns' => ns_inv ns' /\
    (forall l, is_Some (translate ns' l) <-> writes opcode ans rq l \/ is_Some (translate ns l)) /\
    (opcode <> nvme_cmd_write \/ ans = NotTaken -> forall l, translate ns' l = translate ns l)) ns.
Proof.
  intros Hns Hok.
  assert (Hsame : forall ans ns', (opcode <> nvme_cmd_write \/ ans = NotTaken) -> ns_inv ns' ->
    (forall l, translate ns' l = translate ns l) -> ns_inv ns' /\
    (forall l, is_Some (translate ns' l) <-> writes opcode ans rq l \/ is_Some (translate ns l)) /\
    (opcode <> nvme_cmd_write \/ ans = NotTaken -> forall l, translate ns' l = translate ns l)).
  { intros ans ns' Hc Hns' Ht. split; [done|]. split; [|done]. intros l. rewrite Ht. split; [by right|].
    intros [(? & ? & _)|?]; [|done]. by destruct Hc. }
  unfold conv_proc_nvme_io_cmd. destruct (Z.eqb_spec opcode nvme_cmd_write) as [->|Hw].
  - apply wp_bind. eapply wp_mono; [by apply wp_conv_write|]. intros [t|] ns' [Hns' Ht]; apply wp_ret.
    + split; [done|]. split; [|by intros [?|?]]. intros l. rewrite Ht. unfold writes. naive_solver.
    + apply Hsame; auto.
  - destruct (opcode =? nvme_cmd_read).
    + apply wp_bind. eapply wp_mono; [by apply wp_conv_read|]. intros r ns' [Hns' Ht]. apply wp_ret, Hsame; auto.
    + destruct (opcode =? nvme_cmd_flush); [|apply wp_ret, Hsame; auto].
      apply wp_bind. eapply wp_mono; [by apply wp_conv_flush|]. intros r ns' [Hns' Ht]. apply wp_ret, Hsame; auto.
Qed.

End namespace.
End commands.
