(* ===== verification/ConvFtlProps.v ===== *)
(** * Correctness of the page-mapping layer (proofs about ConvFtl)

    From initialisation on, whatever commands inside the namespace arrive and in
    whatever order: no command fails, the mapping is one to one, and no line is lost. *)
From S2P Require Import Prelude Pqueue PqueueProps ChannelModel Ssd SsdProps.
From S2P Require Import ConvFtl ConvFtlSpec ConvFtlInv ConvFtlLines ConvFtlMap ConvFtlOps ConvFtlGc ConvFtlCmd.

(** ** Initialisation *)

(** Sizes that fit the fields of a page address, and channels that have credits. *)
Definition params_ok (spp : ssdparams) : bool :=
  (blks_per_pl spp <=? 65536) && (pgs_per_blk spp <=? 65536) && (1 <? pgs_per_line spp)
  && (pgs_per_line spp <? 2 ^ 31) && (0 <? cell_mode spp) && (0 <? max_ch_xfer_size spp)
  && (0 <? u32 (BANDWIDTH_TO_MAX_CREDITS (ch_bandwidth spp)))
  && (0 <? u32 (BANDWIDTH_TO_MAX_CREDITS (pcie_bandwidth spp))).

#[local] Opaque NR_CREDIT_ENTRIES.

Section init.
Context (spp : ssdparams) (F : fits spp) (Hok : params_ok spp = true).
Let G : geometry spp := ft_geometry spp F.
Abbreviation P := (pgs_per_line spp).
Abbreviation T := (blks_per_pl spp).
Context (L : Z) (HL : 0 <= L < (T - 4) * P).

Lemma ssd_init_pcie_ok pcie : ssd_init_pcie spp = Some pcie -> chan_ok pcie.
Proof. unfold params_ok in Hok. bool_to_prop. by apply ssd_init_pcie_safe. Qed.

Lemma ssd_init_ok d : ssd_init spp = Some d ->
  sp d = spp /\ ssd_ok d /\ sd_pg d = ∅ /\ sd_blk d = ∅.
Proof. unfold params_ok in Hok. bool_to_prop. by apply ssd_init_safe. Qed.

(** All lines are free. *)
Lemma init_lines_inv d : sp d = spp -> sd_pg d = ∅ ->
  exists lm, init_lines spp = Some lm /\ lines_inv spp d lm None ∅ (fun _ => None) /\
    lm_free_line_list lm = seqZ 0 T.
Proof.
  intros Esp Epg. pose proof (ge_blks _ G) as HT. pose proof (ft_blks _ F) as HTb.
  assert (Et : T = tt_lines spp) by (rewrite (ge_lines _ G), (ft_pls _ F); lia).
  assert (Hg : forall p, get_pg d p = PG_FREE) by (intros; unfold get_pg; by rewrite Epg).
  assert (Hn : forall x b, nstatus x d b = 0).
  { intros. unfold nstatus. rewrite Epg. by apply mcount_zero. }
  unfold init_lines. rewrite <- Et.
  destruct (pqueue_init true true T) as [q|] eqn:Eq; [|done].
  rewrite option_guard_True by done. simpl. eexists. split; [done|]. split; [|done].
  destruct (pqueue_init_rep T q ((fun i => Line i 0 0 0) <$> seqZ 0 T) ltac:(lia) Eq) as [Hq Ha].
  split; cbn [lm_lines lm_free_line_list lm_victim_line_pq lm_full_line_list lm_free_line_cnt
    lm_victim_line_cnt lm_full_line_cnt]; try done; try set_solver.
  - rewrite length_fmap, length_seqZ. lia.
  - intros b Hb. exists (Line b 0 0 0). rewrite !Hn. split; [|done]. unfold read_line.
    replace (0 <=? b) with true by lia. rewrite list_lookup_fmap.
    rewrite (proj2 (lookup_seqZ 0 T (Z.to_nat b) b)) by lia. done.
  - unfold parts. simpl. by rewrite elements_empty, !app_nil_r.
  - intros b _ k Hk. rewrite Hg. split; [done|lia].
  - rewrite length_seqZ. lia.
Qed.

Lemma wp_prepare t X cur f s (Q : unit -> conv_ftl * shared -> Prop) :
  lines_inv spp (cf_ssd f) (cf_lm f) None X cur -> cur t = None -> lm_free_line_list (cf_lm f) <> [] ->
  (forall b rest lm', lm_free_line_list (cf_lm f) = b :: rest -> lm_free_line_list lm' = rest ->
     lines_inv spp (cf_ssd f) lm' None X (set_cur cur t (Some (b, 0))) ->
     Q tt (set_wp t (wp_at spp b 0) (set_lm lm' f), s)) ->
  wp never (prepare_write_pointer t) Q (f, s).
Proof.
  intros HI Ht Hne HQ. unfold prepare_write_pointer. apply wp_bind, wp_on_lm.
  eapply (wp_get_next_free_line _ F _ _ _ _ _ HI t); [done..|]. intros b rest Ef lm' HI'.
  assert (Hb : 0 <= b < T).
  { eapply (line_range _ F _ _ _ _ _ HI'). right. right. right. left. exists t, 0. unfold set_cur. by rewrite decide_True. }
  destruct (li_table _ _ _ _ _ _ HI' b Hb) as (l & El & Hid & _).
  apply wp_bind, wp_on_lm. eapply wp_get_line; [exact El|]. apply wp_modf. rewrite Hid, <- (wp_at_0 _ F).
  by apply (HQ b rest).
Qed.

Lemma conv_init_ftl_inv cpp d :
  sp d = spp -> ssd_ok d -> sd_pg d = ∅ -> sd_blk d = ∅ -> gc_thres_lines_high cpp = 2 ->
  exists f, conv_init_ftl cpp d = Some f /\ part_inv spp L f /\ cf_maptbl f = ∅.
Proof.
  intros Esp Hd Epg Ebl Hth. pose proof (ft_line _ F) as HP.
  destruct (init_lines_inv d Esp Epg) as (lm & Elm & HI & Efree).
  unfold conv_init_ftl. rewrite Esp, Elm. simpl. set (none := Wp 0 0 0 0 0 0).
  set (f0 := ConvFtl _ _ _ _ _ _ _ _). set (s0 := Shared _ _ _ _ _).
  assert (Hnil : forall x n, 0 < n -> seqZ x n <> []).
  { intros x n Hx E. apply (f_equal length) in E. rewrite length_seqZ in E. simpl in E. lia. }
  assert (T > 4) by nia.
  assert (Hwp : wp never (_ ← prepare_write_pointer USER_IO; prepare_write_pointer GC_IO)
    (fun _ st => part_inv spp L (fst st) /\ cf_maptbl (fst st) = ∅) (f0, s0)).
  { apply wp_bind. eapply (wp_prepare USER_IO ∅ (fun _ => None)); [exact HI|done| |].
    { simpl. rewrite Efree. apply Hnil. lia. }
    cbn [cf_lm f0 cf_ssd]. intros b1 r1 lm1 E1 Er1 HI1. rewrite Efree in E1.
    rewrite seqZ_cons in E1 by lia. injection E1 as _ Hr1.
    eapply (wp_prepare GC_IO ∅ (set_cur (fun _ => None) USER_IO (Some (b1, 0)))); [exact HI1|done| |].
    { simpl. rewrite Er1, <- Hr1. apply Hnil. lia. }
    cbn [cf_lm cf_ssd set_wp set_lm f0]. intros b2 r2 lm2 E2 Er2 HI2.
    rewrite Er1, <- Hr1, seqZ_cons in E2 by lia. injection E2 as _ Hr2.
    set (cur := set_cur _ _ _) in HI2.
    assert (Ef : Z.of_nat (length r2) = T - 2) by (rewrite <- Hr2, length_seqZ; lia).
    split; [|done]. split; simpl; rewrite ?wrap_small by (unfold in_word; lia); try lia; try done.
    exists ∅, cur. split.
    - split; simpl; try done.
      + split; try done; [by rewrite Epg|]. intros p _. unfold get_blk, bstatus. rewrite Ebl, Epg. simpl.
        by rewrite !mcount_zero.
      + split; [done|]. intros p. unfold get_pg. by rewrite Epg.
      + intros [|]; [exists b1, 0|exists b2, 0]; (split; [done|]; split; [lia|done]).
    - unfold spare, room. cbn [cf_lm set_wp set_lm f0]. rewrite Er2, Ef. simpl. lia. }
  apply wp_done in Hwp as (a & [f s] & E & Hf & Hm). rewrite E. eauto.
Qed.
End init.

(** ** Histories of a drive *)

(** The namespace leaves at least four lines and a page of every part to spare. *)
Definition overprovisioned (spp : ssdparams) (ns : conv_ns) : bool :=
  ns_size ns / (4096 * Z.of_nat (length (ns_parts ns))) + 1 <? (blks_per_pl spp - 4) * pgs_per_line spp.

(** The drive just after [conv_init_namespace]. *)
Record started (cf : ssd_config) (op_area_pcent capacity : Z) (clock : nat -> Z) (spp : ssdparams)
    (ns : conv_ns) : Prop := {
  dr_config : config_ok cf = true;
  dr_capacity : SSD_PARTITIONS cf <= capacity < 2 ^ 63;
  dr_params : ssd_init_params cf capacity (SSD_PARTITIONS cf) = Some spp;
  dr_fits : params_ok spp = true;
  dr_init : conv_init_namespace cf op_area_pcent capacity clock = Some ns;
  dr_percent : 0 <= op_area_pcent;
  dr_room : overprovisioned spp ns = true
}.

(** A command, or the return of write-buffer space by an I/O worker. *)
Inductive conv_step : conv_ns -> conv_ns -> Prop :=
| step_command start opcode rq ans ns ns' :
    request_ok ns rq = true -> conv_proc_nvme_io_cmd start opcode rq ns = Done ans ns' -> conv_step ns ns'
| step_release bytes b ns :
    buffer_release bytes (sh_wbuf (ns_shared ns)) = Done true b ->
    conv_step ns (ConvNs (ns_parts ns) (set_wbuf b (ns_shared ns)) (ns_size ns)).

Section histories.
Context (cf : ssd_config) (op_area_pcent capacity : Z) (clock : nat -> Z) (spp : ssdparams) (ns0 : conv_ns).
Context (Hst : started cf op_area_pcent capacity clock spp ns0).

Let n := Z.of_nat (length (ns_parts ns0)).
Let L := ns_size ns0 / (4096 * n) + 1.

Lemma started_fits : fits spp.
Proof.
  destruct Hst as [H1 H2 H3 H4 _ _ _].
  destruct (init_params_geometry _ _ _ H1 H2 H3) as (HG & _ & Hch & Hlu & Hpl).
  unfold config_ok in H1. unfold params_ok in H4. bool_to_prop.
  pose proof (ge_nchs _ HG). split; try done; lia.
Qed.

Lemma started_parts : exists f pcie b, ns0 = ConvNs (replicate (Z.to_nat (SSD_PARTITIONS cf)) f)
    (Shared pcie b clock 0 []) (u64 (capacity * 100) / (100 + op_area_pcent)) /\
  chan_ok pcie /\ n = SSD_PARTITIONS cf /\ 0 < n /\
  exists d, sp d = spp /\ ssd_ok d /\ sd_pg d = ∅ /\ sd_blk d = ∅ /\
    conv_init_ftl (conv_init_params op_area_pcent) d = Some f.
Proof.
  destruct Hst as [H1 H2 H3 H4 H5 _ _]. unfold conv_init_namespace in H5. rewrite H3 in H5. simpl in H5.
  apply bind_Some in H5 as (d & Hd & H5). apply bind_Some in H5 as (f & Hf & H5).
  apply bind_Some in H5 as (pcie & Hp & [= H5]).
  destruct (ssd_init_ok spp started_fits H4 d Hd) as (E1 & E2 & E3 & E4). pose proof (ssd_init_pcie_ok spp H4 pcie Hp).
  assert (0 < SSD_PARTITIONS cf) by (unfold config_ok in H1; by bool_to_prop).
  exists f, pcie, (buffer_init (write_buffer_size spp)). split; [done|]. split; [done|].
  unfold n. rewrite <- H5. simpl. rewrite length_replicate. split_and!; try lia. by exists d.
Qed.

Abbreviation inv := (ns_inv spp L n (bf_size (sh_wbuf (ns_shared ns0))) (ns_size ns0)).

Lemma room_left : 0 <= L < (blks_per_pl spp - 4) * pgs_per_line spp /\
  ns_size ns0 / (4096 * n) < L /\ 0 < n.
Proof.
  pose proof (dr_room _ _ _ _ _ _ Hst) as Hr. unfold overprovisioned in Hr. bool_to_prop.
  destruct started_parts as (f & pcie & b & E & _ & _ & Hn & _). fold n in Hr.
  assert (0 <= ns_size ns0 / (4096 * n)).
  { apply Z.div_pos; [|lia]. rewrite E. simpl. pose proof (dr_percent _ _ _ _ _ _ Hst).
    apply Z.div_pos; [|lia]. apply wrap_in_word. lia. }
  unfold L in *. lia.
Qed.

Lemma started_inv : inv ns0 /\ forall l, translate ns0 l = None.
Proof.
  destruct started_parts as (f & pcie & b & E & Hp & Hn & Hn0 & d & E1 & E2 & E3 & E4 & Ef).
  destruct room_left as (HL & _). pose proof started_fits as F.
  destruct (conv_init_ftl_inv spp F (dr_fits _ _ _ _ _ _ Hst) L HL (conv_init_params op_area_pcent) d) as (f' & Ef' & Hf & Hm); [done..|].
  assert (f' = f) as -> by congruence. split.
  - split; try done; [|by rewrite E]. intros i g. rewrite E. simpl.
    by intros [-> _]%lookup_replicate.
  - intros l. rewrite E. unfold translate. simpl. destruct (replicate _ _ !! _) as [g|] eqn:Er; [|done].
    apply lookup_replicate in Er as [-> _]. simpl. by rewrite Hm.
Qed.

Lemma command_inv start opcode rq ns : inv ns -> request_ok ns rq = true ->
  wp never (conv_proc_nvme_io_cmd start opcode rq) (fun ans ns' => inv ns' /\
    (forall l, is_Some (translate ns' l) <-> writes opcode ans rq l \/ is_Some (translate ns l)) /\
    (opcode <> nvme_cmd_write \/ ans = NotTaken -> forall l, translate ns' l = translate ns l)) ns.
Proof.
  intros Hns Hrq. destruct room_left as (HL & Hs & Hn).
  by apply (wp_conv_proc _ started_fits _ HL _ _ _ Hn Hs).
Qed.

Lemma history_inv ns : reachable conv_step (eq ns0) ns -> inv ns.
Proof.
  apply reachable_invariant; [intros ? <-; apply started_inv|]. intros ns1 ns2 Hns Hstep.
  destruct Hstep as [start opcode rq ans ns1 ns2 Hrq E|bytes b ns1 E].
  - pose proof (command_inv start opcode rq ns1 Hns Hrq) as Hwp. unfold wp in Hwp. rewrite E in Hwp. apply Hwp.
  - unfold buffer_release in E. injection E as <-. destruct Hns. by split.
Qed.

End histories.

(** ** What holds in every history *)


(** C18: the mapping is one to one.  After any history, in every part, a mapped logical
    page lies on a valid flash page whose reverse entry leads back to it, and every valid
    flash page belongs to exactly one logical page: no two logical pages share a flash
    page, and none is lost when garbage collection moves pages. *)
Theorem conv_mapping_one_to_one cf op_area_pcent capacity clock spp ns0 ns i f :
  started cf op_area_pcent capacity clock spp ns0 -> reachable conv_step (eq ns0) ns ->
  ns_parts ns !! i = Some f ->
  (forall lpn p, cf_maptbl f !! lpn = Some p -> in_geometry spp p = true /\
     get_pg (cf_ssd f) p = PG_VALID /\ cf_rmap f !! pgidx spp p = Some lpn) /\
  (forall p, get_pg (cf_ssd f) p = PG_VALID -> exists! lpn, cf_maptbl f !! lpn = Some p).
Proof.
  intros Hst Hr Hi. pose proof (history_inv _ _ _ _ _ _ Hst ns Hr) as Hns.
  destruct (pv_core _ _ _ (ni_parts _ _ _ _ _ _ Hns i f Hi)) as (X & cur & [_ _ [M1 M2] _] & _).
  assert (Hm : forall lpn p, cf_maptbl f !! lpn = Some p -> in_geometry spp p = true /\
    get_pg (cf_ssd f) p = PG_VALID /\ cf_rmap f !! pgidx spp p = Some lpn) by (intros; edestruct M1; naive_solver).
  split; [done|]. intros p Hv. destruct (M2 p Hv I) as (_ & lpn & _ & Hrm & E). exists lpn. split; [done|].
  intros lpn' E'. destruct (Hm _ _ E') as (_ & _ & Hr'). congruence.
Qed.

(** C22: no line is lost.  After any history, in every part, the free, victim and full
    lines and the two lines under the write pointers are all the lines there are, a
    free line is left, the counters of every line are the numbers of its valid and
    invalid pages, and the page under each write pointer is free. *)
Theorem conv_lines_accounted cf op_area_pcent capacity clock spp ns0 ns i f :
  started cf op_area_pcent capacity clock spp ns0 -> reachable conv_step (eq ns0) ns ->
  ns_parts ns !! i = Some f ->
  lm_free_line_cnt (cf_lm f) + lm_victim_line_cnt (cf_lm f) + lm_full_line_cnt (cf_lm f) + 2
    = blks_per_pl spp /\
  1 <= lm_free_line_cnt (cf_lm f) /\
  (forall b, 0 <= b < blks_per_pl spp -> exists l, read_line (lm_lines (cf_lm f)) b = Some l /\
     ln_vpc l = nvalid (cf_ssd f) b /\ ln_ipc l = ninvalid (cf_ssd f) b) /\
  (forall t, let w := get_wp t f in
     get_pg (cf_ssd f) (make_ppa (wp_ch w) (wp_lun w) (wp_pl w) (wp_blk w) (wp_pg w)) = PG_FREE).
Proof.
  intros Hst Hr Hi. pose proof (history_inv _ _ _ _ _ _ Hst ns Hr) as Hns.
  pose proof (started_fits _ _ _ _ _ _ Hst) as F. pose proof (ft_line _ F) as HP.
  destruct (ni_parts _ _ _ _ _ _ Hns i f Hi) as [(X & cur & [K1 K2 K3 K4] & Hs) _ Hc _ _].
  destruct (K4 USER_IO) as (b1 & k1 & E1 & Hk1 & _), (K4 GC_IO) as (b2 & k2 & E2 & Hk2 & _).
  pose proof (size_lists _ F _ _ _ _ _ K2) as Hsz. unfold cur_lines in Hsz. rewrite E1, E2 in Hsz. simpl in Hsz.
  rewrite (li_nfree _ _ _ _ _ _ K2), (li_nfull _ _ _ _ _ _ K2), (li_nvict _ _ _ _ _ _ K2).
  split; [lia|]. split; [|split].
  - pose proof (room_range _ _ _ _ _ E1 Hk1). pose proof (room_range _ _ _ _ _ E2 Hk2). unfold spare in Hs. nia.
  - intros b Hb. destruct (line_counts _ _ _ _ _ _ K2 b Hb) as (l & ? & _ & _ & ? & ?); [done|eauto].
  - intros t w. destruct (K4 t) as (b & k & Et & Hk & Ew). subst w. rewrite Ew. unfold wp_at.
    assert (Hb : 0 <= b < blks_per_pl spp) by (eapply (line_range _ F _ _ _ _ _ K2); eauto 10).
    cbn [wp_ch wp_lun wp_pl wp_blk wp_pg]. rewrite page_at_fields by done.
    destruct (li_cur _ _ _ _ _ _ K2 _ _ _ Et) as [_ Hw].
    destruct (decide (get_pg (cf_ssd f) (page_at spp b k) = PG_FREE)) as [|Hn]; [done|]. apply (Hw k) in Hn; lia.
Qed.

(** ** A small drive *)

Module Sample.

(** Two parts, 8 lines of 8 pages each. *)
Definition small : ssd_config := {|
  SSD_PARTITIONS := 2; NAND_CHANNELS := 4; LUNS_PER_NAND_CH := 1; PLNS_PER_LUN := 1;
  CELL_MODE := 2; FLASH_PAGE_SIZE := 4096; ONESHOT_PAGE_SIZE := 8192;
  BLKS_PER_PLN := 8; BLK_SIZE := 0;
  MAX_CH_XFER_SIZE := 4096; WRITE_UNIT_SIZE := 512;
  NAND_CHANNEL_BANDWIDTH := 800; PCIE_BANDWIDTH := 3360;
  NAND_4KB_READ_LATENCY := (29760, 41760, 0); NAND_READ_LATENCY := (30013, 42013, 0);
  NAND_PROG_LATENCY := 185000; NAND_ERASE_LATENCY := 0;
  FW_4KB_READ_LATENCY := 21500; FW_READ_LATENCY := 30490;
  FW_WBUF_LATENCY0 := 4000; FW_WBUF_LATENCY1 := 460; FW_CH_XFER_LATENCY := 0;
  GLOBAL_WB_SIZE := 1000000000; WRITE_EARLY_COMPLETION := true
|}.

Definition capacity : Z := 2 * 8 * 8 * 4096.
Definition clock : nat -> Z := fun _ => 1000.
Definition command (lpn : Z) : rw_request := RwRequest (8 * lpn) 7 0 0 1000.

Fixpoint run (lpns : list Z) (ns : conv_ns) : option conv_ns :=
  match lpns with
  | [] => Some ns
  | lpn :: rest =>
    if request_ok ns (command lpn) then
      match conv_proc_nvme_io_cmd 0 nvme_cmd_write (command lpn) ns with
      | Done _ ns' => run rest ns'
      | _ => None
      end
    else None
  end.

Lemma run_reachable ns0 lpns ns ns' :
  reachable conv_step (eq ns0) ns -> run lpns ns = Some ns' -> reachable conv_step (eq ns0) ns'.
Proof.
  revert ns. induction lpns as [|lpn rest IH]; intros ns Hr E; simpl in E; [by simplify_eq|].
  destruct (request_ok ns (command lpn)) eqn:Erq; [|done].
  destruct (conv_proc_nvme_io_cmd _ _ _ ns) as [ans ns1| |] eqn:Ec; try done.
  eapply IH; [|exact E]. eapply reach_step; [exact Hr|]. by eapply step_command.
Qed.

(** The drive after 300 writes to 40 pages, when lines have been collected many times. *)
Definition lpns : list Z := (fun i => i * 7 mod 40) <$> seqZ 0 300.

Definition after (ospp : option ssdparams) (ons : option conv_ns) (lpns : list Z)
    : option (ssdparams * conv_ns * conv_ns) :=
  spp ← ospp; ns0 ← ons; ns ← run lpns ns0; Some (spp, ns0, ns).

Lemma after_Some ospp ons lpns spp ns0 ns : after ospp ons lpns = Some (spp, ns0, ns) ->
  ospp = Some spp /\ ons = Some ns0 /\ reachable conv_step (eq ns0) ns.
Proof.
  intros E. apply bind_Some in E as (spp' & -> & E). apply bind_Some in E as (ns0' & -> & E).
  apply bind_Some in E as (ns' & Er & [= -> -> ->]). split; [done|]. split; [done|].
  eapply run_reachable; [by apply reach_init|exact Er].
Qed.

Definition state : option (ssdparams * conv_ns * conv_ns) :=
  after (ssd_init_params small capacity (SSD_PARTITIONS small))
    (conv_init_namespace small 120 capacity clock) lpns.

Lemma sample_params :
  match ssd_init_params small capacity (SSD_PARTITIONS small), conv_init_namespace small 120 capacity clock with
  | Some spp, Some ns0 => params_ok spp && overprovisioned spp ns0
  | _, _ => false
  end = true.
Proof. vm_compute. reflexivity. Qed.

Lemma sample_config : config_ok small = true /\ SSD_PARTITIONS small <= capacity < 2 ^ 63 /\ 0 <= 120.
Proof. done. Qed.

Lemma state_ok spp ns0 ns : state = Some (spp, ns0, ns) ->
  started small 120 capacity clock spp ns0 /\ reachable conv_step (eq ns0) ns.
Proof.
  unfold state. intros E. destruct (after_Some _ _ _ _ _ _ E) as (Es & En & Hr). split; [|exact Hr].
  pose proof sample_params as Hp. rewrite Es, En in Hp. apply andb_true_iff in Hp as [Hp Ho].
  destruct sample_config as (Hc & Hcap & Hop). exact (Build_started _ _ _ _ _ _ Hc Hcap Es Hp En Hop Ho).
Qed.


(** The first part. *)
Lemma sample_part :
  match state with
  | Some (_, _, ns) => match ns_parts ns with [] => false | _ => true end
  | None => false
  end = true.
Proof. vm_compute. reflexivity. Qed.

Lemma conv_mapping_one_to_one_witness :
  match state with
  | Some (spp, _, ns) =>
    match ns_parts ns with
    | f :: _ => forall p, get_pg (cf_ssd f) p = PG_VALID -> exists! lpn, cf_maptbl f !! lpn = Some p
    | [] => False
    end
  | None => False
  end.
Proof.
  pose proof sample_part as Hp. destruct state as [[[spp ns0] ns]|] eqn:E; [|discriminate Hp].
  destruct (state_ok _ _ _ E) as [Hst Hr]. destruct (ns_parts ns) as [|f fs] eqn:Ef; [discriminate Hp|].
  apply (conv_mapping_one_to_one small 120 capacity clock spp ns0 ns 0 f Hst Hr). by rewrite Ef.
Defined.

Lemma conv_lines_accounted_witness :
  match state with
  | Some (spp, _, ns) =>
    match ns_parts ns with
    | f :: _ => lm_free_line_cnt (cf_lm f) + lm_victim_line_cnt (cf_lm f) + lm_full_line_cnt (cf_lm f) + 2
                  = blks_per_pl spp /\ 1 <= lm_free_line_cnt (cf_lm f)
    | [] => False
    end
  | None => False
  end.
Proof.
  pose proof sample_part as Hp. destruct state as [[[spp ns0] ns]|] eqn:E; [|discriminate Hp].
  destruct (state_ok _ _ _ E) as [Hst Hr]. destruct (ns_parts ns) as [|f fs] eqn:Ef; [discriminate Hp|].
  destruct (conv_lines_accounted small 120 capacity clock spp ns0 ns 0 f Hst Hr) as (H1 & H2 & _);
    [by rewrite Ef|by split].
Defined.

(** [conv_write] takes from the write buffer the bytes of the command, but gives back
    whole one-shot pages: four commands of one sector take 2048 bytes and schedule the
    release of 16384. *)
Definition sector (i : Z) : rw_request := RwRequest (8 * i) 0 0 0 1000.

Fixpoint run_all (rqs : list rw_request) (ns : conv_ns) : option conv_ns :=
  match rqs with
  | [] => Some ns
  | rq :: rest => match conv_write rq ns with Done _ ns' => run_all rest ns' | _ => None end
  end.

Example write_buffer_over_released :
  match conv_init_namespace small 120 capacity clock with
  | Some ns0 =>
    match run_all (sector <$> [0; 1; 2; 3]) ns0 with
    | Some ns => (bf_remaining (sh_wbuf (ns_shared ns0)) - bf_remaining (sh_wbuf (ns_shared ns)),
                  foldr Z.add 0 (snd <$> sh_releases (ns_shared ns)))
    | None => (0, 0)
    end
  | None => (0, 0)
  end = (2048, 16384).
Proof. vm_compute. reflexivity. Qed.

(** The range check of [conv_write] is against the flash, not the namespace: commands
    beyond the namespace are taken and use the spare lines up, until a write finds no
    free line and dereferences a null pointer. *)
Example spare_lines_used_up :
  match conv_init_namespace small 120 capacity clock with
  | Some ns0 =>
    match run_all (command <$> seqZ 0 110) ns0 with
    | Some ns => forallb (fun l => bool_decide (is_Some (translate ns l))) (seqZ 0 110)
    | None => false
    end
  | None => false
  end = true /\
  match conv_init_namespace small 120 capacity clock with
  | Some ns0 => run_all (command <$> seqZ 0 128) ns0
  | None => None
  end = None.
Proof. split; vm_compute; reflexivity. Qed.

(** The shipped drive with 64 GiB and 7% over-provisioning has room to spare too. *)
Example samsung_started :
  match ssd_init_params SAMSUNG_970PRO (2 ^ 36) 4 with
  | Some spp => params_ok spp &&
      (u64 (2 ^ 36 * 100) / 107 / (4096 * 4) + 1 <? (blks_per_pl spp - 4) * pgs_per_line spp)
  | None => false
  end = true.
Proof. vm_compute. reflexivity. Qed.

End Sample.
