(* ===== verification/Zns.v ===== *)
(** * Zoned namespaces of the emulator (lib/nvmevirt: zns_ftl.c, zns_mgmt_send.c,
      zns_mgmt_recv.c, zns_read_write.c)

    A zone is written in order; commands move it between the states of the Zoned
    Namespace specification and count the zones that are open, active or have a
    random write area (ZRWA).  [ASSERT] is empty in this code, so a counter that is
    released at zero wraps.  An index outside the table of zones, a division by zero
    and a status that was never assigned are undefined. *)
From S2P Require Import Prelude ChannelModel Ssd KvFtl.

(** ** Parameters *)

(** What ssd_config.h defines for the zoned devices. *)
Record zns_config := ZnsConfig {
  ZONE_SIZE : Z; DIES_PER_ZONE : Z; MAX_ZRWA_ZONES : Z; ZONE_WB_SIZE : Z;
  ZRWAFG_SIZE : Z; ZRWA_SIZE : Z; ZRWA_BUFFER_SIZE : Z
}.

Definition ZNS_PROTOTYPE_zones : zns_config := ZnsConfig (MB 32) 1 0 0 0 0 0.
Definition WD_ZN540_zones : zns_config := ZnsConfig (GB 2) 32 0 (10 * (KB 32 * 3)) 0 0 0.

Record znsparams := ZnsParams {
  zp_nr_zones : Z; zp_nr_active_zones : Z; zp_nr_open_zones : Z; zp_dies_per_zone : Z;
  zp_zone_size : Z; zp_zone_wb_size : Z;
  zp_nr_zrwa_zones : Z; zp_zrwafg_size : Z; zp_zrwa_size : Z; zp_zrwa_buffer_size : Z;
  zp_lbas_per_zrwafg : Z; zp_lbas_per_zrwa : Z
}.

(** ** Zones *)

Inductive zone_state :=
| ZONE_STATE_EMPTY | ZONE_STATE_OPENED_IMPL | ZONE_STATE_OPENED_EXPL | ZONE_STATE_CLOSED
| ZONE_STATE_READ_ONLY | ZONE_STATE_FULL | ZONE_STATE_OFFLINE.

#[export] Instance zone_state_eq_dec : EqDecision zone_state.
Proof. solve_decision. Defined.

Definition zone_state_code (s : zone_state) : Z :=
  match s with
  | ZONE_STATE_EMPTY => 1 | ZONE_STATE_OPENED_IMPL => 2 | ZONE_STATE_OPENED_EXPL => 3
  | ZONE_STATE_CLOSED => 4 | ZONE_STATE_READ_ONLY => 13 | ZONE_STATE_FULL => 14 | ZONE_STATE_OFFLINE => 15
  end.

Definition ZONE_TYPE_SEQ_WRITE_REQUIRED : Z := 2.

(** [struct zone_descriptor]; of the attributes only [zrwav] is ever set. *)
Record zone_descriptor := Zone {
  zd_state : zone_state; zd_zrwav : bool; zd_zone_capacity : Z; zd_zslba : Z; zd_wp : Z
}.

Definition set_state (st : zone_state) (z : zone_descriptor) : zone_descriptor :=
  Zone st (zd_zrwav z) (zd_zone_capacity z) (zd_zslba z) (zd_wp z).
Definition set_zrwav (b : bool) (z : zone_descriptor) : zone_descriptor :=
  Zone (zd_state z) b (zd_zone_capacity z) (zd_zslba z) (zd_wp z).
Definition set_zwp (wp : Z) (z : zone_descriptor) : zone_descriptor :=
  Zone (zd_state z) (zd_zrwav z) (zd_zone_capacity z) (zd_zslba z) wp.

Inductive zone_resource_type := ACTIVE_ZONE | OPEN_ZONE | ZRWA_ZONE.

#[export] Instance zone_resource_type_eq_dec : EqDecision zone_resource_type.
Proof. solve_decision. Defined.

Record zone_resource_info := Res { acquired_cnt : Z; total_cnt : Z }.
Record resources := Resources { rs_active : zone_resource_info; rs_open : zone_resource_info; rs_zrwa : zone_resource_info }.

Definition res_info (t : zone_resource_type) (r : resources) : zone_resource_info :=
  match t with ACTIVE_ZONE => rs_active r | OPEN_ZONE => rs_open r | ZRWA_ZONE => rs_zrwa r end.
Definition set_res_info (t : zone_resource_type) (i : zone_resource_info) (r : resources) : resources :=
  match t with
  | ACTIVE_ZONE => Resources i (rs_open r) (rs_zrwa r)
  | OPEN_ZONE => Resources (rs_active r) i (rs_zrwa r)
  | ZRWA_ZONE => Resources (rs_active r) (rs_open r) i
  end.

(** Which buffer a write goes through. *)
Inductive zone_buffer := GlobalBuffer | ZoneBuffer (zid : Z) | ZrwaBuffer (zid : Z).

(** The drive, with the storage [zone reset] clears, the host memory a report goes to,
    and the releases of buffer space that were scheduled (queue, time, buffer, bytes).
    [zf_report] is the report buffer, whose bytes are whatever [kmalloc] gave at first. *)
Record zns_ftl := ZnsFtl {
  zf_ssd : ssd; zf_zp : znsparams; zf_res : resources; zf_zone_descs : list zone_descriptor;
  zf_report : bytes; zf_zone_write_buffer : list buffer; zf_zrwa_buffer : list buffer;
  zf_storage : memory; zf_host : memory; zf_releases : list (Z * Z * zone_buffer * Z)
}.

Definition zset_ssd (d : ssd) (f : zns_ftl) : zns_ftl :=
  ZnsFtl d (zf_zp f) (zf_res f) (zf_zone_descs f) (zf_report f) (zf_zone_write_buffer f)
    (zf_zrwa_buffer f) (zf_storage f) (zf_host f) (zf_releases f).
Definition zset_res (r : resources) (f : zns_ftl) : zns_ftl :=
  ZnsFtl (zf_ssd f) (zf_zp f) r (zf_zone_descs f) (zf_report f) (zf_zone_write_buffer f)
    (zf_zrwa_buffer f) (zf_storage f) (zf_host f) (zf_releases f).
Definition zset_zones (l : list zone_descriptor) (f : zns_ftl) : zns_ftl :=
  ZnsFtl (zf_ssd f) (zf_zp f) (zf_res f) l (zf_report f) (zf_zone_write_buffer f)
    (zf_zrwa_buffer f) (zf_storage f) (zf_host f) (zf_releases f).
Definition zset_report (l : bytes) (f : zns_ftl) : zns_ftl :=
  ZnsFtl (zf_ssd f) (zf_zp f) (zf_res f) (zf_zone_descs f) l (zf_zone_write_buffer f)
    (zf_zrwa_buffer f) (zf_storage f) (zf_host f) (zf_releases f).
Definition zset_zone_buffers (l : list buffer) (f : zns_ftl) : zns_ftl :=
  ZnsFtl (zf_ssd f) (zf_zp f) (zf_res f) (zf_zone_descs f) (zf_report f) l
    (zf_zrwa_buffer f) (zf_storage f) (zf_host f) (zf_releases f).
Definition zset_zrwa_buffers (l : list buffer) (f : zns_ftl) : zns_ftl :=
  ZnsFtl (zf_ssd f) (zf_zp f) (zf_res f) (zf_zone_descs f) (zf_report f) (zf_zone_write_buffer f)
    l (zf_storage f) (zf_host f) (zf_releases f).
Definition zset_storage (m : memory) (f : zns_ftl) : zns_ftl :=
  ZnsFtl (zf_ssd f) (zf_zp f) (zf_res f) (zf_zone_descs f) (zf_report f) (zf_zone_write_buffer f)
    (zf_zrwa_buffer f) m (zf_host f) (zf_releases f).
Definition zset_host (m : memory) (f : zns_ftl) : zns_ftl :=
  ZnsFtl (zf_ssd f) (zf_zp f) (zf_res f) (zf_zone_descs f) (zf_report f) (zf_zone_write_buffer f)
    (zf_zrwa_buffer f) (zf_storage f) m (zf_releases f).
Definition zadd_release (r : Z * Z * zone_buffer * Z) (f : zns_ftl) : zns_ftl :=
  ZnsFtl (zf_ssd f) (zf_zp f) (zf_res f) (zf_zone_descs f) (zf_report f) (zf_zone_write_buffer f)
    (zf_zrwa_buffer f) (zf_storage f) (zf_host f) (zf_releases f ++ [r]).

Abbreviation zprog := (prog (zns_ftl * shared)).

Definition getz : zprog zns_ftl := fun st => Done (fst st) st.
Definition modz (g : zns_ftl -> zns_ftl) : zprog unit := modify (fun st => (g (fst st), snd st)).
Definition zon_ssd {A} (m : io_prog A) : zprog A :=
  zoom (fun st => (zf_ssd (fst st), snd st)) (fun p st => (zset_ssd (fst p) (fst st), snd p)) m.

(** ** Resources and state changes *)

Definition is_zone_resource_avail (f : zns_ftl) (t : zone_resource_type) : bool :=
  acquired_cnt (res_info t (zf_res f)) <? total_cnt (res_info t (zf_res f)).
Definition is_zone_resource_full (f : zns_ftl) (t : zone_resource_type) : bool :=
  acquired_cnt (res_info t (zf_res f)) =? total_cnt (res_info t (zf_res f)).

Definition acquire_zone_resource (t : zone_resource_type) : zprog bool :=
  f ← getz;
  let i := res_info t (zf_res f) in
  if is_zone_resource_avail f t then
    _ ← modz (zset_res (set_res_info t (Res (u32 (acquired_cnt i + 1)) (total_cnt i)) (zf_res f)));
    mret true
  else mret false.

Definition release_zone_resource (t : zone_resource_type) : zprog unit :=
  f ← getz;
  let i := res_info t (zf_res f) in
  modz (zset_res (set_res_info t (Res (u32 (acquired_cnt i - 1)) (total_cnt i)) (zf_res f))).

Definition get_zone (zid : Z) : zprog zone_descriptor := fun st =>
  if zid <? 0 then Undef else
  match zf_zone_descs (fst st) !! Z.to_nat zid with Some z => Done z st | None => Undef end.
Definition mod_zone (zid : Z) (g : zone_descriptor -> zone_descriptor) : zprog unit :=
  z ← get_zone zid;
  modz (fun f => zset_zones (<[Z.to_nat zid := g z]> (zf_zone_descs f)) f).

Definition change_zone_state (zid : Z) (s : zone_state) : zprog unit := mod_zone zid (set_state s).

(** ** Addresses

    The products of [zone_to_slba] and [zone_to_slpn] are computed in 32 bits. *)
Section addresses.
Context (f : zns_ftl).
Abbreviation spp := (sp (zf_ssd f)).

Definition lpn_to_zone (lpn : Z) : Z := u32 (lpn / (zp_zone_size (zf_zp f) / pgsz spp)).
Definition zone_to_slpn (zid : Z) : Z := u32 (u32 zid * (zp_zone_size (zf_zp f) / pgsz spp)).
Definition lba_to_zone (lba : Z) : Z := u32 (lba / (zp_zone_size (zf_zp f) / secsz spp)).
Definition zone_to_slba (zid : Z) : Z := u32 (u32 zid * (zp_zone_size (zf_zp f) / secsz spp)).
Definition zone_to_elba (zid : Z) : Z := u64 (zone_to_slba (u32 (zid + 1)) - 1).
Definition zone_to_elpn (zid : Z) : Z := zone_to_elba zid / secs_per_pg spp.
Definition lba_to_lpn (lba : Z) : Z := lba / secs_per_pg spp.
Definition die_to_channel (die : Z) : Z := die mod nchs spp.
Definition die_to_lun (die : Z) : Z := die / nchs spp.

Definition lpn_to_ppa (lpn : Z) : ppa :=
  let zone := lpn_to_zone lpn in
  let off := u64 (lpn - zone_to_slpn zone) in
  let sdie := u32 (u64 (zone * zp_dies_per_zone (zf_zp f)) mod tt_luns spp) in
  let die := u32 (sdie + (off / pgs_per_oneshotpg spp) mod zp_dies_per_zone (zf_zp f)) in
  make_ppa (die_to_channel die) (die_to_lun die) 0 0 (off mod pgs_per_oneshotpg spp).

Definition check_boundary (slba nr_lba : Z) : bool :=
  lba_to_zone slba =? lba_to_zone (u64 (slba + nr_lba - 1)).
End addresses.

(** ** Status codes *)

Definition NVME_SC_OK : Z := 0.
Definition NVME_SC_INVALID_FIELD : Z := 2.
Definition NVME_SC_ZNS_INVALID_ZONE_OPERATION : Z := 438.
Definition NVME_SC_ZNS_ZRWA_RSRC_UNAVAIL : Z := 439.
Definition NVME_SC_ZNS_ERR_BOUNDARY : Z := 440.
Definition NVME_SC_ZNS_ERR_FULL : Z := 441.
Definition NVME_SC_ZNS_ERR_READ_ONLY : Z := 442.
Definition NVME_SC_ZNS_ERR_OFFLINE : Z := 443.
Definition NVME_SC_ZNS_INVALID_WRITE : Z := 444.
Definition NVME_SC_ZNS_NO_ACTIVE_ZONE : Z := 445.
Definition NVME_SC_ZNS_NO_OPEN_ZONE : Z := 446.
Definition NVME_SC_ZNS_INVALID_TRANSITION : Z := 447.

(** ** Zone management send *)

Definition zmgmt_send_close_zone (zid : Z) : zprog Z :=
  z ← get_zone zid;
  match zd_state z with
  | ZONE_STATE_OPENED_IMPL | ZONE_STATE_OPENED_EXPL =>
    _ ← change_zone_state zid ZONE_STATE_CLOSED;
    _ ← release_zone_resource OPEN_ZONE;
    mret NVME_SC_OK
  | ZONE_STATE_CLOSED => mret NVME_SC_OK
  | _ => mret NVME_SC_ZNS_INVALID_TRANSITION
  end.

(** Give back what an active zone holds; [opened] if it is open too. *)
Definition release_active (opened zrwa : bool) : zprog unit :=
  _ ← (if opened then release_zone_resource OPEN_ZONE else mret tt);
  _ ← release_zone_resource ACTIVE_ZONE;
  if zrwa then release_zone_resource ZRWA_ZONE else mret tt.

Definition zmgmt_send_finish_zone (zid : Z) : zprog Z :=
  z ← get_zone zid;
  match zd_state z with
  | ZONE_STATE_OPENED_IMPL | ZONE_STATE_OPENED_EXPL =>
    _ ← release_active true (zd_zrwav z);
    _ ← change_zone_state zid ZONE_STATE_FULL;
    mret NVME_SC_OK
  | ZONE_STATE_CLOSED =>
    _ ← release_active false (zd_zrwav z);
    _ ← change_zone_state zid ZONE_STATE_FULL;
    mret NVME_SC_OK
  | ZONE_STATE_EMPTY =>
    _ ← change_zone_state zid ZONE_STATE_FULL;
    mret NVME_SC_OK
  | ZONE_STATE_FULL => mret NVME_SC_OK
  | _ => mret NVME_SC_ZNS_INVALID_TRANSITION
  end.

(** The part of [__zmgmt_send_open_zone] from the case of a closed zone on. *)
Definition open_closed (zid : Z) : zprog Z :=
  ok ← acquire_zone_resource OPEN_ZONE;
  if negb ok then mret NVME_SC_ZNS_NO_OPEN_ZONE else
  _ ← change_zone_state zid ZONE_STATE_OPENED_EXPL;
  mret NVME_SC_OK.

Definition zmgmt_send_open_zone (zid : Z) (zrwa : bool) : zprog Z :=
  z ← get_zone zid;
  match zd_state z with
  | ZONE_STATE_EMPTY =>
    f ← getz;
    if is_zone_resource_full f ACTIVE_ZONE then mret NVME_SC_ZNS_NO_ACTIVE_ZONE else
    if is_zone_resource_full f OPEN_ZONE then mret NVME_SC_ZNS_NO_OPEN_ZONE else
    if zrwa && is_zone_resource_full f ZRWA_ZONE then mret NVME_SC_ZNS_ZRWA_RSRC_UNAVAIL else
    _ ← (if zrwa then
           _ ← acquire_zone_resource ZRWA_ZONE;
           mod_zone zid (set_zrwav true)
         else mret tt);
    _ ← acquire_zone_resource ACTIVE_ZONE;
    open_closed zid
  | ZONE_STATE_CLOSED => open_closed zid
  | ZONE_STATE_OPENED_IMPL =>
    _ ← change_zone_state zid ZONE_STATE_OPENED_EXPL;
    mret NVME_SC_OK
  | ZONE_STATE_OPENED_EXPL => mret NVME_SC_OK
  | _ => mret NVME_SC_ZNS_INVALID_TRANSITION
  end.

(** Code on one of the buffers. *)
Definition on_buffer {A} (b : zone_buffer) (m : prog buffer A) : zprog A := fun st =>
  let in_list (l : list buffer) (zid : Z) (put : list buffer -> zns_ftl -> zns_ftl) :=
    if zid <? 0 then Undef else
    match l !! Z.to_nat zid with
    | None => Undef
    | Some buf =>
      match m buf with
      | Done a buf' => Done a (put (<[Z.to_nat zid := buf']> l) (fst st), snd st)
      | Undef => Undef
      | Exit buf' => Exit (put (<[Z.to_nat zid := buf']> l) (fst st), snd st)
      end
    end in
  match b with
  | GlobalBuffer =>
    match m (sh_wbuf (snd st)) with
    | Done a buf' => Done a (fst st, set_wbuf buf' (snd st))
    | Undef => Undef
    | Exit buf' => Exit (fst st, set_wbuf buf' (snd st))
    end
  | ZoneBuffer zid => in_list (zf_zone_write_buffer (fst st)) zid zset_zone_buffers
  | ZrwaBuffer zid => in_list (zf_zrwa_buffer (fst st)) zid zset_zrwa_buffers
  end.

(** [memset] of the storage of a zone. *)
Definition reset_zone (zid : Z) : zprog unit :=
  f ← getz;
  let start := zid * zp_zone_size (zf_zp f) in
  _ ← modz (fun f => zset_storage (filter (fun kv : Z * Z => ~ (start <= kv.1 < start + zp_zone_size (zf_zp f)))
                                     (zf_storage f)) f);
  _ ← mod_zone zid (fun z => set_zrwav false (set_zwp (zd_zslba z) z));
  if negb (zp_zrwa_buffer_size (zf_zp f) =? 0) then on_buffer (ZrwaBuffer zid) buffer_refill else mret tt.

Definition zmgmt_send_reset_zone (zid : Z) : zprog Z :=
  z ← get_zone zid;
  let restart :=
    _ ← change_zone_state zid ZONE_STATE_EMPTY;
    _ ← reset_zone zid;
    mret NVME_SC_OK in
  match zd_state z with
  | ZONE_STATE_OPENED_IMPL | ZONE_STATE_OPENED_EXPL => _ ← release_active true (zd_zrwav z); restart
  | ZONE_STATE_CLOSED => _ ← release_active false (zd_zrwav z); restart
  | ZONE_STATE_FULL | ZONE_STATE_EMPTY => restart
  | _ => mret NVME_SC_ZNS_INVALID_TRANSITION
  end.

Definition zmgmt_send_offline_zone (zid : Z) : zprog Z :=
  z ← get_zone zid;
  match zd_state z with
  | ZONE_STATE_READ_ONLY => _ ← change_zone_state zid ZONE_STATE_OFFLINE; mret NVME_SC_OK
  | ZONE_STATE_OFFLINE => mret NVME_SC_OK
  | _ => mret NVME_SC_ZNS_INVALID_TRANSITION
  end.

Definition zmgmt_send_flush_explicit_zrwa (slba : Z) : zprog Z :=
  f ← getz;
  let zid := lba_to_zone f slba in
  z ← get_zone zid;
  let wp := zd_wp z in
  let zend := u64 (zone_to_slba f zid + zd_zone_capacity z) in
  let zrwa_end := Z.min (u64 (u64 (wp + zp_lbas_per_zrwa (zf_zp f)) - 1)) (u64 (zend - 1)) in
  let nr_lbas_flush := u64 (slba - wp + 1) in
  if negb (zd_zrwav z) then mret NVME_SC_ZNS_INVALID_ZONE_OPERATION else
  if negb ((wp <=? slba) && (slba <=? zrwa_end)) then mret NVME_SC_ZNS_INVALID_ZONE_OPERATION else
  if zp_lbas_per_zrwafg (zf_zp f) =? 0 then undefined else
  if negb (nr_lbas_flush mod zp_lbas_per_zrwafg (zf_zp f) =? 0) then mret NVME_SC_INVALID_FIELD else
  match zd_state z with
  | ZONE_STATE_OPENED_EXPL | ZONE_STATE_OPENED_IMPL | ZONE_STATE_CLOSED =>
    _ ← mod_zone zid (set_zwp (u64 (slba + 1)));
    _ ← (if u64 (slba + 1) =? zend then
           _ ← release_active (negb (bool_decide (zd_state z = ZONE_STATE_CLOSED))) true;
           change_zone_state zid ZONE_STATE_FULL
         else mret tt);
    mret NVME_SC_OK
  | _ => mret NVME_SC_ZNS_INVALID_ZONE_OPERATION
  end.

Definition ZSA_CLOSE_ZONE : Z := 1.
Definition ZSA_FINISH_ZONE : Z := 2.
Definition ZSA_OPEN_ZONE : Z := 3.
Definition ZSA_RESET_ZONE : Z := 4.
Definition ZSA_OFFLINE_ZONE : Z := 5.
Definition ZSA_FLUSH_EXPL_ZRWA : Z := 17.

(** [None]: an action that has no case leaves the status unassigned. *)
Definition zmgmt_send (slba action : Z) (opt : bool) : zprog (option Z) :=
  f ← getz;
  let zid := lba_to_zone f slba in
  if action =? ZSA_CLOSE_ZONE then r ← zmgmt_send_close_zone zid; mret (Some r)
  else if action =? ZSA_FINISH_ZONE then r ← zmgmt_send_finish_zone zid; mret (Some r)
  else if action =? ZSA_OPEN_ZONE then r ← zmgmt_send_open_zone zid opt; mret (Some r)
  else if action =? ZSA_RESET_ZONE then r ← zmgmt_send_reset_zone zid; mret (Some r)
  else if action =? ZSA_OFFLINE_ZONE then r ← zmgmt_send_offline_zone zid; mret (Some r)
  else if action =? ZSA_FLUSH_EXPL_ZRWA then r ← zmgmt_send_flush_explicit_zrwa slba; mret (Some r)
  else mret None.

(** The fields of the commands that are used. *)
Record zns_request := ZnsRequest {
  zr_opcode : Z; zr_slba : Z; zr_length : Z; zr_control : Z; zr_sq_id : Z; zr_nsecs_start : Z;
  zr_zsa : Z; zr_select_all : bool; zr_zsaso : bool;
  zr_nr_dw : Z; zr_zra : Z; zr_zra_field : Z; zr_partial : bool; zr_prp1 : Z; zr_prp2 : Z
}.

(** Status, completion time, and the address [cmd->slba] afterwards; a command that is
    not taken stays in its queue with that address. *)
Inductive zns_answer := ZNotTaken (slba : Z) | ZDone (status nsecs slba : Z) | ZNotImplemented.

Definition zns_zmgmt_send (rq : zns_request) : zprog zns_answer :=
  f ← getz;
  if zr_select_all rq then
    _ ← for_each (seqZ 0 (zp_nr_zones (zf_zp f))) (fun zid =>
          _ ← zmgmt_send (zone_to_slba f zid) (zr_zsa rq) (zr_zsaso rq); mret tt);
    mret (ZDone NVME_SC_OK (zr_nsecs_start rq) (zr_slba rq))
  else
    r ← zmgmt_send (zr_slba rq) (zr_zsa rq) (zr_zsaso rq);
    match r with
    | Some status => mret (ZDone status (zr_nsecs_start rq) (zr_slba rq))
    | None => undefined
    end.
