(* ===== verification/ZnsIo.v ===== *)
(** * Zoned namespaces: data commands, reports and start-up (lib/nvmevirt:
      zns_read_write.c, zns_mgmt_recv.c, zns_ftl.c)

    Writes, appends and reads with the time they take on the flash, the report of
    zones, the dispatch of commands and the initialisation of a namespace. *)
From S2P Require Import Prelude ChannelModel Ssd KvFtl Zns.

(** ** Writes *)

(** [ASSERT(0)] of a zone with a random write area is empty. *)
Definition increase_write_ptr (zid nr_lba : Z) : zprog unit :=
  f ← getz;
  z ← get_zone zid;
  let cur_write_ptr := u64 (zd_wp z + u32 nr_lba) in
  _ ← mod_zone zid (set_zwp cur_write_ptr);
  if cur_write_ptr =? u64 (zone_to_slba f zid + zd_zone_capacity z) then
    _ ← release_zone_resource OPEN_ZONE;
    _ ← release_zone_resource ACTIVE_ZONE;
    change_zone_state zid ZONE_STATE_FULL
  else mret tt.

(** Program a one-shot page and schedule the release of its buffer space. *)
Definition program_oneshot (sq_id stime : Z) (b : zone_buffer) (p : ppa) (release latest : Z) : zprog Z :=
  f ← getz;
  let spp := sp (zf_ssd f) in
  nsecs_completed ← zon_ssd (ssd_advance_nand
    (NandCmd NAND_WRITE (pgs_per_oneshotpg spp * pgsz spp) stime false p));
  _ ← modz (zadd_release (sq_id, nsecs_completed, b, release));
  mret (Z.max nsecs_completed latest).

(** The loop of [__zns_write]; [stime] is when the transfer from the host is over. *)
Fixpoint zns_write_loop (fuel : nat) (sq_id stime : Z) (b : zone_buffer) (lpn elpn zone_elpn latest : Z)
    : zprog Z :=
  match fuel with
  | O => undefined
  | S n =>
    if lpn <=? elpn then
      f ← getz;
      let spp := sp (zf_ssd f) in
      let p := lpn_to_ppa f lpn in
      let oneshot := pgs_per_oneshotpg spp * pgsz spp in
      let pg_off := p_pg p mod pgs_per_oneshotpg spp in
      let pgs := Z.min (elpn - lpn + 1) (pgs_per_oneshotpg spp - pg_off) in
      let at_end := lpn + pgs - 1 =? zone_elpn in
      let unaligned_space := zp_zone_size (zf_zp f) mod oneshot in
      latest ← (if (pg_off + pgs =? pgs_per_oneshotpg spp) || at_end then
                  program_oneshot sq_id stime b p
                    (if at_end && (0 <? unaligned_space) then unaligned_space else oneshot) latest
                else mret latest);
      zns_write_loop n sq_id stime b (lpn + pgs) elpn zone_elpn latest
    else mret latest
  end.

(** The completion time: early completion unless the flash has to be waited for. *)
Definition write_target (spp : ssdparams) (rq : zns_request) (latest xfer_completed : Z) : Z :=
  if negb (Z.land (zr_control rq) (Z.shiftl 1 14) =? 0) || negb (write_early_completion spp)
  then latest else xfer_completed.

Definition nvme_cmd_zone_append : Z := 125.

(** The cases of [state] in [__zns_write]: [Some status] leaves with that status,
    [None] goes on with the write. *)
Definition write_state (zid slba : Z) (z : zone_descriptor) : zprog (option Z) :=
  let open_implicitly :=
    ok ← acquire_zone_resource OPEN_ZONE;
    if negb ok then mret (Some NVME_SC_ZNS_NO_OPEN_ZONE) else
    _ ← change_zone_state zid ZONE_STATE_OPENED_IMPL;
    mret None in
  match zd_state z with
  | ZONE_STATE_EMPTY =>
    f ← getz;
    if negb (slba =? zd_zslba z) then mret (Some NVME_SC_ZNS_INVALID_WRITE) else
    if is_zone_resource_full f ACTIVE_ZONE then mret (Some NVME_SC_ZNS_NO_ACTIVE_ZONE) else
    if is_zone_resource_full f OPEN_ZONE then mret (Some NVME_SC_ZNS_NO_OPEN_ZONE) else
    _ ← acquire_zone_resource ACTIVE_ZONE;
    open_implicitly
  | ZONE_STATE_CLOSED => open_implicitly
  | ZONE_STATE_OPENED_IMPL | ZONE_STATE_OPENED_EXPL => mret None
  | ZONE_STATE_FULL => mret (Some NVME_SC_ZNS_ERR_FULL)
  | ZONE_STATE_READ_ONLY => mret (Some NVME_SC_ZNS_ERR_READ_ONLY)
  | ZONE_STATE_OFFLINE => mret (Some NVME_SC_ZNS_ERR_OFFLINE)
  end.

(** The rest of [__zns_write] once its checks have passed: flash time and releases. *)
Definition write_pages (rq : zns_request) (b : zone_buffer) (zid slba nr_lba : Z) : zprog zns_answer :=
  f ← getz;
  xfer ← zon_ssd (ssd_advance_write_buffer (zr_nsecs_start rq) (LBA_TO_BYTE nr_lba));
  let slpn := lba_to_lpn f slba in
  let elpn := lba_to_lpn f (u64 (slba + nr_lba - 1)) in
  latest ← zns_write_loop (S (Z.to_nat (elpn + 1 - slpn))) (zr_sq_id rq) xfer b slpn elpn
             (zone_to_elpn f zid) xfer;
  mret (ZDone NVME_SC_OK (write_target (sp (zf_ssd f)) rq latest xfer) slba).

(** [__zns_write]; an append writes at the write pointer of its zone. *)
Definition zns_write_seq (rq : zns_request) : zprog zns_answer :=
  f ← getz;
  let spp := sp (zf_ssd f) in
  let nr_lba := u32 (zr_length rq + 1) in
  let zid := lba_to_zone f (zr_slba rq) in
  z ← get_zone zid;
  let slba := if zr_opcode rq =? nvme_cmd_zone_append then zd_wp z else zr_slba rq in
  let b := if negb (zp_zone_wb_size (zf_zp f) =? 0) then ZoneBuffer zid else GlobalBuffer in
  let fail status := mret (ZDone status (zr_nsecs_start rq) slba) in
  allocated ← on_buffer b (buffer_allocate (LBA_TO_BYTE nr_lba));
  if allocated <? LBA_TO_BYTE nr_lba then mret (ZNotTaken slba) else
  if write_unit_size spp =? 0 then undefined else
  if negb (LBA_TO_BYTE nr_lba mod write_unit_size spp =? 0) then fail NVME_SC_ZNS_INVALID_WRITE else
  if negb (check_boundary f slba nr_lba) then fail NVME_SC_ZNS_ERR_BOUNDARY else
  if negb (slba =? zd_wp z) then fail NVME_SC_ZNS_INVALID_WRITE else
  r ← write_state zid slba z;
  match r with
  | Some status => fail status
  | None =>
    _ ← increase_write_ptr zid nr_lba;
    write_pages rq b zid slba nr_lba
  end.

(** The loop of [__zns_write_zrwa]: pages below a full one-shot page stay in the buffer. *)
Fixpoint zrwa_flush_loop (fuel : nat) (sq_id stime zid lpn remaining latest : Z) : zprog Z :=
  match fuel with
  | O => undefined
  | S n =>
    if 0 <? remaining then
      f ← getz;
      let spp := sp (zf_ssd f) in
      let p := lpn_to_ppa f lpn in
      let pg_off := p_pg p mod pgs_per_oneshotpg spp in
      let pgs := Z.min remaining (pgs_per_oneshotpg spp - pg_off) in
      latest ← (if pg_off + pgs =? pgs_per_oneshotpg spp then
                  program_oneshot sq_id stime (ZrwaBuffer zid) p (pgs_per_oneshotpg spp * pgsz spp) latest
                else mret latest);
      zrwa_flush_loop n sq_id stime zid (lpn + pgs) (remaining - pgs) latest
    else mret latest
  end.

(** The cases of [state] in [__zns_write_zrwa], as in [write_state]. *)
Definition zrwa_write_state (zid : Z) (z : zone_descriptor) : zprog (option Z) :=
  match zd_state z with
  | ZONE_STATE_CLOSED | ZONE_STATE_EMPTY =>
    f ← getz;
    ok ← acquire_zone_resource OPEN_ZONE;
    if negb ok then mret (Some NVME_SC_ZNS_NO_OPEN_ZONE) else
    allocated ← on_buffer (ZrwaBuffer zid) (buffer_allocate (zp_zrwa_size (zf_zp f)));
    if allocated =? 0 then undefined else
    _ ← change_zone_state zid ZONE_STATE_OPENED_IMPL;
    mret None
  | ZONE_STATE_OPENED_IMPL | ZONE_STATE_OPENED_EXPL => mret None
  | ZONE_STATE_FULL => mret (Some NVME_SC_ZNS_ERR_FULL)
  | ZONE_STATE_READ_ONLY => mret (Some NVME_SC_ZNS_ERR_READ_ONLY)
  | ZONE_STATE_OFFLINE => mret (Some NVME_SC_ZNS_ERR_OFFLINE)
  end.

(** How many sectors a write that ends at [elba] pushes out of the random write area;
    [None] is the division by a flush granularity of zero. *)
Definition zrwa_flush_amount (f : zns_ftl) (zid prev_wp elba : Z) : option Z :=
  let fg := zp_lbas_per_zrwafg (zf_zp f) in
  let zrwa_impl_start := u64 (prev_wp + zp_lbas_per_zrwa (zf_zp f)) in
  if zrwa_impl_start <=? elba then
    if fg =? 0 then None
    else Some (u64 (u64 (u64 (elba - zrwa_impl_start + 1) + fg - 1) / fg * fg))
  else if elba =? zone_to_elba f zid then Some (u64 (elba - prev_wp + 1))
  else Some 0.

(** The rest of [__zns_write_zrwa] once its checks have passed. *)
Definition zrwa_write_pages (rq : zns_request) (zid prev_wp nr_lba nr_lbas_flush : Z) : zprog zns_answer :=
  f ← getz;
  let spp := sp (zf_ssd f) in
  xfer ← zon_ssd (ssd_advance_write_buffer (zr_nsecs_start rq) (LBA_TO_BYTE nr_lba));
  let remaining := nr_lbas_flush / secs_per_pg spp in
  latest ← zrwa_flush_loop (S (Z.to_nat remaining)) (zr_sq_id rq) xfer zid (lba_to_lpn f prev_wp)
             remaining xfer;
  mret (ZDone NVME_SC_OK (write_target spp rq latest xfer) (zr_slba rq)).

(** [__zns_write_zrwa]. *)
Definition zns_write_zrwa (rq : zns_request) : zprog zns_answer :=
  f ← getz;
  let spp := sp (zf_ssd f) in
  let slba := zr_slba rq in
  let nr_lba := u32 (zr_length rq + 1) in
  let elba := u64 (slba + nr_lba - 1) in
  let zid := lba_to_zone f slba in
  z ← get_zone zid;
  let prev_wp := zd_wp z in
  let zrwa_impl_end := u64 (prev_wp + u32 (2 * zp_lbas_per_zrwa (zf_zp f)) - 1) in
  let fail status := mret (ZDone status (zr_nsecs_start rq) slba) in
  if write_unit_size spp =? 0 then undefined else
  if negb (LBA_TO_BYTE nr_lba mod write_unit_size spp =? 0) then fail NVME_SC_ZNS_INVALID_WRITE else
  if negb (check_boundary f slba nr_lba) then fail NVME_SC_ZNS_ERR_BOUNDARY else
  if (slba <? prev_wp) || (zrwa_impl_end <? elba) then fail NVME_SC_ZNS_INVALID_WRITE else
  r ← zrwa_write_state zid z;
  match r with
  | Some status => fail status
  | None =>
    match zrwa_flush_amount f zid prev_wp elba with
    | None => undefined
    | Some nr_lbas_flush =>
      if 0 <? nr_lbas_flush then
        allocated ← on_buffer (ZrwaBuffer zid) (buffer_allocate (LBA_TO_BYTE nr_lbas_flush));
        if allocated =? 0 then mret (ZNotTaken slba) else
        _ ← increase_write_ptr zid nr_lbas_flush;
        zrwa_write_pages rq zid prev_wp nr_lba nr_lbas_flush
      else zrwa_write_pages rq zid prev_wp nr_lba nr_lbas_flush
    end
  end.

Definition zns_write (rq : zns_request) : zprog zns_answer :=
  f ← getz;
  z ← get_zone (lpn_to_zone f (lba_to_lpn f (zr_slba rq)));
  if zd_zrwav z then zns_write_zrwa rq else zns_write_seq rq.

(** ** Reads *)

Fixpoint zns_read_loop (fuel : nat) (stime lpn elpn latest : Z) : zprog Z :=
  match fuel with
  | O => undefined
  | S n =>
    if lpn <=? elpn then
      f ← getz;
      let spp := sp (zf_ssd f) in
      let p := lpn_to_ppa f lpn in
      let pg_off := p_pg p mod pgs_per_flashpg spp in
      let pgs := Z.min (elpn - lpn + 1) (pgs_per_flashpg spp - pg_off) in
      nsecs_completed ← zon_ssd (ssd_advance_nand (NandCmd NAND_READ (pgs * pgsz spp) stime false p));
      zns_read_loop n stime (lpn + pgs) elpn (Z.max nsecs_completed latest)
    else mret latest
  end.

(** A read that is answered with an error takes its time on the flash all the same. *)
Definition zns_read (rq : zns_request) : zprog zns_answer :=
  f ← getz;
  let spp := sp (zf_ssd f) in
  let slba := zr_slba rq in
  let nr_lba := u32 (zr_length rq + 1) in
  let slpn := lba_to_lpn f slba in
  let elpn := lba_to_lpn f (u64 (slba + nr_lba - 1)) in
  z ← get_zone (lpn_to_zone f slpn);
  let status := if bool_decide (zd_state z = ZONE_STATE_OFFLINE) then NVME_SC_ZNS_ERR_OFFLINE
                else if negb (check_boundary f slba nr_lba) then NVME_SC_ZNS_ERR_BOUNDARY
                else NVME_SC_OK in
  let stime := u64 (zr_nsecs_start rq +
                    (if LBA_TO_BYTE nr_lba <=? KB 4 then fw_4kb_rd_lat spp else fw_rd_lat spp)) in
  latest ← zns_read_loop (S (Z.to_nat (elpn + 1 - slpn))) stime slpn elpn stime;
  nsecs_completed ← zon_ssd (ssd_advance_pcie latest (nr_lba * secsz spp));
  mret (ZDone status (Z.max nsecs_completed latest) slba).

Definition zns_flush (rq : zns_request) : zprog zns_answer :=
  start ← zon_ssd get_clock;
  t ← zon_ssd ssd_next_idle_time;
  mret (ZDone NVME_SC_OK (Z.max start t) (zr_slba rq)).

(** ** Reports *)

(** The 64 bytes of a [struct zone_descriptor]. *)
Definition zone_bytes (z : zone_descriptor) : bytes :=
  [ZONE_TYPE_SEQ_WRITE_REQUIRED; Z.shiftl (zone_state_code (zd_state z)) 4;
   (if zd_zrwav z then 8 else 0); 0; 0; 0; 0; 0] ++
  le_bytes 8 (zd_zone_capacity z) ++ le_bytes 8 (zd_zslba z) ++ le_bytes 8 (zd_wp z) ++ replicate 32 0.

Definition check_zmgmt_rcv_option_supported (f : zns_ftl) (rq : zns_request) : bool :=
  (lba_to_zone f (zr_slba rq) <? zp_nr_zones (zf_zp f)) && (zr_zra rq =? 0) && (zr_zra_field rq =? 0).

Definition report_length (rq : zns_request) : Z := u32 (zr_nr_dw rq + 1) * 4.

(** The bytes [l] stored at offset [i] of the buffer [buf]. *)
Definition splice (i : nat) (l buf : bytes) : bytes := take i buf ++ l ++ drop (i + length l) buf.

Definition nr_zone_to_report (f : zns_ftl) (rq : zns_request) : Z :=
  let start_zid := lba_to_zone f (zr_slba rq) in
  let rest := u64 (zp_nr_zones (zf_zp f) - start_zid) in
  let n := if zr_partial rq then u64 (report_length rq / 64 - 1) else rest in
  if rest <? n then rest else n.

(** [__fill_zone_report]; the seven reserved words of the header are not written. *)
Definition fill_zone_report (rq : zns_request) : zprog unit :=
  f ← getz;
  let start_zid := lba_to_zone f (zr_slba rq) in
  let n := nr_zone_to_report f rq in
  let zds := take (Z.to_nat n) (drop (Z.to_nat start_zid) (zf_zone_descs f)) in
  if Z.of_nat (length (zf_report f)) <? 64 + 64 * n then undefined else
  if Z.of_nat (length zds) <? n then undefined else
  modz (zset_report (splice 64 (zds ≫= zone_bytes) (splice 0 (le_bytes 8 n) (zf_report f)))).

(** The transfer loop of [__prp_transfer_data] to the host, which stops at nothing:
    beyond the report buffer it reads what lies behind it. *)
Fixpoint prp_transfer_loop (fuel : nat) (cmd : nvme_kv_command) (remaining offset : Z) (ps : prp_state)
    : zprog unit :=
  if remaining =? 0 then mret tt else
  match fuel with
  | O => undefined
  | S n =>
    f ← getz;
    match prp_next (zf_host f) cmd remaining ps with
    | None => undefined
    | Some (paddr, io_size, ps') =>
      if Z.of_nat (length (zf_report f)) <? offset + io_size then undefined else
      _ ← modz (zset_host (mem_write (zf_host f) paddr
                 (take (Z.to_nat io_size) (drop (Z.to_nat offset) (zf_report f)))));
      prp_transfer_loop n cmd (remaining - io_size) (offset + io_size) ps'
    end
  end.

(** The loops only look at the two pages of a command. *)
Definition prp_cmd (prp1 prp2 : Z) : nvme_kv_command := KvCmd 0 [] 0 0 prp1 prp2 0 0 0 0 0.

Definition prp_transfer_data (prp1 prp2 len : Z) : zprog unit :=
  prp_transfer_loop (prp_fuel len) (prp_cmd prp1 prp2) len 0 prp_start.

Definition zns_zmgmt_recv (rq : zns_request) : zprog zns_answer :=
  f ← getz;
  if check_zmgmt_rcv_option_supported f rq then
    _ ← fill_zone_report rq;
    _ ← prp_transfer_data (zr_prp1 rq) (zr_prp2 rq) (report_length rq);
    mret (ZDone NVME_SC_OK (zr_nsecs_start rq) (zr_slba rq))
  else mret (ZDone NVME_SC_INVALID_FIELD (zr_nsecs_start rq) (zr_slba rq)).

(** ** Commands *)

Definition zns_proc_nvme_io_cmd (rq : zns_request) : zprog zns_answer :=
  if (zr_opcode rq =? 1) || (zr_opcode rq =? nvme_cmd_zone_append) then zns_write rq
  else if zr_opcode rq =? 2 then zns_read rq
  else if zr_opcode rq =? 0 then zns_flush rq
  else if zr_opcode rq =? 121 then zns_zmgmt_send rq
  else if zr_opcode rq =? 122 then zns_zmgmt_recv rq
  else mret ZNotImplemented.

(** What a worker does when a scheduled release is due. *)
Definition zns_release : zprog bool :=
  f ← getz;
  match zf_releases f with
  | [] => mret false
  | (_, _, b, n) :: rest =>
    _ ← modz (fun f => ZnsFtl (zf_ssd f) (zf_zp f) (zf_res f) (zf_zone_descs f) (zf_report f)
               (zf_zone_write_buffer f) (zf_zrwa_buffer f) (zf_storage f) (zf_host f) rest);
    _ ← on_buffer b (buffer_release n);
    mret true
  end.

(** ** Initialisation *)

(** [None]: an assertion fails, or a zone of size zero is divided by. *)
Definition zns_init_params (cf : zns_config) (spp : ssdparams) (capacity : Z) : option znsparams :=
  guard (0 < ZONE_SIZE cf /\ 0 < u32 (ZONE_SIZE cf) /\ 0 < secsz spp /\ 0 < pgsz spp);;
  let n := u32 (capacity / ZONE_SIZE cf) in
  let zp := ZnsParams n n n (DIES_PER_ZONE cf) (u32 (ZONE_SIZE cf)) (ZONE_WB_SIZE cf)
              (MAX_ZRWA_ZONES cf) (ZRWAFG_SIZE cf) (ZRWA_SIZE cf) (ZRWA_BUFFER_SIZE cf)
              (ZRWAFG_SIZE cf / secsz spp) (ZRWA_SIZE cf / secsz spp) in
  guard (capacity mod zp_zone_size zp = 0);;
  guard (zp_zone_size zp mod pgsz spp = 0);;
  Some zp.

Definition init_descriptors (zp : znsparams) : list zone_descriptor :=
  (fun i => let c := zp_zone_size zp / LBA_SIZE in Zone ZONE_STATE_EMPTY false c (i * c) (i * c)) <$>
    seqZ 0 (zp_nr_zones zp).

Definition init_buffers (size n : Z) : list buffer :=
  if size =? 0 then [] else replicate (Z.to_nat n) (buffer_init size).

(** [report] is the report buffer as [kmalloc] gives it. *)
Definition zns_init_ftl (zp : znsparams) (d : ssd) (report : bytes) (storage host : memory) : zns_ftl :=
  let none := Res 0 (zp_nr_zones zp) in
  ZnsFtl d zp (Resources none none none) (init_descriptors zp) report
    (init_buffers (zp_zone_wb_size zp) (zp_nr_zones zp))
    (init_buffers (zp_zrwa_buffer_size zp) (zp_nr_zones zp)) storage host [].

Definition report_buffer_size (zp : znsparams) : Z := 128 + 64 * zp_nr_zones zp.

Definition zns_init_namespace (scf : ssd_config) (cf : zns_config) (size : Z) (report : bytes)
    (storage host : memory) (clock : nat -> Z) : option (zns_ftl * shared) :=
  spp ← ssd_init_params scf size 1;
  d ← ssd_init spp;
  pcie ← ssd_init_pcie spp;
  zp ← zns_init_params cf spp size;
  guard (Z.of_nat (length report) = report_buffer_size zp);;
  Some (zns_init_ftl zp d report storage host,
        Shared pcie (buffer_init (write_buffer_size spp)) clock 0 []).
