(* ===== verification/ZnsSpec.v ===== *)
(** * Specification of the zoned namespace (about Zns and ZnsIo)

    The zone state machine of the Zoned Namespace command set without any counter of
    resources, the invariant of the drive, and rules for code that may or may not be
    allowed to have undefined behaviour. *)
From S2P Require Import Prelude ChannelModel Ssd SsdProps KvFtl KvFtlSpec Zns ZnsIo.

(** ** Zones as the host sees them *)

(** A zone and the number of sectors written to it. *)
Record azone := AZone { az_state : zone_state; az_fill : Z }.

Definition abs_zone (z : zone_descriptor) : azone := AZone (zd_state z) (zd_wp z - zd_zslba z).

Definition same_zone (cap off n : Z) : bool := off / cap =? (off + n - 1) / cap.

(** A zone management action: status and new zone; [None] for an action that is not known. *)
Definition spec_action (action : Z) (z : azone) : option (Z * azone) :=
  let to st := (NVME_SC_OK, AZone st (az_fill z)) in
  let bad := (NVME_SC_ZNS_INVALID_TRANSITION, z) in
  if action =? ZSA_CLOSE_ZONE then Some
    match az_state z with
    | ZONE_STATE_OPENED_IMPL | ZONE_STATE_OPENED_EXPL | ZONE_STATE_CLOSED => to ZONE_STATE_CLOSED
    | _ => bad
    end
  else if action =? ZSA_FINISH_ZONE then Some
    match az_state z with
    | ZONE_STATE_READ_ONLY | ZONE_STATE_OFFLINE => bad
    | _ => to ZONE_STATE_FULL
    end
  else if action =? ZSA_OPEN_ZONE then Some
    match az_state z with
    | ZONE_STATE_FULL | ZONE_STATE_READ_ONLY | ZONE_STATE_OFFLINE => bad
    | _ => to ZONE_STATE_OPENED_EXPL
    end
  else if action =? ZSA_RESET_ZONE then Some
    match az_state z with
    | ZONE_STATE_READ_ONLY | ZONE_STATE_OFFLINE => bad
    | _ => (NVME_SC_OK, AZone ZONE_STATE_EMPTY 0)
    end
  else if action =? ZSA_OFFLINE_ZONE then Some
    match az_state z with
    | ZONE_STATE_READ_ONLY | ZONE_STATE_OFFLINE => to ZONE_STATE_OFFLINE
    | _ => bad
    end
  else if action =? ZSA_FLUSH_EXPL_ZRWA then Some (NVME_SC_ZNS_INVALID_ZONE_OPERATION, z)
  else None.

(** [n] sectors at offset [off] of a zone of [cap] sectors; [unit] is the write unit. *)
Definition spec_write (cap unit off n : Z) (z : azone) : Z * azone :=
  if negb (512 * n mod unit =? 0) then (NVME_SC_ZNS_INVALID_WRITE, z) else
  if negb (same_zone cap off n) then (NVME_SC_ZNS_ERR_BOUNDARY, z) else
  if negb (off =? az_fill z) then (NVME_SC_ZNS_INVALID_WRITE, z) else
  let written st := (NVME_SC_OK, AZone (if off + n =? cap then ZONE_STATE_FULL else st) (off + n)) in
  match az_state z with
  | ZONE_STATE_EMPTY | ZONE_STATE_CLOSED | ZONE_STATE_OPENED_IMPL => written ZONE_STATE_OPENED_IMPL
  | ZONE_STATE_OPENED_EXPL => written ZONE_STATE_OPENED_EXPL
  | ZONE_STATE_FULL => (NVME_SC_ZNS_ERR_FULL, z)
  | ZONE_STATE_READ_ONLY => (NVME_SC_ZNS_ERR_READ_ONLY, z)
  | ZONE_STATE_OFFLINE => (NVME_SC_ZNS_ERR_OFFLINE, z)
  end.

Definition spec_read (cap off n : Z) (z : azone) : Z :=
  if bool_decide (az_state z = ZONE_STATE_OFFLINE) then NVME_SC_ZNS_ERR_OFFLINE
  else if negb (same_zone cap off n) then NVME_SC_ZNS_ERR_BOUNDARY
  else NVME_SC_OK.

(** ** Invariant *)

Definition is_active (z : zone_descriptor) : bool :=
  match zd_state z with
  | ZONE_STATE_OPENED_IMPL | ZONE_STATE_OPENED_EXPL | ZONE_STATE_CLOSED => true
  | _ => false
  end.
Definition is_open (z : zone_descriptor) : bool :=
  match zd_state z with
  | ZONE_STATE_OPENED_IMPL | ZONE_STATE_OPENED_EXPL => true
  | _ => false
  end.
Definition has_zrwa (z : zone_descriptor) : bool := is_active z && zd_zrwav z.

Definition nr_of (P : zone_descriptor -> bool) (zs : list zone_descriptor) : Z := Z.of_nat (count P zs).

(** Sectors of a zone. *)
Definition zcap (zp : znsparams) : Z := zp_zone_size zp / 512.

(** Fewer than 2^32 sectors, dies that divide evenly among zones, a flush granularity
    of at most the random write area. *)
Record zparams_ok (spp : ssdparams) (zp : znsparams) : Prop := {
  zk_secsz : secsz spp = 512;
  zk_tt_luns : tt_luns spp = luns_per_ch spp * nchs spp;
  zk_nchs : nchs spp <= 256;
  zk_luns : luns_per_ch spp <= 256;
  zk_oneshot : pgs_per_oneshotpg spp <= 65536;
  zk_unit : 0 < write_unit_size spp;
  zk_zone : 0 < zp_zone_size zp < 2 ^ 32;
  zk_align : zp_zone_size zp mod 4096 = 0;
  zk_zones : 0 < zp_nr_zones zp;
  zk_total : zp_nr_zones zp * zcap zp < 2 ^ 32;
  zk_dies : 0 < zp_dies_per_zone zp /\ tt_luns spp mod zp_dies_per_zone zp = 0;
  zk_fg : 0 <= zp_lbas_per_zrwafg zp <= zp_lbas_per_zrwa zp;
  zk_zrwa : zp_lbas_per_zrwa zp < 2 ^ 31;
  zk_wb : zp_zone_wb_size zp = 0 \/ 0 < zp_zone_wb_size zp
}.

(** The descriptor of zone [i]. *)
Record zone_ok (zp : znsparams) (i : Z) (z : zone_descriptor) : Prop := {
  zo_start : zd_zslba z = i * zcap zp;
  zo_cap : zd_zone_capacity z = zcap zp;
  zo_wp : zd_zslba z <= zd_wp z <= zd_zslba z + zcap zp;
  zo_empty : zd_state z = ZONE_STATE_EMPTY -> zd_wp z = zd_zslba z /\ zd_zrwav z = false;
  zo_active : is_active z = true -> zd_wp z < zd_zslba z + zcap zp;
  zo_state : zd_state z <> ZONE_STATE_READ_ONLY /\ zd_state z <> ZONE_STATE_OFFLINE
}.

Record res_ok (n : Z) (zs : list zone_descriptor) (r : resources) : Prop := {
  ro_active : rs_active r = Res (nr_of is_active zs) n;
  ro_open : rs_open r = Res (nr_of is_open zs) n;
  ro_zrwa : total_cnt (rs_zrwa r) = n /\ nr_of has_zrwa zs <= acquired_cnt (rs_zrwa r) <= n
}.

Definition buffers_ok (size n : Z) (l : list buffer) : Prop :=
  size <> 0 -> Z.of_nat (length l) = n /\ Forall (fun b => bf_size b = size) l.

(** Everything but zones and counters. *)
Record zrest_ok (f : zns_ftl) (s : shared) : Prop := {
  zr_params : zparams_ok (sp (zf_ssd f)) (zf_zp f);
  zr_ssd : ssd_ok (zf_ssd f);
  zr_pcie : chan_ok (sh_pcie s);
  zr_wbuf : bf_size (sh_wbuf s) = write_buffer_size (sp (zf_ssd f));
  zr_zone_buffers : buffers_ok (zp_zone_wb_size (zf_zp f)) (zp_nr_zones (zf_zp f)) (zf_zone_write_buffer f);
  zr_zrwa_buffers : buffers_ok (zp_zrwa_buffer_size (zf_zp f)) (zp_nr_zones (zf_zp f)) (zf_zrwa_buffer f);
  zr_report : Z.of_nat (length (zf_report f)) = report_buffer_size (zf_zp f)
}.

Record zones_ok (f : zns_ftl) : Prop := {
  zi_length : Z.of_nat (length (zf_zone_descs f)) = zp_nr_zones (zf_zp f);
  zi_zone i z : zf_zone_descs f !! i = Some z -> zone_ok (zf_zp f) (Z.of_nat i) z;
  zi_res : res_ok (zp_nr_zones (zf_zp f)) (zf_zone_descs f) (zf_res f)
}.

Definition zinv (st : zns_ftl * shared) : Prop := zrest_ok (fst st) (snd st) /\ zones_ok (fst st).
