(* ===== verification/ZnsInv.v ===== *)
(** * The zone management commands keep the invariant (proofs about Zns)

    Rules for the primitive operations, the change of one zone together with the
    counters, and what each zone management action does. *)
From S2P Require Import Prelude ChannelModel Ssd SsdProps KvFtl KvFtlSpec Zns ZnsIo ZnsSpec.

(** ** Rules *)

Section zone_rules.
Context (u : Prop).
Implicit Types (f : zns_ftl) (s : shared).

Lemma pwp_getz (Q : zns_ftl -> zns_ftl * shared -> Prop) f s : Q f (f, s) -> pwp u getz Q (f, s).
Proof. done. Qed.
Lemma pwp_modz g (Q : unit -> zns_ftl * shared -> Prop) f s : Q tt (g f, s) -> pwp u (modz g) Q (f, s).
Proof. done. Qed.
Lemma pwp_get_zone zid (Q : zone_descriptor -> zns_ftl * shared -> Prop) f s :
  (0 <= zid < Z.of_nat (length (zf_zone_descs f)) \/ u) ->
  (forall z, 0 <= zid -> zf_zone_descs f !! Z.to_nat zid = Some z -> Q z (f, s)) ->
  pwp u (get_zone zid) Q (f, s).
Proof.
  intros Hin HQ. unfold pwp, get_zone. cbn [fst]. destruct (Z.ltb_spec zid 0).
  { destruct Hin; [lia|done]. }
  destruct (zf_zone_descs f !! Z.to_nat zid) eqn:E; [by apply HQ|].
  apply lookup_ge_None in E. destruct Hin; [lia|done].
Qed.
Lemma pwp_mod_zone zid g z (Q : unit -> zns_ftl * shared -> Prop) f s :
  0 <= zid -> zf_zone_descs f !! Z.to_nat zid = Some z ->
  Q tt (zset_zones (<[Z.to_nat zid := g z]> (zf_zone_descs f)) f, s) -> pwp u (mod_zone zid g) Q (f, s).
Proof.
  intros H0 Hz HQ. unfold mod_zone. apply pwp_bind, pwp_get_zone.
  { left. apply lookup_lt_Some in Hz. lia. }
  intros z' _ Hz'. simplify_eq. by apply pwp_modz.
Qed.

Lemma pwp_acquire t a n (Q : bool -> zns_ftl * shared -> Prop) f s :
  res_info t (zf_res f) = Res a n -> 0 <= a < n -> n < 2 ^ 32 ->
  Q true (zset_res (set_res_info t (Res (a + 1) n) (zf_res f)) f, s) ->
  pwp u (acquire_zone_resource t) Q (f, s).
Proof.
  intros E Ha Hn HQ. unfold acquire_zone_resource. apply pwp_bind, pwp_getz.
  unfold is_zone_resource_avail. rewrite E. cbn [acquired_cnt total_cnt].
  replace (a <? n) with true by lia. rewrite wrap_small by (unfold in_word; lia).
  by apply pwp_bind, pwp_modz, pwp_ret.
Qed.
Lemma pwp_release t a n (Q : unit -> zns_ftl * shared -> Prop) f s :
  res_info t (zf_res f) = Res a n -> 0 < a < 2 ^ 32 ->
  Q tt (zset_res (set_res_info t (Res (a - 1) n) (zf_res f)) f, s) ->
  pwp u (release_zone_resource t) Q (f, s).
Proof.
  intros E Ha HQ. unfold release_zone_resource. apply pwp_bind, pwp_getz.
  rewrite E. cbn [acquired_cnt total_cnt]. rewrite wrap_small by (unfold in_word; lia). by apply pwp_modz.
Qed.

Definition buf_at (b : zone_buffer) f s : option buffer :=
  match b with
  | GlobalBuffer => Some (sh_wbuf s)
  | ZoneBuffer zid => if zid <? 0 then None else zf_zone_write_buffer f !! Z.to_nat zid
  | ZrwaBuffer zid => if zid <? 0 then None else zf_zrwa_buffer f !! Z.to_nat zid
  end.
Definition put_buf (b : zone_buffer) (buf : buffer) f s : zns_ftl * shared :=
  match b with
  | GlobalBuffer => (f, set_wbuf buf s)
  | ZoneBuffer zid => (zset_zone_buffers (<[Z.to_nat zid := buf]> (zf_zone_write_buffer f)) f, s)
  | ZrwaBuffer zid => (zset_zrwa_buffers (<[Z.to_nat zid := buf]> (zf_zrwa_buffer f)) f, s)
  end.

Lemma pwp_on_buffer {A} b buf (m : prog buffer A) (Q : A -> zns_ftl * shared -> Prop) f s :
  (u \/ buf_at b f s = Some buf) ->
  (forall buf, buf_at b f s = Some buf -> pwp u m (fun a buf' => Q a (put_buf b buf' f s)) buf) ->
  pwp u (on_buffer b m) Q (f, s).
Proof.
  intros Hb HQ. unfold pwp, on_buffer, buf_at, put_buf in *. destruct b; cbn [fst snd].
  { specialize (HQ _ eq_refl). by destruct (m _). }
  all: destruct (zid <? 0); [destruct Hb; done|].
  all: destruct (_ !! Z.to_nat zid) as [x|]; [|destruct Hb; done].
  all: specialize (HQ _ eq_refl); by destruct (m x).
Qed.
End zone_rules.

(** ** Counting zones *)

Section counting.
Implicit Types (P : zone_descriptor -> bool) (zs : list zone_descriptor).

Lemma nr_of_insert P zs i z z' : zs !! i = Some z ->
  nr_of P (<[i := z']> zs) = nr_of P zs + Z.b2z (P z') - Z.b2z (P z).
Proof.
  intros H. unfold nr_of. pose proof (count_insert P zs i z z' H). destruct (P z), (P z'); simpl in *; lia.
Qed.
Lemma nr_of_bounds P zs : 0 <= nr_of P zs <= Z.of_nat (length zs).
Proof. unfold nr_of, count. pose proof (List.filter_length_le P zs). lia. Qed.
Lemma nr_of_pos P zs i z : zs !! i = Some z -> P z = true -> 0 < nr_of P zs.
Proof.
  intros H E. pose proof (nr_of_insert P zs i z (set_state ZONE_STATE_EMPTY z) H) as Hi.
  unfold nr_of, count. apply take_drop_middle in H. rewrite <- H, List.filter_app, length_app. simpl.
  rewrite E. simpl. lia.
Qed.
Lemma nr_of_room P zs i z : zs !! i = Some z -> P z = false -> nr_of P zs < Z.of_nat (length zs).
Proof.
  intros H E. unfold nr_of, count. apply take_drop_middle in H. rewrite <- H, List.filter_app, !length_app.
  simpl. rewrite E. pose proof (List.filter_length_le P (take i zs)).
  pose proof (List.filter_length_le P (drop (S i) zs)). lia.
Qed.
End counting.

(** ** One zone changes *)

Lemma zset_res_id f : zset_res (zf_res f) f = f.
Proof. by destruct f. Qed.

Record changed (st : zns_ftl * shared) (i : nat) (z' : zone_descriptor) (st' : zns_ftl * shared) : Prop := {
  cd_inv : zinv st';
  cd_zones : zf_zone_descs (fst st') = <[i := z']> (zf_zone_descs (fst st));
  cd_zp : zf_zp (fst st') = zf_zp (fst st);
  cd_sp : sp (zf_ssd (fst st')) = sp (zf_ssd (fst st))
}.

Lemma unchanged st i z : zinv st -> zf_zone_descs (fst st) !! i = Some z -> changed st i z st.
Proof. intros H Hz. split; try done. by rewrite list_insert_id. Qed.

Section one_zone.
Context (f : zns_ftl) (s : shared) (I : zinv (f, s)) (i : nat) (z : zone_descriptor).
Context (Hz : zf_zone_descs f !! i = Some z).
Abbreviation zs := (zf_zone_descs f).
Abbreviation n := (zp_nr_zones (zf_zp f)).

Lemma zone_inv : zone_ok (zf_zp f) (Z.of_nat i) z.
Proof. by eapply zi_zone; [apply I|]. Qed.
Lemma zparams : zparams_ok (sp (zf_ssd f)) (zf_zp f).
Proof. apply (zr_params _ _ (proj1 I)). Qed.
Lemma zcap_pos : 0 < zcap (zf_zp f).
Proof.
  pose proof (zk_zone _ _ zparams). pose proof (zk_align _ _ zparams). unfold zcap.
  apply Z.div_str_pos. Z.to_euclidean_division_equations. lia.
Qed.
Lemma zone_index : (i < length zs)%nat /\ Z.of_nat (length zs) = n /\ Z.of_nat i < n /\ n < 2 ^ 32.
Proof.
  pose proof (lookup_lt_Some _ _ _ Hz). destruct I as [R [Hl _ _]]. cbn [fst snd] in *.
  pose proof (zk_total _ _ (zr_params _ _ R)). pose proof zcap_pos.
  assert (0 < n) by lia. split_and!; nia.
Qed.

Lemma active_res : rs_active (zf_res f) = Res (nr_of is_active zs) n.
Proof. apply (ro_active _ _ _ (zi_res _ (proj2 I))). Qed.
Lemma open_res : rs_open (zf_res f) = Res (nr_of is_open zs) n.
Proof. apply (ro_open _ _ _ (zi_res _ (proj2 I))). Qed.
Lemma zrwa_res : exists a, rs_zrwa (zf_res f) = Res a n /\ nr_of has_zrwa zs <= a <= n.
Proof.
  destruct (ro_zrwa _ _ _ (zi_res _ (proj2 I))) as [E H]. cbn [fst] in *.
  destruct (rs_zrwa (zf_res f)) as [a t]. simpl in *. subst t. by exists a.
Qed.

(** Zone [i] becomes [z'] and the counters follow. *)
Lemma zinv_moved z' r' :
  zone_ok (zf_zp f) (Z.of_nat i) z' ->
  rs_active r' = Res (nr_of is_active zs + Z.b2z (is_active z') - Z.b2z (is_active z)) n ->
  rs_open r' = Res (nr_of is_open zs + Z.b2z (is_open z') - Z.b2z (is_open z)) n ->
  total_cnt (rs_zrwa r') = n ->
  nr_of has_zrwa zs + Z.b2z (has_zrwa z') - Z.b2z (has_zrwa z) <= acquired_cnt (rs_zrwa r') <= n ->
  changed (f, s) i z' (zset_zones (<[i := z']> zs) (zset_res r' f), s).
Proof.
  intros Hok Ha Ho Ht Hr. split; try done. destruct I as [[R1 R2 R3 R4 R5 R6 R7] [Hl Hf _]]. cbn [fst snd] in *.
  split; cbn [fst snd]; split; try done; cbn [zset_zones zset_res zf_zone_descs zf_zp zf_res].
  - by rewrite length_insert.
  - intros j y Hy. by apply list_lookup_insert_Some in Hy as [(<- & <- & _)|[_ Hy]]; [|apply Hf].
  - split; rewrite !(nr_of_insert _ _ _ _ _ Hz); done.
Qed.
End one_zone.

(** ** Zone management actions *)

(** Zone [i], which was [z], went through [action]. *)
Definition acted (st : zns_ftl * shared) (i : nat) (z : zone_descriptor) (action : Z) (opt : bool)
    (r : Z) (st' : zns_ftl * shared) : Prop :=
  exists z', changed st i z' st' /\
    (zd_zrwav z = false -> opt = false ->
     zd_zrwav z' = false /\ spec_action action (abs_zone z) = Some (r, abs_zone z')).

Ltac zlook := cbn [zset_zones zset_res zf_zone_descs]; rewrite ?Nat2Z.id;
  first [ eassumption | apply list_lookup_insert_eq; assumption ].
Ltac zfields := cbn [zset_zones zset_res zf_res set_res_info res_info rs_active rs_open rs_zrwa].

(** Compute the fields of an updated drive. *)
Tactic Notation "zrecord" := unfold zset_zones, zset_res, zset_storage, zset_zone_buffers, zset_zrwa_buffers;
  cbn [zf_zone_descs zf_ssd zf_zp zf_res zf_report zf_zone_write_buffer zf_zrwa_buffer zf_storage zf_host zf_releases].
Tactic Notation "zrecord" "in" "*" :=
  unfold zset_zones, zset_res, zset_storage, zset_zone_buffers, zset_zrwa_buffers in *;
  cbn [zf_zone_descs zf_ssd zf_zp zf_res zf_report zf_zone_write_buffer zf_zrwa_buffer zf_storage zf_host zf_releases] in *.

Section actions.
Context (u : Prop) (f : zns_ftl) (s : shared) (I : zinv (f, s)) (i : nat) (z : zone_descriptor).
Context (Hz : zf_zone_descs f !! i = Some z).
Abbreviation zid := (Z.of_nat i).
Abbreviation zs := (zf_zone_descs f).
Abbreviation n := (zp_nr_zones (zf_zp f)).

Lemma pwp_this_zone (Q : zone_descriptor -> zns_ftl * shared -> Prop) :
  Q z (f, s) -> pwp u (get_zone zid) Q (f, s).
Proof.
  intros HQ. pose proof (lookup_lt_Some _ _ _ Hz). apply pwp_get_zone; [left; lia|]. intros z' _ Hz'.
  rewrite Nat2Z.id in Hz'. by simplify_eq.
Qed.

Lemma counters_small :
  0 <= nr_of is_active zs <= n /\ 0 <= nr_of is_open zs <= n /\ 0 <= nr_of has_zrwa zs <= n /\ n < 2 ^ 32.
Proof.
  pose proof (zone_index f s I i z Hz) as (_ & E & _ & ?). rewrite <- E at 1 2 3.
  split_and!; try apply nr_of_bounds; done.
Qed.

(** Zone [i] moves to state [st'] and the counters [r'] follow; its fill level stays. *)
Lemma changed_state st' r' :
  st' <> ZONE_STATE_EMPTY -> st' <> ZONE_STATE_READ_ONLY -> st' <> ZONE_STATE_OFFLINE ->
  (is_active (set_state st' z) = true -> zd_wp z < zd_zslba z + zcap (zf_zp f)) ->
  rs_active r' = Res (nr_of is_active zs + Z.b2z (is_active (set_state st' z)) - Z.b2z (is_active z)) n ->
  rs_open r' = Res (nr_of is_open zs + Z.b2z (is_open (set_state st' z)) - Z.b2z (is_open z)) n ->
  (forall a, rs_zrwa (zf_res f) = Res a n -> nr_of has_zrwa zs <= a <= n ->
     total_cnt (rs_zrwa r') = n /\
     nr_of has_zrwa zs + Z.b2z (has_zrwa (set_state st' z)) - Z.b2z (has_zrwa z)
       <= acquired_cnt (rs_zrwa r') <= n) ->
  changed (f, s) i (set_state st' z) (zset_zones (<[i := set_state st' z]> zs) (zset_res r' f), s).
Proof.
  intros H1 H2 H3 H4 Ha Ho Hr. destruct (zrwa_res f s I) as (a & Ea & Hb). destruct (Hr a Ea Hb).
  apply (zinv_moved f s I i z Hz); try done. destruct (zone_inv f s I i z Hz). by split.
Qed.

(** An action that leaves the zone alone. *)
Lemma pwp_refused action opt r :
  spec_action action (abs_zone z) = Some (r, abs_zone z) ->
  pwp u (mret r) (acted (f, s) i z action opt) (f, s).
Proof. intros E. apply pwp_ret. exists z. split; [by apply unchanged|done]. Qed.

(** Give back what an active zone holds, whatever the table of zones is meanwhile. *)
Lemma pwp_release_active_at l opened zrwa (Q : unit -> zns_ftl * shared -> Prop) :
  is_active z = true -> is_open z = opened -> zd_zrwav z = zrwa ->
  (forall r', rs_active r' = Res (nr_of is_active zs - 1) n ->
     rs_open r' = Res (nr_of is_open zs - Z.b2z opened) n ->
     (forall a, rs_zrwa (zf_res f) = Res a n -> rs_zrwa r' = Res (a - Z.b2z zrwa) n) ->
     Q tt (zset_zones l (zset_res r' f), s)) ->
  pwp u (release_active opened zrwa) Q (zset_zones l f, s).
Proof.
  intros Ha Ho Hr HQ. pose proof counters_small as (C1 & C2 & C3 & C4).
  destruct (zrwa_res f s I) as (a & Ea & Hb). pose proof (nr_of_pos _ _ _ _ Hz Ha).
  pose proof (active_res f s I) as Ra. pose proof (open_res f s I) as Ro. cbn [fst] in *.
  assert (Hrest : forall r1, rs_active r1 = rs_active (zf_res f) ->
    rs_open r1 = Res (nr_of is_open zs - Z.b2z opened) n -> rs_zrwa r1 = rs_zrwa (zf_res f) ->
    pwp u (_ ← release_zone_resource ACTIVE_ZONE;
           if zrwa then release_zone_resource ZRWA_ZONE else mret tt) Q (zset_zones l (zset_res r1 f), s)).
  { intros r1 E1 E2 E3. apply pwp_bind.
    eapply pwp_release; [zfields; by rewrite E1|lia|]. destruct zrwa.
    - assert (has_zrwa z = true) as Hh by (unfold has_zrwa; by rewrite Ha, Hr).
      pose proof (nr_of_pos _ _ _ _ Hz Hh). eapply pwp_release; [zfields; by rewrite E3|lia|].
      zrecord in *. apply HQ; zfields; try done. intros a' E'. rewrite E' in Ea. by simplify_eq.
    - apply pwp_ret. zrecord in *. apply HQ; zfields; try done. intros a' E'. rewrite E3, E'. f_equal. simpl. lia. }
  unfold release_active. apply pwp_bind. destruct opened.
  - pose proof (nr_of_pos _ _ _ _ Hz Ho). eapply pwp_release; [exact Ro|lia|]. by apply Hrest.
  - apply pwp_ret. rewrite <- (zset_res_id f).
    apply Hrest; try done. rewrite Ro. f_equal. simpl. lia.
Qed.

Lemma pwp_release_active opened zrwa (Q : unit -> zns_ftl * shared -> Prop) :
  is_active z = true -> is_open z = opened -> zd_zrwav z = zrwa ->
  (forall r', rs_active r' = Res (nr_of is_active zs - 1) n ->
     rs_open r' = Res (nr_of is_open zs - Z.b2z opened) n ->
     (forall a, rs_zrwa (zf_res f) = Res a n -> rs_zrwa r' = Res (a - Z.b2z zrwa) n) ->
     Q tt (zset_res r' f, s)) ->
  pwp u (release_active opened zrwa) Q (f, s).
Proof.
  intros Ha Ho Hr HQ. pose proof (pwp_release_active_at zs opened zrwa Q Ha Ho Hr) as H.
  replace (zset_zones zs f) with f in H by (by destruct f). by apply H.
Qed.

Lemma has_zrwa_active : is_active z = true -> has_zrwa z = zd_zrwav z.
Proof. unfold has_zrwa. by intros ->. Qed.
Lemma zrwa_counted : is_active z = true -> Z.b2z (zd_zrwav z) <= nr_of has_zrwa zs.
Proof.
  intros Ha. rewrite <- has_zrwa_active by done. pose proof counters_small.
  destruct (has_zrwa z) eqn:E; simpl; [|lia]. pose proof (nr_of_pos _ _ _ _ Hz E). lia.
Qed.
Lemma idle_zone : zd_state z = ZONE_STATE_EMPTY \/ zd_state z = ZONE_STATE_FULL ->
  is_active z = false /\ is_open z = false /\ has_zrwa z = false.
Proof. unfold has_zrwa, is_active, is_open. by intros [-> | ->]. Qed.

Lemma pwp_close_zone opt :
  pwp u (zmgmt_send_close_zone zid) (acted (f, s) i z ZSA_CLOSE_ZONE opt) (f, s).
Proof.
  unfold zmgmt_send_close_zone. apply pwp_bind, pwp_this_zone.
  assert (Hopen : is_open z = true -> is_active z = true ->
    pwp u (_ ← change_zone_state zid ZONE_STATE_CLOSED; _ ← release_zone_resource OPEN_ZONE; mret NVME_SC_OK)
      (acted (f, s) i z ZSA_CLOSE_ZONE opt) (f, s)).
  { intros Ho Ha. pose proof (nr_of_pos _ _ _ _ Hz Ho). pose proof counters_small as (C1 & C2 & C3 & C4).
    apply pwp_bind. eapply pwp_mod_zone; [lia|zlook|]. rewrite Nat2Z.id.
    apply pwp_bind. eapply pwp_release; [apply (open_res f s I)|lia|]. apply pwp_ret.
    exists (set_state ZONE_STATE_CLOSED z). split.
    - apply changed_state; zfields; try done.
      + intros _. by apply (zo_active _ _ _ (zone_inv f s I i z Hz)).
      + rewrite (active_res f s I), Ha. simpl. f_equal. lia.
      + rewrite Ho. simpl. f_equal. lia.
      + intros a -> Hb. change (has_zrwa (set_state ZONE_STATE_CLOSED z)) with (zd_zrwav z).
        rewrite (has_zrwa_active Ha). simpl. lia.
    - intros Hr _. split; [done|]. unfold spec_action, abs_zone, is_open in *. simpl. by destruct (zd_state z). }
  destruct (zd_state z) eqn:Est; try (apply Hopen; unfold is_open, is_active; by rewrite Est);
    apply pwp_refused; unfold spec_action, abs_zone; simpl; by rewrite Est.
Qed.

(** The end of an action that gives everything back. *)
Lemma pwp_finish_active opened opt :
  is_active z = true -> is_open z = opened ->
  pwp u (_ ← release_active opened (zd_zrwav z); _ ← change_zone_state zid ZONE_STATE_FULL; mret NVME_SC_OK)
    (acted (f, s) i z ZSA_FINISH_ZONE opt) (f, s).
Proof.
  intros Ha Ho. apply pwp_bind, pwp_release_active; try done. intros r' E1 E2 E3.
  apply pwp_bind. eapply pwp_mod_zone; [lia|zlook|]. rewrite Nat2Z.id. apply pwp_ret.
  exists (set_state ZONE_STATE_FULL z). split.
  - apply changed_state; try done.
    + rewrite E1, Ha. simpl. f_equal. lia.
    + rewrite E2, Ho. simpl. f_equal. lia.
    + intros a Ea Hb. rewrite (E3 a Ea), (has_zrwa_active Ha).
      change (has_zrwa (set_state ZONE_STATE_FULL z)) with false. simpl.
      pose proof (zrwa_counted Ha). destruct (zd_zrwav z); simpl in *; lia.
  - intros Hr _. split; [done|]. unfold spec_action, abs_zone, is_active in *. simpl. by destruct (zd_state z).
Qed.

Lemma pwp_finish_zone opt :
  pwp u (zmgmt_send_finish_zone zid) (acted (f, s) i z ZSA_FINISH_ZONE opt) (f, s).
Proof.
  unfold zmgmt_send_finish_zone. apply pwp_bind, pwp_this_zone.
  destruct (zd_state z) eqn:Est;
    try (apply pwp_finish_active; unfold is_active, is_open; by rewrite Est);
    try (apply pwp_refused; unfold spec_action, abs_zone; simpl; by rewrite Est).
  apply pwp_bind. eapply pwp_mod_zone; [lia|zlook|]. rewrite Nat2Z.id. apply pwp_ret.
  exists (set_state ZONE_STATE_FULL z). split.
  - pose proof (changed_state ZONE_STATE_FULL (zf_res f)) as Hc. rewrite zset_res_id in Hc.
    destruct (idle_zone (or_introl Est)) as (Ea & Eo & Eh). apply Hc; try done.
    + rewrite (active_res f s I), Ea. simpl. f_equal. lia.
    + rewrite (open_res f s I), Eo. simpl. f_equal. lia.
    + intros a -> Hb. rewrite Eh. change (has_zrwa (set_state ZONE_STATE_FULL z)) with false. simpl. lia.
  - intros Hr _. split; [done|]. unfold spec_action, abs_zone. simpl. by rewrite Est.
Qed.

Lemma pwp_offline_zone opt :
  pwp u (zmgmt_send_offline_zone zid) (acted (f, s) i z ZSA_OFFLINE_ZONE opt) (f, s).
Proof.
  unfold zmgmt_send_offline_zone. apply pwp_bind, pwp_this_zone.
  pose proof (zo_state _ _ _ (zone_inv f s I i z Hz)) as [Hs1 Hs2].
  destruct (zd_state z) eqn:Est; try done; apply pwp_refused; unfold spec_action, abs_zone; simpl; by rewrite Est.
Qed.

(** Opening a zone that is not open, from a state where only the counters of other
    resources and the attribute of the zone have been dealt with. *)
Lemma pwp_open_closed z1 r1 (Q : Z -> zns_ftl * shared -> Prop) :
  is_open z = false -> rs_open r1 = Res (nr_of is_open zs) n ->
  Q NVME_SC_OK (zset_zones (<[i := set_state ZONE_STATE_OPENED_EXPL z1]> zs)
      (zset_res (set_res_info OPEN_ZONE (Res (nr_of is_open zs + 1) n) r1) f), s) ->
  pwp u (open_closed zid) Q (zset_zones (<[i := z1]> zs) (zset_res r1 f), s).
Proof.
  intros Ho Hr HQ. pose proof counters_small as (C1 & C2 & C3 & C4).
  pose proof (nr_of_room _ _ _ _ Hz Ho). pose proof (zone_index f s I i z Hz) as (Hi & El & _).
  unfold open_closed. apply pwp_bind. eapply pwp_acquire; [exact Hr|lia|lia|]. cbn [negb].
  apply pwp_bind. eapply pwp_mod_zone; [lia|zlook|]. rewrite Nat2Z.id. apply pwp_ret.
  zrecord.
  rewrite list_insert_insert_eq. exact HQ.
Qed.

Lemma same_zone_put r1 : zset_zones (<[i := z]> zs) (zset_res r1 f) = zset_res r1 f.
Proof. by rewrite list_insert_id. Qed.

Lemma pwp_open_zone opt : pwp u (zmgmt_send_open_zone zid opt) (acted (f, s) i z ZSA_OPEN_ZONE opt) (f, s).
Proof.
  unfold zmgmt_send_open_zone. apply pwp_bind, pwp_this_zone.
  pose proof counters_small as (C1 & C2 & C3 & C4). pose proof (zone_index f s I i z Hz) as (Hi & El & _).
  pose proof (active_res f s I) as Ra. pose proof (open_res f s I) as Ro.
  destruct (zrwa_res f s I) as (a & Ea & Hb). pose proof (zone_inv f s I i z Hz) as Hok.
  destruct (zd_state z) eqn:Est;
    try (apply pwp_refused; unfold spec_action, abs_zone; simpl; by rewrite Est).
  - (* empty *)
    destruct (idle_zone (or_introl Est)) as (Fa & Fo & Fh). destruct (zo_empty _ _ _ Hok Est) as [Hwp Hzr].
    pose proof (nr_of_room _ _ _ _ Hz Fa). pose proof (nr_of_room _ _ _ _ Hz Fo).
    apply pwp_bind, pwp_getz. unfold is_zone_resource_full. cbn [res_info]. rewrite Ra, Ro, Ea. cbn [acquired_cnt total_cnt].
    replace (nr_of is_active zs =? n) with false by lia. replace (nr_of is_open zs =? n) with false by lia.
    destruct opt; cbn [andb].
    + destruct (Z.eqb_spec a n) as [Efull|Efree].
      { apply pwp_ret. exists z. split; [by apply unchanged|done]. }
      apply pwp_bind, pwp_bind. eapply pwp_acquire; [exact Ea|lia|lia|].
      eapply pwp_mod_zone; [lia|zlook|]. rewrite Nat2Z.id. apply pwp_bind.
      eapply pwp_acquire; [exact Ra|lia|lia|].
      apply (pwp_open_closed (set_zrwav true z)
        (set_res_info ACTIVE_ZONE (Res (nr_of is_active zs + 1) n)
          (set_res_info ZRWA_ZONE (Res (a + 1) n) (zf_res f)))); [done|exact Ro|].
      exists (set_state ZONE_STATE_OPENED_EXPL (set_zrwav true z)). split; [|done].
      apply (zinv_moved f s I i z Hz); rewrite ?Fa, ?Fo, ?Fh; zfields; simpl; try (f_equal; lia); try lia.
      pose proof (zcap_pos f s I). destruct Hok. split; simpl; try done. lia.
    + apply pwp_bind, pwp_ret, pwp_bind. eapply pwp_acquire; [exact Ra|lia|lia|].
      rewrite <- same_zone_put. apply (pwp_open_closed z); [done|exact Ro|].
      exists (set_state ZONE_STATE_OPENED_EXPL z). split.
      * apply changed_state; zfields; try done.
        -- intros _. pose proof (zcap_pos f s I). lia.
        -- rewrite Fa. simpl. f_equal. lia.
        -- rewrite Fo. simpl. f_equal. lia.
        -- intros a' E' Hb'. rewrite E', Fh.
           change (has_zrwa (set_state ZONE_STATE_OPENED_EXPL z)) with (zd_zrwav z). rewrite Hzr. simpl. lia.
      * intros _ _. split; [done|]. unfold spec_action, abs_zone. simpl. by rewrite Est.
  - (* implicitly open *)
    apply pwp_bind. eapply pwp_mod_zone; [lia|zlook|]. rewrite Nat2Z.id. apply pwp_ret.
    exists (set_state ZONE_STATE_OPENED_EXPL z).
    assert (is_active z = true /\ is_open z = true) as [Fa Fo] by (unfold is_active, is_open; by rewrite Est).
    split.
    + pose proof (changed_state ZONE_STATE_OPENED_EXPL (zf_res f)) as Hc. rewrite zset_res_id in Hc.
      apply Hc; try done.
      * intros _. by apply (zo_active _ _ _ Hok).
      * rewrite Ra, Fa. simpl. f_equal. lia.
      * rewrite Ro, Fo. simpl. f_equal. lia.
      * intros a' E' Hb'. rewrite E', (has_zrwa_active Fa).
        change (has_zrwa (set_state ZONE_STATE_OPENED_EXPL z)) with (zd_zrwav z). simpl. lia.
    + intros Hr _. split; [done|]. unfold spec_action, abs_zone. simpl. by rewrite Est.
  - (* closed *)
    assert (is_active z = true /\ is_open z = false) as [Fa Fo] by (unfold is_active, is_open; by rewrite Est).
    pose proof (pwp_open_closed z (zf_res f) (acted (f, s) i z ZSA_OPEN_ZONE opt)) as Hop.
    rewrite same_zone_put, zset_res_id in Hop. apply Hop; [done|exact Ro|]. exists (set_state ZONE_STATE_OPENED_EXPL z). split.
    + apply changed_state; zfields; try done.
      * intros _. by apply (zo_active _ _ _ Hok).
      * rewrite Ra, Fa. simpl. f_equal. lia.
      * rewrite Fo. simpl. f_equal. lia.
      * intros a' E' Hb'. rewrite E', (has_zrwa_active Fa).
        change (has_zrwa (set_state ZONE_STATE_OPENED_EXPL z)) with (zd_zrwav z). simpl. lia.
    + intros Hr _. split; [done|]. unfold spec_action, abs_zone. simpl. by rewrite Est.
Qed.

(** What a zone is after a reset. *)
Definition reset_descriptor : zone_descriptor := set_zrwav false (set_zwp (zd_zslba z) (set_state ZONE_STATE_EMPTY z)).

Lemma refilled_ok size l b : buffers_ok size n l -> l !! i = Some b ->
  buffers_ok size n (<[i := Buffer (bf_size b) (bf_size b)]> l).
Proof.
  intros H Hb Hs. destruct (H Hs) as [Hl Hall]. split; [by rewrite length_insert|].
  apply Forall_insert; [done|]. simpl. rewrite Forall_lookup in Hall. by eapply Hall.
Qed.

(** Clearing the zone, with the counters already right. *)
Lemma pwp_restart r' (Q : Z -> zns_ftl * shared -> Prop) :
  rs_active r' = Res (nr_of is_active zs - Z.b2z (is_active z)) n ->
  rs_open r' = Res (nr_of is_open zs - Z.b2z (is_open z)) n ->
  (forall a, rs_zrwa (zf_res f) = Res a n -> nr_of has_zrwa zs <= a <= n ->
     total_cnt (rs_zrwa r') = n /\ nr_of has_zrwa zs - Z.b2z (has_zrwa z) <= acquired_cnt (rs_zrwa r') <= n) ->
  (forall st', changed (f, s) i reset_descriptor st' -> Q NVME_SC_OK st') ->
  pwp u (_ ← change_zone_state zid ZONE_STATE_EMPTY; _ ← reset_zone zid; mret NVME_SC_OK) Q (zset_res r' f, s).
Proof.
  intros E1 E2 E3 HQ. pose proof (zone_index f s I i z Hz) as (Hi & El & Hin & _).
  apply pwp_bind. eapply pwp_mod_zone; [lia|zlook|]. rewrite Nat2Z.id. cbn [zset_res zf_zone_descs].
  apply pwp_bind. unfold reset_zone. apply pwp_bind, pwp_getz. cbv zeta. apply pwp_bind, pwp_modz, pwp_bind.
  eapply pwp_mod_zone; [lia|cbn [zset_storage zf_zone_descs]; zlook|]. rewrite Nat2Z.id.
  zrecord.
  rewrite list_insert_insert_eq. fold reset_descriptor.
  assert (Hmove : changed (f, s) i reset_descriptor (zset_zones (<[i := reset_descriptor]> zs) (zset_res r' f), s)).
  { destruct (zrwa_res f s I) as (a & Ea & Hb). destruct (E3 a Ea Hb).
    pose proof (zcap_pos f s I). pose proof (zone_inv f s I i z Hz) as [].
    apply (zinv_moved f s I i z Hz); rewrite ?E1, ?E2; simpl; try (f_equal; lia); try lia.
    split; simpl; try done; lia. }
  destruct Hmove as [[[R1 R2 R3 R4 R5 R6 R7] Z1] M2 M3 M4].
  cbn [fst snd zset_zones zset_res zf_zp zf_ssd zf_zone_descs zf_res zf_report zf_zone_write_buffer zf_zrwa_buffer] in *.
  destruct (Z.eqb_spec (zp_zrwa_buffer_size (zf_zp f)) 0) as [Hs|Hs]; cbn [negb].
  - apply pwp_ret, pwp_ret, HQ. split; try done. split; [|by destruct Z1; split]. by split.
  - destruct (R6 Hs) as [Hlb _].
    destruct (lookup_lt_is_Some_2 (zf_zrwa_buffer f) i) as [b Hb]; [lia|].
    apply (pwp_on_buffer _ _ b).
    { right. simpl. replace (zid <? 0) with false by lia. by rewrite Nat2Z.id. }
    intros b' Hb'. simpl in Hb'. replace (zid <? 0) with false in Hb' by lia. rewrite Nat2Z.id in Hb'.
    apply pwp_bind. cbn [put_buf]. rewrite Nat2Z.id. apply pwp_ret, HQ. split; try done.
    split; [|by destruct Z1; split]. split; try done. by apply refilled_ok.
Qed.

Lemma acted_reset opt st' :
  zd_state z <> ZONE_STATE_READ_ONLY -> zd_state z <> ZONE_STATE_OFFLINE ->
  changed (f, s) i reset_descriptor st' -> acted (f, s) i z ZSA_RESET_ZONE opt NVME_SC_OK st'.
Proof.
  intros H1 H2 Hc. exists reset_descriptor. split; [done|]. intros _ _. split; [done|].
  unfold spec_action, abs_zone. simpl. rewrite Z.sub_diag. by destruct (zd_state z).
Qed.

Lemma pwp_reset_active opened opt :
  is_active z = true -> is_open z = opened ->
  pwp u (_ ← release_active opened (zd_zrwav z);
         _ ← change_zone_state zid ZONE_STATE_EMPTY; _ ← reset_zone zid; mret NVME_SC_OK)
    (acted (f, s) i z ZSA_RESET_ZONE opt) (f, s).
Proof.
  intros Ha Ho. pose proof (zo_state _ _ _ (zone_inv f s I i z Hz)) as [Hs1 Hs2].
  apply pwp_bind, pwp_release_active; try done. intros r' E1 E2 E3. apply pwp_restart.
  - by rewrite Ha.
  - by rewrite Ho.
  - intros a Ea Hb. rewrite (E3 a Ea), (has_zrwa_active Ha). simpl. split; [done|].
    pose proof (zrwa_counted Ha). destruct (zd_zrwav z); simpl in *; lia.
  - intros st'. by apply acted_reset.
Qed.

Lemma pwp_reset_zone opt :
  pwp u (zmgmt_send_reset_zone zid) (acted (f, s) i z ZSA_RESET_ZONE opt) (f, s).
Proof.
  unfold zmgmt_send_reset_zone. apply pwp_bind, pwp_this_zone.
  pose proof (zo_state _ _ _ (zone_inv f s I i z Hz)) as [Hs1 Hs2].
  assert (Hidle : is_active z = false /\ is_open z = false /\ has_zrwa z = false ->
    pwp u (_ ← change_zone_state zid ZONE_STATE_EMPTY; _ ← reset_zone zid; mret NVME_SC_OK)
      (acted (f, s) i z ZSA_RESET_ZONE opt) (f, s)).
  { intros (Fa & Fo & Fh). rewrite <- (zset_res_id f) at 2. apply pwp_restart.
    - rewrite Fa, (active_res f s I). simpl. f_equal. lia.
    - rewrite Fo, (open_res f s I). simpl. f_equal. lia.
    - intros a -> Hb. rewrite Fh. simpl. lia.
    - intros st'. by apply acted_reset. }
  destruct (zd_state z) eqn:Est; try done;
    try (apply Hidle, idle_zone; by auto);
    (apply pwp_reset_active; unfold is_active, is_open; by rewrite Est).
Qed.

(** ** The explicit flush of a random write area *)

Lemma zone_sectors : zp_zone_size (zf_zp f) / secsz (sp (zf_ssd f)) = zcap (zf_zp f).
Proof. by rewrite (zk_secsz _ _ (zparams f s I)). Qed.

Lemma zone_to_slba_eq j : 0 <= j <= n -> zone_to_slba f j = j * zcap (zf_zp f).
Proof.
  intros Hj. unfold zone_to_slba. rewrite zone_sectors.
  pose proof (zone_index f s I i z Hz) as (_ & _ & _ & ?).
  pose proof (zk_total _ _ (zparams f s I)). pose proof (zcap_pos f s I).
  rewrite (wrap_small 32 j) by (unfold in_word; lia). apply wrap_small. unfold in_word. nia.
Qed.

Lemma zone_limits : 0 <= zid * zcap (zf_zp f) /\ zid * zcap (zf_zp f) + zcap (zf_zp f) < 2 ^ 32.
Proof.
  pose proof (zone_index f s I i z Hz) as (_ & _ & ? & _). pose proof (zcap_pos f s I).
  pose proof (zk_total _ _ (zparams f s I)). nia.
Qed.

(** The write pointer moves up to [wp']; at the end of the zone everything is given back
    and the zone is full. *)
Lemma changed_wp wp' : is_active z = true -> zd_wp z <= wp' < zd_zslba z + zcap (zf_zp f) ->
  changed (f, s) i (set_zwp wp' z) (zset_zones (<[i := set_zwp wp' z]> zs) f, s).
Proof.
  intros Ha Hw. pose proof (zinv_moved f s I i z Hz (set_zwp wp' z) (zf_res f)) as Hm.
  rewrite zset_res_id in Hm. destruct (zrwa_res f s I) as (a & Ea & Hb).
  change (is_active (set_zwp wp' z)) with (is_active z) in Hm.
  change (is_open (set_zwp wp' z)) with (is_open z) in Hm.
  change (has_zrwa (set_zwp wp' z)) with (has_zrwa z) in Hm. apply Hm.
  - destruct (zone_inv f s I i z Hz). unfold is_active in *. split; simpl in *; try done; try lia.
    intros Est. by rewrite Est in Ha.
  - rewrite (active_res f s I). f_equal. lia.
  - rewrite (open_res f s I). f_equal. lia.
  - by rewrite Ea.
  - rewrite Ea. simpl. lia.
Qed.

(** The whole zone has been written. *)
Lemma changed_filled wp' r' :
  is_active z = true -> wp' = zd_zslba z + zcap (zf_zp f) ->
  rs_active r' = Res (nr_of is_active zs - 1) n ->
  rs_open r' = Res (nr_of is_open zs - Z.b2z (is_open z)) n ->
  (forall a, rs_zrwa (zf_res f) = Res a n -> nr_of has_zrwa zs <= a <= n ->
     total_cnt (rs_zrwa r') = n /\ nr_of has_zrwa zs - Z.b2z (zd_zrwav z) <= acquired_cnt (rs_zrwa r') <= n) ->
  changed (f, s) i (set_state ZONE_STATE_FULL (set_zwp wp' z))
    (zset_zones (<[i := set_state ZONE_STATE_FULL (set_zwp wp' z)]> zs) (zset_res r' f), s).
Proof.
  intros Ha -> E1 E2 E3. destruct (zrwa_res f s I) as (a & Ea & Hb). destruct (E3 a Ea Hb).
  apply (zinv_moved f s I i z Hz); rewrite ?E1, ?E2, ?Ha, ?(has_zrwa_active Ha); simpl; try (f_equal; lia); try done; try lia.
  pose proof (zcap_pos f s I). destruct (zone_inv f s I i z Hz). split; simpl; try done. lia.
Qed.

Lemma pwp_flush_zrwa slba opt :
  lba_to_zone f slba = zid -> (zd_zrwav z = true -> u) ->
  pwp u (zmgmt_send_flush_explicit_zrwa slba) (acted (f, s) i z ZSA_FLUSH_EXPL_ZRWA opt) (f, s).
Proof.
  intros Hl Hu. unfold zmgmt_send_flush_explicit_zrwa. apply pwp_bind, pwp_getz. cbv zeta. rewrite Hl.
  apply pwp_bind, pwp_this_zone.
  assert (Hno : forall r, (zd_zrwav z = true \/ r = NVME_SC_ZNS_INVALID_ZONE_OPERATION) ->
    pwp u (mret r) (acted (f, s) i z ZSA_FLUSH_EXPL_ZRWA opt) (f, s)).
  { intros r Hr. apply pwp_ret. exists z. split; [by apply unchanged|]. intros Hf _. rewrite Hf in Hr.
    destruct Hr as [? | ->]; [done|]. done. }
  destruct (zd_zrwav z) eqn:Ezr; cbn [negb]; [|apply Hno; by right].
  pose proof zone_limits as [L1 L2]. pose proof (zone_index f s I i z Hz) as (Hi & _ & Hin & _).
  pose proof (zone_inv f s I i z Hz) as [O1 O2 O3 O4 O5 O6].
  rewrite zone_to_slba_eq, O2 by lia.
  rewrite !(wrap_small 64 (zid * _ + _)) by (unfold in_word; lia).
  pose proof (zcap_pos f s I).
  rewrite (wrap_small 64 (zid * _ + _ - 1)) by (unfold in_word; lia).
  destruct ((zd_wp z <=? slba) && _) eqn:Hrange; cbn [negb]; [|apply Hno; by right].
  bool_to_prop. rewrite (wrap_small 64 (slba + 1)) by (unfold in_word; lia).
  case_if Hfg; [by apply pwp_undefined, Hu|]. case_if Hmod; [apply Hno; by left|].
  assert (Hstep : forall c, is_active z = true -> is_open z = negb c ->
    pwp u (_ ← mod_zone zid (set_zwp (slba + 1));
           _ ← (if slba + 1 =? zid * zcap (zf_zp f) + zcap (zf_zp f) then
                  _ ← release_active (negb c) true; change_zone_state zid ZONE_STATE_FULL
                else mret tt);
           mret NVME_SC_OK) (acted (f, s) i z ZSA_FLUSH_EXPL_ZRWA opt) (f, s)).
  { intros c Ha Ho. apply pwp_bind. eapply pwp_mod_zone; [lia|zlook|]. rewrite Nat2Z.id. apply pwp_bind.
    case_if Hend; bool_to_prop.
    - apply pwp_bind. apply pwp_release_active_at; [done..|]. intros r' E1 E2 E3.
      eapply pwp_mod_zone; [lia|zlook|]. rewrite Nat2Z.id.
      zrecord.
      rewrite list_insert_insert_eq. apply pwp_ret.
      eexists. split; [|by rewrite Ezr]. apply (changed_filled _ r'); try done; [lia|by rewrite Ho|].
      intros a Ea Hb. rewrite (E3 a Ea), Ezr. pose proof (zrwa_counted Ha). rewrite Ezr in *. simpl in *. lia.
    - apply pwp_ret, pwp_ret. eexists. split; [|by rewrite Ezr]. apply changed_wp; [done|lia]. }
  destruct (zd_state z) eqn:Est; try (apply Hno; by left);
    first [ apply (Hstep false) | apply (Hstep true) ]; unfold is_active, is_open; by rewrite Est.
Qed.

(** ** The command *)

Definition sent (action : Z) (opt : bool) (r : option Z) (st' : zns_ftl * shared) : Prop :=
  match r with
  | Some r => acted (f, s) i z action opt r st'
  | None => st' = (f, s) /\ spec_action action (abs_zone z) = None
  end.

(** The option of an action matters for opening only. *)
Definition zrwa_asked (action : Z) (opt : bool) : bool := (action =? ZSA_OPEN_ZONE) && opt.

Lemma pwp_zmgmt_send slba action opt :
  lba_to_zone f slba = zid -> (zd_zrwav z = true -> u) ->
  pwp u (zmgmt_send slba action opt) (sent action (zrwa_asked action opt)) (f, s).
Proof.
  intros Hl Hu. unfold zmgmt_send. apply pwp_bind, pwp_getz. cbv zeta. rewrite Hl.
  assert (Hcase : forall (a : Z) (m : zprog Z), action = a ->
    pwp u m (acted (f, s) i z a (zrwa_asked a opt)) (f, s) ->
    pwp u (r ← m; mret (Some r)) (sent action (zrwa_asked action opt)) (f, s)).
  { intros a m -> H. apply pwp_bind. eapply pwp_mono; [exact H|]. intros r st' Hr. by apply pwp_ret. }
  repeat (let H := fresh "Hact" in case_if H; [bool_to_prop; eapply Hcase; [exact H|];
    first [ apply pwp_close_zone | apply pwp_finish_zone | apply pwp_open_zone | apply pwp_reset_zone
          | apply pwp_offline_zone | by apply pwp_flush_zrwa ]|]).
  apply pwp_ret. unfold sent. split; [done|]. unfold spec_action.
  repeat match goal with H : (_ =? _) = false |- _ => rewrite H; clear H end. done.
Qed.
End actions.

(** ** All zones *)

Definition abs_zones (f : zns_ftl) : list azone := abs_zone <$> zf_zone_descs f.
Definition no_zrwa (f : zns_ftl) : Prop := Forall (fun z => zd_zrwav z = false) (zf_zone_descs f).

Definition spec_all (action : Z) (z : azone) : azone :=
  match spec_action action z with Some (_, z') => z' | None => z end.

Lemma pwp_for_each {St C} (u : Prop) (Inv : list C -> St -> Prop) (body : C -> prog St unit) l s :
  Inv l s -> (forall x l' s', Inv (x :: l') s' -> pwp u (body x) (fun _ => Inv l') s') ->
  pwp u (for_each l body) (fun _ => Inv []) s.
Proof.
  intros HI Hb. revert s HI. induction l as [|x l IH]; intros s HI; simpl; [done|].
  apply pwp_bind. eapply pwp_mono; [by apply Hb|]. intros [] s'. apply IH.
Qed.

Lemma lba_to_zone_start f s j : zinv (f, s) -> 0 <= j < zp_nr_zones (zf_zp f) ->
  lba_to_zone f (zone_to_slba f j) = j.
Proof.
  intros I Hj. destruct (lookup_lt_is_Some_2 (zf_zone_descs f) (Z.to_nat j)) as [z Hz].
  { pose proof (zi_length _ (proj2 I)). cbn [fst] in *. lia. }
  rewrite (zone_to_slba_eq f s I _ z Hz) by lia. unfold lba_to_zone. rewrite (zone_sectors f s I).
  pose proof (zcap_pos f s I). rewrite Z.div_mul by lia.
  pose proof (zone_index f s I _ z Hz). apply wrap_small. unfold in_word. lia.
Qed.
