(* ===== verification/ZnsCmd.v ===== *)
(** * Data commands of the zoned namespace (proofs about ZnsIo)

    Flash operations and buffers leave zones and counters alone; a write moves one
    zone as the zone state machine says; reports and the dispatch of commands. *)
From S2P Require Import Prelude ChannelModel Ssd SsdProps KvFtl KvFtlSpec Zns ZnsIo ZnsSpec ZnsInv.

(** ** What leaves the zones alone *)

Record kept (st st' : zns_ftl * shared) : Prop := {
  kp_inv : zinv st';
  kp_zones : zf_zone_descs (fst st') = zf_zone_descs (fst st);
  kp_zp : zf_zp (fst st') = zf_zp (fst st);
  kp_sp : sp (zf_ssd (fst st')) = sp (zf_ssd (fst st))
}.

Lemma zkept_refl st : zinv st -> kept st st.
Proof. by split. Qed.
Lemma kept_trans st1 st2 st3 : kept st1 st2 -> kept st2 st3 -> kept st1 st3.
Proof. intros [] []. split; congruence. Qed.
Lemma kept_changed st1 st2 i z st3 : kept st1 st2 -> changed st2 i z st3 -> changed st1 i z st3.
Proof. intros [] []. split; congruence. Qed.
Lemma changed_kept st1 st2 i z st3 : changed st1 i z st2 -> kept st2 st3 -> changed st1 i z st3.
Proof. intros [] []. split; congruence. Qed.
Lemma changed_twice st1 st2 i z z' st3 : changed st1 i z st2 -> changed st2 i z' st3 -> changed st1 i z' st3.
Proof. intros [? E] [? E']. split; try congruence. by rewrite E', E, list_insert_insert_eq. Qed.
Lemma kept_same st1 st2 i z : kept st1 st2 -> zf_zone_descs (fst st1) !! i = Some z -> changed st1 i z st2.
Proof. intros [] Hz. split; try done. rewrite list_insert_id; congruence. Qed.

Lemma kept_lookup f s f1 s1 i z : kept (f, s) (f1, s1) -> zf_zone_descs f !! i = Some z -> zf_zone_descs f1 !! i = Some z.
Proof. intros [_ E _ _]. cbn [fst] in E. by rewrite E. Qed.
Lemma changed_lookup f s f1 s1 i z z' : changed (f, s) i z' (f1, s1) -> zf_zone_descs f !! i = Some z ->
  zf_zone_descs f1 !! i = Some z'.
Proof. intros [_ E _ _] Hz. cbn [fst] in E. rewrite E. apply list_lookup_insert_eq. by eapply lookup_lt_Some. Qed.

(** Flash commands change times, and at most add a release. *)
Lemma kept_flash f s d' s' rel :
  zinv (f, s) -> times_only (zf_ssd f) s (d', s') ->
  kept (f, s) (ZnsFtl d' (zf_zp f) (zf_res f) (zf_zone_descs f) (zf_report f) (zf_zone_write_buffer f)
                 (zf_zrwa_buffer f) (zf_storage f) (zf_host f) rel, s').
Proof.
  intros [[R1 R2 R3 R4 R5 R6 R7] [Z1 Z2 Z3]] (d2 & s2 & [= <- <-] & [Esp _] & Hok & Hch & Eb & _).
  cbn [fst snd] in *. split; try done. split; cbn [fst snd]; [|by split].
  split; cbn [zf_zp zf_ssd zf_report zf_zone_write_buffer zf_zrwa_buffer]; rewrite ?Esp, ?Eb; done.
Qed.

Lemma pwp_zon_ssd u (m : io_prog Z) f s (Q : Z -> zns_ftl * shared -> Prop) :
  (forall R, (forall r d' s', times_only (zf_ssd f) s (d', s') -> R r (d', s')) -> wp never m R (zf_ssd f, s)) ->
  (forall r d' s', times_only (zf_ssd f) s (d', s') -> Q r (zset_ssd d' f, s')) ->
  pwp u (zon_ssd m) Q (f, s).
Proof.
  intros Hm HQ. apply pwp_of_wp. unfold zon_ssd. apply wp_zoom. cbn [fst snd].
  apply (wp_exit_mono never); [|by intros ? []]. apply (Hm (fun a p => Q a (zset_ssd p.1 f, p.2))).
  intros r d' s' Ht. by apply HQ.
Qed.

Section flash.
Context (u : Prop) (f : zns_ftl) (s : shared) (I : zinv (f, s)).
Abbreviation spp := (sp (zf_ssd f)).

Lemma pwp_kept_flash m (Q : Z -> zns_ftl * shared -> Prop) :
  (forall R, (forall r d' s', times_only (zf_ssd f) s (d', s') -> R r (d', s')) -> wp never m R (zf_ssd f, s)) ->
  (forall r st', kept (f, s) st' -> Q r st') -> pwp u (zon_ssd m) Q (f, s).
Proof. intros Hm HQ. apply pwp_zon_ssd; [done|]. intros r d' s' Ht. by apply HQ, kept_flash. Qed.

Lemma pwp_write_buffer t len (Q : Z -> zns_ftl * shared -> Prop) :
  (forall r st', kept (f, s) st' -> Q r st') -> pwp u (zon_ssd (ssd_advance_write_buffer t len)) Q (f, s).
Proof.
  apply pwp_kept_flash. intros R HR. unfold ssd_advance_write_buffer. apply wp_bind, wp_get. cbv zeta.
  destruct I as [[_ R2 R3 _ _ _ _] _]. by apply wp_ssd_advance_pcie.
Qed.
Lemma pwp_pcie t len (Q : Z -> zns_ftl * shared -> Prop) :
  (forall r st', kept (f, s) st' -> Q r st') -> pwp u (zon_ssd (ssd_advance_pcie t len)) Q (f, s).
Proof.
  apply pwp_kept_flash. intros R HR. destruct I as [[_ R2 R3 _ _ _ _] _]. by apply wp_ssd_advance_pcie.
Qed.
Lemma pwp_clock (Q : Z -> zns_ftl * shared -> Prop) :
  (forall r st', kept (f, s) st' -> Q r st') -> pwp u (zon_ssd get_clock) Q (f, s).
Proof.
  apply pwp_kept_flash. intros R HR. destruct I as [[_ R2 R3 _ _ _ _] _]. apply wp_get_clock; try done. naive_solver.
Qed.
Lemma pwp_next_idle (Q : Z -> zns_ftl * shared -> Prop) :
  (forall r st', kept (f, s) st' -> Q r st') -> pwp u (zon_ssd ssd_next_idle_time) Q (f, s).
Proof.
  apply pwp_kept_flash. intros R HR. destruct I as [[_ R2 R3 _ _ _ _] _]. unfold ssd_next_idle_time.
  apply wp_bind, wp_get_clock; try done. intros t s' Ht. apply wp_bind, wp_get, wp_ret. by apply HR.
Qed.
Lemma pwp_nand ncmd (Q : Z -> zns_ftl * shared -> Prop) :
  in_geometry spp (nc_ppa ncmd) = true -> (nc_cmd ncmd = NAND_READ -> 0 < nc_xfer_size ncmd) ->
  (forall r st', kept (f, s) st' -> Q r st') -> pwp u (zon_ssd (ssd_advance_nand ncmd)) Q (f, s).
Proof.
  intros Hg Hx. apply pwp_kept_flash. intros R HR. destruct I as [[_ R2 R3 _ _ _ _] _].
  by apply wp_ssd_advance_nand.
Qed.
End flash.

(** ** Pages of zones *)

Lemma die_range dies m zone k : 0 < dies -> 0 < m -> 0 <= k < dies -> 0 <= zone ->
  0 <= (zone * dies) mod (dies * m) + k < dies * m.
Proof.
  intros Hd Hm Hk Hz. rewrite (Z.mul_comm zone), Z.mul_mod_distr_l by lia.
  pose proof (Z.mod_pos_bound zone m Hm). nia.
Qed.

(** Whatever the page number, the flash page of a zone is on the device. *)
Lemma lpn_to_ppa_in_geometry f s lpn : zinv (f, s) ->
  in_geometry (sp (zf_ssd f)) (lpn_to_ppa f lpn) = true /\
  p_pg (lpn_to_ppa f lpn) < pgs_per_oneshotpg (sp (zf_ssd f)).
Proof.
  intros I. pose proof (zparams f s I) as [_ Ett Hch Hlu Hos _ _ _ _ _ [Hd Hdm] _ _ _].
  destruct I as [[_ [G _ _ _] _ _ _ _ _] _]. cbn [fst snd] in *.
  set (spp := sp (zf_ssd f)) in *. set (dies := zp_dies_per_zone (zf_zp f)) in *.
  pose proof (ge_nchs _ G). pose proof (ge_luns _ G). pose proof (ge_oneshot _ G). pose proof (ge_pgs _ G) as Hpb.
  rewrite (ge_blk_oneshot _ G) in Hpb.
  assert (Hob : pgs_per_oneshotpg spp <= pgs_per_blk spp) by (rewrite (ge_blk_oneshot _ G); assert (0 < oneshotpgs_per_blk spp) by nia; nia).
  unfold lpn_to_ppa. cbv zeta. fold spp dies. set (zone := lpn_to_zone f lpn). set (off := u64 (lpn - _)).
  assert (Hzone : in_word 32 zone) by (apply wrap_in_word; lia).
  assert (Hoff : in_word 64 off) by (apply wrap_in_word; lia). unfold in_word in *.
  apply Z.mod_divide in Hdm as [m Em]; [|lia]. rewrite (Z.mul_comm m) in Em.
  assert (Htt : 0 < tt_luns spp <= 65536) by nia. assert (0 < m) by nia.
  pose proof (Z.mod_pos_bound (off / pgs_per_oneshotpg spp) dies Hd) as Hk.
  pose proof (die_range dies m zone _ Hd ltac:(lia) Hk ltac:(lia)) as Hdie. rewrite <- Em in Hdie.
  rewrite (wrap_small 64 (zone * dies)) by (unfold in_word; nia).
  rewrite (wrap_small 32 (_ mod tt_luns spp)) by (unfold in_word; pose proof (Z.mod_pos_bound (zone * dies) (tt_luns spp)); lia).
  rewrite (wrap_small 32 (_ + _)) by (unfold in_word; lia).
  set (die := _ + _) in *. pose proof (Z.mod_pos_bound off (pgs_per_oneshotpg spp) ltac:(lia)) as Hpg.
  pose proof (Z.mod_pos_bound die (nchs spp) ltac:(lia)) as Hmod.
  assert (Hdiv : 0 <= die / nchs spp < luns_per_ch spp).
  { split; [apply Z.div_pos; lia|apply Z.div_lt_upper_bound; lia]. }
  unfold in_geometry, make_ppa, die_to_channel, die_to_lun. fold spp. cbn [p_ch p_lun p_pl p_blk p_pg].
  rewrite (wrap_small 16 (off mod _)), (wrap_small 8 (die mod _)), (wrap_small 8 (die / _)),
    (wrap_small 16 0), (wrap_small 8 0) by (unfold in_word; lia).
  pose proof (ge_pls _ G). pose proof (ge_blks _ G). split; [|lia]. repeat (apply andb_true_intro; split); bool_lia.
Qed.

(** ** The loops over pages *)

Section loops.
Context (u : Prop).

Lemma pwp_program sq stime b p rel latest f s : zinv (f, s) -> in_geometry (sp (zf_ssd f)) p = true ->
  pwp u (program_oneshot sq stime b p rel latest) (fun _ => kept (f, s)) (f, s).
Proof.
  intros I Hg. unfold program_oneshot. apply pwp_bind, pwp_getz. apply pwp_bind, pwp_nand; try done.
  intros r [f1 s1] K. apply pwp_bind, pwp_modz, pwp_ret. eapply kept_trans; [exact K|].
  apply kept_flash; [apply K|]. apply times_only_refl; apply (kp_inv _ _ K).
Qed.

Lemma pwp_zns_write_loop fuel sq stime b lpn elpn zelpn latest f s :
  zinv (f, s) -> (Z.to_nat (elpn + 1 - lpn) < fuel)%nat ->
  pwp u (zns_write_loop fuel sq stime b lpn elpn zelpn latest) (fun _ => kept (f, s)) (f, s).
Proof.
  revert lpn latest f s. induction fuel as [|fuel IH]; intros lpn latest f s I Hf; [lia|].
  cbn [zns_write_loop]. case_if Hle; [|by apply pwp_ret, zkept_refl]. bool_to_prop.
  apply pwp_bind, pwp_getz. cbv zeta. destruct (lpn_to_ppa_in_geometry f s lpn I) as [Hg Hp].
  pose proof (ge_oneshot _ (so_geometry _ (zr_ssd _ _ (proj1 I)))) as Hos. cbn [fst] in *.
  pose proof (Z.mod_pos_bound (p_pg (lpn_to_ppa f lpn)) _ Hos).
  apply pwp_bind. eapply (pwp_mono u _ (fun _ => kept (f, s))).
  { case_if Hflush; [by apply pwp_program|by apply pwp_ret, zkept_refl]. }
  intros r [f1 s1] K. eapply pwp_mono; [apply IH; [apply K|lia]|]. intros ? ?. by apply kept_trans.
Qed.

Lemma pwp_zrwa_flush_loop fuel sq stime zid lpn remaining latest f s :
  zinv (f, s) -> (Z.to_nat remaining < fuel)%nat ->
  pwp u (zrwa_flush_loop fuel sq stime zid lpn remaining latest) (fun _ => kept (f, s)) (f, s).
Proof.
  revert lpn remaining latest f s. induction fuel as [|fuel IH]; intros lpn remaining latest f s I Hf; [lia|].
  cbn [zrwa_flush_loop]. case_if Hle; [|by apply pwp_ret, zkept_refl]. bool_to_prop.
  apply pwp_bind, pwp_getz. cbv zeta. destruct (lpn_to_ppa_in_geometry f s lpn I) as [Hg Hp].
  pose proof (ge_oneshot _ (so_geometry _ (zr_ssd _ _ (proj1 I)))) as Hos. cbn [fst] in *.
  pose proof (Z.mod_pos_bound (p_pg (lpn_to_ppa f lpn)) _ Hos).
  apply pwp_bind. eapply (pwp_mono u _ (fun _ => kept (f, s))).
  { case_if Hflush; [by apply pwp_program|by apply pwp_ret, zkept_refl]. }
  intros r [f1 s1] K. eapply pwp_mono; [apply IH; [apply K|lia]|]. intros ? ?. by apply kept_trans.
Qed.

Lemma pwp_zns_read_loop fuel stime lpn elpn latest f s :
  zinv (f, s) -> (Z.to_nat (elpn + 1 - lpn) < fuel)%nat ->
  pwp u (zns_read_loop fuel stime lpn elpn latest) (fun _ => kept (f, s)) (f, s).
Proof.
  revert lpn latest f s. induction fuel as [|fuel IH]; intros lpn latest f s I Hf; [lia|].
  cbn [zns_read_loop]. case_if Hle; [|by apply pwp_ret, zkept_refl]. bool_to_prop.
  apply pwp_bind, pwp_getz. cbv zeta. destruct (lpn_to_ppa_in_geometry f s lpn I) as [Hg Hp].
  pose proof (so_geometry _ (zr_ssd _ _ (proj1 I))) as G. cbn [fst] in *.
  pose proof (Z.mod_pos_bound (p_pg (lpn_to_ppa f lpn)) _ (ge_flash _ G)). pose proof (proj1 (ge_pgsz _ G)) as Epg.
  apply pwp_bind, pwp_nand; [done|done|cbn [nc_cmd nc_xfer_size]; intros _; rewrite Epg; lia|].
  intros r [f1 s1] K. eapply pwp_mono; [apply IH; [apply K|lia]|]. intros ? ?. by apply kept_trans.
Qed.
End loops.

(** ** Buffers *)

Lemma buffers_ok_put size n l i b buf : buffers_ok size n l -> l !! i = Some b -> bf_size buf = bf_size b ->
  buffers_ok size n (<[i := buf]> l).
Proof.
  intros H Hb E Hs. destruct (H Hs) as [Hl Hall]. split; [by rewrite length_insert|].
  apply Forall_insert; [done|]. rewrite E. rewrite Forall_lookup in Hall. by eapply Hall.
Qed.

Lemma kept_put_buf b buf buf' f s : zinv (f, s) -> buf_at b f s = Some buf -> bf_size buf' = bf_size buf ->
  kept (f, s) (put_buf b buf' f s).
Proof.
  intros [[R1 R2 R3 R4 R5 R6 R7] [Z1 Z2 Z3]] Hb E. cbn [fst snd] in *.
  destruct b; simpl in Hb; [|destruct (zid <? 0); [done|]..];
    split; try done; split; try (by split); cbn [put_buf fst snd]; split; try done.
  - simplify_eq. by cbn [set_wbuf sh_wbuf]; rewrite E.
  - by eapply buffers_ok_put.
  - by eapply buffers_ok_put.
Qed.

Lemma pwp_buffer_allocate (u : Prop) size buf (Q : Z -> buffer -> Prop) :
  (u \/ size <= bf_size buf) -> in_word 32 size ->
  (forall r buf', bf_size buf' = bf_size buf -> r = 0 \/ r = size -> Q r buf') ->
  pwp u (buffer_allocate size) Q buf.
Proof.
  intros Hs Hw HQ. unfold buffer_allocate. apply pwp_bind. unfold pwp at 1, get.
  case_if Hbig; [bool_to_prop; destruct Hs; [done|lia]|]. apply pwp_bind. unfold pwp at 1, put. apply pwp_ret.
  apply HQ; [done|]. case_if Hr; [by left|right]. by apply wrap_small.
Qed.

(** A buffer that exists and is large enough gives all or nothing. *)
Lemma pwp_allocate (u : Prop) b size f s (Q : Z -> zns_ftl * shared -> Prop) :
  zinv (f, s) -> (u \/ exists buf, buf_at b f s = Some buf /\ size <= bf_size buf) -> in_word 32 size ->
  (forall r st', kept (f, s) st' -> r = 0 \/ r = size -> Q r st') ->
  pwp u (on_buffer b (buffer_allocate size)) Q (f, s).
Proof.
  intros I Hb Hw HQ. apply (pwp_on_buffer _ _ (default (Buffer 0 0) (buf_at b f s))).
  { destruct Hb as [?|(buf & -> & _)]; [by left|by right]. }
  intros buf Hbuf. apply pwp_buffer_allocate; [|done|].
  - destruct Hb as [?|(buf' & E & ?)]; [by left|right]. by simplify_eq.
  - intros r buf' E Hr. by apply HQ; [eapply kept_put_buf|].
Qed.

Lemma pwp_allocate_any f s b size (Q : Z -> zns_ftl * shared -> Prop) :
  zinv (f, s) -> (forall r st', kept (f, s) st' -> Q r st') -> pwp True (on_buffer b (buffer_allocate size)) Q (f, s).
Proof.
  intros I HQ. apply (pwp_on_buffer _ _ (Buffer 0 0)); [by left|]. intros buf Hbuf.
  unfold buffer_allocate. apply pwp_bind. unfold pwp at 1, get. case_if Hbig; [done|].
  apply pwp_bind. unfold pwp at 1, put. apply pwp_ret, HQ. by eapply kept_put_buf.
Qed.

Lemma lba_to_byte n : 0 <= n < 2 ^ 32 -> LBA_TO_BYTE n = 512 * n.
Proof.
  intros Hn. unfold LBA_TO_BYTE, LBA_BITS. rewrite Z.shiftl_mul_pow2 by lia.
  rewrite wrap_small by (unfold in_word; lia). lia.
Qed.

(** ** Writes *)

Section write.
Context (u : Prop) (f : zns_ftl) (s : shared) (I : zinv (f, s)) (i : nat) (z : zone_descriptor).
Context (Hz : zf_zone_descs f !! i = Some z).
Abbreviation zid := (Z.of_nat i).
Abbreviation zs := (zf_zone_descs f).
Abbreviation n := (zp_nr_zones (zf_zp f)).
Abbreviation cap := (zcap (zf_zp f)).

(** A zone that is not open is opened implicitly. *)
Lemma pwp_open_implicitly r1 (Q : option Z -> zns_ftl * shared -> Prop) :
  is_open z = false -> rs_open r1 = Res (nr_of is_open zs) n ->
  Q None (zset_zones (<[i := set_state ZONE_STATE_OPENED_IMPL z]> zs)
      (zset_res (set_res_info OPEN_ZONE (Res (nr_of is_open zs + 1) n) r1) f), s) ->
  pwp u (ok ← acquire_zone_resource OPEN_ZONE;
         if negb ok then mret (Some NVME_SC_ZNS_NO_OPEN_ZONE) else
         _ ← change_zone_state zid ZONE_STATE_OPENED_IMPL; mret None) Q (zset_res r1 f, s).
Proof.
  intros Ho Hr HQ. pose proof (counters_small f s I i z Hz) as (C1 & C2 & C3 & C4).
  pose proof (nr_of_room _ _ _ _ Hz Ho). pose proof (zone_index f s I i z Hz) as (Hi & El & _).
  apply pwp_bind. eapply pwp_acquire; [exact Hr|lia|lia|]. cbn [negb].
  apply pwp_bind. eapply pwp_mod_zone; [lia|zlook|]. rewrite Nat2Z.id. apply pwp_ret. exact HQ.
Qed.

Definition opened_for_write : zone_descriptor := if is_open z then z else set_state ZONE_STATE_OPENED_IMPL z.

(** The zone is open afterwards, or it is full and nothing happened. *)
Lemma pwp_write_state (Q : option Z -> zns_ftl * shared -> Prop) :
  (zd_state z = ZONE_STATE_FULL -> Q (Some NVME_SC_ZNS_ERR_FULL) (f, s)) ->
  (zd_state z <> ZONE_STATE_FULL -> forall st', changed (f, s) i opened_for_write st' -> Q None st') ->
  pwp u (write_state zid (zd_wp z) z) Q (f, s).
Proof.
  intros Hfull HQ. unfold write_state.
  pose proof (active_res f s I) as Ra. pose proof (open_res f s I) as Ro.
  pose proof (counters_small f s I i z Hz) as (C1 & C2 & C3 & C4). pose proof (zone_index f s I i z Hz) as (Hi & El & _).
  pose proof (zone_inv f s I i z Hz) as Hok. pose proof (zo_state _ _ _ Hok) as [Hs1 Hs2].
  pose proof (zcap_pos f s I). unfold opened_for_write in HQ.
  destruct (zd_state z) eqn:Est; try done; try (by apply pwp_ret, Hfull).
  - destruct (idle_zone z (or_introl Est)) as (Fa & Fo & Fh). destruct (zo_empty _ _ _ Hok Est) as [Hwp Hzr].
    pose proof (nr_of_room _ _ _ _ Hz Fa). pose proof (nr_of_room _ _ _ _ Hz Fo).
    apply pwp_bind, pwp_getz. rewrite Hwp, Z.eqb_refl. cbn [negb]. unfold is_zone_resource_full. cbn [res_info].
    rewrite Ra, Ro. cbn [acquired_cnt total_cnt].
    replace (nr_of is_active zs =? n) with false by lia. replace (nr_of is_open zs =? n) with false by lia.
    apply pwp_bind. eapply pwp_acquire; [exact Ra|lia|lia|]. apply pwp_open_implicitly; [done|exact Ro|].
    apply HQ; [done|]. rewrite Fo. apply changed_state; zfields; try done.
    + intros _. lia.
    + rewrite Fa. simpl. f_equal. lia.
    + rewrite Fo. simpl. f_equal. lia.
    + intros a -> Hb. rewrite Fh. change (has_zrwa (set_state ZONE_STATE_OPENED_IMPL z)) with (zd_zrwav z).
      rewrite Hzr. simpl. lia.
  - apply pwp_ret, HQ; [done|]. unfold is_open. rewrite Est. by apply unchanged.
  - apply pwp_ret, HQ; [done|]. unfold is_open. rewrite Est. by apply unchanged.
  - assert (is_active z = true /\ is_open z = false) as [Fa Fo] by (unfold is_active, is_open; by rewrite Est).
    pose proof (pwp_open_implicitly (zf_res f) Q) as Hop. rewrite zset_res_id in Hop.
    apply Hop; [done|exact Ro|]. apply HQ; [done|]. rewrite Fo. apply changed_state; zfields; try done.
    + intros _. by apply (zo_active _ _ _ Hok).
    + rewrite Ra, Fa. simpl. f_equal. lia.
    + rewrite Fo. simpl. f_equal. lia.
    + intros a -> Hb. rewrite (has_zrwa_active z Fa).
      change (has_zrwa (set_state ZONE_STATE_OPENED_IMPL z)) with (zd_zrwav z). simpl. lia.
Qed.

(** The zone after [nr] more sectors. *)
Definition advanced (nr : Z) : zone_descriptor :=
  let z' := set_zwp (zd_wp z + nr) z in
  if zd_wp z + nr =? zd_zslba z + cap then set_state ZONE_STATE_FULL z' else z'.

Lemma pwp_increase_write_ptr nr (Q : unit -> zns_ftl * shared -> Prop) :
  is_open z = true -> 0 < nr -> zd_wp z + nr <= zd_zslba z + cap ->
  (forall st', changed (f, s) i (advanced nr) st' -> Q tt st') ->
  pwp u (increase_write_ptr zid nr) Q (f, s).
Proof.
  intros Ho Hnr Hle HQ. unfold increase_write_ptr. apply pwp_bind, pwp_getz.
  apply pwp_bind, (pwp_this_zone u f s i z Hz). cbv zeta.
  pose proof (zone_limits f s I i z Hz) as [L1 L2]. pose proof (zone_index f s I i z Hz) as (Hi & _ & Hin & _).
  pose proof (zone_inv f s I i z Hz) as [O1 O2 O3 O4 O5 O6]. pose proof (zcap_pos f s I).
  assert (Ha : is_active z = true) by (unfold is_active, is_open in *; by destruct (zd_state z)).
  rewrite (zone_to_slba_eq f s I i z Hz), O2, <- O1 by lia.
  rewrite (wrap_small 32 nr), !(wrap_small 64) by (unfold in_word; lia).
  apply pwp_bind. eapply pwp_mod_zone; [lia|zlook|]. rewrite Nat2Z.id. unfold advanced in HQ. cbv zeta in HQ.
  case_if Hend; bool_to_prop.
  - pose proof (counters_small f s I i z Hz) as (C1 & C2 & C3 & C4).
    pose proof (nr_of_pos _ _ _ _ Hz Ha). pose proof (nr_of_pos _ _ _ _ Hz Ho).
    apply pwp_bind. eapply pwp_release; [exact (open_res f s I)|lia|].
    apply pwp_bind. eapply pwp_release; [exact (active_res f s I)|lia|].
    eapply pwp_mod_zone; [lia|zlook|]. rewrite Nat2Z.id.
    pose proof (changed_filled f s I i z Hz (zd_wp z + nr)
      (set_res_info ACTIVE_ZONE (Res (nr_of is_active zs - 1) n)
         (set_res_info OPEN_ZONE (Res (nr_of is_open zs - 1) n) (zf_res f)))) as Hc.
    zrecord in *. rewrite list_insert_insert_eq. apply HQ, Hc; zfields; try done.
    + by rewrite Ho.
    + intros a -> Hb. simpl. destruct (zd_zrwav z); simpl; lia.
  - apply HQ. apply changed_wp; try done. lia.
Qed.

Lemma cap_min : 8 <= cap.
Proof.
  pose proof (zk_zone _ _ (zparams f s I)). pose proof (zk_align _ _ (zparams f s I)). unfold zcap.
  Z.to_euclidean_division_equations. lia.
Qed.

Lemma lba_to_zone_at off : 0 <= off < 2 ^ 33 -> lba_to_zone f (zid * cap + off) = zid + off / cap.
Proof.
  intros Ho. unfold lba_to_zone. rewrite (zone_sectors f s I). pose proof cap_min.
  rewrite Z.div_add_l by lia. pose proof (zone_index f s I i z Hz) as (_ & _ & ? & _).
  pose proof (zk_total _ _ (zparams f s I)).
  assert (0 <= off / cap < 2 ^ 30) by (split; [apply Z.div_pos|apply Z.div_lt_upper_bound]; lia).
  apply wrap_small. unfold in_word. nia.
Qed.

Lemma check_boundary_spec off nr : 0 <= off <= cap -> 0 < nr <= 65536 ->
  check_boundary f (zid * cap + off) nr = same_zone cap off nr.
Proof.
  intros Ho Hn. pose proof (zone_limits f s I i z Hz). unfold check_boundary, same_zone.
  rewrite (wrap_small 64) by (unfold in_word; lia).
  replace (zid * cap + off + nr - 1) with (zid * cap + (off + nr - 1)) by lia.
  rewrite !lba_to_zone_at by lia. destruct (Z.eqb_spec (off / cap) ((off + nr - 1) / cap)) as [->|Hne].
  - by rewrite Z.eqb_refl.
  - apply Z.eqb_neq. lia.
Qed.

Lemma same_zone_fits off nr : 0 <= off < cap -> 0 < nr -> same_zone cap off nr = true -> off + nr <= cap.
Proof.
  unfold same_zone. intros Ho Hn E. bool_to_prop. rewrite Z.div_small in E by done.
  symmetry in E. apply Z.div_small_iff in E; lia.
Qed.

(** The address a command writes at: an append goes to the write pointer. *)
Definition write_at (rq : zns_request) : Z := if zr_opcode rq =? nvme_cmd_zone_append then zd_wp z else zr_slba rq.

Definition wrote (rq : zns_request) (a : zns_answer) (st' : zns_ftl * shared) : Prop :=
  match a with
  | ZNotTaken slba => slba = write_at rq /\ kept (f, s) st'
  | ZDone r _ slba =>
    slba = write_at rq /\ exists z', changed (f, s) i z' st' /\ zd_zrwav z' = zd_zrwav z /\
      (zid * cap <= zr_slba rq < zid * cap + cap ->
       spec_write cap (write_unit_size (sp (zf_ssd f))) (write_at rq - zid * cap) (zr_length rq + 1) (abs_zone z)
         = (r, abs_zone z'))
  | ZNotImplemented => False
  end.

(** Space of the buffer that writes to a zone go through. *)
Definition write_space : Z :=
  if zp_zone_wb_size (zf_zp f) =? 0 then write_buffer_size (sp (zf_ssd f)) else zp_zone_wb_size (zf_zp f).

Lemma write_buffer_at : exists buf,
  buf_at (if negb (zp_zone_wb_size (zf_zp f) =? 0) then ZoneBuffer zid else GlobalBuffer) f s = Some buf /\
  bf_size buf = write_space.
Proof.
  unfold write_space. destruct I as [[_ _ _ R4 R5 _ _] _]. cbn [fst snd] in *.
  destruct (Z.eqb_spec (zp_zone_wb_size (zf_zp f)) 0) as [E|E]; cbn [negb buf_at].
  - eauto.
  - destruct (R5 E) as [Hl Hall]. pose proof (zone_index f s I i z Hz) as (_ & _ & ? & _).
    replace (zid <? 0) with false by lia. rewrite Nat2Z.id.
    destruct (lookup_lt_is_Some_2 (zf_zone_write_buffer f) i) as [b Hb]; [lia|].
    exists b. split; [done|]. rewrite Forall_lookup in Hall. by eapply Hall.
Qed.
End write.

Lemma pwp_write_pages u rq b zid slba nr f s (Q : zns_answer -> zns_ftl * shared -> Prop) :
  zinv (f, s) -> (forall t st', kept (f, s) st' -> Q (ZDone NVME_SC_OK t slba) st') ->
  pwp u (write_pages rq b zid slba nr) Q (f, s).
Proof.
  intros I HQ. unfold write_pages. apply pwp_bind, pwp_getz. apply pwp_bind, pwp_write_buffer; [done|].
  intros xfer [f1 s1] K1. cbv zeta. apply pwp_bind.
  eapply pwp_mono; [apply pwp_zns_write_loop; [apply K1|lia]|]. intros latest st' K2.
  apply pwp_ret, HQ. by eapply kept_trans.
Qed.

Section sequential.
Context (u : Prop) (f : zns_ftl) (s : shared) (I : zinv (f, s)) (i : nat) (z : zone_descriptor).
Context (Hz : zf_zone_descs f !! i = Some z) (rq : zns_request).
Context (Hl : lba_to_zone f (zr_slba rq) = Z.of_nat i) (Hlen : 0 <= zr_length rq < 65536).
Abbreviation zid := (Z.of_nat i).
Abbreviation cap := (zcap (zf_zp f)).
Abbreviation nr := (zr_length rq + 1).
Abbreviation unit_size := (write_unit_size (sp (zf_ssd f))).
Abbreviation slba := (write_at z rq).

(** A write that fails leaves the zone alone. *)
Lemma pwp_write_refused st1 r t : kept (f, s) st1 ->
  (zid * cap <= zr_slba rq < zid * cap + cap ->
   spec_write cap unit_size (slba - zid * cap) nr (abs_zone z) = (r, abs_zone z)) ->
  pwp u (mret (ZDone r t slba)) (wrote f s i z rq) st1.
Proof.
  intros K E. apply pwp_ret. split; [done|]. exists z. split; [by eapply kept_same|done].
Qed.

(** What the state machine says of a write at the write pointer. *)
Lemma spec_write_accepted :
  512 * nr mod unit_size = 0 -> slba = zd_wp z -> check_boundary f slba nr = true ->
  zd_state z <> ZONE_STATE_FULL ->
  zd_wp z + nr <= zd_zslba z + cap /\
  spec_write cap unit_size (slba - zid * cap) nr (abs_zone z)
    = (NVME_SC_OK, abs_zone (advanced f (opened_for_write z) nr)).
Proof.
  intros Hal Ew Hb Hnf. pose proof (zone_inv f s I i z Hz) as [O1 O2 O3 O4 O5 O6].
  pose proof (cap_min f s I). rewrite Ew in *.
  replace (zd_wp z) with (zid * cap + (zd_wp z - zid * cap)) in Hb by lia.
  rewrite (check_boundary_spec f s I i z Hz) in Hb by lia.
  assert (Hlt : zd_wp z < zd_zslba z + cap).
  { destruct (is_active z) eqn:Ha; [by apply O5|]. destruct O6 as [O6 O7]. unfold is_active in Ha.
    destruct (zd_state z); try done. destruct (O4 eq_refl). lia. }
  pose proof (same_zone_fits f (zd_wp z - zid * cap) nr ltac:(lia) ltac:(lia) Hb) as Hfit.
  split; [lia|]. unfold spec_write. rewrite Hal, Hb. cbn [negb Z.eqb].
  unfold abs_zone at 1. cbn [az_fill]. rewrite O1, Z.eqb_refl. cbn [negb].
  unfold advanced, opened_for_write, is_open, abs_zone. cbn [az_state]. destruct O6.
  destruct (zd_state z) eqn:Est; try done;
    cbn [zd_wp zd_zslba set_state set_zwp zd_state]; rewrite ?O1;
    replace (zd_wp z + nr =? zid * cap + cap) with (zd_wp z - zid * cap + nr =? cap)
      by (destruct (Z.eqb_spec (zd_wp z - zid * cap + nr) cap); symmetry; [apply Z.eqb_eq|apply Z.eqb_neq]; lia);
    case_if Hend; cbn [zd_wp zd_zslba set_state set_zwp zd_state]; rewrite ?Est; f_equal; f_equal; lia.
Qed.

Lemma pwp_zns_write_seq :
  (u \/ 512 * nr <= write_space f) -> pwp u (zns_write_seq rq) (wrote f s i z rq) (f, s).
Proof.
  intros Hsp. unfold zns_write_seq. apply pwp_bind, pwp_getz. cbv zeta. rewrite Hl.
  apply pwp_bind, (pwp_this_zone u f s i z Hz). fold (write_at z rq).
  rewrite (wrap_small 32 nr) by (unfold in_word; lia). rewrite (lba_to_byte nr) by lia.
  apply pwp_bind, pwp_allocate; [done| |unfold in_word; lia|].
  { destruct Hsp as [?|Hsp]; [by left|right]. destruct (write_buffer_at f s I i z Hz) as (buf & Hb & E).
    exists buf. split; [done|]. by rewrite E. }
  intros r [f1 s1] K Hr. case_if Hshort; [by apply pwp_ret|].
  pose proof (zk_unit _ _ (zparams f s I)) as Hu.
  replace (unit_size =? 0) with false by bool_lia.
  assert (Hin : zid * cap <= zr_slba rq < zid * cap + cap ->
    check_boundary f slba nr = same_zone cap (slba - zid * cap) nr).
  { intros Hrange. pose proof (zone_inv f s I i z Hz) as [O1 _ O3 _ _ _].
    assert (Hoff : 0 <= slba - zid * cap <= cap) by (unfold write_at; case_if Happ; lia).
    rewrite <- (check_boundary_spec f s I i z Hz) by lia. f_equal. lia. }
  case_if Hal. { apply pwp_write_refused; [done|]. intros _. unfold spec_write. by rewrite Hal. }
  case_if Hb. { apply pwp_write_refused; [done|]. intros Hrange. unfold spec_write. by rewrite <- Hin, Hal, Hb by done. }
  case_if Hwp.
  { apply pwp_write_refused; [done|]. intros Hrange. unfold spec_write. rewrite <- Hin, Hal, Hb by done.
    pose proof (zo_start _ _ _ (zone_inv f s I i z Hz)) as O1. unfold abs_zone at 1. cbn [az_fill]. rewrite O1.
    apply negb_true_iff in Hwp. bool_to_prop. by replace (slba - zid * cap =? zd_wp z - zid * cap) with false by lia. }
  apply negb_false_iff in Hal, Hb, Hwp. bool_to_prop. rewrite Hwp.
  pose proof (kept_lookup _ _ _ _ _ _ K Hz) as Hz1.
  apply pwp_bind, (pwp_write_state u f1 s1 (kp_inv _ _ K) i z Hz1).
  { intros Efull. rewrite <- Hwp. apply pwp_write_refused; [done|]. intros Hrange. unfold spec_write.
    rewrite <- Hin, Hal, Hb by done. cbn [negb Z.eqb].
    pose proof (zo_start _ _ _ (zone_inv f s I i z Hz)) as O1. unfold abs_zone. cbn [az_fill az_state].
    rewrite O1, Hwp, Z.eqb_refl, Efull. done. }
  intros Hnf [f2 s2] C2. destruct (spec_write_accepted Hal Hwp Hb Hnf) as [Hfit Hspec].
  pose proof (changed_lookup _ _ _ _ _ _ _ C2 Hz1) as Hz2.
  assert (Ezp : zf_zp f2 = zf_zp f) by (etrans; [apply (cd_zp _ _ _ _ C2)|apply (kp_zp _ _ K)]).
  assert (Eo : is_open (opened_for_write z) = true /\ zd_wp (opened_for_write z) = zd_wp z /\
    zd_zslba (opened_for_write z) = zd_zslba z /\ zd_zrwav (opened_for_write z) = zd_zrwav z)
    by (unfold opened_for_write; destruct (is_open z) eqn:?; done).
  destruct Eo as (Eo & Ew & Es & Er).
  apply pwp_bind, (pwp_increase_write_ptr u f2 s2 (cd_inv _ _ _ _ C2) i _ Hz2); [done|lia|rewrite Ew, Es, Ezp; lia|].
  intros [f3 s3] C3. rewrite <- Hwp at 1. apply pwp_write_pages; [apply C3|]. intros t st' K4.
  split; [done|]. exists (advanced f (opened_for_write z) nr). split_and!.
  - eapply kept_changed; [exact K|]. eapply changed_twice; [exact C2|]. eapply changed_kept; [|exact K4].
    unfold advanced in *. by rewrite Ezp in C3.
  - rewrite <- Er. unfold advanced. cbv zeta. by case_if Hend.
  - intros _. exact Hspec.
Qed.
End sequential.

(** ** Writes to a zone with a random write area

    These may fail on an assertion or a division by zero, so only what holds if they
    return is shown. *)
Section zrwa.
Context (f : zns_ftl) (s : shared) (I : zinv (f, s)) (i : nat) (z : zone_descriptor).
Context (Hz : zf_zone_descs f !! i = Some z) (Hzr : zd_zrwav z = true).
Abbreviation zid := (Z.of_nat i).
Abbreviation zs := (zf_zone_descs f).
Abbreviation n := (zp_nr_zones (zf_zp f)).
Abbreviation cap := (zcap (zf_zp f)).

Lemma pwp_zrwa_write_state (Q : option Z -> zns_ftl * shared -> Prop) :
  (forall r, Q (Some r) (f, s)) ->
  (is_active z = true -> forall st', changed (f, s) i (opened_for_write z) st' -> Q None st') ->
  pwp True (zrwa_write_state zid z) Q (f, s).
Proof.
  intros Hfail HQ. unfold zrwa_write_state. pose proof (zone_inv f s I i z Hz) as Hok.
  unfold opened_for_write in HQ.
  destruct (zd_state z) eqn:Est; try (by apply pwp_ret, Hfail).
  - destruct (zo_empty _ _ _ Hok Est). congruence.
  - apply pwp_ret, HQ; unfold is_active, is_open; rewrite Est; [done|by apply unchanged].
  - apply pwp_ret, HQ; unfold is_active, is_open; rewrite Est; [done|by apply unchanged].
  - assert (is_active z = true /\ is_open z = false) as [Fa Fo] by (unfold is_active, is_open; by rewrite Est).
    pose proof (counters_small f s I i z Hz) as (C1 & C2 & C3 & C4). pose proof (open_res f s I) as Ro.
    pose proof (nr_of_room _ _ _ _ Hz Fo). pose proof (zone_index f s I i z Hz) as (Hi & El & _).
    apply pwp_bind, pwp_getz, pwp_bind. eapply pwp_acquire; [exact Ro|lia|lia|]. cbn [negb].
    apply pwp_bind, (pwp_on_buffer _ _ (Buffer 0 0)); [by left|]. intros buf Hbuf.
    unfold buffer_allocate. apply pwp_bind. unfold pwp at 1, get. case_if Hbig; [done|].
    apply pwp_bind. unfold pwp at 1, put. apply pwp_ret. case_if Hrem; [done|]. case_if Hzero; [done|].
    match goal with |- context [put_buf _ ?b _ _] => set (buf' := b) end. cbn [put_buf].
    assert (K : kept (f, s) (put_buf (ZrwaBuffer zid) buf' f s)) by (by eapply kept_put_buf).
    cbn [put_buf] in K. rewrite Nat2Z.id in K. set (f1 := zset_zrwa_buffers _ f) in K.
    apply pwp_bind. eapply pwp_mod_zone; [lia|cbn [zset_zrwa_buffers zf_zone_descs]; zlook|].
    rewrite Nat2Z.id. apply pwp_ret, HQ; [done|]. rewrite Fo. eapply kept_changed; [exact K|].
    pose proof (kp_inv _ _ K) as I1.
    apply (changed_state f1 s I1 i z Hz ZONE_STATE_OPENED_IMPL
      (set_res_info OPEN_ZONE (Res (nr_of is_open zs + 1) n) (zf_res f))); zfields; try done.
    + intros _. by apply (zo_active _ _ _ Hok).
    + pose proof (active_res f s I) as ->. change (zf_zone_descs f1) with zs. rewrite Fa. simpl. f_equal. lia.
    + change (zf_zone_descs f1) with zs. rewrite Fo. simpl. f_equal. lia.
    + intros a Ea Hb. change (zf_res f1) with (zf_res f) in Ea. rewrite Ea, (has_zrwa_active z Fa).
      change (has_zrwa (set_state ZONE_STATE_OPENED_IMPL z)) with (zd_zrwav z).
      change (zf_zone_descs f1) with zs in *. simpl in *. lia.
Qed.

(** The write pointer never leaves the zone. *)
Lemma zrwa_flush_amount_fits nr elba flush :
  is_active z = true -> 0 < nr <= 65536 ->
  lba_to_zone f elba = zid ->
  elba <= u64 (zd_wp z + u32 (2 * zp_lbas_per_zrwa (zf_zp f)) - 1) -> 0 <= elba ->
  zrwa_flush_amount f zid (zd_wp z) elba = Some flush ->
  0 <= flush /\ zd_wp z + flush <= zd_zslba z + cap.
Proof.
  intros Ha Hn Hl He He0 Hf. pose proof (zone_limits f s I i z Hz) as [L1 L2].
  pose proof (zone_inv f s I i z Hz) as [O1 O2 O3 O4 O5 O6]. specialize (O5 Ha).
  pose proof (zk_fg _ _ (zparams f s I)) as Hfg. pose proof (zk_zrwa _ _ (zparams f s I)) as Hzrwa.
  pose proof (zone_index f s I i z Hz) as (_ & _ & Hin & _). pose proof (cap_min f s I).
  set (fg := zp_lbas_per_zrwafg (zf_zp f)) in *. set (w := zp_lbas_per_zrwa (zf_zp f)) in *.
  unfold zrwa_flush_amount in Hf. fold fg w in Hf.
  rewrite (wrap_small 64 (zd_wp z + w)) in Hf by (unfold in_word; lia).
  rewrite (wrap_small 32) in He by (unfold in_word; lia).
  assert (Hzero : w = 0 \/ elba < zid * cap + cap).
  { destruct (decide (w = 0)); [by left|right]. rewrite wrap_small in He by (unfold in_word; lia).
    unfold lba_to_zone in Hl. rewrite (zone_sectors f s I) in Hl.
    assert (0 <= elba / cap < 2 ^ 31).
    { split; [apply Z.div_pos; lia|apply Z.div_lt_upper_bound; lia]. }
    rewrite wrap_small in Hl by (unfold in_word; lia). rewrite <- Hl.
    pose proof (Z.mul_succ_div_gt elba cap). lia. }
  destruct (Z.leb_spec (zd_wp z + w) elba) as [Hge|Hlt].
  - destruct (Z.eqb_spec fg 0); [done|]. assert (0 < w) by lia. destruct Hzero as [?|Hzero]; [lia|].
    rewrite (wrap_small 64 (elba - _ + 1)) in Hf by (unfold in_word; lia).
    rewrite (wrap_small 64 (_ + fg - 1)) in Hf by (unfold in_word; lia).
    set (x := elba - (zd_wp z + w) + 1) in *.
    assert (Hdiv : 0 <= (x + fg - 1) / fg * fg <= x + fg - 1).
    { split; [apply Z.mul_nonneg_nonneg; [apply Z.div_pos|]; lia|].
      pose proof (Z.mul_div_le (x + fg - 1) fg). lia. }
    rewrite wrap_small in Hf by (unfold in_word; lia). simplify_eq. lia.
  - destruct (Z.eqb_spec elba (zone_to_elba f zid)) as [Ee|_]; [|simplify_eq; lia].
    unfold zone_to_elba in Ee. rewrite (wrap_small 32), (zone_to_slba_eq f s I i z Hz), wrap_small in Ee
      by (unfold in_word; nia).
    rewrite wrap_small in Hf by (unfold in_word; lia). simplify_eq. lia.
Qed.

(** Whatever it answers, one zone has changed and the invariant holds. *)
Definition one_changed (a : zns_answer) (st' : zns_ftl * shared) : Prop := exists z', changed (f, s) i z' st'.

Lemma pwp_zns_write_zrwa rq : lba_to_zone f (zr_slba rq) = zid -> 0 <= zr_length rq < 65536 ->
  pwp True (zns_write_zrwa rq) one_changed (f, s).
Proof.
  intros Hl Hlen. unfold zns_write_zrwa. apply pwp_bind, pwp_getz. cbv zeta. rewrite Hl.
  apply pwp_bind, (pwp_this_zone True f s i z Hz).
  assert (Hsame : forall a, pwp True (mret a) one_changed (f, s)).
  { intros a. apply pwp_ret. exists z. by apply unchanged. }
  set (nr := u32 (zr_length rq + 1)). assert (Hnr : 0 < nr <= 65536).
  { subst nr. rewrite wrap_small by (unfold in_word; lia). lia. }
  set (elba := u64 (zr_slba rq + nr - 1)). assert (He : 0 <= elba) by (apply wrap_in_word; lia).
  case_if Hu; [done|]. case_if Hal; [done|]. case_if Hb; [done|]. case_if Hrange; [done|]. bool_to_prop.
  apply negb_false_iff in Hb. unfold check_boundary in Hb. fold elba in Hb. bool_to_prop. rewrite Hl in Hb.
  apply pwp_bind, pwp_zrwa_write_state; [done|]. intros Ha [f2 s2] C2.
  destruct (zrwa_flush_amount f zid (zd_wp z) elba) as [flush|] eqn:Ef; [|done].
  destruct (zrwa_flush_amount_fits nr elba flush) as [Hf0 Hfit]; try done.
  assert (Hpages : forall f3 s3 z3, changed (f, s) i z3 (f3, s3) ->
    pwp True (zrwa_write_pages rq zid (zd_wp z) nr flush) one_changed (f3, s3)).
  { intros f3 s3 z3 C3. unfold zrwa_write_pages. apply pwp_bind, pwp_getz. cbv zeta.
    apply pwp_bind, pwp_write_buffer; [apply C3|]. intros xfer [f4 s4] K4. apply pwp_bind.
    eapply pwp_mono; [apply pwp_zrwa_flush_loop; [apply K4|lia]|]. intros latest st' K5. apply pwp_ret.
    exists z3. eapply changed_kept; [exact C3|]. by eapply kept_trans. }
  case_if Hfl; [|by eapply Hpages]. bool_to_prop.
  apply pwp_bind, pwp_allocate_any; [apply C2|]. intros r [f3 s3] K3.
  pose proof (changed_kept _ _ _ _ _ C2 K3) as C3. case_if Hr; [apply pwp_ret; by eexists|].
  pose proof (changed_lookup _ _ _ _ _ _ _ C3 Hz) as Hz3. pose proof (cd_zp _ _ _ _ C3) as Ezp. cbn [fst] in Ezp.
  assert (Eo : is_open (opened_for_write z) = true /\ zd_wp (opened_for_write z) = zd_wp z /\
    zd_zslba (opened_for_write z) = zd_zslba z) by (unfold opened_for_write; destruct (is_open z) eqn:?; done).
  destruct Eo as (Eo & Ew & Es).
  apply pwp_bind, (pwp_increase_write_ptr True f3 s3 (cd_inv _ _ _ _ C3) i _ Hz3); [done|lia|rewrite Ew, Es, Ezp; lia|].
  intros [f4 s4] C4. eapply Hpages. by eapply changed_twice.
Qed.
End zrwa.

Section data.
Context (u : Prop) (f : zns_ftl) (s : shared) (I : zinv (f, s)) (rq : zns_request).
Context (Hlen : 0 <= zr_length rq < 65536).
Abbreviation cap := (zcap (zf_zp f)).

(** Both ways to find the zone of an address agree. *)
Lemma lpn_to_zone_lba lba : lpn_to_zone f (lba_to_lpn f lba) = lba_to_zone f lba.
Proof.
  unfold lpn_to_zone, lba_to_lpn, lba_to_zone. rewrite (zone_sectors f s I).
  destruct (ge_pgsz _ (so_geometry _ (zr_ssd _ _ (proj1 I)))) as [E1 E2]. cbn [fst] in *. rewrite E1, E2.
  pose proof (zk_align _ _ (zparams f s I)). pose proof (zk_zone _ _ (zparams f s I)).
  f_equal. rewrite Z.div_div by (first [lia | Z.to_euclidean_division_equations; lia]). f_equal.
  unfold zcap. Z.to_euclidean_division_equations. lia.
Qed.

Lemma pwp_zns_write i z :
  zf_zone_descs f !! i = Some z -> lba_to_zone f (zr_slba rq) = Z.of_nat i ->
  (u \/ (zd_zrwav z = false /\ 512 * (zr_length rq + 1) <= write_space f)) ->
  pwp u (zns_write rq) (fun a st' => if zd_zrwav z then one_changed f s i a st' else wrote f s i z rq a st') (f, s).
Proof.
  intros Hz Hl Hu. unfold zns_write. apply pwp_bind, pwp_getz. rewrite lpn_to_zone_lba, Hl.
  apply pwp_bind, (pwp_this_zone u f s i z Hz). destruct (zd_zrwav z) eqn:Ezr.
  - destruct Hu as [Hu|[? _]]; [|done]. pose proof (pwp_zns_write_zrwa f s I i z Hz Ezr rq Hl Hlen) as H.
    unfold pwp in *. by destruct (zns_write_zrwa rq (f, s)).
  - apply pwp_zns_write_seq; try done. destruct Hu as [?|[_ ?]]; [by left|by right].
Qed.

(** Reads change nothing but times. *)
Lemma pwp_zns_read i z :
  zf_zone_descs f !! i = Some z -> lba_to_zone f (zr_slba rq) = Z.of_nat i ->
  pwp u (zns_read rq) (fun a st' => kept (f, s) st' /\ exists r t, a = ZDone r t (zr_slba rq) /\
    (Z.of_nat i * cap <= zr_slba rq < Z.of_nat i * cap + cap ->
     r = spec_read cap (zr_slba rq - Z.of_nat i * cap) (zr_length rq + 1) (abs_zone z))) (f, s).
Proof.
  intros Hz Hl. unfold zns_read. apply pwp_bind, pwp_getz. cbv zeta. rewrite lpn_to_zone_lba, Hl.
  apply pwp_bind, (pwp_this_zone u f s i z Hz). apply pwp_bind.
  eapply pwp_mono; [apply pwp_zns_read_loop; [done|lia]|]. intros latest [f1 s1] K1.
  apply pwp_bind, pwp_pcie; [apply K1|]. intros t st' K2. apply pwp_ret. split; [by eapply kept_trans|].
  eexists _, _. split; [done|]. intros Hr. unfold spec_read, abs_zone. cbn [az_state].
  rewrite <- (check_boundary_spec f s I i z Hz) by lia.
  rewrite (wrap_small 32) by (unfold in_word; lia).
  by replace (Z.of_nat i * cap + (zr_slba rq - Z.of_nat i * cap)) with (zr_slba rq) by lia.
Qed.

Lemma pwp_zns_flush : pwp u (zns_flush rq) (fun a st' => kept (f, s) st' /\ exists t, a = ZDone NVME_SC_OK t (zr_slba rq)) (f, s).
Proof.
  unfold zns_flush. apply pwp_bind, pwp_clock; [done|]. intros t0 [f1 s1] K1.
  apply pwp_bind, pwp_next_idle; [apply K1|]. intros t st' K2. apply pwp_ret. split; [by eapply kept_trans|by eexists].
Qed.
End data.
