(* ===== verification/ZnsReport.v ===== *)
(** * Zone reports (proofs about the report command of ZnsIo)

    What the host reads in the pages of its command is the state of the zones. *)
From S2P Require Import Prelude ChannelModel Ssd SsdProps FtlAlloc KvFtl KvFtlSpec Zns ZnsIo ZnsSpec ZnsInv ZnsCmd.

(** ** Reading a report *)

Definition parse_state (code : Z) : option zone_state :=
  if code =? 1 then Some ZONE_STATE_EMPTY else if code =? 2 then Some ZONE_STATE_OPENED_IMPL
  else if code =? 3 then Some ZONE_STATE_OPENED_EXPL else if code =? 4 then Some ZONE_STATE_CLOSED
  else if code =? 13 then Some ZONE_STATE_READ_ONLY else if code =? 14 then Some ZONE_STATE_FULL
  else if code =? 15 then Some ZONE_STATE_OFFLINE else None.

(** A descriptor by the byte offsets of the specification. *)
Definition parse_zone (b : bytes) : option zone_descriptor :=
  st ← parse_state (Z.shiftr (b !!! 1%nat) 4);
  Some (Zone st (Z.testbit (b !!! 2%nat) 3) (le_int (take 8 (drop 8 b)))
          (le_int (take 8 (drop 16 b))) (le_int (take 8 (drop 24 b)))).

Fixpoint parse_zones (k : nat) (b : bytes) : option (list zone_descriptor) :=
  match k with
  | O => Some []
  | S k => z ← parse_zone (take 64 b); zs ← parse_zones k (drop 64 b); Some (z :: zs)
  end.

(** The number of zones in the header, and the descriptors that were transferred. *)
Definition parse_report (b : bytes) : option (Z * list zone_descriptor) :=
  let nr := le_int (take 8 b) in
  zs ← parse_zones (Z.to_nat nr `min` (length b / 64 - 1)) (drop 64 b);
  Some (nr, zs).

Lemma length_zone_bytes z : length (zone_bytes z) = 64%nat.
Proof. done. Qed.

(** Descriptors whose fields fit their words. *)
Definition zone_words (z : zone_descriptor) : Prop :=
  in_word 64 (zd_zone_capacity z) /\ in_word 64 (zd_zslba z) /\ in_word 64 (zd_wp z).

Lemma parse_zone_bytes z : zone_words z -> parse_zone (zone_bytes z) = Some z.
Proof.
  intros (H1 & H2 & H3). unfold parse_zone.
  change (take 8 (drop 8 (zone_bytes z))) with (le_bytes 8 (zd_zone_capacity z)).
  change (take 8 (drop 16 (zone_bytes z))) with (le_bytes 8 (zd_zslba z)).
  change (take 8 (drop 24 (zone_bytes z))) with (le_bytes 8 (zd_wp z)).
  rewrite !le_int_le_bytes by done.
  change (zone_bytes z !!! 1%nat) with (Z.shiftl (zone_state_code (zd_state z)) 4).
  change (zone_bytes z !!! 2%nat) with (if zd_zrwav z then 8 else 0).
  destruct z as [st zr c zs w]. simpl. by destruct st, zr.
Qed.

Lemma parse_zones_bytes k m zds rest :
  Forall zone_words zds -> (k <= length zds)%nat -> (64 * k <= m)%nat ->
  parse_zones k (take m ((zds ≫= zone_bytes) ++ rest)) = Some (take k zds).
Proof.
  revert m zds. induction k as [|k IH]; intros m zds Hw Hk Hm; [done|].
  destruct zds as [|z zds]; [simpl in Hk; lia|]. apply Forall_cons in Hw as [Hz Hw]. cbn [parse_zones].
  rewrite take_take, Nat.min_l by lia. cbn [mbind list_bind]. rewrite <- app_assoc.
  rewrite (take_app_length' _ _ 64) by done. rewrite parse_zone_bytes by done. cbn [mbind option_bind].
  rewrite skipn_firstn_comm, (drop_app_length' _ _ 64) by done. rewrite IH; [done|done|simpl in Hk; lia|lia].
Qed.

(** ** Filling the report *)

Lemma length_splice i l buf : (i + length l <= length buf)%nat -> length (splice i l buf) = length buf.
Proof. intros H. unfold splice. rewrite !length_app, length_take, length_drop. lia. Qed.

Lemma length_zones_bytes zds : length (zds ≫= zone_bytes) = (64 * length zds)%nat.
Proof.
  induction zds as [|z zds IH]; [done|]. cbn [mbind list_bind]. rewrite length_app, length_zone_bytes.
  change (length (list_bind _ _ zone_bytes zds)) with (length (zds ≫= zone_bytes)). rewrite IH. simpl. lia.
Qed.

(** The report after [fill_zone_report]: number, seven words as they were, descriptors. *)
Definition filled (buf : bytes) (nr : Z) (zds : list zone_descriptor) : bytes :=
  splice 64 (zds ≫= zone_bytes) (splice 0 (le_bytes 8 nr) buf).

Lemma parse_filled buf nr zds len :
  0 <= nr < 2 ^ 64 -> Forall zone_words zds -> Z.of_nat (length zds) = nr ->
  (64 + 64 * length zds <= length buf)%nat -> (64 <= len <= length buf)%nat ->
  parse_report (take len (filled buf nr zds)) = Some (nr, take (len / 64 - 1) zds).
Proof.
  intros Hnr Hw Hl Hbuf Hlen. unfold parse_report.
  assert (Hlf : length (filled buf nr zds) = length buf).
  { unfold filled. rewrite !length_splice; rewrite ?length_splice, ?length_zones_bytes; simpl; lia. }
  assert (H8 : length (le_bytes 8 nr) = 8%nat) by done.
  assert (E1 : take 8 (take len (filled buf nr zds)) = le_bytes 8 nr).
  { rewrite take_take, Nat.min_l by lia. unfold filled, splice. rewrite take_0, app_nil_l.
    rewrite take_app_le.
    - rewrite take_take, Nat.min_l by lia. by apply take_app_length'.
    - rewrite length_take, length_app, length_drop, H8. lia. }
  assert (E2 : drop 64 (take len (filled buf nr zds)) = take (len - 64) ((zds ≫= zone_bytes) ++
                 drop (64 + 64 * length zds) (splice 0 (le_bytes 8 nr) buf))).
  { rewrite skipn_firstn_comm. f_equal. unfold filled. unfold splice at 1. rewrite length_zones_bytes.
    apply drop_app_length'. rewrite length_take, length_splice by (simpl; lia). lia. }
  rewrite E1, E2, le_int_le_bytes by done. rewrite length_take, Hlf, (Nat.min_l len) by lia.
  rewrite parse_zones_bytes; [|done|lia|].
  - cbn [mbind option_bind]. f_equal. f_equal. rewrite <- Hl, Nat2Z.id.
    destruct (Nat.le_gt_cases (length zds) (len / 64 - 1)).
    + rewrite Nat.min_l by lia. rewrite !take_ge by lia. done.
    + by rewrite Nat.min_r by lia.
  - pose proof (Nat.Div0.div_mod len 64). lia.
Qed.

(** ** The transfer to the host *)

(** The pages of the command hold [n] bytes and overlap neither each other nor the
    list of pages. *)
Definition host_pages (host : memory) (rq : zns_request) (n : Z) (segs : list (Z * Z)) : Prop :=
  pairwise_apart segs /\ forall host', same_outside segs host host' ->
    prp_segs (prp_fuel n) host' (prp_cmd (zr_prp1 rq) (zr_prp2 rq)) n prp_start = Some segs.

Section transfer.
Context (u : Prop).

Lemma kept_host f s m : zinv (f, s) -> kept (f, s) (zset_host m f, s).
Proof. intros [[] []]. split; try done; split; by split. Qed.
Lemma kept_report f s l : zinv (f, s) -> length l = length (zf_report f) -> kept (f, s) (zset_report l f, s).
Proof.
  intros [[] []] E. cbn [fst snd] in *. split; try done; split; split; try done.
  cbn [fst zset_report zf_report zf_zp]. by rewrite E.
Qed.

Lemma pwp_prp_transfer_loop fuel cmd remaining offset ps segs all host0 f s (Q : unit -> zns_ftl * shared -> Prop) :
  0 <= remaining -> 0 <= offset -> offset + remaining <= Z.of_nat (length (zf_report f)) ->
  (forall host', same_outside all host0 host' -> prp_segs fuel host' cmd remaining ps = Some segs) ->
  (forall r, r ∈ segs -> r ∈ all) -> pairwise_apart segs -> same_outside all host0 (zf_host f) ->
  (forall host', same_outside segs (zf_host f) host' ->
     gathered host' segs = take (Z.to_nat remaining) (drop (Z.to_nat offset) (zf_report f)) ->
     Q tt (zset_host host' f, s)) ->
  pwp u (prp_transfer_loop fuel cmd remaining offset ps) Q (f, s).
Proof.
  revert remaining offset ps segs f.
  induction fuel as [|k IH]; intros remaining offset ps segs f Hr Ho Hsz Hst Hin Hap Hsame HQ;
    cbn [prp_transfer_loop].
  all: destruct (decide (remaining = 0)) as [-> |Hne].
  1,3: specialize (Hst _ Hsame); rewrite prp_segs_nil in Hst; simplify_eq; cbn [Z.eqb];
    apply pwp_ret; replace f with (zset_host (zf_host f) f) by (by destruct f); by apply HQ.
  all: pose proof (Hst _ Hsame) as H;
    apply prp_segs_cons in H as (n' & a & io & ps' & rest & Hn & -> & Hnext & Hrest & Hio); [|lia].
  { done. }
  simplify_eq. replace (remaining =? 0) with false by lia. apply pwp_bind, pwp_getz. rewrite Hnext.
  replace (Z.of_nat (length (zf_report f)) <? offset + io) with false by bool_lia.
  apply pwp_bind, pwp_modz. inversion Hap as [|? ? Hfirst Hap']; subst.
  set (piece := take (Z.to_nat io) (drop (Z.to_nat offset) (zf_report f))).
  assert (Hlen : Z.of_nat (length piece) = io) by (subst piece; rewrite length_take, length_drop; lia).
  set (host1 := mem_write (zf_host f) a piece).
  assert (Hout : forall x, ~ in_range (a, io) x -> mem_get host1 x = mem_get (zf_host f) x).
  { intros x Hx. subst host1. by rewrite mem_get_write, Hlen, decide_False. }
  eapply (IH _ _ _ rest); cbn [zset_host zf_report zf_host]; try lia; try done.
  - intros host' Hh. specialize (Hst _ Hh).
    apply prp_segs_cons in Hst as (n2 & a' & io' & ps2 & rest' & Hn & ? & Hnext' & Hrest' & _); [|lia].
    simplify_eq. by rewrite (prp_next_state _ _ _ _ _ _ _ _ _ _ _ Hnext Hnext') in Hrest'.
  - intros r Hrr. apply Hin. by right.
  - intros x Hx. rewrite Hout; [by apply Hsame|]. contradict Hx.
    apply Exists_exists. exists (a, io). split; [apply Hin; by left|done].
  - intros host' Hh Hg. change (Q tt (zset_host host' f, s)). apply HQ.
    + intros x Hx. rewrite Hh; [|contradict Hx; by right]. apply Hout. contradict Hx. by left.
    + unfold gathered in *. csimpl. rewrite Hg.
      replace (Z.to_nat remaining) with (Z.to_nat io + Z.to_nat (remaining - io))%nat by lia.
      rewrite <- take_take_drop, drop_drop. replace (Z.to_nat (offset + io)) with (Z.to_nat offset + Z.to_nat io)%nat by lia.
      f_equal. fold piece. rewrite (mem_read_ext host1).
      * pose proof (mem_read_write (zf_host f) a piece) as E. rewrite Hlen in E. exact E.
      * intros x Hx. apply Hh. intros (r & Hr' & Hrx)%Exists_exists.
        rewrite List.Forall_forall in Hfirst. specialize (Hfirst r).
        apply list_elem_of_In in Hr'. apply Hfirst in Hr'. unfold apart, in_range in *. simpl in *. lia.
Qed.

(** Whatever the pages are, nothing but host memory changes. *)
Lemma pwp_prp_transfer_kept fuel cmd remaining offset ps f s :
  zinv (f, s) -> pwp True (prp_transfer_loop fuel cmd remaining offset ps) (fun _ => kept (f, s)) (f, s).
Proof.
  revert remaining offset ps f. induction fuel as [|k IH]; intros remaining offset ps f I; cbn [prp_transfer_loop].
  all: case_if Hz; [by apply pwp_ret, zkept_refl|]; try done.
  apply pwp_bind, pwp_getz. destruct (prp_next _ _ _ _) as [[[a io] ps']|]; [|done]. case_if Hb; [done|].
  apply pwp_bind, pwp_modz. pose proof (kept_host f s (mem_write (zf_host f) a
    (take (Z.to_nat io) (drop (Z.to_nat offset) (zf_report f)))) I) as K.
  eapply pwp_mono; [apply IH, K|]. intros ? ?. by apply kept_trans.
Qed.
End transfer.

(** ** The command *)

Section report.
Context (u : Prop) (f : zns_ftl) (s : shared) (I : zinv (f, s)) (rq : zns_request).
Abbreviation n := (zp_nr_zones (zf_zp f)).
Abbreviation start := (lba_to_zone f (zr_slba rq)).

(** The descriptors of a report. *)
Definition reported : list zone_descriptor :=
  take (Z.to_nat (nr_zone_to_report f rq)) (drop (Z.to_nat start) (zf_zone_descs f)).

Lemma nr_zones_small : n < 2 ^ 32.
Proof.
  pose proof (zk_total _ _ (zparams f s I)). pose proof (zk_zones _ _ (zparams f s I)).
  pose proof (zcap_pos f s I). nia.
Qed.

Lemma nr_zone_to_report_spec : start < n ->
  nr_zone_to_report f rq =
    if zr_partial rq && (64 <=? report_length rq) then Z.min (report_length rq / 64 - 1) (n - start) else n - start.
Proof.
  intros Hs. pose proof nr_zones_small.
  assert (Hst : 0 <= start) by (apply wrap_in_word; lia).
  assert (Hrl : 0 <= report_length rq < 2 ^ 34).
  { unfold report_length. pose proof (wrap_in_word 32 (zr_nr_dw rq + 1)). unfold in_word in *. lia. }
  unfold nr_zone_to_report. rewrite (wrap_small 64 (n - start)) by (unfold in_word; lia).
  assert (Hd : 0 <= report_length rq / 64 < 2 ^ 28).
  { split; [apply Z.div_pos; lia|apply Z.div_lt_upper_bound; lia]. }
  destruct (zr_partial rq); cbn [andb]; [|by rewrite Z.ltb_irrefl].
  destruct (Z.leb_spec 64 (report_length rq)) as [Hbig|Hsmall].
  - assert (1 <= report_length rq / 64) by (apply Z.div_le_lower_bound; lia).
    rewrite wrap_small by (unfold in_word; lia). destruct (Z.ltb_spec (n - start) (report_length rq / 64 - 1)); lia.
  - rewrite Z.div_small by lia. change (u64 (0 - 1)) with (2 ^ 64 - 1).
    destruct (Z.ltb_spec (n - start) (2 ^ 64 - 1)); lia.
Qed.

Lemma nr_zone_to_report_bounds : start < n -> 0 <= nr_zone_to_report f rq <= n - start.
Proof.
  intros Hs. rewrite nr_zone_to_report_spec by done. case_if Hb; [|lia]. bool_to_prop.
  assert (1 <= report_length rq / 64) by (apply Z.div_le_lower_bound; lia). lia.
Qed.

Lemma length_reported : start < n -> Z.of_nat (length reported) = nr_zone_to_report f rq.
Proof.
  intros Hs. pose proof (nr_zone_to_report_bounds Hs). assert (Hst : 0 <= start) by (apply wrap_in_word; lia).
  pose proof (zi_length _ (proj2 I)). cbn [fst] in *. unfold reported. rewrite length_take, length_drop. lia.
Qed.

Lemma pwp_fill_zone_report (Q : unit -> zns_ftl * shared -> Prop) : start < n ->
  Q tt (zset_report (filled (zf_report f) (nr_zone_to_report f rq) reported) f, s) ->
  pwp u (fill_zone_report rq) Q (f, s).
Proof.
  intros Hs HQ. pose proof (nr_zone_to_report_bounds Hs). pose proof (length_reported Hs) as Hl.
  assert (Hst : 0 <= start) by (apply wrap_in_word; lia).
  pose proof (zr_report _ _ (proj1 I)) as Hr. cbn [fst] in Hr. unfold report_buffer_size in Hr.
  unfold fill_zone_report. apply pwp_bind, pwp_getz. cbv zeta. fold reported.
  replace (Z.of_nat (length (zf_report f)) <? _) with false by bool_lia. rewrite Hl, Z.ltb_irrefl. by apply pwp_modz.
Qed.

Lemma length_filled : start < n ->
  length (filled (zf_report f) (nr_zone_to_report f rq) reported) = length (zf_report f).
Proof.
  intros Hs. pose proof (nr_zone_to_report_bounds Hs). pose proof (length_reported Hs) as Hl.
  assert (Hst : 0 <= start) by (apply wrap_in_word; lia).
  pose proof (zr_report _ _ (proj1 I)) as Hr. cbn [fst] in Hr. unfold report_buffer_size in Hr.
  unfold filled. rewrite !length_splice; rewrite ?length_splice, ?length_zones_bytes; simpl; lia.
Qed.

(** With pages for it, the first bytes of the report reach the host. *)
Lemma pwp_recv segs (Q : zns_answer -> zns_ftl * shared -> Prop) :
  check_zmgmt_rcv_option_supported f rq = true -> report_length rq <= report_buffer_size (zf_zp f) ->
  host_pages (zf_host f) rq (report_length rq) segs ->
  (forall st', kept (f, s) st' -> same_outside segs (zf_host f) (zf_host (fst st')) ->
     gathered (zf_host (fst st')) segs =
       take (Z.to_nat (report_length rq)) (filled (zf_report f) (nr_zone_to_report f rq) reported) ->
     Q (ZDone NVME_SC_OK (zr_nsecs_start rq) (zr_slba rq)) st') ->
  pwp u (zns_zmgmt_recv rq) Q (f, s).
Proof.
  intros Hc Hlen [Hap Hseg] HQ. unfold zns_zmgmt_recv. apply pwp_bind, pwp_getz. rewrite Hc.
  unfold check_zmgmt_rcv_option_supported in Hc. bool_to_prop.
  apply pwp_bind, pwp_fill_zone_report; [done|]. set (buf := filled _ _ _).
  assert (Hlb : length buf = length (zf_report f)) by (by apply length_filled).
  pose proof (kept_report f s buf I Hlb) as K1. pose proof (zr_report _ _ (proj1 I)) as Hr. cbn [fst] in Hr.
  apply pwp_bind. unfold prp_transfer_data.
  eapply (pwp_prp_transfer_loop u _ _ _ _ _ segs segs (zf_host f)); cbn [zset_report zf_report zf_host]; try done.
  - unfold report_length. pose proof (wrap_in_word 32 (zr_nr_dw rq + 1)). unfold in_word in *. lia.
  - rewrite Hlb. lia.
  - intros host' Hh Hg. apply pwp_ret, HQ; [|done|done].
    eapply kept_trans; [exact K1|]. apply kept_host, K1.
Qed.

(** Without a word about the pages, what holds if it returns. *)
Lemma pwp_recv_kept : pwp True (zns_zmgmt_recv rq) (fun _ => kept (f, s)) (f, s).
Proof.
  unfold zns_zmgmt_recv. apply pwp_bind, pwp_getz. case_if Hc; [|by apply pwp_ret, zkept_refl].
  unfold check_zmgmt_rcv_option_supported in Hc. bool_to_prop.
  pose proof (kept_report f s _ I (length_filled ltac:(done))) as K1.
  apply pwp_bind. unfold fill_zone_report. apply pwp_bind, pwp_getz. cbv zeta. fold reported.
  do 2 (case_if Hx; [done|clear Hx]). apply pwp_modz, pwp_bind. unfold prp_transfer_data.
  eapply pwp_mono; [apply pwp_prp_transfer_kept, K1|]. intros ? ? K2. apply pwp_ret. by eapply kept_trans.
Qed.

Lemma pwp_recv_refused :
  check_zmgmt_rcv_option_supported f rq = false ->
  zns_zmgmt_recv rq (f, s) = Done (ZDone NVME_SC_INVALID_FIELD (zr_nsecs_start rq) (zr_slba rq)) (f, s).
Proof. intros Hc. unfold zns_zmgmt_recv, mbind, prog_bind, getz. cbn [fst]. by rewrite Hc. Qed.
End report.
