(* ===== verification/ZnsProps.v ===== *)
(** * Correctness of the zoned namespace (proofs about Zns and ZnsIo)

    From initialisation on, whatever commands arrive: the counters of open and active
    zones are exact and write pointers stay inside their zones; and as long as no zone
    is given a random write area, the drive is the zone state machine and no command
    fails. *)
From S2P Require Import Prelude ChannelModel Ssd SsdProps FtlAlloc KvFtl KvFtlSpec.
From S2P Require Import Zns ZnsIo ZnsSpec ZnsInv ZnsCmd ZnsReport.

(** ** The zone state machine *)

(** A command on the zones as the host sees them: status and zones afterwards. *)
Definition spec_step (cap unit : Z) (rq : zns_request) (zs : list azone) : option (Z * list azone) :=
  let i := Z.to_nat (zr_slba rq / cap) in
  if (zr_opcode rq =? 1) || (zr_opcode rq =? nvme_cmd_zone_append) then
    z ← zs !! i;
    let off := if zr_opcode rq =? nvme_cmd_zone_append then az_fill z else zr_slba rq mod cap in
    let '(r, z') := spec_write cap unit off (zr_length rq + 1) z in
    Some (r, <[i := z']> zs)
  else if zr_opcode rq =? 2 then
    z ← zs !! i;
    Some (spec_read cap (zr_slba rq mod cap) (zr_length rq + 1) z, zs)
  else if zr_opcode rq =? 0 then Some (NVME_SC_OK, zs)
  else if zr_opcode rq =? 121 then
    if zr_select_all rq then Some (NVME_SC_OK, spec_all (zr_zsa rq) <$> zs)
    else z ← zs !! i; '(r, z') ← spec_action (zr_zsa rq) z; Some (r, <[i := z']> zs)
  else if zr_opcode rq =? 122 then
    Some (if (zr_zra rq =? 0) && (zr_zra_field rq =? 0) then NVME_SC_OK else NVME_SC_INVALID_FIELD, zs)
  else None.

(** The command does not ask for a random write area. *)
Definition plain (rq : zns_request) : Prop := zr_opcode rq = 121 -> zrwa_asked (zr_zsa rq) (zr_zsaso rq) = false.

(** What the host has to see to: an address on the drive, room for a write in the
    buffer, an action that exists, pages for a report. *)
Record request_ok (f : zns_ftl) (rq : zns_request) : Prop := {
  ro_length : 0 <= zr_length rq < 65536;
  ro_slba : 0 <= zr_slba rq < zp_nr_zones (zf_zp f) * zcap (zf_zp f);
  ro_space : zr_opcode rq = 1 \/ zr_opcode rq = nvme_cmd_zone_append ->
    512 * (zr_length rq + 1) <= write_space f;
  ro_action : zr_opcode rq = 121 -> zr_select_all rq = true \/ zr_zsa rq ∈ [1; 2; 3; 4; 5; 17];
  ro_pages : zr_opcode rq = 122 -> zr_zra rq = 0 -> zr_zra_field rq = 0 ->
    report_length rq <= report_buffer_size (zf_zp f) /\
    exists segs, host_pages (zf_host f) rq (report_length rq) segs
}.

(** ** Commands *)

(** The invariant holds and the parameters are the same. *)
Record sound (st st' : zns_ftl * shared) : Prop := {
  sd_inv : zinv st';
  sd_zp : zf_zp (fst st') = zf_zp (fst st);
  sd_sp : sp (zf_ssd (fst st')) = sp (zf_ssd (fst st))
}.

Lemma kept_sound st st' : kept st st' -> sound st st'.
Proof. by intros []. Qed.
Lemma changed_sound st i z st' : changed st i z st' -> sound st st'.
Proof. by intros []. Qed.

Lemma kept_plain f s f' s' : kept (f, s) (f', s') -> no_zrwa f -> no_zrwa f' /\ abs_zones f' = abs_zones f.
Proof. unfold no_zrwa, abs_zones. intros [_ E _ _] H. cbn [fst] in E. by rewrite E. Qed.
Lemma changed_plain f s i z' f' s' : changed (f, s) i z' (f', s') -> no_zrwa f -> zd_zrwav z' = false ->
  no_zrwa f' /\ abs_zones f' = <[i := abs_zone z']> (abs_zones f).
Proof.
  unfold no_zrwa, abs_zones. intros [_ E _ _] H Hz. cbn [fst] in E. rewrite E. split; [|by rewrite list_fmap_insert].
  by apply Forall_insert.
Qed.

Lemma no_zrwa_lookup f i z : no_zrwa f -> zf_zone_descs f !! i = Some z -> zd_zrwav z = false.
Proof. unfold no_zrwa. rewrite Forall_lookup. eauto. Qed.

(** Without such a zone the commands that look at one are undefined. *)
Lemma get_zone_undef f s zid : 0 <= zid -> zf_zone_descs f !! Z.to_nat zid = None -> get_zone zid (f, s) = Undef.
Proof. intros H E. unfold get_zone. cbn [fst]. destruct (zid <? 0); [done|]. by rewrite E. Qed.

Lemma zmgmt_send_undef f s slba action opt :
  zf_zone_descs f !! Z.to_nat (lba_to_zone f slba) = None ->
  (r ← zmgmt_send slba action opt; match r with Some status => mret status | None => undefined end) (f, s) = Undef.
Proof.
  intros E. pose proof (get_zone_undef f s (lba_to_zone f slba) ltac:(apply wrap_in_word; lia) E) as Hu.
  unfold zmgmt_send, mbind, prog_bind, getz. cbn [fst].
  repeat (let H := fresh in case_if H; [unfold zmgmt_send_close_zone, zmgmt_send_finish_zone, zmgmt_send_open_zone,
    zmgmt_send_reset_zone, zmgmt_send_offline_zone, zmgmt_send_flush_explicit_zrwa, mbind, prog_bind, getz;
    cbn [fst]; by rewrite Hu|]). done.
Qed.

(** An action on every zone. *)
Section all_zones.
Context (u : Prop) (f : zns_ftl) (s : shared) (I : zinv (f, s)) (action : Z) (opt : bool).
Context (Hu : u \/ (no_zrwa f /\ zrwa_asked action opt = false)).
Abbreviation n := (zp_nr_zones (zf_zp f)).
Abbreviation plainly := (no_zrwa f /\ zrwa_asked action opt = false).

(** Zones below [k] have gone through the action. *)
Definition acted_below (k : nat) (st : zns_ftl * shared) : Prop :=
  sound (f, s) st /\
  (plainly -> no_zrwa (fst st) /\
     abs_zones (fst st) = (spec_all action <$> take k (abs_zones f)) ++ drop k (abs_zones f)).

Lemma acted_below_next k st : (Z.of_nat k < n) -> acted_below k st ->
  pwp u (_ ← zmgmt_send (zone_to_slba f (Z.of_nat k)) action opt; mret tt) (fun _ => acted_below (S k)) st.
Proof.
  intros Hk [[I1 Ezp Esp] Hp]. destruct st as [f1 s1]. cbn [fst] in *.
  assert (Hsl : zone_to_slba f (Z.of_nat k) = zone_to_slba f1 (Z.of_nat k)) by (unfold zone_to_slba; by rewrite Ezp, Esp).
  destruct (lookup_lt_is_Some_2 (zf_zone_descs f1) k) as [z Hz].
  { pose proof (zi_length _ (proj2 I1)). cbn [fst] in *. rewrite Ezp in *. lia. }
  rewrite Hsl. apply pwp_bind. eapply pwp_mono; [apply (pwp_zmgmt_send u f1 s1 I1 k z Hz)|].
  { apply (lba_to_zone_start f1 s1); [done|]. rewrite Ezp. lia. }
  { intros Hzr. destruct Hu as [?|Hpl]; [done|]. destruct (Hp Hpl) as [Hno _].
    by rewrite (no_zrwa_lookup _ _ _ Hno Hz) in Hzr. }
  intros r [f2 s2] Hs. apply pwp_ret.
  assert (Habs : plainly -> abs_zones f !! k = Some (abs_zone z)).
  { intros Hpl. destruct (Hp Hpl) as [_ E].
    assert (H : abs_zones f1 !! k = Some (abs_zone z)) by (unfold abs_zones; by rewrite list_lookup_fmap, Hz).
    rewrite E, lookup_app_r in H by (rewrite length_fmap, length_take; lia).
    rewrite length_fmap, length_take, lookup_drop in H. rewrite <- H. f_equal.
    pose proof (lookup_lt_Some _ _ _ H). lia. }
  assert (Hnext : forall x x', abs_zones f !! k = Some x -> x' = spec_all action x ->
    <[k := x']> ((spec_all action <$> take k (abs_zones f)) ++ drop k (abs_zones f)) =
    (spec_all action <$> take (S k) (abs_zones f)) ++ drop (S k) (abs_zones f)).
  { intros x x' Hx ->. pose proof (lookup_lt_Some _ _ _ Hx) as Hlt.
    assert (Hlen : length (spec_all action <$> take k (abs_zones f)) = k) by (rewrite length_fmap, length_take; lia).
    rewrite (drop_S _ x) by done. rewrite insert_app_r_alt, Hlen, Nat.sub_diag by lia. simpl.
    rewrite (take_S_r _ _ x), fmap_app by done. simpl. by rewrite <- app_assoc. }
  unfold sent in Hs. destruct r as [r|].
  - destruct Hs as (z' & C & Hspec). split.
    { destruct C. split; simpl in *; congruence. }
    intros Hpl. destruct (Hp Hpl) as [Hno E]. destruct Hspec as [Hz' Hspec]; [by eapply no_zrwa_lookup|by apply Hpl|].
    destruct (changed_plain _ _ _ _ _ _ C Hno Hz') as [Hno2 E2]. split; [done|]. cbn [fst]. rewrite E2, E.
    apply (Hnext (abs_zone z)); [by apply Habs|]. unfold spec_all. by rewrite Hspec.
  - destruct Hs as [[= -> ->] Hspec]. split; [done|]. intros Hpl. destruct (Hp Hpl) as [Hno E]. split; [done|].
    cbn [fst]. rewrite E, <- (Hnext (abs_zone z) (abs_zone z)).
    + symmetry. apply list_insert_id. rewrite <- E. unfold abs_zones. by rewrite list_lookup_fmap, Hz.
    + by apply Habs.
    + unfold spec_all. by rewrite Hspec.
Qed.

Lemma pwp_send_all :
  pwp u (for_each (seqZ 0 n) (fun zid => _ ← zmgmt_send (zone_to_slba f zid) action opt; mret tt))
    (fun _ st' => sound (f, s) st' /\
       (plainly -> no_zrwa (fst st') /\ abs_zones (fst st') = spec_all action <$> abs_zones f)) (f, s).
Proof.
  pose proof (zk_zones _ _ (zparams f s I)). pose proof (zi_length _ (proj2 I)) as Hlen. cbn [fst] in Hlen.
  eapply pwp_mono.
  - apply (pwp_for_each u (fun l st => exists k, l = seqZ (Z.of_nat k) (n - Z.of_nat k) /\
      Z.of_nat k <= n /\ acted_below k st)).
    + exists 0%nat. rewrite Z.sub_0_r. split; [done|]. split; [lia|]. split; [by split|].
      intros [Hno _]. split; [done|]. by rewrite take_0, drop_0.
    + intros x l' st (k & El & Hk & Hb). destruct (decide (Z.of_nat k = n)) as [E|].
      { by rewrite E, Z.sub_diag in El. }
      rewrite seqZ_cons in El by lia. simplify_eq.
      eapply pwp_mono; [apply acted_below_next; [lia|exact Hb]|]. intros [] st' Hb'.
      exists (S k). split_and!; [|lia|done]. f_equal; lia.
  - intros [] st' (k & El & Hk & [Hs Hp]). split; [done|]. intros Hpl. destruct (Hp Hpl) as [Hno E].
    split; [done|]. assert (Hkn : Z.of_nat k = n).
    { destruct (decide (Z.of_nat k = n)); [done|]. by rewrite seqZ_cons in El by lia. }
    assert (length (abs_zones f) = k) by (unfold abs_zones; rewrite length_fmap; lia).
    rewrite E, take_ge, drop_ge, app_nil_r by lia. done.
Qed.
End all_zones.

(** The address that goes back with the completion: where an append has written. *)
Definition spec_slba (cap : Z) (rq : zns_request) (zs : list azone) : Z :=
  if zr_opcode rq =? nvme_cmd_zone_append then
    match zs !! Z.to_nat (zr_slba rq / cap) with
    | Some z => zr_slba rq / cap * cap + az_fill z
    | None => zr_slba rq
    end
  else zr_slba rq.

(** The answer [a] and the zones of [f'] are those of the zone state machine; a write
    may also be put off. *)
Definition answers (f : zns_ftl) (rq : zns_request) (a : zns_answer) (f' : zns_ftl) : Prop :=
  let cap := zcap (zf_zp f) in
  let step := spec_step cap (write_unit_size (sp (zf_ssd f))) rq (abs_zones f) in
  match a with
  | ZDone r _ slba => step = Some (r, abs_zones f') /\ slba = spec_slba cap rq (abs_zones f)
  | ZNotTaken slba =>
    (zr_opcode rq = 1 \/ zr_opcode rq = nvme_cmd_zone_append) /\ abs_zones f' = abs_zones f /\
    slba = spec_slba cap rq (abs_zones f)
  | ZNotImplemented => step = None /\ abs_zones f' = abs_zones f
  end.

Section command.
Context (u : Prop) (f : zns_ftl) (s : shared) (I : zinv (f, s)) (rq : zns_request).
Context (Hlen : 0 <= zr_length rq < 65536).
Abbreviation n := (zp_nr_zones (zf_zp f)).
Abbreviation cap := (zcap (zf_zp f)).
Abbreviation zid := (lba_to_zone f (zr_slba rq)).
Abbreviation i := (Z.to_nat zid).

Definition outcome_ok (a : zns_answer) (st' : zns_ftl * shared) : Prop :=
  sound (f, s) st' /\
  (no_zrwa f -> plain rq ->
   no_zrwa (fst st') /\ (0 <= zr_slba rq < n * cap -> answers f rq a (fst st'))).

Lemma zid_range : 0 <= zr_slba rq < n * cap -> zid = zr_slba rq / cap /\ 0 <= zid < n.
Proof.
  intros Hr. unfold lba_to_zone. rewrite (zone_sectors f s I). pose proof (zcap_pos f s I).
  pose proof (nr_zones_small f s I).
  assert (0 <= zr_slba rq / cap < n) by (split; [apply Z.div_pos|apply Z.div_lt_upper_bound]; lia).
  rewrite wrap_small by (unfold in_word; lia). lia.
Qed.

Lemma zid_nonneg : Z.of_nat i = zid.
Proof. rewrite Z2Nat.id; [done|]. apply wrap_in_word. lia. Qed.

Lemma abs_lookup z : zf_zone_descs f !! i = Some z -> abs_zones f !! i = Some (abs_zone z).
Proof. intros H. unfold abs_zones. by rewrite list_lookup_fmap, H. Qed.

(** Where the address lies in its zone. *)
Lemma slba_offset : 0 <= zr_slba rq < n * cap ->
  zid * cap <= zr_slba rq < zid * cap + cap /\ zr_slba rq mod cap = zr_slba rq - zid * cap.
Proof.
  intros Hr. destruct (zid_range Hr) as [E _]. pose proof (zcap_pos f s I).
  pose proof (Z.div_mod (zr_slba rq) cap). pose proof (Z.mod_pos_bound (zr_slba rq) cap). rewrite E. nia.
Qed.

Lemma outcome_kept a st' : kept (f, s) st' ->
  (no_zrwa f -> 0 <= zr_slba rq < n * cap -> abs_zones (fst st') = abs_zones f -> answers f rq a (fst st')) ->
  outcome_ok a st'.
Proof.
  intros K Ha. split; [by apply kept_sound|]. intros Hno _. destruct st' as [f' s'].
  destruct (kept_plain _ _ _ _ K Hno) as [H1 H2]. auto.
Qed.

(** Writes and appends. *)
Lemma pwp_proc_write :
  zr_opcode rq = 1 \/ zr_opcode rq = nvme_cmd_zone_append ->
  (u \/ (no_zrwa f /\ zid < n /\ 512 * (zr_length rq + 1) <= write_space f)) ->
  pwp u (zns_write rq) outcome_ok (f, s).
Proof.
  intros Hop Hu. pose proof zid_nonneg as Hi. destruct (zf_zone_descs f !! i) as [z|] eqn:Hz.
  2: { assert (E : zns_write rq (f, s) = Undef).
       { unfold zns_write, mbind, prog_bind, getz. cbn [fst]. rewrite (lpn_to_zone_lba f s I rq Hlen).
         by rewrite get_zone_undef by (done || lia). }
       unfold pwp. rewrite E. destruct Hu as [?|(_ & ? & _)]; [done|].
       apply lookup_ge_None in Hz. pose proof (zi_length _ (proj2 I)). cbn [fst] in *. lia. }
  eapply pwp_mono; [apply (pwp_zns_write u f s I rq Hlen i z Hz)|].
  { lia. }
  { destruct Hu as [?|(Hno & _ & ?)]; [by left|right]. split; [by eapply no_zrwa_lookup|done]. }
  intros a [f' s'] Hw. cbn beta in Hw. destruct (zd_zrwav z) eqn:Ezr.
  { destruct Hw as [z' C]. split; [by eapply changed_sound|]. intros Hno _.
    by rewrite (no_zrwa_lookup _ _ _ Hno Hz) in Ezr. }
  pose proof (zo_start _ _ _ (zone_inv f s I i z Hz)) as Est. rewrite Hi in Est.
  assert (Hslba : 0 <= zr_slba rq < n * cap -> write_at z rq = spec_slba cap rq (abs_zones f)).
  { intros Hr. unfold write_at, spec_slba. destruct (zid_range Hr) as [E _]. rewrite <- E, (abs_lookup z Hz).
    unfold abs_zone. cbn [az_fill]. rewrite Est. case_if Happ; lia. }
  unfold wrote in Hw. destruct a as [slba|r t slba|]; [| |done].
  - destruct Hw as [-> K]. apply outcome_kept; [done|]. intros _ Hr E. split_and!; try done. by apply Hslba.
  - destruct Hw as [-> (z' & C & Hz' & Hspec)]. split; [by eapply changed_sound|]. intros Hno _.
    destruct (changed_plain _ _ _ _ _ _ C Hno) as [Hno' E']; [congruence|]. split; [done|]. intros Hr. cbn [fst].
    split; [|by apply Hslba]. destruct (slba_offset Hr) as [Hoff Hmod]. rewrite Hi in Hspec. specialize (Hspec Hoff).
    unfold spec_step. destruct (zid_range Hr) as [E _]. rewrite <- E, (abs_lookup z Hz).
    replace ((zr_opcode rq =? 1) || (zr_opcode rq =? nvme_cmd_zone_append)) with true
      by (destruct Hop as [-> | ->]; done).
    cbn [mbind option_bind]. cbv zeta.
    assert (Eoff : (if zr_opcode rq =? nvme_cmd_zone_append then az_fill (abs_zone z) else zr_slba rq mod cap)
      = write_at z rq - zid * cap).
    { unfold write_at, abs_zone. cbn [az_fill]. rewrite Est, Hmod. by case_if Happ. }
    rewrite Eoff, Hspec, E'. done.
Qed.

Lemma pwp_proc_read : zr_opcode rq = 2 -> (u \/ zid < n) -> pwp u (zns_read rq) outcome_ok (f, s).
Proof.
  intros Hop Hu. pose proof zid_nonneg as Hi. destruct (zf_zone_descs f !! i) as [z|] eqn:Hz.
  2: { assert (E : zns_read rq (f, s) = Undef).
       { unfold zns_read, mbind, prog_bind, getz. cbn [fst]. cbv zeta. rewrite (lpn_to_zone_lba f s I rq Hlen).
         by rewrite get_zone_undef by (done || lia). }
       unfold pwp. rewrite E. destruct Hu as [?|?]; [done|].
       apply lookup_ge_None in Hz. pose proof (zi_length _ (proj2 I)). cbn [fst] in *. lia. }
  eapply pwp_mono; [apply (pwp_zns_read u f s I rq Hlen i z Hz); lia|].
  intros a st' [K (r & t & -> & Hr)]. apply outcome_kept; [done|]. intros _ Hrange E.
  destruct (slba_offset Hrange) as [Hoff Hmod]. rewrite Hi in Hr. rewrite (Hr Hoff).
  split; [|unfold spec_slba; by rewrite Hop]. unfold spec_step. rewrite Hop. cbn [Z.eqb Pos.eqb orb].
  destruct (zid_range Hrange) as [Ez _]. rewrite <- Ez, (abs_lookup z Hz). cbn [mbind option_bind].
  by rewrite Hmod, E.
Qed.

Lemma pwp_proc_flush : zr_opcode rq = 0 -> pwp u (zns_flush rq) outcome_ok (f, s).
Proof.
  intros Hop. eapply pwp_mono; [by apply pwp_zns_flush|]. intros a st' [K [t ->]]. apply outcome_kept; [done|].
  intros _ _ E. split; [|unfold spec_slba; by rewrite Hop]. unfold spec_step. rewrite Hop. simpl. by rewrite E.
Qed.

Lemma spec_action_known action z : action ∈ [1; 2; 3; 4; 5; 17] -> spec_action action z <> None.
Proof. rewrite !elem_of_cons. intros H. repeat destruct H as [-> |H]; try done. by apply not_elem_of_nil in H. Qed.

Lemma pwp_proc_send : zr_opcode rq = 121 ->
  (u \/ (no_zrwa f /\ zid < n /\ plain rq /\ (zr_select_all rq = true \/ zr_zsa rq ∈ [1; 2; 3; 4; 5; 17]))) ->
  pwp u (zns_zmgmt_send rq) outcome_ok (f, s).
Proof.
  intros Hop Hu. unfold zns_zmgmt_send. apply pwp_bind, pwp_getz. destruct (zr_select_all rq) eqn:Eall.
  { apply pwp_bind. eapply pwp_mono; [apply (pwp_send_all u f s I (zr_zsa rq) (zr_zsaso rq))|].
    { destruct Hu as [?|(? & _ & Hpl & _)]; [by left|right]. split; [done|by apply Hpl]. }
    intros [] st' [Hs Hp]. apply pwp_ret. split; [done|]. intros Hno Hpl.
    destruct Hp as [H1 H2]; [split; [done|by apply Hpl]|]. split; [done|]. intros Hr.
    split; [|unfold spec_slba; by rewrite Hop]. unfold spec_step. rewrite Hop, Eall, H2. done. }
  pose proof zid_nonneg as Hi. destruct (zf_zone_descs f !! i) as [z|] eqn:Hz.
  2: { pose proof (zmgmt_send_undef f s (zr_slba rq) (zr_zsa rq) (zr_zsaso rq) Hz) as E.
       destruct Hu as [Hu|(_ & ? & _)].
       - unfold pwp, mbind, prog_bind in *. destruct (zmgmt_send _ _ _ _) as [[r|] ?| |] eqn:?; try done.
       - apply lookup_ge_None in Hz. pose proof (zi_length _ (proj2 I)). cbn [fst] in *. lia. }
  apply pwp_bind. eapply pwp_mono; [apply (pwp_zmgmt_send u f s I i z Hz)|].
  { lia. }
  { intros Hzr. destruct Hu as [?|(Hno & _)]; [done|]. by rewrite (no_zrwa_lookup _ _ _ Hno Hz) in Hzr. }
  intros [r|] st' Hs.
  - destruct Hs as (z' & C & Hspec). apply pwp_ret. split; [by eapply changed_sound|]. intros Hno Hpl.
    destruct Hspec as [Hz' Hspec]; [by eapply no_zrwa_lookup|by apply Hpl|]. destruct st' as [f' s'].
    destruct (changed_plain _ _ _ _ _ _ C Hno Hz') as [Hno' E']. split; [done|]. intros Hr.
    split; [|unfold spec_slba; by rewrite Hop]. unfold spec_step. rewrite Hop, Eall. simpl.
    destruct (zid_range Hr) as [Ez _]. rewrite <- Ez, (abs_lookup z Hz). simpl. rewrite Hspec. simpl. by rewrite E'.
  - destruct Hs as [-> Hspec]. apply pwp_undefined. destruct Hu as [?|(_ & _ & _ & [?|Hk])]; [done|congruence|].
    by apply (spec_action_known _ (abs_zone z)) in Hk.
Qed.

Lemma pwp_proc_recv : zr_opcode rq = 122 ->
  (u \/ (zid < n /\ (zr_zra rq = 0 -> zr_zra_field rq = 0 ->
     report_length rq <= report_buffer_size (zf_zp f) /\
     exists segs, host_pages (zf_host f) rq (report_length rq) segs))) ->
  pwp u (zns_zmgmt_recv rq) outcome_ok (f, s).
Proof.
  intros Hop Hu. assert (Hfin : forall r t st', kept (f, s) st' ->
    (zid < n -> r = if (zr_zra rq =? 0) && (zr_zra_field rq =? 0) then NVME_SC_OK else NVME_SC_INVALID_FIELD) ->
    outcome_ok (ZDone r t (zr_slba rq)) st').
  { intros r t st' K Hr. apply outcome_kept; [done|]. intros _ Hrange E. destruct (zid_range Hrange).
    split; [|unfold spec_slba; by rewrite Hop]. unfold spec_step. rewrite Hop. simpl. rewrite E, Hr by lia. done. }
  destruct (check_zmgmt_rcv_option_supported f rq) eqn:Hc.
  2: { unfold pwp. rewrite (pwp_recv_refused f s rq Hc). apply Hfin; [by apply zkept_refl|]. intros Hlt.
       unfold check_zmgmt_rcv_option_supported in Hc. rewrite <- andb_assoc in Hc.
       replace (zid <? n) with true in Hc by bool_lia. cbn [andb] in Hc. by rewrite Hc. }
  pose proof Hc as Hc'. unfold check_zmgmt_rcv_option_supported in Hc'. rewrite <- andb_assoc in Hc'.
  apply andb_true_iff in Hc' as [_ Hc'].
  destruct Hu as [Hu|[_ Hp]].
  - pose proof (pwp_recv_kept f s I rq) as H. unfold pwp in *.
    destruct (zns_zmgmt_recv rq (f, s)) as [a st'| |] eqn:E; try done.
    unfold zns_zmgmt_recv, mbind, prog_bind, getz in E. cbn [fst] in E. rewrite Hc in E.
    destruct (fill_zone_report rq (f, s)) as [[] st1| |]; try done.
    destruct (prp_transfer_data _ _ _ st1) as [[] st2| |]; try done. injection E as <- <-.
    apply Hfin; [done|]. by rewrite Hc'.
  - apply andb_true_iff in Hc' as [H1 H2]. bool_to_prop. destruct (Hp H1 H2) as (Hl & segs & Hs).
    eapply pwp_recv; [done|done|done|exact Hs|]. intros st' K _ _. apply Hfin; [done|]. by rewrite H1, H2.
Qed.

Lemma pwp_proc : (u \/ (no_zrwa f /\ plain rq /\ request_ok f rq)) ->
  pwp u (zns_proc_nvme_io_cmd rq) outcome_ok (f, s).
Proof.
  intros Hu. unfold zns_proc_nvme_io_cmd.
  assert (Hz : u \/ zid < n).
  { destruct Hu as [?|(_ & _ & HR)]; [by left|right]. destruct (zid_range (ro_slba _ _ HR)). lia. }
  case_if H1.
  { assert (Hop : zr_opcode rq = 1 \/ zr_opcode rq = nvme_cmd_zone_append).
    { apply orb_true_iff in H1 as [?|?]; bool_to_prop; auto. }
    apply pwp_proc_write; [done|]. destruct Hu as [?|(Hno & _ & HR)]; [by left|]. destruct Hz as [?|?]; [by left|right].
    split_and!; try done. by apply (ro_space _ _ HR). }
  case_if H2; [bool_to_prop; by apply pwp_proc_read|]. case_if H3; [bool_to_prop; by apply pwp_proc_flush|].
  case_if H4.
  { bool_to_prop. apply pwp_proc_send; [done|]. destruct Hu as [?|(Hno & Hpl & HR)]; [by left|].
    destruct Hz as [?|?]; [by left|right]. split_and!; try done. by apply (ro_action _ _ HR). }
  case_if H5.
  { bool_to_prop. apply pwp_proc_recv; [done|]. destruct Hu as [?|(Hno & Hpl & HR)]; [by left|].
    destruct Hz as [?|?]; [by left|right]. split; [done|]. by apply (ro_pages _ _ HR). }
  apply pwp_ret, outcome_kept; [by apply zkept_refl|]. intros _ _ E. split; [|done].
  unfold spec_step. by rewrite H1, H2, H3, H4, H5.
Qed.
End command.

(** ** Initialisation *)

(** A configuration and capacity that make a sound zoned drive: below 2 TiB, dies that
    divide evenly among zones, a flush granularity of at most the random write area. *)
Definition zns_config_ok (scf : ssd_config) (cf : zns_config) (size : Z) : bool :=
  config_ok scf && (SSD_PARTITIONS scf =? 1) && (ZONE_SIZE cf <=? size) && (size <? 2 ^ 41)
  && (0 <? WRITE_UNIT_SIZE scf) && (0 <? CELL_MODE scf) && (0 <? MAX_CH_XFER_SIZE scf)
  && (ONESHOT_PAGE_SIZE scf <=? 2 ^ 28)
  && (0 <? u32 (BANDWIDTH_TO_MAX_CREDITS (NAND_CHANNEL_BANDWIDTH scf)))
  && (0 <? u32 (BANDWIDTH_TO_MAX_CREDITS (PCIE_BANDWIDTH scf)))
  && (0 <? ZONE_SIZE cf) && (ZONE_SIZE cf <? 2 ^ 32) && (0 <? DIES_PER_ZONE cf)
  && ((LUNS_PER_NAND_CH scf * NAND_CHANNELS scf) mod DIES_PER_ZONE cf =? 0)
  && (0 <=? ZRWAFG_SIZE cf) && (ZRWAFG_SIZE cf <=? ZRWA_SIZE cf) && (ZRWA_SIZE cf <? 2 ^ 32)
  && (0 <=? ZONE_WB_SIZE cf).

Definition started (scf : ssd_config) (cf : zns_config) (size : Z) (st : zns_ftl * shared) : Prop :=
  zns_config_ok scf cf size = true /\
  exists report storage host clock, zns_init_namespace scf cf size report storage host clock = Some st.

(** What the fields of the parameters come from. *)
Lemma init_params_fields cf capacity spp : ssd_init_params cf capacity 1 = Some spp ->
  secsz spp = 512 /\ tt_luns spp = LUNS_PER_NAND_CH cf * NAND_CHANNELS cf /\ luns_per_ch spp = LUNS_PER_NAND_CH cf /\
  nchs spp = NAND_CHANNELS cf /\ pgs_per_oneshotpg spp = ONESHOT_PAGE_SIZE cf / 4096 /\
  write_unit_size spp = WRITE_UNIT_SIZE cf /\ cell_mode spp = CELL_MODE cf /\ max_ch_xfer_size spp = MAX_CH_XFER_SIZE cf /\
  ch_bandwidth spp = NAND_CHANNEL_BANDWIDTH cf /\ pcie_bandwidth spp = PCIE_BANDWIDTH cf.
Proof.
  intros H. unfold ssd_init_params in H. rewrite !Z.div_1_r in H.
  apply guard_Some in H as [_ H]. apply bind_Some in H as ([blks blk_size] & _ & H).
  peel_option H. simplify_eq.
  repeat match goal with H : as_int _ = Some _ |- _ => apply as_int_Some in H as [-> _] end. done.
Qed.

Lemma init_params_zones cf spp capacity zp : zns_init_params cf spp capacity = Some zp ->
  zp = ZnsParams (u32 (capacity / ZONE_SIZE cf)) (u32 (capacity / ZONE_SIZE cf)) (u32 (capacity / ZONE_SIZE cf))
         (DIES_PER_ZONE cf) (u32 (ZONE_SIZE cf)) (ZONE_WB_SIZE cf) (MAX_ZRWA_ZONES cf) (ZRWAFG_SIZE cf)
         (ZRWA_SIZE cf) (ZRWA_BUFFER_SIZE cf) (ZRWAFG_SIZE cf / secsz spp) (ZRWA_SIZE cf / secsz spp) /\
  u32 (ZONE_SIZE cf) mod pgsz spp = 0.
Proof.
  unfold zns_init_params. intros (_ & H)%guard_Some. apply guard_Some in H as [_ H]. apply guard_Some in H as [H1 H2].
  by simplify_eq.
Qed.

Lemma nr_of_all_empty P l (g : Z -> zone_descriptor) : (forall x, P (g x) = false) -> nr_of P (g <$> l) = 0.
Proof.
  intros H. unfold nr_of, count. induction l as [|x l IH]; [done|]. simpl. rewrite H. exact IH.
Qed.

Lemma init_buffers_ok size n : 0 <= n -> buffers_ok size n (init_buffers size n).
Proof.
  intros Hn Hs. unfold init_buffers. destruct (Z.eqb_spec size 0); [done|]. rewrite length_replicate.
  split; [lia|]. by apply Forall_replicate.
Qed.

Lemma started_params scf cf size spp zp :
  zns_config_ok scf cf size = true -> ssd_init_params scf size 1 = Some spp ->
  zns_init_params cf spp size = Some zp -> zparams_ok spp zp /\ geometry spp.
Proof.
  intros Hok Hspp Hzp. unfold zns_config_ok in Hok. bool_to_prop.
  destruct (init_params_fields _ _ _ Hspp) as (F1 & F2 & F3 & F4 & F5 & F6 & _).
  destruct (init_params_geometry scf size spp) as (G & _); [done|lia|congruence|].
  destruct (init_params_zones _ _ _ _ Hzp) as [-> Hal]. rewrite (proj1 (ge_pgsz _ G)) in Hal.
  match goal with H : config_ok scf = true |- _ => unfold config_ok in H end. bool_to_prop.
  rewrite (wrap_small 32 (ZONE_SIZE cf)) in * by (unfold in_word; lia). split; [|done].
  assert (Hn : 0 < size / ZONE_SIZE cf) by (apply Z.div_str_pos; lia).
  assert (Hm : ZONE_SIZE cf * (size / ZONE_SIZE cf) <= size) by (apply Z.mul_div_le; lia).
  assert (Hz : 512 * (ZONE_SIZE cf / 512) = ZONE_SIZE cf /\ 8 <= ZONE_SIZE cf / 512).
  { Z.to_euclidean_division_equations. lia. }
  split; cbn [zp_nr_zones zp_zone_size zp_dies_per_zone zp_lbas_per_zrwafg zp_lbas_per_zrwa zp_zone_wb_size];
    unfold zcap; cbn [zp_zone_size]; rewrite ?F1, ?F2, ?F3, ?F4, ?F5, ?F6; try lia.
  - apply Z.div_le_upper_bound; lia.
  - rewrite wrap_small by (unfold in_word; nia). done.
  - rewrite wrap_small by (unfold in_word; nia). nia.
  - split; [apply Z.div_pos; lia|apply Z.div_le_mono; lia].
  - apply Z.div_lt_upper_bound; lia.
Qed.

Lemma zinv_started scf cf size st : started scf cf size st -> zinv st /\ no_zrwa (fst st).
Proof.
  intros (Hok & report & storage & host & clock & Hi). unfold zns_init_namespace in Hi.
  apply bind_Some in Hi as (spp & Hspp & Hi). apply bind_Some in Hi as (d & Hd & Hi).
  apply bind_Some in Hi as (pcie & Hpc & Hi). apply bind_Some in Hi as (zp & Hzp & Hi).
  apply guard_Some in Hi as [Hrep Hi]. injection Hi as <-.
  destruct (started_params _ _ _ _ _ Hok Hspp Hzp) as [Hp G].
  destruct (init_params_fields _ _ _ Hspp) as (_ & _ & _ & _ & _ & _ & F7 & F8 & F9 & F10).
  unfold zns_config_ok in Hok. bool_to_prop.
  destruct (ssd_init_safe spp d) as (Esp & Hssd & _); [done|congruence..|done|].
  apply ssd_init_pcie_safe in Hpc; [|congruence]. pose proof (zk_zones _ _ Hp) as Hn.
  assert (Hz : forall i z, init_descriptors zp !! i = Some z ->
    z = Zone ZONE_STATE_EMPTY false (zcap zp) (Z.of_nat i * zcap zp) (Z.of_nat i * zcap zp)).
  { intros i z Hz. unfold init_descriptors in Hz. apply list_lookup_fmap_Some_1 in Hz as (x & -> & Hx).
    apply lookup_seqZ in Hx as [-> Hx]. unfold zcap. f_equal; lia. }
  split; [|apply Forall_lookup; intros i z E; by rewrite (Hz i z E)].
  assert (Hc : 0 < zcap zp).
  { pose proof (zk_zone _ _ Hp). pose proof (zk_align _ _ Hp). unfold zcap. apply Z.div_str_pos.
    Z.to_euclidean_division_equations. lia. }
  split; split; cbn [fst snd zns_init_ftl zf_ssd zf_zp zf_zone_write_buffer zf_zrwa_buffer zf_report zf_zone_descs zf_res
    sh_pcie sh_wbuf buffer_init bf_size]; rewrite ?Esp; try done.
  - apply init_buffers_ok. lia.
  - apply init_buffers_ok. lia.
  - unfold init_descriptors. rewrite length_fmap, length_seqZ. lia.
  - intros i z E. rewrite (Hz i z E). split; simpl; try done; lia.
  - unfold init_descriptors. split; cbn [rs_active rs_open rs_zrwa acquired_cnt total_cnt];
      rewrite ?nr_of_all_empty by done; try done. lia.
Qed.

(** ** Histories *)

Lemma pwp_release_kept f s : zinv (f, s) -> pwp True zns_release (fun _ => kept (f, s)) (f, s).
Proof.
  intros I. unfold zns_release. apply pwp_bind, pwp_getz.
  destruct (zf_releases f) as [|[[[sq t] b] k] rest]; [by apply pwp_ret, zkept_refl|].
  apply pwp_bind, pwp_modz. set (f1 := ZnsFtl _ _ _ _ _ _ _ _ _ _).
  assert (K1 : kept (f, s) (f1, s)) by (apply kept_flash; [done|]; apply times_only_refl; apply I).
  apply pwp_bind, (pwp_on_buffer _ _ (Buffer 0 0)); [by left|]. intros buf Hbuf.
  unfold buffer_release. apply pwp_bind. unfold pwp at 1, get. apply pwp_bind. unfold pwp at 1, put. apply pwp_ret, pwp_ret.
  eapply kept_trans; [exact K1|]. eapply kept_put_buf; [apply K1|exact Hbuf|done].
Qed.

(** A command that is carried out, or a scheduled release of buffer space. *)
Definition zns_step (ok : zns_request -> Prop) (st st' : zns_ftl * shared) : Prop :=
  (exists rq a, 0 <= zr_length rq < 65536 /\ ok rq /\ zns_proc_nvme_io_cmd rq st = Done a st') \/
  (exists b, zns_release st = Done b st').

Lemma zns_history_inv scf cf size ok st : reachable (zns_step ok) (started scf cf size) st ->
  zinv st /\ ((forall rq, ok rq -> plain rq) -> no_zrwa (fst st)).
Proof.
  revert st. apply reachable_invariant.
  - intros st H. destruct (zinv_started _ _ _ _ H). done.
  - intros [f s] st' [I Hno] [(rq & a & Hlen & Hrq & E)|(b & E)].
    + pose proof (pwp_proc True f s I rq Hlen (or_introl Logic.I)) as H.
      apply pwp_done with (1 := H) in E as [[Hi _ _] Hp]. split; [done|]. intros Hpl.
      destruct Hp as [? _]; auto.
    + pose proof (pwp_release_kept f s I) as H. apply pwp_done with (1 := H) in E.
      split; [apply E|]. intros Hpl. destruct st' as [f' s']. destruct (kept_plain _ _ _ _ E) as [? _]; auto.
Qed.

(** ** Properties *)

(** C7: Whatever commands a zoned drive below 2 TiB receives, random write areas
    included, after each that is carried out: the counter of active zones is the number
    of zones that are open or closed, that of open zones is the number of open zones,
    the counter of random write areas covers the zones that have one, every zone still
    begins where it was laid out, its write pointer is inside it, at its start if it is
    empty and before its end as long as it is active. *)
Theorem zns_counters_exact scf cf size st :
  reachable (zns_step (fun _ => True)) (started scf cf size) st ->
  let f := fst st in
  let n := zp_nr_zones (zf_zp f) in
  rs_active (zf_res f) = Res (nr_of is_active (zf_zone_descs f)) n /\
  rs_open (zf_res f) = Res (nr_of is_open (zf_zone_descs f)) n /\
  nr_of has_zrwa (zf_zone_descs f) <= acquired_cnt (rs_zrwa (zf_res f)) <= n /\
  forall i z, zf_zone_descs f !! i = Some z ->
    zd_zslba z = Z.of_nat i * zcap (zf_zp f) /\
    zd_zslba z <= zd_wp z <= zd_zslba z + zcap (zf_zp f) /\
    (zd_state z = ZONE_STATE_EMPTY -> zd_wp z = zd_zslba z) /\
    (is_active z = true -> zd_wp z < zd_zslba z + zcap (zf_zp f)).
Proof.
  intros [[_ [_ Hz [Ha Ho [_ Hr]]]] _]%zns_history_inv. cbv zeta. split_and!; try done; try lia.
  intros i z E. destruct (Hz i z E). split_and!; try done; try lia. naive_solver.
Qed.


(** C33: A report of zones reaches the host whole: if the buffer of reports covers the
    length asked for and the command has pages for it, what the host finds in its pages
    parses back into the number of zones from the start zone on (for a partial report,
    of those that fit) and the descriptors of as many zones as fit, exactly as they are;
    memory outside the pages does not change. *)
Theorem zns_report_roundtrip scf cf size st rq segs :
  reachable (zns_step (fun _ => True)) (started scf cf size) st ->
  zr_opcode rq = 122 -> zr_zra rq = 0 -> zr_zra_field rq = 0 ->
  lba_to_zone (fst st) (zr_slba rq) < zp_nr_zones (zf_zp (fst st)) ->
  64 <= report_length rq <= report_buffer_size (zf_zp (fst st)) ->
  host_pages (zf_host (fst st)) rq (report_length rq) segs ->
  let f := fst st in
  let from := lba_to_zone f (zr_slba rq) in
  let fit := report_length rq / 64 - 1 in
  let nr := if zr_partial rq then Z.min fit (zp_nr_zones (zf_zp f) - from) else zp_nr_zones (zf_zp f) - from in
  exists st', zns_proc_nvme_io_cmd rq st = Done (ZDone NVME_SC_OK (zr_nsecs_start rq) (zr_slba rq)) st' /\
    zf_zone_descs (fst st') = zf_zone_descs f /\
    parse_report (gathered (zf_host (fst st')) segs) =
      Some (nr, take (Z.to_nat fit) (take (Z.to_nat nr) (drop (Z.to_nat from) (zf_zone_descs f)))) /\
    same_outside segs (zf_host f) (zf_host (fst st')).
Proof.
  intros [I _]%zns_history_inv Hop Hzra Hzf Hfrom Hlen Hp. destruct st as [f s]. cbn [fst] in *. cbv zeta.
  assert (Hc : check_zmgmt_rcv_option_supported f rq = true).
  { unfold check_zmgmt_rcv_option_supported. rewrite Hzra, Hzf. by replace (_ <? _) with true by bool_lia. }
  pose proof (nr_zone_to_report_bounds f s I rq Hfrom) as Hb. pose proof (nr_zones_small f s I) as Hsm.
  assert (Hst : 0 <= lba_to_zone f (zr_slba rq)) by (apply wrap_in_word; lia).
  pose proof (pwp_recv False f s I rq segs (fun a st' => a = ZDone NVME_SC_OK (zr_nsecs_start rq) (zr_slba rq) /\
    kept (f, s) st' /\ same_outside segs (zf_host f) (zf_host (fst st')) /\
    gathered (zf_host (fst st')) segs = take (Z.to_nat (report_length rq))
      (filled (zf_report f) (nr_zone_to_report f rq) (reported f rq)))) as H.
  apply wp_of_pwp, wp_done in H as (a & st' & E & -> & K & Hout & Hg); [|done|lia|done|done].
  exists st'. split; [unfold zns_proc_nvme_io_cmd; by rewrite Hop|]. split; [apply K|]. split; [|done].
  rewrite Hg. pose proof (length_reported f s I rq Hfrom) as Hlr. pose proof (zr_report _ _ (proj1 I)) as Hrb.
  cbn [fst] in Hrb. unfold report_buffer_size in *. rewrite parse_filled; try lia.
  - unfold reported. rewrite (nr_zone_to_report_spec f s I rq Hfrom).
    replace (64 <=? report_length rq) with true by lia. rewrite andb_true_r.
    replace (Z.to_nat (report_length rq) / 64 - 1)%nat with (Z.to_nat (report_length rq / 64 - 1)); [done|].
    rewrite Z2Nat.inj_sub, Z2Nat.inj_div by lia. done.
  - apply Forall_lookup. intros j z Hz. unfold reported in Hz. apply lookup_take_Some in Hz as [Hz _].
    rewrite lookup_drop in Hz. pose proof (zone_limits f s I _ z Hz). destruct (zone_inv f s I _ z Hz).
    unfold zone_words, in_word. pose proof (zcap_pos f s I). lia.
Qed.

(** ** A drive of 4 GiB *)

Module Sample.

Definition drive : option (zns_ftl * shared) :=
  zns_init_namespace ZNS_PROTOTYPE ZNS_PROTOTYPE_zones (GB 4) (replicate (Z.to_nat 8320) 170) ∅ ∅ Z.of_nat.

(** Opcode, address, number of sectors, action, option; reports are of two zones. *)
Definition cmd (op slba nr zsa : Z) (opt : bool) : zns_request :=
  ZnsRequest op slba (nr - 1) 0 1 1000 zsa false opt 47 0 0 false 4096 8192.

Definition run (rqs : list zns_request) : zprog (list zns_answer) :=
  foldr (fun rq k => a ← zns_proc_nvme_io_cmd rq; l ← k; mret (a :: l)) (mret []) rqs.

(** Answers and state after commands, from the state [d]. *)
Definition after_from (d : option (zns_ftl * shared)) (rqs : list zns_request)
    : option (list zns_answer * (zns_ftl * shared)) :=
  match d with
  | Some st => match run rqs st with Done l st' => Some (l, st') | _ => None end
  | None => None
  end.
Definition after : list zns_request -> option (list zns_answer * (zns_ftl * shared)) := after_from drive.

(** The shipped devices satisfy the conditions on configurations. *)
Example prototype_ok : zns_config_ok ZNS_PROTOTYPE ZNS_PROTOTYPE_zones (GB 4) = true.
Proof. reflexivity. Qed.
Example zn540_ok : zns_config_ok WD_ZN540 WD_ZN540_zones (GB 64) = true.
Proof. reflexivity. Qed.

Lemma zns_run_reachable ok (init : zns_ftl * shared -> Prop) rqs st l st' :
  reachable (zns_step ok) init st -> Forall (fun rq => 0 <= zr_length rq < 65536 /\ ok rq) rqs ->
  run rqs st = Done l st' -> reachable (zns_step ok) init st'.
Proof.
  revert st l. induction rqs as [|rq rqs IH]; intros st l Hr Hok; cbn [run foldr].
  { intros [= _ <-]. done. }
  fold (run rqs). unfold mbind, prog_bind. apply Forall_cons in Hok as [[H1 H2] Hok].
  destruct (zns_proc_nvme_io_cmd rq st) as [a st1| |] eqn:E; try done.
  destruct (run rqs st1) as [l1 st2| |] eqn:E2; try done. intros [= _ <-].
  eapply IH; [|done|exact E2]. eapply reach_step; [exact Hr|]. left. by exists rq, a.
Qed.

Lemma drive_started st : drive = Some st -> started ZNS_PROTOTYPE ZNS_PROTOTYPE_zones (GB 4) st.
Proof.
  intros H. split; [exact prototype_ok|].
  exists (replicate (Z.to_nat 8320) 170), ∅, ∅, Z.of_nat. exact H.
Qed.

Lemma after_from_reachable ok init d rqs l st' : (forall st, d = Some st -> init st) ->
  Forall (fun rq => 0 <= zr_length rq < 65536 /\ ok rq) rqs -> after_from d rqs = Some (l, st') ->
  reachable (zns_step ok) init st'.
Proof.
  intros Hi Hok. unfold after_from. destruct d as [st|]; [|done].
  destruct (run rqs st) as [l1 st1| |] eqn:E; try done. intros H. injection H as -> ->.
  eapply zns_run_reachable; [apply reach_init, Hi; reflexivity|exact Hok|exact E].
Qed.

Lemma after_reachable ok rqs l st' : Forall (fun rq => 0 <= zr_length rq < 65536 /\ ok rq) rqs ->
  after rqs = Some (l, st') -> reachable (zns_step ok) (started ZNS_PROTOTYPE ZNS_PROTOTYPE_zones (GB 4)) st'.
Proof. exact (after_from_reachable ok _ drive rqs l st' drive_started). Qed.

(** Write a zone, open another with a random write area and close it. *)
Definition some_commands : list zns_request :=
  [cmd 1 0 256 0 false; cmd 125 5 512 0 false; cmd 121 65536 1 3 true; cmd 121 65536 1 1 false].

Lemma some_commands_ok ok : (forall rq, rq ∈ some_commands -> ok rq) ->
  Forall (fun rq => 0 <= zr_length rq < 65536 /\ ok rq) some_commands.
Proof. intros H. apply Forall_forall. intros rq Hrq. split; [|by apply H]. unfold some_commands in Hrq.
  repeat (apply elem_of_cons in Hrq as [-> |Hrq]; [simpl; lia|]). by apply not_elem_of_nil in Hrq. Qed.

Lemma zns_counters_exact_witness :
  match after some_commands with
  | Some (_, st) =>
    let f := fst st in
    rs_active (zf_res f) = Res (nr_of is_active (zf_zone_descs f)) (zp_nr_zones (zf_zp f)) /\
    nr_of is_active (zf_zone_descs f) = 2
  | None => False
  end.
Proof.
  assert (E2 : match after some_commands with
               | Some (_, st) => nr_of is_active (zf_zone_descs (fst st)) =? 2 | None => false end = true)
    by (vm_compute; reflexivity).
  destruct (after some_commands) as [[l st]|] eqn:E; [|discriminate E2].
  apply Z.eqb_eq in E2. split; [|exact E2].
  destruct (zns_counters_exact ZNS_PROTOTYPE ZNS_PROTOTYPE_zones (GB 4) st) as [H _]; [|exact H].
  eapply after_reachable; [|exact E]. apply some_commands_ok. intros; exact Logic.I.
Defined.

Lemma request_write_ok f slba nr :
  write_buffer_size (sp (zf_ssd f)) = GLOBAL_WB_SIZE ZNS_PROTOTYPE -> zp_zone_wb_size (zf_zp f) = 0 ->
  0 <= slba < zp_nr_zones (zf_zp f) * zcap (zf_zp f) -> 0 < nr <= 65536 -> request_ok f (cmd 1 slba nr 0 false).
Proof.
  intros Hb Hw Hs Hn. split; cbn [zr_length zr_slba zr_opcode cmd]; try lia.
  intros _. unfold write_space. rewrite Hw, Hb. change (GLOBAL_WB_SIZE ZNS_PROTOTYPE) with 33554432. simpl. lia.
Qed.

Definition two_writes : list zns_request := [cmd 1 0 256 0 false; cmd 125 5 512 0 false].


Lemma zns_report_roundtrip_witness :
  match after some_commands with
  | Some (_, st) => exists st', zns_proc_nvme_io_cmd (cmd 122 65536 1 0 false) st = Done (ZDone 0 1000 65536) st' /\
      parse_report (gathered (zf_host (fst st')) [(4096, 192)]) =
        Some (127, take 2 (take 127 (drop 1 (zf_zone_descs (fst st)))))
  | None => False
  end.
Proof.
  assert (E2 : match after some_commands with
               | Some (_, st) => (zp_nr_zones (zf_zp (fst st)) =? 128) && (lba_to_zone (fst st) 65536 =? 1)
               | None => false end = true) by (vm_compute; reflexivity).
  destruct (after some_commands) as [[l st]|] eqn:E; [|discriminate E2].
  apply andb_true_iff in E2 as [H1 H2]. apply Z.eqb_eq in H1, H2.
  assert (Hr : reachable (zns_step (fun _ => True)) (started ZNS_PROTOTYPE ZNS_PROTOTYPE_zones (GB 4)) st).
  { eapply after_reachable; [|exact E]. apply some_commands_ok. intros; exact Logic.I. }
  destruct (zns_report_roundtrip ZNS_PROTOTYPE ZNS_PROTOTYPE_zones (GB 4) st (cmd 122 65536 1 0 false) [(4096, 192)] Hr)
    as (st' & E1 & _ & Hp & _).
  - reflexivity.
  - reflexivity.
  - reflexivity.
  - cbn [cmd zr_slba]. rewrite H1, H2. reflexivity.
  - unfold report_buffer_size. rewrite H1. split; intros H; discriminate H.
  - split; [|intros host' _; reflexivity]. repeat constructor.
  - exists st'. split; [exact E1|]. cbn [cmd zr_slba zr_partial] in Hp. rewrite H1, H2 in Hp. exact Hp.
Defined.

(** ** Where the code falls short *)

Definition answers_of (rqs : list zns_request) : option (list zns_answer) := fst <$> after rqs.

(** The shipped devices have no random write area, but a zone can be opened with one:
    the next write to it, or an explicit flush, divides by a granularity of zero. *)
Example zrwa_open_then_fault :
  answers_of [cmd 121 0 1 3 true] = Some [ZDone 0 1000 0] /\
  answers_of [cmd 121 0 1 3 true; cmd 1 0 256 0 false] = None /\
  answers_of [cmd 121 0 1 3 true; cmd 121 0 1 17 false] = None.
Proof. split_and!; vm_compute; reflexivity. Qed.

(** A write that is refused keeps the buffer space it had allocated: nothing is going to
    be released, and no write is taken any more. *)
Example refused_write_keeps_buffer :
  let refused := replicate 128 (cmd 1 3 512 0 false) in
  match after refused with
  | Some (l, st) => l = replicate 128 (ZDone NVME_SC_ZNS_INVALID_WRITE 1000 3) /\
      zf_releases (fst st) = [] /\ bf_remaining (sh_wbuf (snd st)) = 0
  | None => False
  end /\
  (fun l => l !! 128%nat) <$> answers_of (refused ++ [cmd 1 0 256 0 false]) = Some (Some (ZNotTaken 0)).
Proof. cbv zeta. split; [|vm_compute; reflexivity]. vm_compute. split_and!; reflexivity. Qed.

(** The number of a zone is cut to 32 bits: a reset far outside the drive clears the
    first zone. *)
Example address_aliases_zone :
  match after [cmd 1 0 256 0 false; cmd 121 (2 ^ 48) 1 4 false] with
  | Some (l, st) => zd_state <$> (zf_zone_descs (fst st) !! 0%nat) = Some ZONE_STATE_EMPTY
  | None => False
  end.
Proof. vm_compute. reflexivity. Qed.

(** An address just past the drive is an access outside the table of zones, an action
    that does not exist leaves the status unassigned, and a report longer than the
    report buffer reads past it. *)
Example unchecked_commands :
  answers_of [cmd 1 (128 * 65536) 256 0 false] = None /\ answers_of [cmd 121 0 1 16 false] = None /\
  answers_of [ZnsRequest 122 0 0 0 1 1000 0 false false 2080 0 0 false 4096 16384] = None.
Proof. split_and!; vm_compute; reflexivity. Qed.

Fixpoint release_all (k : nat) : zprog unit :=
  match k with O => mret tt | S k => _ ← zns_release; release_all k end.

(** A smaller device: zones of 1 MiB. *)
Definition small_flash : ssd_config := {|
  SSD_PARTITIONS := 1; NAND_CHANNELS := 8; LUNS_PER_NAND_CH := 16; PLNS_PER_LUN := 1;
  CELL_MODE := 3; FLASH_PAGE_SIZE := KB 64; ONESHOT_PAGE_SIZE := KB 64 * 2;
  BLKS_PER_PLN := 0; BLK_SIZE := MB 1 / 1;
  MAX_CH_XFER_SIZE := KB 64; WRITE_UNIT_SIZE := KB 64 * 2;
  NAND_CHANNEL_BANDWIDTH := 800; PCIE_BANDWIDTH := 3200;
  NAND_4KB_READ_LATENCY := (25485, 25485, 25485); NAND_READ_LATENCY := (40950, 40950, 40950);
  NAND_PROG_LATENCY := 1913640; NAND_ERASE_LATENCY := 0;
  FW_4KB_READ_LATENCY := 32150; FW_READ_LATENCY := 32150;
  FW_WBUF_LATENCY0 := 0; FW_WBUF_LATENCY1 := 0; FW_CH_XFER_LATENCY := 413;
  GLOBAL_WB_SIZE := 8 * 16 * (KB 64 * 2) * 2; WRITE_EARLY_COMPLETION := false
|}.

Definition small (cf : zns_config) : list zns_request -> option (list zns_answer * (zns_ftl * shared)) :=
  after_from (zns_init_namespace small_flash cf (MB 128) (replicate (Z.to_nat 8320) 170) ∅ ∅ Z.of_nat).

(** An append to a full zone that has to wait for buffer space is put back with the
    write pointer as its address, the start of the next zone, and when it is tried
    again it writes there.  (Refused writes have used up the buffer.) *)
Example delayed_append_moves_to_next_zone :
  match small (ZnsConfig (MB 1) 1 0 0 0 0 0)
      (((fun i => cmd 1 (512 * i) 512 0 false) <$> seqZ 0 4) ++ replicate 124 (cmd 1 4099 512 0 false)) with
  | Some (_, st) =>
    (zd_state <$> (zf_zone_descs (fst st) !! 0%nat),
     match (a ← zns_proc_nvme_io_cmd (cmd 125 0 256 0 false);
            _ ← release_all 8;
            b ← zns_proc_nvme_io_cmd (cmd 125 2048 256 0 false);
            f ← getz;
            mret (a, match b with ZDone r _ slba => Some (r, slba) | _ => None end,
                  zd_wp <$> (zf_zone_descs f !! 1%nat))) st with
     | Done r _ => Some r
     | _ => None
     end)
  | None => (None, None)
  end = (Some ZONE_STATE_FULL, Some (ZNotTaken 2048, Some (NVME_SC_OK, 2048), Some (2048 + 256))).
Proof. vm_compute. reflexivity. Qed.

(** From 2 TiB on the start of a zone is computed modulo 2^32 sectors. *)
Example zone_start_wraps :
  option_map (fun st => zone_to_slba (fst st) 65536) drive = Some 0.
Proof. vm_compute. reflexivity. Qed.

(** Random write areas of 256 KiB, flushed by 128 KiB. *)
Definition with_zrwa (buffer_size : Z) : list zns_request -> option (list zns_answer * (zns_ftl * shared)) :=
  small (ZnsConfig (MB 1) 1 8 0 (KB 128) (KB 256) buffer_size).

(** A zone filled by writing gives back its places among the open and active zones, but
    not the one among those with a random write area, and neither does its reset. *)
Example filled_zone_keeps_zrwa :
  match with_zrwa (MB 2) ([cmd 121 0 1 3 true; cmd 1 0 1024 0 false; cmd 1 1024 512 0 false;
      cmd 1 1536 512 0 false; cmd 1 1536 512 0 false; cmd 121 0 1 4 false]) with
  | Some (l, st) =>
    forallb (fun a => match a with ZDone 0 _ _ => true | _ => false end) l = true /\
    zd_state <$> (zf_zone_descs (fst st) !! 0%nat) = Some ZONE_STATE_EMPTY /\
    zf_res (fst st) = Resources (Res 0 128) (Res 0 128) (Res 1 128)
  | None => False
  end.
Proof. vm_compute. split_and!; reflexivity. Qed.

(** Each time a write opens a closed zone again, the whole random write area is
    allocated once more; the second time an assertion fails. *)
Example reopened_zrwa_asserts :
  let reopen := [cmd 121 0 1 1 false; cmd 1 0 256 0 false] in
  fst <$> with_zrwa (KB 256) ([cmd 121 0 1 3 true] ++ reopen) <> None /\
  fst <$> with_zrwa (KB 256) ([cmd 121 0 1 3 true] ++ reopen ++ reopen) = None.
Proof. split; vm_compute; [intros H; discriminate H|reflexivity]. Qed.
End Sample.
