(* ===== verification/IoQueue.v ===== *)
(** * Work queues of the NVMe emulator (lib/nvmevirt: io.c, nvmev.h)

    Every worker thread has a queue of requests, an array of entries chained into two
    lists: the requests, by the time at which they are due, and the free entries.  The
    dispatcher thread puts requests in and takes finished ones out; the worker walks
    the list, moves the data of a request and completes it when its time has come.

    The array has [nr_max] entries, [NR_MAX_PARALLEL_IO] in the program.  What a worker
    does besides - moving data, filling a completion queue, releasing buffer space - is
    the interface [WorkerEnv]. *)
From S2P Require Import Prelude.

Definition NR_MAX_PARALLEL_IO : Z := 16384.

(** The index -1 as an [unsigned int]: no entry. *)
Definition NONE : Z := 2 ^ 32 - 1.

Record io_work := IoWork {
  w_sqid : Z;
  w_cqid : Z;
  w_sq_entry : Z;
  w_command_id : Z;
  w_nsecs_start : Z;
  w_nsecs_target : Z;
  w_nsecs_enqueue : Z;
  w_is_copied : bool;
  w_is_completed : bool;
  w_status : Z;
  w_result0 : Z;
  w_result1 : Z;
  w_is_internal : bool;
  w_write_buffer : Z;
  w_buffs_to_release : Z;
  w_next : Z;
  w_prev : Z
}.

Record io_worker := IoWorker {
  work_queue : list io_work;
  free_seq : Z;
  free_seq_end : Z;
  io_seq : Z;
  io_seq_end : Z;
  latest_nsecs : Z;
  worker_id : Z
}.

(** ** Assignments to fields *)

Definition set_next (x : Z) (w : io_work) : io_work :=
  IoWork (w_sqid w) (w_cqid w) (w_sq_entry w) (w_command_id w) (w_nsecs_start w) (w_nsecs_target w)
    (w_nsecs_enqueue w) (w_is_copied w) (w_is_completed w) (w_status w) (w_result0 w) (w_result1 w)
    (w_is_internal w) (w_write_buffer w) (w_buffs_to_release w) x (w_prev w).
Definition set_prev (x : Z) (w : io_work) : io_work :=
  IoWork (w_sqid w) (w_cqid w) (w_sq_entry w) (w_command_id w) (w_nsecs_start w) (w_nsecs_target w)
    (w_nsecs_enqueue w) (w_is_copied w) (w_is_completed w) (w_status w) (w_result0 w) (w_result1 w)
    (w_is_internal w) (w_write_buffer w) (w_buffs_to_release w) (w_next w) x.
(** [result0] and [status] from the command, then [is_copied]. *)
Definition set_copied (result status : Z) (w : io_work) : io_work :=
  IoWork (w_sqid w) (w_cqid w) (w_sq_entry w) (w_command_id w) (w_nsecs_start w) (w_nsecs_target w)
    (w_nsecs_enqueue w) true (w_is_completed w) status result (w_result1 w)
    (w_is_internal w) (w_write_buffer w) (w_buffs_to_release w) (w_next w) (w_prev w).
Definition set_completed (w : io_work) : io_work :=
  IoWork (w_sqid w) (w_cqid w) (w_sq_entry w) (w_command_id w) (w_nsecs_start w) (w_nsecs_target w)
    (w_nsecs_enqueue w) (w_is_copied w) true (w_status w) (w_result0 w) (w_result1 w)
    (w_is_internal w) (w_write_buffer w) (w_buffs_to_release w) (w_next w) (w_prev w).

Definition set_work_queue (q : list io_work) (s : io_worker) : io_worker :=
  IoWorker q (free_seq s) (free_seq_end s) (io_seq s) (io_seq_end s) (latest_nsecs s) (worker_id s).
Definition set_free_seq (x : Z) (s : io_worker) : io_worker :=
  IoWorker (work_queue s) x (free_seq_end s) (io_seq s) (io_seq_end s) (latest_nsecs s) (worker_id s).
Definition set_free_seq_end (x : Z) (s : io_worker) : io_worker :=
  IoWorker (work_queue s) (free_seq s) x (io_seq s) (io_seq_end s) (latest_nsecs s) (worker_id s).
Definition set_io_seq (x : Z) (s : io_worker) : io_worker :=
  IoWorker (work_queue s) (free_seq s) (free_seq_end s) x (io_seq_end s) (latest_nsecs s) (worker_id s).
Definition set_io_seq_end (x : Z) (s : io_worker) : io_worker :=
  IoWorker (work_queue s) (free_seq s) (free_seq_end s) (io_seq s) x (latest_nsecs s) (worker_id s).
Definition set_latest (x : Z) (s : io_worker) : io_worker :=
  IoWorker (work_queue s) (free_seq s) (free_seq_end s) (io_seq s) (io_seq_end s) x (worker_id s).

(** [work_queue[e]], and an assignment to it. *)
Definition wq_get (e : Z) : prog io_worker io_work := fun s =>
  if (0 <=? e) && (e <? Z.of_nat (length (work_queue s))) then
    match work_queue s !! Z.to_nat e with Some w => Done w s | None => Undef end
  else Undef.

Definition wq_mod (e : Z) (f : io_work -> io_work) : prog io_worker unit :=
  w ← wq_get e;
  modify (fun s => set_work_queue (<[Z.to_nat e := f w]> (work_queue s)) s).

(** The entries of a list are different, so their number bounds every walk. *)
Definition walk_fuel (s : io_worker) : nat := S (length (work_queue s)).

(** ** Insertion *)

(** The loop of [__insert_req_sorted], from the end of the list. *)
Fixpoint insert_walk (fuel : nat) (curr nsecs_target : Z) : prog io_worker Z :=
  match fuel with
  | O => undefined
  | S n =>
    if curr =? NONE then mret curr else
    w ← wq_get curr;
    s ← get;
    if w_nsecs_target w <=? latest_nsecs s then mret curr else
    if w_nsecs_target w <=? nsecs_target then mret curr else
    insert_walk n (w_prev w) nsecs_target
  end.

Definition insert_req_sorted (entry nsecs_target : Z) : prog io_worker unit :=
  s ← get;
  if io_seq s =? NONE then
    _ ← modify (set_io_seq entry);
    modify (set_io_seq_end entry)
  else
    curr ← insert_walk (walk_fuel s) (io_seq_end s) nsecs_target;
    if curr =? NONE then
      _ ← wq_mod (io_seq s) (set_prev entry);
      _ ← wq_mod entry (set_next (io_seq s));
      modify (set_io_seq entry)
    else
      c ← wq_get curr;
      if w_next c =? NONE then
        _ ← wq_mod entry (set_prev curr);
        _ ← modify (set_io_seq_end entry);
        wq_mod curr (set_next entry)
      else
        _ ← wq_mod entry (set_prev curr);
        c ← wq_get curr;
        _ ← wq_mod entry (set_next (w_next c));
        e ← wq_get entry;
        _ ← wq_mod (w_next e) (set_prev entry);
        wq_mod curr (set_next entry).

(** A request from the host, as [__enqueue_io_req] gets it (with the identifier it
    reads from the submission queue). *)
Record io_request := IoRequest {
  rq_sqid : Z;
  rq_cqid : Z;
  rq_sq_entry : Z;
  rq_command_id : Z;
  rq_nsecs_start : Z;
  rq_nsecs_target : Z;
  rq_status : Z
}.

(** An operation a flash translation layer schedules for itself. *)
Record internal_op := InternalOp {
  op_sqid : Z;
  op_nsecs_target : Z;
  op_write_buffer : Z;
  op_buffs_to_release : Z
}.

(** The assignments to the entry before it is inserted; [now] is [local_clock()].
    Fields that are not assigned keep what the last request left. *)
Definition fill_request (rq : io_request) (now : Z) (w : io_work) : io_work :=
  IoWork (rq_sqid rq) (rq_cqid rq) (rq_sq_entry rq) (rq_command_id rq) (rq_nsecs_start rq)
    (rq_nsecs_target rq) now false false (rq_status rq) (w_result0 w) (w_result1 w)
    false (w_write_buffer w) (w_buffs_to_release w) NONE NONE.

Definition fill_internal (op : internal_op) (now : Z) (w : io_work) : io_work :=
  IoWork (op_sqid op) (w_cqid w) (w_sq_entry w) (w_command_id w) now
    (op_nsecs_target op) now true false (w_status w) (w_result0 w) (w_result1 w)
    true (op_write_buffer op) (op_buffs_to_release op) NONE NONE.

Section queue.
Context (nr_max : Z).

(** The part of [__allocate_work_queue_entry] that works on the worker; [None]: the
    queue is almost full. *)
Definition take_free_entry : prog io_worker (option Z) :=
  s ← get;
  let e := free_seq s in
  w ← wq_get e;
  if nr_max <=? w_next w then mret None else
  _ ← modify (set_free_seq (w_next w));
  if nr_max <=? w_next w then undefined else mret (Some e).

(** [__enqueue_io_req] and [schedule_internal_operation] on the worker they chose:
    whether there was an entry for the request. *)
Definition place_work (fill : io_work -> io_work) (nsecs_target : Z) : prog io_worker bool :=
  e ← take_free_entry;
  match e with
  | None => mret false
  | Some entry =>
    _ ← wq_mod entry fill;
    _ ← insert_req_sorted entry nsecs_target;
    mret true
  end.

(** ** Taking finished requests out *)

(** The loop of [__reclaim_completed_reqs]: the last entry to reclaim. *)
Fixpoint reclaim_scan (fuel : nat) (curr last_entry : Z) : prog io_worker Z :=
  match fuel with
  | O => undefined
  | S n =>
    if curr =? NONE then mret last_entry else
    w ← wq_get curr;
    s ← get;
    if w_is_completed w && w_is_copied w && (w_nsecs_target w <=? latest_nsecs s)
    then reclaim_scan n (w_next w) curr
    else mret last_entry
  end.

(** One turn of the loop over the workers. *)
Definition reclaim_worker : prog io_worker unit :=
  s ← get;
  let first_entry := io_seq s in
  last_entry ← reclaim_scan (walk_fuel s) first_entry NONE;
  if last_entry =? NONE then mret tt else
  w ← wq_get last_entry;
  _ ← modify (set_io_seq (w_next w));
  _ ← (if w_next w =? NONE then mret tt else wq_mod (w_next w) (set_prev NONE));
  _ ← wq_mod last_entry (set_next NONE);
  s ← get;
  _ ← wq_mod first_entry (set_prev (free_seq_end s));
  _ ← wq_mod (free_seq_end s) (set_next first_entry);
  modify (set_free_seq_end last_entry).

(** ** Start-up *)

Definition zero_work : io_work := IoWork 0 0 0 0 0 0 0 false false 0 0 0 false 0 0 0 0.

(** The queue of worker [id] as [NVMEV_IO_WORKER_INIT] leaves it. *)
Definition init_worker (id : Z) : io_worker :=
  IoWorker
    ((fun i => set_prev (u32 (i - 1)) (set_next (if i =? nr_max - 1 then NONE else i + 1) zero_work))
       <$> seqZ 0 nr_max)
    0 (nr_max - 1) NONE NONE 0 id.
End queue.

(** ** The worker thread *)

(** What a worker uses of the rest of the device: moving the data of a request (which
    gives its result and status), filling its completion, releasing buffer space.
    [None] is undefined behaviour. *)
Class WorkerEnv (E : Type) := {
  perform_io : io_work -> E -> option (Z * Z * E);
  post_completion : io_work -> E -> option E;
  release_buffer : Z -> Z -> E -> option E
}.

Section thread.
Context {E : Type} `{WorkerEnv E}.
Abbreviation wprog := (prog (io_worker * E)).

Definition on_worker {A} (m : prog io_worker A) : wprog A := zoom fst (fun s b => (s, b.2)) m.
Definition on_env {A} (m : E -> option (A * E)) : wprog A := fun b =>
  match m b.2 with Some (a, e) => Done a (b.1, e) | None => Undef end.
Definition on_env_ (m : E -> option E) : wprog unit := on_env (fun e => e' ← m e; Some (tt, e')).

(** The inner loop of [nvmev_io_worker], in the three parts between which the dispatcher
    may run.  First: the clock, and the data of a request that was not moved yet; the
    answer is whether the request was still to be completed. *)
Definition visit_copy (curr curr_nsecs : Z) : wprog bool :=
  _ ← on_worker (modify (set_latest curr_nsecs));
  w ← on_worker (wq_get curr);
  if w_is_completed w then mret false else
  _ ← (if w_is_copied w then mret tt else
       r ← (if w_is_internal w then mret (w_result0 w, w_status w) else on_env (perform_io w));
       on_worker (wq_mod curr (set_copied (r.1 : Z) (r.2 : Z))));
  mret true.

(** Second: completion, when the request is due. *)
Definition visit_complete (curr curr_nsecs : Z) : wprog unit :=
  w ← on_worker (wq_get curr);
  if w_nsecs_target w <=? curr_nsecs then
    _ ← (if w_is_internal w then on_env_ (release_buffer (w_write_buffer w) (w_buffs_to_release w))
         else on_env_ (post_completion w));
    on_worker (wq_mod curr set_completed)
  else mret tt.

(** Third: on to the next entry. *)
Definition visit_next (curr : Z) : wprog Z :=
  w ← on_worker (wq_get curr); mret (w_next w).

Definition visit (curr curr_nsecs : Z) : wprog Z :=
  todo ← visit_copy curr curr_nsecs;
  _ ← (if todo : bool then visit_complete curr curr_nsecs else mret tt);
  visit_next curr.

(** A pass over the queue on its own; [clock i] is the time of the [i]th visit. *)
Fixpoint worker_walk (fuel : nat) (clock : nat -> Z) (curr : Z) : wprog unit :=
  if curr =? NONE then mret tt else
  match fuel with
  | O => undefined
  | S n =>
    curr' ← visit curr (clock O);
    worker_walk n (fun i => clock (S i)) curr'
  end.

Definition worker_pass (clock : nat -> Z) : wprog unit :=
  s ← on_worker get;
  worker_walk (walk_fuel s) clock (io_seq s).
End thread.

(** ** All workers *)

Record io_device := IoDevice {
  io_workers : list io_worker;
  io_worker_turn : Z
}.

Section device.
Context (nr_max nr_io_workers : Z).

(** [__get_io_worker] with [CONFIG_NVMEV_IO_WORKER_BY_SQ]. *)
Definition get_io_worker (sqid : Z) : Z := u32 (sqid - 1) mod nr_io_workers.

(** Run code on the queue of worker [i]. *)
Definition with_worker {A} (i : Z) (m : prog io_worker A) : prog io_device A := fun d =>
  if (0 <=? i) && (i <? Z.of_nat (length (io_workers d))) then
    match io_workers d !! Z.to_nat i with
    | None => Undef
    | Some s =>
      match m s with
      | Done a s' => Done a (IoDevice (<[Z.to_nat i := s']> (io_workers d)) (io_worker_turn d))
      | Undef => Undef
      | Exit s' => Exit (IoDevice (<[Z.to_nat i := s']> (io_workers d)) (io_worker_turn d))
      end
    end
  else Undef.

(** [__enqueue_io_req] and [schedule_internal_operation] after the choice of a worker;
    [__allocate_work_queue_entry] moves [io_worker_turn] on when there is an entry. *)
Definition submit_work (sqid : Z) (fill : io_work -> io_work) (nsecs_target : Z) : prog io_device bool :=
  let io_worker_turn := get_io_worker sqid in
  ok ← with_worker io_worker_turn (place_work nr_max fill nsecs_target);
  _ ← (if ok : bool then
         modify (fun d => IoDevice (io_workers d)
           (if io_worker_turn + 1 =? nr_io_workers then 0 else io_worker_turn + 1))
       else mret tt);
  mret ok.

Definition enqueue_io_req (rq : io_request) (now : Z) : prog io_device bool :=
  submit_work (rq_sqid rq) (fill_request rq now) (rq_nsecs_target rq).

Definition schedule_internal_operation (op : internal_op) (now : Z) : prog io_device bool :=
  submit_work (op_sqid op) (fill_internal op now) (op_nsecs_target op).

Definition reclaim_completed_reqs : prog io_device unit :=
  for_each (seqZ 0 nr_io_workers) (fun turn => with_worker turn reclaim_worker).

Definition NVMEV_IO_WORKER_INIT : io_device :=
  IoDevice (init_worker nr_max <$> seqZ 0 nr_io_workers) 0.
End device.
