(* ===== verification/IoQueueSpec.v ===== *)
(** * Work queues of the NVMe emulator: the lists the links stand for

    Chains of entries as lists of indices, the invariant of a worker's queue, and the
    list operations that insertion and reclaiming implement. *)
From S2P Require Import Prelude IoQueue.

(** ** Entries and links *)

Definition entry (q : list io_work) (e : Z) : option io_work :=
  if (0 <=? e) && (e <? Z.of_nat (length q)) then q !! Z.to_nat e else None.

Definition nx (q : list io_work) (e : Z) : option Z := w_next <$> entry q e.
Definition pv (q : list io_work) (e : Z) : option Z := w_prev <$> entry q e.

Lemma entry_Some q e w :
  entry q e = Some w <-> 0 <= e < Z.of_nat (length q) /\ q !! Z.to_nat e = Some w.
Proof.
  unfold entry. destruct (_ && _) eqn:E; bool_to_prop; [naive_solver|].
  apply andb_false_iff in E. split; [done|]. intros [? _].
  destruct E; bool_to_prop; lia.
Qed.

Lemma entry_range q e : 0 <= e < Z.of_nat (length q) -> is_Some (entry q e).
Proof.
  intros H. destruct (q !! Z.to_nat e) as [w|] eqn:E.
  - exists w. apply entry_Some. done.
  - apply lookup_ge_None in E. lia.
Qed.

Lemma entry_insert q e w w' e' :
  entry q e = Some w ->
  entry (<[Z.to_nat e := w']> q) e' = if e' =? e then Some w' else entry q e'.
Proof.
  intros [He Hw]%entry_Some. unfold entry. rewrite length_insert.
  destruct (Z.eqb_spec e' e) as [->|N].
  - replace ((0 <=? e) && (e <? Z.of_nat (length q))) with true by lia.
    apply list_lookup_insert_eq. lia.
  - destruct (_ && _) eqn:E; [|done]. bool_to_prop. apply list_lookup_insert_ne. lia.
Qed.

(** ** The two accesses *)

Lemma wp_wq_get X e w (Q : io_work -> io_worker -> Prop) s :
  entry (work_queue s) e = Some w -> Q w s -> wp X (wq_get e) Q s.
Proof.
  unfold entry, wp, wq_get. destruct (_ && _); [|done]. intros E HQ. by rewrite E.
Qed.

Lemma wp_wq_mod X e f w (Q : unit -> io_worker -> Prop) s :
  entry (work_queue s) e = Some w ->
  Q tt (set_work_queue (<[Z.to_nat e := f w]> (work_queue s)) s) -> wp X (wq_mod e f) Q s.
Proof. intros E HQ. apply wp_bind. by eapply wp_wq_get. Qed.

(** ** Chains *)

Definition first_of (d : Z) (l : list Z) : Z := match l with [] => d | x :: _ => x end.
Definition last_of (d : Z) (l : list Z) : Z := default d (last l).

(** [nseg q l z]: each entry of [l] has the one after it as [next], the last has [z]. *)
Fixpoint nseg (q : list io_work) (l : list Z) (z : Z) : Prop :=
  match l with
  | [] => True
  | e :: l' => nx q e = Some (first_of z l') /\ nseg q l' z
  end.

(** [pseg q a l]: each entry of [l] has the one before it as [prev], the first has [a]. *)
Fixpoint pseg (q : list io_work) (a : Z) (l : list Z) : Prop :=
  match l with
  | [] => True
  | e :: l' => pv q e = Some a /\ pseg q e l'
  end.

Lemma last_of_cons d x l : last_of d (x :: l) = last_of x l.
Proof. unfold last_of. rewrite last_cons. by destruct (last l). Qed.

Lemma first_of_app d l l' : first_of d (l ++ l') = first_of (first_of d l') l.
Proof. by destruct l. Qed.

Lemma last_of_app d l l' : last_of d (l ++ l') = last_of (last_of d l) l'.
Proof. revert d. induction l as [|x l IH]; intros d; [done|]. by rewrite <- app_comm_cons, !last_of_cons. Qed.

Lemma last_of_snoc d l x : last_of d (l ++ [x]) = x.
Proof. by rewrite last_of_app. Qed.

Lemma last_of_elem d l : l <> [] -> last_of d l ∈ l.
Proof.
  destruct (last l) as [x|] eqn:E; intros N.
  - unfold last_of. rewrite E. simpl. by apply last_Some_elem_of.
  - by apply last_None in E.
Qed.

Lemma first_of_elem d l : l <> [] -> first_of d l ∈ l.
Proof. destruct l; [done|]. intros _. apply list_elem_of_here. Qed.

Lemma nseg_app q l l' z : nseg q (l ++ l') z <-> nseg q l (first_of z l') /\ nseg q l' z.
Proof. induction l as [|x l IH]; simpl; [tauto|]. rewrite IH, first_of_app. tauto. Qed.

Lemma pseg_app q a l l' : pseg q a (l ++ l') <-> pseg q a l /\ pseg q (last_of a l) l'.
Proof.
  revert a. induction l as [|x l IH]; intros a; simpl; [unfold last_of; simpl; tauto|].
  rewrite IH, last_of_cons. tauto.
Qed.

(** Chains see only the links of their own entries. *)
Lemma nseg_ext q q' l z : (forall e, e ∈ l -> nx q' e = nx q e) -> nseg q l z -> nseg q' l z.
Proof.
  induction l as [|x l IH]; intros He; simpl; [done|]. intros [Hx Hl]. split.
  - rewrite He; [done|]. apply list_elem_of_here.
  - apply IH; [|done]. intros e Hin. apply He. by apply list_elem_of_further.
Qed.

Lemma pseg_ext q q' a l : (forall e, e ∈ l -> pv q' e = pv q e) -> pseg q a l -> pseg q' a l.
Proof.
  revert a. induction l as [|x l IH]; intros a He; simpl; [done|]. intros [Hx Hl]. split.
  - rewrite He; [done|]. apply list_elem_of_here.
  - apply IH; [|done]. intros e Hin. apply He. by apply list_elem_of_further.
Qed.

Lemma nx_insert q e w w' e' :
  entry q e = Some w ->
  nx (<[Z.to_nat e := w']> q) e' = if e' =? e then Some (w_next w') else nx q e'.
Proof. intros He. unfold nx. rewrite (entry_insert _ _ w) by done. by destruct (e' =? e). Qed.

Lemma pv_insert q e w w' e' :
  entry q e = Some w ->
  pv (<[Z.to_nat e := w']> q) e' = if e' =? e then Some (w_prev w') else pv q e'.
Proof. intros He. unfold pv. rewrite (entry_insert _ _ w) by done. by destruct (e' =? e). Qed.

Lemma nseg_entry q l z e : nseg q l z -> e ∈ l -> is_Some (entry q e).
Proof.
  induction l as [|x l IH]; simpl; intros Hn Hin; [by apply not_elem_of_nil in Hin|].
  destruct Hn as [Hx Hn]. apply elem_of_cons in Hin as [->|Hin]; [|auto].
  unfold nx in Hx. destruct (entry q x); [eauto|done].
Qed.

(** ** Requests without their links *)

(** The part of an entry that is not its place in a list. *)
Definition content (w : io_work) : io_work := set_next 0 (set_prev 0 w).

Definition contents (q : list io_work) (l : list Z) : list io_work :=
  (fun e => content (default zero_work (entry q e))) <$> l.

(** ** Reference operations on the list of requests *)

(** A new request goes behind the last one that is expired or not later. *)
Definition stops (latest target : Z) (w : io_work) : bool :=
  (w_nsecs_target w <=? latest) || (w_nsecs_target w <=? target).

Fixpoint insert_behind {A} (stop : A -> bool) (x : A) (l : list A) : list A :=
  match l with
  | [] => [x]
  | y :: l' => if existsb stop l then y :: insert_behind stop x l' else x :: l
  end.

(** A request may leave when it is completed and its time has passed. *)
Definition finished (latest : Z) (w : io_work) : bool :=
  w_is_completed w && w_is_copied w && (w_nsecs_target w <=? latest).

(** The longest prefix whose elements satisfy [p], and the rest. *)
Fixpoint span {A} (p : A -> bool) (l : list A) : list A * list A :=
  match l with
  | [] => ([], [])
  | x :: l' => if p x then let '(a, b) := span p l' in (x :: a, b) else ([], l)
  end.

Lemma span_app {A} (p : A -> bool) l : (span p l).1 ++ (span p l).2 = l.
Proof. induction l as [|x l IH]; simpl; [done|]. destruct (p x); [|done]. destruct (span p l). simpl in *. by rewrite IH. Qed.

Lemma span_fst {A} (p : A -> bool) l : Forall (fun x => p x = true) (span p l).1.
Proof. induction l as [|x l IH]; simpl; [done|]. destruct (p x) eqn:E; [|done]. destruct (span p l). by constructor. Qed.

Lemma span_fmap {A B} (f : A -> B) (p : B -> bool) l :
  span p (f <$> l) = (f <$> (span (p ∘ f) l).1, f <$> (span (p ∘ f) l).2).
Proof.
  induction l as [|x l IH]; [done|]. rewrite fmap_cons. simpl. rewrite IH.
  destruct (p (f x)); [|done]. by destruct (span (p ∘ f) l).
Qed.

Lemma insert_behind_perm {A} stop (x : A) l : insert_behind stop x l ≡ₚ x :: l.
Proof.
  induction l as [|y l IH]; simpl; [done|]. destruct (stop y || _); [|done].
  rewrite IH. apply Permutation_swap.
Qed.

Lemma insert_behind_fmap {A B} (f : A -> B) stop x l :
  insert_behind stop (f x) (f <$> l) = f <$> insert_behind (stop ∘ f) x l.
Proof.
  assert (Hex : forall k, existsb stop (f <$> k) = existsb (stop ∘ f) k).
  { induction k as [|z k IHk]; [done|]. rewrite fmap_cons. cbn [existsb]. by rewrite IHk. }
  induction l as [|y l IH]; [done|]. rewrite fmap_cons. cbn [existsb insert_behind].
  rewrite Hex, IH. change ((stop ∘ f) y) with (stop (f y)). by destruct (stop (f y) || _).
Qed.

(** Where insertion puts the element: behind the last that stops it. *)
Lemma insert_behind_none {A} stop (x : A) l : existsb stop l = false -> insert_behind stop x l = x :: l.
Proof. destruct l as [|y l]; [done|]. simpl. by intros ->. Qed.

Lemma insert_behind_split {A} stop (x : A) l c r :
  stop c = true -> existsb stop r = false ->
  insert_behind stop x (l ++ c :: r) = l ++ c :: x :: r.
Proof.
  intros Hc Hr. induction l as [|y l IH].
  - simpl. rewrite Hc. simpl. by rewrite insert_behind_none.
  - simpl. rewrite existsb_app. simpl. rewrite Hc, orb_true_r, orb_true_r. by rewrite IH.
Qed.

(** ** The invariant of a queue *)

(** [U] are the free entries that were never used, [R] the reclaimed ones behind them
    in the free list, [Q] the requests. *)
Record queue_ok (nr : Z) (s : io_worker) (U R Q : list Z) : Prop := {
  qk_length : Z.of_nat (length (work_queue s)) = nr;
  qk_small : 1 < nr < NONE;
  qk_part : (U ++ R) ++ Q ≡ₚ seqZ 0 nr;
  qk_some_free : U ++ R <> [];
  qk_free : nseg (work_queue s) (U ++ R) NONE;
  qk_free_seq : free_seq s = first_of NONE (U ++ R);
  qk_free_end : free_seq_end s = last_of NONE (U ++ R);
  qk_next : nseg (work_queue s) Q NONE;
  qk_prev : pseg (work_queue s) NONE Q;
  qk_io_seq : io_seq s = first_of NONE Q;
  qk_io_end : Q <> [] -> io_seq_end s = last_of NONE Q;
  qk_used : forall e w, e ∈ R -> entry (work_queue s) e = Some w -> w_is_completed w = true;
  qk_copied : forall e w, e ∈ Q -> entry (work_queue s) e = Some w ->
    w_is_completed w = true -> w_is_copied w = true
}.

Section facts.
Context {nr : Z} {s : io_worker} {U R Q : list Z} (H : queue_ok nr s U R Q).

Lemma qk_index e : e ∈ (U ++ R) ++ Q <-> 0 <= e < nr.
Proof. rewrite (qk_part _ _ _ _ _ H), elem_of_seqZ. lia. Qed.

Lemma qk_entry e : e ∈ (U ++ R) ++ Q -> exists w, entry (work_queue s) e = Some w.
Proof.
  intros He. apply entry_range. rewrite (qk_length _ _ _ _ _ H). by apply qk_index.
Qed.

Lemma qk_not_none e : e ∈ (U ++ R) ++ Q -> e <> NONE /\ 0 <= e < nr.
Proof. intros He%qk_index. pose proof (qk_small _ _ _ _ _ H). lia. Qed.

Lemma qk_nodup : NoDup ((U ++ R) ++ Q).
Proof. rewrite (qk_part _ _ _ _ _ H). apply NoDup_seqZ. Qed.

Lemma qk_disjoint e : e ∈ U ++ R -> e ∈ Q -> False.
Proof. pose proof qk_nodup as (_ & Hd & _)%NoDup_app. by intros ?%Hd. Qed.

Lemma qk_lengths : Z.of_nat (length U + length R + length Q) = nr.
Proof.
  pose proof (qk_part _ _ _ _ _ H) as P%Permutation_length.
  rewrite !length_app, length_seqZ in P. pose proof (qk_small _ _ _ _ _ H). lia.
Qed.

Lemma qk_next_of e w : e ∈ Q -> entry (work_queue s) e = Some w -> w_next w = NONE \/ w_next w ∈ Q.
Proof.
  intros (l1 & l2 & E)%list_elem_of_split Hw. pose proof (qk_next _ _ _ _ _ H) as Hn.
  rewrite E in Hn. apply nseg_app in Hn as [_ [Hn _]]. unfold nx in Hn. rewrite Hw in Hn.
  injection Hn as ->. destruct l2 as [|x l2]; [by left|]. right. rewrite E. set_solver.
Qed.

Lemma qk_next_used e w : e ∈ R -> entry (work_queue s) e = Some w -> w_next w = NONE \/ w_next w ∈ R.
Proof.
  intros (l1 & l2 & E)%list_elem_of_split Hw. pose proof (qk_free _ _ _ _ _ H) as Hn.
  rewrite E in Hn. apply nseg_app in Hn as [_ Hn]. apply nseg_app in Hn as [_ [Hn _]].
  unfold nx in Hn. rewrite Hw in Hn.
  injection Hn as ->. destruct l2 as [|x l2]; [by left|]. right. rewrite E. set_solver.
Qed.
End facts.
