(* ===== verification/IoQueueOps.v ===== *)
(** * Work queues of the NVMe emulator: what the operations do to the lists

    Insertion, allocation and reclaiming keep the invariant of a queue, and act on the
    list of requests as the reference operations of [IoQueueSpec]. *)
From S2P Require Import Prelude IoQueue IoQueueSpec.

(** ** Updates of one entry *)

(** [q'] is [q] with [w] at [e]. *)
Definition updated (q q' : list io_work) (e : Z) (w : io_work) : Prop :=
  length q' = length q /\ forall x, entry q' x = if x =? e then Some w else entry q x.

Lemma wp_wq_upd X e f w (P : unit -> io_worker -> Prop) s :
  entry (work_queue s) e = Some w ->
  (forall q', updated (work_queue s) q' e (f w) -> P tt (set_work_queue q' s)) ->
  wp X (wq_mod e f) P s.
Proof.
  intros E HP. eapply wp_wq_mod; [done|]. apply HP. split; [apply length_insert|].
  intros x. by eapply entry_insert.
Qed.

Lemma updated_nx q q' e w x : updated q q' e w -> nx q' x = if x =? e then Some (w_next w) else nx q x.
Proof. intros [_ E]. unfold nx. rewrite E. by destruct (x =? e). Qed.
Lemma updated_pv q q' e w x : updated q q' e w -> pv q' x = if x =? e then Some (w_prev w) else pv q x.
Proof. intros [_ E]. unfold pv. rewrite E. by destruct (x =? e). Qed.

(** Updates that leave one of the links alone. *)
Lemma updated_nx_same q q' e w w' x :
  updated q q' e w' -> entry q e = Some w -> w_next w' = w_next w -> nx q' x = nx q x.
Proof.
  intros U E En. rewrite (updated_nx _ _ _ _ _ U). destruct (Z.eqb_spec x e) as [->|]; [|done].
  unfold nx. by rewrite E, En.
Qed.
Lemma updated_pv_same q q' e w w' x :
  updated q q' e w' -> entry q e = Some w -> w_prev w' = w_prev w -> pv q' x = pv q x.
Proof.
  intros U E En. rewrite (updated_pv _ _ _ _ _ U). destruct (Z.eqb_spec x e) as [->|]; [|done].
  unfold pv. by rewrite E, En.
Qed.

(** Only links differ. *)
Definition same_content (q q' : list io_work) : Prop :=
  length q' = length q /\ forall x, content <$> entry q' x = content <$> entry q x.

#[export] Instance same_content_refl : Reflexive same_content.
Proof. done. Qed.
#[export] Instance same_content_trans : Transitive same_content.
Proof. intros q1 q2 q3 [L E] [L' E']. split; [congruence|]. intros x. by rewrite E'. Qed.

Lemma updated_same q q' e w w' :
  updated q q' e w' -> entry q e = Some w -> content w' = content w -> same_content q q'.
Proof.
  intros [L E] He Hc. split; [done|]. intros x. rewrite E.
  destruct (Z.eqb_spec x e) as [->|]; [|done]. rewrite He. simpl. by rewrite Hc.
Qed.

Lemma same_content_entry q q' x w' :
  same_content q q' -> entry q' x = Some w' -> exists w, entry q x = Some w /\ content w' = content w.
Proof.
  intros [_ E] Hw. specialize (E x). rewrite Hw in E. destruct (entry q x) as [w|]; [|done].
  exists w. split; [done|]. by apply (inj Some) in E.
Qed.

Lemma same_contents q q' l : same_content q q' -> contents q' l = contents q l.
Proof.
  intros [_ E]. apply list_fmap_ext. intros _ x _. specialize (E x).
  destruct (entry q' x), (entry q x); simpl in *; congruence.
Qed.

Lemma content_completed w w' : content w = content w' -> w_is_completed w = w_is_completed w'.
Proof. intros E. change (w_is_completed (content w) = w_is_completed (content w')). by rewrite E. Qed.
Lemma content_copied w w' : content w = content w' -> w_is_copied w = w_is_copied w'.
Proof. intros E. change (w_is_copied (content w) = w_is_copied (content w')). by rewrite E. Qed.

(** A test of the request at an index. *)
Definition at_entry (q : list io_work) (p : io_work -> bool) (e : Z) : bool :=
  p (default zero_work (entry q e)).

Lemma at_entry_eq q p e w : entry q e = Some w -> at_entry q p e = p w.
Proof. unfold at_entry. by intros ->. Qed.

(** Decide the tests of indices in the goal. *)
Ltac index_eqs :=
  repeat match goal with
  | |- context [?a =? ?b] =>
    destruct (Z.eqb_spec a b);
      [try (exfalso; (congruence || (subst; contradiction))) | try (exfalso; congruence)]
  end.

(** ** Lists with both links *)

Record list_ok (q : list io_work) (Q : list Z) (hd tl : Z) : Prop := {
  lk_next : nseg q Q NONE;
  lk_prev : pseg q NONE Q;
  lk_hd : hd = first_of NONE Q;
  lk_tl : Q <> [] -> tl = last_of NONE Q;
  lk_valid : forall e, e ∈ Q -> e <> NONE;
  lk_nodup : NoDup Q
}.

Section insertion.
Context (s : io_worker) (e t : Z) (we : io_work) (Q : list Z).
Abbreviation q := (work_queue s).
Context (Hlist : list_ok q Q (io_seq s) (io_seq_end s)).
Context (He : entry q e = Some we) (Hnext : w_next we = NONE) (Hprev : w_prev we = NONE).
Context (Hfresh : e ∉ Q) (Hnone : e <> NONE) (Hlen : (length Q <= length q)%nat).

Abbreviation stop := (at_entry q (stops (latest_nsecs s) t)).

Lemma insert_walk_spec X n l r :
  Q = l ++ r -> existsb stop r = false -> (length l < n)%nat ->
  wp X (insert_walk n (last_of NONE l) t)
    (fun c s' => s' = s /\
       ((c = NONE /\ existsb stop Q = false) \/
        exists l1 r1, Q = l1 ++ c :: r1 /\ stop c = true /\ existsb stop r1 = false)) s.
Proof.
  revert n r. induction l as [|c l IH] using rev_ind; intros n r E Hr Hn.
  - destruct n; [simpl in Hn; lia|]. simpl. apply wp_ret. split; [done|]. left. by rewrite E.
  - rewrite length_app in Hn. simpl in Hn. destruct n; [lia|]. rewrite last_of_snoc.
    assert (Hc : c ∈ Q) by (rewrite E; set_solver).
    destruct Hlist as [HN HP _ _ HV _]. destruct (nseg_entry _ _ _ _ HN Hc) as [w Hw].
    rewrite E, <- app_assoc in HP. apply pseg_app in HP as [_ [HPc _]].
    simpl. destruct (Z.eqb_spec c NONE) as [->|_]; [by apply HV in Hc|].
    apply wp_bind. eapply wp_wq_get; [done|]. apply wp_bind, wp_get.
    pose proof (at_entry_eq _ (stops (latest_nsecs s) t) _ _ Hw) as Hs. unfold stops in Hs at 2.
    destruct (w_nsecs_target w <=? latest_nsecs s) eqn:E1; [|destruct (w_nsecs_target w <=? t) eqn:E2].
    1, 2: (apply wp_ret; split; [done|]; right; exists l, r; rewrite <- app_assoc in E; done).
    unfold pv in HPc. rewrite Hw in HPc. injection HPc as ->.
    apply (IH n (c :: r)); [by rewrite E, <- app_assoc| |lia]. simpl. by rewrite Hs, Hr.
Qed.

(** What insertion leaves behind. *)
Definition inserted (s' : io_worker) : Prop :=
  exists q' hd tl, s' = set_io_seq_end tl (set_io_seq hd (set_work_queue q' s)) /\
    list_ok q' (insert_behind stop e Q) hd tl /\ same_content q q' /\
    (forall x, x ∉ Q -> x <> e -> nx q' x = nx q x).

Lemma list_ok_entry x : x ∈ Q -> exists w, entry q x = Some w.
Proof. apply (nseg_entry _ _ _ _ (lk_next _ _ _ _ Hlist)). Qed.

Lemma list_ok_valid_insert : (forall x, x ∈ insert_behind stop e Q -> x <> NONE) /\ NoDup (insert_behind stop e Q).
Proof.
  split.
  - intros x. rewrite insert_behind_perm. intros [->|Hx]%elem_of_cons; [done|].
    by apply (lk_valid _ _ _ _ Hlist).
  - rewrite insert_behind_perm. apply NoDup_cons. split; [done|apply (lk_nodup _ _ _ _ Hlist)].
Qed.

Lemma insert_first X : Q = [] -> wp X (insert_req_sorted e t) (fun _ => inserted) s.
Proof.
  intros E. unfold insert_req_sorted. apply wp_bind, wp_get.
  pose proof (lk_hd _ _ _ _ Hlist) as Hh. rewrite E in Hh. simpl in Hh. rewrite Hh. simpl.
  wp_steps. exists q, e, e. split; [by destruct s|]. pose proof list_ok_valid_insert as [V N].
  split; [|done]. rewrite E in V, N |- *. simpl in V, N |- *.
  split; try done; simpl; unfold nx, pv; rewrite He; simpl; by rewrite ?Hnext, ?Hprev.
Qed.

Lemma insert_head X (P : unit -> io_worker -> Prop) :
  Q <> [] -> existsb stop Q = false -> (forall s', inserted s' -> P tt s') ->
  wp X (_ ← wq_mod (io_seq s) (set_prev e); _ ← wq_mod e (set_next (io_seq s)); modify (set_io_seq e)) P s.
Proof.
  intros HQ Hs HP. pose proof list_ok_valid_insert as [V N].
  unfold inserted in HP. rewrite insert_behind_none in HP, V, N by done.
  destruct Hlist as [HN Hp Hh Ht _ HD]. destruct Q as [|h Q0]; [done|]. simpl in Hh. rewrite Hh.
  apply NoDup_cons in HD as [Hh0 _]. apply not_elem_of_cons in Hfresh as [Heh He0].
  destruct (nseg_entry _ _ _ h HN) as [wh Hwh]; [apply list_elem_of_here|].
  apply wp_bind. eapply wp_wq_upd; [done|]. intros q1 U1.
  assert (He1 : entry q1 e = Some we) by (rewrite (proj2 U1); by index_eqs).
  apply wp_bind. eapply wp_wq_upd; [exact He1|]. intros q2 U2. simpl in U2. apply wp_modify, HP.
  exists q2, e, (io_seq_end s). destruct HN as [HN0 HN1], Hp as [Hp0 Hp1].
  split; [by destruct s|]. split; [split|split]; try done.
  - split; [rewrite (updated_nx _ _ _ _ _ U2); by index_eqs|].
    apply (nseg_ext q); [|done]. intros x Hx. assert (x <> e) by set_solver.
    rewrite (updated_nx _ _ _ _ _ U2), (updated_nx _ _ _ _ _ U1). index_eqs; [|done].
    subst x. unfold nx. by rewrite Hwh.
  - simpl. rewrite !(updated_pv _ _ _ _ _ U2), !(updated_pv _ _ _ _ _ U1). index_eqs.
    split; [by rewrite <- Hprev|]. split; [done|].
    apply (pseg_ext q); [|done]. intros x Hx. assert (x <> e /\ x <> h) as [] by set_solver.
    rewrite (updated_pv _ _ _ _ _ U2), (updated_pv _ _ _ _ _ U1). by index_eqs.
  - intros _. rewrite Ht by done. by rewrite !last_of_cons.
  - transitivity q1; by eapply updated_same.
  - intros x Hx Hxe. assert (x <> h) by set_solver.
    rewrite (updated_nx _ _ _ _ _ U2), (updated_nx _ _ _ _ _ U1). by index_eqs.
Qed.
(** Behind [c], the last request. *)
Lemma insert_tail X (P : unit -> io_worker -> Prop) l c :
  Q = l ++ [c] -> stop c = true -> (forall s', inserted s' -> P tt s') ->
  wp X (_ ← wq_mod e (set_prev c); _ ← modify (set_io_seq_end e); wq_mod c (set_next e)) P s.
Proof.
  intros E Hs HP. pose proof list_ok_valid_insert as [V N]. unfold inserted in HP.
  rewrite E, insert_behind_split in HP, V, N by done.
  destruct Hlist as [HN Hp Hh Ht _ HD]. rewrite E in HN, Hp, Hh, HD. rewrite E in Hfresh.
  apply NoDup_app in HD as (_ & Hd & _). apply not_elem_of_app in Hfresh as [Hel Hec].
  assert (Hecc : e <> c) by set_solver.
  apply nseg_app in HN as [HNl [HNc _]]. apply pseg_app in Hp as [Hpl [Hpc _]].
  destruct (list_ok_entry c) as [wc Hwc]; [rewrite E; set_solver|].
  apply wp_bind. eapply wp_wq_upd; [done|]. intros q1 U1. apply wp_bind, wp_modify.
  assert (Hc1 : entry q1 c = Some wc) by (rewrite (proj2 U1); by index_eqs).
  eapply wp_wq_upd; [exact Hc1|]. intros q2 U2. simpl in U2. apply HP.
  exists q2, (io_seq s), e. split; [by destruct s|]. split; [split|split]; try done.
  - apply nseg_app. split; [|simpl].
    + apply (nseg_ext q); [|done]. intros x Hx. assert (x <> e /\ x <> c) as [] by set_solver.
      rewrite (updated_nx _ _ _ _ _ U2), (updated_nx _ _ _ _ _ U1). by index_eqs.
    + rewrite !(updated_nx _ _ _ _ _ U2), !(updated_nx _ _ _ _ _ U1). index_eqs.
      split; [done|]. split; [|done]. simpl. by rewrite Hnext.
  - apply pseg_app. split; [|simpl].
    + apply (pseg_ext q); [|done]. intros x Hx. assert (x <> e /\ x <> c) as [] by set_solver.
      rewrite (updated_pv _ _ _ _ _ U2), (updated_pv _ _ _ _ _ U1). by index_eqs.
    + rewrite !(updated_pv _ _ _ _ _ U2), !(updated_pv _ _ _ _ _ U1). index_eqs.
      split; [|done]. unfold pv in Hpc. rewrite Hwc in Hpc. by injection Hpc as <-.
  - rewrite Hh. by destruct l.
  - intros _. by rewrite last_of_app.
  - transitivity q1; by eapply updated_same.
  - intros x Hx Hxe. assert (x <> c) by set_solver.
    rewrite (updated_nx _ _ _ _ _ U2), (updated_nx _ _ _ _ _ U1). by index_eqs.
Qed.

(** Behind [c] and before [d]. *)
Lemma insert_between X (P : unit -> io_worker -> Prop) l c d r :
  Q = l ++ c :: d :: r -> stop c = true -> existsb stop (d :: r) = false ->
  (forall s', inserted s' -> P tt s') ->
  wp X (_ ← wq_mod e (set_prev c); c0 ← wq_get c; _ ← wq_mod e (set_next (w_next c0));
        e0 ← wq_get e; _ ← wq_mod (w_next e0) (set_prev e); wq_mod c (set_next e)) P s.
Proof.
  intros E Hs Hr HP. pose proof list_ok_valid_insert as [V N]. unfold inserted in HP.
  rewrite E, insert_behind_split in HP, V, N by done.
  destruct Hlist as [HN Hp Hh Ht _ HD]. rewrite E in HN, Hp, Hh, HD. rewrite E in Hfresh.
  apply NoDup_app in HD as (_ & Hd & [Hcn HD]%NoDup_cons). apply NoDup_cons in HD as [Hdn _].
  apply not_elem_of_app in Hfresh as [Hel Hec].
  assert (e <> c /\ e <> d /\ c <> d) as (Hecc & Hed & Hcd) by set_solver.
  apply nseg_app in HN as [HNl (HNc & HNd & HNr)]. apply pseg_app in Hp as [Hpl (Hpc & Hpd & Hpr)].
  destruct (list_ok_entry c) as [wc Hwc]; [rewrite E; set_solver|].
  destruct (list_ok_entry d) as [wd Hwd]; [rewrite E; set_solver|].
  assert (Hcd' : w_next wc = d) by (unfold nx in HNc; rewrite Hwc in HNc; by injection HNc).
  apply wp_bind. eapply wp_wq_upd; [done|]. intros q1 U1.
  assert (Hc1 : entry q1 c = Some wc) by (rewrite (proj2 U1); by index_eqs).
  assert (He1 : entry q1 e = Some (set_prev c we)) by (rewrite (proj2 U1); by index_eqs).
  apply wp_bind. eapply wp_wq_get; [exact Hc1|]. rewrite Hcd'.
  apply wp_bind. eapply wp_wq_upd; [exact He1|]. intros q2 U2. simpl in U2.
  assert (He2 : entry q2 e = Some (set_next d (set_prev c we))) by (rewrite (proj2 U2); by index_eqs).
  assert (Hd2 : entry q2 d = Some wd) by (rewrite (proj2 U2), (proj2 U1); by index_eqs).
  apply wp_bind. eapply wp_wq_get; [exact He2|]. simpl.
  apply wp_bind. eapply wp_wq_upd; [exact Hd2|]. intros q3 U3. simpl in U3.
  assert (Hc3 : entry q3 c = Some wc) by (rewrite (proj2 U3), (proj2 U2); by index_eqs).
  eapply wp_wq_upd; [exact Hc3|]. intros q4 U4. simpl in U4. apply HP.
  exists q4, (io_seq s), (io_seq_end s). split; [by destruct s|].
  assert (Hnx : forall x, x <> e -> x <> c -> nx q4 x = nx q x).
  { intros x ? ?. rewrite (updated_nx _ _ _ _ _ U4), (updated_nx _ _ _ _ _ U3),
      (updated_nx _ _ _ _ _ U2), (updated_nx _ _ _ _ _ U1). index_eqs; [|done].
    subst x. unfold nx. by rewrite Hwd. }
  assert (Hpv : forall x, x <> e -> x <> d -> pv q4 x = pv q x).
  { intros x ? ?. rewrite (updated_pv _ _ _ _ _ U4), (updated_pv _ _ _ _ _ U3),
      (updated_pv _ _ _ _ _ U2), (updated_pv _ _ _ _ _ U1). index_eqs; [|done].
    subst x. unfold pv. by rewrite Hwc. }
  split; [split|split]; try done.
  - apply nseg_app. simpl. rewrite (Hnx d) by done.
    split; [|split; [|split; [|split]]]; [| | |exact HNd|].
    + apply (nseg_ext q); [|done]. intros x Hx. apply Hnx; set_solver.
    + rewrite (updated_nx _ _ _ _ _ U4). by index_eqs.
    + rewrite (updated_nx _ _ _ _ _ U4), (updated_nx _ _ _ _ _ U3), (updated_nx _ _ _ _ _ U2).
      by index_eqs.
    + apply (nseg_ext q); [|done]. intros x Hx. apply Hnx; set_solver.
  - apply pseg_app. simpl. rewrite (Hpv c) by done.
    split; [|split; [exact Hpc|split; [|split]]].
    + apply (pseg_ext q); [|done]. intros x Hx. apply Hpv; set_solver.
    + rewrite (updated_pv _ _ _ _ _ U4), (updated_pv _ _ _ _ _ U3), (updated_pv _ _ _ _ _ U2).
      by index_eqs.
    + rewrite (updated_pv _ _ _ _ _ U4), (updated_pv _ _ _ _ _ U3). by index_eqs.
    + apply (pseg_ext q); [|done]. intros x Hx. apply Hpv; set_solver.
  - rewrite Hh. by destruct l.
  - intros _. rewrite Ht by (rewrite E; by destruct l). rewrite E, !last_of_app, !last_of_cons. done.
  - transitivity q1; [by eapply updated_same|]. transitivity q2; [by eapply updated_same|].
    transitivity q3; by eapply updated_same.
  - intros x Hx Hxe. apply Hnx; set_solver.
Qed.

(** Insertion is insertion into the list. *)
Lemma insert_req_sorted_spec X : wp X (insert_req_sorted e t) (fun _ => inserted) s.
Proof.
  destruct (decide (Q = [])) as [E|HQ]; [by apply insert_first|].
  unfold insert_req_sorted. apply wp_bind, wp_get.
  destruct (Z.eqb_spec (io_seq s) NONE) as [Hn|_].
  { rewrite (lk_hd _ _ _ _ Hlist) in Hn.
    by destruct (lk_valid _ _ _ _ Hlist (first_of NONE Q)); [apply first_of_elem|]. }
  apply wp_bind. rewrite (lk_tl _ _ _ _ Hlist) by done. eapply wp_mono.
  { apply (insert_walk_spec _ _ Q []); [by rewrite app_nil_r|done|]. unfold walk_fuel. lia. }
  cbn beta. intros c s' [-> [[-> Hs]|(l & r & E & Hc & Hr)]].
  - rewrite Z.eqb_refl. by apply insert_head.
  - assert (Hcq : c ∈ Q) by (rewrite E; set_solver).
    destruct (Z.eqb_spec c NONE) as [->|_]; [by apply (lk_valid _ _ _ _ Hlist) in Hcq|].
    destruct (list_ok_entry c Hcq) as [wc Hwc]. apply wp_bind. eapply wp_wq_get; [done|].
    pose proof (lk_next _ _ _ _ Hlist) as HN. rewrite E in HN. apply nseg_app in HN as [_ [HNc _]].
    unfold nx in HNc. rewrite Hwc in HNc. injection HNc as ->.
    destruct r as [|d r]; simpl first_of.
    + rewrite Z.eqb_refl. by eapply insert_tail.
    + destruct (Z.eqb_spec d NONE) as [->|_].
      { exfalso. eapply (lk_valid _ _ _ _ Hlist); [|reflexivity]. rewrite E. set_solver. }
      by eapply insert_between.
Qed.
End insertion.

Lemma insert_behind_ext {A} (p p' : A -> bool) x l :
  (forall y, y ∈ l -> p y = p' y) -> insert_behind p x l = insert_behind p' x l.
Proof.
  induction l as [|y l IH]; intros E; [done|]. cbn [insert_behind].
  assert (existsb p (y :: l) = existsb p' (y :: l)) as ->.
  { clear IH. induction (y :: l) as [|z k IHk]; [done|]. cbn [existsb].
    rewrite E by apply list_elem_of_here. f_equal. apply IHk. intros. apply E. by apply list_elem_of_further. }
  destruct (existsb p' (y :: l)); [|done]. f_equal. apply IH. intros. apply E. by apply list_elem_of_further.
Qed.

Lemma insert_behind_nonempty {A} p (x : A) l : insert_behind p x l <> [].
Proof. intros E%(f_equal length). rewrite (Permutation_length (insert_behind_perm p x l)) in E. done. Qed.

Lemma queue_ok_list nr s U R Q :
  queue_ok nr s U R Q -> list_ok (work_queue s) Q (io_seq s) (io_seq_end s).
Proof.
  intros H. split; try apply H.
  - intros e He. apply (qk_not_none H). set_solver.
  - pose proof (qk_nodup H) as (_ & _ & ?)%NoDup_app. done.
Qed.

(** ** Placing a request *)

(** What is written to an entry before it is inserted. *)
Definition fills (fill : io_work -> io_work) : Prop :=
  forall w, w_next (fill w) = NONE /\ w_prev (fill w) = NONE /\ w_is_completed (fill w) = false.

Lemma fills_request rq now : fills (fill_request rq now).
Proof. done. Qed.
Lemma fills_internal op now : fills (fill_internal op now).
Proof. done. Qed.

(** The first free entry leaves the free list. *)
Definition free_pop (U R : list Z) (e : Z) (U' R' : list Z) : Prop :=
  (U = e :: U' /\ R = R') \/ (U = [] /\ U' = [] /\ R = e :: R').

Definition placed (nr : Z) (fill : io_work -> io_work) (t : Z) (s : io_worker) (U R Q : list Z)
    (b : bool) (s' : io_worker) : Prop :=
  if b then
    exists e w U' R',
      free_pop U R e U' R' /\ entry (work_queue s) e = Some w /\
      queue_ok nr s' U' R' (insert_behind (at_entry (work_queue s) (stops (latest_nsecs s) t)) e Q) /\
      content <$> entry (work_queue s') e = Some (content (fill w)) /\
      (forall x, x <> e -> content <$> entry (work_queue s') x = content <$> entry (work_queue s) x) /\
      latest_nsecs s' = latest_nsecs s
  else s' = s /\ length (U ++ R) = 1%nat.

Section operations.
Context {nr : Z} {s : io_worker} {U R Q : list Z} (H : queue_ok nr s U R Q).
Abbreviation q := (work_queue s).

Lemma take_free_entry_spec X :
  wp X (take_free_entry nr)
    (fun r s' => match r with
     | None => s' = s /\ length (U ++ R) = 1%nat
     | Some e => exists x F, U ++ R = e :: x :: F /\ s' = set_free_seq x s
     end) s.
Proof.
  unfold take_free_entry. apply wp_bind, wp_get.
  destruct (U ++ R) as [|e F] eqn:EF; [by destruct (qk_some_free _ _ _ _ _ H)|].
  destruct (qk_entry H e) as [w Hw]; [rewrite EF; set_solver|].
  rewrite (qk_free_seq _ _ _ _ _ H), EF. apply wp_bind. eapply wp_wq_get; [exact Hw|].
  pose proof (qk_free _ _ _ _ _ H) as HF. rewrite EF in HF. destruct HF as [He _].
  unfold nx in He. rewrite Hw in He. injection He as ->.
  destruct F as [|x F]; simpl first_of.
  - replace (nr <=? NONE) with true by (symmetry; apply Z.leb_le; pose proof (qk_small _ _ _ _ _ H); lia).
    by apply wp_ret.
  - destruct (qk_not_none H x) as [_ Hx]; [rewrite EF; set_solver|].
    replace (nr <=? x) with false by lia. apply wp_bind, wp_modify, wp_ret. by exists x, F.
Qed.

(** The parts of the free list when its head is taken. *)
Lemma free_pop_app e F : U ++ R = e :: F -> exists U' R', free_pop U R e U' R' /\ U' ++ R' = F.
Proof.
  intros E. destruct U as [|u U']; simpl in E.
  - subst R. exists [], F. split; [by right|done].
  - injection E as -> E. exists U', R. split; [by left|done].
Qed.

Lemma place_work_spec X fill t :
  fills fill -> wp X (place_work nr fill t) (placed nr fill t s U R Q) s.
Proof.
  intros Hfill. unfold place_work. apply wp_bind. eapply wp_mono; [apply take_free_entry_spec|].
  intros [e|] s1; [|done]. intros (x & F & EF & ->).
  destruct (free_pop_app _ _ EF) as (U' & R' & Hpop & EF').
  assert (Hin : e ∈ (U ++ R) ++ Q) by (rewrite EF; set_solver).
  destruct (qk_entry H e Hin) as [w Hw]. destruct (qk_not_none H e Hin) as [HeN He].
  destruct (Hfill w) as (Hfn & Hfp & Hfc).
  apply wp_bind. eapply wp_wq_upd; [exact Hw|]. intros q1 U1. simpl in U1.
  pose proof (qk_nodup H) as HD. rewrite EF in HD. apply NoDup_app in HD as (HDF & HD & _).
  apply NoDup_cons in HDF as [HeF _]. assert (HeQ : e ∉ Q) by (apply HD; set_solver).
  assert (Hnx : forall y, y <> e -> nx q1 y = nx q y)
    by (intros y Hy; rewrite (updated_nx _ _ _ _ _ U1); by index_eqs).
  assert (Hpv : forall y, y <> e -> pv q1 y = pv q y)
    by (intros y Hy; rewrite (updated_pv _ _ _ _ _ U1); by index_eqs).
  pose proof (queue_ok_list _ _ _ _ _ H) as HL.
  apply wp_bind. eapply wp_mono.
  { apply (insert_req_sorted_spec (set_work_queue q1 (set_free_seq x s)) e t (fill w) Q); try done.
    - split; try apply HL.
      + apply (nseg_ext q); [|apply HL]. intros y Hy. apply Hnx. set_solver.
      + apply (pseg_ext q); [|apply HL]. intros y Hy. apply Hpv. set_solver.
    - simpl. rewrite (proj2 U1). by index_eqs.
    - simpl. rewrite (proj1 U1). pose proof (qk_lengths H). pose proof (qk_length _ _ _ _ _ H). lia. }
  cbn beta. intros _ s2 (q2 & hd & tl & -> & HL2 & Hc2 & Hn2). simpl in HL2, Hc2, Hn2.
  rewrite (insert_behind_ext _ (at_entry q (stops (latest_nsecs s) t))) in HL2.
  2: { intros y Hy. unfold at_entry. rewrite (proj2 U1). by index_eqs. }
  apply wp_ret. exists e, w, U', R'. split; [done|]. split; [done|].
  set (Q' := insert_behind _ e Q) in *. assert (HQ' : Q' ≡ₚ e :: Q) by apply insert_behind_perm.
  assert (Hout : forall y, y <> e -> content <$> entry q2 y = content <$> entry q y).
  { intros y Hy. rewrite (proj2 Hc2), (proj2 U1). by index_eqs. }
  assert (Hxe : content <$> entry q2 e = Some (content (fill w))).
  { rewrite (proj2 Hc2), (proj2 U1). by index_eqs. }
  split; [|done].
  assert (HFnx : forall y, y ∈ x :: F -> nx q2 y = nx q y).
  { intros y Hy. rewrite Hn2; [apply Hnx; set_solver|apply HD; set_solver|set_solver]. }
  split; simpl; rewrite ?EF'; try apply HL2; try done.
  - rewrite (proj1 Hc2), (proj1 U1). apply H.
  - apply H.
  - rewrite HQ'. rewrite <- Permutation_middle, app_comm_cons, <- EF. apply H.
  - apply (nseg_ext q); [done|]. pose proof (qk_free _ _ _ _ _ H) as HF. rewrite EF in HF. apply HF.
  - rewrite (qk_free_end _ _ _ _ _ H), EF. by rewrite !last_of_cons.
  - intros y wy Hy Hwy. assert (Hyr : y ∈ R) by (destruct Hpop as [[_ ->]|(_ & _ & ->)]; set_solver).
    assert (Hye : y <> e).
    { intros ->. apply HeF. rewrite <- EF'. set_solver. }
    specialize (Hout y Hye). rewrite Hwy in Hout. destruct (entry q y) as [w0|] eqn:E0; [|done].
    apply (inj Some) in Hout. rewrite (content_completed _ _ Hout). by eapply (qk_used _ _ _ _ _ H).
  - intros y wy. rewrite HQ'. intros [->|Hy]%elem_of_cons Hwy Hcm.
    + rewrite Hwy in Hxe. apply (inj Some) in Hxe. apply content_completed in Hxe. congruence.
    + assert (Hye : y <> e) by (by intros ->). specialize (Hout y Hye). rewrite Hwy in Hout.
      destruct (entry q y) as [w0|] eqn:E0; [|done]. apply (inj Some) in Hout.
      rewrite (content_copied _ _ Hout). apply (qk_copied _ _ _ _ _ H y); try done.
      by rewrite <- (content_completed _ _ Hout).
Qed.
(** ** Reclaiming *)

Abbreviation done_at := (at_entry q (finished (latest_nsecs s))).

Lemma reclaim_scan_spec X n a b :
  Q = a ++ b -> (length b < n)%nat ->
  wp X (reclaim_scan n (first_of NONE b) (last_of NONE a))
    (fun r s' => s' = s /\ r = last_of NONE (a ++ (span done_at b).1)) s.
Proof.
  revert n a. induction b as [|c b IH]; intros n a E Hn; (destruct n; [simpl in Hn; lia|]).
  - simpl. by rewrite app_nil_r.
  - assert (Hc : c ∈ Q) by (rewrite E; set_solver).
    destruct (qk_entry H c) as [w Hw]; [set_solver|].
    destruct (qk_not_none H c) as [HcN _]; [set_solver|].
    pose proof (qk_next _ _ _ _ _ H) as HN. rewrite E in HN. apply nseg_app in HN as [_ [HNc _]].
    unfold nx in HNc. rewrite Hw in HNc. injection HNc as HNc.
    simpl first_of. cbn [reclaim_scan span]. destruct (Z.eqb_spec c NONE); [done|].
    apply wp_bind. eapply wp_wq_get; [exact Hw|]. apply wp_bind, wp_get.
    rewrite (at_entry_eq _ _ _ _ Hw). fold (finished (latest_nsecs s) w).
    destruct (finished (latest_nsecs s) w).
    + rewrite HNc. simpl in Hn. 
      assert (IH' := IH n (a ++ [c]) ltac:(by rewrite E, <- app_assoc) ltac:(lia)).
      rewrite last_of_snoc in IH'. eapply wp_mono; [apply IH'|]. cbn beta. intros r s' [-> ->].
      split; [done|]. destruct (span done_at b). simpl. by rewrite <- app_assoc.
    + apply wp_ret. simpl. by rewrite app_nil_r.
Qed.

(** The request behind the reclaimed ones becomes the first. *)
Lemma unlink X (a b : list Z) (P : unit -> io_worker -> Prop) s0 :
  Q = a ++ b -> work_queue s0 = q ->
  (forall q1, same_content q q1 -> (forall x, nx q1 x = nx q x) ->
     (forall x, x ∉ b -> entry q1 x = entry q x) -> pseg q1 NONE b ->
     P tt (set_work_queue q1 s0)) ->
  wp X (if first_of NONE b =? NONE then mret tt else wq_mod (first_of NONE b) (set_prev NONE)) P s0.
Proof.
  intros E E0 HP. destruct b as [|d b]; simpl.
  { apply wp_ret. assert (set_work_queue q s0 = s0) as <- by (rewrite <- E0; by destruct s0).
    by apply HP. }
  assert (Hd : d ∈ Q) by (rewrite E; set_solver).
  destruct (qk_entry H d) as [wd Hwd]; [set_solver|]. rewrite <- E0 in Hwd.
  destruct (Z.eqb_spec d NONE) as [->|_]; [by destruct (qk_not_none H NONE); [set_solver|]|].
  pose proof (qk_nodup H) as (_ & _ & HD)%NoDup_app. rewrite E in HD.
  apply NoDup_app in HD as (_ & _ & [Hdb _]%NoDup_cons).
  eapply wp_wq_upd; [exact Hwd|]. intros q1 U1. rewrite E0 in U1, Hwd. apply HP.
  - by eapply updated_same.
  - intros x. rewrite (updated_nx _ _ _ _ _ U1). index_eqs; [|done]. subst x. unfold nx. by rewrite Hwd.
  - intros x Hx. rewrite (proj2 U1). assert (x <> d) by set_solver. by index_eqs.
  - pose proof (qk_prev _ _ _ _ _ H) as Hp. rewrite E in Hp. apply pseg_app in Hp as [_ [_ Hp]].
    simpl. rewrite (updated_pv _ _ _ _ _ U1). index_eqs. split; [done|].
    apply (pseg_ext q); [|done]. intros x Hx. assert (x <> d) by set_solver.
    rewrite (updated_pv _ _ _ _ _ U1). by index_eqs.
Qed.

(** Reclaiming [a], the entries from [f] to [z], with [b] left. *)
Section relinking.
Context (a a' b : list Z) (z f : Z).
Context (EQ : Q = a ++ b) (Ea : a = a' ++ [z]) (Ef : first_of NONE a = f).
Abbreviation fe := (free_seq_end s).

Lemma relink_last : z ∈ a /\ f ∈ a.
Proof.
  split; [rewrite Ea; apply elem_of_app; right; apply list_elem_of_here|].
  rewrite <- Ef. apply first_of_elem. rewrite Ea. by destruct a'.
Qed.

Lemma relink_apart x : x ∈ a -> x ∈ Q /\ (x ∉ b) /\ x <> fe.
Proof.
  intros Hx. assert (HxQ : x ∈ Q) by (rewrite EQ; apply elem_of_app; by left).
  split; [done|]. split.
  - pose proof (qk_nodup H) as (_ & _ & HD)%NoDup_app. rewrite EQ in HD.
    apply NoDup_app in HD as (_ & HD & _). auto.
  - intros ->. eapply (qk_disjoint H); [|exact HxQ]. rewrite (qk_free_end _ _ _ _ _ H).
    apply last_of_elem, H.
Qed.

Lemma relink_rest x : x ∈ b -> x ∈ Q /\ (x ∉ a) /\ x <> fe.
Proof.
  intros Hx. assert (HxQ : x ∈ Q) by (rewrite EQ; apply elem_of_app; by right).
  split; [done|]. split; [intros Ha%relink_apart; tauto|].
  intros ->. eapply (qk_disjoint H); [|exact HxQ]. rewrite (qk_free_end _ _ _ _ _ H).
  apply last_of_elem, H.
Qed.

Lemma relink_free : exists F0, U ++ R = F0 ++ [fe].
Proof.
  pose proof (qk_some_free _ _ _ _ _ H) as HF0. exists (removelast (U ++ R)).
  rewrite (qk_free_end _ _ _ _ _ H). rewrite (app_removelast_last NONE HF0) at 1. do 2 f_equal.
  destruct (exists_last HF0) as (l & x & ->). by rewrite List.last_last, last_of_snoc.
Qed.

(** The links of the queue [q4] after reclaiming. *)
Context (q4 : list io_work) (Hsame : same_content q q4) (Hprev : pseg q4 NONE b).
Context (Hnx : forall x, nx q4 x = if x =? fe then Some f else if x =? z then Some NONE else nx q x).

Lemma relink_free_chain : nseg q4 ((U ++ R) ++ a) NONE.
Proof.
  destruct relink_free as [F0 EF]. destruct relink_last as [Hza _].
  destruct (relink_apart z Hza) as (HzQ & _ & Hzfe).
  pose proof (qk_nodup H) as (HDF & _ & HDQ)%NoDup_app. pose proof (qk_free _ _ _ _ _ H) as HF.
  rewrite EF in HF, HDF |- *. apply nseg_app in HF as [HF _]. apply NoDup_app in HDF as (_ & HDF & _).
  pose proof (qk_next _ _ _ _ _ H) as HN. rewrite EQ, Ea, <- app_assoc in HN.
  apply nseg_app in HN as [HNa _]. rewrite EQ in HDQ. apply NoDup_app in HDQ as (HDa & _ & _).
  rewrite Ea in HDa. apply NoDup_app in HDa as (_ & HDa & _).
  rewrite <- app_assoc. apply nseg_app. split; [|simpl; split; [|rewrite Ea; apply nseg_app; split; [|simpl]]].
  - apply (nseg_ext q); [|done]. intros x Hx. rewrite Hnx.
    assert (x <> fe) by (intros ->; apply (HDF _ Hx), list_elem_of_here).
    assert (x <> z).
    { intros ->. apply (qk_disjoint H z); [|done]. rewrite EF. apply elem_of_app. by left. }
    by index_eqs.
  - rewrite Hnx. index_eqs. by rewrite Ef.
  - apply (nseg_ext q); [|done]. intros x Hx. rewrite Hnx.
    assert (x <> z) by (intros ->; apply (HDa _ Hx), list_elem_of_here).
    assert (x <> fe) by (apply relink_apart; rewrite Ea; apply elem_of_app; by left). by index_eqs.
  - rewrite Hnx. by index_eqs.
Qed.

Lemma relink_ok : Forall (fun e => done_at e = true) a ->
  queue_ok nr (set_free_seq_end z (set_work_queue q4 (set_io_seq (first_of NONE b) s))) U (R ++ a) b.
Proof.
  intros Hdone. pose proof (qk_next _ _ _ _ _ H) as HN. rewrite EQ in HN. apply nseg_app in HN as [_ HNb].
  destruct relink_last as [Hza _]. split; simpl; rewrite ?(app_assoc U R a); try done.
  - rewrite (proj1 Hsame). apply H.
  - apply H.
  - rewrite <- (app_assoc (U ++ R)), <- EQ. apply H.
  - intros E. apply app_nil in E as [E _]. by apply (qk_some_free _ _ _ _ _ H).
  - apply relink_free_chain.
  - rewrite first_of_app, (qk_free_seq _ _ _ _ _ H). pose proof (qk_some_free _ _ _ _ _ H).
    by destruct (U ++ R).
  - by rewrite Ea, app_assoc, last_of_snoc.
  - apply (nseg_ext q); [|done]. intros x Hx. destruct (relink_rest x Hx) as (_ & Hxa & Hxf).
    assert (x <> z) by (by intros ->). rewrite Hnx. by index_eqs.
  - intros Hb. rewrite (qk_io_end _ _ _ _ _ H), EQ by (rewrite EQ, Ea; by destruct a').
    rewrite last_of_app. destruct b; [done|]. by rewrite !last_of_cons.
  - intros x w [Hx|Hx]%elem_of_app Hw; destruct (same_content_entry _ _ _ _ Hsame Hw) as (w0 & Hw0 & Ec);
      rewrite (content_completed _ _ Ec); [by eapply (qk_used _ _ _ _ _ H)|].
    rewrite Forall_forall in Hdone. specialize (Hdone x Hx). rewrite (at_entry_eq _ _ _ _ Hw0) in Hdone.
    unfold finished in Hdone. bool_to_prop. done.
  - intros x w Hx Hw. destruct (same_content_entry _ _ _ _ Hsame Hw) as (w0 & Hw0 & Ec).
    rewrite (content_completed _ _ Ec), (content_copied _ _ Ec). apply (qk_copied _ _ _ _ _ H x); [|done].
    by apply relink_rest.
Qed.
End relinking.

Lemma relink X (P : unit -> io_worker -> Prop) a z a' f b :
  Q = a ++ b -> a = a' ++ [z] -> first_of NONE a = f -> Forall (fun e => done_at e = true) a ->
  (forall s', queue_ok nr s' U (R ++ a) b -> same_content q (work_queue s') ->
     latest_nsecs s' = latest_nsecs s -> P tt s') ->
  wp X (w ← wq_get z;
    _ ← modify (set_io_seq (w_next w));
    _ ← (if w_next w =? NONE then mret tt else wq_mod (w_next w) (set_prev NONE));
    _ ← wq_mod z (set_next NONE);
    s ← get;
    _ ← wq_mod f (set_prev (free_seq_end s));
    _ ← wq_mod (free_seq_end s) (set_next f);
    modify (set_free_seq_end z)) P s.
Proof.
  intros EQ Ea Ef Hdone HP. destruct (relink_last _ _ _ _ Ea Ef) as [Hza Hfa].
  destruct (relink_apart _ _ EQ z Hza) as (HzQ & Hzb & Hfez), (relink_apart _ _ EQ f Hfa) as (HfQ & Hfb & Hfef).
  assert (Hfe : free_seq_end s ∈ U ++ R) by (rewrite (qk_free_end _ _ _ _ _ H); apply last_of_elem, H).
  assert (Hfeb : free_seq_end s ∉ b) by (intros Hx%(relink_rest _ _ EQ); tauto).
  destruct (qk_entry H z) as [wz Hwz]; [apply elem_of_app; by right|].
  destruct (qk_entry H f) as [wf Hwf]; [apply elem_of_app; by right|].
  destruct (qk_entry H (free_seq_end s)) as [we Hwe]; [apply elem_of_app; by left|].
  pose proof (qk_next _ _ _ _ _ H) as HN. rewrite EQ, Ea, <- app_assoc in HN.
  apply nseg_app in HN as [_ [HNz _]]. apply wp_bind. eapply wp_wq_get; [exact Hwz|].
  unfold nx in HNz. rewrite Hwz in HNz. injection HNz as ->.
  apply wp_bind, wp_modify, wp_bind. eapply unlink; [exact EQ|done|]. intros q1 C1 N1 E1 P1.
  assert (Hwz1 : entry q1 z = Some wz) by (by rewrite E1).
  apply wp_bind. eapply (wp_wq_upd _ _ _ wz); [exact Hwz1|]. intros q2 U2.
  apply wp_bind, wp_get. simpl. simpl in U2.
  assert (exists w2, entry q2 f = Some w2) as [w2 Hw2].
  { rewrite (proj2 U2), E1 by done. rewrite Hwf. destruct (f =? z); eauto. }
  apply wp_bind. eapply wp_wq_upd; [exact Hw2|]. intros q3 U3. simpl in U3.
  assert (Hw3 : entry q3 (free_seq_end s) = Some we).
  { rewrite (proj2 U3), (proj2 U2), E1 by done. by index_eqs. }
  apply wp_bind. eapply wp_wq_upd; [exact Hw3|]. intros q4 U4. simpl in U4. apply wp_modify.
  assert (C4 : same_content q q4).
  { transitivity q1; [done|]. transitivity q2; [by eapply updated_same|].
    transitivity q3; by eapply updated_same. }
  apply HP; [|done|done]. apply (relink_ok a a' b z f); try done.
  - apply (pseg_ext q1); [|done]. intros x Hx. assert (x <> f) by (by intros ->).
    rewrite (updated_pv_same _ _ _ _ _ _ U4 Hw3) by done. rewrite (updated_pv _ _ _ _ _ U3).
    index_eqs. by apply (updated_pv_same _ _ _ _ _ _ U2 Hwz1).
  - intros x. rewrite (updated_nx _ _ _ _ _ U4), (updated_nx_same _ _ _ _ _ _ U3 Hw2) by done.
    by rewrite (updated_nx _ _ _ _ _ U2), N1.
Qed.

(** Reclaiming moves the finished requests at the head to the end of the free list. *)
Lemma reclaim_worker_spec X :
  wp X reclaim_worker (fun _ s' =>
    queue_ok nr s' U (R ++ (span done_at Q).1) (span done_at Q).2 /\
    same_content q (work_queue s') /\ latest_nsecs s' = latest_nsecs s) s.
Proof.
  unfold reclaim_worker. apply wp_bind, wp_get. apply wp_bind.
  rewrite (qk_io_seq _ _ _ _ _ H). eapply wp_mono.
  { apply (reclaim_scan_spec X _ [] Q); [done|]. pose proof (qk_lengths H).
    pose proof (qk_length _ _ _ _ _ H). unfold walk_fuel. lia. }
  cbn beta. intros r s' [-> ->]. rewrite app_nil_l.
  pose proof (span_app done_at Q) as E. pose proof (span_fst done_at Q) as Hd.
  destruct (span done_at Q) as [a b]. simpl in *. destruct (decide (a = [])) as [->|Ha].
  { unfold last_of. simpl. apply wp_ret. simpl in E. subst b. by rewrite app_nil_r. }
  destruct (exists_last Ha) as (a' & z & Ea). assert (Hz : z ∈ Q) by (rewrite <- E, Ea; set_solver).
  rewrite Ea, last_of_snoc, <- Ea.
  destruct (Z.eqb_spec z NONE) as [->|_]; [by destruct (qk_not_none H NONE); [set_solver|]|].
  eapply (relink X _ a z a'); [done|done| |done|auto]. by rewrite <- E, first_of_app; destruct a.
Qed.
End operations.
