(* ===== verification/IoWorker.v ===== *)
(** * Work queues of the NVMe emulator: one worker

    What a queue holds, where its worker may stand, and how every operation of the
    dispatcher and every part of a visit keep the invariant and the open requests.  A
    worker may stand at an entry while the dispatcher reclaims it and gives it to
    another request. *)
From S2P Require Import Prelude IoQueue IoQueueSpec IoQueueOps.

(** ** What a queue holds *)

(** The entries from [e] on. *)
Fixpoint follow (fuel : nat) (q : list io_work) (e : Z) : list Z :=
  match fuel with
  | O => []
  | S n => match entry q e with None => [] | Some w => e :: follow n q (w_next w) end
  end.

Definition requests (s : io_worker) : list Z := follow (walk_fuel s) (work_queue s) (io_seq s).

(** What identifies a request. *)
Inductive ticket : Set :=
| Request (sqid cqid sq_entry command_id nsecs_start nsecs_target : Z)
| Internal (sqid nsecs_target write_buffer buffs_to_release : Z).

Definition ticket_of (w : io_work) : ticket :=
  if w_is_internal w
  then Internal (w_sqid w) (w_nsecs_target w) (w_write_buffer w) (w_buffs_to_release w)
  else Request (w_sqid w) (w_cqid w) (w_sq_entry w) (w_command_id w) (w_nsecs_start w)
         (w_nsecs_target w).

Definition request_ticket (rq : io_request) : ticket :=
  Request (rq_sqid rq) (rq_cqid rq) (rq_sq_entry rq) (rq_command_id rq) (rq_nsecs_start rq)
    (rq_nsecs_target rq).
Definition internal_ticket (op : internal_op) : ticket :=
  Internal (op_sqid op) (op_nsecs_target op) (op_write_buffer op) (op_buffs_to_release op).

(** The requests of a list of entries that are not completed. *)
Definition open_tickets (q : list io_work) (l : list Z) : list ticket :=
  l ≫= fun e => match entry q e with
                | Some w => if w_is_completed w then [] else [ticket_of w]
                | None => []
                end.

Definition pending (s : io_worker) : list ticket := open_tickets (work_queue s) (requests s).

Lemma follow_nseg q l n :
  nseg q l NONE -> entry q NONE = None -> (length l < n)%nat -> follow n q (first_of NONE l) = l.
Proof.
  intros H HN. revert n. induction l as [|e l IH]; intros n Hn; (destruct n; [simpl in Hn; lia|]).
  - simpl. by rewrite HN.
  - destruct H as [He Hl]. simpl. unfold nx in He. destruct (entry q e) as [w|]; [|done].
    injection He as ->. f_equal. apply IH; [done|]. simpl in Hn. lia.
Qed.

Lemma queue_ok_requests nr s U R Q : queue_ok nr s U R Q -> requests s = Q.
Proof.
  intros H. unfold requests. rewrite (qk_io_seq _ _ _ _ _ H).
  pose proof (qk_length _ _ _ _ _ H) as HL. pose proof (qk_small _ _ _ _ _ H).
  apply follow_nseg; [apply H| |].
  - destruct (entry (work_queue s) NONE) as [w|] eqn:E; [|done]. apply entry_Some in E as [E _]. lia.
  - pose proof (qk_lengths H). unfold walk_fuel. lia.
Qed.

Lemma ticket_content w w' : content w = content w' -> ticket_of w = ticket_of w'.
Proof. intros E. change (ticket_of (content w) = ticket_of (content w')). by rewrite E. Qed.

Lemma open_tickets_content q q' l :
  (forall x, x ∈ l -> content <$> entry q' x = content <$> entry q x) ->
  open_tickets q' l = open_tickets q l.
Proof.
  induction l as [|e l IH]; intros E; [done|]. unfold open_tickets in *. cbn [mbind list_bind].
  rewrite IH by (intros; apply E; by apply list_elem_of_further). f_equal.
  specialize (E e ltac:(apply list_elem_of_here)).
  destruct (entry q' e) as [w|], (entry q e) as [w'|]; try done. apply (inj Some) in E.
  by rewrite (content_completed _ _ E), (ticket_content _ _ E).
Qed.

#[export] Instance open_tickets_perm q : Proper ((≡ₚ) ==> (≡ₚ)) (open_tickets q).
Proof. intros l l' E. unfold open_tickets. by rewrite E. Qed.

(** ** Start-up *)

Lemma init_worker_entry nr id e w :
  entry (work_queue (init_worker nr id)) e = Some w <->
  0 <= e < nr /\
  w = set_prev (u32 (e - 1)) (set_next (if e =? nr - 1 then NONE else e + 1) zero_work).
Proof.
  rewrite entry_Some. simpl. rewrite length_fmap, length_seqZ, list_lookup_fmap, fmap_Some. split.
  - intros [He (x & Hx & ->)]. apply lookup_seqZ in Hx as [-> Hx]. split; [lia|].
    by replace (0 + Z.of_nat (Z.to_nat e)) with e by lia.
  - intros [He ->]. split; [lia|]. exists e. split; [|done]. apply lookup_seqZ. lia.
Qed.

Lemma init_worker_ok nr id : 1 < nr < NONE -> queue_ok nr (init_worker nr id) (seqZ 0 nr) [] [].
Proof.
  intros Hnr.
  assert (Hseg : forall n, (n <= Z.to_nat nr)%nat ->
            nseg (work_queue (init_worker nr id)) (seqZ (nr - Z.of_nat n) (Z.of_nat n)) NONE).
  { induction n as [|n IH]; intros Hn; [done|]. rewrite seqZ_cons by lia. split.
    - unfold nx. destruct (entry_range (work_queue (init_worker nr id)) (nr - Z.of_nat (S n))) as [w Hw].
      { simpl. rewrite length_fmap, length_seqZ. lia. }
      rewrite Hw. apply init_worker_entry in Hw as [_ ->]. simpl. f_equal.
      destruct n as [|n]; [by replace (nr - Z.of_nat 1 =? nr - 1) with true by bool_lia|].
      replace (nr - Z.of_nat (S (S n)) =? nr - 1) with false by bool_lia.
      rewrite seqZ_cons by lia. simpl. lia.
    - replace (Z.succ (nr - Z.of_nat (S n))) with (nr - Z.of_nat n) by lia.
      replace (Z.pred (Z.of_nat (S n))) with (Z.of_nat n) by lia. apply IH. lia. }
  specialize (Hseg (Z.to_nat nr) ltac:(lia)). rewrite Z2Nat.id, Z.sub_diag in Hseg by lia.
  assert (Hlast : seqZ 0 nr = seqZ 0 (nr - 1) ++ [nr - 1]).
  { replace nr with ((nr - 1) + 1) at 1 by lia. rewrite seqZ_app by lia. f_equal. }
  split; rewrite ?app_nil_r; try done.
  - simpl. rewrite length_fmap, length_seqZ. lia.
  - rewrite Hlast. by destruct (seqZ 0 (nr - 1)).
  - simpl. by rewrite seqZ_cons by lia.
  - simpl. by rewrite Hlast, last_of_snoc.
  - intros e w He. by apply elem_of_nil in He.
  - intros e w He. by apply elem_of_nil in He.
Qed.

(** ** One worker and its queue *)

(** Where a worker is in its loop: before a pass, at an entry, about to complete it,
    about to leave it. *)
Inductive place : Set :=
| PStart
| PAt (curr : Z)
| PDue (curr curr_nsecs : Z)
| PNext (curr : Z).

Definition arrive (curr : Z) : place := if curr =? NONE then PStart else PAt curr.

Definition worker_step {E} `{WorkerEnv E} (pc : place) (now : Z) : prog (io_worker * E) place :=
  match pc with
  | PStart => s ← on_worker get; mret (arrive (io_seq s))
  | PAt curr => todo ← visit_copy curr now; mret (if todo : bool then PDue curr now else PNext curr)
  | PDue curr t => _ ← visit_complete curr t; mret (PNext curr)
  | PNext curr => next ← visit_next curr; mret (arrive next)
  end.

(** A worker stands at a request, or at an entry that was reclaimed under it; it
    completes a request that is still there and not completed. *)
Definition place_ok (q : list io_work) (R Q : list Z) (pc : place) : Prop :=
  match pc with
  | PStart => True
  | PAt c | PNext c => c ∈ Q \/ c ∈ R
  | PDue c _ => c ∈ Q /\ exists w, entry q c = Some w /\ w_is_completed w = false /\ w_is_copied w = true
  end.

(** Requests are in the order of their times, except behind those that were due by
    time [hi]. *)
Definition in_order (hi x y : Z) : Prop := x <= y \/ x <= hi.

Definition targets (q : list io_work) (l : list Z) : list Z :=
  (fun e => w_nsecs_target (default zero_work (entry q e))) <$> l.

Definition worker_ok (nr hi : Z) (s : io_worker) (pc : place) : Prop :=
  exists U R Q, queue_ok nr s U R Q /\ place_ok (work_queue s) R Q pc /\
    StronglySorted (in_order hi) (targets (work_queue s) Q) /\ latest_nsecs s <= hi.

Lemma in_order_mono hi hi' l : hi <= hi' -> StronglySorted (in_order hi) l -> StronglySorted (in_order hi') l.
Proof.
  intros Hh. induction 1 as [|x l _ IH Hx]; constructor; [done|].
  eapply Forall_impl; [exact Hx|]. unfold in_order. intros y ?. lia.
Qed.

Lemma targets_content q q' l :
  (forall x, x ∈ l -> content <$> entry q' x = content <$> entry q x) -> targets q' l = targets q l.
Proof.
  intros E. apply list_fmap_ext. intros i x Hx. specialize (E x (list_elem_of_lookup_2 _ _ _ Hx)).
  destruct (entry q' x) as [w|], (entry q x) as [w'|]; try done. apply (inj Some) in E. simpl.
  change (w_nsecs_target (content w) = w_nsecs_target (content w')). by rewrite E.
Qed.

(** Insertion keeps the order. *)
Lemma insert_in_order hi latest q e t Q :
  latest <= hi -> e ∉ Q -> w_nsecs_target (default zero_work (entry q e)) = t ->
  StronglySorted (in_order hi) (targets q Q) ->
  StronglySorted (in_order hi) (targets q (insert_behind (at_entry q (stops latest t)) e Q)).
Proof.
  intros Hl He Ht. induction Q as [|c Q IH]; intros HS; simpl.
  { constructor; constructor. }
  apply not_elem_of_cons in He as [_ He]. unfold targets in HS. rewrite fmap_cons in HS.
  inversion_clear HS as [|? ? HS' Hc].
  destruct (at_entry q (stops latest t) c || existsb _ Q) eqn:E.
  - unfold targets. rewrite fmap_cons. constructor; [by apply IH|].
    rewrite insert_behind_perm, fmap_cons. constructor; [|done]. rewrite Ht.
    unfold at_entry, stops, in_order in *. apply orb_true_iff in E as [E|E]; [lia|].
    apply existsb_exists in E as (y & Hy & E). rewrite Forall_fmap, Forall_forall in Hc.
    apply list_elem_of_In in Hy. specialize (Hc y Hy). simpl in Hc. lia.
  - unfold targets. rewrite !fmap_cons. constructor; [by constructor|]. rewrite Ht.
    apply orb_false_iff in E as [E1 E2]. constructor.
    + unfold at_entry, stops, in_order in *. lia.
    + apply Forall_fmap, Forall_forall. intros y Hy. simpl.
      assert (Hn : at_entry q (stops latest t) y = false).
      { destruct (at_entry q _ y) eqn:E3; [|done]. rewrite <- E2. symmetry.
        apply existsb_exists. exists y. split; [by apply list_elem_of_In|done]. }
      unfold at_entry, stops, in_order in *. lia.
Qed.

Lemma open_tickets_skip q l :
  (forall e w, e ∈ l -> entry q e = Some w -> w_is_completed w = true) -> open_tickets q l = [].
Proof.
  induction l as [|e l IH]; intros Hl; [done|]. unfold open_tickets in *. cbn [mbind list_bind].
  rewrite IH by (intros x w Hx; apply Hl; by apply list_elem_of_further). rewrite app_nil_r.
  destruct (entry q e) as [w|] eqn:E; [|done]. by rewrite (Hl e w (list_elem_of_here _ _) E).
Qed.

Section worker.
Context (nr hi : Z) (s : io_worker) (pc : place) (Hok : worker_ok nr hi s pc).

Lemma place_work_worker X fill t tk :
  fills fill -> (forall w, w_nsecs_target (fill w) = t /\ ticket_of (fill w) = tk) ->
  wp X (place_work nr fill t) (fun b s' =>
    worker_ok nr hi s' pc /\
    if b then pending s' ≡ₚ tk :: pending s
    else s' = s /\ Z.of_nat (length (requests s)) = nr - 1) s.
Proof.
  intros Hf Ht. destruct Hok as (U & R & Q & HQ & HP & HS & HL).
  eapply wp_mono; [by apply (place_work_spec HQ)|]. intros [] s'; cbn beta.
  2: { intros [-> HF]. split; [done|]. split; [done|]. rewrite (queue_ok_requests _ _ _ _ _ HQ).
       pose proof (qk_lengths HQ) as HN. rewrite length_app in HF. lia. }
  intros (e & w & U' & R' & Hpop & Hw & HQ' & Hce & Hco & Hlat).
  set (Q' := insert_behind _ e Q) in *.
  assert (HeQ : e ∉ Q).
  { intros He. apply (qk_disjoint HQ e); [|done]. destruct Hpop as [[-> _]|(_ & _ & ->)]; set_solver. }
  assert (HP' : Q' ≡ₚ e :: Q) by apply insert_behind_perm.
  assert (Hout : forall x, x ∈ Q -> content <$> entry (work_queue s') x = content <$> entry (work_queue s) x).
  { intros x Hx. apply Hco. by intros ->. }
  destruct (entry (work_queue s') e) as [we|] eqn:Ee; [|done]. apply (inj Some) in Hce.
  split; [exists U', R', Q'; split; [done|]; split; [|split]|].
  - destruct pc as [|c|c now|c]; simpl in *; try done.
    1, 3: (destruct HP as [HP|HP]; [left; rewrite HP'; set_solver|];
           destruct Hpop as [[_ <-]|(_ & _ & ->)]; [by right|];
           apply elem_of_cons in HP as [->|HP]; [left; rewrite HP'; set_solver|by right]).
    destruct HP as (Hc & w0 & Hw0 & H1 & H2). split; [rewrite HP'; set_solver|].
    specialize (Hout c Hc). rewrite Hw0 in Hout.
    destruct (entry (work_queue s') c) as [w1|]; [|done]. apply (inj Some) in Hout. exists w1.
    by rewrite (content_completed _ _ Hout), (content_copied _ _ Hout).
  - unfold Q'. rewrite (insert_behind_ext _ (at_entry (work_queue s') (stops (latest_nsecs s) t))).
    + apply insert_in_order; [done|done| |by rewrite (targets_content (work_queue s))].
      rewrite Ee. simpl. destruct (Ht w) as [<- _].
      change (w_nsecs_target (content we) = w_nsecs_target (content (fill w))). by rewrite Hce.
    + intros y Hy. unfold at_entry. specialize (Hout y Hy).
      destruct (entry (work_queue s') y) as [w1|], (entry (work_queue s) y) as [w2|]; try done.
      apply (inj Some) in Hout. simpl.
      change (stops (latest_nsecs s) t (content w2) = stops (latest_nsecs s) t (content w1)).
      by rewrite Hout.
  - lia.
  - unfold pending. rewrite (queue_ok_requests _ _ _ _ _ HQ'), (queue_ok_requests _ _ _ _ _ HQ), HP'.
    unfold open_tickets. cbn [mbind list_bind]. rewrite Ee.
    rewrite (content_completed _ _ Hce), (ticket_content _ _ Hce). destruct (Ht w) as [_ ->].
    destruct (Hf w) as (_ & _ & ->). simpl. apply Permutation_cons; [done|].
    fold (open_tickets (work_queue s') Q). by rewrite (open_tickets_content (work_queue s)).
Qed.

Lemma reclaim_worker_worker X :
  wp X reclaim_worker (fun _ s' => worker_ok nr hi s' pc /\ pending s' = pending s) s.
Proof.
  destruct Hok as (U & R & Q & HQ & HP & HS & HL).
  eapply wp_mono; [by apply (reclaim_worker_spec HQ)|]. intros _ s' (HQ' & HC & HT).
  set (p := at_entry _ _) in *. pose proof (span_app p Q) as E. pose proof (span_fst p Q) as Hfin.
  destruct (span p Q) as [a b]. simpl in *. rewrite Forall_forall in Hfin.
  split; [exists U, (R ++ a), b; split; [done|]; split; [|split]|].
  - destruct pc as [|c|c now|c]; simpl in *; try done.
    1, 3: rewrite <- E in HP; set_solver.
    destruct HP as (Hc & w0 & Hw0 & H1 & H2). destruct HC as [_ HC]. split.
    + rewrite <- E in Hc. apply elem_of_app in Hc as [Hc|Hc]; [|done]. exfalso.
      specialize (Hfin c Hc). unfold p in Hfin. rewrite (at_entry_eq _ _ _ _ Hw0) in Hfin.
      unfold finished in Hfin. by rewrite H1 in Hfin.
    + specialize (HC c). rewrite Hw0 in HC. destruct (entry (work_queue s') c) as [w1|]; [|done].
      apply (inj Some) in HC. exists w1. by rewrite (content_completed _ _ HC), (content_copied _ _ HC).
  - rewrite (targets_content (work_queue s)) by (intros; apply HC). rewrite <- E in HS.
    unfold targets in *. rewrite fmap_app in HS. by apply StronglySorted_app_1_r in HS.
  - lia.
  - unfold pending. rewrite (queue_ok_requests _ _ _ _ _ HQ'), (queue_ok_requests _ _ _ _ _ HQ).
    rewrite (open_tickets_content (work_queue s)) by (intros; apply HC).
    rewrite <- E. unfold open_tickets at 2. rewrite bind_app. fold (open_tickets (work_queue s) a).
    rewrite (open_tickets_skip _ a); [done|]. intros x w Hx Hw. specialize (Hfin x Hx).
    unfold p in Hfin. rewrite (at_entry_eq _ _ _ _ Hw) in Hfin. unfold finished in Hfin.
    bool_to_prop. done.
Qed.
End worker.

(** ** Steps of a worker *)

(** An entry is updated in place. *)
Lemma queue_ok_update nr s U R Q e w w' q' :
  queue_ok nr s U R Q -> e ∈ Q -> entry (work_queue s) e = Some w ->
  updated (work_queue s) q' e w' -> w_next w' = w_next w -> w_prev w' = w_prev w ->
  w_is_copied w' = true -> queue_ok nr (set_work_queue q' s) U R Q.
Proof.
  intros H He Hw Hu Hn Hp Hc.
  assert (Hnx : forall x, nx q' x = nx (work_queue s) x) by (intros; by eapply updated_nx_same).
  assert (Hpv : forall x, pv q' x = pv (work_queue s) x) by (intros; by eapply updated_pv_same).
  split; simpl; try apply H.
  - rewrite (proj1 Hu). apply H.
  - apply (nseg_ext (work_queue s)); [by intros|apply H].
  - apply (nseg_ext (work_queue s)); [by intros|apply H].
  - apply (pseg_ext (work_queue s)); [by intros|apply H].
  - intros x wx Hx. rewrite (proj2 Hu). destruct (Z.eqb_spec x e) as [->|].
    + exfalso. apply (qk_disjoint H e); [set_solver|done].
    + by apply (qk_used _ _ _ _ _ H).
  - intros x wx Hx. rewrite (proj2 Hu). destruct (Z.eqb_spec x e) as [->|].
    + by intros [= <-].
    + by apply (qk_copied _ _ _ _ _ H).
Qed.

Lemma targets_update q q' e w w' l :
  updated q q' e w' -> entry q e = Some w -> w_nsecs_target w' = w_nsecs_target w ->
  targets q' l = targets q l.
Proof.
  intros Hu He Ht. apply list_fmap_ext. intros _ x _. rewrite (proj2 Hu).
  destruct (Z.eqb_spec x e) as [->|]; [|done]. rewrite He. done.
Qed.

(** The ticket of an entry, if it is open. *)
Definition open_ticket (w : io_work) : list ticket := if w_is_completed w then [] else [ticket_of w].

Lemma open_tickets_update q q' e w w' l :
  NoDup l -> e ∈ l -> updated q q' e w' -> entry q e = Some w ->
  open_tickets q' l ++ open_ticket w ≡ₚ open_tickets q l ++ open_ticket w'.
Proof.
  intros HN He Hu Hw. induction l as [|x l IH]; [by apply not_elem_of_nil in He|].
  apply NoDup_cons in HN as [Hx HN]. unfold open_tickets in *. cbn [mbind list_bind].
  rewrite (proj2 Hu x). destruct (Z.eqb_spec x e) as [->|Hxe].
  - rewrite Hw. fold (open_ticket w) (open_ticket w'). fold (open_tickets q' l) (open_tickets q l).
    assert (open_tickets q' l = open_tickets q l) as ->; [|solve_Permutation].
    apply open_tickets_content. intros y Hy. rewrite (proj2 Hu).
    destruct (Z.eqb_spec y e) as [->|]; [contradiction|done].
  - apply elem_of_cons in He as [->|He]; [done|]. rewrite <- !app_assoc. by rewrite IH.
Qed.

Section steps.
Context {E : Type} `{WorkerEnv E} (u : Prop).

(** The rest of the device does its part ([u]: or faults). *)
Definition env_ok : Prop := forall (w : io_work) (e : E) (b n : Z),
  (is_Some (perform_io w e) \/ u) /\ (is_Some (post_completion w e) \/ u) /\
  (is_Some (release_buffer b n e) \/ u).

Context (Henv : env_ok) (nr hi : Z).

Lemma pwp_on_worker {A} (m : prog io_worker A) (P : A -> io_worker * E -> Prop) s e :
  wp never m (fun a s' => P a (s', e)) s -> pwp u (on_worker m) P (s, e).
Proof. intros Hm. apply pwp_zoom. by apply pwp_of_wp. Qed.

Lemma pwp_on_env {A} (m : E -> option (A * E)) (P : A -> io_worker * E -> Prop) s e :
  is_Some (m e) \/ u -> (forall a e', P a (s, e')) -> pwp u (on_env m) P (s, e).
Proof.
  intros Hm HP. unfold pwp, on_env. simpl. destruct (m e) as [[a e']|]; [done|].
  by destruct Hm as [[? ?]|].
Qed.

Lemma pwp_on_env_ m (P : unit -> io_worker * E -> Prop) s e :
  is_Some (m e) \/ u -> (forall e', P tt (s, e')) -> pwp u (on_env_ m) P (s, e).
Proof.
  intros Hm HP. apply pwp_on_env; [|by intros []]. destruct Hm as [[e' Hm]|Hm]; [left|by right].
  rewrite Hm. by eexists.
Qed.

(** An entry of which only the progress changed. *)
Definition touched (w w' : io_work) : Prop :=
  w_next w' = w_next w /\ w_prev w' = w_prev w /\ w_nsecs_target w' = w_nsecs_target w /\
  ticket_of w' = ticket_of w.

Definition changed (s s' : io_worker) (c : Z) (w w' : io_work) : Prop :=
  updated (work_queue s) (work_queue s') c w' /\ touched w w'.

Lemma changed_refl s s' c w :
  work_queue s' = work_queue s -> entry (work_queue s) c = Some w -> changed s s' c w w.
Proof.
  intros Eq Hw. unfold changed, updated. rewrite Eq. split; [|done]. split; [done|]. intros x.
  by destruct (Z.eqb_spec x c) as [->|].
Qed.

Lemma visit_copy_spec c now s e U R Q w :
  queue_ok nr s U R Q -> c ∈ Q \/ c ∈ R -> entry (work_queue s) c = Some w ->
  pwp u (visit_copy c now) (fun todo st => exists w',
    queue_ok nr st.1 U R Q /\ changed s st.1 c w w' /\ latest_nsecs st.1 = now /\
    w_is_completed w' = w_is_completed w /\ todo = negb (w_is_completed w) /\
    (todo = true -> c ∈ Q /\ w_is_copied w' = true)) (s, e).
Proof.
  intros HQ HP Hw. unfold visit_copy.
  apply pwp_bind, pwp_on_worker, wp_modify. cbn beta. set (s1 := set_latest now s).
  assert (HQ1 : queue_ok nr s1 U R Q) by (destruct HQ; by split).
  apply pwp_bind, pwp_on_worker. eapply wp_wq_get; [exact Hw|]. cbn beta.
  assert (Hno : w_is_completed w = false -> c ∈ Q).
  { destruct HP as [HP|HP]; [done|]. by rewrite (qk_used _ _ _ _ _ HQ c w HP Hw). }
  destruct (w_is_completed w) eqn:Ec.
  { apply pwp_ret. exists w. split; [done|]. split; [by apply changed_refl|done]. }
  specialize (Hno eq_refl). apply pwp_bind. destruct (w_is_copied w) eqn:Ecp.
  { apply pwp_ret, pwp_ret. exists w. split; [done|]. split; [by apply changed_refl|done]. }
  match goal with |- pwp _ _ ?P _ => set (Post := P) end.
  assert (Hmod : forall (r : Z * Z) (e' : E), pwp u (on_worker (wq_mod c (set_copied r.1 r.2))) Post (s1, e')).
  { intros r e'. apply pwp_on_worker. eapply wp_wq_upd; [exact Hw|]. intros q' Hu. apply pwp_ret.
    exists (set_copied r.1 r.2 w). split; [by eapply queue_ok_update|done]. }
  apply pwp_bind. destruct (w_is_internal w); [by apply pwp_ret, Hmod|].
  apply pwp_on_env; [apply (Henv w e 0 0)|]. intros r e'. apply Hmod.
Qed.

Lemma visit_complete_spec c t s e U R Q w :
  queue_ok nr s U R Q -> c ∈ Q -> entry (work_queue s) c = Some w -> w_is_copied w = true ->
  pwp u (visit_complete c t) (fun _ st => exists w',
    queue_ok nr st.1 U R Q /\ changed s st.1 c w w' /\ latest_nsecs st.1 = latest_nsecs s /\
    w_is_completed w' = (w_nsecs_target w <=? t) || w_is_completed w) (s, e).
Proof.
  intros HQ Hc Hw Hcp. unfold visit_complete.
  apply pwp_bind, pwp_on_worker. eapply wp_wq_get; [exact Hw|]. cbn beta.
  destruct (w_nsecs_target w <=? t).
  2: { apply pwp_ret. exists w. split; [done|]. split; [by apply changed_refl|done]. }
  match goal with |- pwp _ _ ?P _ => set (Post := P) end.
  assert (Hmod : forall e' : E, pwp u (on_worker (wq_mod c set_completed)) Post (s, e')).
  { intros e'. apply pwp_on_worker. eapply wp_wq_upd; [exact Hw|]. intros q' Hu.
    exists (set_completed w). split; [by eapply queue_ok_update|done]. }
  apply pwp_bind. destruct (w_is_internal w).
  - apply pwp_on_env_; [apply (Henv w e)|]. apply Hmod.
  - apply pwp_on_env_; [apply (Henv w e 0 0)|]. apply Hmod.
Qed.

(** What a change of one entry does to the open requests. *)
Lemma changed_pending s s' c w w' U R Q :
  queue_ok nr s U R Q -> queue_ok nr s' U R Q -> c ∈ Q -> entry (work_queue s) c = Some w ->
  changed s s' c w w' -> pending s' ++ open_ticket w ≡ₚ pending s ++ open_ticket w'.
Proof.
  intros HQ HQ' Hc Hw [Hu _]. unfold pending.
  rewrite (queue_ok_requests _ _ _ _ _ HQ), (queue_ok_requests _ _ _ _ _ HQ').
  pose proof (qk_nodup HQ) as (_ & _ & HN)%NoDup_app. by apply (open_tickets_update _ _ c).
Qed.

Lemma changed_targets s s' c w w' l :
  entry (work_queue s) c = Some w -> changed s s' c w w' ->
  targets (work_queue s') l = targets (work_queue s) l.
Proof. intros Hw (Hu & _ & _ & Ht & _). by eapply targets_update. Qed.

Lemma changed_at s s' c w w' : changed s s' c w w' -> entry (work_queue s') c = Some w'.
Proof. intros [[_ Hu] _]. by rewrite Hu, Z.eqb_refl. Qed.

Lemma visit_copy_ok c now s e :
  worker_ok nr hi s (PAt c) ->
  pwp u (visit_copy c now) (fun todo st =>
    worker_ok nr (Z.max hi now) st.1 (if todo : bool then PDue c now else PNext c) /\
    pending s ≡ₚ pending st.1) (s, e).
Proof.
  intros (U & R & Q & HQ & HP & HS & HL).
  destruct (qk_entry HQ c) as [w Hw]; [simpl in HP; set_solver|].
  eapply pwp_mono; [by eapply visit_copy_spec|]. cbn beta.
  intros todo [s' e'] (w' & HQ' & Hch & Hlat & Hcm & -> & Htodo). cbn [fst] in *. split.
  - exists U, R, Q. rewrite (changed_targets _ _ _ _ _ _ Hw Hch). split; [done|].
    split; [|split; [eapply in_order_mono; [|exact HS]; lia|lia]].
    destruct (w_is_completed w); [done|]. destruct (Htodo eq_refl) as [Hc Hcp]. split; [done|].
    exists w'. by rewrite (changed_at _ _ _ _ _ Hch).
  - assert (Ho : open_ticket w' = open_ticket w).
    { unfold open_ticket. rewrite Hcm. by destruct Hch as (_ & _ & _ & _ & ->). }
    destruct HP as [Hc|Hc].
    + pose proof (changed_pending _ _ _ _ _ _ _ _ HQ HQ' Hc Hw Hch) as HT. rewrite Ho in HT.
      by apply Permutation_app_inv_r in HT.
    + unfold pending. rewrite (queue_ok_requests _ _ _ _ _ HQ), (queue_ok_requests _ _ _ _ _ HQ').
      assert (HcQ : c ∉ Q) by (intros HcQ; apply (qk_disjoint HQ c); set_solver).
      rewrite (open_tickets_content (work_queue s) (work_queue s') Q); [done|].
      intros x Hx. rewrite (proj2 (proj1 Hch)). by destruct (Z.eqb_spec x c) as [->|].
Qed.

(** The request a worker at [pc] completes. *)
Definition completes (s : io_worker) (pc : place) : list io_work :=
  match pc with
  | PDue c t =>
    match entry (work_queue s) c with
    | Some w => if w_nsecs_target w <=? t then [content w] else []
    | None => []
    end
  | _ => []
  end.

Lemma visit_complete_ok c t s e :
  worker_ok nr hi s (PDue c t) ->
  pwp u (visit_complete c t) (fun _ st =>
    worker_ok nr hi st.1 (PNext c) /\
    pending s ≡ₚ (ticket_of <$> completes s (PDue c t)) ++ pending st.1) (s, e).
Proof.
  intros (U & R & Q & HQ & (Hc & w & Hw & Ec & Ecp) & HS & HL).
  eapply pwp_mono; [by eapply visit_complete_spec|]. cbn beta.
  intros _ [s' e'] (w' & HQ' & Hch & Hlat & Hcm). cbn [fst] in *. split.
  - exists U, R, Q. rewrite (changed_targets _ _ _ _ _ _ Hw Hch).
    split; [done|]. split; [by left|]. split; [done|lia].
  - pose proof (changed_pending _ _ _ _ _ _ _ _ HQ HQ' Hc Hw Hch) as HT.
    unfold open_ticket in HT. rewrite Hcm, Ec, orb_false_r in HT. unfold completes. rewrite Hw.
    destruct (w_nsecs_target w <=? t); simpl.
    + rewrite app_nil_r in HT. rewrite <- HT. change (ticket_of (content w)) with (ticket_of w).
      solve_Permutation.
    + destruct Hch as (_ & _ & _ & _ & Et). rewrite Et in HT.
      by apply Permutation_app_inv_r in HT.
Qed.

Lemma arrive_ok s c U R Q :
  queue_ok nr s U R Q -> c = NONE \/ c ∈ Q \/ c ∈ R -> place_ok (work_queue s) R Q (arrive c).
Proof.
  intros HQ Hc. unfold arrive. destruct (Z.eqb_spec c NONE); [done|]. simpl. naive_solver.
Qed.

(** A visit at time [now] raises the time known to have passed. *)
Definition raised (pc : place) (now : Z) : Z := match pc with PAt _ => Z.max hi now | _ => hi end.

Lemma worker_step_ok pc now s e :
  worker_ok nr hi s pc ->
  pwp u (worker_step pc now) (fun pc' st =>
    worker_ok nr (raised pc now) st.1 pc' /\
    pending s ≡ₚ (ticket_of <$> completes s pc) ++ pending st.1) (s, e).
Proof.
  intros Hok.
  destruct pc as [|c|c t|c]; unfold worker_step.
  - apply pwp_bind, pwp_on_worker, wp_get. apply pwp_ret. split; [|done].
    destruct Hok as (U & R & Q & HQ & _ & HS & HL). exists U, R, Q. split; [done|]. split; [|done].
    eapply arrive_ok; [exact HQ|]. rewrite (qk_io_seq _ _ _ _ _ HQ). destruct Q; [by left|].
    right. left. apply list_elem_of_here.
  - apply pwp_bind. eapply pwp_mono; [by apply visit_copy_ok|]. intros todo st [? ?].
    apply pwp_ret. by destruct todo.
  - apply pwp_bind. eapply pwp_mono; [by apply visit_complete_ok|]. intros _ st [? ?].
    by apply pwp_ret.
  - destruct Hok as (U & R & Q & HQ & HP & HS & HL).
    destruct (qk_entry HQ c) as [w Hw]; [simpl in HP; set_solver|].
    apply pwp_bind. unfold visit_next. apply pwp_bind, pwp_on_worker. eapply wp_wq_get; [exact Hw|].
    apply pwp_ret, pwp_ret. split; [|done]. exists U, R, Q. split; [done|].
    split; [|done]. eapply arrive_ok; [exact HQ|]. destruct HP as [HP|HP].
    + destruct (qk_next_of HQ c w HP Hw); auto.
    + destruct (qk_next_used HQ c w HP Hw); auto.
Qed.
(** ** A pass on its own *)

Lemma visit_spec c now s e U R Q w :
  queue_ok nr s U R Q -> c ∈ Q -> entry (work_queue s) c = Some w ->
  pwp u (visit c now) (fun c' st => exists w',
    queue_ok nr st.1 U R Q /\ c' = w_next w /\ changed s st.1 c w w' /\
    (w_nsecs_target w <= now -> w_is_completed w' = true)) (s, e).
Proof.
  intros HQ Hc Hw. unfold visit. apply pwp_bind.
  eapply pwp_mono; [by eapply visit_copy_spec; [|left|]|]. cbn beta.
  intros todo [s1 e1] (w1 & HQ1 & Hch1 & _ & Hcm1 & -> & Htodo). cbn [fst] in *.
  pose proof (changed_at _ _ _ _ _ Hch1) as Hw1. apply pwp_bind.
  assert (Hnext : forall s2 (e2 : E) w2, queue_ok nr s2 U R Q -> changed s s2 c w w2 ->
    (w_nsecs_target w <= now -> w_is_completed w2 = true) ->
    pwp u (visit_next c) (fun c' st => exists w',
      queue_ok nr st.1 U R Q /\ c' = w_next w /\ changed s st.1 c w w' /\
      (w_nsecs_target w <= now -> w_is_completed w' = true)) (s2, e2)).
  { intros s2 e2 w2 HQ2 Hch2 Hcm2. unfold visit_next. apply pwp_bind, pwp_on_worker.
    eapply wp_wq_get; [by eapply changed_at|]. apply pwp_ret. exists w2. split; [done|].
    split; [apply Hch2|done]. }
  destruct (w_is_completed w); simpl.
  { apply pwp_ret. by apply (Hnext _ _ w1). }
  destruct (Htodo eq_refl) as [_ Hcp]. eapply pwp_mono; [by eapply visit_complete_spec|]. cbn beta.
  intros _ [s2 e2] (w2 & HQ2 & Hch2 & _ & Hcm2). cbn [fst] in *. apply (Hnext _ _ w2); [done| |].
  - destruct Hch1 as [[L1 U1] (? & ? & ? & ?)], Hch2 as [[L2 U2] (? & ? & ? & ?)].
    split; [split|]; [congruence| |].
    + intros x. rewrite U2, U1. by destruct (x =? c).
    + repeat split; congruence.
  - intros Hdue. rewrite Hcm2. destruct Hch1 as (_ & _ & _ & -> & _). by replace (_ <=? now) with true by lia.
Qed.

(** [b] is what the pass has still to visit. *)
Lemma worker_walk_spec T n clock s e U R Q a b :
  (forall i, T <= clock i) -> queue_ok nr s U R Q -> Q = a ++ b -> (length b < n)%nat ->
  (forall x w, x ∈ a -> entry (work_queue s) x = Some w -> w_nsecs_target w <= T -> w_is_completed w = true) ->
  pwp u (worker_walk n clock (first_of NONE b)) (fun _ st =>
    queue_ok nr st.1 U R Q /\
    (forall x w, x ∈ Q -> entry (work_queue st.1) x = Some w -> w_nsecs_target w <= T ->
       w_is_completed w = true) /\
    targets (work_queue st.1) Q = targets (work_queue s) Q) (s, e).
Proof.
  intros HT HQ. revert n clock s e a HT HQ. induction b as [|c b IH]; intros n clock s e a HT HQ EQ Hn Ha;
    (destruct n; [simpl in Hn; lia|]).
  { simpl. apply pwp_ret. rewrite app_nil_r in EQ. by subst. }
  assert (Hc : c ∈ Q) by (rewrite EQ; set_solver).
  destruct (qk_entry HQ c) as [w Hw]; [set_solver|].
  destruct (qk_not_none HQ c) as [HcN _]; [set_solver|].
  simpl. destruct (Z.eqb_spec c NONE); [done|]. apply pwp_bind.
  eapply pwp_mono; [by apply visit_spec|]. cbn beta.
  intros c' [s' e'] (w' & HQ' & -> & Hch & Hcm). cbn [fst] in *.
  pose proof (qk_next _ _ _ _ _ HQ) as HN. rewrite EQ in HN. apply nseg_app in HN as [_ [HNc _]].
  unfold nx in HNc. rewrite Hw in HNc. injection HNc as ->.
  eapply pwp_mono.
  - apply (IH n _ s' e' (a ++ [c])); [auto|done|by rewrite EQ, <- app_assoc|simpl in Hn; lia|].
    intros x wx Hx Hwx Hx'. rewrite (proj2 (proj1 Hch)) in Hwx. destruct (Z.eqb_spec x c) as [->|].
    + injection Hwx as <-. apply Hcm. destruct Hch as (_ & _ & _ & <- & _). specialize (HT O). lia.
    + apply (Ha x); [set_solver|done|done].
  - cbn beta. intros _ st (? & ? & HE). split; [done|]. split; [done|]. rewrite HE.
    by apply (changed_targets _ _ c w w').
Qed.

Definition ticket_target (t : ticket) : Z :=
  match t with Request _ _ _ _ _ x | Internal _ x _ _ => x end.

(** A pass at time [T] or later completes what is due at [T]. *)
Lemma worker_pass_spec T clock s e pc :
  worker_ok nr hi s pc -> (forall i, T <= clock i) ->
  pwp u (worker_pass clock) (fun _ st => Forall (fun t => T < ticket_target t) (pending st.1)) (s, e).
Proof.
  intros (U & R & Q & HQ & _) HT. unfold worker_pass. apply pwp_bind, pwp_on_worker, wp_get.
  rewrite (qk_io_seq _ _ _ _ _ HQ). eapply pwp_mono.
  - apply (worker_walk_spec T _ _ _ _ U R Q [] Q); [done|done|done| |].
    + pose proof (qk_lengths HQ). pose proof (qk_length _ _ _ _ _ HQ). unfold walk_fuel. lia.
    + intros x w Hx. by apply elem_of_nil in Hx.
  - cbn beta. intros _ st (HQ' & Hd & _). unfold pending. rewrite (queue_ok_requests _ _ _ _ _ HQ').
    unfold open_tickets. rewrite Forall_bind. apply Forall_forall. intros x Hx. cbn.
    destruct (entry (work_queue st.1) x) as [w|] eqn:Ew; [|done].
    destruct (w_is_completed w) eqn:Ec; [done|]. apply Forall_singleton.
    destruct (Z.lt_ge_cases T (w_nsecs_target w)) as [Hlt|Hge].
    + unfold ticket_of, ticket_target. by destruct (w_is_internal w).
    + rewrite (Hd x w Hx Ew Hge) in Ec. done.
Qed.
End steps.
