(* ===== verification/IoQueueProps.v ===== *)
(** * Work queues of the NVMe emulator: dispatcher and workers together

    The dispatcher thread and the worker threads run interleaved.  Each function of the
    dispatcher is one step, and so are the parts of a worker's visit to an entry; the
    rest of the device may change at any time.

    From start-up on, every request that was accepted is completed at most once, after
    its data was moved and not before it is due, none is lost, nothing faults, and a
    worker's pass completes everything that is due. *)
From S2P Require Import Prelude IoQueue IoQueueSpec IoQueueOps IoWorker.

(** ** The system *)

Inductive event : Set :=
| Accepted (t : ticket)
| Dropped (t : ticket)
| Visited (i : nat) (curr_nsecs : Z)
| Completed (curr_nsecs : Z) (w : io_work).

Definition accepted (tr : list event) : list ticket :=
  tr ≫= fun ev => match ev with Accepted t => [t] | _ => [] end.
Definition completed (tr : list event) : list ticket :=
  tr ≫= fun ev => match ev with Completed _ w => [ticket_of w] | _ => [] end.

(** The latest time worker [i] has seen. *)
Definition seen (i : nat) (tr : list event) : Z :=
  foldr (fun ev x => match ev with Visited j t => if decide (j = i) then Z.max t x else x | _ => x end) 0 tr.

Record io_system (E : Type) := IoSystem {
  sys_dev : io_device;
  sys_env : E;
  sys_places : list place
}.
Arguments IoSystem {E}.
Arguments sys_dev {E}.
Arguments sys_env {E}.
Arguments sys_places {E}.

Section system.
Context {E : Type} `{WorkerEnv E} (nr_max nr_workers : Z).

Definition answer (ok : bool) (t : ticket) : list event := if ok then [Accepted t] else [Dropped t].

Definition worker_events (i : nat) (now : Z) (s : io_worker) (pc : place) : list event :=
  match pc with
  | PAt _ => [Visited i now]
  | PDue _ t => Completed t <$> completes s pc
  | _ => []
  end.

Inductive io_step : io_system E -> list event -> io_system E -> Prop :=
| step_enqueue rq now d e pcs ok d' :
    enqueue_io_req nr_max nr_workers rq now d = Done ok d' ->
    io_step (IoSystem d e pcs) (answer ok (request_ticket rq)) (IoSystem d' e pcs)
| step_schedule op now d e pcs ok d' :
    schedule_internal_operation nr_max nr_workers op now d = Done ok d' ->
    io_step (IoSystem d e pcs) (answer ok (internal_ticket op)) (IoSystem d' e pcs)
| step_reclaim turn d e pcs d' :
    with_worker turn reclaim_worker d = Done tt d' ->
    io_step (IoSystem d e pcs) [] (IoSystem d' e pcs)
| step_env d e e' pcs :
    io_step (IoSystem d e pcs) [] (IoSystem d e' pcs)
| step_worker i now d e pcs s pc s' e' pc' :
    io_workers d !! i = Some s -> pcs !! i = Some pc ->
    worker_step pc now (s, e) = Done pc' (s', e') ->
    io_step (IoSystem d e pcs) (worker_events i now s pc)
      (IoSystem (IoDevice (<[i := s']> (io_workers d)) (io_worker_turn d)) e' (<[i := pc']> pcs)).

Inductive io_run : list event -> io_system E -> Prop :=
| run_init e :
    io_run [] (IoSystem (NVMEV_IO_WORKER_INIT nr_max nr_workers) e (replicate (Z.to_nat nr_workers) PStart))
| run_step tr s evs s' : io_run tr s -> io_step s evs s' -> io_run (tr ++ evs) s'.

(** ** The invariant *)

Definition event_ok (ev : event) : Prop :=
  match ev with
  | Completed t w => w_nsecs_target w <= t /\ w_is_copied w = true
  | _ => True
  end.

Record system_ok (tr : list event) (y : io_system E) : Prop := {
  so_workers : length (io_workers (sys_dev y)) = Z.to_nat nr_workers;
  so_places : length (sys_places y) = Z.to_nat nr_workers;
  so_ok : forall i s pc, io_workers (sys_dev y) !! i = Some s -> sys_places y !! i = Some pc ->
    worker_ok nr_max (seen i tr) s pc;
  so_once : accepted tr ≡ₚ completed tr ++ (io_workers (sys_dev y) ≫= pending);
  so_events : Forall event_ok tr
}.

Lemma seen_nonneg i tr : 0 <= seen i tr.
Proof. induction tr as [|[] tr IH]; simpl; try done. case_decide; lia. Qed.

Lemma seen_app i tr tr' : seen i (tr ++ tr') = Z.max (seen i tr) (seen i tr').
Proof.
  pose proof (seen_nonneg i tr'). induction tr as [|ev tr IH]; simpl; [lia|].
  destruct ev; try done. case_decide; lia.
Qed.

Lemma worker_ok_mono nr hi hi' s pc : hi <= hi' -> worker_ok nr hi s pc -> worker_ok nr hi' s pc.
Proof.
  intros Hh (U & R & Q & ? & ? & HS & ?). exists U, R, Q. split; [done|]. split; [done|].
  split; [by eapply in_order_mono|lia].
Qed.

(** A step that changes worker [i] only. *)
Lemma system_ok_update tr evs d e pcs i s pc s' e' pc' turn :
  system_ok tr (IoSystem d e pcs) ->
  io_workers d !! i = Some s -> pcs !! i = Some pc ->
  worker_ok nr_max (seen i (tr ++ evs)) s' pc' ->
  accepted evs ++ pending s ≡ₚ completed evs ++ pending s' ->
  Forall event_ok evs ->
  system_ok (tr ++ evs) (IoSystem (IoDevice (<[i := s']> (io_workers d)) turn) e' (<[i := pc']> pcs)).
Proof.
  intros [HW HP HO H1 HE] Hs Hpc Hok Hev Hf. simpl in *. split; simpl.
  - by rewrite length_insert.
  - by rewrite length_insert.
  - intros j sj pcj Hj Hpj. destruct (decide (j = i)) as [->|Hji].
    + rewrite list_lookup_insert_eq in Hj by (by eapply lookup_lt_Some).
      rewrite list_lookup_insert_eq in Hpj by (by eapply lookup_lt_Some). by simplify_eq.
    + rewrite list_lookup_insert_ne in Hj by done. rewrite list_lookup_insert_ne in Hpj by done.
      eapply worker_ok_mono; [|by apply HO]. rewrite seen_app. lia.
  - pose proof (bind_insert_perm pending _ _ _ s' Hs) as HB. unfold accepted, completed in *.
    rewrite !bind_app.
    apply (Permutation_app_inv_r (pending s)). rewrite <- !app_assoc, HB, Hev, H1.
    solve_Permutation.
  - by apply Forall_app.
Qed.

Lemma wp_with_worker {A} i s (m : prog io_worker A) (Q : A -> io_device -> Prop) d :
  io_workers d !! i = Some s ->
  wp never m (fun a s' => Q a (IoDevice (<[i := s']> (io_workers d)) (io_worker_turn d))) s ->
  wp never (with_worker (Z.of_nat i) m) Q d.
Proof.
  intros Hi Hm. unfold wp, with_worker in *. pose proof (lookup_lt_Some _ _ _ Hi).
  replace ((0 <=? Z.of_nat i) && (Z.of_nat i <? Z.of_nat (length (io_workers d)))) with true by bool_lia.
  rewrite Nat2Z.id, Hi. by destruct (m s).
Qed.

Context (Hmax : 1 < nr_max < NONE) (Hworkers : 0 < nr_workers).

Lemma worker_of_sq d sqid :
  length (io_workers d) = Z.to_nat nr_workers ->
  exists i s, get_io_worker nr_workers sqid = Z.of_nat i /\ io_workers d !! i = Some s.
Proof.
  intros HL. unfold get_io_worker.
  pose proof (Z.mod_pos_bound (u32 (sqid - 1)) nr_workers Hworkers) as Hb.
  exists (Z.to_nat (u32 (sqid - 1) mod nr_workers)).
  destruct (lookup_lt_is_Some_2 (io_workers d) (Z.to_nat (u32 (sqid - 1) mod nr_workers))) as [s Hs]; [lia|].
  exists s. split; [lia|done].
Qed.

(** A request is accepted unless its worker's queue is full. *)
Lemma submit_work_ok tr d e pcs sqid fill t tk :
  system_ok tr (IoSystem d e pcs) -> fills fill ->
  (forall w, w_nsecs_target (fill w) = t /\ ticket_of (fill w) = tk) ->
  wp never (submit_work nr_max nr_workers sqid fill t) (fun ok d' =>
    system_ok (tr ++ answer ok tk) (IoSystem d' e pcs) /\
    (ok = false -> d' = d /\ exists s,
       io_workers d !! Z.to_nat (get_io_worker nr_workers sqid) = Some s /\
       Z.of_nat (length (requests s)) = nr_max - 1)) d.
Proof.
  intros Hok Hf Ht. destruct (worker_of_sq d sqid (so_workers _ _ Hok)) as (i & s & Ei & Hs).
  destruct (lookup_lt_is_Some_2 pcs i) as [pc Hpc].
  { apply lookup_lt_Some in Hs. pose proof (so_workers _ _ Hok). pose proof (so_places _ _ Hok).
    simpl in *. lia. }
  unfold submit_work. rewrite Ei, Nat2Z.id. apply wp_bind. eapply wp_with_worker; [exact Hs|].
  eapply wp_mono; [by eapply place_work_worker, Ht; [by apply (so_ok _ _ Hok)|]|].
  intros ok s' [Hw' Hp]. rewrite <- (list_insert_id pcs i pc Hpc).
  assert (HU : forall turn, system_ok (tr ++ answer ok tk)
            (IoSystem (IoDevice (<[i:=s']> (io_workers d)) turn) e (<[i:=pc]> pcs))).
  { intros turn. eapply system_ok_update; [exact Hok|done|done| | |].
    - eapply worker_ok_mono; [|exact Hw']. rewrite seen_app. lia.
    - destruct ok; simpl.
      + by rewrite Hp.
      + by destruct Hp as [-> _].
    - destruct ok; by apply Forall_singleton. }
  destruct ok; apply wp_bind.
  - apply wp_modify, wp_ret. split; [apply HU|done].
  - apply wp_ret, wp_ret. split; [apply HU|]. intros _. destruct Hp as [-> Hfull]. split; [|eauto].
    rewrite list_insert_id by done. by destruct d.
Qed.
Lemma reclaim_ok tr d e pcs i s pc :
  system_ok tr (IoSystem d e pcs) -> io_workers d !! i = Some s -> pcs !! i = Some pc ->
  wp never (with_worker (Z.of_nat i) reclaim_worker) (fun _ d' => system_ok tr (IoSystem d' e pcs)) d.
Proof.
  intros Hok Hs Hpc. eapply wp_with_worker; [exact Hs|].
  eapply wp_mono; [by eapply reclaim_worker_worker, (so_ok _ _ Hok)|].
  intros _ s' [Hw Hp]. rewrite <- (app_nil_r tr), <- (list_insert_id pcs i pc Hpc).
  eapply system_ok_update; [exact Hok|done|done| |by rewrite Hp|done]. by rewrite app_nil_r.
Qed.

Lemma wp_inv {St A} X (m : prog St A) (Q : A -> St -> Prop) s a s' :
  wp X m Q s -> m s = Done a s' -> Q a s'.
Proof. unfold wp. intros Hm E1. by rewrite E1 in Hm. Qed.

Lemma env_ok_partial : env_ok (E := E) True.
Proof. intros w e b n. tauto. Qed.

Lemma completes_ok nr hi s pc :
  worker_ok nr hi s pc -> Forall event_ok (worker_events 0 0 s pc).
Proof.
  intros (U & R & Q & _ & HP & _). destruct pc as [|c|c t|c]; try done; simpl; [by constructor|].
  destruct HP as (_ & w & -> & _ & Hcp). destruct (Z.leb_spec (w_nsecs_target w) t); simpl; [|done].
  by repeat constructor.
Qed.

Lemma worker_events_ok nr hi i now s pc :
  worker_ok nr hi s pc ->
  Forall event_ok (worker_events i now s pc) /\ accepted (worker_events i now s pc) = [] /\
  completed (worker_events i now s pc) = ticket_of <$> completes s pc /\
  hi `max` seen i (worker_events i now s pc) = hi `max` (match pc with PAt _ => now `max` 0 | _ => 0 end).
Proof.
  intros Hok. pose proof (completes_ok _ _ _ _ Hok) as He. destruct pc as [|c|c t|c]; try done.
  - simpl. split; [by constructor|]. by rewrite decide_True.
  - split; [exact He|]. simpl. destruct (entry (work_queue s) c) as [w|]; [|done].
    by destruct (w_nsecs_target w <=? t).
Qed.

Lemma system_ok_step tr y evs y' : system_ok tr y -> io_step y evs y' -> system_ok (tr ++ evs) y'.
Proof.
  intros Hok Hs. destruct Hs as [rq now d e pcs ok d' Hd|op now d e pcs ok d' Hd|turn d e pcs d' Hd
    |d e e' pcs|i now d e pcs s pc s' e' pc' Hi Hpc Hd].
  - eapply wp_inv in Hd; [|by apply (submit_work_ok tr d e pcs _ _ _ (request_ticket rq) Hok (fills_request rq now))].
    apply Hd.
  - eapply wp_inv in Hd; [|by apply (submit_work_ok tr d e pcs _ _ _ (internal_ticket op) Hok (fills_internal op now))].
    apply Hd.
  - rewrite app_nil_r. pose proof Hd as Hd'. unfold with_worker in Hd'. destruct (_ && _) eqn:Et; [|done].
    bool_to_prop. destruct (io_workers d !! Z.to_nat turn) as [s|] eqn:Es; [|done].
    destruct (lookup_lt_is_Some_2 pcs (Z.to_nat turn)) as [pc Hpc].
    { apply lookup_lt_Some in Es. pose proof (so_workers _ _ Hok). pose proof (so_places _ _ Hok).
      simpl in *. lia. }
    rewrite <- (Z2Nat.id turn) in Hd by done. eapply wp_inv in Hd; [|by eapply reclaim_ok]. done.
  - rewrite app_nil_r. by destruct Hok.
  - pose proof (so_ok _ _ Hok i s pc Hi Hpc) as Hw. pose proof Hd as Hd'.
    eapply pwp_done in Hd; [|by eapply worker_step_ok; [apply env_ok_partial|exact Hw]].
    destruct Hd as [Hw' Hp]. cbn [fst] in *.
    destruct (worker_events_ok _ _ i now _ _ Hw) as (He & Ha & Hc & Hseen).
    eapply system_ok_update; [exact Hok|done|done| | |exact He].
    + rewrite seen_app, Hseen. eapply worker_ok_mono; [|exact Hw'].
      pose proof (seen_nonneg i tr). destruct pc; simpl; lia.
    + rewrite Ha, Hc. exact Hp.
Qed.

Lemma pending_init id : pending (init_worker nr_max id) = [].
Proof. unfold pending. by rewrite (queue_ok_requests _ _ _ _ _ (init_worker_ok nr_max id Hmax)). Qed.

Lemma system_ok_init e :
  system_ok [] (IoSystem (NVMEV_IO_WORKER_INIT nr_max nr_workers) e (replicate (Z.to_nat nr_workers) PStart)).
Proof.
  split; simpl.
  - by rewrite length_fmap, length_seqZ.
  - by rewrite length_replicate.
  - intros i s pc Hs Hpc. rewrite list_lookup_fmap in Hs. apply fmap_Some in Hs as (x & _ & ->).
    apply lookup_replicate in Hpc as [-> _].
    exists (seqZ 0 nr_max), [], []. split; [by apply init_worker_ok|]. split; [done|]. split; [constructor|done].
  - assert (Hp : forall l, (init_worker nr_max <$> l) ≫= pending = []); [|by rewrite Hp].
    induction l as [|x l IH]; [done|]. rewrite fmap_cons. cbn [mbind list_bind].
    by rewrite pending_init, IH.
  - constructor.
Qed.

Lemma system_ok_run tr y : io_run tr y -> system_ok tr y.
Proof. induction 1; [apply system_ok_init|by eapply system_ok_step]. Qed.
End system.

Lemma sorted_lookup {A} (R : A -> A -> Prop) l j k a b :
  StronglySorted R l -> (j < k)%nat -> l !! j = Some a -> l !! k = Some b -> R a b.
Proof.
  intros HS. revert j k. induction HS as [|x l _ IH Hx]; intros j k Hjk Ha Hb; [done|].
  destruct k as [|k]; [lia|]. destruct j as [|j]; simpl in *.
  - injection Ha as <-. rewrite Forall_forall in Hx. apply Hx. by eapply list_elem_of_lookup_2.
  - eapply IH; [|done|done]. lia.
Qed.

(** ** The array of links is a list *)

(** The requests of a queue, without their links. *)
Definition jobs (s : io_worker) : list io_work := contents (work_queue s) (requests s).

Definition well_formed (nr : Z) (s : io_worker) : Prop := exists U R Q, queue_ok nr s U R Q.

Lemma contents_content q q' l :
  (forall x, x ∈ l -> content <$> entry q' x = content <$> entry q x) -> contents q' l = contents q l.
Proof.
  intros E. apply list_fmap_ext. intros i x Hx. specialize (E x (list_elem_of_lookup_2 _ _ _ Hx)).
  destruct (entry q' x), (entry q x); try done. by apply (inj Some) in E.
Qed.

Lemma contents_targets q l i w :
  contents q l !! i = Some w -> targets q l !! i = Some (w_nsecs_target w).
Proof.
  unfold contents, targets. rewrite !list_lookup_fmap. destruct (l !! i); [|done].
  simpl. by intros [= <-].
Qed.

(** C9: The work queue of a worker, an array of chained entries, refines a plain list:
    a request is inserted behind the last request that is expired or not later, and is
    refused only if all entries but one are in use; reclaiming drops the finished
    requests at the head; and the chains stay well formed. *)
Theorem work_queue_refines_list nr s fill t :
  well_formed nr s -> fills fill ->
  wp never (place_work nr fill t) (fun ok s' => well_formed nr s' /\
    if ok then exists w, jobs s' = insert_behind (stops (latest_nsecs s) t) (content (fill w)) (jobs s)
    else s' = s /\ Z.of_nat (length (jobs s)) = nr - 1) s /\
  wp never reclaim_worker (fun _ s' => well_formed nr s' /\
    jobs s' = (span (finished (latest_nsecs s)) (jobs s)).2) s.
Proof.
  intros (U & R & Q & HQ) Hf. unfold jobs. rewrite (queue_ok_requests _ _ _ _ _ HQ). split.
  - eapply wp_mono; [by apply (place_work_spec HQ)|]. intros [] s'; cbn beta.
    2: { intros [-> HF]. split; [by exists U, R, Q|]. split; [done|]. unfold contents. rewrite length_fmap.
         pose proof (qk_lengths HQ) as HN. rewrite length_app in HF. lia. }
    intros (e & w & U' & R' & Hpop & Hw & HQ' & Hce & Hco & _). split; [by eexists _, _, _|].
    exists w. rewrite (queue_ok_requests _ _ _ _ _ HQ').
    assert (HeQ : e ∉ Q).
    { intros He. apply (qk_disjoint HQ e); [|done]. destruct Hpop as [[-> _]|(_ & _ & ->)]; set_solver. }
    destruct (entry (work_queue s') e) as [we|] eqn:Ee; [|done]. apply (inj Some) in Hce.
    rewrite <- (contents_content (work_queue s) (work_queue s') Q)
      by (intros x Hx; apply Hco; by intros ->).
    pose (f := fun x => content (default zero_work (entry (work_queue s') x))).
    assert (Hfe : content we = f e) by (unfold f; by rewrite Ee). rewrite <- Hce, Hfe.
    change (contents (work_queue s') Q) with (f <$> Q).
    rewrite insert_behind_fmap. unfold contents. fold f. f_equal. apply insert_behind_ext.
    intros y Hy. unfold at_entry, f. simpl. specialize (Hco y ltac:(by intros ->)).
    destruct (entry (work_queue s') y) as [w1|], (entry (work_queue s) y) as [w2|]; try done.
    apply (inj Some) in Hco. simpl. rewrite Hco. done.
  - eapply wp_mono; [by apply (reclaim_worker_spec HQ)|]. intros _ s' (HQ' & HC & _).
    split; [by eexists _, _, _|]. rewrite (queue_ok_requests _ _ _ _ _ HQ').
    rewrite (same_contents _ _ _ HC). unfold contents. by rewrite span_fmap.
Qed.

(** ** Theorems about every run *)

Section theorems.
Context {E : Type} `{WorkerEnv E}.


(** C15: In every run, the requests of a worker stand in the order of their times: a
    request stands before one that is due earlier only if its own time had come by the
    last visit of the worker. *)
Theorem io_requests_in_order nr_max nr_workers tr (y : io_system E) i s j k a b :
  1 < nr_max < NONE -> 0 < nr_workers -> io_run nr_max nr_workers tr y ->
  io_workers (sys_dev y) !! i = Some s ->
  (j < k)%nat -> jobs s !! j = Some a -> jobs s !! k = Some b ->
  w_nsecs_target a <= w_nsecs_target b \/ w_nsecs_target a <= seen i tr.
Proof.
  intros Hm Hw Hr%(system_ok_run _ _ Hm Hw) Hs Hjk Ha Hb.
  destruct (lookup_lt_is_Some_2 (sys_places y) i) as [pc Hpc].
  { apply lookup_lt_Some in Hs. pose proof (so_workers _ _ _ _ Hr). pose proof (so_places _ _ _ _ Hr). lia. }
  destruct (so_ok _ _ _ _ Hr i s pc Hs Hpc) as (U & R & Q & HQ & _ & HS & _).
  unfold jobs in *. rewrite (queue_ok_requests _ _ _ _ _ HQ) in *.
  eapply (sorted_lookup (in_order (seen i tr))); [exact HS|exact Hjk| |].
  - by apply contents_targets.
  - by apply contents_targets.
Qed.

(** C30: In every run nothing the dispatcher does to a queue faults, a request is dropped
    only when its worker's queue holds all entries but one, and a worker, wherever it
    stands, faults only if the rest of the device does. *)
Theorem io_queues_never_fault nr_max nr_workers tr (y : io_system E) :
  1 < nr_max < NONE -> 0 < nr_workers -> io_run nr_max nr_workers tr y ->
  (forall rq now, wp never (enqueue_io_req nr_max nr_workers rq now) (fun ok _ =>
     ok = false -> exists s,
       io_workers (sys_dev y) !! Z.to_nat (get_io_worker nr_workers (rq_sqid rq)) = Some s /\
       Z.of_nat (length (jobs s)) = nr_max - 1) (sys_dev y)) /\
  (forall op now, wp never (schedule_internal_operation nr_max nr_workers op now)
     (fun _ _ => True) (sys_dev y)) /\
  wp never (reclaim_completed_reqs nr_workers) (fun _ _ => True) (sys_dev y) /\
  (env_ok (E := E) False -> forall i s pc now,
     io_workers (sys_dev y) !! i = Some s -> sys_places y !! i = Some pc ->
     wp never (worker_step pc now) (fun _ _ => True) (s, sys_env y)).
Proof.
  intros Hm Hw Hr%(system_ok_run _ _ Hm Hw). destruct y as [d e pcs]. simpl.
  split; [|split; [|split]].
  - intros rq now. eapply wp_mono.
    { by apply (submit_work_ok _ _ Hw tr d e pcs _ _ _ (request_ticket rq) Hr (fills_request rq now)). }
    cbn beta. intros ok d' [_ Hf] ->. destruct (Hf eq_refl) as (_ & s & Hs & Hn). exists s.
    split; [done|]. unfold jobs, contents. by rewrite length_fmap.
  - intros op now. eapply wp_mono; [|done].
    by apply (submit_work_ok _ _ Hw tr d e pcs _ _ _ (internal_ticket op) Hr (fills_internal op now)).
  - unfold reclaim_completed_reqs.
    eapply wp_mono; [|done].
    apply (wp_for_each never (fun l d' => Forall (fun x => 0 <= x < nr_workers) l /\
      system_ok nr_max nr_workers tr (IoSystem d' e pcs))).
    + split; [|done]. apply Forall_forall. intros x Hx%elem_of_seqZ. lia.
    + intros x l d' [Hx Hd]. inversion_clear Hx as [|? ? Hx0 Hl].
      pose proof (so_workers _ _ _ _ Hd) as HLw. pose proof (so_places _ _ _ _ Hd) as HLp. simpl in *.
      destruct (lookup_lt_is_Some_2 (io_workers d') (Z.to_nat x)) as [s Hs]; [lia|].
      destruct (lookup_lt_is_Some_2 pcs (Z.to_nat x)) as [pc Hpc]; [lia|].
      rewrite <- (Z2Nat.id x) by lia. eapply wp_mono; [by eapply reclaim_ok|]. done.
  - intros He i s pc now Hs Hpc. apply wp_of_pwp.
    eapply pwp_mono; [by eapply worker_step_ok, (so_ok _ _ _ _ Hr i s pc)|]. done.
Qed.

End theorems.

(** ** Runs *)

(** A schedule: who runs next, and at what time. *)
Inductive move : Set :=
| MEnqueue (rq : io_request) (now : Z)
| MSchedule (op : internal_op) (now : Z)
| MReclaim (turn : Z)
| MWorker (i : nat) (now : Z).

Section schedule.
Context {E : Type} `{WorkerEnv E} (nr_max nr_workers : Z).

Definition exec (m : move) (y : io_system E) : option (list event * io_system E) :=
  let '(IoSystem d e pcs) := y in
  match m with
  | MEnqueue rq now =>
    match enqueue_io_req nr_max nr_workers rq now d with
    | Done ok d' => Some (answer ok (request_ticket rq), IoSystem d' e pcs)
    | _ => None
    end
  | MSchedule op now =>
    match schedule_internal_operation nr_max nr_workers op now d with
    | Done ok d' => Some (answer ok (internal_ticket op), IoSystem d' e pcs)
    | _ => None
    end
  | MReclaim turn =>
    match with_worker turn reclaim_worker d with
    | Done _ d' => Some ([], IoSystem d' e pcs)
    | _ => None
    end
  | MWorker i now =>
    s ← io_workers d !! i;
    pc ← pcs !! i;
    match worker_step pc now (s, e) with
    | Done pc' (s', e') =>
      Some (worker_events i now s pc,
            IoSystem (IoDevice (<[i := s']> (io_workers d)) (io_worker_turn d)) e' (<[i := pc']> pcs))
    | _ => None
    end
  end.

Fixpoint exec_all (ms : list move) (tr : list event) (y : io_system E) : option (list event * io_system E) :=
  match ms with
  | [] => Some (tr, y)
  | m :: ms' => '(evs, y') ← exec m y; exec_all ms' (tr ++ evs) y'
  end.

Definition start (e : E) : io_system E :=
  IoSystem (NVMEV_IO_WORKER_INIT nr_max nr_workers) e (replicate (Z.to_nat nr_workers) PStart).

Lemma exec_step m y evs y' : exec m y = Some (evs, y') -> io_step nr_max nr_workers y evs y'.
Proof.
  destruct y as [d e pcs], m as [rq now|op now|turn|i now]; simpl.
  - destruct (enqueue_io_req _ _ _ _ _) eqn:Er; [|done|done]. intros [= <- <-]. by econstructor.
  - destruct (schedule_internal_operation _ _ _ _ _) eqn:Er; [|done|done]. intros [= <- <-]. by econstructor.
  - destruct (with_worker _ _ _) as [[]| |] eqn:Er; [|done|done]. intros [= <- <-]. by econstructor.
  - destruct (io_workers d !! i) eqn:Ei; [|done]. destruct (pcs !! i) eqn:Ep; [|done]. simpl.
    destruct (worker_step _ _ _) as [pc' [s' e']| |] eqn:Er; [|done|done].
    intros [= <- <-]. by econstructor.
Qed.

Lemma exec_all_run ms tr y tr' y' :
  io_run nr_max nr_workers tr y -> exec_all ms tr y = Some (tr', y') -> io_run nr_max nr_workers tr' y'.
Proof.
  revert tr y. induction ms as [|m ms IH]; intros tr y Hr; simpl; [by intros [= <- <-]|].
  destruct (exec m y) as [[evs y1]|] eqn:Ee; [|done]. simpl. apply IH.
  eapply run_step; [exact Hr|by eapply exec_step].
Qed.
End schedule.

Module Sample.

(** A device that counts what its workers do. *)
Record counts := Counts { moved : Z; posted : Z; released : Z }.

#[export] Instance counts_env : WorkerEnv counts := {
  perform_io w e := Some (w_result0 w, w_status w, Counts (moved e + 1) (posted e) (released e));
  post_completion w e := Some (Counts (moved e) (posted e + 1) (released e));
  release_buffer b n e := Some (Counts (moved e) (posted e) (released e + n))
}.

Lemma counts_env_ok u : env_ok (E := counts) u.
Proof. intros w e b n. split; [|split]; left; by eexists. Qed.

Definition write (id target : Z) : io_request := IoRequest 1 1 id id 5 target 0.
Definition flush_buffer (target : Z) : internal_op := InternalOp 1 target 7 4096.

(** Two writes and a release of buffer space; the worker finds one of them due and,
    while it stands there, the dispatcher reclaims the entry. *)
Definition schedule : list move :=
  [MEnqueue (write 1 20) 6; MEnqueue (write 2 10) 6; MSchedule (flush_buffer 30) 6;
   MWorker 0 0; MWorker 0 12; MWorker 0 0; MReclaim 0; MWorker 0 0; MEnqueue (write 3 15) 13].

Definition sample_run : list event * io_system counts :=
  default ([], start 4 1 (Counts 0 0 0)) (exec_all 4 1 schedule [] (start 4 1 (Counts 0 0 0))).

Lemma sample_runs : io_run 4 1 sample_run.1 sample_run.2.
Proof.
  apply (exec_all_run 4 1 schedule [] (start 4 1 (Counts 0 0 0))); [apply run_init|]. vm_compute. reflexivity.
Qed.

Example sample_trace :
  accepted sample_run.1 =
    [Request 1 1 1 1 5 20; Request 1 1 2 2 5 10; Internal 1 30 7 4096; Request 1 1 3 3 5 15] /\
  completed sample_run.1 = [Request 1 1 2 2 5 10] /\
  (io_workers (sys_dev sample_run.2) ≫= pending) =
    [Request 1 1 3 3 5 15; Request 1 1 1 1 5 20; Internal 1 30 7 4096].
Proof. vm_compute. done. Qed.

Lemma four_entries : 1 < 4 < NONE.
Proof. unfold NONE. lia. Qed.


Definition sample_worker : io_worker :=
  default (init_worker 4 0) (io_workers (sys_dev sample_run.2) !! 0%nat).

Lemma io_requests_in_order_witness :
  let a := default zero_work (jobs sample_worker !! 0%nat) in
  let b := default zero_work (jobs sample_worker !! 2%nat) in
  w_nsecs_target a <= w_nsecs_target b \/ w_nsecs_target a <= seen 0 sample_run.1.
Proof.
  apply (io_requests_in_order 4 1 sample_run.1 sample_run.2 0 sample_worker 0 2);
    [exact four_entries|lia|exact sample_runs|by vm_compute|lia|by vm_compute|by vm_compute].
Defined.

Lemma io_queues_never_fault_witness :
  wp never (reclaim_completed_reqs 1) (fun _ _ => True) (sys_dev sample_run.2).
Proof.
  exact (proj1 (proj2 (proj2
    (io_queues_never_fault 4 1 sample_run.1 sample_run.2 four_entries Z.lt_0_1 sample_runs)))).
Defined.


Lemma work_queue_refines_list_witness :
  wp never (place_work 4 (fill_request (write 9 25) 14) 25) (fun ok s' => well_formed 4 s' /\
    if ok then exists w, jobs s' = insert_behind (stops 0 25)
                           (content (fill_request (write 9 25) 14 w)) (jobs (init_worker 4 0))
    else s' = init_worker 4 0 /\ Z.of_nat (length (jobs (init_worker 4 0))) = 4 - 1) (init_worker 4 0).
Proof.
  refine (proj1 (work_queue_refines_list 4 (init_worker 4 0) _ 25 _ (fills_request (write 9 25) 14))).
  eexists _, _, _. apply init_worker_ok, four_entries.
Defined.

(** A request that comes when one entry is left free is dropped: its command is never
    completed, and no error is reported. *)
Example full_queue_drops_request :
  fst <$> exec_all 2 1 [MEnqueue (write 1 20) 6; MEnqueue (write 2 10) 6] [] (start 2 1 (Counts 0 0 0)) =
  Some [Accepted (Request 1 1 1 1 5 20); Dropped (Request 1 1 2 2 5 10)].
Proof. vm_compute. reflexivity. Qed.

End Sample.
