(* ===== verification/IoRing.v ===== *)
(** * Submission and completion queues of the NVMe emulator (lib/nvmevirt: io.c, main.c)

    The rings a host shares with the device: the dispatcher takes commands from
    submission queues when the host rings a doorbell and hands them to their namespace
    and to a worker; workers write completions to completion queues and raise
    interrupts. *)
From S2P Require Import Prelude KvFtl IoQueue.

(** ** Data *)

(** [struct nvme_rw_command], the fields that are read. *)
Record nvme_rw_command := RwCommand {
  rw_opcode : Z;
  rw_command_id : Z;
  rw_nsid : Z;
  rw_prp1 : Z;
  rw_prp2 : Z;
  rw_slba : Z;
  rw_length : Z;
  rw_control : Z
}.

(** A slot of a submission queue, seen as one or the other member of its union. *)
Record nvme_command := NvmeCommand {
  cmd_rw : nvme_rw_command;
  cmd_kv : nvme_kv_command
}.

Record nvme_completion := NvmeCompletion {
  cqe_result0 : Z;
  cqe_result1 : Z;
  cqe_sq_head : Z;
  cqe_sq_id : Z;
  cqe_command_id : Z;
  cqe_status : Z
}.

Record nvmev_sq_stat := SqStat {
  nr_dispatched : Z;
  nr_dispatch : Z;
  nr_in_flight : Z;
  max_nr_in_flight : Z;
  total_io : Z
}.

(** [sq_slots] are the commands on the pages of the queue. *)
Record submission_queue := SubmissionQueue {
  sq_qid : Z;
  sq_cqid : Z;
  sq_queue_size : Z;
  sq_stat : nvmev_sq_stat;
  sq_slots : list nvme_command
}.

Record completion_queue := CompletionQueue {
  cq_qid : Z;
  cq_irq_vector : Z;
  cq_irq_enabled : bool;
  cq_interrupt_ready : bool;
  cq_queue_size : Z;
  cq_phase : Z;
  cq_head : Z;
  cq_tail : Z;
  cq_slots : list nvme_completion
}.

Definition NR_MAX_IO_QUEUE : Z := 72.
Definition NR_SQE_PER_PAGE : Z := 4096 / 64.
Definition NR_CQE_PER_PAGE : Z := 4096 / 16.

(** [sq_entry(i)] and [cq_entry(i)]: only the pages of the queue may be read. *)
Definition slot {A} (l : list A) (i : Z) : option A :=
  if (0 <=? i) && (i <? Z.of_nat (length l)) then l !! Z.to_nat i else None.

(** The slots of [n] entries on whole pages of [per_page]. *)
Definition page_slots (n per_page : Z) : Z := (n + per_page - 1) / per_page * per_page.

(** ** Completions *)

Definition set_cq (head phase : Z) (ready : bool) (slots : list nvme_completion) (cq : completion_queue)
    : completion_queue :=
  CompletionQueue (cq_qid cq) (cq_irq_vector cq) (cq_irq_enabled cq) ready (cq_queue_size cq)
    phase head (cq_tail cq) slots.

Definition set_cq_tail (t : Z) (cq : completion_queue) : completion_queue :=
  CompletionQueue (cq_qid cq) (cq_irq_vector cq) (cq_irq_enabled cq) (cq_interrupt_ready cq)
    (cq_queue_size cq) (cq_phase cq) (cq_head cq) t (cq_slots cq).

(** The entry [__fill_cq_result] writes. *)
Definition completion_of (phase : Z) (w : io_work) : nvme_completion :=
  NvmeCompletion (w_result0 w) (w_result1 w) (u16 (w_sq_entry w)) (u16 (w_sqid w))
    (u16 (w_command_id w)) (u16 (Z.lor phase (u32 (Z.shiftl (w_status w) 1)))).

(** [__fill_cq_result] on its completion queue. *)
Definition fill_cq_result (w : io_work) (cq : completion_queue) : option completion_queue :=
  let head := cq_head cq in
  _ ← slot (cq_slots cq) head;
  let slots := <[Z.to_nat head := completion_of (cq_phase cq) w]> (cq_slots cq) in
  let wraps := head + 1 =? cq_queue_size cq in
  Some (set_cq (if wraps then 0 else head + 1)
               (if wraps then (if cq_phase cq =? 0 then 1 else 0) else cq_phase cq)
               true slots cq).

(** ** The device the dispatcher sees *)

Record nvmev_result := NvmevResult { res_status : Z; res_nsecs_target : Z }.

(** What a namespace does with a command: its result and the internal operations it
    schedules; [None] in the first place puts the command off.  The arguments are the
    number of the namespace from 0 on (which the key-value device ignores), the command,
    the submission queue and the time. *)
Class NsOps (F : Type) := {
  proc_io_cmd : Z -> nvme_command -> Z -> Z -> F -> option (option nvmev_result * list internal_op * F)
}.

Record nvmev_dev (F : Type) := NvmevDev {
  dv_io : io_device;
  dv_sqes : gmap Z submission_queue;
  dv_cqes : gmap Z completion_queue;
  dv_dbs : gmap Z Z;
  dv_old_dbs : gmap Z Z;
  dv_nr_sq : Z;
  dv_nr_cq : Z;
  dv_irqs : list Z;
  dv_ftl : F
}.
Arguments NvmevDev {F}.
Arguments dv_io {F}.
Arguments dv_sqes {F}.
Arguments dv_cqes {F}.
Arguments dv_dbs {F}.
Arguments dv_old_dbs {F}.
Arguments dv_nr_sq {F}.
Arguments dv_nr_cq {F}.
Arguments dv_irqs {F}.
Arguments dv_ftl {F}.

Section dispatcher.
Context {F : Type} `{NsOps F} (nr_max nr_workers : Z).
Abbreviation dprog := (prog (nvmev_dev F)).

Definition set_io (x : io_device) (d : nvmev_dev F) : nvmev_dev F :=
  NvmevDev x (dv_sqes d) (dv_cqes d) (dv_dbs d) (dv_old_dbs d) (dv_nr_sq d) (dv_nr_cq d) (dv_irqs d) (dv_ftl d).
Definition set_sqes (x : gmap Z submission_queue) (d : nvmev_dev F) : nvmev_dev F :=
  NvmevDev (dv_io d) x (dv_cqes d) (dv_dbs d) (dv_old_dbs d) (dv_nr_sq d) (dv_nr_cq d) (dv_irqs d) (dv_ftl d).
Definition set_cqes (x : gmap Z completion_queue) (d : nvmev_dev F) : nvmev_dev F :=
  NvmevDev (dv_io d) (dv_sqes d) x (dv_dbs d) (dv_old_dbs d) (dv_nr_sq d) (dv_nr_cq d) (dv_irqs d) (dv_ftl d).
Definition set_old_dbs (x : gmap Z Z) (d : nvmev_dev F) : nvmev_dev F :=
  NvmevDev (dv_io d) (dv_sqes d) (dv_cqes d) (dv_dbs d) x (dv_nr_sq d) (dv_nr_cq d) (dv_irqs d) (dv_ftl d).
Definition set_irqs (x : list Z) (d : nvmev_dev F) : nvmev_dev F :=
  NvmevDev (dv_io d) (dv_sqes d) (dv_cqes d) (dv_dbs d) (dv_old_dbs d) (dv_nr_sq d) (dv_nr_cq d) x (dv_ftl d).
Definition set_ftl (x : F) (d : nvmev_dev F) : nvmev_dev F :=
  NvmevDev (dv_io d) (dv_sqes d) (dv_cqes d) (dv_dbs d) (dv_old_dbs d) (dv_nr_sq d) (dv_nr_cq d) (dv_irqs d) x.

Definition on_io {A} (m : prog io_device A) : dprog A := zoom dv_io set_io m.

Definition from_option {A} (x : option A) : dprog A :=
  match x with Some a => mret a | None => undefined end.

(** [__cmd_io_size] *)
Definition cmd_io_size (cmd : nvme_rw_command) : Z := Z.shiftl (rw_length cmd + 1) 9.

(** The work a namespace schedules for itself while it processes a command. *)
Definition schedule_all (ops : list internal_op) (now : Z) : dprog unit :=
  for_each ops (fun op => _ ← on_io (schedule_internal_operation nr_max nr_workers op now); mret tt).

(** [__nvmev_proc_io]: the size of the command, or [None] if the namespace puts it off.
    [nsecs_start] is the wall clock, [now] the local one. *)
Definition nvmev_proc_io (sqid sq_entry nsecs_start now : Z) : dprog (option Z) :=
  d ← get;
  sq ← from_option (dv_sqes d !! sqid);
  cmd ← from_option (slot (sq_slots sq) sq_entry);
  let rw := cmd_rw cmd in
  r ← from_option (proc_io_cmd (u32 (rw_nsid rw - 1)) cmd sqid nsecs_start (dv_ftl d));
  let '(ret, ops, f) := (r : option nvmev_result * list internal_op * F) in
  _ ← modify (set_ftl f);
  _ ← schedule_all ops now;
  match ret with
  | None => mret None
  | Some ret =>
    _ ← on_io (enqueue_io_req nr_max nr_workers
                 (IoRequest sqid (sq_cqid sq) sq_entry (rw_command_id rw) nsecs_start
                    (res_nsecs_target ret) (res_status ret)) now);
    _ ← on_io (reclaim_completed_reqs nr_workers);
    mret (Some (cmd_io_size rw))
  end.

Definition set_stat (st : nvmev_sq_stat) (sq : submission_queue) : submission_queue :=
  SubmissionQueue (sq_qid sq) (sq_cqid sq) (sq_queue_size sq) st (sq_slots sq).

Definition mod_sq (sqid : Z) (f : submission_queue -> submission_queue) : dprog unit :=
  d ← get;
  sq ← from_option (dv_sqes d !! sqid);
  modify (set_sqes (<[sqid := f sq]> (dv_sqes d))).

Definition count_dispatched (io_size : Z) (sq : submission_queue) : submission_queue :=
  let st := sq_stat sq in
  set_stat (SqStat (u32 (nr_dispatched st + 1)) (nr_dispatch st) (u32 (nr_in_flight st + 1))
              (max_nr_in_flight st) (u64 (total_io st + io_size))) sq.

(** An [unsigned int] as an [int]. *)
Definition to_int (x : Z) : Z := if x <? 2 ^ 31 then x else x - 2 ^ 32.

Definition count_dispatch (sq : submission_queue) : submission_queue :=
  let st := sq_stat sq in
  set_stat (SqStat (nr_dispatched st) (u32 (nr_dispatch st + 1)) (nr_in_flight st)
              (u32 (Z.max (to_int (max_nr_in_flight st)) (to_int (nr_in_flight st)))) (total_io st)) sq.

(** The loop of [nvmev_proc_io_sq]: how many commands it took; [clock seq] are the two
    clocks when the command is processed. *)
Fixpoint sq_loop (n : nat) (clock : Z -> Z * Z) (sqid queue_size seq sq_entry : Z) : dprog Z :=
  match n with
  | O => mret seq
  | S n' =>
    io_size ← nvmev_proc_io sqid sq_entry (clock seq).1 (clock seq).2;
    match io_size with
    | None => mret seq
    | Some io_size =>
      let sq_entry := if sq_entry + 1 =? queue_size then 0 else sq_entry + 1 in
      _ ← mod_sq sqid (count_dispatched io_size);
      sq_loop n' clock sqid queue_size (seq + 1) sq_entry
    end
  end.

Definition nvmev_proc_io_sq (clock : Z -> Z * Z) (sqid new_db old_db : Z) : dprog Z :=
  d ← get;
  match dv_sqes d !! sqid with
  | None => mret old_db
  | Some sq =>
    let num_proc := new_db - old_db in
    let num_proc := if num_proc <? 0 then num_proc + sq_queue_size sq else num_proc in
    seq ← sq_loop (Z.to_nat num_proc) clock sqid (sq_queue_size sq) 0 old_db;
    _ ← mod_sq sqid count_dispatch;
    if sq_queue_size sq =? 0 then undefined else
    mret (Z.rem (old_db + seq) (sq_queue_size sq))
  end.

Definition count_completed (sq : submission_queue) : submission_queue :=
  let st := sq_stat sq in
  set_stat (SqStat (nr_dispatched st) (nr_dispatch st) (u32 (nr_in_flight st - 1))
              (max_nr_in_flight st) (total_io st)) sq.

(** The loop of [nvmev_proc_io_cq]; the slot is read before the test for the end of the
    ring, and the table of submission queues has [NR_MAX_IO_QUEUE + 1] places. *)
Fixpoint cq_loop (fuel : nat) (cq : completion_queue) (i new_db : Z) : dprog unit :=
  if i =? new_db then mret tt else
  match fuel with
  | O => undefined
  | S n =>
    e ← from_option (slot (cq_slots cq) i);
    if cq_queue_size cq <=? i then cq_loop n cq 0 new_db else
    if NR_MAX_IO_QUEUE <? cqe_sq_id e then undefined else
    d ← get;
    _ ← (match dv_sqes d !! cqe_sq_id e with
         | None => mret tt
         | Some _ => mod_sq (cqe_sq_id e) count_completed
         end);
    cq_loop n cq (i + 1) new_db
  end.

Definition nvmev_proc_io_cq (cqid new_db old_db : Z) : dprog unit :=
  d ← get;
  cq ← from_option (dv_cqes d !! cqid);
  _ ← cq_loop (Z.to_nat (2 * cq_queue_size cq + 2)) cq old_db new_db;
  modify (fun d => set_cqes (alter (set_cq_tail (if new_db =? -1 then cq_queue_size cq - 1 else new_db - 1))
                               cqid (dv_cqes d)) d).

(** The part of [nvmev_proc_dbs] for the queues of I/O commands, [qid] from 1 on.  Doorbells are 32-bit
    registers the code reads into [int]s. *)
Definition db (m : gmap Z Z) (i : Z) : Z := to_int (default 0 (m !! i)).

Definition proc_sq_db (clock : Z -> Z * Z) (qid : Z) : dprog bool :=
  d ← get;
  match dv_sqes d !! qid with
  | None => mret false
  | Some _ =>
    let new_db := db (dv_dbs d) (qid * 2) in
    let old_db := db (dv_old_dbs d) (qid * 2) in
    if new_db =? old_db then mret false else
    r ← nvmev_proc_io_sq clock qid new_db old_db;
    _ ← modify (fun d => set_old_dbs (<[qid * 2 := u32 r]> (dv_old_dbs d)) d);
    mret true
  end.

Definition proc_cq_db (qid : Z) : dprog bool :=
  d ← get;
  match dv_cqes d !! qid with
  | None => mret false
  | Some _ =>
    let new_db := db (dv_dbs d) (qid * 2 + 1) in
    let old_db := db (dv_old_dbs d) (qid * 2 + 1) in
    if new_db =? old_db then mret false else
    _ ← nvmev_proc_io_cq qid new_db old_db;
    _ ← modify (fun d => set_old_dbs (<[qid * 2 + 1 := u32 new_db]> (dv_old_dbs d)) d);
    mret true
  end.

Fixpoint any (l : list Z) (f : Z -> dprog bool) : dprog bool :=
  match l with
  | [] => mret false
  | x :: l' => a ← f x; b ← any l' f; mret (a || b)
  end.

Definition proc_io_dbs (clock : Z -> Z -> Z * Z) : dprog bool :=
  d ← get;
  a ← any (seqZ 1 (dv_nr_sq d)) (fun qid => proc_sq_db (clock qid) qid);
  d ← get;
  b ← any (seqZ 1 (dv_nr_cq d)) proc_cq_db;
  mret (a || b).

(** The interrupts a worker raises after a pass; [free qidx]: it gets the lock. *)
Definition worker_irqs (worker_id : Z) (free : Z -> bool) : dprog unit :=
  d ← get;
  for_each (seqZ 1 (dv_nr_cq d)) (fun qidx =>
    if negb (worker_id =? get_io_worker nr_workers qidx) then mret tt else
    d ← get;
    match dv_cqes d !! qidx with
    | None => mret tt
    | Some cq =>
      if negb (cq_irq_enabled cq) then mret tt else
      if free qidx && cq_interrupt_ready cq then
        modify (fun d => set_irqs (dv_irqs d ++ [cq_irq_vector cq])
          (set_cqes (<[qidx := set_cq (cq_head cq) (cq_phase cq) false (cq_slots cq) cq]> (dv_cqes d)) d))
      else mret tt
    end).
End dispatcher.
