(* ===== verification/IoRingProps.v ===== *)
(** * Submission and completion queues of the NVMe emulator: theorems

    A completion queue is a first-in first-out channel to the host; a submission queue
    is processed in order, each command once; the counts of commands in flight follow
    the doorbells. *)
From S2P Require Import Prelude KvFtl IoQueue IoRing.

(** ** Completion queues

    The host of a completion queue keeps its position and the phase it expects, and
    takes an entry when its phase bit has that value. *)
Record cq_host := CqHost { h_head : Z; h_phase : Z }.

Definition phase_bit (e : nvme_completion) : Z := cqe_status e mod 2.

Definition poll (cq : completion_queue) (h : cq_host) : option (nvme_completion * cq_host) :=
  e ← slot (cq_slots cq) (h_head h);
  if phase_bit e =? h_phase h then
    let wraps := h_head h + 1 =? cq_queue_size cq in
    Some (e, CqHost (if wraps then 0 else h_head h + 1)
                    (if wraps then (if h_phase h =? 0 then 1 else 0) else h_phase h))
  else None.

(** A new queue on zeroed memory. *)
Definition fresh_cq (cq : completion_queue) : Prop :=
  0 < cq_queue_size cq <= Z.of_nat (length (cq_slots cq)) /\ cq_head cq = 0 /\ cq_phase cq = 1 /\
  Forall (fun e => phase_bit e = 0) (cq_slots cq).

(** Posting and polling, as long as no more than [queue_size] entries are outstanding. *)
Inductive cq_run (cq0 : completion_queue) :
    list io_work -> list nvme_completion -> completion_queue -> cq_host -> Prop :=
| cq_start : cq_run cq0 [] [] cq0 (CqHost 0 1)
| cq_post ws es cq h w cq' :
    cq_run cq0 ws es cq h -> Z.of_nat (length ws - length es) < cq_queue_size cq ->
    fill_cq_result w cq = Some cq' -> cq_run cq0 (ws ++ [w]) es cq' h
| cq_poll ws es cq h e h' :
    cq_run cq0 ws es cq h -> poll cq h = Some (e, h') -> cq_run cq0 ws (es ++ [e]) cq h'.

(** The phase of the [n]th entry. *)
Definition phase_of (size n : Z) : Z := 1 - (n / size) mod 2.

Lemma phase_of_01 size n : phase_of size n = 0 \/ phase_of size n = 1.
Proof. unfold phase_of. pose proof (Z.mod_pos_bound (n / size) 2). lia. Qed.

Lemma phase_of_next size n : 0 < size -> 0 <= n ->
  (if n mod size + 1 =? size then (if phase_of size n =? 0 then 1 else 0) else phase_of size n)
    = phase_of size (n + 1) /\
  (if n mod size + 1 =? size then 0 else n mod size + 1) = (n + 1) mod size.
Proof.
  intros Hs Hn. pose proof (Z.mod_pos_bound n size Hs) as Hb.
  pose proof (Z.div_mod n size ltac:(lia)) as Hd.
  destruct (Z.eqb_spec (n mod size + 1) size) as [E|E].
  - assert (Hdiv : (n + 1) / size = n / size + 1).
    { symmetry. apply (Z.div_unique_pos _ _ _ 0); lia. }
    assert (Hmod : (n + 1) mod size = 0).
    { symmetry. apply (Z.mod_unique_pos _ _ (n / size + 1)); lia. }
    split; [|done]. unfold phase_of. rewrite Hdiv.
    destruct (Z.eqb_spec (1 - (n / size) mod 2) 0) as [E1|E1];
      pose proof (Z.mod_pos_bound (n / size) 2); rewrite Z.add_mod by lia;
      [replace ((n / size) mod 2) with 1 by lia|replace ((n / size) mod 2) with 0 by lia]; done.
  - assert (Hdiv : (n + 1) / size = n / size).
    { symmetry. apply (Z.div_unique_pos _ _ _ (n mod size + 1)); lia. }
    assert (Hmod : (n + 1) mod size = n mod size + 1).
    { symmetry. apply (Z.mod_unique_pos _ _ (n / size)); lia. }
    unfold phase_of. by rewrite Hdiv, Hmod.
Qed.

(** One turn of the ring later the phase is the other one. *)
Lemma phase_of_turn size n : 0 < size -> phase_of size (n + size) <> phase_of size n.
Proof.
  intros Hs. unfold phase_of. replace (n + size) with (n + 1 * size) by lia.
  rewrite Z.div_add by lia. rewrite Z.add_mod by lia.
  pose proof (Z.mod_pos_bound (n / size) 2). 
  assert ((n / size) mod 2 = 0 \/ (n / size) mod 2 = 1) as [-> | ->] by lia; done.
Qed.

Lemma completion_phase ph w : ph = 0 \/ ph = 1 -> phase_bit (completion_of ph w) = ph.
Proof.
  intros Hp. unfold phase_bit, completion_of. simpl.
  rewrite <- (Z.bit0_mod). unfold wrap. rewrite Z.mod_pow2_bits_low by lia.
  rewrite Z.lor_spec, Z.mod_pow2_bits_low, Z.shiftl_spec by lia.
  rewrite (Z.testbit_neg_r (w_status w)) by lia. by destruct Hp as [-> | ->].
Qed.

Lemma mod_apart size n p : 0 < size -> 0 < p - n < size -> n mod size <> p mod size.
Proof.
  intros Hs Hd E. assert ((p - n) mod size = 0) as H0.
  { rewrite Zminus_mod, E, Z.sub_diag. by apply Z.mod_0_l; lia. }
  rewrite Z.mod_small in H0 by lia. lia.
Qed.

Lemma slot_Some {A} (l : list A) i x : slot l i = Some x <-> 0 <= i < Z.of_nat (length l) /\ l !! Z.to_nat i = Some x.
Proof.
  unfold slot. destruct (_ && _) eqn:E; bool_to_prop; [naive_solver|].
  apply andb_false_iff in E. split; [done|]. intros [? _]. destruct E; bool_to_prop; lia.
Qed.

Lemma ring_slot_some {A} (l : list A) i : 0 <= i < Z.of_nat (length l) -> is_Some (slot l i).
Proof.
  intros Hi. destruct (l !! Z.to_nat i) as [x|] eqn:E; [|apply lookup_ge_None in E; lia].
  exists x. by apply slot_Some.
Qed.

Lemma slot_insert {A} (l : list A) i x j :
  0 <= i < Z.of_nat (length l) -> slot (<[Z.to_nat i := x]> l) j = if j =? i then Some x else slot l j.
Proof.
  intros Hi. unfold slot. rewrite length_insert. destruct (Z.eqb_spec j i) as [->|N].
  - replace ((0 <=? i) && (i <? Z.of_nat (length l))) with true by bool_lia.
    apply list_lookup_insert_eq. lia.
  - destruct (_ && _) eqn:E; [|done]. bool_to_prop. apply list_lookup_insert_ne. lia.
Qed.

Section ring.
Context (size : Z) (Hsize : 0 < size).

(** The state of the ring after [ws] were posted and [es] taken. *)
Record ring_ok (ws : list io_work) (es : list nvme_completion) (cq : completion_queue) (h : cq_host) : Prop := {
  rk_size : cq_queue_size cq = size;
  rk_slots : size <= Z.of_nat (length (cq_slots cq));
  rk_count : Z.of_nat (length es) <= Z.of_nat (length ws) <= Z.of_nat (length es) + size;
  rk_head : cq_head cq = Z.of_nat (length ws) mod size;
  rk_phase : cq_phase cq = phase_of size (Z.of_nat (length ws));
  rk_hhead : h_head h = Z.of_nat (length es) mod size;
  rk_hphase : h_phase h = phase_of size (Z.of_nat (length es));
  rk_written : forall n w, ws !! n = Some w -> Z.of_nat (length ws) - size <= Z.of_nat n ->
    slot (cq_slots cq) (Z.of_nat n mod size) = Some (completion_of (phase_of size (Z.of_nat n)) w);
  rk_fresh : forall n, Z.of_nat (length ws) <= n < size ->
    exists e, slot (cq_slots cq) n = Some e /\ phase_bit e = 0;
  rk_taken : forall n e, es !! n = Some e ->
    exists w, ws !! n = Some w /\ e = completion_of (phase_of size (Z.of_nat n)) w
}.

Lemma ring_ok_init cq : cq_queue_size cq = size -> fresh_cq cq -> ring_ok [] [] cq (CqHost 0 1).
Proof.
  intros Es (Hs & Hh & Hp & Hf).
  assert (phase_of size 0 = 1 /\ 0 mod size = 0) as [E1 E2].
  { unfold phase_of. rewrite Z.div_0_l, Z.mod_0_l by lia. done. }
  split; simpl; try done; try lia.
  - intros n Hn. destruct (ring_slot_some (cq_slots cq) n) as [e He]; [lia|]. exists e. split; [done|].
    apply slot_Some in He as [_ He]. rewrite Forall_lookup in Hf. by apply (Hf _ _ He).
Qed.

Lemma ring_ok_post ws es cq h w cq' :
  ring_ok ws es cq h -> Z.of_nat (length ws - length es) < size ->
  fill_cq_result w cq = Some cq' -> ring_ok (ws ++ [w]) es cq' h.
Proof.
  intros [Hz Hl Hc Hh Hp Hhh Hhp Hw Hf Ht] Hroom. set (p := Z.of_nat (length ws)) in *.
  pose proof (Z.mod_pos_bound p size Hsize) as Hpb. unfold fill_cq_result. rewrite Hh, Hz, Hp.
  destruct (ring_slot_some (cq_slots cq) (p mod size)) as [x ->]; [lia|]. simpl.
  destruct (phase_of_next size p Hsize ltac:(lia)) as [E1 E2]. rewrite E1, E2. intros [= <-].
  assert (Hp1 : Z.of_nat (length (ws ++ [w])) = p + 1) by (rewrite length_app; simpl; lia).
  split; simpl; rewrite ?Hp1; try done; try lia.
  - by rewrite length_insert.
  - intros n w' Hn Hge. rewrite slot_insert by lia.
    apply lookup_app_Some in Hn as [Hn|[Hge' Hn]].
    + pose proof (lookup_lt_Some _ _ _ Hn).
      destruct (Z.eqb_spec (Z.of_nat n mod size) (p mod size)) as [E|_].
      { by destruct (mod_apart size (Z.of_nat n) p Hsize); [lia|]. }
      apply Hw; [done|lia].
    + apply list_lookup_singleton_Some in Hn as [Hn <-].
      replace (Z.of_nat n) with p by lia. by rewrite Z.eqb_refl.
  - intros n Hn. rewrite slot_insert by lia. rewrite (Z.mod_small p) by lia.
    replace (n =? p) with false by bool_lia. apply Hf. lia.
  - intros n e He. destruct (Ht n e He) as (w' & Hw' & ->). exists w'. split; [|done].
    by apply lookup_app_l_Some.
Qed.

(** The host sees an entry exactly if one is outstanding. *)
Lemma ring_ok_poll ws es cq h :
  ring_ok ws es cq h ->
  match poll cq h with
  | Some (e, h') => (length es < length ws)%nat /\ ring_ok ws (es ++ [e]) cq h'
  | None => length es = length ws
  end.
Proof.
  intros [Hz Hl Hc Hh Hp Hhh Hhp Hw Hf Ht]. unfold poll.
  set (c := Z.of_nat (length es)) in *. set (p := Z.of_nat (length ws)) in *.
  pose proof (Z.mod_pos_bound c size Hsize) as Hcb.
  destruct (ring_slot_some (cq_slots cq) (h_head h)) as [e He]; [lia|]. rewrite He. simpl.
  destruct (decide (c = p)) as [Ecp|Ncp].
  - assert (Hbit : phase_bit e <> h_phase h).
    { rewrite Hhh in He. rewrite Hhp. destruct (Z.lt_ge_cases p size) as [Hlt|Hge].
      - rewrite Z.mod_small in He by lia. destruct (Hf c) as (e' & He' & Hb); [lia|].
        rewrite He in He'. injection He' as <-. rewrite Hb. unfold phase_of.
        by rewrite Z.div_small by lia.
      - destruct (lookup_lt_is_Some_2 ws (Z.to_nat (p - size))) as [w Hwn]; [lia|].
        specialize (Hw _ _ Hwn). rewrite Z2Nat.id in Hw by lia. specialize (Hw ltac:(lia)).
        replace ((p - size) mod size) with (c mod size) in Hw
          by (rewrite Ecp; replace p with (p - size + 1 * size) at 1 by lia; by apply Z.mod_add; lia).
        rewrite He in Hw. injection Hw as ->. rewrite completion_phase by apply phase_of_01.
        pose proof (phase_of_turn size (p - size) Hsize) as Hn.
        replace (p - size + size) with c in Hn by lia. congruence. }
    replace (phase_bit e =? h_phase h) with false by bool_lia. lia.
  - destruct (lookup_lt_is_Some_2 ws (length es)) as [w Hwn]; [lia|].
    pose proof (Hw _ _ Hwn ltac:(lia)) as Hs. fold c in Hs. rewrite <- Hhh, He in Hs. injection Hs as ->.
    rewrite completion_phase, Hhp, Z.eqb_refl by apply phase_of_01. rewrite Hhh, Hz.
    destruct (phase_of_next size c Hsize ltac:(lia)) as [E1 E2]. rewrite E1, E2. split; [lia|].
    assert (Hc1 : Z.of_nat (length (es ++ [completion_of (phase_of size c) w])) = c + 1)
      by (rewrite length_app; simpl; lia).
    split; rewrite ?Hc1; try done; try lia. intros n e' He'.
    apply lookup_app_Some in He' as [He'|[Hge He']]; [by apply Ht|].
    apply list_lookup_singleton_Some in He' as [Hn <-].
    assert (n = length es) as -> by lia. by exists w.
Qed.
End ring.

Lemma cq_run_ok cq0 ws es cq h :
  fresh_cq cq0 -> cq_run cq0 ws es cq h -> ring_ok (cq_queue_size cq0) ws es cq h.
Proof.
  intros Hf. pose proof Hf as [[Hs _] _]. induction 1 as [|ws es cq h w cq' _ IH Hroom Hfill|ws es cq h e h' _ IH Hp].
  - by apply ring_ok_init.
  - eapply ring_ok_post; [done|exact IH| |done]. by rewrite (rk_size _ _ _ _ _ IH) in Hroom.
  - pose proof (ring_ok_poll _ Hs _ _ _ _ IH) as Hpk. rewrite Hp in Hpk. apply Hpk.
Qed.

(** The entry delivers the request. *)
Definition delivers (w : io_work) (e : nvme_completion) : Prop :=
  exists ph, (ph = 0 \/ ph = 1) /\ e = completion_of ph w.

Lemma ring_fifo cq0 ws es cq h :
  fresh_cq cq0 -> cq_run cq0 ws es cq h ->
  Forall2 delivers (take (length es) ws) es /\ (length es <= length ws)%nat /\
  (poll cq h = None <-> length es = length ws).
Proof.
  intros Hf Hr. pose proof (cq_run_ok _ _ _ _ _ Hf Hr) as Hk. pose proof Hf as [[Hs _] _].
  assert (Hle : (length es <= length ws)%nat) by (pose proof (rk_count _ _ _ _ _ Hk); lia).
  split; [|split; [done|]].
  - apply Forall2_same_length_lookup. split; [rewrite length_take; lia|]. intros n w e Hw He.
    destruct (rk_taken _ _ _ _ _ Hk n e He) as (w' & Hw' & ->).
    apply lookup_take_Some in Hw as [Hw _]. simplify_eq. eexists. split; [apply phase_of_01|done].
  - pose proof (ring_ok_poll _ Hs _ _ _ _ Hk) as Hp. destruct (poll cq h) as [[e h']|]; [|done].
    destruct Hp as [Hlt _]. split; [done|lia].
Qed.


(** ** Positions on a ring *)

(** How far it is from [old] to [new], and the [n] positions from [old] on. *)
Definition distance (size old new : Z) : Z := if new - old <? 0 then new - old + size else new - old.
Definition ring_from (size old n : Z) : list Z := (fun i => (old + i) mod size) <$> seqZ 0 n.

Section positions.
Context (size : Z) (Hsize : 0 < size).

Lemma ring_from_cons old n : 0 <= old < size -> 0 < n ->
  ring_from size old n = old :: ring_from size (if old + 1 =? size then 0 else old + 1) (n - 1).
Proof.
  intros Ho Hn. unfold ring_from. rewrite seqZ_cons by lia. rewrite fmap_cons.
  rewrite Z.add_0_r, Z.mod_small by lia. f_equal. replace (Z.pred n) with (n - 1) by lia.
  change (Z.succ 0) with (1 + 0). rewrite <- fmap_add_seqZ, <- list_fmap_compose.
  apply list_fmap_ext. intros _ x _. unfold compose. simpl.
  destruct (Z.eqb_spec (old + 1) size) as [E|E].
  - replace (old + (1 + x)) with (0 + x + 1 * size) by lia. by rewrite Z.mod_add by lia.
  - f_equal. lia.
Qed.

Lemma ring_from_app old n m : 0 <= n -> 0 <= m ->
  ring_from size old (n + m) = ring_from size old n ++ ring_from size ((old + n) mod size) m.
Proof.
  intros Hn Hm. unfold ring_from. rewrite seqZ_app, fmap_app by lia. f_equal. rewrite Z.add_0_l.
  rewrite <- (Z.add_0_r n) at 1. rewrite <- fmap_add_seqZ, <- list_fmap_compose.
  apply list_fmap_ext. intros _ x _. simpl. rewrite Zplus_mod_idemp_l. f_equal. lia.
Qed.

Lemma distance_range old new : 0 <= old < size -> 0 <= new < size -> 0 <= distance size old new < size.
Proof. unfold distance. intros ? ?. destruct (Z.ltb_spec (new - old) 0); lia. Qed.

Lemma distance_step old new k :
  0 <= old < size -> 0 <= new < size -> 0 <= k <= distance size old new ->
  distance size ((old + k) mod size) new = distance size old new - k.
Proof.
  unfold distance. intros Ho Hn Hk.
  destruct (Z.lt_ge_cases (old + k) size) as [Hlt|Hge].
  - rewrite Z.mod_small by lia. repeat (case_if Hb; bool_to_prop); try lia.
    all: destruct (Z.ltb_spec (new - (old + k)) 0), (Z.ltb_spec (new - old) 0); lia.
  - replace ((old + k) mod size) with (old + k - size).
    + destruct (Z.ltb_spec (new - (old + k - size)) 0), (Z.ltb_spec (new - old) 0); lia.
    + apply (Z.mod_unique_pos _ _ 1); destruct (Z.ltb_spec (new - old) 0); lia.
Qed.
End positions.

(** ** Submission queues *)

Lemma bind_done {St A B} (m : prog St A) (k : A -> prog St B) s b s' :
  (m ≫= k) s = Done b s' -> exists a s1, m s = Done a s1 /\ k a s1 = Done b s'.
Proof. unfold mbind, prog_bind. destruct (m s); [eauto|done|done]. Qed.

(** [m] leaves what [view] shows alone. *)
Definition preserves {St A V} (view : St -> V) (m : prog St A) : Prop :=
  forall s a s', m s = Done a s' -> view s' = view s.

Section preserves_rules.
Context {St V : Type} (view : St -> V).

Lemma preserves_ret {A} (a : A) : preserves view (mret a).
Proof. by intros s b s' [= <- <-]. Qed.
Lemma preserves_bind {A B} (m : prog St A) (k : A -> prog St B) :
  preserves view m -> (forall a, preserves view (k a)) -> preserves view (m ≫= k).
Proof.
  intros Hm Hk s b s' (a & s1 & E & E')%bind_done. rewrite (Hk _ _ _ _ E'). by eapply Hm.
Qed.
Lemma preserves_get : preserves view get.
Proof. by intros s b s' [= <- <-]. Qed.
Lemma preserves_modify f : (forall s, view (f s) = view s) -> preserves view (modify f).
Proof. intros Hf s b s' [= <- <-]. apply Hf. Qed.
Lemma preserves_for_each {A} (l : list A) body :
  (forall x, preserves view (body x)) -> preserves view (for_each l body).
Proof.
  intros Hb. induction l as [|x l IH]; [apply preserves_ret|]. by apply preserves_bind.
Qed.
End preserves_rules.

Create HintDb preserve.
#[export] Hint Resolve preserves_ret preserves_get : preserve.
#[export] Hint Extern 2 (preserves _ (_ ≫= _)) => (apply preserves_bind; [|intros]) : preserve.
#[export] Hint Extern 2 (preserves _ (modify _)) => (apply preserves_modify; by intros []) : preserve.

Section submission.
Context {F : Type} `{NsOps F} (nr_max nr_workers : Z).
Implicit Types (d : nvmev_dev F).

Lemma preserves_on_io {A} (m : prog io_device A) : preserves dv_sqes (on_io (F := F) m).
Proof. intros d a d'. unfold on_io, zoom. destruct (m (dv_io d)); [|done|done]. by intros [= <- <-]. Qed.
Lemma preserves_from_option {A} (x : option A) : preserves (dv_sqes (F := F)) (from_option x).
Proof. intros d a d'. by destruct x as [y|]; [intros [= <- <-]|]. Qed.
Hint Resolve preserves_on_io preserves_from_option : preserve.

Lemma proc_io_sqes sqid e t now : preserves dv_sqes (nvmev_proc_io nr_max nr_workers sqid e t now).
Proof.
  unfold nvmev_proc_io. apply preserves_bind; [auto with preserve|intros d].
  apply preserves_bind; [auto with preserve|intros sq].
  apply preserves_bind; [auto with preserve|intros cmd].
  apply preserves_bind; [auto with preserve|intros [[ret ops] f]].
  apply preserves_bind; [auto with preserve|intros _].
  apply preserves_bind.
  { apply preserves_for_each. intros op. auto with preserve. }
  intros _. destruct ret; auto 6 with preserve.
Qed.

(** The commands of the slots [l] are processed one after the other, and counted. *)
Inductive processed (clock : Z -> Z * Z) (sqid : Z) : Z -> list Z -> nvmev_dev F -> nvmev_dev F -> Prop :=
| processed_nil seq d : processed clock sqid seq [] d d
| processed_cons seq e l d io_size d1 d2 d3 :
    nvmev_proc_io nr_max nr_workers sqid e (clock seq).1 (clock seq).2 d = Done (Some io_size) d1 ->
    mod_sq sqid (count_dispatched io_size) d1 = Done tt d2 ->
    processed clock sqid (seq + 1) l d2 d3 ->
    processed clock sqid seq (e :: l) d d3.

Lemma sq_loop_spec clock sqid size n seq e d r d' :
  0 < size -> 0 <= e < size ->
  sq_loop nr_max nr_workers n clock sqid size seq e d = Done r d' ->
  exists k, 0 <= k <= Z.of_nat n /\ r = seq + k /\
    exists d1, processed clock sqid seq (ring_from size e k) d d1 /\
      ((k = Z.of_nat n /\ d' = d1) \/
       nvmev_proc_io nr_max nr_workers sqid ((e + k) mod size) (clock r).1 (clock r).2 d1 = Done None d').
Proof.
  intros Hs. revert seq e d. induction n as [|n IH]; intros seq e d He; simpl.
  { intros [= <- <-]. exists 0. split; [lia|]. split; [lia|]. exists d. split; [constructor|]. left. done. }
  intros ([io|] & d1 & E1 & Hr)%bind_done.
  2: { injection Hr as <- <-. exists 0. split; [lia|]. split; [lia|]. exists d. split; [constructor|]. right.
       by rewrite Z.add_0_r, Z.mod_small by lia. }
  apply bind_done in Hr as ([] & d2 & E2 & Hr). apply IH in Hr as (k & Hk & -> & d3 & Hp & Hend); [|destruct (Z.eqb_spec (e + 1) size); lia].
  exists (k + 1). split; [lia|]. split; [lia|]. exists d3. split.
  - rewrite ring_from_cons by lia. econstructor; [done..|]. by replace (k + 1 - 1) with k by lia.
  - destruct Hend as [[-> ->]|Hend]; [left; split; [lia|done]|right].
    rewrite <- Hend. f_equal; [|f_equal; f_equal; lia..].
    destruct (Z.eqb_spec (e + 1) size) as [E|E]; [|f_equal; lia].
    replace (e + (k + 1)) with (0 + k + 1 * size) by lia. by rewrite Z.mod_add by lia.
Qed.

Lemma processed_sqes clock sqid seq l d d' sq :
  processed clock sqid seq l d d' -> dv_sqes d !! sqid = Some sq ->
  exists st, dv_sqes d' !! sqid = Some (set_stat st sq) /\
    nr_in_flight st = (if bool_decide (l = []) then nr_in_flight (sq_stat sq)
                       else u32 (nr_in_flight (sq_stat sq) + Z.of_nat (length l))).
Proof.
  intros Hp. revert sq. induction Hp as [seq d|seq e l d io d1 d2 d3 H1 H2 _ IH]; intros sq Hsq.
  { exists (sq_stat sq). split; [|done]. by destruct sq. }
  apply proc_io_sqes in H1. unfold mod_sq in H2. apply bind_done in H2 as (? & ? & [= <- <-] & H2).
  rewrite H1, Hsq in H2. apply bind_done in H2 as (? & ? & [= <- <-] & [= <-]).
  destruct (IH (count_dispatched io sq)) as (st & Hst & Hn); [simpl; by rewrite lookup_insert_eq|].
  exists st. split; [rewrite Hst; by destruct sq|]. rewrite Hn. simpl.
  case_bool_decide as Hl.
  - subst l. simpl. f_equal.
  - simpl length. unfold wrap. rewrite Zplus_mod_idemp_l. f_equal. lia.
Qed.

(** C25: When the host rings the doorbell of a submission queue, the commands between the
    old and the new position are handed to their namespace in order, each once, up to
    the first one the namespace puts off; the position that is kept stands for exactly
    the commands that are left, and the count of commands in flight grows by those that
    were taken. *)
Theorem sq_ring_in_order clock sqid new_db old_db d r d' sq :
  dv_sqes d !! sqid = Some sq ->
  0 <= old_db < sq_queue_size sq -> 0 <= new_db < sq_queue_size sq ->
  nvmev_proc_io_sq nr_max nr_workers clock sqid new_db old_db d = Done r d' ->
  let size := sq_queue_size sq in
  let n := distance size old_db new_db in
  exists k d1, 0 <= k <= n /\ 0 <= r < size /\
    processed clock sqid 0 (ring_from size old_db k) d d1 /\
    ring_from size old_db n = ring_from size old_db k ++ ring_from size r (distance size r new_db) /\
    (r = new_db \/ exists d2,
       nvmev_proc_io nr_max nr_workers sqid r (clock k).1 (clock k).2 d1 = Done None d2) /\
    exists sq', dv_sqes d' !! sqid = Some sq' /\
      nr_in_flight (sq_stat sq') =
        (if k =? 0 then nr_in_flight (sq_stat sq) else u32 (nr_in_flight (sq_stat sq) + k)).
Proof.
  intros Hsq Ho Hn Hrun size n. assert (Hsz : 0 < size) by (unfold size; lia).
  pose proof (distance_range size old_db new_db Ho Hn) as Hd. fold n in Hd.
  unfold nvmev_proc_io_sq in Hrun. apply bind_done in Hrun as (? & ? & [= <- <-] & Hrun).
  rewrite Hsq in Hrun. apply bind_done in Hrun as (seq & d1 & Hloop & Hrun).
  apply bind_done in Hrun as ([] & d2 & Hcount & Hrun). fold size in Hloop, Hrun.
  fold (distance size old_db new_db) in Hloop. fold n in Hloop.
  replace (size =? 0) with false in Hrun by bool_lia. injection Hrun as <- <-.
  apply sq_loop_spec in Hloop as (k & Hk & -> & d3 & Hp & Hend); [|done|done].
  rewrite Z2Nat.id in Hk, Hend by lia. rewrite Z.add_0_l in *.
  rewrite Z.rem_mod_nonneg by lia. pose proof (Z.mod_pos_bound (old_db + k) size Hsz) as Hr.
  pose proof (distance_step size Hsz old_db new_db k Ho Hn ltac:(fold n; lia)) as Hdk. fold n in Hdk.
  exists k, d3. split; [done|]. split; [done|]. split; [done|]. split; [|split].
  - rewrite Hdk. rewrite <- ring_from_app by lia. f_equal. lia.
  - destruct Hend as [[-> _]|Hend]; [left|right; by exists d1].
    rewrite Z.sub_diag in Hdk. unfold distance in Hdk.
    destruct (Z.ltb_spec (new_db - (old_db + n) mod size) 0); lia.
  - destruct (processed_sqes _ _ _ _ _ _ _ Hp Hsq) as (st & Hst & Hin).
    assert (Hd1 : dv_sqes d1 = dv_sqes d3).
    { destruct Hend as [[_ ->]|Hend]; [done|]. by eapply proc_io_sqes. }
    unfold mod_sq in Hcount. apply bind_done in Hcount as (? & ? & [= <- <-] & Hcount).
    rewrite Hd1, Hst in Hcount. apply bind_done in Hcount as (? & ? & [= <- <-] & [= <-]).
    eexists. split; [simpl; by rewrite lookup_insert_eq|]. simpl. rewrite Hin.
    unfold ring_from. rewrite length_fmap, length_seqZ, Z2Nat.id by lia.
    destruct (Z.eqb_spec k 0) as [->|Hk0]; [done|].
    rewrite bool_decide_eq_false_2; [done|]. rewrite seqZ_cons by lia. done.
Qed.
End submission.

(** ** Doorbells of completion queues *)

(** The entries of a completion queue at positions [l]. *)
Definition entries_at (cq : completion_queue) (l : list Z) : list nvme_completion :=
  l ≫= fun i => match slot (cq_slots cq) i with Some e => [e] | None => [] end.

(** The entries for one submission queue. *)
Definition entries_of (sqid : Z) (es : list nvme_completion) : Z :=
  Z.of_nat (count (fun e => cqe_sq_id e =? sqid) es).

(** The submission queue of an entry has a place in the table of the device. *)
Definition sq_known (e : nvme_completion) : Prop := cqe_sq_id e <= NR_MAX_IO_QUEUE.

Section completion.
Context {F : Type}.
Implicit Types (d : nvmev_dev F).

(** [es] are taken off the counts of commands in flight. *)
Definition settle (es : list nvme_completion) (d : nvmev_dev F) : nvmev_dev F :=
  foldl (fun d e => set_sqes (alter count_completed (cqe_sq_id e) (dv_sqes d)) d) d es.

Lemma alter_insert {A} (f : A -> A) (k : Z) (m : gmap Z A) :
  alter f k m = match m !! k with Some x => <[k := f x]> m | None => m end.
Proof.
  apply map_eq. intros i. destruct (decide (i = k)) as [->|N].
  - rewrite lookup_alter_eq. destruct (m !! k) as [x|] eqn:E; [by rewrite lookup_insert_eq|by rewrite E].
  - rewrite lookup_alter_ne by done. destruct (m !! k); [by rewrite lookup_insert_ne|done].
Qed.

Lemma count_step (e : nvme_completion) d :
  (match dv_sqes d !! cqe_sq_id e with
   | None => mret tt
   | Some _ => mod_sq (cqe_sq_id e) count_completed
   end) d = Done tt (settle [e] d).
Proof.
  simpl. rewrite alter_insert. destruct (dv_sqes d !! cqe_sq_id e) as [sq|] eqn:E.
  - unfold mod_sq, mbind, prog_bind. simpl. by rewrite E.
  - by destruct d.
Qed.

Lemma slot_forall {A} (P : A -> Prop) (l : list A) i x : Forall P l -> slot l i = Some x -> P x.
Proof. intros HF. unfold slot. case_match; [|done]. by apply Forall_lookup_1. Qed.

(** Up to the end of the ring or the new position. *)
Lemma cq_loop_forward cq fuel i new_db d (Q : unit -> nvmev_dev F -> Prop) (k : nat) :
  0 <= i -> i + Z.of_nat k <= cq_queue_size cq -> cq_queue_size cq <= Z.of_nat (length (cq_slots cq)) ->
  ~ (i <= new_db < i + Z.of_nat k) -> Forall sq_known (cq_slots cq) ->
  wp never (cq_loop fuel cq (i + Z.of_nat k) new_db) Q (settle (entries_at cq (seqZ i (Z.of_nat k))) d) ->
  wp never (cq_loop (k + fuel) cq i new_db) Q d.
Proof.
  revert i d. induction k as [|k IH]; intros i d Hi Hk Hl Hn HF Hw.
  { by rewrite Z.add_0_r in Hw. }
  simpl. destruct (Z.eqb_spec i new_db) as [->|]; [lia|].
  destruct (ring_slot_some (cq_slots cq) i) as [e He]; [lia|]. rewrite He.
  apply wp_bind, wp_ret. replace (cq_queue_size cq <=? i) with false by bool_lia.
  pose proof (slot_forall _ _ _ _ HF He) as Hid. unfold sq_known in Hid.
  replace (NR_MAX_IO_QUEUE <? cqe_sq_id e) with false by bool_lia.
  apply wp_bind, wp_get. apply wp_bind. eapply wp_of_done; [apply count_step|].
  apply IH; [lia..|done|]. replace (i + 1 + Z.of_nat k) with (i + Z.of_nat (S k)) by lia.
  replace (settle (entries_at cq (seqZ (i + 1) (Z.of_nat k))) (settle [e] d))
    with (settle (entries_at cq (seqZ i (Z.of_nat (S k)))) d); [done|].
  rewrite (seqZ_cons i) by lia. unfold entries_at. cbn [mbind list_bind]. rewrite He.
  unfold settle. rewrite foldl_app. by replace (Z.pred (Z.of_nat (S k))) with (Z.of_nat k) by lia.
Qed.
Lemma ring_from_straight size old n : 0 <= old -> old + n <= size -> 0 < size ->
  ring_from size old n = seqZ old n.
Proof.
  intros Ho Hn Hs. unfold ring_from. replace (seqZ old n) with (seqZ (old + 0) n) by (f_equal; lia).
  rewrite <- fmap_add_seqZ.
  apply list_fmap_ext. intros i x Hx%lookup_seqZ. apply Z.mod_small. lia.
Qed.

Lemma settle_app es es' d : settle (es ++ es') d = settle es' (settle es d).
Proof. unfold settle. by rewrite foldl_app. Qed.

Lemma entries_at_app cq l l' : entries_at cq (l ++ l') = entries_at cq l ++ entries_at cq l'.
Proof. unfold entries_at. by rewrite bind_app. Qed.

Lemma cq_loop_spec cq old_db new_db d :
  0 <= old_db < cq_queue_size cq -> 0 <= new_db < cq_queue_size cq ->
  cq_queue_size cq <= Z.of_nat (length (cq_slots cq)) ->
  old_db <= new_db \/ cq_queue_size cq < Z.of_nat (length (cq_slots cq)) -> Forall sq_known (cq_slots cq) ->
  wp never (cq_loop (Z.to_nat (2 * cq_queue_size cq + 2)) cq old_db new_db) (fun _ d' =>
    d' = settle (entries_at cq (ring_from (cq_queue_size cq) old_db
                                  (distance (cq_queue_size cq) old_db new_db))) d) d.
Proof.
  intros Ho Hn Hl Hw HF. set (size := cq_queue_size cq) in *. unfold distance.
  destruct (Z.ltb_spec (new_db - old_db) 0) as [Hlt|Hge].
  - replace (Z.to_nat (2 * size + 2))
      with (Z.to_nat (size - old_db) + S (Z.to_nat new_db + Z.to_nat (size + 1 + (old_db - new_db))))%nat by lia.
    apply cq_loop_forward; fold size; [lia..|done|]. rewrite Z2Nat.id by lia.
    replace (old_db + (size - old_db)) with size by lia. cbn [cq_loop].
    replace (size =? new_db) with false by bool_lia.
    destruct (ring_slot_some (cq_slots cq) size) as [e He]; [lia|]. rewrite He. apply wp_bind, wp_ret.
    fold size. rewrite Z.leb_refl. apply cq_loop_forward; fold size; [lia..|done|]. rewrite Z2Nat.id by lia.
    destruct (Z.to_nat (size + 1 + _)) eqn:En; [lia|]. cbn [cq_loop]. rewrite Z.add_0_l, Z.eqb_refl.
    apply wp_ret. rewrite <- settle_app, <- entries_at_app. do 2 f_equal.
    replace (new_db - old_db + size) with ((size - old_db) + new_db) by lia.
    rewrite ring_from_app by lia. rewrite ring_from_straight by lia. f_equal.
    replace (old_db + (size - old_db)) with size by lia. rewrite Z.mod_same by lia.
    symmetry. apply ring_from_straight; lia.
  - replace (Z.to_nat (2 * size + 2))
      with (Z.to_nat (new_db - old_db) + S (Z.to_nat (2 * size + 1 - (new_db - old_db))))%nat by lia.
    apply cq_loop_forward; fold size; [lia..|done|]. rewrite Z2Nat.id by lia. cbn [cq_loop].
    replace (old_db + (new_db - old_db)) with new_db by lia. rewrite Z.eqb_refl. apply wp_ret.
    by rewrite ring_from_straight by lia.
Qed.

Lemma settle_lookup es d q sq :
  dv_sqes d !! q = Some sq ->
  exists st, dv_sqes (settle es d) !! q = Some (set_stat st sq) /\
    nr_in_flight st = (if entries_of q es =? 0 then nr_in_flight (sq_stat sq)
                       else u32 (nr_in_flight (sq_stat sq) - entries_of q es)).
Proof.
  revert d sq. induction es as [|e es IH]; intros d sq Hsq.
  { exists (sq_stat sq). split; [|done]. simpl. by destruct sq. }
  unfold entries_of. rewrite count_cons.
  destruct (Z.eqb_spec (cqe_sq_id e) q) as [<-|N]; simpl Nat.b2n.
  - destruct (IH (settle [e] d) (count_completed sq)) as (st & Hst & Hn).
    { simpl. by rewrite lookup_alter_eq, Hsq. }
    exists st. split; [exact Hst|]. rewrite Hn. unfold entries_of.
    set (n := Z.of_nat (count _ es)). replace (Z.of_nat (1 + count _ es)) with (1 + n) by lia.
    replace (1 + n =? 0) with false by bool_lia. simpl.
    destruct (Z.eqb_spec n 0) as [->|_]; [done|]. unfold wrap. rewrite Zminus_mod_idemp_l. f_equal. lia.
  - destruct (IH (settle [e] d) sq) as (st & Hst & Hn).
    { simpl. by rewrite lookup_alter_ne. }
    exists st. split; [exact Hst|exact Hn].
Qed.

Lemma settle_cqes es d : dv_cqes (settle es d) = dv_cqes d.
Proof. revert d. induction es as [|e es IH]; intros d; [done|]. simpl. by rewrite IH. Qed.

(** When the host rings the doorbell of a completion queue, each submission queue has
    as many commands less in flight as the host took entries for it; this needs a ring
    that does not fill its last page, or a position that does not wrap. *)
Theorem cq_doorbell_in_flight cqid new_db old_db d cq :
  dv_cqes d !! cqid = Some cq ->
  0 <= old_db < cq_queue_size cq -> 0 <= new_db < cq_queue_size cq ->
  Z.of_nat (length (cq_slots cq)) = page_slots (cq_queue_size cq) NR_CQE_PER_PAGE ->
  old_db <= new_db \/ cq_queue_size cq mod NR_CQE_PER_PAGE <> 0 ->
  Forall sq_known (cq_slots cq) ->
  let es := entries_at cq (ring_from (cq_queue_size cq) old_db (distance (cq_queue_size cq) old_db new_db)) in
  wp never (nvmev_proc_io_cq cqid new_db old_db) (fun _ d' =>
    dv_cqes d' !! cqid = Some (set_cq_tail (new_db - 1) cq) /\
    forall q sq, dv_sqes d !! q = Some sq -> exists sq', dv_sqes d' !! q = Some sq' /\
      nr_in_flight (sq_stat sq') = if entries_of q es =? 0 then nr_in_flight (sq_stat sq)
                                   else u32 (nr_in_flight (sq_stat sq) - entries_of q es)) d.
Proof.
  intros Hcq Ho Hn Hl Hw HF es. unfold nvmev_proc_io_cq. apply wp_bind, wp_get. rewrite Hcq.
  apply wp_bind, wp_ret. apply wp_bind.
  assert (Hpages : cq_queue_size cq <= Z.of_nat (length (cq_slots cq)) /\
    (cq_queue_size cq mod NR_CQE_PER_PAGE <> 0 -> cq_queue_size cq < Z.of_nat (length (cq_slots cq)))).
  { rewrite Hl. unfold page_slots. replace NR_CQE_PER_PAGE with 256 by done.
    set (n := cq_queue_size cq). pose proof (Z.div_mod (n + 256 - 1) 256 ltac:(lia)).
    pose proof (Z.mod_pos_bound (n + 256 - 1) 256 ltac:(lia)). split; [lia|].
    intros Hne. assert (n <> (n + 256 - 1) / 256 * 256); [|lia]. intros E. apply Hne. rewrite E.
    by apply Z.mod_mul. }
  eapply wp_mono; [apply cq_loop_spec; [done|done|apply Hpages| |done]|].
  { destruct Hw; [by left|right; by apply Hpages]. }
  intros _ d' ->. fold es. apply wp_modify. simpl. split.
  - rewrite settle_cqes, lookup_alter_eq, Hcq. simpl. by replace (new_db =? -1) with false by bool_lia.
  - intros q sq Hsq. destruct (settle_lookup es d q sq Hsq) as (st & Hst & Hin).
    eexists. split; [exact Hst|]. exact Hin.
Qed.
End completion.
