(* ===== verification/IoCopy.v ===== *)
(** * Data of block commands (lib/nvmevirt: io.c)

    The copies between the storage of a namespace and the pages of host memory a command
    names, by the processor ([__do_perform_io]) or by a DMA engine
    ([__do_perform_io_using_dma]), which joins neighbouring pages.

    Whether a page is ordinary memory ([pfn_valid]) is up to the kernel: a page that is
    not is mapped from the address itself, to which the code then adds the offset. *)
From S2P Require Import Prelude KvFtl IoSched IoRing.

Definition nvme_cmd_zone_append : Z := 125.
Definition is_write (opcode : Z) : bool := (opcode =? nvme_cmd_write) || (opcode =? nvme_cmd_zone_append).

(** Host memory and the storage of the device. *)
Record io_memory := IoMemory {
  io_host : memory;
  io_storage : memory;
  io_storage_size : Z
}.

Definition set_io_host (m : memory) (s : io_memory) : io_memory := IoMemory m (io_storage s) (io_storage_size s).
Definition set_io_storage (m : memory) (s : io_memory) : io_memory := IoMemory (io_host s) m (io_storage_size s).

Definition cmd_io_offset (cmd : nvme_rw_command) : Z := u64 (Z.shiftl (rw_slba cmd) LBA_BITS).

(** [memcpy] between host address [a] and the storage at [offset]; outside the storage
    is other kernel memory. *)
Definition copy_in (a offset n : Z) : prog io_memory unit := fun s =>
  if (0 <=? offset) && (offset + n <=? io_storage_size s)
  then Done tt (set_io_storage (mem_write (io_storage s) offset (mem_read (io_host s) a n)) s) else Undef.
Definition copy_out (a offset n : Z) : prog io_memory unit := fun s =>
  if (0 <=? offset) && (offset + n <=? io_storage_size s)
  then Done tt (set_io_host (mem_write (io_host s) a (mem_read (io_storage s) offset n)) s) else Undef.

Definition transfer (opcode a offset n : Z) : prog io_memory unit :=
  if is_write opcode then copy_in a offset n
  else if opcode =? nvme_cmd_read then copy_out a offset n
  else mret tt.

Section copies.
Context (pfn_valid : Z -> bool).

(** [paddr & PAGE_OFFSET_MASK] *)
Definition page_offset (paddr : Z) : Z := paddr mod PAGE_SIZE.

(** Where the code finds the data of a page, and the list of pages. *)
Definition data_address (paddr : Z) : Z :=
  if pfn_valid (Z.shiftr paddr 12) then paddr else paddr + page_offset paddr.
Definition list_address (paddr : Z) : Z :=
  if pfn_valid (Z.shiftr paddr 12) then paddr else paddr + 8 * page_offset paddr.

(** The address of the next page. *)
Definition next_paddr (host : memory) (cmd : nvme_rw_command) (remaining : Z) (ps : prp_state)
    : option (Z * prp_state) :=
  let offs := prp_offs ps + 1 in
  if offs =? 1 then Some (rw_prp1 cmd, Prp offs (prp2_offs ps) (paddr_list ps))
  else if offs =? 2 then
    if PAGE_SIZE <? remaining then
      let l := list_address (rw_prp2 cmd) in
      x ← read_prp host l (prp2_offs ps);
      Some (x, Prp offs (prp2_offs ps + 1) (Some l))
    else Some (rw_prp2 cmd, Prp offs (prp2_offs ps) (paddr_list ps))
  else
    l ← paddr_list ps;
    x ← read_prp host l (prp2_offs ps);
    Some (x, Prp offs (prp2_offs ps + 1) (Some l)).

(** How much of the transfer goes to a page. *)
Definition page_part (paddr remaining : Z) : Z :=
  let io_size := Z.min remaining PAGE_SIZE in
  if negb (page_offset paddr =? 0) && (PAGE_SIZE <? io_size + page_offset paddr)
  then PAGE_SIZE - page_offset paddr else io_size.

(** ** By the processor *)

(** The loop of [__do_perform_io]; [base] is where the namespace is in the storage. *)
Fixpoint copy_loop (fuel : nat) (cmd : nvme_rw_command) (base remaining offset : Z) (ps : prp_state)
    : prog io_memory unit :=
  if remaining =? 0 then mret tt else
  match fuel with
  | O => undefined
  | S n =>
    s ← get;
    match next_paddr (io_host s) cmd remaining ps with
    | None => undefined
    | Some (paddr, ps') =>
      let io_size := page_part paddr remaining in
      _ ← transfer (rw_opcode cmd) (data_address paddr) (base + offset) io_size;
      copy_loop n cmd base (remaining - io_size) (offset + io_size) ps'
    end
  end.

(** A turn takes at least one byte. *)
Definition copy_fuel (length : Z) : nat := S (Z.to_nat length).

Definition do_perform_io (cmd : nvme_rw_command) (base : Z) : prog io_memory Z :=
  let length := cmd_io_size cmd in
  _ ← copy_loop (copy_fuel length) cmd base length (cmd_io_offset cmd) prp_start;
  mret length.

(** ** By the DMA engine *)

Definition NR_PADDR : Z := 513.

(** The first loop: the pages in order, at most 512 of them. *)
Fixpoint list_loop (fuel : nat) (cmd : nvme_rw_command) (remaining : Z) (ps : prp_state)
    : prog io_memory (list Z) :=
  if remaining =? 0 then mret [] else
  match fuel with
  | O => undefined
  | S n =>
    s ← get;
    match next_paddr (io_host s) cmd remaining ps with
    | None => undefined
    | Some (paddr, ps') =>
      if NR_PADDR <=? prp_offs ps' then undefined else
      l ← list_loop n cmd (remaining - page_part paddr remaining) ps';
      mret (paddr :: l)
    end
  end.

(** The inner [for]: how many of the pages [l] follow [prev] without a gap. *)
Fixpoint joined (prev : Z) (l : list Z) : nat :=
  match l with
  | [] => O
  | p :: l' => if p =? u64 (prev + PAGE_SIZE) then S (joined p l') else O
  end.

(** The second loop, at index [offs] of the array, from where it holds [l] and then zeros. *)
Fixpoint dma_loop (fuel : nat) (opcode remaining offset offs : Z) (l : list Z) : prog io_memory unit :=
  if remaining =? 0 then mret tt else
  match fuel with
  | O => undefined
  | S n =>
    if NR_PADDR <=? offs then undefined else
    let paddr := hd 0 l in
    let k := joined paddr (tl l) in
    let page_size := page_part paddr remaining + Z.of_nat k * PAGE_SIZE in
    let io_size := Z.min remaining page_size in
    _ ← transfer opcode paddr offset io_size;
    dma_loop n opcode (remaining - io_size) (offset + io_size) (offs + 1 + Z.of_nat k) (drop (S k) l)
  end.

(** Addresses are relative to the start of the storage, whatever the namespace. *)
Definition do_perform_io_using_dma (cmd : nvme_rw_command) : prog io_memory Z :=
  let length := cmd_io_size cmd in
  l ← list_loop (copy_fuel length) cmd length prp_start;
  _ ← dma_loop (copy_fuel length) (rw_opcode cmd) length (cmd_io_offset cmd) 1 l;
  mret length.
End copies.
