(* ===== verification/IoCopyProps.v ===== *)
(** * Data of block commands: theorems

    What is written can be read back, and the DMA engine moves the same data as the
    processor. *)
From S2P Require Import Prelude FtlAlloc KvFtl KvFtlSpec IoSched IoRing IoCopy.

(** ** Pieces of host memory *)

(** The pieces a transfer of [remaining] bytes goes through. *)
Fixpoint io_segs (fuel : nat) (host : memory) (cmd : nvme_rw_command) (remaining : Z) (ps : prp_state)
    : option (list (Z * Z)) :=
  if remaining =? 0 then Some [] else
  match fuel with
  | O => None
  | S n =>
    '(paddr, ps') ← next_paddr (fun _ => true) host cmd remaining ps;
    rest ← io_segs n host cmd (remaining - page_part paddr remaining) ps';
    Some ((paddr, page_part paddr remaining) :: rest)
  end.

Lemma page_part_range paddr remaining : 0 < remaining -> 0 < page_part paddr remaining <= remaining.
Proof.
  intros Hr. unfold page_part, page_offset. pose proof (Z.mod_pos_bound paddr PAGE_SIZE eq_refl).
  unfold PAGE_SIZE in *. case_if E; bool_to_prop; lia.
Qed.

Lemma io_segs_cons fuel host cmd remaining ps segs :
  0 < remaining -> io_segs fuel host cmd remaining ps = Some segs ->
  exists n a ps' rest, fuel = S n /\ segs = (a, page_part a remaining) :: rest /\
    next_paddr (fun _ => true) host cmd remaining ps = Some (a, ps') /\
    io_segs n host cmd (remaining - page_part a remaining) ps' = Some rest.
Proof.
  intros Hr. destruct fuel as [|n]; simpl; replace (remaining =? 0) with false by lia; [done|].
  intros ([a ps'] & Hn & (rest & Hrest & ?)%bind_Some)%bind_Some. simplify_eq. by exists n, a, ps', rest.
Qed.

Lemma io_segs_nil fuel host cmd ps : io_segs fuel host cmd 0 ps = Some [].
Proof. by destruct fuel. Qed.

(** Which page comes next is read from host memory, where to go from there is not. *)
Lemma next_paddr_state pv host host' cmd remaining ps a ps1 a' ps1' :
  next_paddr pv host cmd remaining ps = Some (a, ps1) ->
  next_paddr pv host' cmd remaining ps = Some (a', ps1') -> ps1' = ps1.
Proof.
  unfold next_paddr. intros E E'.
  repeat case_match; simplify_eq; try done;
    repeat match goal with
    | H : _ ≫= _ = Some _ |- _ => apply bind_Some in H as (? & ? & ?)
    end; simplify_eq; done.
Qed.

(** ** Transfers, piece by piece *)

Fixpoint transfers (opcode offset : Z) (segs : list (Z * Z)) : prog io_memory unit :=
  match segs with
  | [] => mret tt
  | (a, n) :: segs' => _ ← transfer opcode a offset n; transfers opcode (offset + n) segs'
  end.

Definition total (segs : list (Z * Z)) : Z := foldr (fun r x => r.2 + x) 0 segs.

Lemma transfers_app op off segs segs' :
  forall s, transfers op off (segs ++ segs') s =
    (_ ← transfers op off segs; transfers op (off + total segs) segs') s.
Proof.
  revert off. induction segs as [|[a n] segs IH]; intros off s; simpl.
  - unfold mbind, prog_bind. simpl. by rewrite Z.add_0_r.
  - unfold mbind, prog_bind. destruct (transfer op a off n s); [|done|done]. rewrite IH.
    unfold mbind, prog_bind. by rewrite Z.add_assoc.
Qed.

Lemma total_cons a n segs : total ((a, n) :: segs) = n + total segs.
Proof. done. Qed.

(** Two neighbouring pieces are one. *)
Lemma transfer_join op a off n k s :
  0 <= n -> 0 <= k ->
  (_ ← transfer op a off n; transfer op (a + n) (off + n) k) s = transfer op a off (n + k) s.
Proof.
  intros Hn Hk. unfold transfer, mbind, prog_bind, copy_in, copy_out. simpl.
  destruct (is_write op); [|destruct (op =? nvme_cmd_read); [|done]].
  all: destruct (Z.leb_spec 0 off); simpl; [|done].
  all: destruct (Z.leb_spec (off + n) (io_storage_size s)); simpl;
    [|by rewrite (proj2 (Z.leb_gt (off + (n + k)) _)) by lia].
  all: replace (0 <=? off + n) with true by bool_lia; rewrite Z.add_assoc.
  all: destruct (off + n + k <=? io_storage_size s); [|done].
  all: unfold set_io_storage, set_io_host; simpl; rewrite mem_read_app by lia.
  all: by rewrite <- mem_write_app, length_mem_read by lia.
Qed.

(** A transfer only changes the piece of host memory it is to. *)
Lemma transfer_host op a off n s s' all :
  transfer op a off n s = Done tt s' -> is_write op = true \/ (a, n) ∈ all ->
  same_outside all (io_host s) (io_host s').
Proof.
  unfold transfer. intros Ht Hin x Hx. destruct (is_write op); [|destruct (op =? nvme_cmd_read)].
  - unfold copy_in in Ht. destruct (_ && _); by simplify_eq.
  - destruct Hin as [|Hin]; [done|]. unfold copy_out in Ht. destruct (_ && _); [|done]. simplify_eq. simpl. rewrite mem_get_write, decide_False; [done|].
    intros Hr. apply Hx. unfold KvFtlSpec.touched. apply Exists_exists. exists (a, n). split; [done|].
    unfold in_range in *. simpl in *.
    destruct (Z.lt_ge_cases n 0) as [Hneg|].
    + unfold mem_read in Hr. rewrite length_fmap, length_seqZ in Hr. lia.
    + rewrite length_mem_read in Hr by lia. done.
  - by injection Ht as <-.
Qed.

Lemma same_outside_trans segs m1 m2 m3 :
  same_outside segs m1 m2 -> same_outside segs m2 m3 -> same_outside segs m1 m3.
Proof. intros H1 H2 a Ha. rewrite H2 by done. by apply H1. Qed.

Section valid.
Context (pfn_valid : Z -> bool) (Hvalid : forall n, pfn_valid n = true).

Lemma next_paddr_valid host cmd remaining ps :
  next_paddr pfn_valid host cmd remaining ps = next_paddr (fun _ => true) host cmd remaining ps.
Proof. unfold next_paddr, list_address. by rewrite Hvalid. Qed.

(** The pages of a command stay the same while its data is moved. *)
Definition stable (fuel : nat) (cmd : nvme_rw_command) (remaining : Z) (ps : prp_state)
    (all segs : list (Z * Z)) (host : memory) : Prop :=
  forall host', same_outside all host host' -> io_segs fuel host' cmd remaining ps = Some segs.

Lemma copy_loop_transfers fuel cmd base remaining off ps all segs s :
  0 <= remaining -> is_write (rw_opcode cmd) = true \/ (forall r, r ∈ segs -> r ∈ all) -> stable fuel cmd remaining ps all segs (io_host s) ->
  copy_loop pfn_valid fuel cmd base remaining off ps s = transfers (rw_opcode cmd) (base + off) segs s.
Proof.
  revert remaining off ps segs s. induction fuel as [|n IH]; intros remaining off ps segs s Hr Hin Hst;
    pose proof (Hst _ (fun _ _ => eq_refl)) as H0;
    (destruct (decide (remaining = 0)) as [->|Hne]; [rewrite io_segs_nil in H0; by simplify_eq|]).
  { apply io_segs_cons in H0 as (? & ? & ? & ? & ? & _); [done|lia]. }
  apply io_segs_cons in H0 as (n' & a & ps' & rest & [= <-] & -> & Hn & Hrest); [|lia].
  simpl. replace (remaining =? 0) with false by bool_lia. unfold mbind, prog_bind. simpl.
  rewrite next_paddr_valid, Hn. unfold data_address. rewrite Hvalid.
  pose proof (page_part_range a remaining ltac:(lia)) as Hp.
  destruct (transfer (rw_opcode cmd) a (base + off) (page_part a remaining) s) as [[] s'| |] eqn:Et; [|done|done].
  rewrite <- Z.add_assoc. apply IH; [lia|destruct Hin as [Hin|Hin]; [by left|right; intros r Hx; apply Hin; by right]|].
  intros host' Hh. specialize (Hst host').
  assert (Hin' : is_write (rw_opcode cmd) = true \/ (a, page_part a remaining) ∈ all)
    by (destruct Hin as [Hin|Hin]; [by left|right; apply Hin, list_elem_of_here]).
  pose proof (transfer_host _ _ _ _ _ _ all Et Hin') as Hth.
  specialize (Hst (same_outside_trans _ _ _ _ Hth Hh)).
  apply io_segs_cons in Hst as (n2 & a2 & ps2 & rest2 & ? & ? & Hn2 & Hrest2); [|lia]. simplify_eq.
  by rewrite <- (next_paddr_state _ _ _ _ _ _ _ _ _ _ Hn Hn2).
Qed.
End valid.

(** ** What a transfer leaves *)

Definition sized (segs : list (Z * Z)) : Prop := Forall (fun r => 0 <= r.2) segs.

Lemma io_segs_sized fuel host cmd remaining ps segs :
  0 <= remaining -> io_segs fuel host cmd remaining ps = Some segs -> total segs = remaining /\ sized segs.
Proof.
  revert remaining ps segs. induction fuel as [|n IH]; intros remaining ps segs Hr H0;
    (destruct (decide (remaining = 0)) as [->|Hne];
     [rewrite io_segs_nil in H0; simplify_eq; by split; [|constructor]|]);
    apply io_segs_cons in H0 as (n' & a & ps' & rest & En & -> & _ & Hrest); [done|lia| |lia].
  injection En as <-. pose proof (page_part_range a remaining ltac:(lia)) as Hp.
  apply IH in Hrest as [Ht Hs]; [|lia]. simpl. split; [lia|]. constructor; [simpl; lia|done].
Qed.

Lemma total_nonneg segs : sized segs -> 0 <= total segs.
Proof. induction 1; simpl; lia. Qed.

Lemma gathered_cons host a n segs : gathered host ((a, n) :: segs) = mem_read host a n ++ gathered host segs.
Proof. done. Qed.

Lemma length_gathered' host segs : sized segs -> Z.of_nat (length (gathered host segs)) = total segs.
Proof.
  induction 1 as [|[a n] segs Hn _ IH]; [done|].
  rewrite gathered_cons, length_app, Nat2Z.inj_add, IH, length_mem_read by (simpl in *; lia). done.
Qed.

Lemma transfers_write op off segs s :
  is_write op = true -> sized segs -> 0 <= off -> off + total segs <= io_storage_size s ->
  transfers op off segs s =
    Done tt (set_io_storage (mem_write (io_storage s) off (gathered (io_host s) segs)) s).
Proof.
  intros Hop Hs. revert off s. induction Hs as [|[a n] segs Hn Hs IH]; intros off s Ho Hle; simpl in *.
  { by destruct s. }
  pose proof (total_nonneg _ Hs). unfold mbind, prog_bind, transfer, copy_in. rewrite Hop.
  replace ((0 <=? off) && (off + n <=? io_storage_size s)) with true by bool_lia.
  rewrite IH by (simpl; lia). unfold set_io_storage. simpl. do 2 f_equal.
  by rewrite <- mem_write_app, length_mem_read by lia.
Qed.

(** [data] spread over the pieces. *)
Fixpoint scatter (host : memory) (segs : list (Z * Z)) (data : bytes) : memory :=
  match segs with
  | [] => host
  | (a, n) :: segs' => scatter (mem_write host a (take (Z.to_nat n) data)) segs' (drop (Z.to_nat n) data)
  end.

Lemma drop_mem_read m a n k : 0 <= k <= n -> drop (Z.to_nat k) (mem_read m a n) = mem_read m (a + k) (n - k).
Proof.
  intros. replace n with (k + (n - k)) at 1 by lia. rewrite mem_read_app by lia.
  apply drop_app_length'. pose proof (length_mem_read m a k). lia.
Qed.

Lemma transfers_read off segs s :
  sized segs -> 0 <= off -> off + total segs <= io_storage_size s ->
  transfers nvme_cmd_read off segs s =
    Done tt (set_io_host (scatter (io_host s) segs (mem_read (io_storage s) off (total segs))) s).
Proof.
  intros Hs. revert off s. induction Hs as [|[a n] segs Hn Hs IH]; intros off s Ho Hle; simpl in *.
  { by destruct s. }
  pose proof (total_nonneg _ Hs). unfold mbind, prog_bind, transfer, copy_out. simpl.
  replace ((0 <=? off) && (off + n <=? io_storage_size s)) with true by bool_lia.
  rewrite IH by (simpl; lia). unfold set_io_host. simpl. do 2 f_equal.
  rewrite take_mem_read, drop_mem_read by lia. do 2 f_equal. lia.
Qed.

Lemma scatter_outside segs : forall host data, sized segs -> Z.of_nat (length data) = total segs ->
  same_outside segs host (scatter host segs data).
Proof.
  induction segs as [|[a n] segs IH]; intros host data Hs Hd; [by intros x|].
  inversion_clear Hs as [|? ? Hn Hs']. simpl in *. pose proof (total_nonneg _ Hs').
  intros x Hx. rewrite IH; [|done|rewrite length_drop; lia|].
  - rewrite mem_get_write, decide_False; [done|]. rewrite length_take. intros Hr. apply Hx.
    apply Exists_cons_hd. unfold in_range in *. simpl in *. lia.
  - intros Ht. apply Hx. by apply Exists_cons_tl.
Qed.

Lemma gathered_ext segs host host' :
  (forall r x, r ∈ segs -> in_range r x -> mem_get host' x = mem_get host x) ->
  gathered host' segs = gathered host segs.
Proof.
  induction segs as [|[a n] segs IH]; intros E; [done|]. rewrite !gathered_cons. f_equal.
  - apply mem_read_ext. intros x Hx. apply (E (a, n)); [apply list_elem_of_here|done].
  - apply IH. intros r x Hr. apply E. by apply list_elem_of_further.
Qed.

Lemma gathered_scatter segs : forall host data, pairwise_apart segs -> sized segs ->
  Z.of_nat (length data) = total segs -> gathered (scatter host segs data) segs = data.
Proof.
  induction segs as [|[a n] segs IH]; intros host data Hap Hs Hd.
  { simpl in *. by destruct data. }
  inversion_clear Hap as [|? ? Hfirst Hrest]. inversion_clear Hs as [|? ? Hn Hs']. simpl in *.
  pose proof (total_nonneg _ Hs').
  rewrite IH by (try done; rewrite length_drop; lia).
  transitivity (take (Z.to_nat n) data ++ drop (Z.to_nat n) data); [f_equal|apply take_drop].
  assert (Hl : Z.of_nat (length (take (Z.to_nat n) data)) = n) by (rewrite length_take; lia).
  transitivity (mem_read (mem_write host a (take (Z.to_nat n) data)) a n).
  2: { pose proof (mem_read_write host a (take (Z.to_nat n) data)) as Hrw. by rewrite Hl in Hrw. }
  apply mem_read_ext. intros x Hx. apply scatter_outside; [done|rewrite length_drop; lia|].
  intros (r & Hr & Hin)%Exists_exists. rewrite Forall_forall in Hfirst. specialize (Hfirst r Hr).
  unfold apart, in_range in *. simpl in *. lia.
Qed.

(** ** Write, then read *)

Abbreviation cmd_segs host cmd := (io_segs (copy_fuel (cmd_io_size cmd)) host cmd (cmd_io_size cmd) prp_start).

(** The data of the command goes to the pieces [segs], none of which holds the list of
    its pages. *)
Definition pages_stable (cmd : nvme_rw_command) (segs : list (Z * Z)) (host : memory) : Prop :=
  stable (copy_fuel (cmd_io_size cmd)) cmd (cmd_io_size cmd) prp_start segs segs host.

Lemma io_segs_ext fuel host host' cmd remaining ps :
  (forall a, mem_get host' a = mem_get host a) ->
  io_segs fuel host' cmd remaining ps = io_segs fuel host cmd remaining ps.
Proof.
  intros E. assert (Hp : forall l i, read_prp host' l i = read_prp host l i).
  { intros l i. unfold read_prp. case_if Hb; [done|]. do 2 f_equal. by apply mem_read_ext. }
  revert remaining ps. induction fuel as [|n IH]; intros remaining ps; simpl; [done|].
  destruct (remaining =? 0); [done|].
  assert (Hn : next_paddr (fun _ => true) host' cmd remaining ps = next_paddr (fun _ => true) host cmd remaining ps)
    by (unfold next_paddr; destruct (paddr_list ps); simpl; by rewrite ?Hp).
  rewrite Hn. destruct (next_paddr _ host cmd remaining ps) as [[a ps']|]; [|done]. simpl. by rewrite IH.
Qed.

Lemma stable_write fuel host cmd remaining ps segs :
  io_segs fuel host cmd remaining ps = Some segs -> stable fuel cmd remaining ps [] segs host.
Proof.
  intros Hs host' Hh. rewrite <- Hs. apply io_segs_ext. intros a. apply Hh. by intros Hx%Exists_nil.
Qed.

Section theorems.
Context (pfn_valid : Z -> bool) (Hvalid : forall n, pfn_valid n = true).

Lemma cmd_io_size_pos cmd : 0 <= rw_length cmd -> 0 < cmd_io_size cmd.
Proof. intros. unfold cmd_io_size. rewrite Z.shiftl_mul_pow2 by lia. lia. Qed.

Lemma cmd_io_offset_nonneg cmd : 0 <= cmd_io_offset cmd.
Proof. unfold cmd_io_offset. apply wrap_in_word. lia. Qed.

Lemma do_perform_write w base segs s :
  is_write (rw_opcode w) = true -> 0 <= rw_length w -> cmd_segs (io_host s) w = Some segs ->
  0 <= base -> base + cmd_io_offset w + cmd_io_size w <= io_storage_size s ->
  do_perform_io pfn_valid w base s = Done (cmd_io_size w)
    (set_io_storage (mem_write (io_storage s) (base + cmd_io_offset w) (gathered (io_host s) segs)) s).
Proof.
  intros Hop Hl Hs Hb Hr. pose proof (cmd_io_size_pos w Hl). pose proof (cmd_io_offset_nonneg w).
  pose proof (io_segs_sized _ _ _ _ _ _ (Z.lt_le_incl _ _ H) Hs) as [Ht Hz].
  unfold do_perform_io, mbind, prog_bind.
  rewrite (copy_loop_transfers _ Hvalid _ _ _ _ _ _ [] segs);
    [|lia|by left|by apply stable_write].
  rewrite transfers_write by (done || lia). done.
Qed.

Lemma do_perform_read r base segs s :
  rw_opcode r = nvme_cmd_read -> 0 <= rw_length r -> pages_stable r segs (io_host s) ->
  0 <= base -> base + cmd_io_offset r + cmd_io_size r <= io_storage_size s ->
  do_perform_io pfn_valid r base s = Done (cmd_io_size r)
    (set_io_host (scatter (io_host s) segs
       (mem_read (io_storage s) (base + cmd_io_offset r) (cmd_io_size r))) s).
Proof.
  intros Hop Hl Hs Hb Hr. pose proof (cmd_io_size_pos r Hl). pose proof (cmd_io_offset_nonneg r).
  pose proof (Hs _ (fun _ _ => eq_refl)) as Hs0.
  pose proof (io_segs_sized _ _ _ _ _ _ (Z.lt_le_incl _ _ H) Hs0) as [Ht Hz].
  unfold do_perform_io, mbind, prog_bind.
  rewrite (copy_loop_transfers _ Hvalid _ _ _ _ _ _ segs segs); [|lia|by right|exact Hs].
  rewrite Hop, transfers_read by (done || lia). by rewrite Ht.
Qed.
(** C16: Data that a write or an append moved to the storage comes back with a read of the
    same blocks, into any pages of the host that do not overlap, whatever happened to
    host memory in between; neither changes anything else. *)
Theorem write_read_roundtrip w r base s host segsw segsr :
  is_write (rw_opcode w) = true -> rw_opcode r = nvme_cmd_read ->
  rw_slba r = rw_slba w -> rw_length r = rw_length w -> 0 <= rw_length w -> 0 <= base ->
  base + cmd_io_offset w + cmd_io_size w <= io_storage_size s ->
  cmd_segs (io_host s) w = Some segsw ->
  pages_stable r segsr host -> pairwise_apart segsr ->
  exists s1 s2,
    do_perform_io pfn_valid w base s = Done (cmd_io_size w) s1 /\
    io_host s1 = io_host s /\
    (forall x, ~ in_range (base + cmd_io_offset w, cmd_io_size w) x ->
       mem_get (io_storage s1) x = mem_get (io_storage s) x) /\
    do_perform_io pfn_valid r base (set_io_host host s1) = Done (cmd_io_size r) s2 /\
    io_storage s2 = io_storage s1 /\
    gathered (io_host s2) segsr = gathered (io_host s) segsw /\
    same_outside segsr host (io_host s2).
Proof.
  intros Hw Hr Hsl Hlen Hl Hb Hin Hsw Hsr Hap.
  assert (Ho : cmd_io_offset r = cmd_io_offset w) by (unfold cmd_io_offset; by rewrite Hsl).
  assert (Hz : cmd_io_size r = cmd_io_size w) by (unfold cmd_io_size; by rewrite Hlen).
  pose proof (cmd_io_size_pos w Hl) as Hpos. pose proof (cmd_io_offset_nonneg w).
  pose proof (io_segs_sized _ _ _ _ _ _ (Z.lt_le_incl _ _ Hpos) Hsw) as [Htw Hszw].
  pose proof (Hsr _ (fun _ _ => eq_refl)) as Hs0. rewrite Hz in Hs0.
  pose proof (io_segs_sized _ _ _ _ _ _ (Z.lt_le_incl _ _ Hpos) Hs0) as [Htr Hszr].
  eexists _, _. split; [by apply do_perform_write|]. split; [done|]. split.
  { intros x Hx. simpl. rewrite mem_get_write, decide_False; [done|].
    by rewrite length_gathered', Htw. }
  split; [apply do_perform_read; [done|lia|done|done|simpl; lia]|]. split; [done|].
  assert (Hd : mem_read (mem_write (io_storage s) (base + cmd_io_offset w) (gathered (io_host s) segsw))
                 (base + cmd_io_offset w) (cmd_io_size w) = gathered (io_host s) segsw).
  { rewrite <- Htw, <- (length_gathered' (io_host s) segsw) by done. apply mem_read_write. }
  simpl. rewrite Ho, Hz, Hd. split.
  - apply gathered_scatter; [done|done|]. by rewrite length_gathered', Htw, Htr.
  - apply scatter_outside; [done|]. by rewrite length_gathered', Htw, Htr.
Qed.

(** ** The DMA engine *)

(** [segs] is what [remaining] bytes come to. *)
Fixpoint parts_ok (remaining : Z) (segs : list (Z * Z)) : Prop :=
  match segs with
  | [] => remaining = 0
  | (a, n) :: segs' => 0 < remaining /\ n = page_part a remaining /\ parts_ok (remaining - n) segs'
  end.

Definition aligned (r : Z * Z) : Prop := page_offset r.1 = 0.
Definition small (r : Z * Z) : Prop := 0 <= r.1 < 2 ^ 64 - PAGE_SIZE.

Lemma io_segs_parts fuel host cmd remaining ps segs :
  0 <= remaining -> io_segs fuel host cmd remaining ps = Some segs -> parts_ok remaining segs.
Proof.
  revert remaining ps segs. induction fuel as [|n IH]; intros remaining ps segs Hr H0;
    (destruct (decide (remaining = 0)) as [->|Hne]; [rewrite io_segs_nil in H0; by simplify_eq|]);
    apply io_segs_cons in H0 as (n' & a & ps' & rest & En & -> & _ & Hrest); [done|lia| |lia].
  injection En as <-. pose proof (page_part_range a remaining ltac:(lia)) as Hp.
  split; [lia|]. split; [done|]. eapply IH; [lia|done].
Qed.

Lemma page_part_aligned a remaining : page_offset a = 0 -> page_part a remaining = Z.min remaining PAGE_SIZE.
Proof. intros H. unfold page_part. by rewrite H. Qed.

Lemma list_loop_segs fuel cmd remaining ps segs s :
  0 <= remaining -> 0 <= prp_offs ps -> io_segs fuel (io_host s) cmd remaining ps = Some segs ->
  prp_offs ps + Z.of_nat (length segs) < NR_PADDR ->
  list_loop pfn_valid fuel cmd remaining ps s = Done (fst <$> segs) s.
Proof.
  revert remaining ps segs. induction fuel as [|n IH]; intros remaining ps segs Hr Ho H0 Hlen;
    (destruct (decide (remaining = 0)) as [->|Hne]; [rewrite io_segs_nil in H0; by simplify_eq|]);
    apply io_segs_cons in H0 as (n' & a & ps' & rest & En & -> & Hn & Hrest); [done|lia| |lia].
  injection En as <-. pose proof (page_part_range a remaining ltac:(lia)) as Hp. simpl in Hlen.
  simpl. replace (remaining =? 0) with false by bool_lia. unfold mbind, prog_bind. simpl.
  rewrite next_paddr_valid, Hn by done.
  assert (Hoffs : prp_offs ps' = prp_offs ps + 1).
  { unfold next_paddr in Hn. repeat case_match; simplify_eq; try done;
      repeat match goal with H : _ ≫= _ = Some _ |- _ => apply bind_Some in H as (? & ? & ?) end;
      simplify_eq; done. }
  rewrite Hoffs. replace (NR_PADDR <=? prp_offs ps + 1) with false by bool_lia.
  erewrite IH; [done|lia|lia|done|lia].
Qed.

(** Pages that follow the piece from [p] on are moved with it. *)
Lemma joined_transfers op segs : forall p n off remaining s,
  parts_ok remaining segs -> Forall aligned segs -> Forall small segs -> PAGE_SIZE <= n ->
  0 <= p -> p + n < 2 ^ 64 ->
  let k := joined (p + n - PAGE_SIZE) (fst <$> segs) in
  let t := total (take k segs) in
  t = Z.min remaining (Z.of_nat k * PAGE_SIZE) /\
  (_ ← transfer op p off n; transfers op (off + n) segs) s =
  (_ ← transfer op p off (n + t); transfers op (off + n + t) (drop k segs)) s.
Proof.
  induction segs as [|[a m] segs IH]; intros p n off remaining s Hp Ha Hs Hn Hp0 Hpn; cbn zeta.
  { simpl in *. subst. split; [lia|]. by rewrite !Z.add_0_r. }
  destruct Hp as (Hr & Hm & Hp). inversion_clear Ha as [|? ? Ha0 Ha']. inversion_clear Hs as [|? ? Hs0 Hs'].
  rewrite fmap_cons. cbn [joined fst transfers].
  replace (p + n - PAGE_SIZE + PAGE_SIZE) with (p + n) by lia.
  rewrite (wrap_small 64 (p + n)) by (unfold in_word; unfold PAGE_SIZE in *; lia).
  destruct (Z.eqb_spec a (p + n)) as [->|_].
  2: { simpl. split; [unfold PAGE_SIZE; lia|]. by rewrite !Z.add_0_r. }
  rewrite page_part_aligned in Hm by done. unfold small in Hs0. simpl in Hs0.
  assert (Hstep : forall (k : unit -> prog io_memory unit),
    (_ ← transfer op p off n; _ ← transfer op (p + n) (off + n) m; k tt) s =
    (_ ← transfer op p off (n + m); k tt) s).
  { intros k. unfold PAGE_SIZE in *. pose proof (transfer_join op p off n m s ltac:(lia) ltac:(lia)) as Hj.
    unfold mbind, prog_bind in *. destruct (transfer op p off n s) as [[] s'| |].
    - destruct (transfer op (p + n) (off + n) m s'); rewrite <- Hj; done.
    - by rewrite <- Hj.
    - by rewrite <- Hj. }
  rewrite (Hstep (fun _ => transfers op (off + n + m) segs)).
  assert (Hpos : 0 < PAGE_SIZE) by done. destruct (decide (m = PAGE_SIZE)) as [Em|Em].
  - destruct (IH p (n + m) off (remaining - m) s) as [Ht HE]; [done|done|done|lia|done|lia|].
    replace (p + (n + m) - PAGE_SIZE) with (p + n) in Ht, HE by lia.
    cbn [take drop]. rewrite total_cons. split.
    + rewrite Ht, Em. unfold PAGE_SIZE in *. lia.
    + rewrite <- Z.add_assoc, HE. by rewrite !Z.add_assoc.
  - assert (remaining - m = 0 /\ segs = []) as [Hrem ->].
    { unfold PAGE_SIZE in *. destruct segs as [|[b x] segs]; [split; [exact Hp|done]|].
      destruct Hp as (Hlt & _). lia. }
    simpl. split; [unfold PAGE_SIZE in *; lia|]. by rewrite !Z.add_0_r.
Qed.
Lemma parts_ok_drop k : forall remaining segs,
  parts_ok remaining segs -> parts_ok (remaining - total (take k segs)) (drop k segs).
Proof.
  induction k as [|k IH]; intros remaining segs Hp; [simpl; by rewrite Z.sub_0_r|].
  destruct segs as [|[a n] segs]; [simpl in *; lia|]. destruct Hp as (_ & _ & Hp).
  cbn [take drop]. rewrite total_cons, Z.sub_add_distr. by apply IH.
Qed.

Lemma parts_length segs : forall remaining, parts_ok remaining segs -> Z.of_nat (length segs) <= remaining.
Proof.
  induction segs as [|[a n] segs IH]; intros remaining Hp; [simpl in *; lia|].
  destruct Hp as (Hr & -> & Hp). apply IH in Hp. pose proof (page_part_range a remaining Hr). simpl length. lia.
Qed.

Lemma joined_le p l : (joined p l <= length l)%nat.
Proof. revert p. induction l as [|x l IH]; intros p; simpl; [lia|]. destruct (_ =? _); [|lia]. specialize (IH x). lia. Qed.

Lemma Forall_tl {A} (P : A -> Prop) l : Forall P l -> Forall P (tl l).
Proof. by destruct 1. Qed.

Lemma dma_loop_transfers op : forall fuel segs remaining off offs s,
  0 <= remaining -> parts_ok remaining segs -> Forall aligned (tl segs) -> Forall small segs ->
  (length segs < fuel)%nat -> 1 <= offs -> offs + Z.of_nat (length segs) <= NR_PADDR ->
  dma_loop fuel op remaining off offs (fst <$> segs) s = transfers op off segs s.
Proof.
  induction fuel as [|fuel IH]; intros segs remaining off offs s Hr Hp Ha Hs Hf Ho Hlen; [lia|].
  destruct segs as [|[p n] segs]; simpl in Hp; [by subst|]. destruct Hp as (Hlt & Hn & Hp).
  inversion_clear Hs as [|? ? Hs0 Hs']. unfold small in Hs0. simpl in Hs0, Ha, Hf, Hlen.
  cbn [dma_loop]. replace (remaining =? 0) with false by bool_lia.
  replace (NR_PADDR <=? offs) with false by bool_lia. rewrite fmap_cons. cbn [hd tl fst].
  set (k := joined p (fst <$> segs)). rewrite <- Hn.
  pose proof (page_part_range p remaining Hlt) as Hpr. rewrite <- Hn in Hpr.
  assert (Hk : (k = O /\ Z.min remaining (n + Z.of_nat k * PAGE_SIZE) = n + total (take k segs)) \/
               (n = PAGE_SIZE)).
  { destruct (decide (k = O)) as [->|Hk0].
    - left. split; [done|]. simpl. lia.
    - right. destruct segs as [|[q m] segs]; [done|]. destruct Hp as (Hlt2 & _ & _).
      unfold k in Hk0. rewrite fmap_cons in Hk0. cbn [joined fst] in Hk0.
      destruct (Z.eqb_spec q (u64 (p + PAGE_SIZE))) as [Eq|]; [|done].
      rewrite wrap_small in Eq by (unfold in_word, PAGE_SIZE in *; lia).
      inversion_clear Ha as [|? ? Ha0 _]. unfold aligned, page_offset in Ha0. simpl in Ha0.
      rewrite Eq in Ha0. assert (Hpo : page_offset p = 0).
      { unfold page_offset. rewrite <- Ha0. replace (p + PAGE_SIZE) with (p + 1 * PAGE_SIZE) by lia.
        by rewrite Z.mod_add. }
      rewrite (page_part_aligned p remaining Hpo) in Hn. unfold PAGE_SIZE in *. lia. }
  assert (Hmain : Z.min remaining (n + Z.of_nat k * PAGE_SIZE) = n + total (take k segs) /\
    (_ ← transfer op p off n; transfers op (off + n) segs) s =
    (_ ← transfer op p off (n + total (take k segs));
     transfers op (off + n + total (take k segs)) (drop k segs)) s).
  { destruct Hk as [[-> E]|En]; [split; [done|]; simpl; by rewrite !Z.add_0_r|].
    destruct (joined_transfers op segs p n off (remaining - n) s) as [Ht HE]; try done; [lia|lia|lia|].
    replace (p + n - PAGE_SIZE) with p in Ht, HE by lia. fold k in Ht, HE. split; [|exact HE].
    rewrite Ht. lia. }
  destruct Hmain as [Hmin Hmain]. cbn [transfers]. rewrite Hmain, Hmin.
  unfold mbind, prog_bind. destruct (transfer op p off _ s) as [[] s'| |]; [|done|done].
  pose proof (parts_ok_drop k _ _ Hp) as Hpk. cbn [drop]. rewrite <- fmap_drop.
  replace (off + n + total (take k segs)) with (off + (n + total (take k segs))) by lia.
  apply IH.
  - lia.
  - by rewrite Z.sub_add_distr.
  - by apply Forall_tl, Forall_drop.
  - by apply Forall_drop.
  - rewrite length_drop. lia.
  - lia.
  - rewrite length_drop. pose proof (joined_le p (fst <$> segs)) as Hj. fold k in Hj.
    rewrite length_fmap in Hj. lia.
Qed.

(** C17: The DMA engine, which joins neighbouring pages, does exactly what the processor
    does page by page, for any command on the first namespace that has at most 512 pages
    and, as the command set demands, only its first page not aligned. *)
Theorem dma_equivalent cmd segs s :
  0 <= rw_length cmd ->
  pages_stable cmd segs (io_host s) -> (length segs <= 512)%nat ->
  Forall aligned (tl segs) -> Forall small segs ->
  do_perform_io_using_dma pfn_valid cmd s = do_perform_io pfn_valid cmd 0 s.
Proof.
  intros Hl Hst Hlen Ha Hs. pose proof (cmd_io_size_pos cmd Hl) as Hpos.
  pose proof (Hst _ (fun _ _ => eq_refl)) as Hs0.
  pose proof (io_segs_parts _ _ _ _ _ _ (Z.lt_le_incl _ _ Hpos) Hs0) as Hp.
  unfold do_perform_io_using_dma, do_perform_io, mbind, prog_bind.
  rewrite (list_loop_segs _ _ _ _ segs); [|lia|done|done|unfold NR_PADDR; simpl; lia].
  rewrite (dma_loop_transfers _ _ segs); [|lia|done|done|done| |lia|unfold NR_PADDR; lia].
  - rewrite (copy_loop_transfers _ Hvalid _ _ _ _ _ _ segs segs); [|lia|by right|exact Hst].
    by rewrite Z.add_0_l.
  - pose proof (parts_length _ _ Hp). unfold copy_fuel. lia.
Qed.
End theorems.
