(* ===== verification/IoDevice.v ===== *)
(** * The device the workers see (lib/nvmevirt: io.c, main.c)

    The interface [WorkerEnv] of the worker threads, implemented by the queues, the data
    paths and the translation layers: once for block devices, once for the key-value
    device, whose commands are carried out when their data would be moved.

    Together with the dispatcher this is the whole path of a command. *)
From S2P Require Import Prelude FtlAlloc KvFtl IoQueue IoSched IoRing IoCopy.

(** ** Namespaces *)

(** The loop of [NVMEV_NAMESPACE_INIT]: where each namespace is in the storage, and its
    size; a capacity of 0 stands for what is left. *)
Fixpoint namespace_init (capacities : list Z) (ns_addr remaining_capacity : Z) : list (Z * Z) :=
  match capacities with
  | [] => []
  | c :: capacities' =>
    let size := if c =? 0 then remaining_capacity else Z.min c remaining_capacity in
    (ns_addr, size) :: namespace_init capacities' (ns_addr + size) (remaining_capacity - size)
  end.

(** ** Block devices *)

(** Releases of buffer space by a translation layer. *)
Class BufferOps (F : Type) := { buffer_release : Z -> Z -> F -> option F }.

Record block_env (F : Type) := BlockEnv {
  be_sqes : gmap Z submission_queue;
  be_cqes : gmap Z completion_queue;
  be_mem : io_memory;
  be_ns : list (Z * Z);
  be_ftl : F
}.
Arguments BlockEnv {F}.
Arguments be_sqes {F}.
Arguments be_cqes {F}.
Arguments be_mem {F}.
Arguments be_ns {F}.
Arguments be_ftl {F}.

(** The command a request stands for is read from the submission queue again. *)
Definition request_command (sqes : gmap Z submission_queue) (w : io_work) : option nvme_command :=
  sq ← sqes !! w_sqid w;
  slot (sq_slots sq) (w_sq_entry w).

(** [nvmev_vdev->ns[nsid].mapped] *)
Definition ns_mapped (ns : list (Z * Z)) (nsid : Z) : option Z := fst <$> slot ns (nsid - 1).

(** [__fill_cq_result] finds its queue. *)
Definition post_to (cqes : gmap Z completion_queue) (w : io_work) : option (gmap Z completion_queue) :=
  cq ← cqes !! w_cqid w;
  cq' ← fill_cq_result w cq;
  Some (<[w_cqid w := cq']> cqes).

Section block.
Context {F : Type} `{BufferOps F} (pfn_valid : Z -> bool) (io_using_dma : bool).

Definition set_mem (m : io_memory) (e : block_env F) : block_env F :=
  BlockEnv (be_sqes e) (be_cqes e) m (be_ns e) (be_ftl e).
Definition set_be_cqes (c : gmap Z completion_queue) (e : block_env F) : block_env F :=
  BlockEnv (be_sqes e) c (be_mem e) (be_ns e) (be_ftl e).
Definition set_be_ftl (f : F) (e : block_env F) : block_env F :=
  BlockEnv (be_sqes e) (be_cqes e) (be_mem e) (be_ns e) f.

Definition block_perform_io (w : io_work) (e : block_env F) : option (Z * Z * block_env F) :=
  cmd ← request_command (be_sqes e) w;
  let rw := cmd_rw cmd in
  let run m := match m (be_mem e) with
               | Done _ mem => Some (w_result0 w, w_status w, set_mem mem e)
               | _ => None
               end in
  if io_using_dma then run (do_perform_io_using_dma pfn_valid rw)
  else base ← ns_mapped (be_ns e) (rw_nsid rw); run (do_perform_io pfn_valid rw base).

#[export] Instance block_worker_env : WorkerEnv (block_env F) := {
  perform_io := block_perform_io;
  post_completion w e := c ← post_to (be_cqes e) w; Some (set_be_cqes c e);
  release_buffer b n e := f ← buffer_release b n (be_ftl e); Some (set_be_ftl f e)
}.
End block.

(** ** The key-value device *)

Section kv.
Context {VA : ValueAllocator} (pfn_valid : Z -> bool) (io_using_dma : bool).

Record kv_env := KvEnv {
  ke_sqes : gmap Z submission_queue;
  ke_cqes : gmap Z completion_queue;
  ke_ftl : kv_ftl
}.

(** The memories the block commands of the device work on. *)
Definition kv_memory (f : kv_ftl) : io_memory := IoMemory (kf_host f) (kf_storage f) (kf_storage_size f).
Definition set_kv_memory (m : io_memory) (f : kv_ftl) : kv_ftl :=
  set_host (io_host m) (set_storage (io_storage m) f).

(** The DMA path comes first, whatever the command. *)
Definition kv_perform_io (w : io_work) (e : kv_env) : option (Z * Z * kv_env) :=
  cmd ← request_command (ke_sqes e) w;
  let rw := cmd_rw cmd in
  let set f := KvEnv (ke_sqes e) (ke_cqes e) f in
  let run m := match m (kv_memory (ke_ftl e)) with
               | Done _ mem => Some (w_result0 w, w_status w, set (set_kv_memory mem (ke_ftl e)))
               | _ => None
               end in
  if io_using_dma then run (do_perform_io_using_dma pfn_valid rw)
  else if is_kv_cmd (rw_opcode rw) then
    match kv_perform_nvme_io_cmd (cmd_kv cmd) (ke_ftl e) with
    | Done (result, status) f => Some (result, default (w_status w) status, set f)
    | _ => None
    end
  else base ← ns_mapped [(0, kf_storage_size (ke_ftl e))] (rw_nsid rw); run (do_perform_io pfn_valid rw base).

(** The device has no write buffer. *)
#[export] Instance kv_worker_env : WorkerEnv kv_env := {
  perform_io := kv_perform_io;
  post_completion w e := c ← post_to (ke_cqes e) w; Some (KvEnv (ke_sqes e) c (ke_ftl e));
  release_buffer _ _ e := Some e
}.
End kv.

(** The one namespace of a simple device ([simple_ftl.c]) as the dispatcher calls it;
    [wall t] is the clock as the handler of a command started at [t] reads it again. *)
Definition simple_ns (cfg : io_config) (wall : Z -> Z) : NsOps (list Z) := {|
  proc_io_cmd nsid cmd _ nsecs_start stat :=
    if negb (nsid =? 0) then None else
    match simple_proc_nvme_io_cmd cfg (rw_opcode (cmd_rw cmd)) (rw_slba (cmd_rw cmd))
            (rw_length (cmd_rw cmd)) (wall nsecs_start) stat with
    | Done t stat' => Some (Some (NvmevResult 0 (default nsecs_start t)), [], stat')
    | _ => None
    end
|}.
