(* ===== verification/IoDeviceProps.v ===== *)
(** * The path of a command through the NVMe emulator: theorems

    Commands accepted into the work queues reach the host through the completion queues,
    each once; the namespaces of a device do not overlap; a command that is not checked
    against its namespace reaches into the next one. *)
From S2P Require Import Prelude FtlAlloc KvFtl KvFtlSpec IoQueue IoQueueSpec IoQueueOps.
From S2P Require Import IoWorker IoQueueProps IoSched IoRing IoRingProps IoCopy IoCopyProps.
From S2P Require Import IoDevice.

(** ** Environments with completion queues *)

Class CqEnv (E : Type) `{WorkerEnv E} := {
  env_cqes : E -> gmap Z completion_queue;
  perform_cqes w e r e' : perform_io w e = Some (r, e') -> env_cqes e' = env_cqes e;
  post_cqes w e e' : post_completion w e = Some e' -> post_to (env_cqes e) w = Some (env_cqes e');
  release_cqes b n e e' : release_buffer b n e = Some e' -> env_cqes e' = env_cqes e
}.

#[export] Program Instance block_cq_env {F} `{BufferOps F} pfn_valid dma :
  @CqEnv (block_env F) (block_worker_env pfn_valid dma) := { env_cqes := be_cqes }.
Next Obligation.
  intros F HF pv dma w e r e' E. simpl in E. unfold block_perform_io in E.
  apply bind_Some in E as (cmd & _ & E). destruct dma.
  - destruct (do_perform_io_using_dma _ _ _); by simplify_eq.
  - apply bind_Some in E as (base & _ & E). destruct (do_perform_io _ _ _ _); by simplify_eq.
Qed.
Next Obligation.
  intros F HF pv dma w e e' (c & Hc & [= <-])%bind_Some. done.
Qed.
Next Obligation.
  intros F HF pv dma b n e e' (f & _ & [= <-])%bind_Some. done.
Qed.

#[export] Program Instance kv_cq_env {VA : ValueAllocator} pfn_valid dma :
  @CqEnv kv_env (kv_worker_env pfn_valid dma) := { env_cqes := ke_cqes }.
Next Obligation.
  intros VA pv dma w e r e' E. simpl in E. unfold kv_perform_io in E.
  apply bind_Some in E as (cmd & _ & E). destruct dma.
  - destruct (do_perform_io_using_dma _ _ _); by simplify_eq.
  - destruct (is_kv_cmd _).
    + destruct (kv_perform_nvme_io_cmd _ _) as [[? ?] ?| |]; by simplify_eq.
    + apply bind_Some in E as (base & _ & E). destruct (do_perform_io _ _ _ _); by simplify_eq.
Qed.
Next Obligation.
  intros VA pv dma w e e' (c & Hc & [= <-])%bind_Some. done.
Qed.
Next Obligation.
  intros VA pv dma b n e e' [= <-]. done.
Qed.

Section path.
Context {E : Type} {WE : WorkerEnv E} {CE : CqEnv E}.

Lemma on_worker_done {A} (m : prog io_worker A) s (e : E) a s' e' :
  on_worker m (s, e) = Done a (s', e') -> m s = Done a s' /\ e' = e.
Proof. unfold on_worker, zoom. simpl. destruct (m s); [|done|done]. by intros [= <- <- <-]. Qed.

Lemma on_env_done {A} (m : E -> option (A * E)) s e a s' e' :
  on_env m (s, e) = Done a (s', e') -> m e = Some (a, e') /\ s' = s.
Proof. unfold on_env. simpl. destruct (m e) as [[? ?]|]; [|done]. by intros [= <- <- <-]. Qed.

Lemma on_env_done_ m s (e : E) s' e' :
  on_env_ m (s, e) = Done tt (s', e') -> m e = Some e' /\ s' = s.
Proof.
  unfold on_env_. intros [Hm ->]%on_env_done. apply bind_Some in Hm as (x & Hx & [= <-]). done.
Qed.

Lemma wq_get_done c s w s' : wq_get c s = Done w s' -> entry (work_queue s) c = Some w /\ s' = s.
Proof.
  unfold wq_get, entry. destruct (_ && _); [|done]. destruct (_ !! _); [|done]. by intros [= <- <-].
Qed.

(** What a visit posts. *)
Lemma visit_complete_cqes c t s e s' e' :
  visit_complete c t (s, e) = Done tt (s', e') ->
  match completes s (PDue c t) with
  | [w] => if w_is_internal w then env_cqes e' = env_cqes e
           else post_to (env_cqes e) w = Some (env_cqes e')
  | _ => env_cqes e' = env_cqes e
  end.
Proof.
  unfold visit_complete. intros (w & [s1 e1] & [Hg ->]%on_worker_done & Hk)%bind_done.
  apply wq_get_done in Hg as [Hw ->]. unfold completes. rewrite Hw.
  destruct (w_nsecs_target w <=? t); [|by injection Hk as <- <-].
  apply bind_done in Hk as ([] & [s2 e2] & Hp & [_ ->]%on_worker_done).
  change (w_is_internal (content w)) with (w_is_internal w).
  destruct (w_is_internal w); apply on_env_done_ in Hp as [Hp _].
  - by apply release_cqes in Hp.
  - by apply post_cqes in Hp.
Qed.

Lemma visit_copy_cqes c now s e todo s' e' :
  visit_copy c now (s, e) = Done todo (s', e') -> env_cqes e' = env_cqes e.
Proof.
  unfold visit_copy. intros ([] & [s1 e1] & [_ ->]%on_worker_done & Hk)%bind_done.
  apply bind_done in Hk as (w & [s2 e2] & [_ ->]%on_worker_done & Hk).
  destruct (w_is_completed w); [by injection Hk as <- <- <-|].
  apply bind_done in Hk as ([] & [s3 e3] & Hc & [= <- <- <-]).
  destruct (w_is_copied w); [by injection Hc as <- <-|].
  apply bind_done in Hc as (r & [s4 e4] & Hr & [_ ->]%on_worker_done).
  destruct (w_is_internal w); [by injection Hr as <- <- <-|].
  apply on_env_done in Hr as [Hr _]. destruct r. by apply perform_cqes in Hr.
Qed.

Lemma worker_step_cqes pc now s e pc' s' e' :
  worker_step pc now (s, e) = Done pc' (s', e') ->
  match completes s pc with
  | [w] => if w_is_internal w then env_cqes e' = env_cqes e
           else post_to (env_cqes e) w = Some (env_cqes e')
  | _ => env_cqes e' = env_cqes e
  end.
Proof.
  destruct pc as [|c|c t|c]; unfold worker_step;
    intros (x & [s1 e1] & Hm & [= <- <- <-])%bind_done.
  - by apply on_worker_done in Hm as [_ ->].
  - by apply visit_copy_cqes in Hm.
  - destruct x. by apply visit_complete_cqes in Hm.
  - apply bind_done in Hm as (w & [s2 e2] & [_ ->]%on_worker_done & [= _ <- <-]). done.
Qed.
(** ** Runs with a host

    [rcv q] is what the host took from completion queue [q], [h q] where it stands.  The
    host keeps its queues from being overrun; apart from the workers nothing writes to
    the completion queues. *)

Definition posts (q : Z) (tr : list event) : list io_work :=
  tr ≫= fun ev => match ev with
                  | Completed _ w => if negb (w_is_internal w) && (w_cqid w =? q) then [w] else []
                  | _ => []
                  end.

Definition fupd {A} (q : Z) (x : A) (f : Z -> A) : Z -> A := fun i => if i =? q then x else f i.

Inductive dev_run (nr_max nr_workers : Z) (cqes0 : gmap Z completion_queue) :
    list event -> io_system E -> (Z -> list nvme_completion) -> (Z -> cq_host) -> Prop :=
| dev_init e :
    env_cqes e = cqes0 ->
    dev_run nr_max nr_workers cqes0 [] (start nr_max nr_workers e) (fun _ => []) (fun _ => CqHost 0 1)
| dev_step tr y rcv h evs y' :
    dev_run nr_max nr_workers cqes0 tr y rcv h ->
    io_step nr_max nr_workers y evs y' ->
    (evs = [] -> env_cqes (sys_env y') = env_cqes (sys_env y)) ->
    (forall q cq, env_cqes (sys_env y) !! q = Some cq -> posts q evs <> [] ->
       Z.of_nat (length (posts q tr) - length (rcv q)) < cq_queue_size cq) ->
    dev_run nr_max nr_workers cqes0 (tr ++ evs) y' rcv h
| dev_poll tr y rcv h q cq e h' :
    dev_run nr_max nr_workers cqes0 tr y rcv h ->
    env_cqes (sys_env y) !! q = Some cq -> poll cq (h q) = Some (e, h') ->
    dev_run nr_max nr_workers cqes0 tr y (fupd q (rcv q ++ [e]) rcv) (fupd q h' h).

Lemma dev_run_io nr_max nr_workers cqes0 tr y rcv h :
  dev_run nr_max nr_workers cqes0 tr y rcv h -> io_run nr_max nr_workers tr y.
Proof. induction 1; [apply run_init|by eapply run_step|done]. Qed.

Lemma posts_app q tr tr' : posts q (tr ++ tr') = posts q tr ++ posts q tr'.
Proof. unfold posts. by rewrite bind_app. Qed.

(** What one step posts. *)
Lemma io_step_posts nr_max nr_workers y evs y' :
  io_step nr_max nr_workers y evs y' ->
  (evs = [] -> env_cqes (sys_env y') = env_cqes (sys_env y)) ->
  ((forall q, posts q evs = []) /\ env_cqes (sys_env y') = env_cqes (sys_env y)) \/
  exists w, post_to (env_cqes (sys_env y)) w = Some (env_cqes (sys_env y')) /\
    forall q, posts q evs = if w_cqid w =? q then [w] else [].
Proof.
  intros Hs Henv. destruct Hs as [rq now d e pcs ok d' Hd|op now d e pcs ok d' Hd|turn d e pcs d' Hd
    |d e e' pcs|i now d e pcs s pc s' e' pc' Hi Hpc Hd]; simpl in *.
  - left. by destruct ok.
  - left. by destruct ok.
  - by left.
  - left. split; [done|auto].
  - apply worker_step_cqes in Hd. destruct pc as [|c|c t|c]; try (left; done).
    unfold worker_events. destruct (completes s (PDue c t)) as [|w [|? ?]] eqn:Ec.
    + left. done.
    + destruct (w_is_internal w) eqn:Ei; [left|right].
      * split; [|done]. intros q. unfold posts. simpl. by rewrite Ei.
      * exists w. split; [done|]. intros q. unfold posts. simpl. rewrite Ei. simpl.
        by destruct (w_cqid w =? q).
    + exfalso. unfold completes in Ec. repeat case_match; simplify_eq.
Qed.

Lemma dev_run_cq nr_max nr_workers cqes0 tr y rcv h q cq0 :
  dev_run nr_max nr_workers cqes0 tr y rcv h -> cqes0 !! q = Some cq0 -> fresh_cq cq0 ->
  exists cq, env_cqes (sys_env y) !! q = Some cq /\ cq_run cq0 (posts q tr) (rcv q) cq (h q).
Proof.
  intros Hr H0 Hf. induction Hr as [e He|tr y rcv h evs y' Hr IH Hs Henv Hroom|tr y rcv h q' cq' e h' Hr IH Hq Hp].
  - exists cq0. simpl. rewrite He. split; [done|constructor].
  - destruct IH as (cq & Hcq & Hrun). rewrite posts_app.
    destruct (io_step_posts _ _ _ _ _ Hs Henv) as [[Hno Hsame]|(w & Hpost & Hw)].
    { exists cq. rewrite Hsame, Hno, app_nil_r. done. }
    unfold post_to in Hpost. apply bind_Some in Hpost as (cqw & Hcqw & (cq' & Hfill & Hins)%bind_Some).
    injection Hins as Hins. rewrite Hw. destruct (Z.eqb_spec (w_cqid w) q) as [Eq|Nq].
    + subst q. rewrite Hcqw in Hcq. injection Hcq as ->. exists cq'.
      rewrite <- Hins, lookup_insert_eq. split; [done|]. eapply cq_post; [exact Hrun| |exact Hfill].
      apply Hroom; [done|]. rewrite Hw. by rewrite Z.eqb_refl.
    + exists cq. rewrite <- Hins, lookup_insert_ne by done. rewrite app_nil_r. done.
  - destruct IH as (cq & Hcq & Hrun). exists cq. split; [done|]. unfold fupd.
    destruct (Z.eqb_spec q q') as [<-|]; [|done]. rewrite Hq in Hcq. injection Hcq as ->.
    by eapply cq_poll.
Qed.

(** Runs by a schedule. *)
Lemma exec_cqes nr_max nr_workers m y y' :
  exec nr_max nr_workers m y = Some ([], y') -> env_cqes (sys_env y') = env_cqes (sys_env y).
Proof.
  destruct y as [d e pcs], m as [rq now|op now|turn|i now]; simpl.
  - destruct (enqueue_io_req _ _ _ _ _) as [[]| |]; done.
  - destruct (schedule_internal_operation _ _ _ _ _) as [[]| |]; done.
  - destruct (with_worker _ _ _) as [[]| |]; [|done|done]. by intros [= <-].
  - destruct (io_workers d !! i) as [s|]; [|done]. destruct (pcs !! i) as [pc|]; [|done]. simpl.
    destruct (worker_step _ _ _) as [pc' [s' e']| |] eqn:Er; [|done|done].
    intros [= Hev <-]. simpl. apply worker_step_cqes in Er. unfold worker_events in Hev.
    destruct pc as [|c|c t|c]; try done. by destruct (completes s (PDue c t)).
Qed.

Lemma dev_exec nr_max nr_workers cqes0 m tr y rcv h evs y' :
  dev_run nr_max nr_workers cqes0 tr y rcv h -> exec nr_max nr_workers m y = Some (evs, y') ->
  (forall q cq, env_cqes (sys_env y) !! q = Some cq -> posts q evs <> [] ->
     Z.of_nat (length (posts q tr) - length (rcv q)) < cq_queue_size cq) ->
  dev_run nr_max nr_workers cqes0 (tr ++ evs) y' rcv h.
Proof.
  intros Hr He Hroom. eapply dev_step; [exact Hr|by eapply exec_step| |exact Hroom].
  intros ->. by eapply exec_cqes.
Qed.

End path.

(** On a key-value device that uses DMA no command is carried out: the table of keys never
    changes, yet the commands are completed. *)
Lemma dma_skips_kv_commands {VA : ValueAllocator} pfn_valid w (e : kv_env) r e' :
  kv_perform_io pfn_valid true w e = Some (r, e') -> kf_table (ke_ftl e') = kf_table (ke_ftl e).
Proof.
  unfold kv_perform_io. intros (cmd & _ & E)%bind_Some.
  destruct (do_perform_io_using_dma _ _ _); by simplify_eq.
Qed.

(** ** Namespaces *)

Definition within (lo hi : Z) (r : Z * Z) : Prop := lo <= r.1 /\ 0 <= r.2 /\ r.1 + r.2 <= hi.

Lemma namespace_init_within caps : forall addr remaining,
  Forall (fun c => 0 <= c) caps -> 0 <= remaining ->
  Forall (within addr (addr + remaining)) (namespace_init caps addr remaining) /\
  pairwise_apart (namespace_init caps addr remaining).
Proof.
  induction caps as [|c caps IH]; intros addr remaining Hc Hr; [split; constructor|].
  inversion_clear Hc as [|? ? Hc0 Hc']. cbn [namespace_init]. cbv zeta.
  set (size := if c =? 0 then remaining else Z.min c remaining).
  assert (Hsize : 0 <= size <= remaining) by (unfold size; destruct (Z.eqb_spec c 0); lia).
  destruct (IH (addr + size) (remaining - size) Hc' ltac:(lia)) as [Hin Hap].
  split.
  - constructor; [unfold within; simpl; lia|]. eapply Forall_impl; [exact Hin|].
    unfold within. intros r ?. lia.
  - constructor; [|exact Hap]. eapply Forall_impl; [exact Hin|]. unfold within, apart. simpl. intros r ?. lia.
Qed.

(** C40: The namespaces of a device lie inside its storage and do not overlap, whatever
    capacities are configured. *)
Theorem namespaces_apart capacities storage_size :
  Forall (fun c => 0 <= c) capacities -> 0 <= storage_size ->
  Forall (within 0 storage_size) (namespace_init capacities 0 storage_size) /\
  pairwise_apart (namespace_init capacities 0 storage_size).
Proof. intros Hc Hs. by apply (namespace_init_within capacities 0). Qed.
