(* ===== verification/IoSamples.v ===== *)
(** * Queues and data of the NVMe emulator: runs on small devices

    Inputs on which the theorems about queues, workers and data apply, and closed
    examples of what the code does that it does not mean to. *)
From S2P Require Import Prelude FtlAlloc KvFtl KvFtlSpec IoQueue IoQueueSpec IoQueueOps.
From S2P Require Import IoWorker IoQueueProps IoSched IoRing IoRingProps IoCopy IoCopyProps.
From S2P Require Import IoDevice IoDeviceProps.

Definition all_valid : Z -> bool := fun _ => true.

(** A device without a write buffer. *)
#[export] Instance no_buffer : BufferOps unit := { buffer_release _ _ f := Some f }.

Definition no_kv : nvme_kv_command := KvCmd 0 [] 0 0 0 0 0 0 0 0 0.

(** A command for one block, from or to the page at [prp1]. *)
Definition block_cmd (opcode id nsid prp1 slba : Z) : nvme_rw_command :=
  RwCommand opcode id nsid prp1 0 slba 0 0.
Definition as_command (rw : nvme_rw_command) : nvme_command := NvmeCommand rw no_kv.

Definition queue_of (size : Z) (cmds : list nvme_command) : submission_queue :=
  SubmissionQueue 1 1 size (SqStat 0 0 0 0 0)
    (cmds ++ replicate (Z.to_nat (page_slots size NR_SQE_PER_PAGE) - length cmds)
               (as_command (block_cmd 0 0 1 0 0))).

Definition zero_cqe : nvme_completion := NvmeCompletion 0 0 0 0 0 0.
Definition ring_of (size : Z) : completion_queue :=
  CompletionQueue 1 0 true false size 1 0 (-1)
    (replicate (Z.to_nat (page_slots size NR_CQE_PER_PAGE)) zero_cqe).

Definition a_work (id : Z) : io_work := IoWork 1 1 id id 0 0 0 true false 0 0 0 false 0 0 0 0.

(** ** Completion queues *)

Module Rings.

Definition after (o : option completion_queue) : completion_queue := default (ring_of 2) o.
Definition ring1 : completion_queue := after (fill_cq_result (a_work 1) (ring_of 2)).
Definition ring2 : completion_queue := after (fill_cq_result (a_work 2) ring1).
Definition ring3 : completion_queue := after (fill_cq_result (a_work 3) ring2).

(** Three completions on a ring of two; the host takes the first in time. *)
Lemma sample_cq_run :
  cq_run (ring_of 2) [a_work 1; a_work 2; a_work 3] [completion_of 1 (a_work 1)] ring3 (CqHost 1 1).
Proof.
  apply (cq_post _ [a_work 1; a_work 2] _ ring2); [|by vm_compute|by vm_compute].
  apply (cq_poll _ [a_work 1; a_work 2] [] ring2 (CqHost 0 1)); [|by vm_compute].
  apply (cq_post _ [a_work 1] [] ring1); [|by vm_compute|by vm_compute].
  apply (cq_post _ [] [] (ring_of 2)); [constructor|by vm_compute|by vm_compute].
Qed.

Lemma fresh_ring size : 0 < size -> fresh_cq (ring_of size).
Proof.
  intros Hs. split; [|split; [done|split; [done|]]].
  - simpl. rewrite length_replicate. unfold page_slots. replace NR_CQE_PER_PAGE with 256 by done.
    pose proof (Z.div_mod (size + 256 - 1) 256 ltac:(lia)).
    pose proof (Z.mod_pos_bound (size + 256 - 1) 256 ltac:(lia)). lia.
  - simpl. apply Forall_replicate. done.
Qed.


(** Nothing keeps a worker from overrunning the ring: the host finds the third
    completion in the place of the first. *)
Example overrun_loses_completion :
  fst <$> poll ring3 (CqHost 0 1) = None /\ slot (cq_slots ring3) 0 = Some (completion_of 0 (a_work 3)).
Proof. by vm_compute. Qed.

(** A device for [size] entries, of which the host has taken those up to slot 0. *)
Definition cq_device (size : Z) : nvmev_dev unit :=
  NvmevDev (IoDevice [] 0) {[1 := queue_of 4 []]} {[1 := ring_of size]} ∅ ∅ 1 1 [] tt.

Lemma cq_doorbell_in_flight_witness :
  wp never (nvmev_proc_io_cq 1 1 3) (fun _ d' =>
    dv_cqes d' !! 1 = Some (set_cq_tail 0 (ring_of 4)) /\
    forall q sq, dv_sqes (cq_device 4) !! q = Some sq -> exists sq', dv_sqes d' !! q = Some sq' /\
      nr_in_flight (sq_stat sq') =
        if entries_of q (entries_at (ring_of 4) (ring_from 4 3 (distance 4 3 1))) =? 0
        then nr_in_flight (sq_stat sq)
        else u32 (nr_in_flight (sq_stat sq) - entries_of q (entries_at (ring_of 4) (ring_from 4 3 (distance 4 3 1)))))
    (cq_device 4).
Proof. apply (cq_doorbell_in_flight 1 1 3 (cq_device 4) (ring_of 4)); [done|done|done|done|by right|].
  cbn [cq_slots ring_of]. by apply Forall_replicate.
Defined.

(** When the entries fill their pages, the slot behind the last is read before the test
    for the end of the ring. *)
Example doorbell_reads_past_ring : nvmev_proc_io_cq 1 0 255 (cq_device 256) = Undef.
Proof. by vm_compute. Qed.

(** The tail is meant to be the slot before the doorbell; at 0 it is not on the ring. *)
Example doorbell_at_zero_tail :
  match nvmev_proc_io_cq 1 0 3 (cq_device 4) with
  | Done _ d => cq_tail <$> dv_cqes d !! 1 = Some (-1)
  | _ => False
  end.
Proof. by vm_compute. Qed.

(** ** Submission queues *)

Definition cfg : io_config := IoConfig 2 12 1 2 3 4 5 6.
#[local] Instance simple_ops : NsOps (list Z) := simple_ns cfg (fun t => t).

Definition writes : list nvme_command :=
  (fun i => as_command (block_cmd nvme_cmd_write i 1 (4096 * i) i)) <$> seqZ 0 4.
Definition sq_device : nvmev_dev (list Z) :=
  NvmevDev (NVMEV_IO_WORKER_INIT 8 1) {[1 := queue_of 4 writes]} {[1 := ring_of 4]} ∅ ∅ 1 1 [] [0; 0].

Definition sq_done : Z * nvmev_dev (list Z) :=
  match nvmev_proc_io_sq 8 1 (fun i => (100 + i, 100 + i)) 1 1 3 sq_device with
  | Done r d => (r, d)
  | _ => (0, sq_device)
  end.

Lemma sq_ring_in_order_witness :
  exists k d1, 0 <= k <= distance 4 3 1 /\ 0 <= sq_done.1 < 4 /\
    processed 8 1 (fun i => (100 + i, 100 + i)) 1 0 (ring_from 4 3 k) sq_device d1 /\
    ring_from 4 3 (distance 4 3 1) = ring_from 4 3 k ++ ring_from 4 sq_done.1 (distance 4 sq_done.1 1) /\
    (sq_done.1 = 1 \/ exists d2,
       nvmev_proc_io 8 1 1 sq_done.1 (100 + k) (100 + k) d1 = Done None d2) /\
    exists sq', dv_sqes sq_done.2 !! 1 = Some sq' /\
      nr_in_flight (sq_stat sq') = (if k =? 0 then 0 else u32 (0 + k)).
Proof.
  apply (sq_ring_in_order 8 1 (fun i => (100 + i, 100 + i)) 1 1 3 sq_device _ _ (queue_of 4 writes));
    [done|done|done|by vm_compute].
Defined.
End Rings.

(** ** Data *)

Module Copies.

Definition host0 : memory := mem_write ∅ 8192 [1; 2; 3; 4].
Definition mem0 : io_memory := IoMemory host0 ∅ 65536.

Definition a_write : nvme_rw_command := block_cmd nvme_cmd_write 1 1 8192 1.
Definition a_read : nvme_rw_command := block_cmd nvme_cmd_read 2 1 12800 1.

Lemma read_stable host : pages_stable a_read [(12800, 512)] host.
Proof. by intros host' _. Qed.

Lemma write_read_roundtrip_witness :
  exists s1 s2,
    do_perform_io all_valid a_write 0 mem0 = Done 512 s1 /\
    io_host s1 = host0 /\
    (forall x, ~ in_range (0 + cmd_io_offset a_write, 512) x -> mem_get (io_storage s1) x = mem_get ∅ x) /\
    do_perform_io all_valid a_read 0 (set_io_host ∅ s1) = Done 512 s2 /\
    io_storage s2 = io_storage s1 /\
    gathered (io_host s2) [(12800, 512)] = gathered host0 [(8192, 512)] /\
    same_outside [(12800, 512)] ∅ (io_host s2).
Proof.
  apply (write_read_roundtrip all_valid (fun _ => eq_refl) a_write a_read 0 mem0 ∅ [(8192, 512)] [(12800, 512)]);
    [done|done|done|done|done|done|done|done|apply read_stable|repeat constructor].
Defined.

(** Two pages side by side. *)
Definition two_pages : nvme_rw_command := RwCommand nvme_cmd_write 1 1 8192 12288 0 15 0.

Lemma dma_equivalent_witness :
  do_perform_io_using_dma all_valid two_pages mem0 = do_perform_io all_valid two_pages 0 mem0.
Proof.
  apply (dma_equivalent all_valid (fun _ => eq_refl) two_pages [(8192, 4096); (12288, 4096)]);
    [done|by intros host' _|simpl; lia|repeat constructor|repeat constructor; by vm_compute].
Defined.

(** The second of two namespaces starts at 4096: the processor writes there, the DMA
    engine into the first namespace. *)
Example dma_ignores_namespace :
  match do_perform_io all_valid a_write 4096 mem0, do_perform_io_using_dma all_valid a_write mem0 with
  | Done _ s, Done _ s' =>
    mem_read (io_storage s) 4608 4 = [1; 2; 3; 4] /\ mem_read (io_storage s') 4608 4 = [0; 0; 0; 0] /\
    mem_read (io_storage s') 512 4 = [1; 2; 3; 4]
  | _, _ => False
  end.
Proof. by vm_compute. Qed.

(** Nothing checks a command against the size of its namespace: at block 8 of a namespace
    of 4096 bytes a write goes to the start of the next one. *)
Example write_crosses_namespaces :
  namespace_init [4096; 0] 0 65536 = [(0, 4096); (4096, 61440)] /\
  match do_perform_io all_valid (block_cmd nvme_cmd_write 1 1 8192 8) 0 mem0 with
  | Done _ s => mem_read (io_storage s) 4096 4 = [1; 2; 3; 4]
  | _ => False
  end.
Proof. by vm_compute. Qed.

(** Data that is not at the start of a page the kernel has to map is looked for twice as
    far into the page. *)
Example unaligned_mapped_page :
  data_address (fun _ => false) 8292 = 8392 /\
  match do_perform_io (fun _ => false) (block_cmd nvme_cmd_write 1 1 8292 1) 0
          (IoMemory (mem_write ∅ 8292 [1; 2; 3; 4]) ∅ 65536) with
  | Done _ s => mem_read (io_storage s) 512 4 = [0; 0; 0; 0]
  | _ => False
  end.
Proof. by vm_compute. Qed.

Lemma namespaces_apart_witness :
  Forall (within 0 65536) (namespace_init [4096; 0] 0 65536) /\ pairwise_apart (namespace_init [4096; 0] 0 65536).
Proof. apply namespaces_apart; [by repeat constructor|done]. Defined.
End Copies.

(** ** A device and its host *)

Module Device.

#[local] Instance sample_env : WorkerEnv (block_env unit) := block_worker_env all_valid false.
#[local] Instance sample_cq : CqEnv (block_env unit) := block_cq_env all_valid false.

Definition sq_with (cmd : nvme_rw_command) : submission_queue :=
  SubmissionQueue 1 1 4 (SqStat 0 0 0 0 0) [as_command cmd].
Definition cq0 : completion_queue := CompletionQueue 1 0 true false 4 1 0 (-1) (replicate 4 zero_cqe).
Definition env_with (cmd : nvme_rw_command) : block_env unit :=
  BlockEnv {[1 := sq_with cmd]} {[1 := cq0]} Copies.mem0 [(0, 65536)] tt.
Definition env0 : block_env unit := env_with (block_cmd nvme_cmd_flush 1 1 8192 0).

Definition rq0 : io_request := IoRequest 1 1 0 1 5 10 0.

(** A flush is accepted, visited and completed at time 12. *)
Definition moves : list move := [MEnqueue rq0 6; MWorker 0 0; MWorker 0 12; MWorker 0 0].

Definition stage (n : nat) : list event * io_system (block_env unit) :=
  default ([], start 8 1 env0) (exec_all 8 1 (take n moves) [] (start 8 1 env0)).

Definition no_entries : Z -> list nvme_completion := fun _ => [].
Definition at_start : Z -> cq_host := fun _ => CqHost 0 1.
Abbreviation cqes0 := ({[1 := cq0]} : gmap Z completion_queue).

Definition new_events (n : nat) : list event := drop (length (stage n).1) (stage (S n)).1.

Lemma stage_next n m :
  exec 8 1 m (stage n).2 = Some (new_events n, (stage (S n)).2) ->
  (stage (S n)).1 = (stage n).1 ++ new_events n ->
  (forall q, posts q (stage n).1 = []) -> be_cqes (sys_env (stage n).2) = cqes0 ->
  dev_run 8 1 cqes0 (stage n).1 (stage n).2 no_entries at_start ->
  dev_run 8 1 cqes0 (stage (S n)).1 (stage (S n)).2 no_entries at_start.
Proof.
  intros He Hst Hp Hc Hr. rewrite Hst. eapply dev_exec; [exact Hr|exact He|].
  intros q cq Hq _. rewrite Hp. simpl in *. rewrite Hc in Hq.
  apply lookup_singleton_Some in Hq as [_ <-]. done.
Qed.

Lemma staged : dev_run 8 1 cqes0 (stage 4).1 (stage 4).2 no_entries at_start.
Proof.
  apply (stage_next 3 (MWorker 0 0)); [vm_compute; reflexivity..|].
  apply (stage_next 2 (MWorker 0 12)); [vm_compute; reflexivity..|].
  apply (stage_next 1 (MWorker 0 0)); [vm_compute; reflexivity..|].
  apply (stage_next 0 (MEnqueue rq0 6)); [vm_compute; reflexivity..|]. by apply (dev_init 8 1 cqes0 env0).
Qed.

Definition device_run : list event * io_system (block_env unit) := stage 4.

(** The host takes the entry. *)
Definition entry0 : nvme_completion := NvmeCompletion 0 0 0 1 1 1.
Definition received : Z -> list nvme_completion := fupd 1 [entry0] no_entries.
Definition host1 : Z -> cq_host := fupd 1 (CqHost 1 1) at_start.

Lemma taken : dev_run 8 1 cqes0 device_run.1 device_run.2 received host1.
Proof.
  eapply (dev_poll 8 1 cqes0 _ _ no_entries at_start 1); [exact staged|by vm_compute|by vm_compute].
Qed.


(** A request that was refused is moved all the same: its data overwrites the storage. *)
Example refused_write_is_moved :
  match perform_io (set_next 0 (IoWork 1 1 0 1 5 10 6 false false 385 0 0 false 0 0 0 0)) (env_with Copies.a_write) with
  | Some (_, status, e) => status = 385 /\ mem_read (io_storage (be_mem e)) 512 4 = [1; 2; 3; 4]
  | None => False
  end.
Proof. by vm_compute. Qed.
End Device.
