(* ===== verification/Admin.v ===== *)
(** * Controller registers and admin commands of the NVMe emulator (lib/nvmevirt: pci.c,
    admin.c, main.c)

    How a host sets a controller up: it writes the registers, which the dispatcher polls,
    then creates its queues with admin commands.  Commands, completions and the pages an
    answer goes to are bytes of host memory; the queues an admin command creates are
    those of [IoRing].

    [pfn_to_page] and [memremap] give the memory at a physical address, so a page is
    known by its address.  Outside the pages of a queue is other memory of the host,
    and a null pointer or an index outside a table is undefined behaviour. *)
From S2P Require Import Prelude KvFtl IoSched IoQueue IoRing Zns.

(** ** Commands and completions as bytes *)

(** Field of [n] bytes at offset [off] of a structure. *)
Definition field (off n : nat) (b : bytes) : Z := le_int (take n (drop off b)).

Definition decode_rw (b : bytes) : nvme_rw_command :=
  RwCommand (field 0 1 b) (field 2 2 b) (field 4 4 b) (field 24 8 b) (field 32 8 b) (field 40 8 b)
    (field 48 2 b) (field 50 2 b).

Definition decode_kv (b : bytes) : nvme_kv_command :=
  KvCmd (field 0 1 b) (take 16 (drop 48 b)) (field 44 1 b) (field 40 4 b) (field 24 8 b) (field 32 8 b)
    (field 47 1 b) (field 44 1 b) (field 45 1 b) (field 48 4 b) (field 52 4 b).

Definition decode_command (b : bytes) : nvme_command := NvmeCommand (decode_rw b) (decode_kv b).

Definition decode_completion (b : bytes) : nvme_completion :=
  NvmeCompletion (field 0 4 b) (field 4 4 b) (field 8 2 b) (field 10 2 b) (field 12 2 b) (field 14 2 b).

Definition encode_completion (e : nvme_completion) : bytes :=
  le_bytes 4 (cqe_result0 e) ++ le_bytes 4 (cqe_result1 e) ++ le_bytes 2 (cqe_sq_head e)
  ++ le_bytes 2 (cqe_sq_id e) ++ le_bytes 2 (cqe_command_id e) ++ le_bytes 2 (cqe_status e).

Definition SQE_SIZE : Z := 64.
Definition CQE_SIZE : Z := 16.

(** [n] structures of [size] bytes from address [base] on. *)
Definition decode_all {A} (decode : bytes -> A) (host : memory) (base size n : Z) : list A :=
  (fun i => decode (mem_read host (base + size * i) size)) <$> seqZ 0 n.

(** ** State *)

(** The pages of a queue, side by side. *)
Record queue_pages := QueuePages { qp_base : Z; qp_count : Z }.

(** Entry [i] of a queue with [per_page] entries on a page. *)
Definition entry_address (q : option queue_pages) (per_page size i : Z) : option Z :=
  p ← q;
  if (0 <=? i) && (i <? qp_count p * per_page) then Some (qp_base p + size * i) else None.

Record admin_queue := AdminQueue {
  aq_phase : Z;
  aq_sq_depth : Z;
  aq_cq_depth : Z;
  aq_cq_head : Z;
  aq_sq : option queue_pages;
  aq_cq : option queue_pages
}.

(** The registers the dispatcher acts on; [csts] by its two fields. *)
Record ctrl_regs := CtrlRegs {
  reg_cc : Z;
  reg_csts_rdy : Z;
  reg_csts_shst : Z;
  reg_aqa : Z;
  reg_asq : Z;
  reg_acq : Z
}.

(** [old_bar]: the values acted on last. *)
Record old_regs := OldRegs { old_cc : Z; old_aqa : Z; old_asq : Z; old_acq : Z }.

(** A namespace as identify commands show it; [ni_zns] are the parameters of a zoned one. *)
Record ns_info := NsInfo { ni_csi : Z; ni_size : Z; ni_zns : option znsparams }.

Definition NVME_CSI_ZNS : Z := 2.
Definition NVME_SC_SUCCESS : Z := 0.
Definition NVME_SC_INVALID_OPCODE : Z := 1.

Record controller (F : Type) := Controller {
  ct_dev : nvmev_dev F;
  ct_host : memory;
  ct_admin_q : option admin_queue;
  ct_bar : ctrl_regs;
  ct_old_bar : old_regs;
  ct_ns : list ns_info;
  ct_mdts : Z
}.
Arguments Controller {F}.
Arguments ct_dev {F}.
Arguments ct_host {F}.
Arguments ct_admin_q {F}.
Arguments ct_bar {F}.
Arguments ct_old_bar {F}.
Arguments ct_ns {F}.
Arguments ct_mdts {F}.

Section admin.
Context {F : Type}.
Abbreviation aprog := (prog (controller F)).

Definition set_ct_dev (x : nvmev_dev F) (c : controller F) : controller F :=
  Controller x (ct_host c) (ct_admin_q c) (ct_bar c) (ct_old_bar c) (ct_ns c) (ct_mdts c).
Definition set_ct_host (x : memory) (c : controller F) : controller F :=
  Controller (ct_dev c) x (ct_admin_q c) (ct_bar c) (ct_old_bar c) (ct_ns c) (ct_mdts c).
Definition set_admin_q (x : admin_queue) (c : controller F) : controller F :=
  Controller (ct_dev c) (ct_host c) (Some x) (ct_bar c) (ct_old_bar c) (ct_ns c) (ct_mdts c).
Definition set_bar (x : ctrl_regs) (c : controller F) : controller F :=
  Controller (ct_dev c) (ct_host c) (ct_admin_q c) x (ct_old_bar c) (ct_ns c) (ct_mdts c).
Definition set_old_bar (x : old_regs) (c : controller F) : controller F :=
  Controller (ct_dev c) (ct_host c) (ct_admin_q c) (ct_bar c) x (ct_ns c) (ct_mdts c).

Definition set_dbs (x : gmap Z Z) (d : nvmev_dev F) : nvmev_dev F :=
  NvmevDev (dv_io d) (dv_sqes d) (dv_cqes d) x (dv_old_dbs d) (dv_nr_sq d) (dv_nr_cq d) (dv_irqs d) (dv_ftl d).
Definition set_nr_queues (sq cq : Z) (d : nvmev_dev F) : nvmev_dev F :=
  NvmevDev (dv_io d) (dv_sqes d) (dv_cqes d) (dv_dbs d) (dv_old_dbs d) sq cq (dv_irqs d) (dv_ftl d).

(** [dbs[i] = old_dbs[i] = 0] *)
Definition reset_db (i : Z) (d : nvmev_dev F) : nvmev_dev F :=
  set_old_dbs (<[i := 0]> (dv_old_dbs d)) (set_dbs (<[i := 0]> (dv_dbs d)) d).

Definition on_dev {A} (m : prog (nvmev_dev F) A) : aprog A := zoom ct_dev set_ct_dev m.

Definition the {A} (x : option A) : aprog A := match x with Some a => mret a | None => undefined end.

Definition write_host (a : Z) (b : bytes) : aprog unit :=
  modify (fun c => set_ct_host (mem_write (ct_host c) a b) c).

(** Fields of a structure at [a], in the order they are assigned. *)
Definition write_fields (a : Z) (fs : list (Z * bytes)) : aprog unit :=
  for_each fs (fun f => write_host (a + f.1) f.2).

(** The command in slot [eid] of the admin queue. *)
Definition admin_command (eid : Z) : aprog bytes :=
  c ← get;
  q ← the (ct_admin_q c);
  a ← the (entry_address (aq_sq q) NR_SQE_PER_PAGE SQE_SIZE eid);
  mret (mem_read (ct_host c) a SQE_SIZE).

(** ** Completions *)

(** [__make_cq_entry_results] *)
Definition make_cq_entry_results (eid ret result0 result1 : Z) : aprog unit :=
  cmd ← admin_command eid;
  c ← get;
  q ← the (ct_admin_q c);
  a ← the (entry_address (aq_cq q) NR_CQE_PER_PAGE CQE_SIZE (aq_cq_head q));
  _ ← write_host a (encode_completion
        (NvmeCompletion result0 result1 (u16 eid) 0 (field 2 2 cmd)
           (u16 (Z.lor (aq_phase q) (Z.shiftl ret 1)))));
  let wraps := aq_cq_head q + 1 =? aq_cq_depth q in
  modify (set_admin_q
    (AdminQueue (if wraps then if aq_phase q =? 0 then 1 else 0 else aq_phase q)
       (aq_sq_depth q) (aq_cq_depth q) (if wraps then 0 else aq_cq_head q + 1) (aq_sq q) (aq_cq q))).

Definition make_cq_entry (eid ret : Z) : aprog unit := make_cq_entry_results eid ret 0 0.

(** ** Queues *)

(** An index of [cqes] or [sqes]. *)
Definition queue_index (qid : Z) : aprog unit :=
  if NR_MAX_IO_QUEUE <? qid then undefined else mret tt.

Definition NVME_CQ_IRQ_ENABLED : Z := 2.

(** The completion queue of a command, on the pages of the host it names. *)
Definition new_cq (host : memory) (cmd : bytes) : completion_queue :=
  let irq_enabled := negb (Z.land (field 44 2 cmd) NVME_CQ_IRQ_ENABLED =? 0) in
  let queue_size := field 42 2 cmd + 1 in
  let num_pages := div_round_up (queue_size * CQE_SIZE) PAGE_SIZE in
  CompletionQueue (field 40 2 cmd) (if irq_enabled then field 46 2 cmd else 0) irq_enabled false queue_size 1 0 (-1)
    (decode_all decode_completion host (field 24 8 cmd) CQE_SIZE (num_pages * NR_CQE_PER_PAGE)).

Definition admin_create_cq (eid : Z) : aprog unit :=
  cmd ← admin_command eid;
  c ← get;
  let cq := new_cq (ct_host c) cmd in
  _ ← queue_index (cq_qid cq);
  _ ← on_dev (modify (fun d => set_cqes (<[cq_qid cq := cq]> (dv_cqes d)) d));
  _ ← on_dev (modify (reset_db (cq_qid cq * 2 + 1)));
  make_cq_entry eid NVME_SC_SUCCESS.

Definition admin_delete_cq (eid : Z) : aprog unit :=
  cmd ← admin_command eid;
  let qid := field 40 2 cmd in
  _ ← queue_index qid;
  _ ← on_dev (modify (fun d => set_cqes (delete qid (dv_cqes d)) d));
  make_cq_entry eid NVME_SC_SUCCESS.

Definition new_sq (host : memory) (cmd : bytes) : submission_queue :=
  let queue_size := field 42 2 cmd + 1 in
  let num_pages := div_round_up (queue_size * SQE_SIZE) PAGE_SIZE in
  SubmissionQueue (field 40 2 cmd) (field 46 2 cmd) queue_size (SqStat 0 0 0 0 0)
    (decode_all decode_command host (field 24 8 cmd) SQE_SIZE (num_pages * NR_SQE_PER_PAGE)).

Definition admin_create_sq (eid : Z) : aprog unit :=
  cmd ← admin_command eid;
  c ← get;
  let sq := new_sq (ct_host c) cmd in
  _ ← queue_index (sq_qid sq);
  _ ← on_dev (modify (fun d => set_sqes (<[sq_qid sq := sq]> (dv_sqes d)) d));
  _ ← on_dev (modify (reset_db (sq_qid sq * 2)));
  make_cq_entry eid NVME_SC_SUCCESS.

Definition admin_delete_sq (eid : Z) : aprog unit :=
  cmd ← admin_command eid;
  let qid := field 40 2 cmd in
  _ ← queue_index qid;
  _ ← on_dev (modify (fun d => set_sqes (delete qid (dv_sqes d)) d));
  make_cq_entry eid NVME_SC_SUCCESS.

(** ** Log pages *)

(** [smart_log]: all zero but [spare_thresh]. *)
Definition smart_log : bytes := replicate 4 0 ++ [20] ++ replicate 507 0.

(** [effects_log]: 1 ([NVME_CMD_EFFECTS_CSUPP]) for the supported admin commands and, on
    zoned devices, the commands for zones (of which management also has
    [NVME_CMD_EFFECTS_LBCC]). *)
Definition effects_acs : list Z := [2; 6; 9; 10; 12].
Definition effects_iocs (zns : bool) : list (Z * Z) := if zns then [(121, 3); (122, 1); (125, 1)] else [].
Definition effects_log (zns : bool) : bytes :=
  (seqZ 0 256 ≫= fun i => le_bytes 4 (if bool_decide (i ∈ effects_acs) then 1 else 0))
  ++ (seqZ 0 256 ≫= fun i => le_bytes 4 (default 0 (list_to_map (M := gmap Z Z) (effects_iocs zns) !! i)))
  ++ replicate 2048 0.

(** [__memcpy(page, object, len)]: the object is not longer than its type. *)
Definition copy_object (a : Z) (object : bytes) (len : Z) : aprog unit :=
  if Z.of_nat (length object) <? len then undefined else write_host a (take (Z.to_nat len) object).

Definition NVME_LOG_SMART : Z := 2.
Definition NVME_LOG_CMD_EFFECTS : Z := 5.

(** The length a host asks for, in bytes. *)
Definition log_length (cmd : bytes) : Z :=
  u32 (Z.shiftl (u32 (Z.lor (Z.shiftl (field 44 2 cmd) 16) (field 42 2 cmd) + 1)) 2).

(** [zns]: the program is built for zoned devices. *)
Definition admin_get_log_page (zns : bool) (eid : Z) : aprog unit :=
  cmd ← admin_command eid;
  let len := log_length cmd in
  let page := field 24 8 cmd in
  let lid := field 40 1 cmd in
  _ ← (if lid =? NVME_LOG_SMART then copy_object page smart_log len
       else if lid =? NVME_LOG_CMD_EFFECTS then copy_object page (effects_log zns) len
       else write_host page (replicate (Z.to_nat len) 0));
  make_cq_entry eid NVME_SC_SUCCESS.

(** ** Identify *)

(** [ns[cmd->nsid - 1]] *)
Definition identified (cmd : bytes) : aprog ns_info :=
  c ← get; the (slot (ct_ns c) (field 4 4 cmd - 1)).

(** Formats 0 to 6: metadata, data size (log 2), performance. *)
Definition lba_formats : list (Z * Z * Z) :=
  [(0, 9, 2); (8, 9, 2); (16, 9, 2); (0, 12, 0); (8, 12, 0); (64, 12, 0); (128, 12, 0)].

Definition admin_identify_namespace (eid : Z) : aprog unit :=
  cmd ← admin_command eid;
  let a := field 24 8 cmd in
  _ ← write_host a (replicate (Z.to_nat PAGE_SIZE) 0);
  _ ← write_host (a + 128) (lba_formats ≫= fun f => le_bytes 2 f.1.1 ++ [f.1.2; f.2]);
  _ ← write_fields a [(26, [0]); (25, [6]); (29, [0])];
  ns ← identified cmd;
  let nsze := Z.shiftr (ni_size ns) 9 in
  _ ← write_fields a [(0, le_bytes 8 nsze); (8, le_bytes 8 nsze); (16, le_bytes 8 nsze)];
  make_cq_entry eid NVME_SC_SUCCESS.

(** Two pages are cleared, and the numbers of the namespaces above [nsid] written. *)
Definition admin_identify_namespaces (eid : Z) : aprog unit :=
  cmd ← admin_command eid;
  let a := field 24 8 cmd in
  _ ← write_host a (replicate (Z.to_nat (PAGE_SIZE * 2)) 0);
  c ← get;
  let nr_ns := Z.of_nat (length (ct_ns c)) in
  _ ← write_host a (filter (fun i => field 4 4 cmd < i) (seqZ 1 nr_ns) ≫= le_bytes 4);
  make_cq_entry eid NVME_SC_SUCCESS.

Definition NVME_NIDT_CSI : Z := 4.

Definition admin_identify_namespace_desc (eid : Z) : aprog unit :=
  cmd ← admin_command eid;
  let a := field 24 8 cmd in
  _ ← write_host a (replicate (Z.to_nat PAGE_SIZE) 0);
  ns ← identified cmd;
  _ ← write_fields a [(0, [NVME_NIDT_CSI]); (1, [1]); (4, [ni_csi ns mod 256])];
  make_cq_entry eid NVME_SC_SUCCESS.

Definition admin_identify_zns_namespace (eid : Z) : aprog unit :=
  cmd ← admin_command eid;
  ns ← identified cmd;
  match ni_zns ns with
  | None => make_cq_entry eid NVME_SC_SUCCESS
  | Some zpp =>
    if negb (ni_csi ns =? NVME_CSI_ZNS) then undefined else
    let a := field 24 8 cmd in
    _ ← write_host a (replicate (Z.to_nat PAGE_SIZE) 0);
    _ ← write_fields a [(4, le_bytes 4 (zp_nr_active_zones zpp - 1)); (8, le_bytes 4 (zp_nr_open_zones zpp - 1))];
    _ ← (if 0 <? zp_nr_zrwa_zones zpp then
           write_fields a [(2, le_bytes 2 2); (44, le_bytes 4 (zp_nr_zrwa_zones zpp - 1));
             (48, le_bytes 2 (zp_zrwafg_size zpp)); (50, le_bytes 2 (zp_zrwa_size zpp)); (52, [1])]
         else mret tt);
    _ ← write_fields a [(2816, le_bytes 8 (Z.shiftr (zp_zone_size zpp) 9)); (2824, [0])];
    make_cq_entry eid NVME_SC_SUCCESS
  end.

(** Only the first byte of the page is written. *)
Definition admin_identify_zns_ctrl (eid : Z) : aprog unit :=
  cmd ← admin_command eid;
  _ ← write_host (field 24 8 cmd) [0];
  make_cq_entry eid NVME_SC_SUCCESS.

(** [snprintf] of a text shorter than the field. *)
Definition text (s : string) : bytes := (fun a => Z.of_nat (Ascii.nat_of_ascii a)) <$> String.list_ascii_of_string s.

Definition admin_identify_ctrl (eid : Z) : aprog unit :=
  cmd ← admin_command eid;
  let a := field 24 8 cmd in
  _ ← write_host a (replicate (Z.to_nat PAGE_SIZE) 0);
  c ← get;
  _ ← write_fields a
        [(516, le_bytes 4 (Z.of_nat (length (ct_ns c)))); (520, le_bytes 2 0); (258, [3]); (525, [0]);
         (4, text "CSL_Virt_SN_01" ++ [0]); (24, text "CSL_Virt_MN_01" ++ [0]); (64, text "CSL_002" ++ [0]);
         (77, [ct_mdts c mod 256]); (512, [102]); (513, [68])];
  make_cq_entry eid NVME_SC_SUCCESS.

Definition admin_identify (eid : Z) : aprog unit :=
  cmd ← admin_command eid;
  let cns := field 40 4 cmd in
  if cns =? 0 then admin_identify_namespace eid
  else if cns =? 1 then admin_identify_ctrl eid
  else if cns =? 2 then admin_identify_namespaces eid
  else if cns =? 3 then admin_identify_namespace_desc eid
  else if cns =? 5 then admin_identify_zns_namespace eid
  else if cns =? 6 then admin_identify_zns_ctrl eid
  else make_cq_entry eid NVME_SC_INVALID_OPCODE.

(** ** Features *)

Definition NVME_FEAT_NUM_QUEUES : Z := 7.

(** The numbers of queues, less one, in the halves of a word. *)
Definition nr_queues_word (d : nvmev_dev F) : Z :=
  u32 (Z.lor (u32 (Z.shiftl (u32 (dv_nr_cq d - 1)) 16)) (u32 (dv_nr_sq d - 1))).

Definition admin_set_features (eid : Z) : aprog unit :=
  cmd ← admin_command eid;
  if field 40 4 cmd =? NVME_FEAT_NUM_QUEUES then
    let dword11 := field 44 4 cmd in
    let nr_sq := Z.min (Z.land dword11 65535 + 1) NR_MAX_IO_QUEUE in
    let nr_cq := Z.min (Z.land (Z.shiftr dword11 16) 65535 + 1) NR_MAX_IO_QUEUE in
    _ ← on_dev (modify (set_nr_queues nr_sq nr_cq));
    c ← get;
    make_cq_entry_results eid NVME_SC_SUCCESS (nr_queues_word (ct_dev c)) 0
  else make_cq_entry_results eid NVME_SC_SUCCESS 0 0.

Definition admin_get_features (eid : Z) : aprog unit :=
  cmd ← admin_command eid;
  c ← get;
  if field 40 4 cmd =? NVME_FEAT_NUM_QUEUES
  then make_cq_entry_results eid NVME_SC_SUCCESS (nr_queues_word (ct_dev c)) 0
  else make_cq_entry_results eid NVME_SC_SUCCESS 0 0.

Definition admin_async_event (eid : Z) : aprog unit := make_cq_entry eid NVME_SC_SUCCESS.

(** ** The admin queue *)

Definition nvme_admin_abort_cmd : Z := 8.

(** [__nvmev_proc_admin_req]; an abort is taken without an answer. *)
Definition proc_admin_req (zns : bool) (eid : Z) : aprog unit :=
  cmd ← admin_command eid;
  let opcode := field 0 1 cmd in
  if opcode =? 0 then admin_delete_sq eid
  else if opcode =? 1 then admin_create_sq eid
  else if opcode =? 2 then admin_get_log_page zns eid
  else if opcode =? 4 then admin_delete_cq eid
  else if opcode =? 5 then admin_create_cq eid
  else if opcode =? 6 then admin_identify eid
  else if opcode =? nvme_admin_abort_cmd then mret tt
  else if opcode =? 9 then admin_set_features eid
  else if opcode =? 10 then admin_get_features eid
  else if opcode =? 12 then admin_async_event eid
  else make_cq_entry eid NVME_SC_INVALID_OPCODE.

(** The loop of [nvmev_proc_admin_sq], [n] requests from slot [curr] on. *)
Fixpoint admin_sq_loop (zns : bool) (n : nat) (curr : Z) : aprog unit :=
  match n with
  | O => mret tt
  | S n' =>
    _ ← proc_admin_req zns curr;
    c ← get;
    q ← the (ct_admin_q c);
    admin_sq_loop zns n' (if curr + 1 =? aq_sq_depth q then 0 else curr + 1)
  end.

Definition signal_irq (vector : Z) : aprog unit :=
  on_dev (modify (fun d => set_irqs (dv_irqs d ++ [vector]) d)).

Definition nvmev_proc_admin_sq (zns : bool) (new_db old_db : Z) : aprog unit :=
  c ← get;
  q ← the (ct_admin_q c);
  let num_proc := new_db - old_db in
  let num_proc := if num_proc <? 0 then num_proc + aq_sq_depth q else num_proc in
  _ ← admin_sq_loop zns (Z.to_nat num_proc) old_db;
  signal_irq 0.

Definition nvmev_proc_admin_cq (new_db old_db : Z) : aprog unit := mret tt.

(** ** Registers *)

(** Fields of [aqa] and [cc]. *)
Definition aqa_asqs (x : Z) : Z := Z.land x 4095.
Definition aqa_acqs (x : Z) : Z := Z.land (Z.shiftr x 16) 4095.
Definition cc_en (x : Z) : Z := Z.land x 1.
Definition cc_shn (x : Z) : Z := Z.land (Z.shiftr x 14) 3.

Definition set_rdy (x : Z) (b : ctrl_regs) : ctrl_regs :=
  CtrlRegs (reg_cc b) x (reg_csts_shst b) (reg_aqa b) (reg_asq b) (reg_acq b).
Definition set_shst (x : Z) (b : ctrl_regs) : ctrl_regs :=
  CtrlRegs (reg_cc b) (reg_csts_rdy b) x (reg_aqa b) (reg_asq b) (reg_acq b).

(** [page_address(pfn_to_page(x >> PAGE_SHIFT))], and the pages after it. *)
Definition pages_at (x depth size : Z) : queue_pages :=
  QueuePages (Z.shiftl (Z.shiftr x 12) 12) (div_round_up (depth * size) PAGE_SIZE).

(** [aqa] was written: the admin queue starts anew. *)
Definition bar_aqa : aprog unit :=
  c ← get;
  let bar := ct_bar c in
  let old := ct_old_bar c in
  let q := default (AdminQueue 0 0 0 0 None None) (ct_admin_q c) in
  _ ← modify (set_old_bar (OldRegs (old_cc old) (reg_aqa bar) (old_asq old) (old_acq old)));
  _ ← modify (set_admin_q (AdminQueue 1 (aqa_asqs (reg_aqa bar) + 1) (aqa_acqs (reg_aqa bar) + 1) 0
                             (aq_sq q) (aq_cq q)));
  _ ← on_dev (modify (reset_db 0));
  on_dev (modify (reset_db 1)).

(** [asq] was written; without a queue the change is seen again the next time. *)
Definition bar_asq : aprog unit :=
  c ← get;
  let bar := ct_bar c in
  let old := ct_old_bar c in
  match ct_admin_q c with
  | None => mret tt
  | Some q =>
    let sq_depth := aqa_asqs (reg_aqa bar) + 1 in
    _ ← modify (set_old_bar (OldRegs (old_cc old) (old_aqa old) (reg_asq bar) (old_acq old)));
    _ ← modify (set_admin_q (AdminQueue (aq_phase q) sq_depth (aq_cq_depth q) (aq_cq_head q)
                               (Some (pages_at (reg_asq bar) sq_depth SQE_SIZE)) (aq_cq q)));
    on_dev (modify (reset_db 0))
  end.

Definition bar_acq : aprog unit :=
  c ← get;
  let bar := ct_bar c in
  let old := ct_old_bar c in
  match ct_admin_q c with
  | None => mret tt
  | Some q =>
    let cq_depth := aqa_acqs (reg_aqa bar) + 1 in
    _ ← modify (set_old_bar (OldRegs (old_cc old) (old_aqa old) (old_asq old) (reg_acq bar)));
    _ ← modify (set_admin_q (AdminQueue 1 (aq_sq_depth q) cq_depth 0 (aq_sq q)
                               (Some (pages_at (reg_acq bar) cq_depth CQE_SIZE))));
    on_dev (modify (reset_db 1))
  end.

(** [cc] was written: enable, disable, shut down. *)
Definition bar_cc : aprog unit :=
  c ← get;
  let cc := reg_cc (ct_bar c) in
  _ ← (if cc_en cc =? 1
       then match ct_admin_q c with
            | Some _ => modify (fun c => set_bar (set_rdy 1 (ct_bar c)) c)
            | None => mret tt
            end
       else modify (fun c => set_bar (set_rdy 0 (ct_bar c)) c));
  _ ← (if cc_shn cc =? 1 then
         _ ← modify (fun c => set_bar (set_shst 2 (ct_bar c)) c);
         _ ← on_dev (modify (reset_db 0));
         _ ← on_dev (modify (reset_db 1));
         q ← the (ct_admin_q c);
         modify (set_admin_q (AdminQueue (aq_phase q) (aq_sq_depth q) (aq_cq_depth q) 0 (aq_sq q) (aq_cq q)))
       else mret tt);
  let old := ct_old_bar c in
  modify (set_old_bar (OldRegs cc (old_aqa old) (old_asq old) (old_acq old))).

(** [nvmev_proc_bars]: one change at a time; whether there was one. *)
Definition nvmev_proc_bars : aprog bool :=
  c ← get;
  let bar := ct_bar c in
  let old := ct_old_bar c in
  if negb (old_aqa old =? reg_aqa bar) then _ ← bar_aqa; mret true
  else if negb (old_asq old =? reg_asq bar) then _ ← bar_asq; mret true
  else if negb (old_acq old =? reg_acq bar) then _ ← bar_acq; mret true
  else if negb (old_cc old =? reg_cc bar) then _ ← bar_cc; mret true
  else mret false.

(** ** The dispatcher *)

Section dispatcher.
Context `{NsOps F} (zns : bool) (nr_max nr_workers : Z).

(** [nvmev_proc_dbs]; [clock qid seq] are the clocks when a command is processed. *)
Definition nvmev_proc_dbs (clock : Z -> Z -> Z * Z) : aprog bool :=
  c ← get;
  let new_db := db (dv_dbs (ct_dev c)) 0 in
  let old_db := db (dv_old_dbs (ct_dev c)) 0 in
  a ← (if new_db =? old_db then mret false else
       _ ← nvmev_proc_admin_sq zns new_db old_db;
       _ ← on_dev (modify (fun d => set_old_dbs (<[0 := u32 new_db]> (dv_old_dbs d)) d));
       mret true);
  c ← get;
  let new_db := db (dv_dbs (ct_dev c)) 1 in
  let old_db := db (dv_old_dbs (ct_dev c)) 1 in
  b ← (if new_db =? old_db then mret false else
       _ ← nvmev_proc_admin_cq new_db old_db;
       _ ← on_dev (modify (fun d => set_old_dbs (<[1 := u32 new_db]> (dv_old_dbs d)) d));
       mret true);
  i ← on_dev (proc_io_dbs nr_max nr_workers clock);
  mret (a || b || i).

(** A turn of the loop of [nvmev_dispatcher]. *)
Definition dispatcher_turn (clock : Z -> Z -> Z * Z) : aprog bool :=
  a ← nvmev_proc_bars;
  b ← nvmev_proc_dbs clock;
  mret (a || b).
End dispatcher.

(** The registers as [__init_nvme_ctrl_regs] leaves them; no admin queue yet. *)
Definition controller_init (d : nvmev_dev F) (host : memory) (ns : list ns_info) (mdts : Z) : controller F :=
  Controller (set_old_dbs ∅ (set_dbs ∅ d)) host None (CtrlRegs 0 0 0 0 0 0) (OldRegs 0 0 0 0) ns mdts.
End admin.
