(* ===== verification/AdminSpec.v ===== *)
(** * Admin commands of the NVMe emulator: what each command does

    The admin completion queue is a ring as those of [IoRing]: answering a command is
    posting to it.  Each handler changes the device, or writes to one range of host
    memory, and answers once; nothing else changes. *)
From S2P Require Import Prelude FtlAlloc KvFtl KvFtlSpec IoSched IoQueue IoRing IoRingProps Zns Admin.

(** ** Structures in memory *)

Lemma length_encode e : length (encode_completion e) = 16%nat.
Proof. unfold encode_completion. rewrite !length_app, !length_le_bytes. done. Qed.

Lemma touched_one r x : touched [r] x <-> in_range r x.
Proof. unfold touched. rewrite Exists_cons, Exists_nil. tauto. Qed.

(** What a completion is after it was written and read. *)
Lemma decode_encode_completion e :
  decode_completion (encode_completion e) =
  NvmeCompletion (u32 (cqe_result0 e)) (u32 (cqe_result1 e)) (u16 (cqe_sq_head e)) (u16 (cqe_sq_id e))
    (u16 (cqe_command_id e)) (u16 (cqe_status e)).
Proof.
  transitivity (NvmeCompletion (le_int (le_bytes 4 (cqe_result0 e))) (le_int (le_bytes 4 (cqe_result1 e)))
    (le_int (le_bytes 2 (cqe_sq_head e))) (le_int (le_bytes 2 (cqe_sq_id e)))
    (le_int (le_bytes 2 (cqe_command_id e))) (le_int (le_bytes 2 (cqe_status e)))); [done|].
  by rewrite !le_int_le_bytes_mod.
Qed.

Lemma decode_all_ext {A} (dec : bytes -> A) host host' base size n :
  0 <= size -> (forall x, base <= x < base + size * n -> mem_get host' x = mem_get host x) ->
  decode_all dec host' base size n = decode_all dec host base size n.
Proof.
  intros Hs H. apply list_fmap_ext. intros k i Hi%lookup_seqZ. f_equal. apply mem_read_ext.
  intros x Hx. apply H. nia.
Qed.

Lemma decode_all_write {A} (dec : bytes -> A) host base size n i b :
  0 < size -> 0 <= i < n -> Z.of_nat (length b) = size ->
  decode_all dec (mem_write host (base + size * i) b) base size n =
  <[Z.to_nat i := dec b]> (decode_all dec host base size n).
Proof.
  intros Hs Hi Hb. apply list_eq. intros k. unfold decode_all.
  destruct (decide (k = Z.to_nat i)) as [->|N].
  - rewrite list_lookup_insert_eq by (rewrite length_fmap, length_seqZ; lia).
    rewrite list_lookup_fmap, lookup_seqZ_lt by lia. simpl. do 2 f_equal.
    rewrite Z2Nat.id by lia. rewrite <- Hb. apply mem_read_write.
  - rewrite list_lookup_insert_ne by done. rewrite !list_lookup_fmap.
    destruct (seqZ 0 n !! k) as [j|] eqn:E; [|done]. apply lookup_seqZ in E as [-> Hk].
    simpl. do 2 f_equal. apply mem_read_write_apart. unfold apart. simpl. nia.
Qed.

Lemma length_decode_all {A} (dec : bytes -> A) host base size n :
  0 <= n -> Z.of_nat (length (decode_all dec host base size n)) = n.
Proof. intros. unfold decode_all. rewrite length_fmap, length_seqZ. lia. Qed.

(** ** The admin queue as a ring *)

Section admin.
Context {F : Type}.
Implicit Types (c : controller F) (d : nvmev_dev F).

(** The memory of the pages of a queue. *)
Definition region (p : queue_pages) : Z * Z := (qp_base p, qp_count p * PAGE_SIZE).

(** An admin queue [q] that is set up, on pages of its own. *)
Record admin_ok c (q : admin_queue) (sp cp : queue_pages) : Prop := {
  ao_q : ct_admin_q c = Some q;
  ao_sq : aq_sq q = Some sp;
  ao_cq : aq_cq q = Some cp;
  ao_head : 0 <= aq_cq_head q < aq_cq_depth q;
  ao_depth : aq_cq_depth q <= qp_count cp * NR_CQE_PER_PAGE;
  ao_sq_depth : 0 < aq_sq_depth q <= qp_count sp * NR_SQE_PER_PAGE;
  ao_phase : aq_phase q = 0 \/ aq_phase q = 1;
  ao_apart : apart (region sp) (region cp)
}.

(** Its completions, as a completion queue of the device. *)
Definition admin_cq c (q : admin_queue) (cp : queue_pages) : completion_queue :=
  CompletionQueue 0 0 true true (aq_cq_depth q) (aq_phase q) (aq_cq_head q) (-1)
    (decode_all decode_completion (ct_host c) (qp_base cp) CQE_SIZE (qp_count cp * NR_CQE_PER_PAGE)).

Definition command_at c (sp : queue_pages) (eid : Z) : bytes :=
  mem_read (ct_host c) (qp_base sp + SQE_SIZE * eid) SQE_SIZE.

(** The answer to a command, as a request that is completed. *)
Definition answer_work (eid : Z) (cmd : bytes) (status result : Z) : io_work :=
  IoWork 0 0 eid (field 2 2 cmd) 0 0 0 true true status result 0 false 0 0 0 0.

(** What a command has done, from [c], before it is answered: changed the device to [d]
    and written to host memory in the range [D]. *)
Record worked (D : Z * Z) c d c1 : Prop := {
  wk_dev : ct_dev c1 = d;
  wk_host : same_outside [D] (ct_host c) (ct_host c1);
  wk_rest : ct_admin_q c1 = ct_admin_q c /\ ct_bar c1 = ct_bar c /\ ct_old_bar c1 = ct_old_bar c /\
            ct_ns c1 = ct_ns c /\ ct_mdts c1 = ct_mdts c
}.

Lemma worked_refl D c : worked D c (ct_dev c) c.
Proof. split; [done|done|done]. Qed.

Definition inside (D : Z * Z) (a n : Z) : Prop := D.1 <= a /\ a + n <= D.1 + D.2.

Lemma wp_write_host D c d c1 a b (Q : unit -> controller F -> Prop) :
  worked D c d c1 -> inside D a (Z.of_nat (length b)) -> (forall c2, worked D c d c2 -> Q tt c2) ->
  wp never (write_host a b) Q c1.
Proof.
  intros [Hd Hh Hr] Hin HQ. apply wp_modify. apply HQ. split; [done| |done].
  intros x Hx. simpl. rewrite mem_get_write, decide_False; [by apply Hh|].
  intros Hi. apply Hx. left. unfold in_range, inside in *. simpl in *. lia.
Qed.

Lemma wp_write_fields D c d c1 a fs (Q : unit -> controller F -> Prop) :
  worked D c d c1 -> Forall (fun f => inside D (a + f.1) (Z.of_nat (length f.2))) fs ->
  (forall c2, worked D c d c2 -> Q tt c2) -> wp never (write_fields a fs) Q c1.
Proof.
  intros Hw HF HQ. unfold write_fields. revert c1 Hw. induction HF as [|f fs Hf _ IH]; intros c1 Hw.
  - apply wp_ret. by apply HQ.
  - simpl. apply wp_bind. eapply wp_write_host; [exact Hw|exact Hf|exact IH].
Qed.

Lemma wp_on_dev D c d c1 f (Q : unit -> controller F -> Prop) :
  worked D c d c1 -> (forall c2, worked D c (f d) c2 -> Q tt c2) -> wp never (on_dev (modify f)) Q c1.
Proof.
  intros [Hd Hh Hr] HQ. apply wp_zoom, wp_modify. apply HQ. split; simpl; [by rewrite Hd|done|done].
Qed.

Lemma worked_read D c d c1 a n :
  worked D c d c1 -> apart D (a, n) -> mem_read (ct_host c1) a n = mem_read (ct_host c) a n.
Proof.
  intros Hw Hap. apply mem_read_ext. intros x Hx. apply Hw. intros Hi%touched_one.
  unfold in_range, apart in *. simpl in *. lia.
Qed.

Section command.
Context (D : Z * Z) c (q : admin_queue) (sp cp : queue_pages) (eid : Z).
Context (Hok : admin_ok c q sp cp) (HDs : apart D (region sp)) (HDc : apart D (region cp)).
Context (Heid : 0 <= eid < aq_sq_depth q).
Abbreviation cmd := (command_at c sp eid).

Lemma entry_in_page : 0 <= eid < qp_count sp * 64 /\ 0 <= aq_cq_head q < qp_count cp * 256.
Proof.
  destruct Hok as [_ _ _ H1 H2 H3 _ _].
  change NR_SQE_PER_PAGE with 64 in *. change NR_CQE_PER_PAGE with 256 in *. lia.
Qed.

Lemma wp_admin_command d c1 (Q : bytes -> controller F -> Prop) :
  worked D c d c1 -> Q cmd c1 -> wp never (admin_command eid) Q c1.
Proof.
  intros Hw HQ. destruct (wk_rest _ _ _ _ Hw) as [Eq _]. pose proof entry_in_page as [Hi _].
  unfold admin_command. apply wp_bind, wp_get. apply wp_bind. rewrite Eq, (ao_q _ _ _ _ Hok).
  apply wp_ret. apply wp_bind. unfold entry_address. rewrite (ao_sq _ _ _ _ Hok). simpl.
  replace ((0 <=? eid) && _) with true by (change NR_SQE_PER_PAGE with 64; bool_lia). apply wp_ret, wp_ret.
  rewrite (worked_read _ _ _ _ _ _ Hw); [exact HQ|].
  unfold apart, region, SQE_SIZE, PAGE_SIZE in *. simpl in *. lia.
Qed.

(** A command that is answered: the device is [d], the answer was posted to the ring of
    the admin queue, and host memory has changed only in [D] and on that ring. *)
Definition answered (status result : Z) d c2 : Prop :=
  ct_dev c2 = d /\ ct_bar c2 = ct_bar c /\ ct_old_bar c2 = ct_old_bar c /\ ct_ns c2 = ct_ns c /\
  ct_mdts c2 = ct_mdts c /\ same_outside [D; region cp] (ct_host c) (ct_host c2) /\
  exists q', admin_ok c2 q' sp cp /\ aq_sq_depth q' = aq_sq_depth q /\
    fill_cq_result (answer_work eid cmd status result) (admin_cq c q cp) = Some (admin_cq c2 q' cp).

Lemma answer_completion ph status result : (ph = 0 \/ ph = 1) -> (status = 0 \/ status = 1) -> 0 <= result < 2 ^ 32 ->
  decode_completion (encode_completion
    (NvmeCompletion result 0 (u16 eid) 0 (field 2 2 cmd) (u16 (Z.lor ph (Z.shiftl status 1))))) =
  completion_of ph (answer_work eid cmd status result).
Proof.
  intros Hp Hs Hr. rewrite decode_encode_completion. unfold completion_of. simpl.
  rewrite !wrap_idemp by lia. rewrite (wrap_small 32 result) by (unfold in_word; lia).
  replace (u32 (Z.shiftl status 1)) with (Z.shiftl status 1); [done|].
  symmetry. apply wrap_small. by destruct Hs as [->| ->].
Qed.

Lemma wp_answer d c1 status result (Q : unit -> controller F -> Prop) :
  worked D c d c1 -> (status = 0 \/ status = 1) -> 0 <= result < 2 ^ 32 ->
  (forall c2, answered status result d c2 -> Q tt c2) ->
  wp never (make_cq_entry_results eid status result 0) Q c1.
Proof.
  intros Hw Hs Hr HQ. pose proof entry_in_page as [_ Hh]. pose proof (wk_rest _ _ _ _ Hw) as (Eq & Eb & Eo & En & Em).
  unfold make_cq_entry_results. apply wp_bind. eapply wp_admin_command; [exact Hw|].
  apply wp_bind, wp_get. apply wp_bind. rewrite Eq, (ao_q _ _ _ _ Hok). apply wp_ret.
  unfold entry_address. rewrite (ao_cq _ _ _ _ Hok). apply wp_bind. simpl.
  replace ((0 <=? aq_cq_head q) && _) with true by (change NR_CQE_PER_PAGE with 256; bool_lia).
  apply wp_ret. apply wp_bind, wp_modify, wp_modify. apply HQ.
  set (e := NvmeCompletion _ _ _ _ _ _).
  assert (Hsame : same_outside [D; region cp] (ct_host c) (mem_write (ct_host c1)
                    (qp_base cp + CQE_SIZE * aq_cq_head q) (encode_completion e))).
  { intros x Hx. rewrite mem_get_write, length_encode, decide_False.
    - apply (wk_host _ _ _ _ Hw). intros Ht%touched_one. apply Hx. by left.
    - intros Hi. apply Hx. right. left. unfold in_range, region, CQE_SIZE, PAGE_SIZE in *. simpl in *. lia. }
  split; [apply Hw|]. split; [done|]. split; [done|]. split; [done|]. split; [done|]. split; [exact Hsame|].
  eexists. split; [|split; [|]].
  - destruct Hok as [K1 K2 K3 K4 K5 K6 K7 K8]. split; simpl; try done.
    + simpl. destruct (Z.eqb_spec (aq_cq_head q + 1) (aq_cq_depth q)); lia.
    + simpl. destruct (_ =? _); [destruct (Z.eqb_spec (aq_phase q) 0); auto|done].
  - done.
  - unfold fill_cq_result, admin_cq. cbn [cq_head cq_slots cq_phase cq_queue_size set_cq].
    destruct (ring_slot_some (decode_all decode_completion (ct_host c) (qp_base cp) CQE_SIZE
                (qp_count cp * NR_CQE_PER_PAGE)) (aq_cq_head q)) as [x ->].
    { rewrite length_decode_all; change NR_CQE_PER_PAGE with 256; lia. }
    cbn [mbind option_bind cq_qid cq_irq_vector cq_irq_enabled cq_queue_size cq_tail ct_host set_ct_host set_admin_q
         aq_cq_depth aq_phase aq_cq_head]. unfold set_cq at 1.
    cbn [cq_qid cq_irq_vector cq_irq_enabled cq_queue_size cq_tail]. do 2 f_equal.
    rewrite decode_all_write; [|done|change NR_CQE_PER_PAGE with 256; lia|by rewrite length_encode].
    f_equal; [symmetry; apply answer_completion; [apply Hok|done|done]|].
    symmetry. apply decode_all_ext; [done|]. intros x' Hx'. apply (wk_host _ _ _ _ Hw).
    intros Hi%touched_one.
    unfold in_range, apart, region, CQE_SIZE, PAGE_SIZE in *. change NR_CQE_PER_PAGE with 256 in *. simpl in *. lia.
Qed.
End command.

(** ** What a command does *)

Definition opcode_of (cmd : bytes) : Z := field 0 1 cmd.
Definition cns_of (cmd : bytes) : Z := field 40 4 cmd.

(** The status of the answer. *)
Definition status_of (cmd : bytes) : Z :=
  if bool_decide (opcode_of cmd ∈ [0; 1; 2; 4; 5; 9; 10; 12]) then 0
  else if (opcode_of cmd =? 6) && bool_decide (cns_of cmd ∈ [0; 1; 2; 3; 5; 6]) then 0 else 1.

(** The device after the command. *)
Definition device_after (host : memory) (cmd : bytes) d : nvmev_dev F :=
  let qid := field 40 2 cmd in
  let dword11 := field 44 4 cmd in
  let op := opcode_of cmd in
  if op =? 0 then set_sqes (delete qid (dv_sqes d)) d
  else if op =? 1 then reset_db (qid * 2) (set_sqes (<[qid := new_sq host cmd]> (dv_sqes d)) d)
  else if op =? 4 then set_cqes (delete qid (dv_cqes d)) d
  else if op =? 5 then reset_db (qid * 2 + 1) (set_cqes (<[qid := new_cq host cmd]> (dv_cqes d)) d)
  else if (op =? 9) && (field 40 4 cmd =? NVME_FEAT_NUM_QUEUES) then
    set_nr_queues (Z.min (dword11 mod 2 ^ 16 + 1) NR_MAX_IO_QUEUE)
      (Z.min ((dword11 / 2 ^ 16) mod 2 ^ 16 + 1) NR_MAX_IO_QUEUE) d
  else d.

(** The result in the answer. *)
Definition result_of (cmd : bytes) d : Z :=
  if ((opcode_of cmd =? 9) || (opcode_of cmd =? 10)) && (field 40 4 cmd =? NVME_FEAT_NUM_QUEUES)
  then nr_queues_word d else 0.

(** The memory of the host a command writes to. *)
Definition data_range (cmd : bytes) : Z * Z :=
  let prp1 := field 24 8 cmd in
  if opcode_of cmd =? 2 then (prp1, log_length cmd)
  else if opcode_of cmd =? 6 then
    if cns_of cmd =? 2 then (prp1, 2 * PAGE_SIZE)
    else if cns_of cmd =? 6 then (prp1, 1)
    else if bool_decide (cns_of cmd ∈ [0; 1; 3; 5]) then (prp1, PAGE_SIZE)
    else (0, 0)
  else (0, 0).

(** Commands within the limits of the code: queues that have a place in the tables, log
    pages not longer than the log, namespaces that exist. *)
Definition command_ok c (cmd : bytes) : Prop :=
  let op := opcode_of cmd in
  if bool_decide (op ∈ [0; 1; 4; 5]) then field 40 2 cmd <= NR_MAX_IO_QUEUE
  else if op =? 2 then
    if field 40 1 cmd =? NVME_LOG_SMART then log_length cmd <= 512
    else if field 40 1 cmd =? NVME_LOG_CMD_EFFECTS then log_length cmd <= PAGE_SIZE else True
  else if op =? 6 then
    if bool_decide (cns_of cmd ∈ [0; 3; 5]) then
      exists ns, slot (ct_ns c) (field 4 4 cmd - 1) = Some ns /\ (ni_zns ns = None \/ ni_csi ns = NVME_CSI_ZNS)
    else if cns_of cmd =? 2 then Z.of_nat (length (ct_ns c)) <= 2048 else True
  else op <> nvme_admin_abort_cmd.

Lemma log_length_nonneg cmd : 0 <= log_length cmd < 2 ^ 32.
Proof. apply Z.mod_pos_bound. lia. Qed.

Lemma nr_queues_word_bound d : 0 <= nr_queues_word d < 2 ^ 32.
Proof. apply Z.mod_pos_bound. lia. Qed.

Lemma length_effects_log zns : length (effects_log zns) = 4096%nat.
Proof. by destruct zns; vm_compute. Qed.

Section handlers.
Context c (q : admin_queue) (sp cp : queue_pages) (eid : Z) (zns : bool).
Context (Hok : admin_ok c q sp cp) (Heid : 0 <= eid < aq_sq_depth q).
Abbreviation cmd := (command_at c sp eid).
Abbreviation D := (data_range cmd).
Context (HDs : apart D (region sp)) (HDc : apart D (region cp)).

Abbreviation done_with status result d :=
  (fun (_ : unit) c2 => answered D c q sp cp eid status result d c2).

Lemma wp_read_command d c1 (Q : bytes -> controller F -> Prop) :
  worked D c d c1 -> Q cmd c1 -> wp never (admin_command eid) Q c1.
Proof. by apply (wp_admin_command D c q sp cp eid Hok HDs Heid). Qed.

Lemma wp_finish d c1 status :
  worked D c d c1 -> (status = 0 \/ status = 1) ->
  wp never (make_cq_entry eid status) (done_with status 0 d) c1.
Proof. intros Hw Hs. by apply (wp_answer D c q sp cp eid Hok HDs HDc Heid d c1). Qed.

Lemma wp_queue_index qid (Q : unit -> controller F -> Prop) c1 :
  qid <= NR_MAX_IO_QUEUE -> Q tt c1 -> wp never (queue_index qid) Q c1.
Proof. intros Hq HQ. unfold queue_index. replace (NR_MAX_IO_QUEUE <? qid) with false by bool_lia. by apply wp_ret. Qed.

(** One step of a handler at a time: reading the command, changing the device, writing
    into the range [HD] of host memory, answering. *)
Ltac in_range_of HD :=
  unfold inside; rewrite ?HD, ?length_replicate, ?Z2Nat.id by (unfold PAGE_SIZE; lia);
  simpl; unfold PAGE_SIZE; lia.
Ltac step HD :=
  match goal with
  | |- wp _ (admin_command _ ≫= _) _ _ => apply wp_bind; eapply wp_read_command; [eassumption|]
  | |- wp _ (get ≫= _) _ _ => apply wp_bind, wp_get
  | |- wp _ (queue_index _ ≫= _) _ _ => apply wp_bind, wp_queue_index; [assumption|]
  | |- wp _ (on_dev (modify _) ≫= _) _ _ => apply wp_bind; eapply wp_on_dev; [eassumption|]; intros
  | |- wp _ (write_host _ _ ≫= _) _ _ =>
    apply wp_bind; eapply wp_write_host; [eassumption|in_range_of HD|]; intros
  | |- wp _ (write_fields _ _ ≫= _) _ _ =>
    apply wp_bind; eapply wp_write_fields; [eassumption|repeat constructor; in_range_of HD|]; intros
  | |- wp _ (make_cq_entry _ _) _ _ => apply wp_finish; [eassumption|by (left + right)]
  end.
Ltac run HD := pose proof (worked_refl (data_range (command_at c sp eid)) c); repeat step HD.

Lemma wp_queues (m : prog (controller F) unit) :
  field 40 2 cmd <= NR_MAX_IO_QUEUE ->
  (opcode_of cmd = 0 /\ m = admin_delete_sq eid) \/ (opcode_of cmd = 1 /\ m = admin_create_sq eid) \/
  (opcode_of cmd = 4 /\ m = admin_delete_cq eid) \/ (opcode_of cmd = 5 /\ m = admin_create_cq eid) ->
  wp never m (done_with 0 0 (device_after (ct_host c) cmd (ct_dev c))) c.
Proof.
  intros Hq Hm. unfold device_after.
  destruct Hm as [[-> ->]|[[-> ->]|[[-> ->]|[-> ->]]]];
    unfold admin_delete_sq, admin_create_sq, admin_delete_cq, admin_create_cq; run I.
Qed.

Lemma wp_get_log_page : opcode_of cmd = 2 -> command_ok c cmd ->
  wp never (admin_get_log_page zns eid) (done_with 0 0 (ct_dev c)) c.
Proof.
  intros Hop Hc. assert (HD : D = (field 24 8 cmd, log_length cmd)) by (unfold data_range; by rewrite Hop).
  unfold command_ok in Hc. rewrite Hop in Hc. simpl in Hc.
  pose proof (log_length_nonneg cmd) as Hlen. unfold admin_get_log_page. run HD.
  assert (Hcopy : forall object, log_length cmd <= Z.of_nat (length object) ->
    wp never (copy_object (field 24 8 cmd) object (log_length cmd)) (fun _ c1 => worked D c (ct_dev c) c1) c).
  { intros object Ho. unfold copy_object. replace (_ <? _) with false by bool_lia.
    eapply wp_write_host; [eassumption| |done]. unfold inside. rewrite HD, length_take. simpl. lia. }
  apply wp_bind. eapply wp_mono with (Q := fun _ c1 => worked D c (ct_dev c) c1); [|intros; run HD].
  destruct (field 40 1 cmd =? NVME_LOG_SMART); [by apply Hcopy|].
  destruct (field 40 1 cmd =? NVME_LOG_CMD_EFFECTS).
  - apply Hcopy. by rewrite length_effects_log.
  - eapply wp_write_host; [eassumption| |done]. unfold inside. rewrite HD, length_replicate. simpl. lia.
Qed.

Lemma wp_features (m : prog (controller F) unit) :
  (opcode_of cmd = 9 /\ m = admin_set_features eid) \/ (opcode_of cmd = 10 /\ m = admin_get_features eid) ->
  let d := device_after (ct_host c) cmd (ct_dev c) in
  wp never m (done_with 0 (result_of cmd d) d) c.
Proof.
  intros Hm d. unfold result_of.
  destruct Hm as [[Hop ->]|[Hop ->]]; unfold d, device_after; rewrite Hop; simpl;
    [unfold admin_set_features|unfold admin_get_features]; run I.
  - destruct (field 40 4 cmd =? NVME_FEAT_NUM_QUEUES).
    + change 65535 with (Z.ones 16). rewrite !Z.land_ones, Z.shiftr_div_pow2 by lia. repeat step I.
      match goal with W : worked _ _ _ ?c1 |- context [ct_dev ?c1] => rewrite (wk_dev _ _ _ _ W) end.
      eapply (wp_answer D c q sp cp eid Hok HDs HDc Heid); [eassumption|by left|apply nr_queues_word_bound|done].
    + eapply (wp_answer D c q sp cp eid Hok HDs HDc Heid); [eassumption|by left|lia|done].
  - destruct (field 40 4 cmd =? NVME_FEAT_NUM_QUEUES);
      (eapply (wp_answer D c q sp cp eid Hok HDs HDc Heid);
        [eassumption|by left|first [apply nr_queues_word_bound|lia]|done]).
Qed.

Lemma wp_identified d c1 ns (Q : ns_info -> controller F -> Prop) :
  worked D c d c1 -> slot (ct_ns c) (field 4 4 cmd - 1) = Some ns -> Q ns c1 -> wp never (identified cmd) Q c1.
Proof.
  intros Hw Hs HQ. unfold identified. apply wp_bind, wp_get. destruct (wk_rest _ _ _ _ Hw) as (_ & _ & _ & -> & _).
  rewrite Hs. by apply wp_ret.
Qed.

Lemma length_words (l : list Z) : length (l ≫= le_bytes 4) = (4 * length l)%nat.
Proof. induction l as [|x l IH]; [done|]. rewrite bind_cons, length_app, length_le_bytes, IH. simpl. lia. Qed.

Lemma wp_identify : opcode_of cmd = 6 -> command_ok c cmd ->
  wp never (admin_identify eid) (done_with (status_of cmd) 0 (ct_dev c)) c.
Proof.
  intros Hop Hc. unfold command_ok in Hc. unfold status_of. rewrite Hop in *. simpl in Hc |- *.
  unfold admin_identify. run I. fold (cns_of cmd).
  destruct (Z.eqb_spec (cns_of cmd) 0) as [E|N0].
  { assert (HD : D = (field 24 8 cmd, PAGE_SIZE)) by (unfold data_range; by rewrite Hop, E).
    rewrite E in *. destruct Hc as (ns & Hns & _). unfold admin_identify_namespace. run HD.
    apply wp_bind. eapply wp_identified; [eassumption|exact Hns|]. run HD. }
  destruct (Z.eqb_spec (cns_of cmd) 1) as [E|N1].
  { assert (HD : D = (field 24 8 cmd, PAGE_SIZE)) by (unfold data_range; by rewrite Hop, E).
    rewrite E in *. unfold admin_identify_ctrl. run HD. }
  destruct (Z.eqb_spec (cns_of cmd) 2) as [E|N2].
  { assert (HD : D = (field 24 8 cmd, 2 * PAGE_SIZE)) by (unfold data_range; by rewrite Hop, E).
    rewrite E in *. simpl in Hc. unfold admin_identify_namespaces. run HD.
    apply wp_bind. eapply wp_write_host; [eassumption| |intros; run HD].
    unfold inside. rewrite HD, length_words. simpl.
    match goal with W : worked _ _ _ ?c1 |- context [ct_ns ?c1] => destruct (wk_rest _ _ _ _ W) as (_ & _ & _ & -> & _) end.
    pose proof (length_filter (fun i => field 4 4 cmd < i) (seqZ 1 (Z.of_nat (length (ct_ns c))))) as Hf.
    rewrite length_seqZ in Hf. unfold PAGE_SIZE. lia. }
  destruct (Z.eqb_spec (cns_of cmd) 3) as [E|N3].
  { assert (HD : D = (field 24 8 cmd, PAGE_SIZE)) by (unfold data_range; by rewrite Hop, E).
    rewrite E in *. destruct Hc as (ns & Hns & _). unfold admin_identify_namespace_desc. run HD.
    apply wp_bind. eapply wp_identified; [eassumption|exact Hns|]. run HD. }
  destruct (Z.eqb_spec (cns_of cmd) 5) as [E|N5].
  { assert (HD : D = (field 24 8 cmd, PAGE_SIZE)) by (unfold data_range; by rewrite Hop, E).
    rewrite E in *. destruct Hc as (ns & Hns & Hz). unfold admin_identify_zns_namespace. run HD.
    apply wp_bind. eapply wp_identified; [eassumption|exact Hns|]. destruct (ni_zns ns) as [zpp|]; [|run HD].
    destruct Hz as [[=]| ->]. simpl. run HD. apply wp_bind.
    eapply wp_mono with (Q := fun _ c1 => worked D c (ct_dev c) c1); [|intros; run HD].
    destruct (_ <? _); [|by apply wp_ret].
    eapply wp_write_fields; [eassumption|repeat constructor; in_range_of HD|done]. }
  destruct (Z.eqb_spec (cns_of cmd) 6) as [E|N6].
  { assert (HD : D = (field 24 8 cmd, 1)) by (unfold data_range; by rewrite Hop, E).
    rewrite E in *. unfold admin_identify_zns_ctrl. run HD. }
  rewrite bool_decide_eq_false_2 by set_solver. run I.
Qed.

(** Every command but an abort is answered, and does what it says. *)
Lemma wp_proc_admin_req : command_ok c cmd ->
  let d := device_after (ct_host c) cmd (ct_dev c) in
  wp never (proc_admin_req zns eid) (done_with (status_of cmd) (result_of cmd d) d) c.
Proof.
  intros Hc d. unfold proc_admin_req. run I. fold (opcode_of cmd).
  assert (Hq : opcode_of cmd ∈ [0; 1; 4; 5] -> field 40 2 cmd <= NR_MAX_IO_QUEUE).
  { intros Hin. unfold command_ok in Hc. by rewrite bool_decide_eq_true_2 in Hc. }
  destruct (Z.eqb_spec (opcode_of cmd) 0) as [E|N0];
    [by unfold status_of, result_of; rewrite E in *; apply wp_queues; [apply Hq; set_solver|auto]|].
  destruct (Z.eqb_spec (opcode_of cmd) 1) as [E|N1];
    [by unfold status_of, result_of; rewrite E in *; apply wp_queues; [apply Hq; set_solver|auto]|].
  destruct (Z.eqb_spec (opcode_of cmd) 2) as [E|N2].
  { unfold status_of, result_of, d, device_after. rewrite E. by apply wp_get_log_page. }
  destruct (Z.eqb_spec (opcode_of cmd) 4) as [E|N4];
    [by unfold status_of, result_of; rewrite E in *; apply wp_queues; [apply Hq; set_solver|auto 10]|].
  destruct (Z.eqb_spec (opcode_of cmd) 5) as [E|N5];
    [by unfold status_of, result_of; rewrite E in *; apply wp_queues; [apply Hq; set_solver|auto 10]|].
  destruct (Z.eqb_spec (opcode_of cmd) 6) as [E|N6].
  { unfold result_of, d, device_after. rewrite E. by apply wp_identify. }
  destruct (Z.eqb_spec (opcode_of cmd) nvme_admin_abort_cmd) as [E|N8].
  { unfold command_ok in Hc. rewrite E in Hc. by destruct Hc. }
  destruct (Z.eqb_spec (opcode_of cmd) 9) as [E|N9].
  { unfold status_of. rewrite E. apply wp_features. auto. }
  destruct (Z.eqb_spec (opcode_of cmd) 10) as [E|N10].
  { unfold status_of. rewrite E. apply wp_features. auto. }
  unfold result_of, d, device_after.
  replace (opcode_of cmd =? 0) with false by bool_lia. replace (opcode_of cmd =? 1) with false by bool_lia.
  replace (opcode_of cmd =? 4) with false by bool_lia. replace (opcode_of cmd =? 5) with false by bool_lia.
  replace (opcode_of cmd =? 9) with false by bool_lia. replace (opcode_of cmd =? 10) with false by bool_lia. simpl.
  destruct (Z.eqb_spec (opcode_of cmd) 12) as [E|N12].
  { unfold status_of. rewrite E. unfold admin_async_event. run I. }
  unfold status_of. rewrite bool_decide_eq_false_2 by set_solver.
  replace (opcode_of cmd =? 6) with false by bool_lia. run I.
Qed.
End handlers.
End admin.
