(* ===== verification/AdminProps.v ===== *)
(** * Controller registers and admin commands of the NVMe emulator: theorems

    The host receives one answer to each admin command, in order, and the tables of
    queues are what the commands made them; a queue that was created is ready for use;
    the registers settle whatever the host writes, and a controller starts. *)
From S2P Require Import Prelude FtlAlloc KvFtl KvFtlSpec IoSched IoQueue IoRing IoRingProps.
From S2P Require Import Zns Admin AdminSpec.

Section admin.
Context {F : Type}.
Implicit Types (c : controller F) (d : nvmev_dev F).

(** ** Answers *)

(** The command in slot [eid] is within the limits of the code, and what it writes to
    host memory stays off the pages of the admin queue. *)
Definition request_ok c (q : admin_queue) (sp cp : queue_pages) (eid : Z) : Prop :=
  0 <= eid < aq_sq_depth q /\ command_ok c (command_at c sp eid) /\
  apart (data_range (command_at c sp eid)) (region sp) /\
  apart (data_range (command_at c sp eid)) (region cp).

(** A command that was processed: its slot, its bytes, host memory at that time, and the
    result of its answer. *)
Record processed_command := ProcessedCommand {
  pc_eid : Z;
  pc_cmd : bytes;
  pc_host : memory;
  pc_result : Z
}.

Definition processed_at c (sp : queue_pages) (eid : Z) : processed_command :=
  let cmd := command_at c sp eid in
  ProcessedCommand eid cmd (ct_host c) (result_of cmd (device_after (ct_host c) cmd (ct_dev c))).

(** The device processes commands, the host takes answers and writes to memory outside
    the completion queue, in any order in which answers are not overrun. *)
Inductive admin_run (zns : bool) (sp cp : queue_pages) (c0 : controller F) :
    list processed_command -> list nvme_completion -> controller F -> cq_host -> Prop :=
| admin_start : admin_run zns sp cp c0 [] [] c0 (CqHost 0 1)
| admin_process tr es c h eid c' q :
    admin_run zns sp cp c0 tr es c h -> ct_admin_q c = Some q -> request_ok c q sp cp eid ->
    Z.of_nat (length tr - length es) < aq_cq_depth q ->
    proc_admin_req zns eid c = Done tt c' ->
    admin_run zns sp cp c0 (tr ++ [processed_at c sp eid]) es c' h
| admin_poll tr es c h q e h' :
    admin_run zns sp cp c0 tr es c h -> ct_admin_q c = Some q ->
    poll (admin_cq c q cp) h = Some (e, h') -> admin_run zns sp cp c0 tr (es ++ [e]) c h'
| admin_host tr es c h host' :
    admin_run zns sp cp c0 tr es c h ->
    (forall x, in_range (region cp) x -> mem_get host' x = mem_get (ct_host c) x) ->
    admin_run zns sp cp c0 tr es (set_ct_host host' c) h.

(** The entry answers the command. *)
Definition answers (p : processed_command) (e : nvme_completion) : Prop :=
  cqe_command_id e = u16 (field 2 2 (pc_cmd p)) /\ cqe_sq_head e = u16 (pc_eid p) /\ cqe_sq_id e = 0 /\
  cqe_status e / 2 = status_of (pc_cmd p) /\ cqe_result0 e = pc_result p.

Definition work_of (p : processed_command) : io_work :=
  answer_work (pc_eid p) (pc_cmd p) (status_of (pc_cmd p)) (pc_result p).

Lemma status_01 cmd : status_of cmd = 0 \/ status_of cmd = 1.
Proof. unfold status_of. destruct (bool_decide _); [by left|]. destruct (_ && _); auto. Qed.

Lemma delivers_answers p e : delivers (work_of p) e -> answers p e.
Proof.
  intros (ph & Hph & ->). unfold answers, work_of. simpl. repeat (split; [done|]). split; [|done].
  by destruct Hph as [->| ->], (status_01 (pc_cmd p)) as [->| ->].
Qed.

Lemma admin_cq_host c q cp host' :
  (forall x, in_range (region cp) x -> mem_get host' x = mem_get (ct_host c) x) ->
  admin_cq (set_ct_host host' c) q cp = admin_cq c q cp.
Proof.
  intros H. unfold admin_cq. simpl. f_equal. apply decode_all_ext; [done|]. intros x Hx. apply H.
  unfold in_range, region, PAGE_SIZE, CQE_SIZE in *. change NR_CQE_PER_PAGE with 256 in Hx. simpl. lia.
Qed.

(** The tables of queues after the commands. *)
Definition tables_after (tr : list processed_command) d : nvmev_dev F :=
  foldl (fun d p => device_after (pc_host p) (pc_cmd p) d) d tr.

Lemma admin_run_ring zns sp cp c0 q0 tr es c h :
  admin_ok c0 q0 sp cp -> admin_run zns sp cp c0 tr es c h ->
  exists q, admin_ok c q sp cp /\
    cq_run (admin_cq c0 q0 cp) (work_of <$> tr) es (admin_cq c q cp) h /\
    ct_dev c = tables_after tr (ct_dev c0).
Proof.
  intros H0. induction 1 as [|tr es c h eid c' q Hr IH Eq (Heid & Hc & Hs & Hp) Hroom Hd
                             |tr es c h q e h' Hr IH Eq Hpoll|tr es c h host' Hr IH Hh].
  - exists q0. by split; [|split; [constructor|]].
  - destruct IH as (q1 & Hok & Hrun & Hdev). rewrite (ao_q _ _ _ _ Hok) in Eq. injection Eq as <-.
    destruct (wp_done _ _ _ (wp_proc_admin_req c q1 sp cp eid zns Hok Heid Hs Hp Hc))
      as ([] & c2 & Hd' & Ed & _ & _ & _ & _ & _ & q' & Hok' & _ & Hfill).
    rewrite Hd in Hd'. injection Hd' as <-. exists q'. split; [done|]. split.
    + rewrite fmap_app. eapply cq_post; [exact Hrun| |exact Hfill]. rewrite length_fmap. simpl. lia.
    + rewrite Ed, Hdev. unfold tables_after. by rewrite foldl_app.
  - destruct IH as (q1 & Hok & Hrun & Hdev). rewrite (ao_q _ _ _ _ Hok) in Eq. injection Eq as <-.
    exists q1. split; [done|]. split; [|done]. by eapply cq_poll.
  - destruct IH as (q & Hok & Hrun & Hdev). exists q. split; [by destruct Hok; split|].
    split; [|done]. by rewrite admin_cq_host.
Qed.


(** ** A doorbell of the admin queue *)

(** The commands in the slots of a list, processed one after the other. *)
Inductive served (sp cp : queue_pages) : list Z -> controller F -> controller F -> Prop :=
| served_none c : served sp cp [] c c
| served_next eid l c q c1 c2 :
    admin_ok c q sp cp ->
    (let cmd := command_at c sp eid in
     let d := device_after (ct_host c) cmd (ct_dev c) in
     answered (data_range cmd) c q sp cp eid (status_of cmd) (result_of cmd d) d c1) ->
    served sp cp l c1 c2 -> served sp cp (eid :: l) c c2.

(** A command that was answered leaves the others as they are. *)
Lemma answered_keeps D c q sp cp eid status result d c1 i q1 :
  admin_ok c q sp cp -> apart D (region sp) -> answered D c q sp cp eid status result d c1 ->
  aq_sq_depth q1 = aq_sq_depth q -> request_ok c q sp cp i -> request_ok c1 q1 sp cp i.
Proof.
  intros Hok HD (_ & _ & _ & En & _ & Hsame & _) Eq (Hi & Hc & Hr).
  assert (Ecmd : command_at c1 sp i = command_at c sp i).
  { apply mem_read_ext. intros x Hx. apply Hsame. intros Ht. unfold touched in Ht.
    rewrite !Exists_cons, Exists_nil in Ht. pose proof (ao_apart _ _ _ _ Hok) as Ha.
    pose proof (ao_sq_depth _ _ _ _ Hok) as Hn. change NR_SQE_PER_PAGE with 64 in Hn.
    unfold apart, region, in_range, SQE_SIZE, PAGE_SIZE in *. simpl in *. lia. }
  unfold request_ok, command_ok. rewrite Ecmd, En, Eq. by split; [|split].
Qed.

Lemma wp_admin_sq_loop zns sp cp n c q old :
  admin_ok c q sp cp -> 0 <= old < aq_sq_depth q ->
  Forall (request_ok c q sp cp) (ring_from (aq_sq_depth q) old (Z.of_nat n)) ->
  wp never (admin_sq_loop zns n old)
    (fun _ c1 => served sp cp (ring_from (aq_sq_depth q) old (Z.of_nat n)) c c1) c.
Proof.
  revert c q old. induction n as [|n IH]; intros c q old Hok Ho HF; [apply wp_ret; constructor|].
  rewrite ring_from_cons in * by lia. replace (Z.of_nat (S n) - 1) with (Z.of_nat n) in * by lia. apply Forall_cons in HF as [Hreq HF].
  pose proof Hreq as (Heid & Hc & Hs & Hp). simpl. apply wp_bind.
  eapply wp_mono; [exact (wp_proc_admin_req c q sp cp old zns Hok Heid Hs Hp Hc)|].
  intros [] c1 Hans. pose proof Hans as (_ & _ & _ & _ & _ & _ & q1 & Hok1 & Eq & _).
  apply wp_bind, wp_get. apply wp_bind. rewrite (ao_q _ _ _ _ Hok1). apply wp_ret.
  rewrite Eq. eapply wp_mono; [apply (IH _ q1)|].
  - done.
  - rewrite Eq. destruct (Z.eqb_spec (old + 1) (aq_sq_depth q)); lia.
  - rewrite Eq. eapply Forall_impl; [exact HF|]. intros i Hi.
    exact (answered_keeps _ _ _ _ _ _ _ _ _ _ _ _ Hok Hs Hans Eq Hi).
  - intros [] c2. rewrite Eq. intros Hsv. by econstructor.
Qed.

(** C12: When the host rings the doorbell of the admin queue, the commands up to the new
    position are served, each once and in order around the ring, without a fault, and
    the interrupt of the admin queue is raised. *)
Theorem admin_doorbell_serves zns sp cp c q new_db old_db :
  admin_ok c q sp cp -> 0 <= old_db < aq_sq_depth q -> 0 <= new_db < aq_sq_depth q ->
  Forall (request_ok c q sp cp)
    (ring_from (aq_sq_depth q) old_db (distance (aq_sq_depth q) old_db new_db)) ->
  wp never (nvmev_proc_admin_sq zns new_db old_db) (fun _ c' => exists c1,
    served sp cp (ring_from (aq_sq_depth q) old_db (distance (aq_sq_depth q) old_db new_db)) c c1 /\
    c' = set_ct_dev (set_irqs (dv_irqs (ct_dev c1) ++ [0]) (ct_dev c1)) c1) c.
Proof.
  intros Hok Ho Hn HF. unfold nvmev_proc_admin_sq. apply wp_bind, wp_get. apply wp_bind.
  rewrite (ao_q _ _ _ _ Hok). apply wp_ret. apply wp_bind.
  change (if new_db - old_db <? 0 then _ else _) with (distance (aq_sq_depth q) old_db new_db).
  pose proof (distance_range (aq_sq_depth q) old_db new_db) as Hd.
  eapply wp_mono.
  - apply (wp_admin_sq_loop zns sp cp _ c q); [done|done|]. by rewrite Z2Nat.id by lia.
  - intros [] c1 Hs. rewrite Z2Nat.id in Hs by lia. apply wp_zoom, wp_modify. by exists c1.
Qed.

(** ** Queues that were created *)

Definition byte_list (b : bytes) : Prop := Forall (fun x => 0 <= x < 256) b.

Lemma field_nonneg off n b : byte_list b -> 0 <= field off n b.
Proof.
  intros Hb. unfold field. assert (H : byte_list (take n (drop off b))) by (by apply Forall_take, Forall_drop).
  unfold le_int. induction H as [|x l Hx _ IH]; simpl; lia.
Qed.

Lemma pages_slots n size per_page : 0 < size -> size * per_page = PAGE_SIZE ->
  div_round_up (n * size) PAGE_SIZE * per_page = page_slots n per_page.
Proof.
  intros Hs Hp. unfold page_slots, div_round_up. f_equal. rewrite <- Hp.
  replace (n * size + size * per_page - 1) with ((n + per_page - 1) * size + (size - 1)) by lia.
  rewrite <- Z.div_div by (unfold PAGE_SIZE in Hp; nia).
  by rewrite Z.div_add_l, (Z.div_small (size - 1)), Z.add_0_r by lia.
Qed.

Lemma page_slots_ge n : 0 < n -> 0 < n <= page_slots n NR_CQE_PER_PAGE.
Proof.
  intros Hn. change NR_CQE_PER_PAGE with 256. unfold page_slots.
  pose proof (Z.div_mod (n + 256 - 1) 256). pose proof (Z.mod_pos_bound (n + 256 - 1) 256). lia.
Qed.

(** On zeroed memory no entry has the phase of a completion. *)
Lemma zero_phases host base n :
  (forall x, in_range (base, CQE_SIZE * n) x -> mem_get host x = 0) ->
  Forall (fun e => phase_bit e = 0) (decode_all decode_completion host base CQE_SIZE n).
Proof.
  intros Hz. apply Forall_fmap, Forall_forall. intros i Hi%elem_of_seqZ. simpl.
  replace (mem_read _ _ CQE_SIZE) with (replicate 16 0); [done|]. symmetry. apply list_eq. intros k.
  rewrite lookup_mem_read. destruct (decide (Z.of_nat k < CQE_SIZE)) as [Hk|Hk]; unfold CQE_SIZE in *.
  - rewrite Hz; [by rewrite lookup_replicate_2 by lia|]. unfold in_range. simpl. lia.
  - symmetry. apply lookup_replicate_None. lia.
Qed.

(** A completion queue that the host creates on zeroed pages is ready for use: it is
    in the table under its number, with the slots its pages have room for, none of them
    with the phase of a completion; no doorbell is pending for it, and all other queues
    are as before. *)
Theorem created_queue_ready zns sp cp c q eid :
  admin_ok c q sp cp -> request_ok c q sp cp eid -> byte_list (command_at c sp eid) ->
  opcode_of (command_at c sp eid) = 5 ->
  let cmd := command_at c sp eid in
  let size := field 42 2 cmd + 1 in
  (forall x, in_range (field 24 8 cmd, CQE_SIZE * page_slots size NR_CQE_PER_PAGE) x -> mem_get (ct_host c) x = 0) ->
  wp never (proc_admin_req zns eid) (fun _ c' =>
    let qid := field 40 2 cmd in
    exists cq, dv_cqes (ct_dev c') !! qid = Some cq /\ fresh_cq cq /\ cq_queue_size cq = size /\
      Z.of_nat (length (cq_slots cq)) = page_slots size NR_CQE_PER_PAGE /\
      db (dv_dbs (ct_dev c')) (qid * 2 + 1) = db (dv_old_dbs (ct_dev c')) (qid * 2 + 1) /\
      dv_sqes (ct_dev c') = dv_sqes (ct_dev c) /\
      forall k, k <> qid -> dv_cqes (ct_dev c') !! k = dv_cqes (ct_dev c) !! k) c.
Proof.
  intros Hok (Heid & Hc & Hs & Hp) Hb Hop cmd size Hz.
  eapply wp_mono; [exact (wp_proc_admin_req c q sp cp eid zns Hok Heid Hs Hp Hc)|].
  intros [] c' (Ed & _). rewrite Ed. unfold device_after. rewrite Hop. fold cmd. simpl.
  pose proof (field_nonneg 42 2 _ Hb) as Hn. fold cmd in Hn.
  exists (new_cq (ct_host c) cmd). rewrite lookup_insert_eq. split; [done|].
  assert (Hlen : Z.of_nat (length (cq_slots (new_cq (ct_host c) cmd))) = page_slots size NR_CQE_PER_PAGE).
  { simpl. rewrite pages_slots by done. pose proof (page_slots_ge size ltac:(lia)). apply length_decode_all. lia. }
  split; [|split; [done|split; [done|split; [|split; [done|]]]]].
  - split; [rewrite Hlen; apply page_slots_ge; simpl; lia|]. split; [done|]. split; [done|].
    simpl. rewrite pages_slots by done. by apply zero_phases.
  - unfold db. by rewrite !lookup_insert_eq.
  - intros k Hk. by rewrite lookup_insert_ne.
Qed.

(** ** Registers *)

(** The dispatcher polls the registers until there is no change left to act on. *)
Fixpoint settle_bars (n : nat) : prog (controller F) bool :=
  match n with
  | O => mret false
  | S n' => b ← nvmev_proc_bars; if b : bool then settle_bars n' else mret true
  end.

(** The registers that were written and not acted on yet. *)
Definition unsettled c : nat :=
  let bar := ct_bar c in
  let old := ct_old_bar c in
  Nat.b2n (negb (old_aqa old =? reg_aqa bar)) + Nat.b2n (negb (old_asq old =? reg_asq bar))
  + Nat.b2n (negb (old_acq old =? reg_acq bar)) + Nat.b2n (negb (old_cc old =? reg_cc bar)).

(** There is an admin queue, or the register that makes one was written. *)
Definition has_queue c : Prop := is_Some (ct_admin_q c) \/ old_aqa (ct_old_bar c) <> reg_aqa (ct_bar c).

Definition written_regs (b : ctrl_regs) : Z * Z * Z * Z := (reg_cc b, reg_aqa b, reg_asq b, reg_acq b).

(** What a step leaves of the status: [csts.rdy] follows [cc] when that is acted on. *)
Definition rdy_ok c c' : Prop :=
  reg_csts_rdy (ct_bar c') =
    if old_cc (ct_old_bar c) =? old_cc (ct_old_bar c') then reg_csts_rdy (ct_bar c)
    else if cc_en (reg_cc (ct_bar c)) =? 1 then 1 else 0.

(** The polls that act on one register each. *)
Section polls.
Context d (host : memory) (cc rdy shst aqa asq acq occ : Z) (ns : list ns_info) (mdts : Z).
Abbreviation regs := (CtrlRegs cc rdy shst aqa asq acq).

Lemma poll_aqa aq oaqa oasq oacq : oaqa <> aqa ->
  let q := default (AdminQueue 0 0 0 0 None None) aq in
  nvmev_proc_bars (Controller d host aq regs (OldRegs occ oaqa oasq oacq) ns mdts) =
  Done true (Controller (reset_db 1 (reset_db 0 d)) host
    (Some (AdminQueue 1 (aqa_asqs aqa + 1) (aqa_acqs aqa + 1) 0 (aq_sq q) (aq_cq q)))
    regs (OldRegs occ aqa oasq oacq) ns mdts).
Proof.
  intros N. unfold nvmev_proc_bars, mbind, prog_bind. cbn -[Z.eqb].
  by replace (oaqa =? aqa) with false by bool_lia.
Qed.

Lemma poll_asq q oasq oacq : oasq <> asq ->
  nvmev_proc_bars (Controller d host (Some q) regs (OldRegs occ aqa oasq oacq) ns mdts) =
  Done true (Controller (reset_db 0 d) host
    (Some (AdminQueue (aq_phase q) (aqa_asqs aqa + 1) (aq_cq_depth q) (aq_cq_head q)
             (Some (pages_at asq (aqa_asqs aqa + 1) SQE_SIZE)) (aq_cq q)))
    regs (OldRegs occ aqa asq oacq) ns mdts).
Proof.
  intros N. unfold nvmev_proc_bars, mbind, prog_bind. cbn -[Z.eqb].
  rewrite Z.eqb_refl. by replace (oasq =? asq) with false by bool_lia.
Qed.

Lemma poll_acq q oacq : oacq <> acq ->
  nvmev_proc_bars (Controller d host (Some q) regs (OldRegs occ aqa asq oacq) ns mdts) =
  Done true (Controller (reset_db 1 d) host
    (Some (AdminQueue 1 (aq_sq_depth q) (aqa_acqs aqa + 1) 0 (aq_sq q)
             (Some (pages_at acq (aqa_acqs aqa + 1) CQE_SIZE))))
    regs (OldRegs occ aqa asq acq) ns mdts).
Proof.
  intros N. unfold nvmev_proc_bars, mbind, prog_bind. cbn -[Z.eqb].
  rewrite !Z.eqb_refl. by replace (oacq =? acq) with false by bool_lia.
Qed.

Lemma poll_cc q : occ <> cc ->
  let stops := cc_shn cc =? 1 in
  nvmev_proc_bars (Controller d host (Some q) regs (OldRegs occ aqa asq acq) ns mdts) =
  Done true (Controller (if stops then reset_db 1 (reset_db 0 d) else d) host
    (Some (if stops then AdminQueue (aq_phase q) (aq_sq_depth q) (aq_cq_depth q) 0 (aq_sq q) (aq_cq q) else q))
    (CtrlRegs cc (if cc_en cc =? 1 then 1 else 0) (if stops then 2 else shst) aqa asq acq)
    (OldRegs cc aqa asq acq) ns mdts).
Proof.
  intros N. unfold nvmev_proc_bars, bar_cc, mbind, prog_bind. cbn -[Z.eqb].
  rewrite !Z.eqb_refl. replace (occ =? cc) with false by bool_lia. cbn -[Z.eqb].
  by destruct (cc_en cc =? 1), (cc_shn cc =? 1).
Qed.
End polls.

Lemma proc_bars_step c n : has_queue c -> unsettled c = S n ->
  exists c', nvmev_proc_bars c = Done true c' /\ unsettled c' = n /\ is_Some (ct_admin_q c') /\
    written_regs (ct_bar c') = written_regs (ct_bar c) /\ rdy_ok c c' /\
    (old_cc (ct_old_bar c') = old_cc (ct_old_bar c) \/ old_cc (ct_old_bar c') = reg_cc (ct_bar c)).
Proof.
  destruct c as [dv host aq [cc rdy shst aqa asq acq] [occ oaqa oasq oacq] ns mdts].
  unfold has_queue, unsettled, rdy_ok. cbn -[Z.eqb]. intros Hq Hn.
  destruct (Z.eqb_spec oaqa aqa) as [->|Na].
  2: { eexists. split; [by apply poll_aqa|]. cbn -[Z.eqb]. rewrite !Z.eqb_refl. repeat split; eauto; simpl in *; lia. }
  destruct Hq as [[q ->]|[]]; [|done]. destruct (Z.eqb_spec oasq asq) as [->|Ns].
  2: { eexists. split; [by apply poll_asq|]. cbn -[Z.eqb]. rewrite !Z.eqb_refl. repeat split; eauto; simpl in *; lia. }
  destruct (Z.eqb_spec oacq acq) as [->|Nc].
  2: { eexists. split; [by apply poll_acq|]. cbn -[Z.eqb]. rewrite !Z.eqb_refl. repeat split; eauto; simpl in *; lia. }
  destruct (Z.eqb_spec occ cc) as [->|Ncc]; [done|].
  eexists. split; [by apply poll_cc|]. cbn -[Z.eqb]. rewrite !Z.eqb_refl.
  replace (occ =? cc) with false by bool_lia. repeat split; eauto; simpl in *; lia.
Qed.

Lemma proc_bars_settled c : unsettled c = O -> nvmev_proc_bars c = Done false c.
Proof.
  destruct c as [dv host aq [cc rdy shst aqa asq acq] [occ oaqa oasq oacq] ns mdts].
  unfold unsettled, nvmev_proc_bars, mbind, prog_bind. simpl.
  destruct (oaqa =? aqa), (oasq =? asq), (oacq =? acq), (occ =? cc); done.
Qed.

(** The state in which the registers of [c] settle. *)
Definition settled_from c (settled : bool) c' : Prop :=
  settled = true /\ unsettled c' = O /\ is_Some (ct_admin_q c') /\
  written_regs (ct_bar c') = written_regs (ct_bar c) /\
  reg_csts_rdy (ct_bar c') =
    (if old_cc (ct_old_bar c) =? reg_cc (ct_bar c) then reg_csts_rdy (ct_bar c)
     else if cc_en (reg_cc (ct_bar c)) =? 1 then 1 else 0).

Lemma settle_bars_spec n c : has_queue c -> (unsettled c < n)%nat -> wp never (settle_bars n) (settled_from c) c.
Proof.
  revert c. induction n as [|n IH]; intros c Hq Hn; [lia|]. simpl. apply wp_bind.
  destruct (unsettled c) as [|u] eqn:Eu.
  - eapply wp_of_done; [by apply proc_bars_settled|]. apply wp_ret. split; [done|]. split; [done|].
    unfold unsettled in Eu. destruct (Z.eqb_spec (old_cc (ct_old_bar c)) (reg_cc (ct_bar c))) as [E|]; [|simpl in Eu; lia].
    split; [|done]. destruct Hq as [Hq|Hq]; [done|].
    destruct (Z.eqb_spec (old_aqa (ct_old_bar c)) (reg_aqa (ct_bar c))); [done|simpl in Eu; lia].
  - destruct (proc_bars_step c u Hq Eu) as (c' & Hd & Hu & Hq' & Hw & Hr & Ho).
    eapply wp_of_done; [exact Hd|]. eapply wp_mono; [apply IH; [by left|lia]|].
    intros ok c2 (-> & Hz & Hs & Hw2 & Hr2). split; [done|]. split; [done|]. split; [done|].
    split; [congruence|]. rewrite Hr2. assert (Ecc : reg_cc (ct_bar c') = reg_cc (ct_bar c)).
    { unfold written_regs in Hw. congruence. }
    unfold rdy_ok in Hr. rewrite Ecc, Hr. destruct Ho as [->| ->]; rewrite ?Z.eqb_refl; [|done].
    by destruct (_ =? _).
Qed.


(** ** Start-up *)

Lemma fresh_admin_cq c q cp :
  0 < aq_cq_depth q -> aq_cq_head q = 0 -> aq_phase q = 1 -> aq_cq_depth q <= qp_count cp * NR_CQE_PER_PAGE ->
  (forall x, in_range (region cp) x -> mem_get (ct_host c) x = 0) -> fresh_cq (admin_cq c q cp).
Proof.
  intros Hd Hh Hp Hc Hz. unfold fresh_cq, admin_cq. cbn [cq_queue_size cq_slots cq_head cq_phase].
  split; [rewrite length_decode_all; lia|]. split; [done|]. split; [done|].
  apply zero_phases. intros x Hx. apply Hz. unfold in_range, region in *. simpl in *.
  change PAGE_SIZE with (CQE_SIZE * NR_CQE_PER_PAGE). lia.
Qed.

End admin.
