(* ===== verification/AdminSamples.v ===== *)
(** * Admin commands of the NVMe emulator: a small controller

    Inputs on which the theorems of [AdminProps] apply, and closed examples of what the
    code does that it does not mean to. *)
From S2P Require Import Prelude FtlAlloc KvFtl KvFtlSpec IoSched IoQueue IoRing IoRingProps.
From S2P Require Import Zns Admin AdminSpec AdminProps.

Module AdminSample.

(** The admin queue: 64 commands at 4096, 256 completions at 8192. *)
Definition sp : queue_pages := QueuePages 4096 1.
Definition cp : queue_pages := QueuePages 8192 1.
Definition q0 : admin_queue := AdminQueue 1 4 4 0 (Some sp) (Some cp).

Definition dev0 : nvmev_dev unit := NvmevDev (IoDevice [] 0) ∅ ∅ ∅ ∅ 0 0 [] tt.
Definition controller_with (host : memory) : controller unit :=
  Controller dev0 host (Some q0) (CtrlRegs 1 1 0 0 4096 8192) (OldRegs 1 0 4096 8192) [NsInfo 0 (2 ^ 30) None] 5.

(** A command in slot [eid], by its fields. *)
Definition put_command (eid : Z) (fields : list (Z * bytes)) (host : memory) : memory :=
  foldl (fun m f => mem_write m (4096 + 64 * eid + f.1) f.2) host fields.

(** Create completion queue 1 with 4 entries at 12288; set the number of queues to 3
    and 2; identify namespace 1 into the page at 16384. *)
Definition create : list (Z * bytes) :=
  [(0, [5]); (2, le_bytes 2 7); (24, le_bytes 8 12288); (40, le_bytes 2 1); (42, le_bytes 2 3); (44, le_bytes 2 3);
   (46, le_bytes 2 1)].
Definition set_queues : list (Z * bytes) :=
  [(0, [9]); (2, le_bytes 2 8); (40, le_bytes 4 7); (44, le_bytes 2 2); (46, le_bytes 2 1)].

Definition host0 : memory := put_command 1 set_queues (put_command 0 create ∅).
Definition c0 : controller unit := controller_with host0.

Lemma c0_ok : admin_ok c0 q0 sp cp.
Proof.
  split; [done|done|done|by vm_compute|by vm_compute|by vm_compute|by right|left; by vm_compute].
Qed.

Lemma create_request : request_ok c0 q0 sp cp 0.
Proof. split; [done|]. split; [by vm_compute|]. split; left; by vm_compute. Qed.
Lemma set_queues_request : request_ok c0 q0 sp cp 1.
Proof. split; [done|]. split; [by vm_compute|]. split; left; by vm_compute. Qed.

(** The ring of answers is fresh: its page was not written. *)
Lemma c0_fresh : fresh_cq (admin_cq c0 q0 cp).
Proof.
  apply fresh_admin_cq; [done|done|done|done|]. intros x Hx. change (default 0 (host0 !! x) = 0).
  assert (E : map_Forall (fun y _ => y < 8192) host0) by (apply (bool_decide_unpack _); by vm_compute).
  destruct (host0 !! x) eqn:Ex; [|done]. exfalso. specialize (E x _ Ex).
  unfold in_range, region in Hx. simpl in *. lia.
Qed.

(** Both commands are processed, then the host takes the first answer. *)
Definition after (o : outcome (controller unit) unit) : controller unit :=
  match o with Done _ c => c | _ => c0 end.
Definition c1 : controller unit := after (proc_admin_req false 0 c0).
Definition c2 : controller unit := after (proc_admin_req false 1 c1).
Definition q2 : admin_queue := AdminQueue 1 4 4 2 (Some sp) (Some cp).
Definition commands : list processed_command := [processed_at c0 sp 0; processed_at c1 sp 1].
Definition answer0 : nvme_completion := NvmeCompletion 0 0 0 0 7 1.

Lemma sample_admin_run : admin_run false sp cp c0 commands [answer0] c2 (CqHost 1 1).
Proof.
  apply (admin_poll false sp cp c0 commands [] c2 (CqHost 0 1) q2); [|by vm_compute|by vm_compute].
  apply (admin_process false sp cp c0 [processed_at c0 sp 0] [] c1 (CqHost 0 1) 1 c2 (AdminQueue 1 4 4 1 (Some sp) (Some cp)));
    [|by vm_compute| |by vm_compute|by vm_compute].
  - apply (admin_process false sp cp c0 [] [] c0 (CqHost 0 1) 0 c1 q0);
      [constructor|done|apply create_request|done|by vm_compute].
  - split; [done|]. split; [by vm_compute|]. split; left; by vm_compute.
Qed.


Lemma admin_doorbell_serves_witness :
  wp never (nvmev_proc_admin_sq false 2 0) (fun _ c' => exists c1,
    served sp cp [0; 1] c0 c1 /\
    c' = set_ct_dev (set_irqs (dv_irqs (ct_dev c1) ++ [0]) (ct_dev c1)) c1) c0.
Proof.
  apply (admin_doorbell_serves false sp cp c0 q0 2 0 c0_ok); [done|done|].
  constructor; [apply create_request|]. constructor; [apply set_queues_request|constructor].
Defined.

Lemma create_bytes : byte_list (command_at c0 sp 0).
Proof. apply (bool_decide_unpack _). by vm_compute. Qed.

Lemma created_queue_ready_witness :
  wp never (proc_admin_req false 0) (fun _ c' =>
    exists cq, dv_cqes (ct_dev c') !! 1 = Some cq /\ fresh_cq cq /\ cq_queue_size cq = 4 /\
      Z.of_nat (length (cq_slots cq)) = page_slots 4 NR_CQE_PER_PAGE /\
      db (dv_dbs (ct_dev c')) (1 * 2 + 1) = db (dv_old_dbs (ct_dev c')) (1 * 2 + 1) /\
      dv_sqes (ct_dev c') = dv_sqes (ct_dev c0) /\
      forall k, k <> 1 -> dv_cqes (ct_dev c') !! k = dv_cqes (ct_dev c0) !! k) c0.
Proof.
  apply (created_queue_ready false sp cp c0 q0 0 c0_ok create_request create_bytes); [by vm_compute|].
  intros x Hx. change (default 0 (host0 !! x) = 0).
  assert (E : map_Forall (fun y _ => y < 8192) host0) by (apply (bool_decide_unpack _); by vm_compute).
  destruct (host0 !! x) eqn:Ex; [|done]. exfalso. specialize (E x _ Ex).
  assert (12288 <= x) by apply Hx. simpl in *. lia.
Defined.

(** A controller whose registers were all written. *)
Definition written : controller unit :=
  set_bar (CtrlRegs 1 0 0 (3 * 2 ^ 16 + 3) 4096 8192) (controller_init dev0 ∅ [] 5).



(** ** What goes wrong *)

Definition run_command (fields : list (Z * bytes)) : outcome (controller unit) unit :=
  proc_admin_req false 0 (controller_with (put_command 0 fields (mem_write ∅ 20480 [1; 2; 3]))).

(** An abort is never answered. *)
Example abort_unanswered :
  match run_command [(0, [8]); (2, le_bytes 2 9)] with
  | Done _ c => ct_admin_q c = Some q0 /\ poll (admin_cq c q0 cp) (CqHost 0 1) = None
  | _ => False
  end.
Proof. by vm_compute. Qed.

(** The list of namespaces, of one page, clears the page behind it too. *)
Example namespace_list_clears_next_page :
  match run_command [(0, [6]); (24, le_bytes 8 16384); (40, le_bytes 4 2)] with
  | Done _ c => mem_read (ct_host c) 16384 4 = [1; 0; 0; 0] /\ mem_read (ct_host c) 20480 3 = [0; 0; 0]
  | _ => False
  end.
Proof. by vm_compute. Qed.

(** The length of a log page is up to the host: beyond 512 bytes of the health log, other
    kernel memory is copied. *)
Example long_log_page : run_command [(0, [2]); (24, le_bytes 8 16384); (40, [2]); (42, le_bytes 2 255)] = Undef.
Proof. by vm_compute. Qed.

(** The number of a queue is not checked against the tables. *)
Example queue_out_of_table : run_command [(0, [5]); (24, le_bytes 8 12288); (40, le_bytes 2 73)] = Undef.
Proof. by vm_compute. Qed.

(** A shutdown puts the admin queue back to its first slot and keeps the phase: a host
    that starts over, and expects phase 1 there, does not see the next answer. *)
Definition stopping : controller unit :=
  Controller dev0 (put_command 0 [(0, [12]); (2, le_bytes 2 9)] ∅)
    (Some (AdminQueue 0 4 4 2 (Some sp) (Some cp)))
    (CtrlRegs (2 ^ 14 + 1) 1 0 0 4096 8192) (OldRegs 1 0 4096 8192) [] 5.

Example shutdown_keeps_phase :
  match (_ ← nvmev_proc_bars; proc_admin_req false 0) stopping with
  | Done _ c => match ct_admin_q c with
                | Some q => aq_cq_head q = 1 /\ poll (admin_cq c q cp) (CqHost 0 1) = None
                | None => False
                end
  | _ => False
  end.
Proof. by vm_compute. Qed.

(** The flush granularity of random write areas, which is in blocks, is reported in
    bytes and cut to 16 bits. *)
Example zrwa_reported_in_bytes :
  let zpp := ZnsParams 4 4 4 1 (2 ^ 26) 0 2 (2 ^ 16) (2 ^ 17) 0 128 256 in
  let c := controller_with (put_command 0 [(0, [6]); (4, le_bytes 4 1); (24, le_bytes 8 16384); (40, le_bytes 4 5)] ∅) in
  match proc_admin_req true 0 (Controller (ct_dev c) (ct_host c) (ct_admin_q c) (ct_bar c) (ct_old_bar c)
                                 [NsInfo NVME_CSI_ZNS (2 ^ 28) (Some zpp)] 5) with
  | Done _ c' => le_int (mem_read (ct_host c') (16384 + 48) 2) = 0 /\ zp_lbas_per_zrwafg zpp = 128
  | _ => False
  end.
Proof. by vm_compute. Qed.
End AdminSample.
