(* ===== verification/Pci.v ===== *)
(** * PCI configuration space of the NVMe emulator (lib/nvmevirt: pci.c, pci.h)

    The page of configuration registers the host sees: what the emulator puts there, and
    how it answers the accesses of the host.  The page is bytes of a memory; bit fields
    of its structures are parts of the words they are declared in, from the low bits on.
    Accesses outside the page are undefined.  The numbers of registers and capabilities
    are those of the PCI standard, as in Linux's [pci_regs.h]. *)
From S2P Require Import Prelude KvFtl IoSched IoQueue.

(** ** Constants *)

Definition PCI_COMMAND : Z := 4.
Definition PCI_COMMAND_INTX_DISABLE : Z := 0x400.
Definition PCI_STATUS : Z := 6.
Definition PCI_BIST : Z := 15.
Definition PCI_BIST_START : Z := 0x40.
Definition PCI_BASE_ADDRESS_0 : Z := 16.
Definition PCI_INTERRUPT_LINE : Z := 60.
Definition PCI_MSIX_FLAGS : Z := 2.
Definition PCI_MSIX_FLAGS_MASKALL : Z := 0x4000.
Definition PCI_MSIX_FLAGS_ENABLE : Z := 0x8000.
Definition PCI_CFG_SPACE_SIZE : Z := 256.
Definition PCI_CAP_ID_PM : Z := 1.
Definition PCI_CAP_ID_MSIX : Z := 0x11.
Definition PCI_CAP_ID_EXP : Z := 0x10.

Definition OFFS_PCI_HDR : Z := 0.
Definition OFFS_PCI_PM_CAP : Z := 0x40.
Definition OFFS_PCI_MSIX_CAP : Z := 0x50.
Definition OFFS_PCIE_CAP : Z := 0x60.
Definition OFFS_PCI_EXT_CAP : Z := PCI_CFG_SPACE_SIZE.

Definition NVMEV_VERSION : Z := 0x0110.
Definition NVMEV_DEVICE_ID : Z := NVMEV_VERSION.
Definition NVMEV_VENDOR_ID : Z := 0x0c51.
Definition NVMEV_SUBSYSTEM_ID : Z := 0x370d.
Definition NVMEV_SUBSYSTEM_VENDOR_ID : Z := NVMEV_VENDOR_ID.
Definition NVMEV_INTX_IRQ : Z := 15.

(** ** State *)

(** [pv_msix_enabled] is the flag of [pdev], which is null until the bus was scanned. *)
Record pci_device := PciDevice {
  pv_virtDev : memory;
  pv_intx_disabled : bool;
  pv_msix_enabled : option bool
}.

Abbreviation pprog := (prog pci_device).

Definition set_virtDev (m : memory) (p : pci_device) : pci_device :=
  PciDevice m (pv_intx_disabled p) (pv_msix_enabled p).
Definition set_intx_disabled (b : bool) (p : pci_device) : pci_device :=
  PciDevice (pv_virtDev p) b (pv_msix_enabled p).
Definition set_msix_enabled (b : bool) (p : pci_device) : pci_device :=
  PciDevice (pv_virtDev p) (pv_intx_disabled p) (Some b).

(** ** Bit fields *)

(** The word of [unit_] bytes at [at_]. *)
Definition word_at (m : memory) (at_ unit_ : Z) : Z := le_int (mem_read m at_ unit_).

(** A field of [width] bits from bit [shift] on of the word of [unit_] bytes at [at_]. *)
Record bit_field := BitField { bf_at : Z; bf_unit : nat; bf_shift : Z; bf_width : Z }.

(** The assignment [f = v]. *)
Definition assign (m : memory) (fv : bit_field * Z) : memory :=
  let f := fv.1 in
  let old := word_at m (bf_at f) (Z.of_nat (bf_unit f)) in
  let bits := Z.shiftl (Z.ones (bf_width f)) (bf_shift f) in
  let new := Z.lor (Z.ldiff old bits) (Z.land (Z.shiftl fv.2 (bf_shift f)) bits) in
  mem_write m (bf_at f) (le_bytes (bf_unit f) new).

Definition assign_all (l : list (bit_field * Z)) (m : memory) : memory := foldl assign m l.

(** A member that is a word of its own. *)
Definition member (at_ : Z) (unit_ : nat) : bit_field := BitField at_ unit_ 0 (8 * Z.of_nat unit_).

(** The assignments of [PCI_HEADER_SETTINGS]. *)
Definition PCI_HEADER_SETTINGS (pcihdr base_pa : Z) : list (bit_field * Z) :=
  [(member (pcihdr + 2) 2, NVMEV_DEVICE_ID);
   (member pcihdr 2, NVMEV_VENDOR_ID);
   (BitField (pcihdr + 4) 1 1 1, 1);                              (* cmd.mse *)
   (BitField (pcihdr + 6) 1 4 1, 1);                              (* sts.cl *)
   (BitField (pcihdr + 14) 1 7 1, 0);                             (* htype.mfd *)
   (BitField (pcihdr + 14) 1 0 7, 0);                             (* htype.hl *)
   (member (pcihdr + 8) 1, 1);                                    (* rid *)
   (member (pcihdr + 11) 1, 1);                                   (* cc.bcc *)
   (member (pcihdr + 10) 1, 8);                                   (* cc.scc *)
   (member (pcihdr + 9) 1, 2);                                    (* cc.pi *)
   (BitField (pcihdr + 16) 4 1 2, Z.shiftr 4 1);                  (* mlbar.tp *)
   (BitField (pcihdr + 16) 4 14 18, Z.shiftr (Z.land base_pa (Z.ones 32)) 14); (* mlbar.ba *)
   (member (pcihdr + 20) 4, Z.shiftr base_pa 32);                 (* mulbar *)
   (member (pcihdr + 46) 2, NVMEV_SUBSYSTEM_ID);
   (member (pcihdr + 44) 2, NVMEV_SUBSYSTEM_VENDOR_ID);
   (member (pcihdr + 48) 4, 0);                                   (* erom *)
   (member (pcihdr + 52) 1, OFFS_PCI_PM_CAP);                     (* cap *)
   (member (pcihdr + 61) 1, 0);                                   (* intr.ipin *)
   (member (pcihdr + 60) 1, NVMEV_INTX_IRQ)].                     (* intr.iline *)

Definition PCI_PMCAP_SETTINGS (pmcap : Z) : list (bit_field * Z) :=
  [(member pmcap 1, PCI_CAP_ID_PM);
   (member (pmcap + 1) 1, OFFS_PCI_MSIX_CAP);
   (BitField (pmcap + 2) 2 0 3, 3);                               (* pc.vs *)
   (BitField (pmcap + 4) 2 3 1, 1);                               (* pmcs.nsfrst *)
   (BitField (pmcap + 4) 2 0 2, Z.shiftr 0x800 16)].              (* pmcs.ps *)

Definition PCI_MSIXCAP_SETTINGS (msixcap : Z) : list (bit_field * Z) :=
  [(member msixcap 1, PCI_CAP_ID_MSIX);
   (member (msixcap + 1) 1, OFFS_PCIE_CAP);
   (BitField (msixcap + 2) 2 15 1, 1);                            (* mxc.mxe *)
   (BitField (msixcap + 2) 2 0 11, 127);                          (* mxc.ts *)
   (BitField (msixcap + 4) 4 0 3, 0);                             (* mtab.tbir *)
   (BitField (msixcap + 4) 4 3 29, 0x400);                        (* mtab.to *)
   (BitField (msixcap + 8) 4 3 29, 0x1000);                       (* mpba.pbao *)
   (BitField (msixcap + 8) 4 0 3, 0)].                            (* mpba.pbir *)

Definition PCI_PCIECAP_SETTINGS (pciecap : Z) : list (bit_field * Z) :=
  [(member pciecap 1, PCI_CAP_ID_EXP);
   (member (pciecap + 1) 1, 0);
   (BitField (pciecap + 2) 1 0 4, 2);                             (* pxcap.ver *)
   (BitField (pciecap + 3) 1 1 5, 0);                             (* pxcap.imn *)
   (BitField (pciecap + 2) 1 4 4, 0);                             (* pxcap.dpt *)
   (BitField (pciecap + 4) 4 0 3, 1);                             (* pxdcap.mps *)
   (BitField (pciecap + 4) 4 3 2, 0);                             (* pxdcap.pfs *)
   (BitField (pciecap + 4) 4 5 1, 1);                             (* pxdcap.etfs *)
   (BitField (pciecap + 4) 4 6 3, 6);                             (* pxdcap.l0sl *)
   (BitField (pciecap + 4) 4 9 3, 2);                             (* pxdcap.l1l *)
   (BitField (pciecap + 4) 4 15 1, 1);                            (* pxdcap.rer *)
   (BitField (pciecap + 4) 4 18 8, 0);                            (* pxdcap.csplv *)
   (BitField (pciecap + 4) 4 26 2, 0);                            (* pxdcap.cspls *)
   (BitField (pciecap + 4) 4 28 1, 1)].                           (* pxdcap.flrc *)

(** One extended capability: [cid], [cver] and [next]. *)
Definition ext_cap (at_ cid next : Z) : list (bit_field * Z) :=
  [(member at_ 2, cid); (BitField (at_ + 2) 2 0 4, 1); (BitField (at_ + 2) 2 4 12, next)].

Definition PCI_EXTCAP_SETTINGS (base : Z) : list (bit_field * Z) :=
  ext_cap base 1 (PCI_CFG_SPACE_SIZE + 0x50)
  ++ ext_cap (base + 0x50) 2 (PCI_CFG_SPACE_SIZE + 0x80)
  ++ ext_cap (base + 0x80) 4 (PCI_CFG_SPACE_SIZE + 0x90)
  ++ ext_cap (base + 0x90) 0xe (PCI_CFG_SPACE_SIZE + 0x170)
  ++ ext_cap (base + 0x170) 3 (PCI_CFG_SPACE_SIZE + 0x1a0)
  ++ ext_cap (base + 0x1a0) 0x19 0.

(** [NVMEV_PCI_INIT] on the zeroed page of [VDEV_INIT], up to the scan of the bus. *)
Definition NVMEV_PCI_INIT (base_pa : Z) : pci_device :=
  PciDevice
    (assign_all (PCI_EXTCAP_SETTINGS OFFS_PCI_EXT_CAP)
      (assign_all (PCI_PCIECAP_SETTINGS OFFS_PCIE_CAP)
        (assign_all (PCI_MSIXCAP_SETTINGS OFFS_PCI_MSIX_CAP)
          (assign_all (PCI_PMCAP_SETTINGS OFFS_PCI_PM_CAP)
            (assign_all (PCI_HEADER_SETTINGS OFFS_PCI_HDR base_pa) ∅)))))
    false None.

(** ** Accesses of the host *)

Definition inside_page (where_ size : Z) : bool :=
  (0 <=? where_) && (0 <=? size) && (where_ + size <=? PAGE_SIZE).

(** [nvmev_pci_read]: the return value and [*val], of which [size] bytes are replaced. *)
Definition nvmev_pci_read (devfn where_ size val : Z) : pprog (Z * Z) :=
  if negb (devfn =? 0) then mret (1, val)
  else
    p ← get;
    if inside_page where_ size && (size <=? 4) then
      mret (0, le_int (mem_read (pv_virtDev p) where_ size ++ drop (Z.to_nat size) (le_bytes 4 val)))
    else undefined.

(** [!!((val ^ new) & flag)] *)
Definition differ (val new flag : Z) : bool := negb (Z.land (Z.lxor val new) flag =? 0).

Definition flag_set (x flag : Z) : bool := negb (Z.land x flag =? 0).

(** The command register: the mask, after the change of [intx_disabled]. *)
Definition write_command (val new : Z) : pprog Z :=
  _ ← (if differ val new PCI_COMMAND_INTX_DISABLE then
         let disabled := flag_set new PCI_COMMAND_INTX_DISABLE in
         _ ← modify (set_intx_disabled disabled);
         if disabled then mret tt
         else modify (fun p => set_virtDev (assign (pv_virtDev p) (BitField (OFFS_PCI_HDR + 6) 1 3 1, 0)) p)
       else mret tt);
  mret PCI_COMMAND_INTX_DISABLE.

(** The flags of MSI-X: the mask, after the change of [msix_enabled]. *)
Definition write_msix_flags (val new : Z) : pprog Z :=
  p ← get;
  _ ← (if bool_decide (is_Some (pv_msix_enabled p)) && differ val new PCI_MSIX_FLAGS_ENABLE then
         modify (set_msix_enabled (flag_set new PCI_MSIX_FLAGS_ENABLE))
       else mret tt);
  mret (Z.lor PCI_MSIX_FLAGS_MASKALL PCI_MSIX_FLAGS_ENABLE).

(** The mask of the bits the host may write. *)
Definition write_mask (where_ val new : Z) : pprog Z :=
  if where_ <? OFFS_PCI_PM_CAP then
    if where_ =? PCI_COMMAND then write_command val new
    else if where_ =? PCI_STATUS then mret 0xF200
    else if where_ =? PCI_BIST then mret PCI_BIST_START
    else if where_ =? PCI_BASE_ADDRESS_0 then mret 0xFFFFC000
    else if where_ =? PCI_INTERRUPT_LINE then mret 0xFF
    else mret 0
  else if where_ <? OFFS_PCI_MSIX_CAP then mret (Z.ones 32)
  else if where_ <? OFFS_PCIE_CAP then
    if where_ - OFFS_PCI_MSIX_CAP =? PCI_MSIX_FLAGS then write_msix_flags val new else mret 0
  else mret (Z.ones 32).

(** [nvmev_pci_write]; [devfn] is not looked at. *)
Definition nvmev_pci_write (devfn where_ size new : Z) : pprog Z :=
  p ← get;
  if inside_page where_ size && (size <=? 4) then
    let val := word_at (pv_virtDev p) where_ size in
    mask ← write_mask where_ val new;
    let val := Z.lor (Z.ldiff val mask) (Z.land new mask) in
    _ ← modify (fun p => set_virtDev (mem_write (pv_virtDev p) where_ (le_bytes (Z.to_nat size) val)) p);
    mret 0
  else undefined.

(** [nvmev_signal_irq]: whether the interrupt goes out as a message of MSI-X; else the
    pending bit of the status register is set and the line is raised. *)
Definition nvmev_signal_irq : pprog bool :=
  p ← get;
  match pv_msix_enabled p with
  | None => undefined
  | Some true => mret true
  | Some false =>
    _ ← modify (fun p => set_virtDev (assign (pv_virtDev p) (BitField (OFFS_PCI_HDR + 6) 1 3 1, 1)) p);
    mret false
  end.
