(* ===== verification/PciProps.v ===== *)
(** * PCI configuration space of the NVMe emulator: theorems

    Whatever the host writes, it keeps finding the device, its registers and its
    capabilities, and the interrupt mode the emulator works with is the one the host
    chose. *)
From S2P Require Import Prelude FtlAlloc KvFtl KvFtlSpec IoSched IoQueue Pci.

(** ** Bits of words and bytes *)

Lemma le_int_cons b l : le_int (b :: l) = b + 256 * le_int l.
Proof. done. Qed.

Lemma testbit_le_int l i b j :
  Forall (fun x => 0 <= x < 256) l -> l !! i = Some b -> 0 <= j < 8 ->
  Z.testbit (le_int l) (8 * Z.of_nat i + j) = Z.testbit b j.
Proof.
  intros Hl. revert i. induction Hl as [|x l Hx _ IH]; intros i Hi Hj; [done|]. rewrite le_int_cons.
  destruct i as [|i]; simplify_eq/=.
  - rewrite <- (Z.mod_pow2_bits_low _ 8 j) by lia. f_equal.
    change (2 ^ 8) with 256. rewrite Z.mul_comm, Z.mod_add by lia. by apply Z.mod_small.
  - replace (8 * Z.of_nat (S i) + j) with (8 * Z.of_nat i + j + 8) by lia.
    rewrite <- Z.div_pow2_bits by lia. change (2 ^ 8) with 256.
    rewrite Z.mul_comm, Z.div_add, Z.div_small by lia. by apply IH.
Qed.

Lemma testbit_le_bytes k x i j : (i < k)%nat -> 0 <= j < 8 ->
  Z.testbit (le_bytes k x !!! i) j = Z.testbit x (8 * Z.of_nat i + j).
Proof.
  revert x i. induction k as [|k IH]; intros x i Hi Hj; [lia|]. destruct i as [|i]; simpl.
  - change 256 with (2 ^ 8). by rewrite Z.mod_pow2_bits_low by lia.
  - rewrite IH by lia. change 256 with (2 ^ 8). rewrite Z.div_pow2_bits by lia. f_equal. lia.
Qed.

Lemma le_bytes_range k x i : (i < k)%nat -> 0 <= le_bytes k x !!! i < 256.
Proof.
  revert x i. induction k as [|k IH]; intros x i Hi; [lia|]. destruct i as [|i]; simpl.
  - apply Z.mod_pos_bound. lia.
  - apply IH. lia.
Qed.

(** ** Masked writes *)

Definition page_bytes (m : memory) : Prop := forall a, 0 <= mem_get m a < 256.

Definition bit (m : memory) (a j : Z) : bool := Z.testbit (mem_get m a) j.

Lemma page_bytes_write m a k x : page_bytes m -> page_bytes (mem_write m a (le_bytes k x)).
Proof.
  intros Hm b. rewrite mem_get_write, length_le_bytes. case_decide as Hr; [|apply Hm].
  apply le_bytes_range. unfold in_range in Hr. simpl in Hr. lia.
Qed.

Lemma testbit_word_at m a n i j : page_bytes m -> 0 <= i < n -> 0 <= j < 8 ->
  Z.testbit (word_at m a n) (8 * i + j) = bit m (a + i) j.
Proof.
  intros Hm Hi Hj. unfold word_at, bit. replace i with (Z.of_nat (Z.to_nat i)) by lia.
  apply testbit_le_int; [|rewrite lookup_mem_read, decide_True by lia; done|done].
  apply Forall_fmap, Forall_forall. intros x _. apply Hm.
Qed.

(** The bits of the mask come from [new], the others from the word that was there. *)
Definition masked (old mask new : Z) : Z := Z.lor (Z.ldiff old mask) (Z.land new mask).

(** Bit [j] of the byte at [a] is one of those in the mask of the word of [n] bytes at [w]. *)
Definition in_mask (w n mask a j : Z) : bool :=
  (w <=? a) && (a <? w + n) && Z.testbit mask (8 * (a - w) + j).

Lemma bit_masked_write m0 m w k mask new a j : page_bytes m0 -> 0 <= j < 8 ->
  bit (mem_write m w (le_bytes k (masked (word_at m0 w (Z.of_nat k)) mask new))) a j =
  if (w <=? a) && (a <? w + Z.of_nat k) then
    if Z.testbit mask (8 * (a - w) + j) then Z.testbit new (8 * (a - w) + j) else bit m0 a j
  else bit m a j.
Proof.
  intros H0 Hj. unfold bit at 1. rewrite mem_get_write, length_le_bytes.
  case_decide as Hr; unfold in_range in Hr; simpl in Hr.
  - replace ((w <=? a) && (a <? w + Z.of_nat k)) with true by lia.
    rewrite testbit_le_bytes by lia. rewrite Z2Nat.id by lia. unfold masked.
    rewrite Z.lor_spec, Z.ldiff_spec, Z.land_spec, testbit_word_at by (done || lia).
    replace (w + (a - w)) with a by lia. destruct (Z.testbit mask _), (Z.testbit new _), (bit m0 a j); done.
  - by replace ((w <=? a) && (a <? w + Z.of_nat k)) with false by lia.
Qed.

Definition field_bits (f : bit_field) : Z := Z.shiftl (Z.ones (bf_width f)) (bf_shift f).

Definition in_field (f : bit_field) (a j : Z) : bool :=
  in_mask (bf_at f) (Z.of_nat (bf_unit f)) (field_bits f) a j.

Lemma page_bytes_assign m fv : page_bytes m -> page_bytes (assign m fv).
Proof. apply page_bytes_write. Qed.

Lemma bit_assign m f v a j : page_bytes m -> 0 <= j < 8 ->
  bit (assign m (f, v)) a j =
  if in_field f a j then Z.testbit (Z.shiftl v (bf_shift f)) (8 * (a - bf_at f) + j) else bit m a j.
Proof.
  intros Hm Hj. unfold assign. cbn [fst snd].
  change (Z.lor (Z.ldiff ?o _) (Z.land ?n _)) with (masked o (field_bits f) n).
  rewrite bit_masked_write by done. unfold in_field, in_mask.
  by destruct (_ && _), (Z.testbit (field_bits f) _).
Qed.

Lemma page_bytes_assign_all l m : page_bytes m -> page_bytes (assign_all l m).
Proof. revert m. induction l as [|fv l IH]; intros m Hm; [done|]. by apply IH, page_bytes_assign. Qed.

(** Memories with the same bits outside [R]. *)
Definition agree (R : Z -> Z -> bool) (m m' : memory) : Prop :=
  page_bytes m /\ page_bytes m' /\ forall a j, 0 <= j < 8 -> R a j = false -> bit m a j = bit m' a j.

Lemma agree_assign R m m' fv : agree R m m' -> agree R (assign m fv) (assign m' fv).
Proof.
  destruct fv as [f v]. intros (Hm & Hm' & H). split; [by apply page_bytes_assign|].
  split; [by apply page_bytes_assign|]. intros a j Hj HR. rewrite !bit_assign by done.
  destruct (in_field f a j); auto.
Qed.

Lemma agree_assign_all R l m m' : agree R m m' -> agree R (assign_all l m) (assign_all l m').
Proof. revert m m'. induction l as [|fv l IH]; intros m m' H; [done|]. by apply IH, agree_assign. Qed.

(** A field inside [R] may be given different values. *)
Lemma agree_assign_in R m m' f v v' : agree R m m' ->
  (forall a j, 0 <= j < 8 -> in_field f a j = true -> R a j = true) -> agree R (assign m (f, v)) (assign m' (f, v')).
Proof.
  intros (Hm & Hm' & H) HR. split; [by apply page_bytes_assign|]. split; [by apply page_bytes_assign|].
  intros a j Hj Ha. rewrite !bit_assign by done. destruct (in_field f a j) eqn:E; [|auto].
  by rewrite HR in Ha.
Qed.

(** ** The page after initialisation *)

Lemma page_bytes_empty : page_bytes ∅.
Proof. intros a. unfold mem_get. rewrite lookup_empty. simpl. lia. Qed.

(** The bits of the base address register that hold the address. *)
Definition bar_bits (a j : Z) : bool := (17 <? a) && (a <? 24) || (a =? 17) && (5 <? j).

Definition mlbar_ba : bit_field := BitField 16 4 14 18.
Definition mulbar : bit_field := member 20 4.

Lemma testbit_field_bits f n : 0 <= bf_shift f -> 0 <= bf_width f -> 0 <= n ->
  Z.testbit (field_bits f) n = (bf_shift f <=? n) && (n <? bf_shift f + bf_width f).
Proof.
  intros Hs Hw Hn. unfold field_bits. rewrite Z.shiftl_spec by done.
  destruct (Z.leb_spec (bf_shift f) n) as [H|H].
  - destruct (Z.ltb_spec n (bf_shift f + bf_width f)); [apply Z.ones_spec_low|apply Z.ones_spec_high]; lia.
  - apply Z.testbit_neg_r. lia.
Qed.

Lemma in_field_bar f a j : f = mlbar_ba \/ f = mulbar -> 0 <= j < 8 -> in_field f a j = true -> bar_bits a j = true.
Proof.
  unfold in_field, in_mask, bar_bits. intros [->| ->] Hj H;
    apply andb_true_iff in H as [H1 H2]; cbn [bf_at bf_unit mlbar_ba mulbar member] in *;
    rewrite testbit_field_bits in H2; cbn [bf_shift bf_width mlbar_ba mulbar member] in *;
    change (Z.of_nat 4) with 4 in *; lia.
Qed.

Definition header_ids (base_pa : Z) : list (bit_field * Z) := take 11 (PCI_HEADER_SETTINGS 0 base_pa).
Definition header_rest (base_pa : Z) : list (bit_field * Z) := drop 13 (PCI_HEADER_SETTINGS 0 base_pa).

Lemma assign_all_app l l' m : assign_all (l ++ l') m = assign_all l' (assign_all l m).
Proof. apply foldl_app. Qed.

Lemma assign_all_two x y m : assign_all [x; y] m = assign (assign m x) y.
Proof. done. Qed.

(** All of the page but the address is the same for every base. *)
Definition fixed_settings : list (bit_field * Z) :=
  header_rest 0 ++ PCI_PMCAP_SETTINGS OFFS_PCI_PM_CAP ++ PCI_MSIXCAP_SETTINGS OFFS_PCI_MSIX_CAP
  ++ PCI_PCIECAP_SETTINGS OFFS_PCIE_CAP ++ PCI_EXTCAP_SETTINGS OFFS_PCI_EXT_CAP.

Definition with_bar (base_pa : Z) : memory :=
  assign (assign (assign_all (header_ids 0) ∅) (mlbar_ba, Z.shiftr (Z.land base_pa (Z.ones 32)) 14))
    (mulbar, Z.shiftr base_pa 32).

Lemma init_settings base_pa : pv_virtDev (NVMEV_PCI_INIT base_pa) = assign_all fixed_settings (with_bar base_pa).
Proof.
  unfold fixed_settings, NVMEV_PCI_INIT. cbn [pv_virtDev].
  replace (PCI_HEADER_SETTINGS OFFS_PCI_HDR base_pa) with
    (header_ids 0 ++ [(mlbar_ba, Z.shiftr (Z.land base_pa (Z.ones 32)) 14); (mulbar, Z.shiftr base_pa 32)]
     ++ header_rest 0) by reflexivity.
  unfold with_bar. rewrite !assign_all_app, assign_all_two. reflexivity.
Qed.

Lemma init_agree base_pa :
  agree bar_bits (pv_virtDev (NVMEV_PCI_INIT base_pa)) (pv_virtDev (NVMEV_PCI_INIT 0)).
Proof.
  rewrite !init_settings. apply agree_assign_all. unfold with_bar.
  apply agree_assign_in; [|by intros a j; apply in_field_bar; right].
  apply agree_assign_in; [|by intros a j; apply in_field_bar; left].
  assert (H : page_bytes (assign_all (header_ids 0) ∅)) by apply page_bytes_assign_all, page_bytes_empty.
  by split.
Qed.

(** A byte is known by its bits. *)
Lemma byte_eq m m' a : page_bytes m -> page_bytes m' ->
  (forall j, 0 <= j < 8 -> bit m a j = bit m' a j) -> mem_get m a = mem_get m' a.
Proof.
  intros Hm Hm' H. specialize (Hm a). specialize (Hm' a). apply Z.bits_inj'. intros j Hj.
  destruct (Z.lt_ge_cases j 8) as [Hlt|Hge]; [by apply H|].
  rewrite <- (Z.mod_small (mem_get m a) (2 ^ 8)), <- (Z.mod_small (mem_get m' a) (2 ^ 8)) by lia.
  by rewrite !Z.mod_pow2_bits_high by lia.
Qed.

(** Assignments to other words leave a range as it is. *)
Definition word_range (f : bit_field) : Z * Z := (bf_at f, Z.of_nat (bf_unit f)).

Lemma word_at_assign_apart m fv a n : apart (word_range fv.1) (a, n) -> word_at (assign m fv) a n = word_at m a n.
Proof.
  intros H. unfold word_at, assign. cbv zeta. f_equal. apply mem_read_write_apart. by rewrite length_le_bytes.
Qed.

Lemma word_at_assign_all l m a n :
  Forall (fun fv => apart (word_range fv.1) (a, n)) l -> word_at (assign_all l m) a n = word_at m a n.
Proof.
  intros H. revert m. induction H as [|fv l Hfv _ IH]; intros m; [done|].
  change (assign_all (fv :: l) m) with (assign_all l (assign m fv)). by rewrite IH, word_at_assign_apart.
Qed.

Lemma word_at_assign m f v :
  word_at (assign m (f, v)) (bf_at f) (Z.of_nat (bf_unit f)) =
  masked (word_at m (bf_at f) (Z.of_nat (bf_unit f))) (field_bits f) (Z.shiftl v (bf_shift f))
    mod 256 ^ Z.of_nat (bf_unit f).
Proof.
  rewrite <- le_int_le_bytes_mod. unfold word_at at 1. f_equal. unfold assign. cbn [fst snd].
  set (x := Z.lor _ _). pose proof (mem_read_write m (bf_at f) (le_bytes (bf_unit f) x)) as H.
  rewrite length_le_bytes in H. exact H.
Qed.

Lemma bar_word x :
  masked 4 (field_bits mlbar_ba) (Z.shiftl (Z.shiftr (Z.land x (Z.ones 32)) 14) 14) mod 2 ^ 32 =
  Z.lor 4 (Z.ldiff (x mod 2 ^ 32) (Z.ones 14)).
Proof.
  rewrite Z.land_ones by lia. apply Z.bits_inj'. intros n Hn. rewrite Z.testbit_mod_pow2 by lia.
  unfold masked. rewrite !Z.lor_spec, !Z.ldiff_spec, Z.land_spec, testbit_field_bits by (simpl; lia).
  cbn [bf_shift bf_width mlbar_ba]. rewrite Z.shiftl_spec by done. rewrite Z.testbit_mod_pow2 by lia.
  destruct (Z.lt_ge_cases n 14) as [H|H].
  - rewrite (Z.ones_spec_low 14 n), (Z.testbit_neg_r _ (n - 14)) by lia.
    replace (14 <=? n) with false by lia. replace (n <? 32) with true by lia.
    by destruct (Z.testbit 4 n), (Z.testbit x n).
  - rewrite (Z.ones_spec_high 14 n), Z.shiftr_spec, Z.testbit_mod_pow2 by lia.
    rewrite (Z.bits_above_log2 4 n) by (simpl; lia). replace (n - 14 + 14) with n by lia.
    replace (14 <=? n) with true by lia. change (14 + 18) with 32. by destruct (n <? 32), (Z.testbit x n).
Qed.

(** The address in the base address register: the reserved memory, from a multiple of
    16 KiB on. *)
Lemma init_bar base_pa : 0 <= base_pa < 2 ^ 64 ->
  let m := pv_virtDev (NVMEV_PCI_INIT base_pa) in
  word_at m 16 4 = Z.lor 4 (Z.ldiff (base_pa mod 2 ^ 32) (Z.ones 14)) /\ word_at m 20 4 = base_pa / 2 ^ 32.
Proof.
  intros Hb m. subst m. rewrite init_settings. split; rewrite word_at_assign_all;
    try (apply Forall_forall; intros fv Hfv; unfold apart, word_range;
         revert fv Hfv; apply Forall_forall, (bool_decide_unpack _); vm_compute; exact I).
  - unfold with_bar. rewrite word_at_assign_apart by (right; vm_compute; discriminate).
    rewrite (word_at_assign _ mlbar_ba).
    replace (word_at _ _ _) with 4 by (vm_compute; reflexivity). apply bar_word.
  - unfold with_bar. rewrite (word_at_assign _ mulbar).
    replace (word_at _ _ _) with 0 by (symmetry; rewrite word_at_assign_apart by (left; vm_compute; discriminate); vm_compute; reflexivity).
    change (field_bits mulbar) with (Z.ones 32). change (bf_shift mulbar) with 0. unfold masked.
    change (256 ^ Z.of_nat (bf_unit mulbar)) with (2 ^ 32).
    rewrite Z.ldiff_0_l, Z.lor_0_l, Z.shiftl_0_r, Z.land_ones, Z.mod_mod, Z.shiftr_div_pow2 by lia.
    apply Z.mod_small. split; [apply Z.div_pos; lia|]. apply Z.div_lt_upper_bound; lia.
Qed.

(** ** Accesses of the host *)

(** The host accesses one, two or four bytes at a multiple of their number. *)
Record access := Access { ac_where : Z; ac_size : Z; ac_val : Z }.

Definition access_ok (x : access) : Prop :=
  (ac_size x = 1 \/ ac_size x = 2 \/ ac_size x = 4) /\ 0 <= ac_where x < PAGE_SIZE /\
  ac_where x mod ac_size x = 0 /\ 0 <= ac_val x < 2 ^ (8 * ac_size x).

(** The mask of a register. *)
Definition mask_of (w : Z) : Z :=
  if w <? 64 then
    if w =? PCI_COMMAND then PCI_COMMAND_INTX_DISABLE
    else if w =? PCI_STATUS then 0xF200
    else if w =? PCI_BIST then PCI_BIST_START
    else if w =? PCI_BASE_ADDRESS_0 then 0xFFFFC000
    else if w =? PCI_INTERRUPT_LINE then 0xFF
    else 0
  else if w <? 80 then Z.ones 32
  else if w <? 96 then if w =? 82 then 0xC000 else 0
  else Z.ones 32.

(** The bit was written by the access. *)
Definition written (x : access) (a j : Z) : bool := in_mask (ac_where x) (ac_size x) (mask_of (ac_where x)) a j.

(** The pending interrupt in the status register, which the emulator clears as well. *)
Definition is_bit (a j : Z) : bool := (a =? 6) && (j =? 3).

Lemma flag_set_bit x k : 0 <= k -> flag_set x (2 ^ k) = Z.testbit x k.
Proof.
  intros Hk. unfold flag_set. destruct (Z.testbit x k) eqn:E.
  - apply negb_true_iff, Z.eqb_neq. intros H.
    assert (Hb : Z.testbit (Z.land x (2 ^ k)) k = false) by (by rewrite H, Z.bits_0).
    by rewrite Z.land_spec, E, Z.pow2_bits_true in Hb by done.
  - apply negb_false_iff, Z.eqb_eq, Z.bits_inj'. intros n Hn.
    rewrite Z.land_spec, Z.bits_0, Z.pow2_bits_eqb by done.
    destruct (Z.eqb_spec k n) as [<-|]; [by rewrite E|]. apply andb_false_r.
Qed.

Lemma differ_bit v n k : 0 <= k -> differ v n (2 ^ k) = xorb (Z.testbit v k) (Z.testbit n k).
Proof. intros Hk. change (differ v n (2 ^ k)) with (flag_set (Z.lxor v n) (2 ^ k)). by rewrite flag_set_bit, Z.lxor_spec. Qed.

Lemma bit_assign_is m v a j : page_bytes m -> 0 <= j < 8 -> is_bit a j = false ->
  bit (assign m (BitField (OFFS_PCI_HDR + 6) 1 3 1, v)) a j = bit m a j.
Proof.
  intros Hm Hj Ha. rewrite bit_assign by done.
  replace (in_field _ a j) with false; [done|]. symmetry. unfold in_field, in_mask, is_bit in *.
  cbn [bf_at bf_unit] in *. change (OFFS_PCI_HDR + 6) with 6. change (Z.of_nat 1) with 1.
  destruct (Z.eqb_spec a 6) as [->|Hne]; [|lia]. rewrite testbit_field_bits; cbn [bf_shift bf_width]; lia.
Qed.

Lemma wp_write_command v n p : page_bytes (pv_virtDev p) ->
  wp never (write_command v n) (fun mask p' => mask = PCI_COMMAND_INTX_DISABLE /\ page_bytes (pv_virtDev p') /\
    (forall a j, 0 <= j < 8 -> is_bit a j = false -> bit (pv_virtDev p') a j = bit (pv_virtDev p) a j) /\
    pv_intx_disabled p' =
      (if xorb (Z.testbit v 10) (Z.testbit n 10) then Z.testbit n 10 else pv_intx_disabled p) /\
    pv_msix_enabled p' = pv_msix_enabled p) p.
Proof.
  intros Hp. unfold write_command. change PCI_COMMAND_INTX_DISABLE with (2 ^ 10).
  rewrite differ_bit, flag_set_bit by done. apply wp_bind. destruct (xorb _ _); [|by apply wp_ret, wp_ret].
  apply wp_bind, wp_modify. destruct (Z.testbit n 10); [by apply wp_ret, wp_ret|]. apply wp_modify, wp_ret.
  split; [done|]. split; [by apply page_bytes_assign|]. split; [|done]. intros a j Hj Ha. by apply bit_assign_is.
Qed.

Lemma wp_write_msix_flags v n p :
  wp never (write_msix_flags v n) (fun mask p' => mask = 0xC000 /\ pv_virtDev p' = pv_virtDev p /\
    pv_intx_disabled p' = pv_intx_disabled p /\
    pv_msix_enabled p' =
      if xorb (Z.testbit v 15) (Z.testbit n 15) then (fun _ => Z.testbit n 15) <$> pv_msix_enabled p
      else pv_msix_enabled p) p.
Proof.
  unfold write_msix_flags. apply wp_bind, wp_get. apply wp_bind. change PCI_MSIX_FLAGS_ENABLE with (2 ^ 15).
  rewrite differ_bit, flag_set_bit by done. destruct (pv_msix_enabled p) as [b|] eqn:E; simpl;
    destruct (xorb _ _); first [apply wp_modify, wp_ret | apply wp_ret, wp_ret]; simpl; by rewrite ?E.
Qed.

(** What the choice of the mask does besides. *)
Lemma wp_write_mask w v n p : page_bytes (pv_virtDev p) ->
  wp never (write_mask w v n) (fun mask p' => mask = mask_of w /\ page_bytes (pv_virtDev p') /\
    (forall a j, 0 <= j < 8 -> is_bit a j = false -> bit (pv_virtDev p') a j = bit (pv_virtDev p) a j) /\
    pv_intx_disabled p' =
      (if (w =? 4) && xorb (Z.testbit v 10) (Z.testbit n 10) then Z.testbit n 10 else pv_intx_disabled p) /\
    pv_msix_enabled p' =
      (if (w =? 82) && xorb (Z.testbit v 15) (Z.testbit n 15) then (fun _ => Z.testbit n 15) <$> pv_msix_enabled p
       else pv_msix_enabled p)) p.
Proof.
  intros Hp. unfold write_mask, mask_of, PCI_COMMAND, OFFS_PCI_PM_CAP, OFFS_PCI_MSIX_CAP, OFFS_PCIE_CAP, PCI_MSIX_FLAGS.
  destruct (Z.eqb_spec w 4) as [->|N4]; [by apply wp_write_command|].
  destruct (Z.eqb_spec w 82) as [->|N82].
  { eapply wp_mono; [apply wp_write_msix_flags|]. intros mask p' (-> & -> & -> & ->). done. }
  replace (w - 80 =? 2) with false by lia.
  repeat match goal with |- context [if ?b then mret _ else _] => destruct b
                       | |- context [if ?b then (if _ then _ else _) else _] => destruct b end;
    by apply wp_ret.
Qed.

Lemma access_inside x : access_ok x -> inside_page (ac_where x) (ac_size x) && (ac_size x <=? 4) = true.
Proof.
  intros (Hs & Hw & Hm & _). unfold inside_page, PAGE_SIZE in *.
  pose proof (Z.div_mod (ac_where x) (ac_size x)). destruct Hs as [E|[E|E]]; rewrite E in *; lia.
Qed.

Lemma wp_pci_write devfn x p : access_ok x -> page_bytes (pv_virtDev p) ->
  wp never (nvmev_pci_write devfn (ac_where x) (ac_size x) (ac_val x)) (fun r p' =>
    r = 0 /\ page_bytes (pv_virtDev p') /\
    (forall a j, 0 <= j < 8 -> is_bit a j = false -> bit (pv_virtDev p') a j =
       if written x a j then Z.testbit (ac_val x) (8 * (a - ac_where x) + j) else bit (pv_virtDev p) a j) /\
    let v := word_at (pv_virtDev p) (ac_where x) (ac_size x) in
    let n := ac_val x in
    pv_intx_disabled p' =
      (if (ac_where x =? 4) && xorb (Z.testbit v 10) (Z.testbit n 10) then Z.testbit n 10 else pv_intx_disabled p) /\
    pv_msix_enabled p' =
      (if (ac_where x =? 82) && xorb (Z.testbit v 15) (Z.testbit n 15) then (fun _ => Z.testbit n 15) <$> pv_msix_enabled p
       else pv_msix_enabled p)) p.
Proof.
  intros Hx Hp. unfold nvmev_pci_write. apply wp_bind, wp_get. rewrite access_inside by done.
  apply wp_bind. eapply wp_mono; [by apply wp_write_mask|]. intros mask p1 (-> & Hp1 & Hb & Hi & Hm).
  apply wp_bind, wp_modify, wp_ret. split; [done|]. cbn [pv_virtDev set_virtDev pv_intx_disabled pv_msix_enabled].
  split; [by apply page_bytes_write|]. split; [|done]. intros a j Hj Ha.
  assert (0 <= ac_size x) as Hs by (destruct Hx as ([->|[->| ->]] & _); lia).
  pose proof (bit_masked_write (pv_virtDev p) (pv_virtDev p1) (ac_where x) (Z.to_nat (ac_size x))
    (mask_of (ac_where x)) (ac_val x) a j Hp Hj) as E. rewrite Z2Nat.id in E by done.
  unfold masked in E. rewrite E. unfold written, in_mask.
  destruct ((ac_where x <=? a) && (a <? ac_where x + ac_size x)); [done|by apply Hb].
Qed.

(** ** Runs *)

(** The bits of a byte that the host may change, and the bit of the pending interrupt. *)
Definition writable (a : Z) : Z :=
  if a <? 64 then
    if a =? 5 then 0x04 else if a =? 6 then 0x08 else if a =? 7 then 0xF2 else if a =? 15 then 0x40
    else if a =? 17 then 0xC0 else if (a =? 18) || (a =? 19) then 0xFF else if a =? 60 then 0xFF else 0
  else if a <? 80 then 0xFF
  else if a <? 96 then if a =? 83 then 0xC0 else 0
  else 0xFF.

(** The mask of a register lies within the writable bits of its bytes. *)
Definition mask_within (w : Z) : bool :=
  forallb (fun i => forallb (fun j =>
    implb (Z.testbit (mask_of w) (8 * i + j)) (Z.testbit (writable (w + i)) j)) (seqZ 0 8)) (seqZ 0 4).

Lemma mask_within_bit w i j : mask_within w = true -> 0 <= i < 4 -> 0 <= j < 8 ->
  Z.testbit (mask_of w) (8 * i + j) = true -> Z.testbit (writable (w + i)) j = true.
Proof.
  intros H Hi Hj Hb. unfold mask_within in H. rewrite forallb_forall in H.
  specialize (H i). rewrite forallb_forall in H.
  assert (Hs : forall k n, 0 <= k < n -> In k (seqZ 0 n)) by (intros; apply list_elem_of_In, elem_of_seqZ; lia).
  specialize (H (Hs _ _ Hi) j (Hs _ _ Hj)). by rewrite Hb in H.
Qed.

Definition masked_registers : list Z := [4; 6; 15; 16; 60; 82].

Lemma registers_within w : w ∈ masked_registers -> mask_within w = true.
Proof.
  intros H. assert (Hf : Forall (fun w => mask_within w = true) masked_registers) by (by repeat constructor).
  rewrite Forall_forall in Hf. by apply Hf.
Qed.

Lemma mask_of_other w n : w < 64 \/ 80 <= w < 96 -> w ∉ masked_registers -> Z.testbit (mask_of w) n = false.
Proof.
  intros Hw H. unfold masked_registers in H. rewrite !not_elem_of_cons in H. unfold mask_of.
  repeat match goal with |- context [if ?b then _ else _] => destruct b eqn:? end;
    solve [apply Z.bits_0|unfold PCI_COMMAND, PCI_STATUS, PCI_BIST, PCI_BASE_ADDRESS_0, PCI_INTERRUPT_LINE in *; lia].
Qed.

Lemma byte_bits j : 0 <= j < 8 -> Z.testbit 255 j = true.
Proof. intros Hj. change 255 with (Z.ones 8). by apply Z.ones_spec_low. Qed.

Lemma written_writable x a j : access_ok x -> 0 <= j < 8 -> written x a j = true -> Z.testbit (writable a) j = true.
Proof.
  intros (Hs & Hw & Hm & _) Hj H. unfold written, in_mask in H. apply andb_true_iff in H as [Ha Hb].
  pose proof (Z.div_mod (ac_where x) (ac_size x)) as Hd. destruct x as [w s v]. cbn [ac_where ac_size] in *.
  set (i := a - w) in *. assert (Ea : a = w + i) by lia. assert (Hi : 0 <= i < s) by lia. clearbody i. subst a.
  destruct (decide (w ∈ masked_registers)) as [Hr|Hr]; [apply mask_within_bit; [by apply registers_within|lia..|done]|].
  assert (Hreg : ~ (w < 64 \/ 80 <= w < 96)) by (intros H; by rewrite mask_of_other in Hb).
  assert (Ew : writable (w + i) = 255); [|rewrite Ew; by apply byte_bits]. unfold writable.
  replace (w + i <? 64) with false by lia.
  destruct (Z.ltb_spec (w + i) 80); [done|]. replace (w + i <? 96) with false; [done|].
  symmetry. apply Z.ltb_ge. destruct Hs as [->|[->| ->]]; lia.
Qed.

(** What happens to the page: the host writes, Linux ends the scan of the bus with
    MSI-X turned off, and the emulator signals interrupts. *)
Inductive config_run (base_pa : Z) : list access -> pci_device -> Prop :=
| run_init : config_run base_pa [] (NVMEV_PCI_INIT base_pa)
| run_write l p devfn x r p' :
    config_run base_pa l p -> access_ok x ->
    nvmev_pci_write devfn (ac_where x) (ac_size x) (ac_val x) p = Done r p' -> config_run base_pa (l ++ [x]) p'
| run_scanned l p :
    config_run base_pa l p -> pv_msix_enabled p = None -> bit (pv_virtDev p) 83 7 = false ->
    config_run base_pa l (set_msix_enabled false p)
| run_irq l p b p' : config_run base_pa l p -> nvmev_signal_irq p = Done b p' -> config_run base_pa l p'.

(** No access touches the byte. *)
Definition untouched (l : list access) (a : Z) : Prop :=
  Forall (fun x => ~ in_range (ac_where x, ac_size x) a) l.

Record config_inv (base_pa : Z) (l : list access) (p : pci_device) : Prop := {
  ci_bytes : page_bytes (pv_virtDev p);
  ci_fixed a j : 0 <= j < 8 -> Z.testbit (writable a) j = false ->
    bit (pv_virtDev p) a j = bit (pv_virtDev (NVMEV_PCI_INIT base_pa)) a j;
  ci_untouched a j : 0 <= j < 8 -> a <> 6 -> untouched l a ->
    bit (pv_virtDev p) a j = bit (pv_virtDev (NVMEV_PCI_INIT base_pa)) a j;
  ci_intx : pv_intx_disabled p = bit (pv_virtDev p) 5 2;
  ci_msix b : pv_msix_enabled p = Some b -> b = bit (pv_virtDev p) 83 7
}.

Lemma init_inv base_pa : config_inv base_pa [] (NVMEV_PCI_INIT base_pa).
Proof.
  destruct (init_agree base_pa) as (Hb & _ & Ha). split; [done|done|done| |done].
  symmetry. rewrite Ha by done. by vm_compute.
Qed.

Lemma not_written x a j : ~ in_range (ac_where x, ac_size x) a -> written x a j = false.
Proof. unfold in_range, written, in_mask. simpl. intros H. apply andb_false_iff. left. lia. Qed.

Lemma writable_is a j : is_bit a j = true -> Z.testbit (writable a) j = true.
Proof. unfold is_bit. intros [->%Z.eqb_eq ->%Z.eqb_eq]%andb_true_iff. done. Qed.

(** The two flags the emulator keeps a copy of: byte [w + 1], bit [j] of the register at [w]. *)
Definition copied_flag (w j : Z) : Prop := w = 4 /\ j = 2 \/ w = 82 /\ j = 7.

Lemma flag_elsewhere x w j : access_ok x -> copied_flag w j -> ac_where x <> w -> written x (w + 1) j = false.
Proof.
  intros (Hs & Hw & Hm & _) Hf Hne. unfold written, in_mask. apply not_true_iff_false. intros H.
  apply andb_true_iff in H as [Ha Hb]. pose proof (Z.div_mod (ac_where x) (ac_size x)) as Hd.
  assert (E : ac_where x = w + 1 \/ ac_where x = 80) by
    (destruct Hf as [[-> ->]|[-> ->]], Hs as [E|[E|E]]; rewrite E in *; lia).
  destruct E as [E|E]; rewrite E in Hb; by destruct Hf as [[-> ->]|[-> ->]].
Qed.

Lemma flag_beyond x w j p : access_ok x -> copied_flag w j -> page_bytes p -> ac_size x = 1 ->
  Z.testbit (word_at p w (ac_size x)) (8 + j) = false /\ Z.testbit (ac_val x) (8 + j) = false.
Proof.
  intros (_ & _ & _ & Hv) Hf Hp Es. rewrite Es in *. assert (Hj : 0 <= j < 8) by (unfold copied_flag in Hf; lia).
  assert (Hsmall : forall y, 0 <= y < 2 ^ 8 -> Z.testbit y (8 + j) = false).
  { intros y Hy. rewrite <- (Z.mod_small y (2 ^ 8)) by done. apply Z.mod_pow2_bits_high. lia. }
  split; [|by apply Hsmall]. apply Hsmall. specialize (Hp w). change (word_at p w 1) with (mem_get p (w + 0) + 256 * 0).
  rewrite !Z.add_0_r. lia.
Qed.

(** The copy follows the register. *)
Lemma flag_follows x w j m m' (flag flag' : bool) :
  access_ok x -> copied_flag w j -> page_bytes m ->
  bit m' (w + 1) j = (if written x (w + 1) j then Z.testbit (ac_val x) (8 * (w + 1 - ac_where x) + j) else bit m (w + 1) j) ->
  flag = bit m (w + 1) j ->
  (let v := word_at m (ac_where x) (ac_size x) in
   flag' = if (ac_where x =? w) && xorb (Z.testbit v (8 + j)) (Z.testbit (ac_val x) (8 + j))
           then Z.testbit (ac_val x) (8 + j) else flag) ->
  flag' = bit m' (w + 1) j.
Proof.
  intros Hx Hf Hm Hbit -> ->. rewrite Hbit. destruct (Z.eqb_spec (ac_where x) w) as [E|Hne].
  2: { by rewrite flag_elsewhere. }
  rewrite E. pose proof Hx as (Hs & _). destruct (decide (ac_size x = 1)) as [E1|N1].
  - destruct (flag_beyond x w j m Hx Hf Hm E1) as [-> ->]. simpl. rewrite not_written; [done|].
    unfold in_range. rewrite E, E1. simpl. lia.
  - assert (Hj : 0 <= j < 8) by (unfold copied_flag in Hf; lia).
    change (8 + j) with (8 * 1 + j). rewrite testbit_word_at by (done || lia).
    assert (Hw : written x (w + 1) j = true).
    { unfold written, in_mask. rewrite E. replace (w + 1 - w) with 1 by lia.
      apply andb_true_iff. split; [lia|]. by destruct Hf as [[-> ->]|[-> ->]]. }
    rewrite Hw. replace (w + 1 - w) with 1 by lia.
    by destruct (bit m (w + 1) j), (Z.testbit (ac_val x) (8 * 1 + j)).
Qed.

Lemma write_inv base_pa l p devfn x : access_ok x -> config_inv base_pa l p ->
  wp never (nvmev_pci_write devfn (ac_where x) (ac_size x) (ac_val x)) (fun r p' =>
    r = 0 /\ config_inv base_pa (l ++ [x]) p') p.
Proof.
  intros Hx [Hb Hf Hu Hi Hm]. eapply wp_mono; [by apply wp_pci_write|].
  intros r p' (-> & Hb' & Hbit & Hi' & Hm'). split; [done|]. split; [done|..].
  - intros a j Hj Hw. assert (His : is_bit a j = false).
    { apply not_true_iff_false. intros H%writable_is. congruence. }
    rewrite Hbit by done. destruct (written x a j) eqn:E; [|by apply Hf].
    apply written_writable in E; [congruence|done|done].
  - intros a j Hj Ha Hl. apply Forall_app in Hl as [Hl [Hlx _]%Forall_cons].
    assert (is_bit a j = false) by (unfold is_bit; lia).
    rewrite Hbit by done. rewrite not_written by exact Hlx. by apply Hu.
  - apply (flag_follows x 4 2 (pv_virtDev p) _ (pv_intx_disabled p)); try done; [by left|by apply Hbit].
  - intros b Eb. destruct (pv_msix_enabled p) as [b0|] eqn:E0.
    + apply (flag_follows x 82 7 (pv_virtDev p) _ b0); try done; [by right|by apply Hbit|by apply Hm|].
      cbv zeta. rewrite Eb in Hm'. cbn [fmap option_fmap option_map] in Hm'.
      change (8 + 7) with 15. revert Hm'. destruct ((ac_where x =? 82) && _); congruence.
    + rewrite Eb in Hm'. revert Hm'. by destruct ((ac_where x =? 82) && _).
Qed.

Lemma run_inv base_pa l p : config_run base_pa l p -> config_inv base_pa l p.
Proof.
  induction 1 as [|l p devfn x r p' _ IH Hx Hd|l p _ IH Hn Hbit|l p b p' _ IH Hd].
  - apply init_inv.
  - destruct (wp_done _ _ _ (write_inv _ _ _ devfn x Hx IH)) as (r' & p2 & Hd' & _ & Hinv). congruence.
  - destruct IH as [Hb Hf Hu Hi Hm]. split; [done..|]. intros b [= <-]. done.
  - unfold nvmev_signal_irq, mbind, prog_bind in Hd. cbn -[assign] in Hd.
    destruct (pv_msix_enabled p) as [[]|] eqn:E; [by injection Hd as _ <-|injection Hd as _ <-|done].
    destruct IH as [Hb Hf Hu Hi Hm].
    split; cbn [pv_virtDev set_virtDev pv_intx_disabled pv_msix_enabled]; [by apply page_bytes_assign| | | |].
    + intros a j Hj Hw. rewrite bit_assign_is; [by apply Hf|done|done|].
      apply not_true_iff_false. intros H%writable_is. congruence.
    + intros a j Hj Ha Hl. rewrite bit_assign_is; [by apply Hu|done|done|]. unfold is_bit. lia.
    + by rewrite bit_assign_is.
    + intros b1 Hb1. rewrite bit_assign_is by done. by apply Hm.
Qed.

(** ** What the host finds *)

Lemma word_at_range m a n : page_bytes m -> 0 <= n -> 0 <= word_at m a n < 2 ^ (8 * n).
Proof.
  intros Hm Hn. replace n with (Z.of_nat (Z.to_nat n)) by lia. generalize (Z.to_nat n) as k.
  intros k. unfold word_at. clear n Hn. revert a. induction k as [|k IH]; intros a; [simpl; lia|].
  replace (Z.of_nat (S k)) with (1 + Z.of_nat k) by lia. rewrite mem_read_app by lia.
  change (mem_read m a 1) with [mem_get m (a + 0)]. cbn [app]. rewrite le_int_cons.
  replace (2 ^ (8 * (1 + Z.of_nat k))) with (256 * 2 ^ (8 * Z.of_nat k))
    by (change 256 with (2 ^ 8); rewrite <- Z.pow_add_r by lia; f_equal; lia).
  specialize (IH (a + 1)). specialize (Hm (a + 0)). lia.
Qed.

(** The low [k] bits of the word at [a] are neither writable nor part of the address. *)
Definition fixed_low (a k : Z) : bool :=
  forallb (fun n => negb (Z.testbit (writable (a + n / 8)) (n mod 8)) && negb (bar_bits (a + n / 8) (n mod 8))) (seqZ 0 k).

Lemma fixed_word base_pa l p a n k : config_inv base_pa l p -> fixed_low a k = true -> 0 <= k <= 8 * n ->
  word_at (pv_virtDev p) a n mod 2 ^ k = word_at (pv_virtDev (NVMEV_PCI_INIT 0)) a n mod 2 ^ k.
Proof.
  intros [Hb Hf _ _ _] Hl Hk. destruct (init_agree base_pa) as (_ & H0 & Ha).
  apply Z.bits_inj'. intros i Hi. rewrite !Z.testbit_mod_pow2 by lia.
  destruct (Z.ltb_spec i k) as [Hlt|]; [|done]. cbn [andb]. unfold fixed_low in Hl. rewrite forallb_forall in Hl.
  specialize (Hl i). rewrite andb_true_iff, !negb_true_iff in Hl.
  destruct Hl as [Hw Hbar]; [apply list_elem_of_In, elem_of_seqZ; lia|].
  pose proof (Z.mod_pos_bound i 8). pose proof (Z.div_mod i 8).
  replace i with (8 * (i / 8) + i mod 8) at 1 2 by lia.
  rewrite !testbit_word_at by (done || lia). rewrite Hf by (done || lia). apply Ha; [lia|done].
Qed.

Lemma fixed_full base_pa l p a n : config_inv base_pa l p -> fixed_low a (8 * n) = true -> 0 <= n ->
  word_at (pv_virtDev p) a n = word_at (pv_virtDev (NVMEV_PCI_INIT 0)) a n.
Proof.
  intros Hinv Hl Hn. pose proof (fixed_word _ _ _ _ n _ Hinv Hl ltac:(lia)) as H.
  destruct Hinv as [Hb _ _ _ _]. destruct (init_agree 0) as (H0 & _).
  by rewrite !Z.mod_small in H by (by apply word_at_range).
Qed.

Lemma untouched_word base_pa l p a n : config_inv base_pa l p -> 
  (forall x, a <= x < a + n -> untouched l x /\ x <> 6) ->
  word_at (pv_virtDev p) a n = word_at (pv_virtDev (NVMEV_PCI_INIT base_pa)) a n.
Proof.
  intros [Hb _ Hu _ _] H. unfold word_at. f_equal. apply mem_read_ext. intros x Hx. destruct (H x Hx) as [Hl H6].
  apply byte_eq; [done|apply init_agree|]. intros j Hj. by apply Hu.
Qed.

(** The capabilities as the host finds them: from the pointer in the header along the
    links, each with its place and its number. *)
Fixpoint walk_capabilities (fuel : nat) (m : memory) (a : Z) : list (Z * Z) :=
  match fuel with
  | O => []
  | S fuel' => if a =? 0 then [] else (a, mem_get m a) :: walk_capabilities fuel' m (mem_get m (a + 1))
  end.

Definition capabilities (m : memory) : list (Z * Z) := walk_capabilities 48 m (mem_get m 52).

(** The address in the base address register. *)
Definition bar_address (m : memory) : Z := Z.ldiff (word_at m 16 4) 15 + 2 ^ 32 * word_at m 20 4.

(** The host asks for the size of the registers: it writes ones and reads them back. *)
Definition probe_bar : pprog (Z * Z) :=
  _ ← nvmev_pci_write 0 PCI_BASE_ADDRESS_0 4 (Z.ones 32);
  nvmev_pci_read 0 PCI_BASE_ADDRESS_0 4 0.

Lemma mem_get_word m a : mem_get m a = word_at m a 1.
Proof. change (word_at m a 1) with (mem_get m (a + 0) + 256 * 0). by rewrite !Z.add_0_r. Qed.

(** The links between the capabilities. *)
Definition capability_links (m : memory) : Prop :=
  mem_get m 52 = 64 /\ mem_get m 64 = PCI_CAP_ID_PM /\ mem_get m 65 = 80 /\
  mem_get m 80 = PCI_CAP_ID_MSIX /\ mem_get m 81 = 96 /\ mem_get m 96 = PCI_CAP_ID_EXP /\ mem_get m 97 = 0.

Lemma walk_step fuel m a : a <> 0 ->
  walk_capabilities (S fuel) m a = (a, mem_get m a) :: walk_capabilities fuel m (mem_get m (a + 1)).
Proof. intros H. cbn [walk_capabilities]. by replace (a =? 0) with false by bool_lia. Qed.

Lemma walk_links m : capability_links m ->
  capabilities m = [(64, PCI_CAP_ID_PM); (80, PCI_CAP_ID_MSIX); (96, PCI_CAP_ID_EXP)].
Proof.
  intros (E52 & E64 & E65 & E80 & E81 & E96 & E97). unfold capabilities. rewrite E52.
  rewrite walk_step by done. change (64 + 1) with 65. rewrite E64, E65.
  rewrite walk_step by done. change (80 + 1) with 81. rewrite E80, E81.
  rewrite walk_step by done. change (96 + 1) with 97. by rewrite E96, E97.
Qed.

Definition link_bytes : list Z := [52; 64; 65; 80; 81; 96; 97].

Lemma links_kept m m0 : capability_links m0 -> (forall a, a ∈ link_bytes -> mem_get m a = mem_get m0 a) ->
  capability_links m.
Proof. unfold capability_links, link_bytes. intros H E. rewrite !E by set_solver. exact H. Qed.

Lemma link_bits a j : a ∈ link_bytes -> a <> 6 /\ bar_bits a j = false /\
  (a ∉ [64; 65; 96; 97] -> Z.testbit (writable a) j = false).
Proof.
  unfold link_bytes. rewrite !elem_of_cons, elem_of_nil. intros Ha.
  destruct Ha as [->|[->|[->|[->|[->|[->|[->|[]]]]]]]]; (split; [done|split; [done|]]); intros Hn;
    first [apply Z.bits_0 | exfalso; apply Hn; apply (bool_decide_unpack _); vm_compute; exact I].
Qed.

Lemma init_links : capability_links (pv_virtDev (NVMEV_PCI_INIT 0)).
Proof. vm_compute. by repeat split. Qed.

Lemma capabilities_kept base_pa l p : config_inv base_pa l p ->
  Forall (untouched l) [64; 65; 96; 97] ->
  capabilities (pv_virtDev p) = [(64, PCI_CAP_ID_PM); (80, PCI_CAP_ID_MSIX); (96, PCI_CAP_ID_EXP)].
Proof.
  intros Hinv Hu. destruct (init_agree base_pa) as (_ & H0 & Ha).
  apply walk_links, (links_kept _ _ init_links). intros a Hin.
  apply byte_eq; [apply Hinv|exact H0|]. intros j Hj. rewrite <- Ha by (done || by eapply link_bits).
  destruct (decide (a ∈ [64; 65; 96; 97])) as [Hc|Hc].
  - rewrite Forall_forall in Hu. apply (ci_untouched _ _ _ Hinv); [done|by intros ->; apply link_bits in Hin|by apply Hu].
  - apply (ci_fixed _ _ _ Hinv); [done|]. by eapply link_bits.
Qed.

Lemma fixed_addr base_pa l p : config_inv base_pa l p ->
  word_at (pv_virtDev p) 20 4 = word_at (pv_virtDev (NVMEV_PCI_INIT base_pa)) 20 4.
Proof.
  intros [Hb Hf _ _ _]. unfold word_at. f_equal. apply mem_read_ext. intros x Hx.
  apply byte_eq; [done|apply init_agree|]. intros j Hj. apply Hf; [done|].
  assert (E : x = 20 \/ x = 21 \/ x = 22 \/ x = 23) by lia.
  destruct E as [->|[->|[->| ->]]]; apply Z.bits_0.
Qed.

Lemma address_bits x : Z.ldiff (Z.lor 4 (Z.ldiff x (Z.ones 14))) 15 = Z.ldiff x (Z.ones 14).
Proof.
  apply Z.bits_inj'. intros n Hn. change 15 with (Z.ones 4).
  rewrite !Z.ldiff_spec, Z.lor_spec, Z.ldiff_spec.
  destruct (Z.lt_ge_cases n 4) as [H|H].
  - rewrite !Z.ones_spec_low by lia. by rewrite !andb_false_r.
  - rewrite (Z.ones_spec_high 4), (Z.bits_above_log2 4 n) by (simpl; lia). by rewrite andb_true_r.
Qed.

Lemma ldiff_ones_sub x k : 0 <= k -> Z.ldiff x (Z.ones k) = x - x mod 2 ^ k.
Proof.
  intros Hk. rewrite Z.ldiff_ones_r, Z.shiftl_mul_pow2, Z.shiftr_div_pow2 by done.
  pose proof (Z.div_mod x (2 ^ k)). pose proof (Z.pow_pos_nonneg 2 k). lia.
Qed.

Lemma bar_kept base_pa l p : 0 <= base_pa < 2 ^ 64 -> config_inv base_pa l p ->
  Forall (untouched l) (seqZ 16 4) -> bar_address (pv_virtDev p) = base_pa - base_pa mod 2 ^ 14.
Proof.
  intros Hbase Hinv Hu. rewrite Forall_forall in Hu. destruct (init_bar base_pa Hbase) as [E16 E20]. unfold bar_address.
  rewrite (untouched_word _ _ _ 16 4 Hinv), E16
    by (intros x Hx; split; [apply Hu, elem_of_seqZ|]; lia).
  rewrite (fixed_addr _ _ _ Hinv), E20.
  rewrite address_bits, ldiff_ones_sub by done.
  replace (base_pa mod 2 ^ 32 mod 2 ^ 14) with (base_pa mod 2 ^ 14).
  - pose proof (Z.div_mod base_pa (2 ^ 32)). lia.
  - change (2 ^ 32) with (2 ^ 14 * 2 ^ 18). rewrite Z.rem_mul_r by lia.
    by rewrite (Z.mul_comm (2 ^ 14)), Z.mod_add, Z.mod_mod by lia.
Qed.

Lemma init_bar_low : word_at (pv_virtDev (NVMEV_PCI_INIT 0)) 16 4 mod 2 ^ 14 = 4.
Proof. by vm_compute. Qed.

Lemma probed_word m m' : page_bytes m -> page_bytes m' -> word_at m 16 4 mod 2 ^ 14 = 4 ->
  (forall a j, 16 <= a < 20 -> 0 <= j < 8 -> bit m' a j =
     if Z.testbit (field_bits mlbar_ba) (8 * (a - 16) + j) then Z.testbit (Z.ones 32) (8 * (a - 16) + j)
     else bit m a j) ->
  word_at m' 16 4 = Z.lor 4 (field_bits mlbar_ba).
Proof.
  intros Hm Hm' Hlow H. apply Z.bits_inj'. intros n Hn. rewrite Z.lor_spec, testbit_field_bits by (simpl; lia).
  cbn [bf_shift bf_width mlbar_ba]. destruct (Z.lt_ge_cases n 32) as [Hlt|Hge].
  - pose proof (Z.mod_pos_bound n 8). pose proof (Z.div_mod n 8) as Hd.
    replace n with (8 * (n / 8) + n mod 8) at 1 by lia. rewrite testbit_word_at by (done || lia).
    rewrite H by lia. replace (8 * (16 + n / 8 - 16) + n mod 8) with n by lia.
    rewrite testbit_field_bits, Z.ones_spec_low by (simpl; lia). cbn [bf_shift bf_width mlbar_ba].
    rewrite <- testbit_word_at with (n := 4) by (done || lia). rewrite <- Hd by done.
    destruct (Z.leb_spec 14 n) as [H14|H14].
    + replace (n <? 14 + 18) with true by lia. by rewrite orb_true_r.
    + rewrite orb_false_r. rewrite <- (Z.mod_pow2_bits_low _ 14 n), Hlow by lia. done.
  - rewrite <- (Z.mod_small (word_at m' 16 4) (2 ^ (8 * 4))) by (by apply word_at_range).
    rewrite Z.mod_pow2_bits_high by lia. rewrite (Z.bits_above_log2 4 n) by (simpl; lia). lia.
Qed.

Lemma wp_probe_bar base_pa l p : config_inv base_pa l p -> wp never probe_bar (fun r _ => r = (0, 0xFFFFC004)) p.
Proof.
  intros Hinv. pose proof (fixed_word _ _ _ 16 4 14 Hinv eq_refl ltac:(lia)) as Hlow. rewrite init_bar_low in Hlow.
  pose proof (ci_bytes _ _ _ Hinv) as Hp. unfold probe_bar. apply wp_bind.
  eapply wp_mono; [apply (wp_pci_write 0 (Access 16 4 (Z.ones 32))); [|done]|].
  { split; [by right; right|]. done. }
  intros r p' (-> & Hb & Hbit & _). cbn [ac_where ac_size ac_val] in *. 
  eapply wp_of_done; [reflexivity|]. f_equal. rewrite app_nil_r.
  apply (probed_word (pv_virtDev p)); [done|done|done|].
  intros a j Ha Hj. rewrite Hbit; [|done|unfold is_bit; lia]. unfold written, in_mask. cbn [ac_where ac_size].
  by replace ((16 <=? a) && (a <? 16 + 4)) with true by lia.
Qed.

Lemma init_words : let m := pv_virtDev (NVMEV_PCI_INIT 0) in
  word_at m 0 2 = NVMEV_VENDOR_ID /\ word_at m 2 2 = NVMEV_DEVICE_ID /\ word_at m 9 3 = 0x010802 /\
  word_at m 82 2 mod 2 ^ 11 = 127 /\ word_at m 84 4 = 8192.
Proof. vm_compute. by repeat split. Qed.


(** ** Samples *)

Module PciSample.

Definition reserved : Z := 0x100000000.

(** The state after a program, or the one before if it does not end. *)
Definition after_write (x : access) (p : pci_device) : pci_device :=
  match nvmev_pci_write 0 (ac_where x) (ac_size x) (ac_val x) p with Done _ p' => p' | _ => p end.

(** The driver disables the interrupt line and enables bus mastering, which is ignored. *)
Definition command : access := Access 4 2 0x406.
Definition p1 : pci_device := after_write command (NVMEV_PCI_INIT reserved).

Lemma p1_run : config_run reserved [command] p1.
Proof.
  apply (run_write _ [] (NVMEV_PCI_INIT reserved) 0 command 0); [constructor| |].
  - split; [by right; left|]. done.
  - vm_compute. reflexivity.
Qed.


(** A pending interrupt is cleared when the host enables the line again with an access of
    two bytes, and comes back with one of four bytes. *)
Definition pending : pci_device :=
  match nvmev_signal_irq (after_write (Access 4 2 0x402) (set_msix_enabled false (after_write (Access 82 2 0) p1))) with
  | Done _ p => p | _ => p1 end.
Definition raised : pci_device := after_write (Access 4 2 0x402) pending.

Example word_access_clears : bit (pv_virtDev (after_write (Access 4 2 0x002) raised)) 6 3 = false.
Proof. vm_compute. reflexivity. Qed.

Example dword_access_restores : bit (pv_virtDev (after_write (Access 4 4 0x002) raised)) 6 3 = true.
Proof. vm_compute. reflexivity. Qed.

(** The array of pending bits is announced at offset 32768 of 16384 bytes of registers. *)
Example pending_array_outside : word_at (pv_virtDev (NVMEV_PCI_INIT reserved)) 88 4 = 32768.
Proof. vm_compute. reflexivity. Qed.

(** A read of another function is refused, a write to it reaches the device. *)
Example other_function_written :
  nvmev_pci_read 8 60 1 0 p1 = Done (1, 0) p1 /\
  match nvmev_pci_write 8 60 1 7 p1 with Done r p => mem_get (pv_virtDev p) 60 = 7 | _ => False end.
Proof. split; vm_compute; reflexivity. Qed.

End PciSample.
