(* ===== verification/Config.v ===== *)
(** * Configuration of the NVMe emulator (lib/nvmevirt/main.c)

    From the parameters of the module to [struct nvmev_config]: the checks, the place of
    the storage in the reserved memory, and the list of processors, a string of numbers
    with commas between them.  Characters are numbers, as in C.

    [e820__mapped_any] of the kernel, which says what a range of physical memory is used
    for, is a parameter. *)
From S2P Require Import Prelude FtlAlloc KvFtl IoSched Ssd.

(** ** Parameters and configuration *)

Record module_params := ModuleParams {
  mp_memmap_start : Z;
  mp_memmap_size : Z;
  mp_read_time : Z;
  mp_read_delay : Z;
  mp_read_trailing : Z;
  mp_write_time : Z;
  mp_write_delay : Z;
  mp_write_trailing : Z;
  mp_nr_io_units : Z;
  mp_io_unit_shift : Z;
  mp_cpus : option bytes           (** null if the parameter was not given *)
}.

(** [struct nvmev_config]; [cpu_nr_io_workers] up to [nr_io_workers]. *)
Record nvmev_config := NvmevConfig {
  cf_memmap_start : Z;
  cf_memmap_size : Z;
  cf_storage_start : Z;
  cf_storage_size : Z;
  cf_cpu_nr_dispatcher : Z;
  cf_nr_io_workers : Z;
  cf_cpu_nr_io_workers : list Z;
  cf_nr_io_units : Z;
  cf_io_unit_shift : Z;
  cf_read_delay : Z;
  cf_read_time : Z;
  cf_read_trailing : Z;
  cf_write_delay : Z;
  cf_write_time : Z;
  cf_write_trailing : Z
}.

Definition MAX_IO_WORKERS : Z := 32.

Inductive e820_type := E820_TYPE_RAM | E820_TYPE_RESERVED | E820_TYPE_RESERVED_KERN.

Section config.
Context (e820_mapped_any : Z -> Z -> e820_type -> bool).

(** ** Checks *)

Definition EINVAL : Z := 22.
Definition EPERM : Z := 1.

Definition validate_configs_arch (mp : module_params) : Z :=
  let resv_start_bytes := mp_memmap_start mp in
  let resv_end_bytes := u64 (u64 (resv_start_bytes + mp_memmap_size mp) - 1) in
  if e820_mapped_any resv_start_bytes resv_end_bytes E820_TYPE_RAM
     || e820_mapped_any resv_start_bytes resv_end_bytes E820_TYPE_RESERVED_KERN then - EPERM
  else if negb (e820_mapped_any resv_start_bytes resv_end_bytes E820_TYPE_RESERVED) then - EPERM
  else 0.

Definition validate_configs (mp : module_params) : Z :=
  if mp_memmap_start mp =? 0 then - EINVAL
  else if mp_memmap_size mp =? 0 then - EINVAL
  else if mp_memmap_size mp <=? MB 1 then - EINVAL
  else if negb (validate_configs_arch mp =? 0) then - EPERM
  else if (mp_nr_io_units mp =? 0) || (mp_io_unit_shift mp =? 0) then - EINVAL
  else if mp_read_time mp =? 0 then - EINVAL
  else if mp_write_time mp =? 0 then - EINVAL
  else 0.

(** ** The list of processors *)

Definition comma : Z := 44.
Definition minus : Z := 45.

(** The parts [strsep] cuts off, up to the last one. *)
Fixpoint strsep_all (s : bytes) : list bytes :=
  match s with
  | [] => [[]]
  | c :: s' =>
    let parts := strsep_all s' in
    if c =? comma then [] :: parts
    else match parts with [] => [[c]] | p :: parts' => (c :: p) :: parts' end
  end.

Definition is_digit (c : Z) : bool := (48 <=? c) && (c <=? 57).

(** The digits of a number in base 10, up to the first character that is none. *)
Fixpoint parse_digits (acc : Z) (s : bytes) : Z :=
  match s with
  | [] => acc
  | c :: s' => if is_digit c then parse_digits (u64 (acc * 10 + (c - 48))) s' else acc
  end.

Definition simple_strtol (s : bytes) : Z :=
  match s with
  | c :: s' => if c =? minus then - parse_digits 0 s' else parse_digits 0 s
  | [] => 0
  end.

(** The loop over the parts: the first is the processor of the dispatcher. *)
Fixpoint load_cpus {St} (first : bool) (parts : list bytes) (dispatcher : Z) (workers : list Z) :
    prog St (Z * list Z) :=
  match parts with
  | [] => mret (dispatcher, workers)
  | p :: parts' =>
    let cpu_nr := u32 (simple_strtol p) in
    if first then load_cpus false parts' cpu_nr workers
    else if Z.of_nat (length workers) <? MAX_IO_WORKERS then load_cpus false parts' dispatcher (workers ++ [cpu_nr])
    else undefined
  end.

(** [__load_configs]; [kv] for the key-value prototype, which keeps its mapping table
    behind the storage. *)
Definition load_configs (kv : bool) (mp : module_params) : prog nvmev_config bool :=
  if validate_configs mp <? 0 then mret false
  else
    let memmap_size := if kv then u64 (mp_memmap_size mp - KV_MAPPING_TABLE_SIZE) else mp_memmap_size mp in
    '(dispatcher, workers) ←
      load_cpus true (match mp_cpus mp with None => [] | Some s => strsep_all s end) (u32 (-1)) [];
    _ ← put (NvmevConfig (mp_memmap_start mp) memmap_size
               (u64 (mp_memmap_start mp + MB 1)) (u64 (memmap_size - MB 1))
               dispatcher (Z.of_nat (length workers)) workers
               (mp_nr_io_units mp) (mp_io_unit_shift mp)
               (mp_read_delay mp) (mp_read_time mp) (mp_read_trailing mp)
               (mp_write_delay mp) (mp_write_time mp) (mp_write_trailing mp));
    mret true.
End config.

(** ** Round trip *)

(** A number in decimal. *)
Fixpoint decimal (fuel : nat) (n : Z) : bytes :=
  match fuel with
  | O => []
  | S fuel' => if n <? 10 then [48 + n] else decimal fuel' (n / 10) ++ [48 + n mod 10]
  end.

(** The numbers of a list with commas between them; 20 digits are enough for 64 bits. *)
Fixpoint cpu_string (cpus : list Z) : bytes :=
  match cpus with
  | [] => []
  | [n] => decimal 20 n
  | n :: cpus' => decimal 20 n ++ comma :: cpu_string cpus'
  end.

Lemma parse_app acc s s' : Forall (fun c => is_digit c = true) s ->
  parse_digits acc (s ++ s') = parse_digits (parse_digits acc s) s'.
Proof. intros H. revert acc. induction H as [|c s Hc _ IH]; intros acc; simpl; [done|]. rewrite Hc. apply IH. Qed.

Lemma decimal_digits fuel n : 0 <= n -> Forall (fun c => is_digit c = true) (decimal fuel n).
Proof.
  revert n. induction fuel as [|fuel IH]; intros n Hn; simpl; [done|].
  destruct (Z.ltb_spec n 10).
  - constructor; [|done]. unfold is_digit. lia.
  - pose proof (Z.mod_pos_bound n 10). apply Forall_app. split; [apply IH, Z.div_pos; lia|].
    constructor; [|done]. unfold is_digit. lia.
Qed.

Lemma parse_decimal fuel n : 0 <= n < 10 ^ Z.of_nat fuel -> n < 2 ^ 64 -> parse_digits 0 (decimal fuel n) = n.
Proof.
  revert n. induction fuel as [|fuel IH]; intros n Hn Hw; [change (10 ^ Z.of_nat 0) with 1 in Hn; simpl; lia|].
  simpl. destruct (Z.ltb_spec n 10) as [Hlt|Hge].
  - simpl. replace (is_digit (48 + n)) with true by (unfold is_digit; bool_lia).
    rewrite wrap_small by (unfold in_word; lia). lia.
  - rewrite parse_app by (apply decimal_digits, Z.div_pos; lia).
    pose proof (Z.mod_pos_bound n 10). pose proof (Z.div_mod n 10).
    assert (n / 10 < 10 ^ Z.of_nat fuel).
    { apply Z.div_lt_upper_bound; [lia|]. rewrite Nat2Z.inj_succ, Z.pow_succ_r in Hn by lia. lia. }
    rewrite IH by lia. simpl.
    replace (is_digit (48 + n mod 10)) with true by (unfold is_digit; bool_lia).
    rewrite wrap_small by (unfold in_word; lia). lia.
Qed.

Lemma decimal_nonempty fuel n : exists c s, decimal (S fuel) n = c :: s.
Proof. simpl. destruct (n <? 10); [by eexists _, _|]. destruct (decimal fuel (n / 10)); by eexists _, _. Qed.

Lemma strtol_decimal n : in_word 32 n -> u32 (simple_strtol (decimal 20 n)) = n.
Proof.
  intros Hn. pose proof Hn as Hr. unfold in_word in Hr. destruct (decimal_nonempty 19 n) as (c & s & E).
  pose proof (decimal_digits 20 n ltac:(lia)) as Hd. unfold simple_strtol. rewrite E in *.
  inversion_clear Hd as [|? ? Hc _]. replace (c =? minus) with false by (unfold is_digit, minus in *; bool_lia).
  rewrite <- E, parse_decimal by (simpl; lia). by apply wrap_small.
Qed.

Lemma strsep_digits s : Forall (fun c => is_digit c = true) s -> strsep_all s = [s].
Proof.
  induction 1 as [|c s Hc _ IH]; simpl; [done|]. rewrite IH.
  by replace (c =? comma) with false by (unfold is_digit, comma in *; bool_lia).
Qed.

Lemma strsep_digits_comma s s' : Forall (fun c => is_digit c = true) s ->
  strsep_all (s ++ comma :: s') = s :: strsep_all s'.
Proof.
  induction 1 as [|c s Hc _ IH]; [done|]. cbn [app strsep_all]. rewrite IH.
  by replace (c =? comma) with false by (unfold is_digit, comma in *; bool_lia).
Qed.

Lemma strsep_cpus cpus : cpus <> [] -> Forall (in_word 32) cpus -> strsep_all (cpu_string cpus) = decimal 20 <$> cpus.
Proof.
  intros Hne H. induction H as [|n cpus Hn _ IH]; [done|]. 
  assert (Hd : Forall (fun c => is_digit c = true) (decimal 20 n)) by (apply decimal_digits; unfold in_word in Hn; lia).
  destruct cpus as [|m cpus]; [by apply strsep_digits|].
  change (cpu_string (n :: m :: cpus)) with (decimal 20 n ++ comma :: cpu_string (m :: cpus)).
  rewrite strsep_digits_comma by done. by rewrite IH.
Qed.

Lemma load_cpus_workers {St} cpus dispatcher workers (s : St) : Forall (in_word 32) cpus ->
  Z.of_nat (length workers) + Z.of_nat (length cpus) <= MAX_IO_WORKERS ->
  load_cpus false (decimal 20 <$> cpus) dispatcher workers s = Done (dispatcher, workers ++ cpus) s.
Proof.
  intros H. revert workers. induction H as [|n cpus Hn _ IH]; intros workers Hl.
  - cbn [fmap list_fmap load_cpus]. by rewrite app_nil_r.
  - cbn [fmap list_fmap load_cpus length] in *. rewrite strtol_decimal by done.
    replace (_ <? MAX_IO_WORKERS) with true by bool_lia. rewrite IH by (rewrite length_app; simpl; lia).
    by rewrite <- app_assoc.
Qed.

(** The parameters the checks accept, with the reserved memory inside the address space. *)
Definition params_ok (e820 : Z -> Z -> e820_type -> bool) (kv : bool) (mp : module_params) : Prop :=
  validate_configs e820 mp = 0 /\ 0 <= mp_memmap_start mp /\ mp_memmap_start mp + mp_memmap_size mp < 2 ^ 64 /\
  (kv = true -> KV_MAPPING_TABLE_SIZE + MB 1 < mp_memmap_size mp).

Lemma validated_size e820 mp : validate_configs e820 mp = 0 -> MB 1 < mp_memmap_size mp.
Proof.
  unfold validate_configs. repeat (destruct (_ =? _); [done|]). by destruct (Z.leb_spec (mp_memmap_size mp) (MB 1)).
Qed.


(** ** Samples *)

Module ConfigSample.

(** All memory from 4 GiB on is reserved. *)
Definition e820 (start end_ : Z) (t : e820_type) : bool :=
  match t with
  | E820_TYPE_RAM => start <? 2 ^ 32
  | E820_TYPE_RESERVED => 2 ^ 32 <=? end_
  | E820_TYPE_RESERVED_KERN => false
  end.

Definition params (size : Z) (cpus : list Z) : module_params :=
  ModuleParams (2 ^ 32) size 1 1 0 1 1 0 8 12 (Some (cpu_string cpus)).

Definition zeroed : nvmev_config := NvmevConfig 0 0 0 0 0 0 [] 0 0 0 0 0 0 0 0.


(** A key-value device with less memory than its mapping table is accepted, and gets
    nearly the whole address space for storage. *)
Example kv_size_wraps :
  match load_configs e820 true (params (2 ^ 29) [0; 1]) zeroed with
  | Done ok c => ok = true /\ cf_storage_size c = 2 ^ 64 - 2 ^ 29 - 2 ^ 20
  | _ => False
  end.
Proof. vm_compute. by split. Qed.

(** The 33rd worker is stored behind the array. *)
Example too_many_workers : load_configs e820 false (params (2 ^ 34) (seqZ 0 34)) zeroed = Undef.
Proof. vm_compute. reflexivity. Qed.

End ConfigSample.
