(* ===== verification/Device.v ===== *)
(** * A whole device of the NVMe emulator: a namespace behind queues and workers

    The dispatcher hands the commands of the submission queues to a namespace, what it
    answers goes to the work queues, and the workers move data, post completions and give
    buffer space back.  The theorem needs of the namespace only what
    [NamespaceLaws] says; [Drive] has the namespaces that keep these laws. *)
From S2P Require Import Prelude IoQueue IoQueueSpec IoQueueOps IoWorker IoQueueProps IoRing IoRingProps IoCopy IoDevice IoDeviceProps.

(** ** What a worker leaves of the device *)

Section worker.
Context {E : Type} `{WorkerEnv E} (P : E -> Prop).
Context (Hperform : forall w e r e', P e -> perform_io w e = Some (r, e') -> P e').
Context (Hpost : forall w e e', P e -> post_completion w e = Some e' -> P e').
Context (Hrelease : forall b n e e', P e -> release_buffer b n e = Some e' -> P e').

Lemma worker_step_env pc now s e pc' s' e' : P e -> worker_step pc now (s, e) = Done pc' (s', e') -> P e'.
Proof.
  intros He. destruct pc as [|c|c t|c]; unfold worker_step; intros (x & [s1 e1] & Hm & [= <- <- <-])%bind_done.
  - by apply on_worker_done in Hm as [_ ->].
  - unfold visit_copy in Hm. apply bind_done in Hm as ([] & [s2 e2] & [_ ->]%on_worker_done & Hm).
    apply bind_done in Hm as (w & [s3 e3] & [_ ->]%on_worker_done & Hm).
    destruct (w_is_completed w); [by injection Hm as <- <- <-|].
    apply bind_done in Hm as ([] & [s4 e4] & Hc & [= <- <- <-]).
    destruct (w_is_copied w); [by injection Hc as <- <-|].
    apply bind_done in Hc as (r & [s5 e5] & Hr & [_ ->]%on_worker_done).
    destruct (w_is_internal w); [by injection Hr as <- <- <-|]. apply on_env_done in Hr as [Hr _]. eauto.
  - unfold visit_complete in Hm. apply bind_done in Hm as (w & [s2 e2] & [_ ->]%on_worker_done & Hm).
    destruct (w_nsecs_target w <=? t); [|by injection Hm as _ <- <-].
    apply bind_done in Hm as ([] & [s3 e3] & Hp & Hm). destruct x. apply on_worker_done in Hm as [_ ->].
    destruct (w_is_internal w); apply on_env_done_ in Hp as [Hp _]; eauto.
  - apply bind_done in Hm as (w & [s2 e2] & [_ ->]%on_worker_done & [= _ <- <-]). done.
Qed.
End worker.

(** ** What a namespace promises *)

(** The states a namespace may be in and the commands it takes: a command is processed
    and leads to such a state again, and so does a release of buffer space. *)
Class NamespaceLaws (F : Type) `{NsOps F} `{BufferOps F} (good : F -> Prop) (cmd_ok : nvme_command -> Prop) := {
  nl_proc f cmd sqid t : good f -> cmd_ok cmd ->
    exists ret ops f', proc_io_cmd (u32 (rw_nsid (cmd_rw cmd) - 1)) cmd sqid t f = Some (ret, ops, f') /\ good f';
  nl_release b n f f' : good f -> buffer_release b n f = Some f' -> good f'
}.

(** ** The device *)

(** The device with the memories, the places of its namespaces and of its workers. *)
Record device (F : Type) := Device {
  dr_dev : nvmev_dev F;
  dr_mem : io_memory;
  dr_ns : list (Z * Z);
  dr_places : list place
}.
Arguments Device {F}.
Arguments dr_dev {F}.
Arguments dr_mem {F}.
Arguments dr_ns {F}.
Arguments dr_places {F}.

(** The device as a worker sees it, and after a step of a worker. *)
Definition env_of {F} (y : device F) : block_env F :=
  BlockEnv (dv_sqes (dr_dev y)) (dv_cqes (dr_dev y)) (dr_mem y) (dr_ns y) (dv_ftl (dr_dev y)).

Definition with_env {F} (io : io_device) (e : block_env F) (d : nvmev_dev F) : nvmev_dev F :=
  NvmevDev io (be_sqes e) (be_cqes e) (dv_dbs d) (dv_old_dbs d) (dv_nr_sq d) (dv_nr_cq d) (dv_irqs d) (be_ftl e).

Section device.
Context {F : Type} `{NsOps F} `{BufferOps F}.
Context (nr_max nr_workers : Z) (pfn_valid : Z -> bool) (io_using_dma : bool).
Context (init good : F -> Prop) (cmd_ok : nvme_command -> Prop).

#[local] Instance device_env : WorkerEnv (block_env F) := block_worker_env pfn_valid io_using_dma.

(** A doorbell the host may ring: positions inside the ring, commands between them that
    are in order. *)
Definition doorbell_ok (sq : submission_queue) (new_db old_db : Z) : Prop :=
  0 <= old_db < sq_queue_size sq /\ 0 <= new_db < sq_queue_size sq /\
  Forall (fun e => exists cmd, slot (sq_slots sq) e = Some cmd /\ cmd_ok cmd)
    (ring_from (sq_queue_size sq) old_db (distance (sq_queue_size sq) old_db new_db)).

(** A step of the dispatcher, of a worker, or of anything else: the host fills slots and
    takes completions, queues are created, the admin queue is served. *)
Inductive device_step : device F -> device F -> Prop :=
| ring_doorbell y times sqid sq new_db old_db r d' :
    dv_sqes (dr_dev y) !! sqid = Some sq -> doorbell_ok sq new_db old_db ->
    nvmev_proc_io_sq nr_max nr_workers times sqid new_db old_db (dr_dev y) = Done r d' ->
    device_step y (Device d' (dr_mem y) (dr_ns y) (dr_places y))
| run_worker y i now s pc s' e' pc' :
    io_workers (dv_io (dr_dev y)) !! i = Some s -> dr_places y !! i = Some pc ->
    worker_step pc now (s, env_of y) = Done pc' (s', e') ->
    device_step y
      (Device (with_env (IoDevice (<[i := s']> (io_workers (dv_io (dr_dev y)))) (io_worker_turn (dv_io (dr_dev y)))) e' (dr_dev y))
         (be_mem e') (be_ns e') (<[i := pc']> (dr_places y)))
| run_rest y d' mem ns :
    dv_io d' = dv_io (dr_dev y) -> dv_ftl d' = dv_ftl (dr_dev y) ->
    device_step y (Device d' mem ns (dr_places y)).

(** The device after start-up, with any queues and memories. *)
Definition device_init (y : device F) : Prop :=
  dv_io (dr_dev y) = NVMEV_IO_WORKER_INIT nr_max nr_workers /\ init (dv_ftl (dr_dev y)) /\
  dr_places y = replicate (Z.to_nat nr_workers) PStart.

(** The requests and operations of the work queues, and the namespace. *)
Definition device_inv (d : nvmev_dev F) (pcs : list place) : Prop :=
  (exists tr e, system_ok nr_max nr_workers tr (IoSystem (E := block_env F) (dv_io d) e pcs)) /\
  good (dv_ftl d).

Context (Hmax : 1 < nr_max < NONE) (Hworkers : 0 < nr_workers).
Context `{!NamespaceLaws F good cmd_ok} (Hinit : forall f, init f -> good f).

(** ** The dispatcher *)

Lemma system_ok_env tr io e e' pcs :
  system_ok nr_max nr_workers tr (IoSystem (E := block_env F) io e pcs) ->
  system_ok nr_max nr_workers tr (IoSystem (E := block_env F) io e' pcs).
Proof. intros []. by split. Qed.

Lemma wp_submit d pcs sqid fill t tk (Q : bool -> nvmev_dev F -> Prop) :
  device_inv d pcs -> fills fill -> (forall w, w_nsecs_target (fill w) = t /\ ticket_of (fill w) = tk) ->
  (forall ok io', device_inv (set_io io' d) pcs -> Q ok (set_io io' d)) ->
  wp never (on_io (submit_work nr_max nr_workers sqid fill t)) Q d.
Proof.
  intros [(tr & e & Hok) Hr] Hf Ht HQ. apply wp_zoom.
  eapply wp_mono; [by apply (submit_work_ok nr_max nr_workers Hworkers tr _ e pcs sqid fill t tk)|].
  cbn beta. intros ok io' [Hok' _]. apply HQ. split; [by eexists _, _|done].
Qed.

Lemma wp_schedule_all ops now d pcs (Q : unit -> nvmev_dev F -> Prop) :
  device_inv d pcs -> (forall io', device_inv (set_io io' d) pcs -> Q tt (set_io io' d)) ->
  wp never (schedule_all nr_max nr_workers ops now) Q d.
Proof.
  revert d. induction ops as [|op ops IH]; intros d Hd HQ; cbn [schedule_all for_each].
  - apply wp_ret. specialize (HQ (dv_io d)). destruct d. by apply HQ.
  - apply wp_bind, wp_bind. apply (wp_submit d pcs _ _ _ (internal_ticket op)); [done|apply fills_internal|done|].
    intros ok io' Hd'. apply wp_ret. apply IH; [done|]. intros io2 H2. by apply HQ.
Qed.

Lemma wp_reclaim d pcs (Q : unit -> nvmev_dev F -> Prop) :
  device_inv d pcs -> (forall io', device_inv (set_io io' d) pcs -> Q tt (set_io io' d)) ->
  wp never (on_io (reclaim_completed_reqs nr_workers)) Q d.
Proof.
  intros [(tr & e & Hok) Hr] HQ. apply wp_zoom. unfold reclaim_completed_reqs.
  eapply wp_mono; [apply (wp_for_each never (fun l io => Forall (fun x => 0 <= x < nr_workers) l /\
      system_ok nr_max nr_workers tr (IoSystem (E := block_env F) io e pcs)))|].
  - split; [|done]. apply Forall_forall. intros x Hx%elem_of_seqZ. lia.
  - intros x l io [Hx Hio]. inversion_clear Hx as [|? ? Hx0 Hl].
    pose proof (so_workers _ _ _ _ Hio) as HLw. pose proof (so_places _ _ _ _ Hio) as HLp. simpl in *.
    destruct (lookup_lt_is_Some_2 (io_workers io) (Z.to_nat x)) as [s Hs]; [lia|].
    destruct (lookup_lt_is_Some_2 pcs (Z.to_nat x)) as [pc Hpc]; [lia|].
    rewrite <- (Z2Nat.id x) by lia. eapply wp_mono; [by eapply reclaim_ok|]. done.
  - cbn beta. intros [] io' [_ Hio]. apply HQ. split; [by eexists _, _|done].
Qed.

Lemma wp_proc_io d pcs sqid sq e t now cmd :
  device_inv d pcs -> dv_sqes d !! sqid = Some sq -> slot (sq_slots sq) e = Some cmd -> cmd_ok cmd ->
  wp never (nvmev_proc_io nr_max nr_workers sqid e t now) (fun _ d' =>
    device_inv d' pcs /\ dv_sqes d' = dv_sqes d) d.
Proof.
  intros [Hio Hr] Hsq He Hc. unfold nvmev_proc_io. apply wp_bind, wp_get. rewrite Hsq. apply wp_bind, wp_ret.
  rewrite He. apply wp_bind, wp_ret. destruct (nl_proc _ cmd sqid t Hr Hc) as (ret & ops & ns' & -> & Hr').
  apply wp_bind, wp_ret. apply wp_bind, wp_modify. apply wp_bind.
  apply (wp_schedule_all _ _ _ pcs); [by split|]. intros io1 H1. destruct ret as [ret|]; [|by apply wp_ret].
  apply wp_bind. set (rq := IoRequest _ _ _ _ _ _ _).
  apply (wp_submit _ pcs _ _ _ (request_ticket rq)); [done|apply fills_request|done|]. intros ok io2 H2.
  apply wp_bind. apply (wp_reclaim _ pcs); [done|]. intros io3 H3. by apply wp_ret.
Qed.

Lemma wp_mod_sq d pcs sqid sq st (f : submission_queue -> submission_queue) (Q : unit -> nvmev_dev F -> Prop) :
  device_inv d pcs -> dv_sqes d !! sqid = Some sq -> f sq = set_stat st sq ->
  (forall d', device_inv d' pcs -> dv_sqes d' !! sqid = Some (set_stat st sq) -> Q tt d') ->
  wp never (mod_sq sqid f) Q d.
Proof.
  intros Hd Hsq Hf HQ. unfold mod_sq. apply wp_bind, wp_get. rewrite Hsq. apply wp_bind, wp_ret.
  apply wp_modify, HQ; [done|]. simpl. by rewrite lookup_insert_eq, Hf.
Qed.

Lemma wp_sq_loop times sqid n d pcs sq seq e :
  device_inv d pcs -> dv_sqes d !! sqid = Some sq -> 0 <= e < sq_queue_size sq ->
  Forall (fun e => exists cmd, slot (sq_slots sq) e = Some cmd /\ cmd_ok cmd)
    (ring_from (sq_queue_size sq) e (Z.of_nat n)) ->
  wp never (sq_loop nr_max nr_workers n times sqid (sq_queue_size sq) seq e) (fun r d' =>
    seq <= r /\ device_inv d' pcs /\ exists st, dv_sqes d' !! sqid = Some (set_stat st sq)) d.
Proof.
  revert d sq seq e. induction n as [|n IH]; intros d sq seq e Hd Hsq He HF.
  { apply wp_ret. split; [done|]. split; [done|]. exists (sq_stat sq). rewrite Hsq. by destruct sq. }
  rewrite ring_from_cons in HF by lia. replace (Z.of_nat (S n) - 1) with (Z.of_nat n) in HF by lia.
  apply Forall_cons in HF as [(cmd & Hslot & Hc) HF]. cbn [sq_loop]. apply wp_bind.
  eapply wp_mono; [by apply (wp_proc_io d pcs sqid sq e _ _ cmd)|]. intros [io|] d1 [Hd1 Esq].
  2: { apply wp_ret. split; [done|]. split; [done|]. exists (sq_stat sq). rewrite Esq, Hsq. by destruct sq. }
  apply wp_bind. rewrite Hsq in Esq || (rewrite <- Esq in Hsq).
  eapply (wp_mod_sq d1 pcs sqid sq); [done|done|reflexivity|]. intros d2 Hd2 Hsq2.
  set (sq2 := set_stat _ sq) in *. change (sq_queue_size sq) with (sq_queue_size sq2) in *.
  eapply wp_mono; [apply (IH d2 sq2); [done|done| |exact HF]|].
  - destruct (Z.eqb_spec (e + 1) (sq_queue_size sq2)); lia.
  - cbn beta. intros r d3 (Hr & Hd3 & st & Hst3). split; [lia|]. split; [done|]. by exists st.
Qed.

Lemma wp_proc_io_sq d pcs times sqid sq new_db old_db :
  device_inv d pcs -> dv_sqes d !! sqid = Some sq -> doorbell_ok sq new_db old_db ->
  wp never (nvmev_proc_io_sq nr_max nr_workers times sqid new_db old_db) (fun r d' =>
    device_inv d' pcs /\ 0 <= r < sq_queue_size sq) d.
Proof.
  intros Hd Hsq (Ho & Hn & HF). unfold nvmev_proc_io_sq. apply wp_bind, wp_get. rewrite Hsq. apply wp_bind.
  change (if new_db - old_db <? 0 then _ else _) with (distance (sq_queue_size sq) old_db new_db).
  pose proof (distance_range (sq_queue_size sq) old_db new_db Ho Hn) as Hr.
  eapply wp_mono; [apply (wp_sq_loop times sqid _ d pcs sq); [done|done|done|by rewrite Z2Nat.id by lia]|].
  cbn beta. intros a d1 (Ha & Hd1 & st & Hsq1). apply wp_bind.
  eapply wp_mod_sq; [exact Hd1|exact Hsq1|reflexivity|]. intros d2 Hd2 _.
  replace (sq_queue_size sq =? 0) with false by bool_lia. apply wp_ret. split; [done|].
  rewrite Z.rem_mod_nonneg by lia. apply Z.mod_pos_bound. lia.
Qed.

(** ** Every step *)

Lemma worker_ftl pc now s e pc' s' e' : good (be_ftl e) ->
  worker_step pc now (s, e) = Done pc' (s', e') -> good (be_ftl e').
Proof.
  apply (worker_step_env (fun e => good (be_ftl e))).
  - intros w e1 r e2 He Hp. cbn [perform_io device_env block_worker_env] in Hp. unfold block_perform_io in Hp.
    apply bind_Some in Hp as (cmd & _ & Hp). destruct io_using_dma.
    + destruct (do_perform_io_using_dma _ _ _); by simplify_eq.
    + apply bind_Some in Hp as (base & _ & Hp). destruct (do_perform_io _ _ _ _); by simplify_eq.
  - intros w e1 e2 He (c & _ & [= <-])%bind_Some. done.
  - intros b n e1 e2 He (f & Hf & [= <-])%bind_Some. by eapply nl_release.
Qed.

Lemma device_step_inv y y' : device_inv (dr_dev y) (dr_places y) -> device_step y y' ->
  device_inv (dr_dev y') (dr_places y').
Proof.
  intros Hinv Hs. destruct Hs as [y times sqid sq new_db old_db r d' Hsq Hdb Hd
    |y i now s pc s' e' pc' Hi Hpc Hd|y d' mem ns Eio Eftl].
  - eapply wp_inv in Hd; [|by eapply wp_proc_io_sq]. apply Hd.
  - destruct Hinv as [(tr & e & Hok) Hr]. apply (system_ok_env _ _ _ (env_of y)) in Hok. split.
    + eexists _, e'. eapply (system_ok_step nr_max nr_workers Hmax Hworkers); [exact Hok|].
      by apply (step_worker nr_max nr_workers i now (dv_io (dr_dev y)) (env_of y)).
    + by eapply worker_ftl; [|exact Hd].
  - unfold device_inv in *. cbn [dr_dev dr_places]. by rewrite Eio, Eftl.
Qed.

Lemma device_reachable_inv y : reachable device_step device_init y -> device_inv (dr_dev y) (dr_places y).
Proof.
  apply (reachable_invariant _ _ (fun y => device_inv (dr_dev y) (dr_places y))); [|intros; by eapply device_step_inv].
  intros y0 (Eio & Eftl & Epc). split.
  - exists [], (env_of y0). rewrite Eio, Epc. by apply system_ok_init.
  - by apply Hinit.
Qed.

(** In every state that doorbells, workers and anything the host does to slots, memory
    and completions can lead to, the next doorbell is served without a fault, the
    namespace is in one of its states and the work queues are well formed. *)
Theorem device_never_faults y : reachable device_step device_init y ->
  (forall times sqid sq new_db old_db,
     dv_sqes (dr_dev y) !! sqid = Some sq -> doorbell_ok sq new_db old_db ->
     wp never (nvmev_proc_io_sq nr_max nr_workers times sqid new_db old_db)
       (fun r _ => 0 <= r < sq_queue_size sq) (dr_dev y)) /\
  good (dv_ftl (dr_dev y)) /\
  (forall i s, io_workers (dv_io (dr_dev y)) !! i = Some s -> well_formed nr_max s).
Proof.
  intros Hr%device_reachable_inv. split; [|split].
  - intros times sqid sq new_db old_db Hsq Hdb. eapply wp_mono; [by eapply wp_proc_io_sq|]. by intros r d' [_ ?].
  - apply Hr.
  - destruct Hr as [(tr & e & Hok) _]. intros i s Hs.
    destruct (lookup_lt_is_Some_2 (dr_places y) i) as [pc Hpc].
    { apply lookup_lt_Some in Hs. pose proof (so_workers _ _ _ _ Hok). pose proof (so_places _ _ _ _ Hok).
      simpl in *. lia. }
    destruct (so_ok _ _ _ _ Hok i s pc Hs Hpc) as (U & R & Q & HQ & _). by exists U, R, Q.
Qed.
End device.
