(* ===== verification/Drive.v ===== *)
(** * Drives of the NVMe emulator behind their queues

    The page-mapping translation layer and the simple devices as namespaces of a device
    ([Device]): whatever dispatcher, workers and host do to each other, the dispatcher
    never faults and the drive keeps all it promises on its own. *)
From S2P Require Import Prelude IoQueue IoWorker IoQueueProps IoSched IoRing IoRingProps IoCopy IoDevice Device.
From S2P Require Import KvFtl Ssd ConvFtl ConvFtlCmd ConvFtlProps.

(** ** Page mapping *)

(** [conv_proc_nvme_io_cmd] as the dispatcher calls it; [wall t] is the clock as a flush
    that started at [t] reads it again.  The releases of buffer space that the command
    schedules are those it adds to the list of the drive. *)
#[export] Instance conv_ns_ops (wall : Z -> Z) : NsOps conv_ns := {
  proc_io_cmd nsid cmd sqid nsecs_start ns :=
    let rw := cmd_rw cmd in
    if negb (nsid =? 0) then None else
    match conv_proc_nvme_io_cmd (wall nsecs_start) (rw_opcode rw)
            (RwRequest (rw_slba rw) (rw_length rw) (rw_control rw) sqid nsecs_start) ns with
    | Done ans ns' =>
      let ops := (fun r => InternalOp r.1.1 r.1.2 0 r.2) <$>
                   drop (length (sh_releases (ns_shared ns))) (sh_releases (ns_shared ns')) in
      let ret := match ans with
                 | NotTaken => None
                 | DoneAt t => Some (NvmevResult 0 t)
                 | NotImplemented => Some (NvmevResult 0 nsecs_start)
                 end in
      Some (ret, ops, ns')
    | _ => None
    end
}.

(** The write buffer of the drive, which its parts share. *)
#[export] Instance conv_buffer : BufferOps conv_ns := {
  IoDevice.buffer_release _ n ns :=
    match Ssd.buffer_release n (sh_wbuf (ns_shared ns)) with
    | Done true b => Some (ConvNs (ns_parts ns) (set_wbuf b (ns_shared ns)) (ns_size ns))
    | _ => None
    end
}.

(** The command is for the one namespace and lies inside it. *)
Definition conv_command_ok (ns0 : conv_ns) (cmd : nvme_command) : Prop :=
  let rw := cmd_rw cmd in
  rw_nsid rw = 1 /\ forall sqid t,
    request_ok ns0 (RwRequest (rw_slba rw) (rw_length rw) (rw_control rw) sqid t) = true.

Section conv.
Context (wall : Z -> Z) (cf : ssd_config) (op_area_pcent capacity : Z) (clock : nat -> Z) (spp : ssdparams) (ns0 : conv_ns).
Context (Hst : started cf op_area_pcent capacity clock spp ns0).

(** A command keeps the size of the drive, so commands that were in order still are. *)
Lemma request_kept ns rq : reachable conv_step (eq ns0) ns -> request_ok ns rq = request_ok ns0 rq.
Proof.
  intros Hr. destruct (history_inv _ _ _ _ _ _ Hst ns Hr) as [_ _ _ Hw Hs]. unfold request_ok. by rewrite Hw, Hs.
Qed.

Lemma conv_laws :
  NamespaceLaws (H := conv_ns_ops wall) conv_ns (reachable conv_step (eq ns0)) (conv_command_ok ns0).
Proof.
  split.
  - intros ns cmd sqid t Hr [Hn Hc].
    set (rq := RwRequest (rw_slba (cmd_rw cmd)) (rw_length (cmd_rw cmd)) (rw_control (cmd_rw cmd)) sqid t).
    assert (Hrq : request_ok ns rq = true) by (rewrite request_kept by done; apply Hc).
    pose proof (history_inv _ _ _ _ _ _ Hst ns Hr) as Hinv.
    destruct (wp_done _ _ _ (command_inv _ _ _ _ _ _ Hst (wall t) (rw_opcode (cmd_rw cmd)) rq ns Hinv Hrq))
      as (ans & ns' & E & _). cbn [proc_io_cmd conv_ns_ops]. rewrite Hn.
    change (u32 (1 - 1) =? 0) with true. cbn [negb]. unfold rq in E. rewrite E. eexists _, _, ns'. split; [done|].
    eapply reach_step; [exact Hr|]. by eapply step_command.
  - intros b n ns ns' Hr Hf. cbn [IoDevice.buffer_release conv_buffer] in Hf.
    destruct (Ssd.buffer_release n _) as [[] b'| |] eqn:Eb; [|done..]. injection Hf as <-.
    eapply reach_step; [exact Hr|by econstructor].
Qed.
End conv.

(** C5: A page-mapping drive behind its queues.  In every state that doorbells, workers
    and anything the host does to slots, memory and completions can lead to, the
    dispatcher serves the next doorbell without a fault, whatever the work queues and
    the write buffer hold, as long as the commands are inside the namespace; and what the
    drive went through is one of the histories of commands and buffer releases for which
    its mapping and its lines are shown to be sound. *)
Theorem drive_never_faults nr_max nr_workers pfn_valid dma wall cf op_area_pcent capacity clock spp ns0 y :
  1 < nr_max < NONE -> 0 < nr_workers -> started cf op_area_pcent capacity clock spp ns0 ->
  reachable (device_step (H := conv_ns_ops wall) nr_max nr_workers pfn_valid dma (conv_command_ok ns0))
    (device_init nr_max nr_workers (eq ns0)) y ->
  (forall times sqid sq new_db old_db,
     dv_sqes (dr_dev y) !! sqid = Some sq -> doorbell_ok (conv_command_ok ns0) sq new_db old_db ->
     wp never (nvmev_proc_io_sq (H := conv_ns_ops wall) nr_max nr_workers times sqid new_db old_db)
       (fun r _ => 0 <= r < sq_queue_size sq) (dr_dev y)) /\
  reachable conv_step (eq ns0) (dv_ftl (dr_dev y)) /\
  (forall i s, io_workers (dv_io (dr_dev y)) !! i = Some s -> well_formed nr_max s).
Proof.
  intros Hmax Hw Hst. pose proof (conv_laws wall _ _ _ _ _ _ Hst).
  apply (device_never_faults (H := conv_ns_ops wall) nr_max nr_workers pfn_valid dma (eq ns0)
    (reachable conv_step (eq ns0))); [done|done|done|]. intros ns <-. by apply reach_init.
Qed.

(** ** Simple devices *)

(** A simple device has no write buffer. *)
#[export] Instance simple_buffer : BufferOps (list Z) := { IoDevice.buffer_release _ _ stat := Some stat }.

Section simple.
Context (cfg : io_config) (wall : Z -> Z) (Hunits : 0 < nr_io_units cfg) (Hshift : IoSched.LBA_BITS <= io_unit_shift cfg).

Lemma wp_units_kept fuel tm size io_unit left length latest stat :
  0 < size -> 0 <= length -> length / size < Z.of_nat fuel ->
  Z.of_nat (List.length stat) = nr_io_units cfg -> 0 <= io_unit < nr_io_units cfg ->
  wp never (unit_loop cfg fuel tm size io_unit left length latest)
    (fun _ stat' => List.length stat' = List.length stat) stat.
Proof.
  intros Hs. revert io_unit left length latest stat.
  induction fuel as [|n IH]; intros io_unit left length latest stat Hl Hf Hst Hu.
  { pose proof (Z.div_pos length size). lia. }
  cbn [unit_loop]. apply wp_bind, wp_get. replace (Z.of_nat (List.length stat) <=? io_unit) with false by bool_lia.
  apply wp_bind, wp_put. destruct (Z.ltb_spec 0 (length - Z.min length size)); [|by apply wp_ret; rewrite length_insert].
  rewrite Z.min_r in * by lia. eapply wp_mono; [apply IH|].
  - lia.
  - replace length with (1 * size + (length - size)) in Hf by lia. rewrite Z.div_add_l in Hf by lia. lia.
  - by rewrite length_insert.
  - destruct (Z.leb_spec (nr_io_units cfg) (io_unit + 1)); lia.
  - intros ? stat' E. by rewrite E, length_insert.
Qed.

Lemma wp_schedule_units tm lba length start stat : 0 <= length -> Z.of_nat (List.length stat) = nr_io_units cfg ->
  wp never (schedule_units cfg tm lba length start) (fun _ stat' => List.length stat' = List.length stat) stat.
Proof.
  intros Hl Hst. unfold schedule_units.
  replace ((io_unit_shift cfg <? IoSched.LBA_BITS) || (nr_io_units cfg =? 0)) with false by lia.
  apply wp_bind, wp_get. set (io_unit := Z.shiftr _ _ mod _).
  pose proof (Z.mod_pos_bound (Z.shiftr lba (io_unit_shift cfg - IoSched.LBA_BITS)) (nr_io_units cfg) Hunits) as Hu. fold io_unit in Hu.
  destruct (lookup_lt_is_Some_2 stat (Z.to_nat io_unit)) as [x ->]; [lia|].
  assert (0 < Z.shiftl 1 (io_unit_shift cfg)).
  { rewrite Z.shiftl_mul_pow2 by (unfold IoSched.LBA_BITS in *; lia). pose proof (Z.pow_pos_nonneg 2 (io_unit_shift cfg)). unfold IoSched.LBA_BITS in *. lia. }
  pose proof (Z.div_pos length (Z.shiftl 1 (io_unit_shift cfg))). apply wp_units_kept; lia.
Qed.

Lemma wp_flush_loop n i latest stat : 0 <= i -> i + Z.of_nat n <= Z.of_nat (length stat) ->
  wp never (flush_loop n i latest) (fun _ stat' => stat' = stat) stat.
Proof.
  revert i latest. induction n as [|n IH]; intros i latest Hi Hn; [by apply wp_ret|].
  cbn [flush_loop]. apply wp_bind, wp_get. destruct (lookup_lt_is_Some_2 stat (Z.to_nat i)) as [x ->]; [lia|].
  apply IH; lia.
Qed.

Definition simple_command_ok (cmd : nvme_command) : Prop := rw_nsid (cmd_rw cmd) = 1.

Lemma simple_laws : NamespaceLaws (H := simple_ns cfg wall) (list Z)
  (fun stat => Z.of_nat (length stat) = nr_io_units cfg) simple_command_ok.
Proof.
  split; [|by intros b n stat stat' Hs [= <-]]. intros stat cmd sqid t Hs Hn.
  assert (Hwp : wp never (simple_proc_nvme_io_cmd cfg (rw_opcode (cmd_rw cmd)) (rw_slba (cmd_rw cmd))
     (rw_length (cmd_rw cmd)) (wall t)) (fun _ stat' => length stat' = length stat) stat).
  { unfold simple_proc_nvme_io_cmd. destruct (_ || _); [|destruct (_ =? _); [|by apply wp_ret]]; apply wp_bind.
    - unfold simple_schedule_io_units. eapply wp_mono; [apply wp_schedule_units; [|done]|].
      + apply wrap_in_word. lia.
      + intros t' stat' E. by apply wp_ret.
    - eapply wp_mono; [apply wp_flush_loop; lia|]. intros t' stat' ->. by apply wp_ret. }
  apply wp_done in Hwp as (r & stat' & E & Hlen). cbn [proc_io_cmd simple_ns]. rewrite Hn.
  change (u32 (1 - 1) =? 0) with true. cbn [negb]. rewrite E. eexists _, _, stat'. split; [done|]. lia.
Qed.

(** The same for a simple device with any configuration its checks accept: its commands
    need only name the namespace. *)
Theorem simple_device_never_faults nr_max nr_workers pfn_valid dma y :
  1 < nr_max < NONE -> 0 < nr_workers ->
  reachable (device_step (H := simple_ns cfg wall) nr_max nr_workers pfn_valid dma simple_command_ok)
    (device_init nr_max nr_workers (eq (replicate (Z.to_nat (nr_io_units cfg)) 0))) y ->
  (forall times sqid sq new_db old_db,
     dv_sqes (dr_dev y) !! sqid = Some sq -> doorbell_ok simple_command_ok sq new_db old_db ->
     wp never (nvmev_proc_io_sq (H := simple_ns cfg wall) nr_max nr_workers times sqid new_db old_db)
       (fun r _ => 0 <= r < sq_queue_size sq) (dr_dev y)) /\
  Z.of_nat (length (dv_ftl (dr_dev y))) = nr_io_units cfg /\
  (forall i s, io_workers (dv_io (dr_dev y)) !! i = Some s -> well_formed nr_max s).
Proof.
  intros Hmax Hw. pose proof simple_laws.
  apply (device_never_faults (H := simple_ns cfg wall) nr_max nr_workers pfn_valid dma (eq _)
    (fun stat => Z.of_nat (length stat) = nr_io_units cfg)); [done|done|done|].
  intros stat <-. rewrite length_replicate. lia.
Qed.
End simple.

(** ** Samples *)

Module DriveSample.
Import ConvFtlProps.Sample.

(** Writes of the pages 0 to 3, in a ring of four slots. *)
Definition write_page (lpn : Z) : nvme_command :=
  NvmeCommand (RwCommand nvme_cmd_write lpn 1 4096 0 (8 * lpn) 7 0) (KvCmd 0 [] 0 0 0 0 0 0 0 0 0).
Definition ring : submission_queue := SubmissionQueue 1 1 4 (SqStat 0 0 0 0 0) (write_page <$> [0; 1; 2; 3]).

Definition y0 (ns : conv_ns) : device conv_ns :=
  Device (NvmevDev (NVMEV_IO_WORKER_INIT 8 1) {[1 := ring]} ∅ ∅ ∅ 1 0 [] ns) (IoMemory ∅ ∅ capacity) [(0, ns_size ns)] [PStart].

Definition times (seq : Z) : Z * Z := (1000 + seq, 5).

Definition rung (ns : conv_ns) : outcome (nvmev_dev conv_ns) Z :=
  nvmev_proc_io_sq (H := conv_ns_ops (fun t => t)) 8 1 times 1 3 0 (dr_dev (y0 ns)).

(** Three writes are served; the work queue holds them and the release of a part of the
    write buffer. *)
Definition served_writes (ns : conv_ns) : bool :=
  forallb (fun lpn => request_ok ns (RwRequest (8 * lpn) 7 0 0 0)) [0; 1; 2; 3] &&
  match rung ns with
  | Done r d => (r =? 3) && forallb (fun s => (3 <? Z.of_nat (length (jobs s)))) (io_workers (dv_io d))
  | _ => false
  end.

Lemma writes_served : match conv_init_namespace small 120 capacity clock with
                      | Some ns0 => served_writes ns0 | None => false end = true.
Proof. vm_compute. reflexivity. Qed.

Lemma writes_counted : match conv_init_namespace small 120 capacity clock with
                       | Some ns0 => match rung ns0 with
                                     | Done _ d => dv_sqes d !! 1 = Some (set_stat (SqStat 3 1 3 3 12288) ring)
                                     | _ => False
                                     end
                       | None => False
                       end.
Proof. vm_compute. reflexivity. Qed.

Lemma drive_never_faults_witness :
  match conv_init_namespace small 120 capacity clock with
  | Some ns0 =>
    match rung ns0 with
    | Done r d => wp never (nvmev_proc_io_sq (H := conv_ns_ops (fun t => t)) 8 1 times 1 0 r) (fun r _ => 0 <= r < 4) d
    | _ => False
    end
  | None => False
  end.
Proof.
  pose proof writes_served as Hs. pose proof writes_counted as Hsq. pose proof sample_params as Hp.
  destruct (conv_init_namespace small 120 capacity clock) as [ns0|] eqn:En; [|discriminate Hs].
  destruct (ssd_init_params small capacity (SSD_PARTITIONS small)) as [spp|] eqn:Es; [|discriminate Hp].
  apply andb_true_iff in Hp as [Hp Ho]. destruct sample_config as (Hc & Hcap & Hop).
  pose proof (Build_started _ _ _ _ _ _ Hc Hcap Es Hp En Hop Ho) as Hst.
  apply andb_true_iff in Hs as [Hrq Hs]. destruct (rung ns0) as [r d| |] eqn:Er; [|discriminate Hs..].
  apply andb_true_iff in Hs as [Hr3 _]. apply Z.eqb_eq in Hr3 as ->.
  assert (Hslots : Forall (fun e => exists cmd, slot (sq_slots ring) e = Some cmd /\ conv_command_ok ns0 cmd) [0; 1; 2; 3]).
  { cbn [forallb] in Hrq. rewrite !andb_true_iff in Hrq. destruct Hrq as (H0 & H1 & H2 & H3 & _).
    repeat constructor; (eexists; split; [reflexivity|]; split; [reflexivity|]; intros; assumption). }
  destruct (drive_never_faults 8 1 (fun _ => false) false (fun t => t) small 120 capacity clock spp ns0
    (Device d (IoMemory ∅ ∅ capacity) [(0, ns_size ns0)] [PStart])) as [H _]; [unfold NONE; lia|lia|exact Hst| |].
  - eapply reach_step; [apply reach_init; by instantiate (1 := y0 ns0)|].
    apply (ring_doorbell 8 1 _ _ _ (y0 ns0) times 1 ring 3 0 3); [reflexivity| |exact Er].
    split; [simpl; lia|]. split; [simpl; lia|]. by apply (Forall_take _ 3) in Hslots.
  - apply (H times 1 _ 0 3 Hsq). split; [simpl; lia|]. split; [simpl; lia|]. by apply (Forall_drop _ 3) in Hslots.
Defined.
End DriveSample.
